(* ===== verification/_CoqProject ===== *)
-Q . S2P
Prelude.v
Tuples.v
Interfaces.v
Slices.v
Sets.v
Maps.v
GoStrings.v
JsonLexer.v
JsonPath.v
JsonPrint.v
JsonEval.v
Customize.v
Types.v
KbUser.v
WhereResolver.v
WhereResolverFacts.v
HashDomains.v
HashMap.v
Relations.v
FactoredMap.v
Receivers.v
Differencers.v
Joins.v
RelayMap.v
Organizer.v
SetBinder.v
WorkloadProjector.v
WorkloadProjectorFacts.v
SyncerConfig.v
SyncerConfigFacts.v
WhatResolver.v
WhatResolverFacts.v
WhereFeed.v
ObjectSync.v
ObjectSyncFacts.v
SyncerManagers.v
SyncerManagersFacts.v
Effects.v
Syncers.v
SyncersFacts.v
Base64.v
ApiWatch.v
ApiWatchFacts.v
SpaceManager.v
SpaceManagerFacts.v
SpaceProviders.v
SpaceClient.v
MailboxWatch.v
Mailbox.v
MailboxFacts.v
Witnesses.v
JsonWitnesses.v
WhereWitnesses.v
PlacementWitnesses.v
ObjectWitnesses.v
SyncerWitnesses.v
SpaceWitnesses.v
