(* ===== verification/Prelude.v ===== *)
(** * A verification development for KubeStellar

    KubeStellar distributes workload objects from spaces that describe them to edge
    clusters.  EdgePlacement objects say _what_ to distribute and _where_.  The
    where-resolver (pkg/where-resolver) turns the "where" of each EdgePlacement into a
    list of destinations, the SinglePlacementSlice.  The placement translator
    (pkg/placement) resolves the "what" into workload parts, joins the two, and projects
    the objects into the mailbox space of each destination, where the syncer of the edge
    cluster picks them up; on the way an object may be customized (pkg/customize) by
    parameter expansion and by replacements at JSONPath locations (pkg/jsonpath).  The mailbox
    spaces are made by the mailbox controller (cmd/mailbox-controller) with the space
    framework (space-framework), which manages spaces of several providers.

    The core of the placement translator is a small library of collections, relations and
    incremental joins (pkg/placement), on which two components are built: the _set binder_,
    which joins what and where per EdgePlacement, and the _binding organizer_, which merges
    the bindings of all EdgePlacements, chooses API versions, and informs the workload
    projector.  They communicate by calls to receivers: an object with methods [Put] and
    [Delete] (or [Add] and [Remove]) that is told every change of a map (or a set).

    ** Files

    - Prelude.v: notation, hint databases, tactics; Go's iteration over maps in an
      arbitrary order ([MapRange]); references into a world ([Cell], lenses) by which a
      component updates its own part of the state; what it means that an operation leaves
      the other parts alone ([Frame], [Indep], [Updated]); loops with early exit ([visit],
      [for_each]).
    - Tuples.v (tuples.go, functions.go), Slices.v (slices.go), Types.v (declarations.go,
      external-name.go, two API types): the data.
    - Interfaces.v (set-types.go, map-types.go, relation-types.go): the Go interfaces as
      records of operations, and their contracts as classes: [MutableSetOk] and
      [MutableMapOk] for a collection that represents a finite set or map,
      [SetWriterOk], [MappingReceiverOk] and [MapChangeReceiverOk] for a receiver that
      represents the set or map it was told of.  Clients are verified against
      contracts, implementations discharge them.
    - Sets.v (set-types.go, map-set.go) and Maps.v (map-types.go, map-map.go,
      map-key-set.go, map-rotated-key.go, map-constant.go): Go maps as sets and maps with
      an observer, views, bulk operations, enumeration of differences.
    - HashDomains.v (hash-domain.go) and HashMap.v (map-hash.go, set-hash.go): 64-bit hashes
      with wrap-around; the array of buckets refines a finite map.
    - Relations.v (set-indexed.go, map-relation.go, relation-types.go): sets of tuples kept
      with an index by their first column, which is always exact.
    - FactoredMap.v (map-factored.go, map-factored-aggregate.go): maps whose keys are split
      in two, with observers of the whole, of the outer map and of its keys, and the
      aggregation of each inner map into one value.
    - Receivers.v (combinators of set-types.go, map-types.go, dummies.go): forks,
      transformations, receivers made of functions.
    - Differencers.v (map-set-differencer.go, slice-differencer.go): receivers of whole
      collections that forward exactly the difference with the last one.
    - Joins.v (join-static.go, join-dynamic-12with13.go, join-dynamic-12vwith13.go,
      set-project.go): static equijoins, and dynamic ones, whose output receiver always
      holds the join of the two inputs.
    - RelayMap.v (relay-map.go, client-tracker.go): a map that replays its contents to late
      receivers, and the tracker of the clients of a provider.
    - Organizer.v (binding-organizer.go) and SetBinder.v (set-binder-assembly.go, parts of
      main.go): the two components, with state, transactions and lazily created inner
      structures.
    - GoStrings.v: Go strings, UTF-8 and ParseInt.  JsonLexer.v, JsonPath.v, JsonEval.v
      (lexer.go, parser.go, eval.go of pkg/jsonpath): JSONPath expressions; JsonPrint.v: a
      printer of them.  Customize.v (pkg/customize/customize.go): customization.
    - KbUser.v (pkg/kbuser): names and identifiers of consumers under kube-bind.
    - WhereResolver.v (pkg/where-resolver): the reconcilers of the where-resolver in a monad
      of errors and panics; WhereResolverFacts.v: their correctness.
    - WhatResolver.v (what-resolver.go): which objects of a space match which EdgePlacements,
      as objects, resources and EdgePlacements come and go; WhatResolverFacts.v: what is on
      record and what the receiver is told.
    - WorkloadProjector.v (workload-projector.go): the tables of distributions, modes and
      upsyncs, each in two indices over records that are shared between them, and the
      transactions on them; WorkloadProjectorFacts.v: it satisfies the interface that
      Organizer.v is verified against.
    - SyncerConfig.v (workload-projector.go): the SyncerConfig of a mailbox space, made from
      the tables, compared with what is there, created and updated through the interface
      [EdgeClient]; SyncerConfigFacts.v: its correctness.
    - ObjectSync.v (workload-projector.go): the work on source objects, which copies them to
      the mailbox spaces, and on destination objects, which deletes them there or returns
      their reported state, through the interface [ObjectClient]; ObjectSyncFacts.v.
    - SyncerManagers.v (pkg/syncer/controller): the managers that turn the SyncerConfig of the
      mailbox space into lists of what to sync; SyncerManagersFacts.v.
    - Effects.v: the monad of state, errors and panics in which the syncer and the space
      framework are written.
    - Syncers.v (pkg/syncer/syncers, clientfactory, syncer.go): the downsyncer, the upsyncer,
      their clients and a round of the syncer, through the interface [DynamicClient];
      SyncersFacts.v: their correctness.
    - WhereFeed.v (where-resolver.go of pkg/placement): the relay of SinglePlacementSlices to
      the set binder.
    - ApiWatch.v (pkg/apiwatch): the list-watcher of the API resources of a server, with the
      objects that define each; ApiWatchFacts.v: a transition system of it, and its
      correctness.
    - Base64.v: Go's base64.  SpaceManager.v (space-framework/pkg/space-manager): the
      reconcilers of the space manager through the interface [SpaceServer];
      SpaceManagerFacts.v.  SpaceProviders.v (space-framework/space-provider): what the
      watchers of kind, KubeFlex and kcp report to it.  SpaceClient.v
      (space-framework/pkg/msclientlib): the configurations that clients are given.
    - MailboxWatch.v (pkg/mailboxwatch): the list-watcher over all mailbox workspaces.
    - Mailbox.v (cmd/mailbox-controller): the controller that has the space manager create
      the mailbox Spaces; MailboxFacts.v.
    - Witnesses.v, JsonWitnesses.v, WhereWitnesses.v, PlacementWitnesses.v, ObjectWitnesses.v,
      SyncerWitnesses.v, SpaceWitnesses.v: the theorems applied at concrete inputs.

    ** Correspondence

    A Go function or method is a definition of the same name; a method of a type [T] is
    [T_Method].  State is passed explicitly: the operations of pkg/placement act on a world
    [W] of which each component knows its own [Cell], so that components share a world as
    they share the heap in the source, and the theorems hold for every world and every
    receiver that satisfies the contract.  A closure that the source builds with the parts
    it captures is a definition with those parts as arguments.  A nil function or interface
    is [None]; an error is an option of an error, and early returns of a visitor are
    the first error of [visit].  Mutexes make each operation atomic, so an execution is
    a sequence of operations; a round of the syncer counts as one.  JSON values are mutable and
    may be shared: JsonEval.v and Customize.v keep them in a store of arrays and objects.
    Where the code modifies an object of an informer in place, so does the model.

    ** What the theorems show

    - End to end: after any sequence of inputs the single binder has been told exactly the
      join of what and where (SetBinder.v), and the workload projector exactly the requested
      bindings that go to mailboxes, merged over EdgePlacements and with the picked API
      versions, if each resource is either namespaced or cluster-scoped (Organizer.v).
    - Each dynamic join, projection, aggregation, relay, differencer and fork keeps its
      receiver in step with its specification, whatever the order in which Go iterates.
    - Hash map, indexed set and relations refine finite maps and sets of tuples.
    - Enumerating differences, symmetric differences, bulk additions and static joins compute
      what they name.
    - JSONPath: parsing always returns, without a panic, and inverts printing; applying a path
      terminates for positive strides, replaces exactly the selected places, diverges for
      stride 0 and panics when the index overflows.
    - Customization never changes its input and skips exactly the unusable replacements.
    - What-resolver: whatever it processes, every part on record has been told to the receiver;
      processing an EdgePlacement records exactly the objects that pass a test of its downsync
      list, stated independently of the code, for objects whose namespace is known and for
      whose resource it has no upsync set; processing an object agrees with it; exactly the
      resources that go to the edge are watched; but an object that stops matching is not
      reported, an unknown namespace matches, and upsync sets with listed names are ignored.
    - Workload projector: a transaction that does not panic leaves both indices of every table
      exact and reconsiders every destination whose distributions it changed, so the
      projector is what the organizer's theorem assumes; it does not panic if every
      distribution has a mode and every new source can be reached, and it panics if a new
      source cannot be reached; transactions of upsyncs alone go unnoticed.
    - SyncerConfigs: one made from the relations is recognised as good; after work on a
      reference that need not be retried the mailbox space holds a SyncerConfig that lists
      exactly what the tables say, unless there was one that the projector cannot have made.
    - Objects: merging a source object takes over exactly what it should and is stable; work
      on a source object that need not be retried has been, for every destination of the
      tables in turn, the work of copying to it, and what that leaves there carries the
      source; an object at a destination, other than a Namespace, is deleted exactly if the
      tables do not distribute it there, and its state is returned only to sources that ask
      for it; but the retry of a report of singleton state is inverted.
    - Syncer: after every change the manager lists exactly what the EdgeSyncConfigs ask for,
      and what they asked for before as unsynced; after any history of SyncerConfigs a
      refresh asks for exactly what those present say, so that the syncer of an edge cluster downsyncs exactly the objects
      that the tables of the workload projector distribute there.  A downsync or an upsync
      reports no error if the servers do not, and leaves at every name what should be there;
      it never deletes what is not the syncer's.  But create-only objects can make it panic,
      and one unknown resource keeps the others from being synced.
    - Where-resolver: once all Locations have been reconciled, in any order and with any
      failures in between, the internal data are exact; reconciling a Location or an EdgePlacement
      writes exactly the affected slices, with exactly the right destinations; both assume
      well-formed selectors, for one malformed selector hides the EdgePlacements after it;
      deletions panic, and
      SyncTargets can be placed at Locations of other spaces.
    - API resources: at any time the definers that a list shows are those that the events say;
      every watch that goes on started from the current version, or a new list is due; and a
      list with subresources shows the tree that discovery reports.
    - Space framework: a watcher that polls reports exactly the difference between what it
      saw and sees; a managed Space goes from the request to its provider over being ready,
      with its secrets, to its removal; and what the provider gives as configuration is what
      a client of the library gets.  But a failed update leaves a Space stuck, discovered
      spaces get no secrets, and a provider that comes back is not watched.
    - Mailboxes: a SyncTarget gets a Space through the space manager, and the syncer's
      resources are bound into it once it is ready; but not if its consumer becomes known
      later, and the Space stays when the SyncTarget goes.  A list over the mailbox workspaces
      has exactly the items that are not newer than its version.
    - kube-bind: translating names is a round trip, and the relation of spaces and consumers
      is 1:1 after any sequence of events.

    ** Bounds and fuel

    Hash values are taken modulo 2^64 and [int] is 64 bits wide in JSONPath ranges.  The
    loops of the lexer and the parser consume a byte of the source at each step, so the
    length of the source is enough fuel, as [ParseString_total] shows.  [Apply] need not
    terminate; it returns [Diverges] when the fuel is used up, [Apply_terminates] gives a
    sufficient fuel, and [zero_stride_diverges] holds for every fuel.  [expandString] reads
    a rune per step.  The upsync of all objects of all namespaces calls itself once per
    namespace, so a depth of two is enough, as [UpSyncer_SyncMany_returns] shows.  The tree of
    the resources of a group is as deep as the longest of their names has steps, which is
    enough fuel to list it, as [listWithSubresources_right] shows.  All other recursion is
    structural.

    ** Not modelled

    Informers, work queues, API clients, goroutines, command lines and plugins, generated code
    and JSON and string output.  Logging has no effect on the state.  Of informers only
    their stores, indices and handlers appear.  Parameters of the model are code outside the
    repository: the JavaScript parser goja, the Unicode tables outside ASCII, encoding/json, the API
    discovery that the organizer queries, the stores of informers, label selectors, whether the
    space client has a config for a space, the API servers, and the receivers at the ends of
    the pipelines.  What is assumed of an API server is stated where it is used: that an
    object it accepts is stored with what was sent, possibly with defaults ([ObjectClientOk]),
    and, for the requests of one lifecycle, that these very requests are accepted. *)

From stdpp Require Export gmap strings list fin_maps fin_map_dom.
From stdpp Require Export ssreflect.

(** * Notations, scope and hint databases *)

Declare Scope placement_scope.
Delimit Scope placement_scope with placement.

(** The hints that discharge the frame and well-formedness side conditions. *)
Create HintDb placement.

(** Rewriting equations of the loops and of the lookups in nested maps. *)
Create Rewrite HintDb placement_rw.

(** * Go's [range] over a map

    Go leaves the iteration order of a map unspecified.  [MapRange] is an
    arbitrary choice of such an order; every theorem that depends on an
    iteration is stated for all of them. *)
Class MapRange : Type := {
  map_range : ∀ {K V : Type} `{!EqDecision K} `{!Countable K}, gmap K V → list (K * V);
  map_range_perm : ∀ {K V : Type} `{!EqDecision K} `{!Countable K} (m : gmap K V),
    map_range m ≡ₚ map_to_list m
}.

(** The order in which the finite maps of the model enumerate themselves. *)
Definition canonical_range : MapRange :=
  {| map_range := λ K V _ _ m, map_to_list m;
     map_range_perm := λ K V _ _ m, reflexivity _ |}.

(** The opposite order, a second inhabitant. *)
Definition reversed_range : MapRange.
Proof.
  refine {| map_range := λ K V _ _ m, reverse (map_to_list m) |}.
  intros. apply reverse_Permutation.
Defined.

(** [for element := range set], for a [map[Elt]Empty]. *)
Definition set_range `{MapRange} {E} `{Countable E} (X : gset E) : list E :=
  (map_range (gset_to_gmap () X)).*1.

(** * References

    A [Cell W S] is a Go reference to a variable of type [S] in a world [W];
    the closures of the source, which capture such references, become functions
    on worlds. *)
Record Cell (W S : Type) : Type := MkCell {
  cget : W → S;
  cset : S → W → W
}.
Arguments MkCell {_ _} _ _.
Arguments cget {_ _} _ _.
Arguments cset {_ _} _ _ _.

Class CellOk {W S} (c : Cell W S) : Prop := {
  cget_cset : ∀ s w, cget c (cset c s w) = s;
  cset_cset : ∀ s s' w, cset c s (cset c s' w) = cset c s w
}.

(** A world that is nothing but the variable. *)
Definition id_cell {S} : Cell S S := MkCell id (λ s _, s).

#[export] Instance id_cell_ok {S} : CellOk (@id_cell S).
Proof. by split. Qed.

(** [Frame op f]: the operation [op] does not change the observation [f]. *)
Definition Frame {W X} (op : W → W) (f : W → X) : Prop := ∀ w, f (op w) = f w.

(** * Enumerations *)

(** Go's [error] results; [errStop] is the sentinel of set-types.go. *)
Inductive error : Set :=
| errStop
| Err (msg : string).

#[export] Instance error_eq_dec : EqDecision error.
Proof. solve_decision. Defined.

(** Calling a visitor on the members of an enumeration, in order, aborting on error. *)
Fixpoint visit {E S} (visitor : E → S → option error * S) (l : list E) (s : S)
  : option error * S :=
  match l with
  | [] => (None, s)
  | e :: l =>
      match visitor e s with
      | (None, s) => visit visitor l s
      | (Some err, s) => (Some err, s)
      end
  end.

(** The enumeration by a visitor that always returns [nil]. *)
Definition for_each {E S} (l : list E) (f : E → S → S) (s : S) : S :=
  foldl (λ s e, f e s) s l.

Section visit_facts.
Context {E S : Type}.
Implicit Types (l : list E) (f : E → S → S) (s : S).

Lemma visit_nil_error (visitor : E → S → option error * S) l s :
  (∀ e s, (visitor e s).1 = None) →
  visit visitor l s = (None, for_each l (λ e s, (visitor e s).2) s).
Proof.
  intros Hv. revert s. induction l as [|e l IH]; intros s; [done|]. simpl.
  specialize (Hv e s) as He. destruct (visitor e s) as [o s']. simpl in He. subst o.
  by rw IH.
Qed.

(** A visitor that only looks for a member satisfying a test. *)
Lemma visit_test (p : E → bool) l s :
  visit (λ e s, (if p e then Some errStop else None, s)) l s
  = (if existsb p l then Some errStop else None, s).
Proof. induction l as [|e l IH]; [done|]. simpl. by destruct (p e). Qed.

(** The list representations of the compound enumerations: a visit of the
    transformed, selected or nested list is the visit the source writes with a
    wrapped visitor. *)
Lemma visit_fmap {D} (h : D → E) (visitor : E → S → option error * S) (l : list D) s :
  visit visitor (h <$> l) s = visit (λ d, visitor (h d)) l s.
Proof.
  revert s. induction l as [|d l IH]; intros s; [done|]. simpl.
  by destruct (visitor (h d) s) as [[] s'].
Qed.

Lemma visit_app (visitor : E → S → option error * S) l1 l2 s :
  visit visitor (l1 ++ l2) s
  = match visit visitor l1 s with
    | (None, s) => visit visitor l2 s
    | (Some err, s) => (Some err, s)
    end.
Proof.
  revert s. induction l1 as [|e l1 IH]; intros s; [done|]. simpl.
  by destruct (visitor e s) as [[] s'].
Qed.

Lemma visit_bind {D} (h : D → list E) (visitor : E → S → option error * S) (l : list D) s :
  visit visitor (l ≫= h) s = visit (λ d, visit visitor (h d)) l s.
Proof.
  revert s. induction l as [|d l IH]; intros s; [done|]. cbn. rw visit_app.
  by destruct (visit visitor (h d) s) as [[] s'].
Qed.

Lemma visit_filter (p : E → bool) (visitor : E → S → option error * S) l s :
  visit visitor (filter (λ e, p e = true) l) s
  = visit (λ e s, if p e then visitor e s else (None, s)) l s.
Proof.
  revert s. induction l as [|e l IH]; intros s; [done|]. rw filter_cons.
  destruct (p e) eqn:Hp; simpl; rw Hp; simpl; [|apply IH].
  by destruct (visitor e s) as [[] s'].
Qed.

Lemma for_each_cons e l f s : for_each (e :: l) f s = for_each l f (f e s).
Proof. done. Qed.

Lemma for_each_app l1 l2 f s : for_each (l1 ++ l2) f s = for_each l2 f (for_each l1 f s).
Proof. apply foldl_app. Qed.

(** Loop bodies that agree pointwise may be exchanged by rewriting. *)
#[global] Instance for_each_proper :
  Proper (eq ==> pointwise_relation E (pointwise_relation S eq) ==> eq ==> eq) (@for_each E S).
Proof.
  intros l _ <- f g Hfg s _ <-. revert s. induction l as [|e l IH]; intros s; [done|].
  rw !for_each_cons (Hfg e s : f e s = g e s). apply IH.
Qed.

Lemma for_each_fmap {D} (h : D → E) (l : list D) f s :
  for_each (h <$> l) f s = for_each l (λ d, f (h d)) s.
Proof. revert s. induction l as [|d l IH]; intros s; [done|]. apply IH. Qed.

Lemma for_each_frame {X} (g : S → X) l f s :
  (∀ e s, g (f e s) = g s) → g (for_each l f s) = g s.
Proof.
  intros Hf. revert s. induction l as [|e l IH]; intros s; [done|].
  by rw for_each_cons IH Hf.
Qed.

(** Loop rule: an invariant indexed by the part of the enumeration already done. *)
Lemma for_each_ind (I : list E → S → Prop) l f s :
  I [] s →
  (∀ done e todo s, l = done ++ e :: todo → I done s → I (done ++ [e]) (f e s)) →
  I l (for_each l f s).
Proof.
  intros H0 Hstep.
  assert (∀ todo done s, l = done ++ todo → I done s →
            I (done ++ todo) (for_each todo f s)) as Hgen.
  { induction todo as [|e todo IH]; intros done s' Hl HI.
    - by rw app_nil_r.
    - rw for_each_cons (cons_middle e done todo) app_assoc.
      apply IH; [by rw -app_assoc|]. by apply (Hstep _ _ todo). }
  by apply (Hgen l [] s).
Qed.
End visit_facts.

#[export] Hint Rewrite @for_each_app : placement_rw.

(** A loop each of whose steps adds the elements that satisfy [P]. *)
Lemma for_each_collects {A B} (f : A → list B → list B) (P : A → B → Prop) l acc r :
  (∀ x acc r, r ∈ f x acc ↔ r ∈ acc ∨ P x r) →
  r ∈ for_each l f acc ↔ r ∈ acc ∨ ∃ x, x ∈ l ∧ P x r.
Proof.
  intros Hf. revert acc. induction l as [|x l IH]; intros acc.
  - cbn. split; [by left|]. intros [?|(x & Hx & _)]; [done|]. by apply not_elem_of_nil in Hx.
  - change (for_each (x :: l) f acc) with (for_each l f (f x acc)). rw IH Hf. setoid_rewrite elem_of_cons. naive_solver.
Qed.

Lemma elem_of_snoc {A} (l : list A) x y : y ∈ l ++ [x] ↔ y ∈ l ∨ y = x.
Proof. by rw elem_of_app list_elem_of_singleton. Qed.

(** The loops over a list whose steps add one element, or none. *)
Lemma for_each_adds {A B} (g : A → B) l acc r :
  r ∈ for_each l (λ x acc, acc ++ [g x]) acc ↔ r ∈ acc ∨ ∃ x, x ∈ l ∧ r = g x.
Proof. apply (for_each_collects _ (λ x r, r = g x)). intros x acc' r'. apply elem_of_snoc. Qed.

(** A loop that appends an element per step. *)
Lemma for_each_map {A B} (g : A → B) l acc : for_each l (λ x acc, acc ++ [g x]) acc = acc ++ (g <$> l).
Proof.
  revert acc. induction l as [|x l IH]; intros acc; [by rw app_nil_r|]. rw for_each_cons IH -app_assoc //.
Qed.

Lemma exists_Some_eq {A} (x : A) (P : A → Prop) : (∃ y, Some x = Some y ∧ P y) ↔ P x.
Proof. split; [by intros (? & [= <-] & ?)|by exists x]. Qed.

Lemma exists_None_eq {A} (P : A → Prop) : (∃ y, None = Some y ∧ P y) ↔ False.
Proof. split; [by intros (? & ? & _)|done]. Qed.

(** * Facts about the iteration orders *)

Section range_facts.
Context `{MapRange}.

Lemma elem_of_map_range {K V} `{Countable K} (m : gmap K V) k v :
  (k, v) ∈ map_range m ↔ m !! k = Some v.
Proof. by rw map_range_perm elem_of_map_to_list. Qed.

Lemma NoDup_map_range_fst {K V} `{Countable K} (m : gmap K V) : NoDup (map_range m).*1.
Proof. rw map_range_perm. apply NoDup_fst_map_to_list. Qed.

Lemma length_map_range {K V} `{Countable K} (m : gmap K V) : length (map_range m) = size m.
Proof. rw map_range_perm. apply length_map_to_list. Qed.

Lemma map_range_empty {K V} `{Countable K} : map_range (∅ : gmap K V) = [].
Proof. apply Permutation_nil_r. by rw map_range_perm map_to_list_empty. Qed.

Lemma map_range_list_to_map {K V} `{Countable K} (m : gmap K V) :
  list_to_map (map_range m) = m.
Proof.
  rw -{2}(list_to_map_to_list m). apply list_to_map_proper;
    [apply NoDup_map_range_fst|apply map_range_perm].
Qed.

Lemma set_range_perm {E} `{Countable E} (X : gset E) : set_range X ≡ₚ elements X.
Proof.
  unfold set_range. apply NoDup_Permutation.
  - apply NoDup_map_range_fst.
  - apply NoDup_elements.
  - intros x. rw elem_of_elements list_elem_of_fmap. split.
    + intros [[y []] [-> Hy]]. apply elem_of_map_range in Hy.
      by apply lookup_gset_to_gmap_Some in Hy as [? _].
    + intros Hx. exists (x, ()). split; [done|]. apply elem_of_map_range.
      by apply lookup_gset_to_gmap_Some.
Qed.

Lemma elem_of_set_range {E} `{Countable E} (X : gset E) x : x ∈ set_range X ↔ x ∈ X.
Proof. by rw set_range_perm elem_of_elements. Qed.

Lemma NoDup_set_range {E} `{Countable E} (X : gset E) : NoDup (set_range X).
Proof. rw set_range_perm. apply NoDup_elements. Qed.

Lemma length_set_range {E} `{Countable E} (X : gset E) : length (set_range X) = size X.
Proof. by rw set_range_perm. Qed.
End range_facts.

#[export] Hint Resolve NoDup_map_range_fst NoDup_set_range : placement.
