(* ===== verification/Tuples.v ===== *)
(** Tuples, rotators and factorers of pkg/placement (tuples.go, functions.go).

    [Pair] is the product of Rocq; [Triple] and [Quad] are records.  A [Rotator]
    is a pair of conversion functions and a [Factorer] a rotator whose target is a
    pair; [RotatorOk] and [FactorerOk] say that the two functions are inverse to
    each other, which is what every client of them relies on. *)

From S2P Require Import Prelude.

(** * Tuples *)

Abbreviation Pair := prod (only parsing).
Abbreviation Empty := unit (only parsing).

Definition NewPair {First Second} (first : First) (second : Second) : Pair First Second :=
  (first, second).

Definition Pair_Reverse {First Second} (tup : Pair First Second) : Pair Second First :=
  (tup.2, tup.1).

Definition PairReverse {First Second} (forward : Pair First Second) : Pair Second First :=
  (forward.2, forward.1).

Definition NewPair1Then2 {First Second} (first : First) : Second → Pair First Second :=
  λ second, (first, second).

Definition NewPair2Then1 {First Second} (second : Second) : First → Pair First Second :=
  λ first, (first, second).

Record Triple (First Second Third : Type) : Type := NewTriple {
  tFirst : First;
  tSecond : Second;
  tThird : Third
}.
Arguments NewTriple {_ _ _} _ _ _.
Arguments tFirst {_ _ _} _.
Arguments tSecond {_ _ _} _.
Arguments tThird {_ _ _} _.

Definition Triple_Reverse {A B C} (tup : Triple A B C) : Triple C B A :=
  NewTriple (tThird tup) (tSecond tup) (tFirst tup).

Record Quad (First Second Third Fourth : Type) : Type := NewQuad {
  qFirst : First;
  qSecond : Second;
  qThird : Third;
  qFourth : Fourth
}.
Arguments NewQuad {_ _ _ _} _ _ _ _.
Arguments qFirst {_ _ _ _} _.
Arguments qSecond {_ _ _ _} _.
Arguments qThird {_ _ _ _} _.
Arguments qFourth {_ _ _ _} _.

#[export] Instance Triple_eq_dec `{EqDecision A, EqDecision B, EqDecision C} :
  EqDecision (Triple A B C).
Proof. solve_decision. Defined.

#[export] Instance Triple_countable `{Countable A, Countable B, Countable C} :
  Countable (Triple A B C).
Proof.
  refine (inj_countable' (λ t, (tFirst t, tSecond t, tThird t))
            (λ p, NewTriple p.1.1 p.1.2 p.2) _).
  by intros [].
Defined.

#[export] Instance Quad_eq_dec `{EqDecision A, EqDecision B, EqDecision C, EqDecision D} :
  EqDecision (Quad A B C D).
Proof. solve_decision. Defined.

#[export] Instance Quad_countable `{Countable A, Countable B, Countable C, Countable D} :
  Countable (Quad A B C D).
Proof.
  refine (inj_countable' (λ t, (qFirst t, qSecond t, qThird t, qFourth t))
            (λ p, NewQuad p.1.1.1 p.1.1.2 p.1.2 p.2) _).
  by intros [].
Defined.

(** * Functions *)

Definition Identity1 {Val} (val : Val) : Val := val.

Definition NewThunk {Val} (val : Val) : unit → Val := λ _, val.

Definition Func11Compose11 {Type1 Type2 Type3} (fn1 : Type1 → Type2) (fn2 : Type2 → Type3)
  : Type1 → Type3 :=
  λ val1, let val2 := fn1 val1 in fn2 val2.

(** * Rotators and factorers *)

Record Rotator (Original Rotated : Type) : Type := NewRotator {
  rotFirst : Original → Rotated;
  rotSecond : Rotated → Original
}.
Arguments NewRotator {_ _} _ _.
Arguments rotFirst {_ _} _ _.
Arguments rotSecond {_ _} _ _.

Definition Rotator_Reverse {Original Rotated} (rr : Rotator Original Rotated)
  : Rotator Rotated Original :=
  NewRotator (rotSecond rr) (rotFirst rr).

Definition NoRotation {Original} : Rotator Original Original := NewRotator Identity1 Identity1.

Abbreviation Factorer Whole PartA PartB := (Rotator Whole (Pair PartA PartB)).

Definition NewFactorer {Whole PartA PartB} (forward : Whole → Pair PartA PartB)
  (reverse : Pair PartA PartB → Whole) : Factorer Whole PartA PartB :=
  NewRotator forward reverse.

Definition Factorer_Factor {Whole PartA PartB} (factoring : Factorer Whole PartA PartB)
  (whole : Whole) : PartA * PartB :=
  let ans := rotFirst factoring whole in (ans.1, ans.2).

Definition Factorer_Unfactor {Whole PartA PartB} (factoring : Factorer Whole PartA PartB)
  (partA : PartA) (partB : PartB) : Whole :=
  rotSecond factoring (partA, partB).

Definition PairReverser {PartA PartB} : Rotator (Pair PartA PartB) (Pair PartB PartA) :=
  NewRotator Pair_Reverse Pair_Reverse.

Definition PairFactorer {PartA PartB} : Factorer (Pair PartA PartB) PartA PartB :=
  NewRotator Identity1 Identity1.

Definition TripleReverser {A B C} : Rotator (Triple A B C) (Triple C B A) :=
  NewRotator Triple_Reverse Triple_Reverse.

Definition TripleFactorerTo23and1 {ColX ColY ColZ}
  : Factorer (Triple ColX ColY ColZ) (Pair ColY ColZ) ColX :=
  NewRotator
    (λ tup, ((tSecond tup, tThird tup), tFirst tup))
    (λ put, NewTriple put.2 put.1.1 put.1.2).

Definition TripleFactorerTo13and2 {ColX ColY ColZ}
  : Factorer (Triple ColX ColY ColZ) (Pair ColX ColZ) ColY :=
  NewFactorer
    (λ tup, NewPair (NewPair (tFirst tup) (tThird tup)) (tSecond tup))
    (λ put, NewTriple put.1.1 put.2 put.1.2).

Definition TripleFactorerTo1and23 {ColX ColY ColZ}
  : Factorer (Triple ColX ColY ColZ) ColX (Pair ColY ColZ) :=
  NewFactorer
    (λ tup, NewPair (tFirst tup) (NewPair (tSecond tup) (tThird tup)))
    (λ put, NewTriple put.1 put.2.1 put.2.2).

Definition TripleFactorerTo3and21 {ColX ColY ColZ}
  : Factorer (Triple ColX ColY ColZ) ColZ (Pair ColY ColX) :=
  NewFactorer
    (λ tup, NewPair (tThird tup) (NewPair (tSecond tup) (tFirst tup)))
    (λ put, NewTriple put.2.2 put.2.1 put.1).

Definition QuadFactorerTo1and234 {ColW ColX ColY ColZ}
  : Factorer (Quad ColW ColX ColY ColZ) ColW (Triple ColX ColY ColZ) :=
  NewFactorer
    (λ tup, NewPair (qFirst tup) (NewTriple (qSecond tup) (qThird tup) (qFourth tup)))
    (λ put, NewQuad put.1 (tFirst put.2) (tSecond put.2) (tThird put.2)).

(** * Correctness of rotators *)

(** A rotator is a bijection. *)
Class RotatorOk {Original Rotated} (rr : Rotator Original Rotated) : Prop := {
  rot_second_first : ∀ x, rotSecond rr (rotFirst rr x) = x;
  rot_first_second : ∀ y, rotFirst rr (rotSecond rr y) = y
}.

#[export] Hint Rewrite @rot_second_first @rot_first_second
  using typeclasses eauto : placement_rw.

#[export] Instance Rotator_Reverse_ok `(rr : Rotator A B) `{!RotatorOk rr} :
  RotatorOk (Rotator_Reverse rr).
Proof. split; intros; [apply rot_first_second|apply rot_second_first]. Qed.

(** Proves [RotatorOk] of a rotator that only rearranges the components of tuples. *)
Ltac solve_rotator :=
  split; intros; repeat match goal with
    | x : Pair _ _ |- _ => destruct x
    | x : Triple _ _ _ |- _ => destruct x
    | x : Quad _ _ _ _ |- _ => destruct x
    end; reflexivity.

#[export] Instance NoRotation_ok {A} : RotatorOk (@NoRotation A).
Proof. solve_rotator. Qed.
#[export] Instance PairReverser_ok {A B} : RotatorOk (@PairReverser A B).
Proof. solve_rotator. Qed.
#[export] Instance PairFactorer_ok {A B} : RotatorOk (@PairFactorer A B).
Proof. solve_rotator. Qed.
#[export] Instance TripleReverser_ok {A B C} : RotatorOk (@TripleReverser A B C).
Proof. solve_rotator. Qed.
#[export] Instance TripleFactorerTo23and1_ok {A B C} : RotatorOk (@TripleFactorerTo23and1 A B C).
Proof. solve_rotator. Qed.
#[export] Instance TripleFactorerTo13and2_ok {A B C} : RotatorOk (@TripleFactorerTo13and2 A B C).
Proof. solve_rotator. Qed.
#[export] Instance TripleFactorerTo1and23_ok {A B C} : RotatorOk (@TripleFactorerTo1and23 A B C).
Proof. solve_rotator. Qed.
#[export] Instance TripleFactorerTo3and21_ok {A B C} : RotatorOk (@TripleFactorerTo3and21 A B C).
Proof. solve_rotator. Qed.
#[export] Instance QuadFactorerTo1and234_ok {A B C D} : RotatorOk (@QuadFactorerTo1and234 A B C D).
Proof. solve_rotator. Qed.

Section rotator_facts.
Context {A B : Type} (rr : Rotator A B) `{!RotatorOk rr}.

Lemma rotFirst_inj x y : rotFirst rr x = rotFirst rr y → x = y.
Proof. intros E. by rw -(rot_second_first x) E rot_second_first. Qed.

Lemma rotSecond_inj x y : rotSecond rr x = rotSecond rr y → x = y.
Proof. intros E. by rw -(rot_first_second x) E rot_first_second. Qed.

Lemma rotFirst_rotSecond_iff x y : rotFirst rr x = y ↔ x = rotSecond rr y.
Proof.
  split; intros E; [by rw -E rot_second_first|by rw E rot_first_second].
Qed.
End rotator_facts.
