(* ===== verification/Interfaces.v ===== *)
(** The collection and receiver interfaces of pkg/placement (set-types.go,
    map-types.go, pipefitting.go, relation-types.go) and the contracts that
    implementations offer to clients.

    A Go interface value is a record of operations on a world [W]; a component
    is given the records of the components it calls.  A [Visit] method is
    represented by the list of values it feeds to its visitor (see [visit] and
    [for_each] for the calling of a visitor on such a list).

    A contract is a class: [GoSetOk], [MutableSetOk], [GoMapOk] and
    [MutableMapOk] relate the operations of a collection to a finite set or map;
    [SetWriterOk], [MappingReceiverOk] and [MapChangeReceiverOk] say that a
    receiver keeps an abstract set or map up to date.  Clients are proved against
    the classes and the implementations are instances of them. *)

From S2P Require Import Prelude Tuples.

(** * Interfaces *)

(** interface [Set] *)
Record GoSet (W Elt : Type) : Type := MkGoSet {
  set_IsEmpty : W → bool;
  set_Len : W → nat;
  set_LenIsCheap : W → bool;
  set_Has : Elt → W → bool;
  set_Visit : W → list Elt
}.
Arguments MkGoSet {_ _} _ _ _ _ _.
Arguments set_IsEmpty {_ _} _ _.
Arguments set_Len {_ _} _ _.
Arguments set_LenIsCheap {_ _} _ _.
Arguments set_Has {_ _} _ _ _.
Arguments set_Visit {_ _} _ _.

(** interface [SetWriter]; the booleans tell whether the set changed *)
Record SetWriter (W Elt : Type) : Type := MkSetWriter {
  sw_Add : Elt → W → bool * W;
  sw_Remove : Elt → W → bool * W
}.
Arguments MkSetWriter {_ _} _ _.
Arguments sw_Add {_ _} _ _ _.
Arguments sw_Remove {_ _} _ _ _.

(** interface [MutableSet] *)
Record MutableSet (W Elt : Type) : Type := MkMutableSet {
  ms_Set :> GoSet W Elt;
  ms_Writer :> SetWriter W Elt
}.
Arguments MkMutableSet {_ _} _ _.
Arguments ms_Set {_ _} _.
Arguments ms_Writer {_ _} _.

(** func type [SetChangeReceiver] *)
Definition SetChangeReceiver (W Elt : Type) : Type := bool → Elt → W → W.

(** interface [Receiver] *)
Definition Receiver (W Val : Type) : Type := Val → W → W.

(** interface [Map] *)
Record GoMap (W Key Val : Type) : Type := MkGoMap {
  map_IsEmpty : W → bool;
  map_Len : W → nat;
  map_LenIsCheap : W → bool;
  map_Get : Key → W → option Val;
  map_Visit : W → list (Pair Key Val)
}.
Arguments MkGoMap {_ _ _} _ _ _ _ _.
Arguments map_IsEmpty {_ _ _} _ _.
Arguments map_Len {_ _ _} _ _.
Arguments map_LenIsCheap {_ _ _} _ _.
Arguments map_Get {_ _ _} _ _ _.
Arguments map_Visit {_ _ _} _ _.

(** interface [MappingReceiver] *)
Record MappingReceiver (W Key Val : Type) : Type := MkMappingReceiver {
  mr_Put : Key → Val → W → W;
  mr_Delete : Key → W → W
}.
Arguments MkMappingReceiver {_ _ _} _ _.
Arguments mr_Put {_ _ _} _ _ _ _.
Arguments mr_Delete {_ _ _} _ _ _.

(** interface [MutableMap].  The values of such a map are often references to
    mutable objects; [mm_Mutate key val] is the change of the object that the
    map refers to under [key], which the map itself does not notice. *)
Record MutableMap (W Key Val : Type) : Type := MkMutableMap {
  mm_Map :> GoMap W Key Val;
  mm_Receiver :> MappingReceiver W Key Val;
  mm_Mutate : Key → Val → W → W
}.
Arguments MkMutableMap {_ _ _} _ _ _.
Arguments mm_Map {_ _ _} _.
Arguments mm_Receiver {_ _ _} _.
Arguments mm_Mutate {_ _ _} _ _ _ _.

(** interface [MapChangeReceiver] *)
Record MapChangeReceiver (W Key Val : Type) : Type := MkMapChangeReceiver {
  mcr_Create : Key → Val → W → W;
  mcr_Update : Key → Val → Val → W → W;
  mcr_DeleteWithFinal : Key → Val → W → W
}.
Arguments MkMapChangeReceiver {_ _ _} _ _ _.
Arguments mcr_Create {_ _ _} _ _ _ _.
Arguments mcr_Update {_ _ _} _ _ _ _ _.
Arguments mcr_DeleteWithFinal {_ _ _} _ _ _ _.

(** * Footprints *)

(** [Indep c f]: the observation [f] of the world does not depend on the cell. *)
Class Indep {W S X} (c : Cell W S) (f : W → X) : Prop :=
  indep : ∀ s w, f (cset c s w) = f w.

(** [Updated c r w w']: [w'] is [w] with [r] in the cell [c]. *)
Definition Updated {W R} (c : Cell W R) (r : R) (w w' : W) : Prop :=
  cget c w' = r ∧ ∀ (X : Type) (f : W → X), Indep c f → f w' = f w.

(** [QuietMR mr f] (and the like): calls of the receiver do not change [f]. *)
Class QuietMR {W K V X} (mr : MappingReceiver W K V) (f : W → X) : Prop := {
  quiet_put : ∀ k v w, f (mr_Put mr k v w) = f w;
  quiet_delete : ∀ k w, f (mr_Delete mr k w) = f w
}.

Class QuietSW {W E X} (sw : SetWriter W E) (f : W → X) : Prop := {
  quiet_add : ∀ e w, f (sw_Add sw e w).2 = f w;
  quiet_remove : ∀ e w, f (sw_Remove sw e w).2 = f w
}.

Class QuietMCR {W K V X} (o : MapChangeReceiver W K V) (f : W → X) : Prop := {
  quiet_create : ∀ k v w, f (mcr_Create o k v w) = f w;
  quiet_update : ∀ k v v' w, f (mcr_Update o k v v' w) = f w;
  quiet_final : ∀ k v w, f (mcr_DeleteWithFinal o k v w) = f w
}.

#[export] Hint Rewrite @quiet_put @quiet_delete @quiet_add @quiet_remove @quiet_create
  @quiet_update @quiet_final using typeclasses eauto : placement_rw.

(** ** Composite references *)

(** A variable inside the struct that another reference points to. *)
Definition compose_cell {W S R} (c : Cell W S) (d : Cell S R) : Cell W R :=
  MkCell (λ w, cget d (cget c w)) (λ r w, cset c (cset d r (cget c w)) w).

Definition fst_cell {A B} : Cell (A * B) A := MkCell fst (λ a w, (a, w.2)).
Definition snd_cell {A B} : Cell (A * B) B := MkCell snd (λ b w, (w.1, b)).

#[export] Instance fst_cell_ok {A B} : CellOk (@fst_cell A B).
Proof. by split. Qed.
#[export] Instance snd_cell_ok {A B} : CellOk (@snd_cell A B).
Proof. by split. Qed.

#[export] Instance compose_cell_ok {W S R} (c : Cell W S) (d : Cell S R) :
  CellOk c → CellOk d → CellOk (compose_cell c d).
Proof. intros [??] [??]. split; intros; cbn; congruence. Qed.

#[export] Instance fst_snd_indep {A B} : Indep (@fst_cell A B) (cget snd_cell).
Proof. done. Qed.
#[export] Instance snd_fst_indep {A B} : Indep (@snd_cell A B) (cget fst_cell).
Proof. done. Qed.

(** Two variables of one struct, a variable of a struct and what does not depend
    on the struct, a variable of a struct that an operation does not touch. *)
#[export] Instance compose_indep_same {W S R X} (c : Cell W S) (d : Cell S R) (e : Cell S X) :
  CellOk c → Indep d (cget e) → Indep (compose_cell c d) (cget (compose_cell c e)).
Proof. intros [Hc _] Hd r w. cbn. by rw Hc Hd. Qed.
#[export] Instance compose_indep_l {W S R X} (c : Cell W S) (d : Cell S R) (f : W → X) :
  Indep c f → Indep (compose_cell c d) f.
Proof. intros Hf r w. apply Hf. Qed.
#[export] Instance compose_indep_r {W S R T} (c : Cell W T) (c' : Cell W S) (d : Cell S R) :
  Indep c (cget c') → Indep c (cget (compose_cell c' d)).
Proof. intros Hf r w. cbn. by rw Hf. Qed.

(** A receiver in a smaller world, called in a larger one. *)
Definition lift_mr {W P K V} (c : Cell W P) (mr : MappingReceiver P K V) : MappingReceiver W K V :=
  MkMappingReceiver (λ k v w, cset c (mr_Put mr k v (cget c w)) w)
    (λ k w, cset c (mr_Delete mr k (cget c w)) w).

Definition lift_sw {W P E} (c : Cell W P) (sw : SetWriter P E) : SetWriter W E :=
  MkSetWriter
    (λ e w, let '(change, p) := sw_Add sw e (cget c w) in (change, cset c p w))
    (λ e w, let '(change, p) := sw_Remove sw e (cget c w) in (change, cset c p w)).

#[export] Instance lift_mr_quiet {W P K V X} (c : Cell W P) (mr : MappingReceiver P K V) (f : W → X) :
  Indep c f → QuietMR (lift_mr c mr) f.
Proof. intros Hf. split; intros; apply Hf. Qed.

#[export] Instance lift_sw_quiet {W P E X} (c : Cell W P) (sw : SetWriter P E) (f : W → X) :
  Indep c f → QuietSW (lift_sw c sw) f.
Proof.
  intros Hf. split; intros; cbn.
  - destruct (sw_Add sw _ _). apply Hf.
  - destruct (sw_Remove sw _ _). apply Hf.
Qed.

(** An operation that leaves a struct alone leaves its fields alone. *)
Lemma quiet_mr_compose {W S R K V} (c : Cell W S) (d : Cell S R) (mr : MappingReceiver W K V) :
  QuietMR mr (cget c) → QuietMR mr (cget (compose_cell c d)).
Proof. intros Hq. split; intros; cbn; by rw ?quiet_put ?quiet_delete. Qed.
Lemma quiet_sw_compose {W S R E} (c : Cell W S) (d : Cell S R) (sw : SetWriter W E) :
  QuietSW sw (cget c) → QuietSW sw (cget (compose_cell c d)).
Proof. intros Hq. split; intros; cbn; by rw ?quiet_add ?quiet_remove. Qed.

(** * Contracts of collections *)

Class GoSetOk {W E} `{Countable E} (s : GoSet W E) (wf : W → Prop) (abs : W → gset E)
  : Prop := {
  set_IsEmpty_ok : ∀ w, wf w → set_IsEmpty s w = bool_decide (abs w = ∅);
  set_Len_ok : ∀ w, wf w → set_Len s w = size (abs w);
  set_Has_ok : ∀ e w, wf w → set_Has s e w = bool_decide (e ∈ abs w);
  set_Visit_ok : ∀ w, wf w → set_Visit s w ≡ₚ elements (abs w)
}.

Class GoMapOk {W K V} `{Countable K} (m : GoMap W K V) (wf : W → Prop) (abs : W → gmap K V)
  : Prop := {
  map_IsEmpty_ok : ∀ w, wf w → map_IsEmpty m w = bool_decide (dom (abs w) = ∅);
  map_Len_ok : ∀ w, wf w → map_Len m w = size (abs w);
  map_Get_ok : ∀ k w, wf w → map_Get m k w = abs w !! k;
  map_Visit_ok : ∀ w, wf w → map_Visit m w ≡ₚ map_to_list (abs w)
}.

(** A set held in the cell [c], whose representation [r] is well formed when
    [wf r] and then stands for [abs r]. *)
Class MutableSetOk {W E R} `{Countable E} (s : MutableSet W E) (c : Cell W R)
  (wf : R → Prop) (abs : R → gset E) : Prop := {
  ms_set_ok :: GoSetOk s (λ w, wf (cget c w)) (λ w, abs (cget c w));
  ms_add_ok : ∀ e w, wf (cget c w) → ∃ r w',
    sw_Add s e w = (bool_decide (e ∉ abs (cget c w)), w') ∧ Updated c r w w' ∧
    wf r ∧ abs r = {[e]} ∪ abs (cget c w);
  ms_remove_ok : ∀ e w, wf (cget c w) → ∃ r w',
    sw_Remove s e w = (bool_decide (e ∈ abs (cget c w)), w') ∧ Updated c r w w' ∧
    wf r ∧ abs r = abs (cget c w) ∖ {[e]}
}.

(** The call a map makes to its observer after a [Put] or a [Delete]. *)
Definition notify_put {W K V} (obs : option (MapChangeReceiver W K V)) (k : K)
  (old : option V) (v : V) (w : W) : W :=
  match obs, old with
  | None, _ => w
  | Some o, Some oldVal => mcr_Update o k oldVal v w
  | Some o, None => mcr_Create o k v w
  end.

Definition notify_delete {W K V} (obs : option (MapChangeReceiver W K V)) (k : K)
  (old : option V) (w : W) : W :=
  match obs, old with
  | Some o, Some oldVal => mcr_DeleteWithFinal o k oldVal w
  | _, _ => w
  end.

(** A map held in the cell [c] that reports its changes to [obs], after making them. *)
Class MutableMapOk {W K V R} `{Countable K} (m : MutableMap W K V)
  (obs : option (MapChangeReceiver W K V)) (c : Cell W R)
  (wf : R → Prop) (abs : R → gmap K V) : Prop := {
  mm_map_ok :: GoMapOk m (λ w, wf (cget c w)) (λ w, abs (cget c w));
  mm_put_ok : ∀ k v w, wf (cget c w) → ∃ r w',
    mr_Put m k v w = notify_put obs k (abs (cget c w) !! k) v w' ∧ Updated c r w w' ∧
    wf r ∧ abs r = <[k:=v]> (abs (cget c w));
  mm_delete_ok : ∀ k w, wf (cget c w) → ∃ r w',
    mr_Delete m k w = notify_delete obs k (abs (cget c w) !! k) w' ∧ Updated c r w w' ∧
    wf r ∧ abs r = delete k (abs (cget c w));
  mm_mutate_ok : ∀ k v w, wf (cget c w) → is_Some (abs (cget c w) !! k) → ∃ r,
    Updated c r w (mm_Mutate m k v w) ∧ wf r ∧ abs r = <[k:=v]> (abs (cget c w))
}.

(** * Contracts of receivers *)

Class SetWriterOk {W E} `{Countable E} (sw : SetWriter W E) (inv : W → Prop)
  (abs : W → gset E) : Prop := {
  sw_add_ok : ∀ e w, inv w →
    inv (sw_Add sw e w).2 ∧ abs (sw_Add sw e w).2 = {[e]} ∪ abs w;
  sw_remove_ok : ∀ e w, inv w →
    inv (sw_Remove sw e w).2 ∧ abs (sw_Remove sw e w).2 = abs w ∖ {[e]}
}.

Class MappingReceiverOk {W K V} `{Countable K} (mr : MappingReceiver W K V) (inv : W → Prop)
  (abs : W → gmap K V) : Prop := {
  mr_put_ok : ∀ k v w, inv w →
    inv (mr_Put mr k v w) ∧ abs (mr_Put mr k v w) = <[k:=v]> (abs w);
  mr_delete_ok : ∀ k w, inv w →
    inv (mr_Delete mr k w) ∧ abs (mr_Delete mr k w) = delete k (abs w)
}.

(** An observer that is told the truth about each change keeps track of the map. *)
Class MapChangeReceiverOk {W K V} `{Countable K} (o : MapChangeReceiver W K V)
  (inv : W → Prop) (abs : W → gmap K V) : Prop := {
  mcr_create_ok : ∀ k v w, inv w → abs w !! k = None →
    inv (mcr_Create o k v w) ∧ abs (mcr_Create o k v w) = <[k:=v]> (abs w);
  mcr_update_ok : ∀ k v v' w, inv w → abs w !! k = Some v →
    inv (mcr_Update o k v v' w) ∧ abs (mcr_Update o k v v' w) = <[k:=v']> (abs w);
  mcr_delete_ok : ∀ k v w, inv w → abs w !! k = Some v →
    inv (mcr_DeleteWithFinal o k v w) ∧
    abs (mcr_DeleteWithFinal o k v w) = delete k (abs w)
}.

(** * Consequences shared by the components *)

Section updated_facts.
Context {W R : Type} (c : Cell W R).

Lemma Updated_cset `{!CellOk c} r w : Updated c r w (cset c r w).
Proof. split; [apply cget_cset|]. intros X f Hf. apply Hf. Qed.

Lemma Updated_refl w : Updated c (cget c w) w w.
Proof. done. Qed.

Lemma Updated_trans r1 r2 w1 w2 w3 :
  Updated c r1 w1 w2 → Updated c r2 w2 w3 → Updated c r2 w1 w3.
Proof. intros [? H1] [? H2]. split; [done|]. intros X f Hf. by rw H2 // H1. Qed.

Lemma Updated_indep {X} (f : W → X) r w w' : Updated c r w w' → Indep c f → f w' = f w.
Proof. intros [_ Hu] Hf. by apply Hu. Qed.
End updated_facts.

Lemma Updated_id {R} (r w w' : R) : Updated id_cell r w w' ↔ w' = r.
Proof. split; [by intros []|]. intros ->. apply (Updated_cset id_cell). Qed.

#[export] Hint Resolve Updated_cset Updated_refl Updated_trans : placement.

Lemma notify_put_quiet {W K V X} (obs : option (MapChangeReceiver W K V)) (f : W → X) k old v w :
  (∀ o, obs = Some o → QuietMCR o f) → f (notify_put obs k old v w) = f w.
Proof.
  intros Hq. destruct obs as [o|]; [|done]. specialize (Hq o eq_refl).
  destruct old; simpl; [apply quiet_update|apply quiet_create].
Qed.

Lemma notify_delete_quiet {W K V X} (obs : option (MapChangeReceiver W K V)) (f : W → X) k old w :
  (∀ o, obs = Some o → QuietMCR o f) → f (notify_delete obs k old w) = f w.
Proof.
  intros Hq. destruct obs as [o|]; [|done]. specialize (Hq o eq_refl).
  destruct old; simpl; [apply quiet_final|done].
Qed.

Section receiver_loops.
Context {W : Type}.

(** Feeding a list of mappings to a correct receiver inserts them in order. *)
Lemma mr_put_all {K V} `{Countable K} (mr : MappingReceiver W K V) inv abs
  `{!MappingReceiverOk mr inv abs} (l : list (K * V)) w :
  inv w →
  inv (for_each l (λ p, mr_Put mr p.1 p.2) w) ∧
  abs (for_each l (λ p, mr_Put mr p.1 p.2) w) = foldl (λ m p, <[p.1:=p.2]> m) (abs w) l.
Proof.
  revert w. induction l as [|[k v] l IH]; intros w Hw; [done|].
  destruct (mr_put_ok k v w Hw) as [Hi Ha]. destruct (IH _ Hi) as [Hi' Ha'].
  rw for_each_cons. split; [done|]. by rw Ha' Ha.
Qed.

Lemma mr_delete_all {K V} `{Countable K} (mr : MappingReceiver W K V) inv abs
  `{!MappingReceiverOk mr inv abs} (l : list K) w :
  inv w →
  inv (for_each l (mr_Delete mr) w) ∧
  abs (for_each l (mr_Delete mr) w) = foldl (λ m k, delete k m) (abs w) l.
Proof.
  revert w. induction l as [|k l IH]; intros w Hw; [done|].
  destruct (mr_delete_ok k w Hw) as [Hi Ha]. destruct (IH _ Hi) as [Hi' Ha'].
  rw for_each_cons. split; [done|]. by rw Ha' Ha.
Qed.

Lemma sw_add_all {E} `{Countable E} (sw : SetWriter W E) inv abs `{!SetWriterOk sw inv abs}
  (l : list E) w :
  inv w →
  inv (for_each l (λ e w, (sw_Add sw e w).2) w) ∧
  abs (for_each l (λ e w, (sw_Add sw e w).2) w) = list_to_set l ∪ abs w.
Proof.
  revert w. induction l as [|e l IH]; intros w Hw; [split; [done|set_solver]|].
  destruct (sw_add_ok e w Hw) as [Hi Ha]. destruct (IH _ Hi) as [Hi' Ha'].
  rw for_each_cons. split; [done|]. rw Ha' Ha. set_solver.
Qed.

Lemma sw_remove_all {E} `{Countable E} (sw : SetWriter W E) inv abs `{!SetWriterOk sw inv abs}
  (l : list E) w :
  inv w →
  inv (for_each l (λ e w, (sw_Remove sw e w).2) w) ∧
  abs (for_each l (λ e w, (sw_Remove sw e w).2) w) = abs w ∖ list_to_set l.
Proof.
  revert w. induction l as [|e l IH]; intros w Hw; [split; [done|set_solver]|].
  destruct (sw_remove_ok e w Hw) as [Hi Ha]. destruct (IH _ Hi) as [Hi' Ha'].
  rw for_each_cons. split; [done|]. rw Ha' Ha. set_solver.
Qed.
End receiver_loops.

(** The folds of the loops above, pointwise. *)
Lemma lookup_foldl_insert_notin {K V} `{Countable K} (l : list (K * V)) (m : gmap K V) k :
  k ∉ l.*1 → foldl (λ m p, <[p.1:=p.2]> m) m l !! k = m !! k.
Proof.
  revert m. induction l as [|[k' v'] l IH]; intros m Hk; [done|]. simpl in *.
  rw IH; [|set_solver]. apply lookup_insert_ne. set_solver.
Qed.

Lemma lookup_foldl_insert_in {K V} `{Countable K} (l : list (K * V)) (m : gmap K V) k v :
  NoDup l.*1 → (k, v) ∈ l → foldl (λ m p, <[p.1:=p.2]> m) m l !! k = Some v.
Proof.
  revert m. induction l as [|[k' v'] l IH]; intros m Hnd Hin; [set_solver|]. simpl in *.
  apply NoDup_cons in Hnd as [Hk' Hnd].
  apply elem_of_cons in Hin as [[= -> ->]|Hin].
  - rw lookup_foldl_insert_notin //. apply lookup_insert_eq.
  - by apply IH.
Qed.

Lemma lookup_foldl_delete {K V} `{Countable K} (l : list K) (m : gmap K V) k :
  foldl (λ m k, delete k m) m l !! k = if decide (k ∈ l) then None else m !! k.
Proof.
  revert m. induction l as [|k' l IH]; intros m; [done|]. cbn [foldl].
  rw IH. destruct (decide (k ∈ l)), (decide (k ∈ k' :: l)); try set_solver.
  - assert (k = k') as -> by set_solver. apply lookup_delete_eq.
  - apply lookup_delete_ne. set_solver.
Qed.

(** * Simulation contracts

    A receiver simulates a map (set) when each call takes every world that
    reflects some contents, in the sense of a relation [T], to a world that
    reflects the contents after the same change.  The relation may say as much
    as wanted about the world; [MappingReceiverOk] is the case of a function of
    the world. *)

Class MappingReceiverSim {W K V} `{Countable K} (mr : MappingReceiver W K V)
  (T : gmap K V → W → Prop) : Prop := {
  sim_put : ∀ k v m w, T m w → T (<[k:=v]> m) (mr_Put mr k v w);
  sim_delete : ∀ k m w, T m w → T (delete k m) (mr_Delete mr k w)
}.

Class SetWriterSim {W E} `{Countable E} (sw : SetWriter W E) (T : gset E → W → Prop)
  : Prop := {
  sim_add : ∀ e X w, T X w → T ({[e]} ∪ X) (sw_Add sw e w).2;
  sim_remove : ∀ e X w, T X w → T (X ∖ {[e]}) (sw_Remove sw e w).2
}.

Lemma MappingReceiverOk_sim {W K V} `{Countable K} (mr : MappingReceiver W K V) inv abs :
  MappingReceiverOk mr inv abs ↔ MappingReceiverSim mr (λ m w, inv w ∧ abs w = m).
Proof.
  split; intros Hmr; split.
  - intros k v m w [Hi <-]. by apply mr_put_ok.
  - intros k m w [Hi <-]. by apply mr_delete_ok.
  - intros k v w Hi. by apply (sim_put (MappingReceiverSim:=Hmr)).
  - intros k w Hi. by apply (sim_delete (MappingReceiverSim:=Hmr)).
Qed.

Lemma SetWriterOk_sim {W E} `{Countable E} (sw : SetWriter W E) inv abs :
  SetWriterOk sw inv abs ↔ SetWriterSim sw (λ X w, inv w ∧ abs w = X).
Proof.
  split; intros Hsw; split.
  - intros e X w [Hi <-]. by apply sw_add_ok.
  - intros e X w [Hi <-]. by apply sw_remove_ok.
  - intros e w Hi. by apply (sim_add (SetWriterSim:=Hsw)).
  - intros e w Hi. by apply (sim_remove (SetWriterSim:=Hsw)).
Qed.

(** Equivalent relations are simulated alike. *)
Lemma MappingReceiverSim_iff {W K V} `{Countable K} (mr : MappingReceiver W K V)
  (T T' : gmap K V → W → Prop) :
  (∀ m w, T m w ↔ T' m w) → MappingReceiverSim mr T → MappingReceiverSim mr T'.
Proof.
  intros HT Hs. split.
  - intros k v m w. rw -!HT. apply sim_put.
  - intros k m w. rw -!HT. apply sim_delete.
Qed.

Lemma SetWriterSim_iff {W E} `{Countable E} (sw : SetWriter W E) (T T' : gset E → W → Prop) :
  (∀ X w, T X w ↔ T' X w) → SetWriterSim sw T → SetWriterSim sw T'.
Proof.
  intros HT Hs. split.
  - intros e X w. rw -!HT. apply sim_add.
  - intros e X w. rw -!HT. apply sim_remove.
Qed.
