(* ===== verification/Slices.v ===== *)
(** Slices and enumerations (slices.go and the [Visitable] part of set-types.go).

    A slice is a list; a [Visitable] is the list of values it enumerates. *)

From S2P Require Import Prelude Tuples.

(** * Slices *)

Section slices.
Context {Elt : Type}.

Definition SliceCopy (original : list Elt) : list Elt :=
  match original with
  | [] => original
  | _ => [] ++ original
  end.

Fixpoint SliceContainsParametric (isEqual : Elt → Elt → bool) (slice : list Elt) (seek : Elt)
  : bool :=
  match slice with
  | [] => false
  | elt :: slice => if isEqual elt seek then true else SliceContainsParametric isEqual slice seek
  end.

Fixpoint SliceContains `{EqDecision Elt} (slice : list Elt) (seek : Elt) : bool :=
  match slice with
  | [] => false
  | elt :: slice => if decide (elt = seek) then true else SliceContains slice seek
  end.

Definition SliceRemoveFunctional `{EqDecision Elt} (slice : list Elt) (seek : Elt) : list Elt :=
  for_each slice (λ elt ans, if decide (elt ≠ seek) then ans ++ [elt] else ans) [].

(** The loop of [SliceEqual]: [a] is the rest of the first slice, at [index]. *)
Fixpoint SliceEqual_loop (equal : Elt → Elt → bool) (index : nat) (a b : list Elt) : bool :=
  match a with
  | [] => true
  | elta :: a =>
      match b !! index with
      | None => false
      | Some eltb =>
          if negb (equal elta eltb) then false else SliceEqual_loop equal (S index) a b
      end
  end.

Definition SliceEqual `{EqDecision Elt} (a b : list Elt) : bool :=
  if negb (length a =? length b) then false
  else SliceEqual_loop (λ x y, bool_decide (x = y)) 0 a b.

Definition SliceApply {S} (slice : list Elt) (fn : Elt → S → S) (s : S) : S :=
  for_each slice fn s.

(** [Slice.Visit] and friends; [SliceSet] is a slice without duplicates. *)
Definition Slice_IsEmpty (slice : list Elt) : bool := length slice =? 0.
Definition Slice_Len (slice : list Elt) : nat := length slice.
Definition Slice_Visit {S} (slice : list Elt) (visitor : Elt → S → option error * S) (s : S)
  : option error * S :=
  visit visitor slice s.
Definition Slice_Append (slice : list Elt) (elt : Elt) : list Elt := slice ++ [elt].

Fixpoint SliceSet_Has `{EqDecision Elt} (slice : list Elt) (seek : Elt) : bool :=
  match slice with
  | [] => false
  | have :: slice => if decide (seek = have) then true else SliceSet_Has slice seek
  end.

(** * Visitables *)

Definition VisitableToSlice (set : list Elt) : list Elt :=
  for_each set (λ elt ans, ans ++ [elt]) [].

Definition VisitableMapFnReduceOr (visitable : list Elt) (test : Elt → bool) : bool :=
  match (visit (λ elt s, (if test elt then Some errStop else None, s)) visitable ()).1 with
  | None => false
  | Some _ => true
  end.

Definition VisitableTransformToSlice {Transformed} (set : list Elt) (xform : Elt → Transformed)
  : list Transformed :=
  for_each set (λ elt ans, ans ++ [xform elt]) [].

Definition VisitableLen (visitable : list Elt) : nat :=
  (visit (λ _ ans, (None, S ans)) visitable 0).2.

Definition VisitableHas `{EqDecision Elt} (set : list Elt) (seek : Elt) : bool :=
  match (visit (λ check s, (if bool_decide (check = seek) then Some errStop else None, s)) set ()).1 with
  | None => false
  | Some _ => true
  end.

(** The state of the visitor is [(ans, currentIndex)]; [index] is a Go [int]. *)
Definition VisitableGet (seq : list Elt) (index : Z) : option Elt :=
  let res := visit (λ elt '(ans, currentIndex),
                 if (currentIndex =? index)%Z then (Some errStop, (Some elt, currentIndex))
                 else (None, (ans, (currentIndex + 1)%Z))) seq (None, 0%Z) in
  match res.1 with
  | None => None
  | Some _ => res.2.1
  end.

Definition VisitableMapReduce {Intermediate Accumulator} (zero : Accumulator)
  (input : list Elt) (mapFn : Elt → Intermediate)
  (reduce : Accumulator → Intermediate → Accumulator) : Accumulator :=
  for_each input (λ elt ans, let intermediate := mapFn elt in reduce ans intermediate) zero.

Definition ValueReducer {Accum Ans} (initialize : unit → Accum) (add : Accum → Elt → Accum)
  (finish : Accum → Ans) : list Elt → Ans :=
  λ elts,
    let accum := initialize () in
    let accum := for_each elts (λ elt accum, add accum elt) accum in
    finish accum.

(** [StatefulReducer] mutates its accumulator: [add] returns the mutated one. *)
Definition StatefulReducer {Accum Ans} (initialize : unit → Accum) (add : Accum → Elt → Accum)
  (finish : Accum → Ans) : list Elt → Ans :=
  λ elts,
    let accum := initialize () in
    let accum := for_each elts (λ elt accum, add accum elt) accum in
    finish accum.
End slices.

Definition VisitableMap {Domain Range} (visitable : list Domain) (mapFn : Domain → Range)
  : list Range :=
  mapFn <$> visitable.

Definition TransformVisitable {Original Transformed} (originalVisitable : list Original)
  (transform : Original → Transformed) : list Transformed :=
  transform <$> originalVisitable.

Definition MapTransformToSlice {Key Val Transformed} (theMap : list (Pair Key Val))
  (xform : Key → Val → Transformed) : list Transformed :=
  for_each theMap (λ tup ans, ans ++ [xform tup.1 tup.2]) [].

(** * What they compute *)

Section slice_facts.
Context {Elt : Type}.
Implicit Types (l a b : list Elt).

Lemma SliceCopy_id l : SliceCopy l = l.
Proof. by destruct l. Qed.

Lemma SliceContainsParametric_spec (isEqual : Elt → Elt → bool) l seek :
  SliceContainsParametric isEqual l seek = true ↔ ∃ elt, elt ∈ l ∧ isEqual elt seek = true.
Proof.
  induction l as [|elt l IH]; simpl.
  - split; [done|]. by intros (? & ?%elem_of_nil & _).
  - setoid_rewrite elem_of_cons. destruct (isEqual elt seek) eqn:E; [naive_solver|].
    rw IH. split; [naive_solver|]. intros (x & [->|Hx] & Heq); [congruence|eauto].
Qed.

Lemma SliceContains_spec `{EqDecision Elt} l seek : SliceContains l seek = bool_decide (seek ∈ l).
Proof.
  induction l as [|elt l IH]; [done|]. cbn [SliceContains]. destruct (decide (elt = seek)).
  - symmetry. apply bool_decide_eq_true. set_solver.
  - rw IH. apply bool_decide_ext. set_solver.
Qed.

Lemma SliceSet_Has_spec `{EqDecision Elt} l seek : SliceSet_Has l seek = bool_decide (seek ∈ l).
Proof.
  rw -SliceContains_spec. induction l as [|elt l IH]; simpl; [done|].
  rw IH. repeat case_decide; congruence.
Qed.

Lemma for_each_append {D} (xform : Elt → D) l acc :
  for_each l (λ elt ans, ans ++ [xform elt]) acc = acc ++ (xform <$> l).
Proof.
  revert acc. induction l as [|e l IH]; intros acc; [by rw app_nil_r|].
  rw for_each_cons IH fmap_cons. by rw -app_assoc.
Qed.

Lemma VisitableToSlice_spec l : VisitableToSlice l = l.
Proof. rw /VisitableToSlice (for_each_append id). by rw list_fmap_id. Qed.

Lemma VisitableTransformToSlice_spec {D} (xform : Elt → D) l :
  VisitableTransformToSlice l xform = xform <$> l.
Proof. apply (for_each_append xform l []). Qed.

Lemma SliceRemoveFunctional_spec `{EqDecision Elt} l seek :
  SliceRemoveFunctional l seek = filter (λ elt, elt ≠ seek) l.
Proof.
  unfold SliceRemoveFunctional.
  enough (∀ acc, for_each l (λ elt ans, if decide (elt ≠ seek) then ans ++ [elt] else ans) acc
                 = acc ++ filter (λ elt, elt ≠ seek) l) as Hgen by apply Hgen.
  induction l as [|e l IH]; intros acc; [by rw app_nil_r|].
  rw for_each_cons IH filter_cons. by case_decide; rw -?app_assoc.
Qed.

Lemma VisitableLen_spec l : VisitableLen l = length l.
Proof.
  unfold VisitableLen. rw visit_nil_error //. simpl.
  enough (∀ n, for_each l (λ _ ans, S ans) n = length l + n) as ->; [lia|].
  induction l as [|e l IH]; intros n; [done|]. rw for_each_cons IH. simpl. lia.
Qed.

Lemma VisitableMapFnReduceOr_spec l (test : Elt → bool) :
  VisitableMapFnReduceOr l test = true ↔ ∃ elt, elt ∈ l ∧ test elt = true.
Proof.
  unfold VisitableMapFnReduceOr. rw visit_test. setoid_rewrite list_elem_of_In.
  rw -existsb_exists. by destruct (existsb test l).
Qed.

Lemma VisitableHas_spec `{EqDecision Elt} l seek : VisitableHas l seek = bool_decide (seek ∈ l).
Proof.
  apply eq_bool_prop_intro. rw !Is_true_true bool_decide_eq_true.
  etrans; [apply (VisitableMapFnReduceOr_spec l (λ check, bool_decide (check = seek)))|].
  setoid_rewrite bool_decide_eq_true. naive_solver.
Qed.

Lemma SliceEqual_loop_spec (equal : Elt → Elt → bool) index a b :
  (∀ x y, equal x y = true ↔ x = y) → length a + index = length b →
  SliceEqual_loop equal index a b = true ↔ a = drop index b.
Proof.
  intros Heq. revert index. induction a as [|x a IH]; intros index Hlen; simpl in *.
  { rw drop_ge; [done|lia]. }
  destruct (lookup_lt_is_Some_2 b index) as [y Hy]; [lia|]. rw Hy (drop_S _ _ _ Hy).
  destruct (equal x y) eqn:E; simpl.
  - apply Heq in E as ->. rw IH; [naive_solver|lia].
  - split; [done|]. intros [= -> _]. assert (equal y y = true) by (by apply Heq). congruence.
Qed.

Lemma SliceEqual_spec `{EqDecision Elt} a b : SliceEqual a b = bool_decide (a = b).
Proof.
  unfold SliceEqual. destruct (Nat.eqb_spec (length a) (length b)) as [Hlen|Hlen]; simpl.
  - apply eq_bool_prop_intro. rw !Is_true_true bool_decide_eq_true SliceEqual_loop_spec.
    + by rw drop_0.
    + intros x y. apply bool_decide_eq_true.
    + lia.
  - symmetry. apply bool_decide_eq_false. by intros ->.
Qed.

Lemma VisitableGet_spec l (index : Z) :
  VisitableGet l index = if (0 <=? index)%Z then l !! Z.to_nat index else None.
Proof.
  unfold VisitableGet.
  enough (∀ (ans : option Elt) (i : Z), (0 ≤ i)%Z →
    let res := visit (λ elt '(ans, currentIndex),
                 if (currentIndex =? index)%Z then (Some errStop, (Some elt, currentIndex))
                 else (None, (ans, (currentIndex + 1)%Z))) l (ans, i) in
    match res.1 with None => None | Some _ => res.2.1 end
    = if (i <=? index)%Z then l !! Z.to_nat (index - i) else None) as Hgen.
  { rw (Hgen None 0%Z); [|lia]. by rw Z.sub_0_r. }
  induction l as [|e l IH]; intros ans i Hi; simpl; [by destruct (i <=? index)%Z|].
  destruct (Z.eqb_spec i index) as [->|Hne]; simpl.
  - by rw Z.leb_refl Z.sub_diag.
  - rw IH; [|lia]. destruct (Z.leb_spec (i + 1) index), (Z.leb_spec i index); try lia; [|done].
    replace (Z.to_nat (index - i)) with (S (Z.to_nat (index - (i + 1)))) by lia. done.
Qed.
End slice_facts.
