(* ===== verification/Sets.v ===== *)
(** Sets of pkg/placement: the map-based set (map-set.go) and the operations on
    the [Set] and [MutableSet] interfaces (set-types.go).

    [MapSet] is Go's [map[Elt]Empty]; [MapSet_AsMutableSet c] is such a map held
    in the variable [c] and seen through the interface. *)

From S2P Require Import Prelude Tuples Interfaces Slices.

(** * MapSet *)

Section mapset.
Context `{MapRange} {Elt : Type} `{Countable Elt}.

Definition MapSet : Type := gset Elt.

Definition NewEmptyMapSet : MapSet := ∅.

Definition MapSet_IsEmpty (ms : MapSet) : bool := size ms =? 0.
Definition MapSet_Len (ms : MapSet) : nat := size ms.
Definition MapSet_LenIsCheap (ms : MapSet) : bool := true.
Definition MapSet_Has (elt : Elt) (ms : MapSet) : bool := bool_decide (elt ∈ ms).
Definition MapSet_Visit (ms : MapSet) : list Elt := set_range ms.

Definition MapSet_Add (elt : Elt) (ms : MapSet) : bool * MapSet :=
  if decide (elt ∈ ms) then (false, ms) else (true, {[elt]} ∪ ms).

Definition MapSet_Remove (elt : Elt) (ms : MapSet) : bool * MapSet :=
  if decide (elt ∈ ms) then (true, ms ∖ {[elt]}) else (false, ms).

Definition MapSetAddNoResult (set : MapSet) (elt : Elt) : MapSet := (MapSet_Add elt set).2.

(** The set in the variable [c], as a [MutableSet]. *)
Definition MapSet_AsMutableSet {W} (c : Cell W MapSet) : MutableSet W Elt :=
  MkMutableSet
    (MkGoSet (λ w, MapSet_IsEmpty (cget c w)) (λ w, MapSet_Len (cget c w))
       (λ w, MapSet_LenIsCheap (cget c w)) (λ elt w, MapSet_Has elt (cget c w))
       (λ w, MapSet_Visit (cget c w)))
    (MkSetWriter
       (λ elt w, let '(change, ms) := MapSet_Add elt (cget c w) in (change, cset c ms w))
       (λ elt w, let '(change, ms) := MapSet_Remove elt (cget c w) in (change, cset c ms w))).

Definition NewMapSet (elts : list Elt) : MapSet :=
  let ans := NewEmptyMapSet in
  for_each elts (λ elt ans, (MapSet_Add elt ans).2) ans.

Definition MapSetCopier : list Elt → MapSet :=
  StatefulReducer (λ _, NewEmptyMapSet) MapSetAddNoResult Identity1.
End mapset.
Arguments MapSet Elt {_ _}.

(** A [SliceSet], which is not modified, as a [Set]. *)
Definition NewSliceSet {W Elt} `{EqDecision Elt} (elts : list Elt) : GoSet W Elt :=
  MkGoSet (λ _, Slice_IsEmpty elts) (λ _, Slice_Len elts) (λ _, true)
    (λ seek _, SliceSet_Has elts seek) (λ _, elts).

(** A map-based set that is only read, as a [Set]. *)
Definition read_set `{MapRange} {W Elt} `{Countable Elt} (ms : MapSet Elt) : GoSet W Elt :=
  MkGoSet (λ _, MapSet_IsEmpty ms) (λ _, MapSet_Len ms) (λ _, MapSet_LenIsCheap ms)
    (λ elt _, MapSet_Has elt ms) (λ _, MapSet_Visit ms).

(** * Bulk operations *)

Section bulk.
Context {W Elt : Type}.

Definition SetAddAll (set : MutableSet W Elt) (adds : list Elt) (w : W) : (bool * bool) * W :=
  for_each adds (λ add '((someNew, allNew), w),
    match sw_Add set add w with
    | (true, w) => ((true, allNew), w)
    | (false, w) => ((someNew, false), w)
    end) ((false, true), w).

Definition MutableSetUnion1Elt (set : MutableSet W Elt) (elt : Elt) (w : W) : W :=
  (sw_Add set elt w).2.

Definition MutableSetUnion1Set (set : MutableSet W Elt) (other : GoSet W Elt) (w : W) : W :=
  (SetAddAll set (set_Visit other w) w).2.

Definition SetRemoveAll (set : MutableSet W Elt) (goners : list Elt) (w : W)
  : (bool * bool) * W :=
  for_each goners (λ goner '((someNew, allNew), w),
    match sw_Remove set goner w with
    | (true, w) => ((true, allNew), w)
    | (false, w) => ((someNew, false), w)
    end) ((false, true), w).

Definition SetEnumerateDifferences (left right : GoSet W Elt) (receiver : SetWriter W Elt)
  (w : W) : W :=
  let w := for_each (set_Visit left w) (λ elt w,
             let has := set_Has right elt w in
             if negb has then (sw_Remove receiver elt w).2 else w) w in
  for_each (set_Visit right w) (λ elt w,
    let has := set_Has left elt w in
    if negb has then (sw_Add receiver elt w).2 else w) w.

(** * Comparisons *)

Record Comparison : Type := MkComparison { LessOrEqual : bool; GreaterOrEqual : bool }.

Definition Comparison_Reverse (comp : Comparison) : Comparison :=
  MkComparison (GreaterOrEqual comp) (LessOrEqual comp).
Definition Comparison_IsEqual (comp : Comparison) : bool :=
  LessOrEqual comp && GreaterOrEqual comp.
Definition Comparison_IsStrictlyLess (comp : Comparison) : bool :=
  LessOrEqual comp && negb (GreaterOrEqual comp).
Definition Comparison_IsStrictlyGreater (comp : Comparison) : bool :=
  GreaterOrEqual comp && negb (LessOrEqual comp).
Definition Comparison_IsRelated (comp : Comparison) : bool :=
  LessOrEqual comp || GreaterOrEqual comp.

Definition SetLessOrEqual (set1 set2 : GoSet W Elt) (w : W) : bool :=
  match (visit (λ elt s, (if negb (set_Has set2 elt w) then Some errStop else None, s))
           (set_Visit set1 w) ()).1 with
  | None => true
  | Some _ => false
  end.

Definition SetCompare (set1 set2 : GoSet W Elt) (w : W) : Comparison :=
  {| LessOrEqual := SetLessOrEqual set1 set2 w;
     GreaterOrEqual := SetLessOrEqual set2 set1 w |}.

Definition SetEqual (set1 set2 : GoSet W Elt) (w : W) : bool :=
  if set_LenIsCheap set1 w then
    (set_Len set1 w =? set_Len set2 w) && SetLessOrEqual set1 set2 w
  else Comparison_IsEqual (SetCompare set1 set2 w).

(** * Derived sets *)

Definition SetReadonly (set : GoSet W Elt) : GoSet W Elt :=
  MkGoSet (set_IsEmpty set) (set_Len set) (set_LenIsCheap set) (set_Has set) (set_Visit set).

Definition NewSetReadonly (set : MutableSet W Elt) : GoSet W Elt := SetReadonly set.

Definition setIntersection_Visit (set1 set2 : GoSet W Elt) (w : W) : list Elt :=
  if set_IsEmpty set2 w then []
  else filter (λ elt, set_Has set2 elt w = true) (set_Visit set1 w).

Definition setIntersection_IsEmpty (set1 set2 : GoSet W Elt) (w : W) : bool :=
  if set_IsEmpty set2 w then true
  else match (visit (λ _ s, (Some errStop, s)) (setIntersection_Visit set1 set2 w) ()).1 with
       | None => true
       | Some _ => false
       end.

Definition SetIntersection (set1 set2 : GoSet W Elt) : GoSet W Elt :=
  MkGoSet (setIntersection_IsEmpty set1 set2)
    (λ w, VisitableLen (setIntersection_Visit set1 set2 w))
    (λ _, false)
    (λ elt w, set_Has set1 elt w && set_Has set2 elt w)
    (setIntersection_Visit set1 set2).

(** [setMutex]: the operations of the inner set, each under the lock.  In a
    sequential run the lock is always free when an operation starts. *)
Definition setMutex_Add (inner : MutableSet W Elt) (elt : Elt) (w : W) : bool * W :=
  sw_Add inner elt w.

Definition setMutex_Remove (inner : MutableSet W Elt) (elt : Elt) (w : W) : bool * W :=
  sw_Add inner elt w.

Definition WrapSetWithMutex (inner : MutableSet W Elt) : MutableSet W Elt :=
  MkMutableSet
    (MkGoSet (set_IsEmpty inner) (set_Len inner) (set_LenIsCheap inner) (set_Has inner)
       (set_Visit inner))
    (MkSetWriter (setMutex_Add inner) (setMutex_Remove inner)).
End bulk.

Definition SetRotate {W Original Rotated} (originalSet : GoSet W Original)
  (rotator : Rotator Original Rotated) : GoSet W Rotated :=
  MkGoSet (set_IsEmpty originalSet) (set_Len originalSet) (set_LenIsCheap originalSet)
    (λ rotatedElt w, let originalElt := rotSecond rotator rotatedElt in
                     set_Has originalSet originalElt w)
    (λ w, (λ originalElt, rotFirst rotator originalElt) <$> set_Visit originalSet w).

Definition MapSetCopy {Elt} `{Countable Elt} `{MapRange} (source : list Elt) : MapSet Elt :=
  (SetAddAll (MapSet_AsMutableSet id_cell) source NewEmptyMapSet).2.

(** [MapSetSymmetricDifference].  A map variable that was not wanted is nil
    ([None]); assigning to an entry of a nil map panics, which ends the run
    ([None] in the outer option). *)
Section symmetric_difference.
Context {W Elt : Type} `{Countable Elt}.

Definition nilable_Add (elt : Elt) (ms : option (MapSet Elt)) : option (option (MapSet Elt)) :=
  match ms with
  | None => None
  | Some ms => Some (Some (MapSet_Add elt ms).2)
  end.

Definition wanted (want : bool) : option (MapSet Elt) :=
  if want then Some NewEmptyMapSet else None.

Definition MapSetSymmetricDifference
  (wantLeftMinusRight wantIntersection wantRightMinusLeft : bool)
  (left right : GoSet W Elt) (w : W)
  : option (option (MapSet Elt) * option (MapSet Elt) * option (MapSet Elt)) :=
  let leftMinusRight := wanted wantLeftMinusRight in
  let intersection := wanted wantIntersection in
  let rightMinusLeft := wanted wantRightMinusLeft in
  '(intersection, leftMinusRight) ←
    (if wantLeftMinusRight then
       for_each (set_Visit left w) (λ leftElt s,
         '(intersection, leftMinusRight) ← s;
         if set_Has right leftElt w then
           (if wantIntersection then
              intersection ← nilable_Add leftElt intersection;
              Some (intersection, leftMinusRight)
            else Some (intersection, leftMinusRight))
         else leftMinusRight ← nilable_Add leftElt leftMinusRight;
              Some (intersection, leftMinusRight)) (Some (intersection, leftMinusRight))
     else Some (intersection, leftMinusRight));
  '(intersection, rightMinusLeft) ←
    (if wantRightMinusLeft || (wantIntersection && negb wantLeftMinusRight) then
       for_each (set_Visit right w) (λ rightElt s,
         '(intersection, rightMinusLeft) ← s;
         if set_Has left rightElt w then
           (if wantIntersection && negb wantLeftMinusRight then
              intersection ← nilable_Add rightElt intersection;
              Some (intersection, rightMinusLeft)
            else Some (intersection, rightMinusLeft))
         else if wantRightMinusLeft then
           rightMinusLeft ← nilable_Add rightElt rightMinusLeft;
           Some (intersection, rightMinusLeft)
         else Some (intersection, rightMinusLeft)) (Some (intersection, rightMinusLeft))
     else Some (intersection, rightMinusLeft));
  Some (leftMinusRight, intersection, rightMinusLeft).
End symmetric_difference.

(** * Contracts *)

Section mapset_facts.
Context `{MapRange} {Elt : Type} `{Countable Elt}.

Lemma MapSet_Add_spec elt (ms : MapSet Elt) :
  MapSet_Add elt ms = (bool_decide (elt ∉ ms), {[elt]} ∪ ms).
Proof.
  unfold MapSet_Add. destruct (decide (elt ∈ ms)).
  - rw bool_decide_false; [|naive_solver]. f_equal. set_solver.
  - by rw bool_decide_true.
Qed.

Lemma MapSet_Remove_spec elt (ms : MapSet Elt) :
  MapSet_Remove elt ms = (bool_decide (elt ∈ ms), ms ∖ {[elt]}).
Proof.
  unfold MapSet_Remove. destruct (decide (elt ∈ ms)).
  - by rw bool_decide_true.
  - rw bool_decide_false //. f_equal. set_solver.
Qed.

#[export] Instance MapSet_ok {W} (c : Cell W (MapSet Elt)) `{!CellOk c} :
  MutableSetOk (MapSet_AsMutableSet c) c (λ _, True) id.
Proof.
  split; [split|..]; simpl.
  - intros w _. unfold MapSet_IsEmpty. apply eq_bool_prop_intro.
    rw !Is_true_true Nat.eqb_eq bool_decide_eq_true size_empty_iff. set_solver.
  - done.
  - done.
  - intros w _. apply set_range_perm.
  - intros e w _. rw MapSet_Add_spec. eexists _, _. split; [done|]. by split; [apply Updated_cset|].
  - intros e w _. rw MapSet_Remove_spec. eexists _, _. split; [done|]. by split; [apply Updated_cset|].
Qed.

#[export] Instance read_set_ok {W} (ms : MapSet Elt) : GoSetOk (W:=W) (read_set ms) (λ _, True) (λ _, ms).
Proof.
  split; cbn; intros w; [intros _|done|done|intros _; apply set_range_perm].
  unfold MapSet_IsEmpty. apply eq_bool_prop_intro.
  rw !Is_true_true Nat.eqb_eq bool_decide_eq_true size_empty_iff. set_solver.
Qed.

Lemma for_each_MapSet_Add (l : list Elt) (ms : MapSet Elt) :
  for_each l (λ e ms, (MapSet_Add e ms).2) ms = list_to_set l ∪ ms.
Proof.
  revert ms. induction l as [|e l IH]; intros ms; [set_solver|].
  rw for_each_cons IH MapSet_Add_spec. set_solver.
Qed.

Lemma NewMapSet_spec (l : list Elt) : NewMapSet l = list_to_set l.
Proof. rw /NewMapSet for_each_MapSet_Add. set_solver. Qed.

Lemma MapSetCopier_spec (l : list Elt) : MapSetCopier l = list_to_set l.
Proof.
  rw /MapSetCopier /StatefulReducer /Identity1 /MapSetAddNoResult for_each_MapSet_Add.
  set_solver.
Qed.
End mapset_facts.

Section contract_facts.
Context {W Elt : Type} `{Countable Elt}.

Lemma MutableSetOk_writer {R} (s : MutableSet W Elt) (c : Cell W R) wf abs :
  MutableSetOk s c wf abs →
  SetWriterOk s (λ w, wf (cget c w)) (λ w, abs (cget c w)).
Proof.
  intros Hs. split; intros e w Hw.
  - destruct (ms_add_ok e w Hw) as (r & w' & -> & [Hr _] & ? & Ha). simpl. by rw Hr.
  - destruct (ms_remove_ok e w Hw) as (r & w' & -> & [Hr _] & ? & Ha). simpl. by rw Hr.
Qed.

Lemma elem_of_set_Visit (s : GoSet W Elt) wf abs `{!GoSetOk s wf abs} w e :
  wf w → e ∈ set_Visit s w ↔ e ∈ abs w.
Proof. intros Hw. by rw set_Visit_ok // elem_of_elements. Qed.

(** ** Comparisons *)

Lemma SetLessOrEqual_spec (s1 s2 : GoSet W Elt) wf1 wf2 abs1 abs2
  `{!GoSetOk s1 wf1 abs1} `{!GoSetOk s2 wf2 abs2} w :
  wf1 w → wf2 w → SetLessOrEqual s1 s2 w = bool_decide (abs1 w ⊆ abs2 w).
Proof.
  intros H1 H2. unfold SetLessOrEqual. rw visit_test. symmetry.
  destruct (existsb _ _) eqn:Hex; simpl.
  - apply bool_decide_eq_false. apply existsb_exists in Hex as (e & Hin & Hnot).
    apply list_elem_of_In in Hin. rw elem_of_set_Visit // in Hin.
    rw set_Has_ok // negb_true_iff bool_decide_eq_false in Hnot. set_solver.
  - apply bool_decide_eq_true. intros e He. destruct (decide (e ∈ abs2 w)) as [|Hn]; [done|].
    assert (existsb (λ e, negb (set_Has s2 e w)) (set_Visit s1 w) = true); [|congruence].
    apply existsb_exists. exists e. split.
    + apply list_elem_of_In. by rw elem_of_set_Visit.
    + by rw set_Has_ok // negb_true_iff bool_decide_eq_false.
Qed.

Lemma SetEqual_spec (s1 s2 : GoSet W Elt) wf1 wf2 abs1 abs2
  `{!GoSetOk s1 wf1 abs1} `{!GoSetOk s2 wf2 abs2} w :
  wf1 w → wf2 w → SetEqual s1 s2 w = bool_decide (abs1 w = abs2 w).
Proof.
  intros H1 H2. unfold SetEqual, Comparison_IsEqual, SetCompare. simpl.
  rw !SetLessOrEqual_spec // !set_Len_ok //. apply eq_bool_prop_intro.
  rw (bool_decide_spec (abs1 w = abs2 w)). destruct (set_LenIsCheap s1 w).
  - rw Is_true_true andb_true_iff Nat.eqb_eq bool_decide_eq_true.
    split; [|by intros ->]. intros [Hlen Hsub]. apply set_subseteq_size_eq; [done|lia].
  - rw Is_true_true andb_true_iff !bool_decide_eq_true. set_solver.
Qed.

(** ** Derived sets *)

#[export] Instance SetReadonly_ok (s : GoSet W Elt) wf abs `{!GoSetOk s wf abs} :
  GoSetOk (SetReadonly s) wf abs.
Proof.
  split; simpl; [apply set_IsEmpty_ok|apply set_Len_ok|apply set_Has_ok|apply set_Visit_ok].
Qed.

Lemma setIntersection_Visit_spec (s1 s2 : GoSet W Elt) wf1 wf2 abs1 abs2
  `{!GoSetOk s1 wf1 abs1} `{!GoSetOk s2 wf2 abs2} w :
  wf1 w → wf2 w → setIntersection_Visit s1 s2 w ≡ₚ elements (abs1 w ∩ abs2 w).
Proof.
  intros H1 H2. unfold setIntersection_Visit. rw set_IsEmpty_ok //.
  case_bool_decide as Hemp.
  - rw Hemp. replace (abs1 w ∩ ∅) with (∅ : gset Elt) by set_solver. by rw elements_empty.
  - apply NoDup_Permutation.
    + apply NoDup_filter. rw set_Visit_ok //. apply NoDup_elements.
    + apply NoDup_elements.
    + intros e. rw list_elem_of_filter elem_of_elements elem_of_set_Visit //.
      rw set_Has_ok // bool_decide_eq_true. set_solver.
Qed.

#[export] Instance SetIntersection_ok (s1 s2 : GoSet W Elt) wf1 wf2 abs1 abs2
  `{!GoSetOk s1 wf1 abs1} `{!GoSetOk s2 wf2 abs2} :
  GoSetOk (SetIntersection s1 s2) (λ w, wf1 w ∧ wf2 w) (λ w, abs1 w ∩ abs2 w).
Proof.
  split; simpl.
  - intros w [H1 H2]. unfold setIntersection_IsEmpty. rw set_IsEmpty_ok //.
    case_bool_decide as Hemp.
    + symmetry. apply bool_decide_eq_true. set_solver.
    + rw (visit_test (λ _, true) _ ()).
      assert (setIntersection_Visit s1 s2 w = [] ↔ abs1 w ∩ abs2 w = ∅) as Hnil.
      { rw -Permutation_nil_r setIntersection_Visit_spec // Permutation_nil_r.
        rw elements_empty_iff. set_solver. }
      destruct (setIntersection_Visit s1 s2 w) as [|e l]; simpl; symmetry.
      * apply bool_decide_eq_true. by apply Hnil.
      * apply bool_decide_eq_false. intros Hc. by apply Hnil in Hc.
  - intros w [H1 H2]. rw VisitableLen_spec. by rw setIntersection_Visit_spec.
  - intros e w [H1 H2]. rw !set_Has_ok //. apply eq_bool_prop_intro.
    rw andb_True !bool_decide_spec. set_solver.
  - intros w [H1 H2]. by apply (setIntersection_Visit_spec s1 s2 wf1 wf2).
Qed.
End contract_facts.

#[export] Instance SetRotate_ok {W A B} `{Countable A, Countable B} (s : GoSet W A)
  (rot : Rotator A B) `{!RotatorOk rot} wf abs `{!GoSetOk s wf abs} :
  GoSetOk (SetRotate s rot) wf (λ w, set_map (rotFirst rot) (abs w)).
Proof.
  assert (Inj (=) (=) (rotFirst rot)) by (intros x y; apply rotFirst_inj, _).
  assert (∀ X : gset A, rotFirst rot <$> elements X
            ≡ₚ elements (set_map (rotFirst rot) X : gset B)) as Hperm.
  { intros X. apply NoDup_Permutation.
    - apply (NoDup_fmap_2 _). apply NoDup_elements.
    - apply NoDup_elements.
    - intros b. rw list_elem_of_fmap elem_of_elements elem_of_map.
      by setoid_rewrite elem_of_elements. }
  split; simpl.
  - intros w Hw. rw set_IsEmpty_ok //. apply bool_decide_ext.
    split; [intros ->; set_solver|]. intros Hm. apply set_eq. intros x.
    split; [|set_solver]. intros Hx. apply (elem_of_map_2 (D:=gset B) (rotFirst rot)) in Hx.
    set_solver.
  - intros w Hw. rw set_Len_ok //. unfold size, set_size. simpl.
    by rw -Hperm length_fmap.
  - intros b w Hw. rw set_Has_ok //. apply bool_decide_ext. rw elem_of_map.
    split; [intros ?; eexists; split; [|done]; by rw rot_first_second|].
    intros (x & -> & Hx). by rw rot_second_first.
  - intros w Hw. rw set_Visit_ok //.
Qed.

(** * Bulk operations *)

Section bulk_facts.
Context {W Elt R : Type} `{Countable Elt}.
Context (s : MutableSet W Elt) (c : Cell W R) (wf : R → Prop) (abs : R → gset Elt).
Context `{Hs : !MutableSetOk s c wf abs}.

Lemma SetAddAll_loop adds someNew allNew w :
  wf (cget c w) →
  ∃ r w',
    for_each adds (λ add '((someNew, allNew), w),
      match sw_Add s add w with
      | (true, w) => ((true, allNew), w)
      | (false, w) => ((someNew, false), w)
      end) ((someNew, allNew), w)
    = ((someNew || bool_decide (¬ list_to_set adds ⊆ abs (cget c w)),
        allNew && bool_decide (NoDup adds ∧ list_to_set adds ## abs (cget c w))), w') ∧
    Updated c r w w' ∧ wf r ∧ abs r = list_to_set adds ∪ abs (cget c w).
Proof.
  revert someNew allNew w. induction adds as [|e adds IH]; intros someNew allNew w Hw.
  { exists (cget c w), w. rw bool_decide_false; [|set_solver].
    rw bool_decide_true; [|split; [constructor|set_solver]].
    rw orb_false_r andb_true_r. split; [done|]. split; [apply Updated_refl|].
    split; [done|set_solver]. }
  rw for_each_cons. destruct (ms_add_ok e w Hw) as (r & w1 & -> & Hu & Hwf & Habs).
  assert (cget c w1 = r) as Hr by apply Hu.
  destruct (bool_decide_reflect (e ∉ abs (cget c w))) as [Hin|Hin];
    [destruct (IH true allNew w1) as (r2 & w2 & Heq & Hu2 & Hwf2 & Habs2); [by rw Hr|]
    |destruct (IH someNew false w1) as (r2 & w2 & Heq & Hu2 & Hwf2 & Habs2); [by rw Hr|]];
    exists r2, w2; (split_and!; [|by eapply Updated_trans|done|rw Habs2 Hr Habs; set_solver]);
    rw Hr Habs in Heq; rw Heq; do 2 f_equal; symmetry.
  - simpl. rw (bool_decide_true (¬ {[e]} ∪ _ ⊆ _)); [by rw orb_true_r|]. set_solver.
  - f_equal. apply bool_decide_ext. rw NoDup_cons. set_solver.
  - f_equal. apply bool_decide_ext. set_solver.
  - rw (bool_decide_false (NoDup (e :: adds) ∧ _)); [by rw andb_false_r|]. set_solver.
Qed.

Lemma SetRemoveAll_loop goners someNew allNew w :
  wf (cget c w) →
  ∃ r w',
    for_each goners (λ goner '((someNew, allNew), w),
      match sw_Remove s goner w with
      | (true, w) => ((true, allNew), w)
      | (false, w) => ((someNew, false), w)
      end) ((someNew, allNew), w)
    = ((someNew || bool_decide (¬ list_to_set goners ## abs (cget c w)),
        allNew && bool_decide (NoDup goners ∧ list_to_set goners ⊆ abs (cget c w))), w') ∧
    Updated c r w w' ∧ wf r ∧ abs r = abs (cget c w) ∖ list_to_set goners.
Proof.
  revert someNew allNew w. induction goners as [|e goners IH]; intros someNew allNew w Hw.
  { exists (cget c w), w. rw bool_decide_false; [|set_solver].
    rw bool_decide_true; [|split; [constructor|set_solver]].
    rw orb_false_r andb_true_r. split; [done|]. split; [apply Updated_refl|].
    split; [done|set_solver]. }
  rw for_each_cons. destruct (ms_remove_ok e w Hw) as (r & w1 & -> & Hu & Hwf & Habs).
  assert (cget c w1 = r) as Hr by apply Hu.
  destruct (bool_decide_reflect (e ∈ abs (cget c w))) as [Hin|Hin];
    [destruct (IH true allNew w1) as (r2 & w2 & Heq & Hu2 & Hwf2 & Habs2); [by rw Hr|]
    |destruct (IH someNew false w1) as (r2 & w2 & Heq & Hu2 & Hwf2 & Habs2); [by rw Hr|]];
    exists r2, w2; (split_and!; [|by eapply Updated_trans|done|rw Habs2 Hr Habs; set_solver]);
    rw Hr Habs in Heq; rw Heq; do 2 f_equal; symmetry.
  - simpl. rw (bool_decide_true (¬ {[e]} ∪ _ ## _)); [by rw orb_true_r|]. set_solver.
  - f_equal. apply bool_decide_ext. rw NoDup_cons. set_solver.
  - f_equal. apply bool_decide_ext. set_solver.
  - rw (bool_decide_false (NoDup (e :: goners) ∧ _)); [by rw andb_false_r|]. set_solver.
Qed.

(** [SetAddAll] on any correct mutable set leaves the union, reports
    [someNew] exactly when some given element was missing, and [allNew] exactly
    when the given elements are distinct and all were missing; nothing but the
    set changes. *)
Theorem SetAddAll_correct adds w :
  wf (cget c w) →
  ∃ r w',
    SetAddAll s adds w
    = ((bool_decide (¬ list_to_set adds ⊆ abs (cget c w)),
        bool_decide (NoDup adds ∧ list_to_set adds ## abs (cget c w))), w') ∧
    Updated c r w w' ∧ wf r ∧ abs r = list_to_set adds ∪ abs (cget c w).
Proof. intros Hw. apply (SetAddAll_loop adds false true w Hw). Qed.

Lemma SetRemoveAll_spec goners w :
  wf (cget c w) →
  ∃ r w',
    SetRemoveAll s goners w
    = ((bool_decide (¬ list_to_set goners ## abs (cget c w)),
        bool_decide (NoDup goners ∧ list_to_set goners ⊆ abs (cget c w))), w') ∧
    Updated c r w w' ∧ wf r ∧ abs r = abs (cget c w) ∖ list_to_set goners.
Proof. intros Hw. apply (SetRemoveAll_loop goners false true w Hw). Qed.
End bulk_facts.

Lemma SetAddAll_MapSet {Elt} `{MapRange} `{Countable Elt} (l : list Elt) (X : MapSet Elt) :
  (SetAddAll (MapSet_AsMutableSet id_cell) l X).2 = list_to_set l ∪ X.
Proof.
  destruct (SetAddAll_loop (MapSet_AsMutableSet id_cell) id_cell (λ _, True) id l false true X I)
    as (r & w' & Heq & [<- _] & _ & Habs).
  unfold SetAddAll. rw Heq. cbn in *. by rw Habs.
Qed.

(** * Differences *)

Section difference_facts.
Context {W Elt : Type} `{Countable Elt}.
Context (inv : W → Prop) (L R : gset Elt) (left right : GoSet W Elt).
Context `{Hl : !GoSetOk left inv (λ _, L)} `{Hr : !GoSetOk right inv (λ _, R)}.

(** Conditional calls along an enumeration are the calls for the selected elements. *)
Lemma for_each_when (X : gset Elt) (test : Elt → W → bool) (op : Elt → W → W) l w :
  (∀ e w, inv w → test e w = bool_decide (e ∈ X)) →
  (∀ e w, inv w → inv (op e w)) → inv w →
  for_each l (λ e w, if negb (test e w) then op e w else w) w
  = for_each (filter (λ e, e ∉ X) l) op w
  ∧ inv (for_each (filter (λ e, e ∉ X) l) op w).
Proof.
  intros Htest Hop. revert w. induction l as [|e l IH]; intros w Hw; [done|].
  rw for_each_cons Htest // filter_cons. destruct (decide (e ∈ X)) as [He|He].
  - rw bool_decide_true //. simpl. destruct (decide (e ∉ X)); [done|]. by apply IH.
  - rw bool_decide_false //. simpl. destruct (decide (e ∉ X)); [|done].
    rw for_each_cons. by apply IH, Hop.
Qed.

Lemma filter_notin_elements (X Y : gset Elt) l :
  l ≡ₚ elements X → filter (λ e, e ∉ Y) l ≡ₚ elements (X ∖ Y).
Proof.
  intros Hl'. apply NoDup_Permutation.
  - apply NoDup_filter. rw Hl'. apply NoDup_elements.
  - apply NoDup_elements.
  - intros e. rw list_elem_of_filter Hl' !elem_of_elements. set_solver.
Qed.

Lemma SetEnumerateDifferences_calls (receiver : SetWriter W Elt) w :
  (∀ e w, inv w → inv (sw_Add receiver e w).2) →
  (∀ e w, inv w → inv (sw_Remove receiver e w).2) → inv w →
  ∃ removes adds,
    removes ≡ₚ elements (L ∖ R) ∧ adds ≡ₚ elements (R ∖ L) ∧
    SetEnumerateDifferences left right receiver w
    = for_each adds (λ e w, (sw_Add receiver e w).2)
        (for_each removes (λ e w, (sw_Remove receiver e w).2) w) ∧
    inv (SetEnumerateDifferences left right receiver w).
Proof.
  intros Hadd Hrem Hw. unfold SetEnumerateDifferences. cbv zeta.
  destruct (for_each_when R (set_Has right) (λ e w, (sw_Remove receiver e w).2)
    (set_Visit left w) w (λ e w Hi, set_Has_ok e w Hi) Hrem Hw) as [-> Hinv1].
  set (w1 := for_each (filter (λ e, e ∉ R) _) _ w) in *.
  destruct (for_each_when L (set_Has left) (λ e w, (sw_Add receiver e w).2)
    (set_Visit right w1) w1 (λ e w Hi, set_Has_ok e w Hi) Hadd Hinv1) as [-> Hinv2].
  eexists _, _. split_and!; [..|done|done]; apply filter_notin_elements;
    [apply (set_Visit_ok (abs:=λ _, L) w Hw)|apply (set_Visit_ok (abs:=λ _, R) w1 Hinv1)].
Qed.

(** [SetEnumerateDifferences] tells the receiver what turns the first set
    into the second: a correct receiver whose set is some [A] ends with
    [(A ∖ (L ∖ R)) ∪ (R ∖ L)], in particular with [R] when it started from [L]. *)
Theorem SetEnumerateDifferences_correct (receiver : SetWriter W Elt) abs
  `{Hrec : !SetWriterOk receiver inv abs} w :
  inv w →
  let w' := SetEnumerateDifferences left right receiver w in
  inv w' ∧ abs w' = (abs w ∖ (L ∖ R)) ∪ (R ∖ L) ∧ (abs w = L → abs w' = R).
Proof.
  intros Hw.
  destruct (SetEnumerateDifferences_calls receiver w) as (rs & ads & Hrs & Hads & -> & Hi);
    [apply Hrec|apply Hrec|done|].
  destruct (sw_remove_all receiver inv abs rs w Hw) as [Hi1 Ha1].
  destruct (sw_add_all receiver inv abs ads _ Hi1) as [Hi2 Ha2].
  assert (list_to_set rs = L ∖ R) as Hrs'.
  { apply set_eq. intros e. by rw elem_of_list_to_set Hrs elem_of_elements. }
  assert (list_to_set ads = R ∖ L) as Hads'.
  { apply set_eq. intros e. by rw elem_of_list_to_set Hads elem_of_elements. }
  split; [done|]. rw Ha2 Ha1 Hrs' Hads'. split; [set_solver|]. intros ->.
  apply set_eq. intros e. destruct (decide (e ∈ R)), (decide (e ∈ L)); set_solver.
Qed.
End difference_facts.

(** ** The three-way difference *)

Section symmetric_facts.
Context {W Elt : Type} `{Countable Elt}.

(** Both loops put each visited element in one of two sets, if that one is wanted. *)
Lemma symmetric_loop (X : gset Elt) (has : Elt → bool) (wantIn wantOut : bool) l
  (oIn oOut : option (MapSet Elt)) :
  (∀ e, has e = bool_decide (e ∈ X)) →
  (wantIn = true → is_Some oIn) → (wantOut = true → is_Some oOut) →
  for_each l (λ e s,
    '(ins, outs) ← s;
    if has e then
      (if wantIn then ins ← nilable_Add e ins; Some (ins, outs) else Some (ins, outs))
    else if wantOut then outs ← nilable_Add e outs; Some (ins, outs)
    else Some (ins, outs)) (Some (oIn, oOut))
  = Some (if wantIn then Some (list_to_set (filter (λ e, e ∈ X) l) ∪ default ∅ oIn) else oIn,
          if wantOut then Some (list_to_set (filter (λ e, e ∉ X) l) ∪ default ∅ oOut) else oOut).
Proof.
  intros Hhas. revert oIn oOut. induction l as [|e l IH]; intros oIn oOut Hin Hout.
  { simpl. rw !(left_id_L ∅ (∪)).
    destruct wantIn; [destruct Hin as [? ->]; [done|]|];
      (destruct wantOut; [destruct Hout as [? ->]; [done|]|]); done. }
  rw for_each_cons !filter_cons Hhas. cbn [mbind option_bind].
  destruct wantIn; [destruct Hin as [sIn ->]; [done|]|];
    (destruct wantOut; [destruct Hout as [sOut ->]; [done|]|]);
    (destruct (decide (e ∈ X)) as [He|He];
    [rw bool_decide_true //|rw bool_decide_false //]); cbn [nilable_Add mbind option_bind];
    repeat (destruct (decide _); try tauto); rw ?MapSet_Add_spec;
    (etrans; [apply IH; eauto|]); simpl;
    repeat lazymatch goal with
      | |- Some _ = Some _ => f_equal
      | |- (_, _) = (_, _) => f_equal
      end; set_solver.
Qed.

Lemma filter_in_elements (X Y : gset Elt) l :
  l ≡ₚ elements X → list_to_set (filter (λ e, e ∈ Y) l) = X ∩ Y.
Proof.
  intros Hl. apply set_eq. intros e.
  rw elem_of_list_to_set list_elem_of_filter Hl elem_of_elements. set_solver.
Qed.

Lemma filter_out_elements (X Y : gset Elt) l :
  l ≡ₚ elements X → list_to_set (filter (λ e, e ∉ Y) l) = X ∖ Y.
Proof.
  intros Hl. apply set_eq. intros e.
  rw elem_of_list_to_set list_elem_of_filter Hl elem_of_elements. set_solver.
Qed.

(** [MapSetSymmetricDifference] never writes to a nil map, and computes
    exactly the wanted ones of [L ∖ R], [L ∩ R] and [R ∖ L], for all eight
    combinations of the flags. *)
Theorem MapSetSymmetricDifference_correct (left right : GoSet W Elt) wfl wfr absl absr
  `{!GoSetOk left wfl absl} `{!GoSetOk right wfr absr} (wl wi wr : bool) w :
  wfl w → wfr w →
  MapSetSymmetricDifference wl wi wr left right w
  = Some (if wl then Some (absl w ∖ absr w) else None,
          if wi then Some (absl w ∩ absr w) else None,
          if wr then Some (absr w ∖ absl w) else None).
Proof.
  intros Hwl Hwr. unfold MapSetSymmetricDifference, wanted.
  assert (∀ e, set_Has right e w = bool_decide (e ∈ absr w)) as Hhr
    by (intros; by rw set_Has_ok).
  assert (∀ e, set_Has left e w = bool_decide (e ∈ absl w)) as Hhl
    by (intros; by rw set_Has_ok).
  pose proof (set_Visit_ok w Hwl) as Hvl. pose proof (set_Visit_ok w Hwr) as Hvr.
  pose proof (λ wantIn oIn oOut H1 H2, symmetric_loop (absr w) (λ e, set_Has right e w) wantIn true
    (set_Visit left w) oIn oOut Hhr H1 H2) as Hloop1. cbv beta iota in Hloop1.
  pose proof (λ wantIn wantOut oIn oOut, symmetric_loop (absl w) (λ e, set_Has left e w) wantIn wantOut
    (set_Visit right w) oIn oOut Hhl) as Hloop2. cbv beta in Hloop2.
  rw (filter_in_elements _ _ _ Hvl) (filter_out_elements _ _ _ Hvl) in Hloop1.
  rw (filter_in_elements _ _ _ Hvr) (filter_out_elements _ _ _ Hvr) in Hloop2.
  destruct wl; cbn [negb andb].
  - rw andb_false_r orb_false_r Hloop1; [|by destruct wi|done].
    cbn [mbind option_bind]. destruct wr.
    + rw (Hloop2 false true); [|done|done]. simpl.
      destruct wi; simpl; by rw !(right_id_L ∅ (∪)).
    + simpl. destruct wi; simpl; by rw !(right_id_L ∅ (∪)).
  - rw andb_true_r. cbn [mbind option_bind]. destruct wr; [|destruct wi; [|done]].
    + rw (Hloop2 wi true); [|by destruct wi|done]. simpl.
      destruct wi; simpl; rw !(right_id_L ∅ (∪)); [|done].
      by rw (comm_L (∩) (absr w)).
    + rw (Hloop2 true false); [|done|done]. simpl. rw !(right_id_L ∅ (∪)).
      by rw (comm_L (∩) (absr w)).
Qed.
End symmetric_facts.

(** * The locked set *)

(** The [Remove] of a set wrapped by [WrapSetWithMutex] adds: whatever was
    to be removed is a member afterwards, and the result says whether it was
    absent before. *)
Theorem WrapSetWithMutex_Remove_adds {W Elt R} `{Countable Elt} (s : MutableSet W Elt)
  (c : Cell W R) wf abs `{!MutableSetOk s c wf abs} elt w :
  wf (cget c w) →
  let '(change, w') := sw_Remove (WrapSetWithMutex s) elt w in
  change = bool_decide (elt ∉ abs (cget c w)) ∧
  wf (cget c w') ∧ abs (cget c w') = {[elt]} ∪ abs (cget c w).
Proof.
  intros Hw. simpl. unfold setMutex_Remove.
  by destruct (ms_add_ok elt w Hw) as (r & w' & -> & [-> _] & ? & ?).
Qed.

(** * Runs: sequences of calls *)

Inductive SetOp (Elt : Type) : Type :=
| OpAdd (elt : Elt)
| OpRemove (elt : Elt).
Arguments OpAdd {_} _.
Arguments OpRemove {_} _.

Definition run_set_op {W Elt} (sw : SetWriter W Elt) (op : SetOp Elt) (w : W) : W :=
  match op with
  | OpAdd elt => (sw_Add sw elt w).2
  | OpRemove elt => (sw_Remove sw elt w).2
  end.

(** The same calls on a finite set. *)
Definition spec_set_op {Elt} `{Countable Elt} (op : SetOp Elt) (X : gset Elt) : gset Elt :=
  match op with
  | OpAdd elt => {[elt]} ∪ X
  | OpRemove elt => X ∖ {[elt]}
  end.

Lemma run_set_ops_ok {W Elt} `{Countable Elt} (sw : SetWriter W Elt) inv abs
  `{!SetWriterOk sw inv abs} ops w :
  inv w →
  inv (for_each ops (run_set_op sw) w) ∧
  abs (for_each ops (run_set_op sw) w) = for_each ops spec_set_op (abs w).
Proof.
  revert w. induction ops as [|op ops IH]; intros w Hw; [done|]. rw !for_each_cons.
  destruct op as [e|e]; simpl.
  - destruct (sw_add_ok e w Hw) as [Hi <-]. by apply IH.
  - destruct (sw_remove_ok e w Hw) as [Hi <-]. by apply IH.
Qed.


Lemma run_set_ops_sim {W Elt} `{Countable Elt} (sw : SetWriter W Elt) T
  `{!SetWriterSim sw T} ops X w :
  T X w → T (for_each ops spec_set_op X) (for_each ops (run_set_op sw) w).
Proof.
  revert X w. induction ops as [|[e|e] ops IH]; intros X w HT; [done|..];
    rw !for_each_cons; apply IH; [by apply sim_add|by apply sim_remove].
Qed.
