(* ===== verification/Maps.v ===== *)
(** Maps of pkg/placement: the map-based map with its observer (map-map.go), the
    derived maps and key sets (map-key-set.go, map-rotated-key.go,
    map-constant.go) and the operations on the [Map] interface (map-types.go).

    [MapMap_AsMutableMap obs c] is a Go map held in the variable [c] that tells
    [obs] about its changes, seen through the [MutableMap] interface. *)

From S2P Require Import Prelude Tuples Interfaces Slices Sets.

(** * MapMap *)

Section mapmap.
Context `{MapRange} {W Key Val : Type} `{Countable Key}.
Context (observer : option (MapChangeReceiver W Key Val)) (c : Cell W (gmap Key Val)).

Definition MapMap_IsEmpty (w : W) : bool := size (cget c w) =? 0.
Definition MapMap_LenIsCheap (w : W) : bool := true.
Definition MapMap_Len (w : W) : nat := size (cget c w).
Definition MapMap_Get (key : Key) (w : W) : option Val := cget c w !! key.
Definition MapMap_Visit (w : W) : list (Pair Key Val) := map_range (cget c w).

Definition MapMap_Put (key : Key) (val : Val) (w : W) : W :=
  let old := cget c w !! key in
  let w := cset c (<[key:=val]> (cget c w)) w in
  match observer with
  | None => w
  | Some observer =>
      match old with
      | Some oldVal => mcr_Update observer key oldVal val w
      | None => mcr_Create observer key val w
      end
  end.

Definition MapMap_Delete (key : Key) (w : W) : W :=
  match cget c w !! key with
  | Some oldVal =>
      let w := cset c (delete key (cget c w)) w in
      match observer with
      | Some observer => mcr_DeleteWithFinal observer key oldVal w
      | None => w
      end
  | None => w
  end.

Definition MapMap_AsMutableMap : MutableMap W Key Val :=
  MkMutableMap
    (MkGoMap MapMap_IsEmpty MapMap_Len MapMap_LenIsCheap MapMap_Get MapMap_Visit)
    (MkMappingReceiver MapMap_Put MapMap_Delete)
    (λ key val w, cset c (<[key:=val]> (cget c w)) w).

(** [NewMapMap] stores a fresh map in the variable. *)
Definition NewMapMap (w : W) : W := cset c ∅ w.

Definition MapMap_AddArgs (args : list (Pair Key Val)) (w : W) : W :=
  for_each args (λ arg w, MapMap_Put arg.1 arg.2 w) w.

Definition MapMap_AddAllByVisit (what : list (Pair Key Val)) (w : W) : W :=
  for_each what (λ tup w, MapMap_Put tup.1 tup.2 w) w.

Definition MapMapCopy (other : list (Pair Key Val)) (w : W) : W :=
  MapMap_AddAllByVisit other (NewMapMap w).
End mapmap.

(** * Key sets and derived maps *)

(** A map that is only read, as a [Map]. *)
Definition read_map `{MapRange} {W Key Val} `{Countable Key} (m : gmap Key Val) : GoMap W Key Val :=
  MkGoMap (λ _, (size m =? 0)%nat) (λ _, size m) (λ _, true) (λ k _, m !! k) (λ _, map_range m).

Section derived_maps.
Context {W : Type}.

Definition mapKeySet_Has {Key Val} (theMap : GoMap W Key Val) (key : Key) (w : W) : bool :=
  match map_Get theMap key w with Some _ => true | None => false end.

Definition MapKeySet {Key Val} (theMap : GoMap W Key Val) : GoSet W Key :=
  MkGoSet (map_IsEmpty theMap) (map_Len theMap) (map_LenIsCheap theMap) (mapKeySet_Has theMap)
    (λ w, (λ tup, tup.1) <$> map_Visit theMap w).

Definition setByMapToEmpty_Has {Elt} (theMap : MutableMap W Elt Empty) (elt : Elt) (w : W)
  : bool :=
  match map_Get theMap elt w with Some _ => true | None => false end.

Definition setByMapToEmpty_Add {Elt} (theMap : MutableMap W Elt Empty) (elt : Elt) (w : W)
  : bool * W :=
  match map_Get theMap elt w with
  | Some _ => (false, w)
  | None => (true, mr_Put theMap elt () w)
  end.

Definition setByMapToEmpty_Remove {Elt} (theMap : MutableMap W Elt Empty) (elt : Elt) (w : W)
  : bool * W :=
  match map_Get theMap elt w with
  | None => (false, w)
  | Some _ => (true, mr_Delete theMap elt w)
  end.

Definition NewSetByMapToEmpty {Elt} (theMap : MutableMap W Elt Empty) : MutableSet W Elt :=
  MkMutableSet
    (MkGoSet (map_IsEmpty theMap) (map_Len theMap) (map_LenIsCheap theMap)
       (setByMapToEmpty_Has theMap) (λ w, (λ pair, pair.1) <$> map_Visit theMap w))
    (MkSetWriter (setByMapToEmpty_Add theMap) (setByMapToEmpty_Remove theMap)).

(** [rotatedKeyMap] and [rotatedKeyMutableMap] *)
Definition rotatedKeyMap_Get {Original Rotated Val} (rotator : Rotator Original Rotated)
  (inner : GoMap W Rotated Val) (key : Original) (w : W) : option Val :=
  let rotatedKey := rotFirst rotator key in map_Get inner rotatedKey w.

Definition rotatedKeyMap_Visit {Original Rotated Val} (rotator : Rotator Original Rotated)
  (inner : GoMap W Rotated Val) (w : W) : list (Pair Original Val) :=
  (λ rotatedTup, let originalKey := rotSecond rotator rotatedTup.1 in
                 (originalKey, rotatedTup.2)) <$> map_Visit inner w.

Definition RotateKeyMap {Original Rotated Val} (rotator : Rotator Original Rotated)
  (inner : GoMap W Rotated Val) : GoMap W Original Val :=
  MkGoMap (map_IsEmpty inner) (map_Len inner) (map_LenIsCheap inner)
    (rotatedKeyMap_Get rotator inner) (rotatedKeyMap_Visit rotator inner).

Definition RotateMappingReceiver {Original Rotated Val} (rotator : Rotator Original Rotated)
  (inner : MappingReceiver W Rotated Val) : MappingReceiver W Original Val :=
  MkMappingReceiver
    (λ key val w, let rotatedKey := rotFirst rotator key in mr_Put inner rotatedKey val w)
    (λ key w, let rotatedKey := rotFirst rotator key in mr_Delete inner rotatedKey w).

Definition RotatedKeyMutableMap {Original Rotated Val} (rotator : Rotator Original Rotated)
  (inner : MutableMap W Rotated Val) : MutableMap W Original Val :=
  MkMutableMap (RotateKeyMap rotator inner)
    (MkMappingReceiver
       (λ key val w, let rotatedKey := rotFirst rotator key in mr_Put inner rotatedKey val w)
       (λ key w, let rotatedKey := rotFirst rotator key in mr_Delete inner rotatedKey w))
    (λ key, mm_Mutate inner (rotFirst rotator key)).

Definition MapToConstant_Get {Key Val} (keys : GoSet W Key) (val : Val) (key : Key) (w : W)
  : option Val :=
  if set_Has keys key w then Some val else None.

Definition NewMapToConstant {Key Val} (keys : GoSet W Key) (val : Val) : GoMap W Key Val :=
  MkGoMap (set_IsEmpty keys) (set_Len keys) (set_LenIsCheap keys) (MapToConstant_Get keys val)
    (λ w, (λ key, (key, val)) <$> set_Visit keys w).

Definition MapReadonly {Key Val} (inner : GoMap W Key Val) : GoMap W Key Val :=
  MkGoMap (map_IsEmpty inner) (map_Len inner) (map_LenIsCheap inner) (map_Get inner)
    (map_Visit inner).

Definition MutableMapToReadonly {Key Val} (inner : MutableMap W Key Val) : GoMap W Key Val :=
  MapReadonly inner.

(** [mapMutex]: the operations of the inner map, each under the lock. *)
Definition WrapMapWithMutex {Key Val} (theMap : MutableMap W Key Val) : MutableMap W Key Val :=
  MkMutableMap
    (MkGoMap (map_IsEmpty theMap) (map_Len theMap) (map_LenIsCheap theMap) (map_Get theMap)
       (map_Visit theMap))
    (MkMappingReceiver (mr_Put theMap) (mr_Delete theMap))
    (mm_Mutate theMap).
End derived_maps.

(** * Operations on the interface *)

Section map_operations.
Context {W Key Val : Type}.

Definition MappingReceiverAsVisitor (receiver : MappingReceiver W Key Val)
  (tup : Pair Key Val) (w : W) : option error * W :=
  (None, mr_Put receiver tup.1 tup.2 w).

Definition MappingReceiverNegativeAsVisitor (receiver : MappingReceiver W Key Val)
  (tup : Pair Key Val) (w : W) : option error * W :=
  (None, mr_Delete receiver tup.1 w).

Definition MapApply (theMap : GoMap W Key Val) (receiver : MappingReceiver W Key Val) (w : W)
  : W :=
  (visit (MappingReceiverAsVisitor receiver) (map_Visit theMap w) w).2.

Definition MapAddAll (theMap : MutableMap W Key Val) (adds : list (Pair Key Val)) (w : W) : W :=
  for_each adds (λ add w, mr_Put theMap add.1 add.2 w) w.

Definition MapRemoveAll (theMap : MutableMap W Key Val) (goners : list (Pair Key Val)) (w : W)
  : W :=
  for_each goners (λ goner w, mr_Delete theMap goner.1 w) w.

Definition MapGetAdd (zero : Val) (theMap : MutableMap W Key Val) (key : Key) (want : bool)
  (valGenerator : Key → Val) (w : W) : Val * W :=
  match map_Get theMap key w with
  | Some val => (val, w)
  | None =>
      if want then let val := valGenerator key in (val, mr_Put theMap key val w)
      else (zero, w)
  end.

Definition MapEqualParametric (isEqual : Val → Val → bool) (map1 map2 : GoMap W Key Val) (w : W)
  : bool :=
  if negb (map_Len map1 w =? map_Len map2 w) then false
  else
    match (visit (λ tup1 s,
             match map_Get map2 tup1.1 w with
             | None => (Some errStop, s)
             | Some val2 => (if negb (isEqual tup1.2 val2) then Some errStop else None, s)
             end) (map_Visit map1 w) ()).1 with
    | None => true
    | Some _ => false
    end.

Definition MapEqual `{EqDecision Val} (left right : GoMap W Key Val) (w : W) : bool :=
  MapEqualParametric (λ a b, bool_decide (a = b)) left right w.

Definition MapEnumerateDifferencesParametric (isEqual : Val → Val → bool)
  (left right : GoMap W Key Val) (receiver : MapChangeReceiver W Key Val) (w : W) : W :=
  let w := for_each (map_Visit left w) (λ tup w,
             match map_Get right tup.1 w with
             | None => mcr_DeleteWithFinal receiver tup.1 tup.2 w
             | Some valRight =>
                 if negb (isEqual valRight tup.2)
                 then mcr_Update receiver tup.1 tup.2 valRight w
                 else w
             end) w in
  for_each (map_Visit right w) (λ tup w,
    match map_Get left tup.1 w with
    | None => mcr_Create receiver tup.1 tup.2 w
    | Some _ => w
    end) w.

Definition MapEnumerateDifferences `{EqDecision Val} (left right : GoMap W Key Val)
  (receiver : MapChangeReceiver W Key Val) (w : W) : W :=
  MapEnumerateDifferencesParametric (λ a b, bool_decide (a = b)) left right receiver w.
End map_operations.

(** * Contracts *)

Section mapmap_facts.
Context `{MapRange} {W Key Val : Type} `{Countable Key}.
Context (observer : option (MapChangeReceiver W Key Val)) (c : Cell W (gmap Key Val)) `{!CellOk c}.

#[export] Instance MapMap_ok :
  MutableMapOk (MapMap_AsMutableMap observer c) observer c (λ _, True) id.
Proof.
  split; [split|..]; simpl.
  - intros w _. unfold MapMap_IsEmpty. apply eq_bool_prop_intro.
    rw !Is_true_true Nat.eqb_eq bool_decide_eq_true map_size_empty_iff dom_empty_iff_L //.
  - done.
  - done.
  - intros w _. apply map_range_perm.
  - intros k v w _. unfold MapMap_Put. eexists _, _. split; [|split; [by apply Updated_cset|done]].
    by destruct observer.
  - intros k w _. unfold MapMap_Delete. destruct (cget c w !! k) eqn:Hk.
    + eexists _, _. split; [|split; [by apply Updated_cset|done]].
      by destruct observer.
    + exists (cget c w), w. split_and!; [|apply Updated_refl|done|].
      * by destruct observer.
      * by rw /= delete_id.
  - intros k v w _ _. eexists. split; [by apply Updated_cset|done].
Qed.
End mapmap_facts.

(** A loop whose body, for an entry, changes only the image of a key that is determined by
    the entry, different entries having different keys. *)
Lemma for_each_keyed {E K V} `{Countable K} (key : E → K) (g : E → option V → option V)
  (f : E → gmap K V → gmap K V) (l : list E) (w : gmap K V) k :
  NoDup (key <$> l) →
  (∀ e w, f e w = partial_alter (g e) (key e) w) →
  for_each l f w !! k = match list_find (λ e, key e = k) l with
                        | Some (_, e) => g e (w !! k)
                        | None => w !! k
                        end.
Proof.
  intros Hnd Hf. revert w. induction l as [|e l IH]; intros w; [done|].
  apply NoDup_cons in Hnd as [Hnotin Hnd]. rw for_each_cons (IH Hnd) Hf. cbn [list_find].
  destruct (decide (key e = k)) as [<-|Hne].
  - rw lookup_partial_alter_eq. destruct (list_find _ l) as [[i e']|] eqn:Hfind; [|done].
    apply list_find_Some in Hfind as (Hl & Hk & _). destruct Hnotin. apply list_elem_of_fmap.
    exists e'. split; [done|]. by apply list_elem_of_lookup_2 in Hl.
  - rw lookup_partial_alter_ne //. by destruct (list_find _ l) as [[i e']|].
Qed.

Lemma for_each_entries `{MapRange} {K V V'} `{Countable K} (g : K → V → option V' → option V')
  (f : K * V → gmap K V' → gmap K V') (m : gmap K V) (w : gmap K V') k :
  (∀ k v w, f (k, v) w = partial_alter (g k v) k w) →
  for_each (map_range m) f w !! k = match m !! k with
                                    | Some v => g k v (w !! k)
                                    | None => w !! k
                                    end.
Proof.
  intros Hf. rw (for_each_keyed fst (λ e, g e.1 e.2)); [|apply NoDup_map_range_fst|by intros []].
  destruct (list_find _ _) as [[i [k' v]]|] eqn:Hfind.
  - apply list_find_Some in Hfind as (Hl & Hk & _). cbn in Hk. subst k'.
    apply list_elem_of_lookup_2, elem_of_map_range in Hl. by rw Hl.
  - destruct (m !! k) as [v|] eqn:Hm; [|done]. apply elem_of_map_range in Hm.
    apply list_find_None in Hfind. rewrite Forall_forall in Hfind. by destruct (Hfind _ Hm).
Qed.

#[export] Instance read_map_ok `{MapRange} {W K V} `{Countable K} (m : gmap K V) :
  GoMapOk (W:=W) (read_map m) (λ _, True) (λ _, m).
Proof.
  split; cbn; intros w; [intros _|done|done|intros _; apply map_range_perm].
  apply eq_bool_prop_intro. rw !Is_true_true Nat.eqb_eq bool_decide_eq_true map_size_empty_iff dom_empty_iff_L //.
Qed.

Section map_contract_facts.
Context {W : Type}.

Lemma map_Visit_NoDup {K V} `{Countable K} (m : GoMap W K V) wf abs `{!GoMapOk m wf abs} w :
  wf w → NoDup (map_Visit m w).*1.
Proof. intros Hw. rw map_Visit_ok //. apply NoDup_fst_map_to_list. Qed.

Lemma elem_of_map_Visit {K V} `{Countable K} (m : GoMap W K V) wf abs `{!GoMapOk m wf abs} w k v :
  wf w → (k, v) ∈ map_Visit m w ↔ abs w !! k = Some v.
Proof. intros Hw. by rw map_Visit_ok // elem_of_map_to_list. Qed.

Lemma elem_of_map_Visit_fst {K V} `{Countable K} (m : GoMap W K V) wf abs `{!GoMapOk m wf abs} w k :
  wf w → k ∈ (map_Visit m w).*1 ↔ is_Some (abs w !! k).
Proof.
  intros Hw. rw list_elem_of_fmap. split.
  - intros ([k1 v] & -> & Hin). apply (elem_of_map_Visit m wf abs w k1 v Hw) in Hin. by eexists.
  - intros [v Hv]. exists (k, v). split; [done|]. by apply (elem_of_map_Visit m wf abs w k v Hw).
Qed.

(** A map whose changes nobody observes is a correct receiver of mappings. *)
Lemma MutableMapOk_receiver {K V R} `{Countable K} (m : MutableMap W K V) (c : Cell W R) wf abs :
  MutableMapOk m None c wf abs →
  MappingReceiverOk m (λ w, wf (cget c w)) (λ w, abs (cget c w)).
Proof.
  intros Hm. split.
  - intros k v w Hw. destruct (mm_put_ok k v w Hw) as (r & w' & -> & [Hr _] & ? & Ha).
    simpl. by rw Hr.
  - intros k w Hw. destruct (mm_delete_ok k w Hw) as (r & w' & -> & [Hr _] & ? & Ha).
    simpl. by rw Hr.
Qed.

#[export] Instance MapKeySet_ok {K V} `{Countable K} (m : GoMap W K V) wf abs
  `{!GoMapOk m wf abs} : GoSetOk (MapKeySet m) wf (λ w, dom (abs w)).
Proof.
  split; simpl.
  - intros w Hw. by rw map_IsEmpty_ok.
  - intros w Hw. by rw map_Len_ok // size_dom.
  - intros k w Hw. unfold mapKeySet_Has. rw map_Get_ok //. symmetry.
    destruct (abs w !! k) eqn:Hk.
    + apply bool_decide_eq_true, elem_of_dom. by eexists.
    + apply bool_decide_eq_false. by apply not_elem_of_dom.
  - intros w Hw. apply NoDup_Permutation; [by eapply map_Visit_NoDup|apply NoDup_elements|].
    intros k. rw elem_of_elements elem_of_dom. by apply (elem_of_map_Visit_fst m wf abs w k Hw).
Qed.

#[export] Instance NewSetByMapToEmpty_ok {E R} `{Countable E} (m : MutableMap W E Empty)
  (c : Cell W R) wf abs `{Hm : !MutableMapOk m None c wf abs} :
  MutableSetOk (NewSetByMapToEmpty m) c wf (λ r, dom (abs r)).
Proof.
  pose proof (MapKeySet_ok m (λ w, wf (cget c w)) (λ w, abs (cget c w))) as Hks.
  split.
  - split; [apply (set_IsEmpty_ok (s:=MapKeySet m))|apply (set_Len_ok (s:=MapKeySet m))
      |apply (set_Has_ok (s:=MapKeySet m))|apply (set_Visit_ok (s:=MapKeySet m))].
  - intros e w Hw. simpl. unfold setByMapToEmpty_Add. rw map_Get_ok //.
    destruct (abs (cget c w) !! e) as [[]|] eqn:He.
    + apply elem_of_dom_2 in He as Hd. exists (cget c w), w.
      rw bool_decide_false; [|naive_solver]. split_and!; [done|apply Updated_refl|done|set_solver].
    + apply not_elem_of_dom in He. rw bool_decide_true //.
      destruct (mm_put_ok e () w Hw) as (r & w' & -> & Hu & ? & Ha).
      exists r, w'. split_and!; [done..|]. rw Ha. apply dom_insert_L.
  - intros e w Hw. simpl. unfold setByMapToEmpty_Remove. rw map_Get_ok //.
    destruct (abs (cget c w) !! e) as [[]|] eqn:He.
    + apply elem_of_dom_2 in He as Hd. rw bool_decide_true //.
      destruct (mm_delete_ok e w Hw) as (r & w' & -> & Hu & ? & Ha).
      exists r, w'. split_and!; [done..|]. rw Ha. apply dom_delete_L.
    + apply not_elem_of_dom in He. exists (cget c w), w.
      rw bool_decide_false //. split_and!; [done|apply Updated_refl|done|set_solver].
Qed.

#[export] Instance NewMapToConstant_ok {K V} `{Countable K} (s : GoSet W K) (val : V) wf abs
  `{!GoSetOk s wf abs} : GoMapOk (NewMapToConstant s val) wf (λ w, gset_to_gmap val (abs w)).
Proof.
  split; simpl.
  - intros w Hw. by rw set_IsEmpty_ok // dom_gset_to_gmap.
  - intros w Hw. by rw set_Len_ok // -(size_dom (D:=gset K)) dom_gset_to_gmap.
  - intros k w Hw. unfold MapToConstant_Get. rw set_Has_ok // lookup_gset_to_gmap.
    case_bool_decide as Hk; [by rw option_guard_True|by rw option_guard_False].
  - intros w Hw. apply NoDup_Permutation.
    + apply (NoDup_fmap_2_strong); [naive_solver|]. rw set_Visit_ok //. apply NoDup_elements.
    + apply NoDup_map_to_list.
    + intros [k v]. rw list_elem_of_fmap elem_of_map_to_list lookup_gset_to_gmap_Some.
      setoid_rewrite (elem_of_set_Visit s wf abs w); naive_solver.
Qed.
End map_contract_facts.

Section rotated_facts.
Context {W A B V : Type} `{Countable A, Countable B} (rot : Rotator A B) `{!RotatorOk rot}.

#[local] Instance rotSecond_Inj : Inj (=) (=) (rotSecond rot).
Proof. intros x y. apply rotSecond_inj, _. Qed.

(** The contents of a map under rotated keys. *)
Definition rotated_keys (m : gmap B V) : gmap A V := kmap (rotSecond rot) m.

Lemma lookup_rotated_keys m a : rotated_keys m !! a = m !! rotFirst rot a.
Proof. unfold rotated_keys. rw -{1}(rot_second_first a). apply lookup_kmap, _. Qed.

#[export] Instance RotateKeyMap_ok (m : GoMap W B V) wf abs `{!GoMapOk m wf abs} :
  GoMapOk (RotateKeyMap rot m) wf (λ w, rotated_keys (abs w)).
Proof.
  split; simpl.
  - intros w Hw. rw map_IsEmpty_ok //. apply bool_decide_ext.
    rw !dom_empty_iff_L. unfold rotated_keys. by rw kmap_empty_iff.
  - intros w Hw. rw map_Len_ok //. unfold rotated_keys.
    by rw -!length_map_to_list map_to_list_kmap length_fmap.
  - intros k w Hw. unfold rotatedKeyMap_Get. by rw map_Get_ok // lookup_rotated_keys.
  - intros w Hw. unfold rotatedKeyMap_Visit, rotated_keys. rw map_Visit_ok // map_to_list_kmap.
    erewrite list_fmap_ext; [done|]. by intros ? [].
Qed.

Lemma rotated_keys_insert k v m :
  rotated_keys (<[rotFirst rot k:=v]> m) = <[k:=v]> (rotated_keys m).
Proof. unfold rotated_keys. by rw kmap_insert rot_second_first. Qed.

Lemma rotated_keys_delete k m :
  rotated_keys (delete (rotFirst rot k) m) = delete k (rotated_keys m).
Proof. unfold rotated_keys. by rw kmap_delete rot_second_first. Qed.

#[export] Instance RotatedKeyMutableMap_ok {R} (m : MutableMap W B V) (c : Cell W R) wf abs
  `{!MutableMapOk m None c wf abs} :
  MutableMapOk (RotatedKeyMutableMap rot m) None c wf (λ r, rotated_keys (abs r)).
Proof.
  split; [apply RotateKeyMap_ok, _|..].
  - intros k v w Hw. simpl.
    destruct (mm_put_ok (rotFirst rot k) v w Hw) as (r & w' & -> & Hu & ? & Ha).
    exists r, w'. split_and!; [done..|]. by rw Ha rotated_keys_insert.
  - intros k w Hw. simpl.
    destruct (mm_delete_ok (rotFirst rot k) w Hw) as (r & w' & -> & Hu & ? & Ha).
    exists r, w'. split_and!; [done..|]. by rw Ha rotated_keys_delete.
  - intros k v w Hw Hk. simpl. rw lookup_rotated_keys in Hk.
    destruct (mm_mutate_ok (rotFirst rot k) v w Hw Hk) as (r & Hu & ? & Ha).
    exists r. split_and!; [done..|]. by rw Ha rotated_keys_insert.
Qed.
End rotated_facts.

(** * Operations *)

(** the observer of a [MapMap] never falls behind: if it starts out knowing
    the contents of the map, then every [Put] and [Delete] leaves the map with
    the expected contents and the observer with the same contents. *)
Theorem MapMap_observed `{MapRange} {W K V} `{Countable K} (c : Cell W (gmap K V)) `{!CellOk c}
  (o : MapChangeReceiver W K V) inv abs
  `{!MapChangeReceiverOk o inv abs, !Indep c inv, !Indep c abs, !QuietMCR o (cget c)} :
  MappingReceiverOk (MapMap_AsMutableMap (Some o) c)
    (λ w, inv w ∧ abs w = cget c w) (cget c).
Proof.
  split; simpl.
  - intros k v w [Hi Ha]. unfold MapMap_Put. set (w1 := cset c _ w).
    assert (inv w1) as Hi1 by (unfold w1; by rw indep).
    assert (abs w1 = cget c w) as Ha1 by (unfold w1; by rw indep).
    assert (cget c w1 = <[k:=v]> (cget c w)) as Hg1 by apply cget_cset.
    destruct (cget c w !! k) as [old|] eqn:Hk.
    + destruct (mcr_update_ok k old v w1 Hi1) as [? ->]; [by rw Ha1|].
      rw quiet_update Hg1. split; [split; [done|by rw Ha1]|done].
    + destruct (mcr_create_ok k v w1 Hi1) as [? ->]; [by rw Ha1|].
      rw quiet_create Hg1. split; [split; [done|by rw Ha1]|done].
  - intros k w [Hi Ha]. unfold MapMap_Delete.
    destruct (cget c w !! k) as [old|] eqn:Hk; [|by rw delete_id].
    set (w1 := cset c _ w).
    assert (inv w1) as Hi1 by (unfold w1; by rw indep).
    assert (abs w1 = cget c w) as Ha1 by (unfold w1; by rw indep).
    assert (cget c w1 = delete k (cget c w)) as Hg1 by apply cget_cset.
    destruct (mcr_delete_ok k old w1 Hi1) as [? ->]; [by rw Ha1|].
    rw quiet_final Hg1. split; [split; [done|by rw Ha1]|done].
Qed.

Section map_operation_facts.
Context {W K V : Type} `{Countable K}.

Lemma MapApply_spec (m : GoMap W K V) (mr : MappingReceiver W K V) w :
  MapApply m mr w = for_each (map_Visit m w) (λ p, mr_Put mr p.1 p.2) w.
Proof. unfold MapApply. by rw visit_nil_error. Qed.

(** [MapGetAdd] returns the mapping that is in the map afterwards, if there is one. *)
Lemma MapGetAdd_spec {R} (zero : V) (m : MutableMap W K V) (c : Cell W R) wf abs
  `{!MutableMapOk m None c wf abs} k (want : bool) gen w :
  wf (cget c w) →
  let '(val, w') := MapGetAdd zero m k want gen w in
  let old := abs (cget c w) in
  let new := if want then <[k:=default (gen k) (old !! k)]> old else old in
  val = default zero (new !! k) ∧
  ∃ r, Updated c r w w' ∧ wf r ∧ abs r = new.
Proof.
  intros Hw. unfold MapGetAdd. rw map_Get_ok //.
  destruct (abs (cget c w) !! k) as [v|] eqn:Hk; [|destruct want].
  - destruct want; simpl; rw ?lookup_insert_eq ?Hk; (split; [done|]);
      exists (cget c w); rw ?insert_id //; split_and!; auto using Updated_refl.
  - destruct (mm_put_ok k (gen k) w Hw) as (r & w' & -> & Hu & ? & Ha).
    simpl. rw lookup_insert_eq. split; [done|]. by exists r.
  - simpl. rw Hk. split; [done|]. exists (cget c w). split_and!; auto using Updated_refl.
Qed.

Lemma MapEqualParametric_spec (isEqual : V → V → bool) (m1 m2 : GoMap W K V) wf1 wf2 abs1 abs2
  `{!GoMapOk m1 wf1 abs1} `{!GoMapOk m2 wf2 abs2} w :
  wf1 w → wf2 w →
  MapEqualParametric isEqual m1 m2 w = true ↔
  map_relation (λ _ v1 v2, isEqual v1 v2 = true) (λ _ _, False) (λ _ _, False) (abs1 w) (abs2 w).
Proof.
  intros H1 H2. unfold MapEqualParametric. rw !map_Len_ok //.
  set (bad := λ tup : K * V, match abs2 w !! tup.1 with
                | None => true | Some val2 => negb (isEqual tup.2 val2) end).
  assert (∀ l, visit (λ tup1 s,
             match map_Get m2 tup1.1 w with
             | None => (Some errStop, s)
             | Some val2 => (if negb (isEqual tup1.2 val2) then Some errStop else None, s)
             end) l () = (if existsb bad l then Some errStop else None, ())) as ->.
  { induction l as [|tup l IH]; [done|]. simpl. unfold bad at 1. rw map_Get_ok //.
    destruct (abs2 w !! tup.1) as [v2|]; simpl; [|done]. by destruct (isEqual tup.2 v2). }
  assert (existsb bad (map_Visit m1 w) = false ↔
          ∀ k v1, abs1 w !! k = Some v1 → ∃ v2, abs2 w !! k = Some v2 ∧ isEqual v1 v2 = true)
    as Hbad.
  { rw -not_true_iff_false existsb_exists. split.
    - intros Hno k v1 Hk. destruct (abs2 w !! k) as [v2|] eqn:Hk2.
      + exists v2. split; [done|]. destruct (isEqual v1 v2) eqn:Heq; [done|].
        destruct Hno. exists (k, v1). rw -list_elem_of_In elem_of_map_Visit //.
        split; [done|]. unfold bad. simpl. by rw Hk2 Heq.
      + destruct Hno. exists (k, v1). rw -list_elem_of_In elem_of_map_Visit //.
        split; [done|]. unfold bad. simpl. by rw Hk2.
    - intros Hall ([k v1] & Hin & Hb). rw -list_elem_of_In elem_of_map_Visit // in Hin.
      apply Hall in Hin as (v2 & Hk2 & Heq). unfold bad in Hb. simpl in Hb.
      rw Hk2 Heq in Hb. done. }
  unfold map_relation. split.
  - destruct (Nat.eqb_spec (size (abs1 w)) (size (abs2 w))) as [Hlen|]; [|done]. simpl.
    destruct (existsb bad _); [done|]. intros _. destruct Hbad as [Hbad _].
    specialize (Hbad eq_refl).
    assert (dom (abs1 w) = dom (abs2 w)) as Hdom.
    { apply set_subseteq_size_eq; [|rw !size_dom; lia]. intros k Hk.
      apply elem_of_dom in Hk as [v1 Hv1]. apply Hbad in Hv1 as (v2 & Hv2 & _).
      by apply elem_of_dom_2 in Hv2. }
    intros k. destruct (abs1 w !! k) as [v1|] eqn:Hk1.
    + apply Hbad in Hk1 as (v2 & -> & Heq). done.
    + apply not_elem_of_dom in Hk1. rw Hdom in Hk1. apply not_elem_of_dom in Hk1. by rw Hk1.
  - intros Hrel.
    assert (dom (abs1 w) = dom (abs2 w)) as Hdom.
    { apply set_eq. intros k. rw !elem_of_dom. specialize (Hrel k).
      destruct (abs1 w !! k), (abs2 w !! k); try done; split; intros [? ?]; done. }
    rw -(size_dom (D:=gset K) (abs1 w)) -(size_dom (D:=gset K) (abs2 w)) Hdom Nat.eqb_refl /=.
    destruct Hbad as [_ Hbad]. rw Hbad //. intros k v1 Hk1. specialize (Hrel k).
    rw Hk1 in Hrel. destruct (abs2 w !! k) as [v2|]; [|done]. by exists v2.
Qed.

Lemma MapEqual_spec `{EqDecision V} (m1 m2 : GoMap W K V) wf1 wf2 abs1 abs2
  `{!GoMapOk m1 wf1 abs1} `{!GoMapOk m2 wf2 abs2} w :
  wf1 w → wf2 w → MapEqual m1 m2 w = bool_decide (abs1 w = abs2 w).
Proof.
  intros H1 H2. apply eq_bool_prop_intro. rw bool_decide_spec Is_true_true.
  unfold MapEqual. rw MapEqualParametric_spec //. unfold map_relation.
  split.
  - intros Hrel. apply map_eq. intros k. specialize (Hrel k).
    destruct (abs1 w !! k), (abs2 w !! k); simpl in *; try done.
    f_equal. by apply bool_decide_eq_true in Hrel.
  - intros -> k. destruct (abs2 w !! k); [|done]. by apply bool_decide_eq_true.
Qed.
End map_operation_facts.

(** ** Differences of maps *)

Section map_difference_facts.
Context {W K V : Type} `{Countable K}.
Context (inv : W → Prop) (L R : gmap K V) (left right : GoMap W K V).
Context `{Hl : !GoMapOk left inv (λ _, L)} `{Hr : !GoMapOk right inv (λ _, R)}.
Context (isEqual : V → V → bool).
Context (receiver : MapChangeReceiver W K V) (abs : W → gmap K V).
Context `{Hrec : !MapChangeReceiverOk receiver inv abs}.

(** The mapping of a key after the changes: an old value survives when it is
    considered equal to the new one. *)
Definition difference_target (k : K) : option V :=
  match R !! k with
  | None => None
  | Some r =>
      match L !! k with
      | Some l => if isEqual r l then Some l else Some r
      | None => Some r
      end
  end.

Lemma left_loop w :
  inv w → abs w = L →
  let w' := for_each (map_Visit left w) (λ tup w,
             match map_Get right tup.1 w with
             | None => mcr_DeleteWithFinal receiver tup.1 tup.2 w
             | Some valRight =>
                 if negb (isEqual valRight tup.2)
                 then mcr_Update receiver tup.1 tup.2 valRight w
                 else w
             end) w in
  inv w' ∧ ∀ k, abs w' !! k = if decide (k ∈ (map_Visit left w).*1) then difference_target k else None.
Proof.
  intros Hw Habs.
  pose proof (map_Visit_NoDup left inv (λ _, L) w Hw) as Hnd.
  assert (∀ p, p ∈ map_Visit left w → L !! p.1 = Some p.2) as Hin.
  { intros [k v] Hp. by apply (elem_of_map_Visit left inv (λ _, L) w k v Hw). }
  assert (∀ k, k ∈ (map_Visit left w).*1 ↔ is_Some (L !! k)) as Hkeys.
  { intros k. apply (elem_of_map_Visit_fst left inv (λ _, L) w k Hw). }
  revert Hnd Hin Hkeys. generalize (map_Visit left w) as l. intros l Hnd Hin Hkeys.
  cut (let w' := for_each l (λ tup w,
             match map_Get right tup.1 w with
             | None => mcr_DeleteWithFinal receiver tup.1 tup.2 w
             | Some valRight =>
                 if negb (isEqual valRight tup.2)
                 then mcr_Update receiver tup.1 tup.2 valRight w
                 else w
             end) w in
       inv w' ∧ ∀ k, abs w' !! k = if decide (k ∈ l.*1) then difference_target k else L !! k).
  { intros [Hi Ha]. split; [done|]. intros k. rw Ha. destruct (decide _) as [|Hn]; [done|].
    rw Hkeys in Hn. by apply eq_None_not_Some. }
  set (I := λ (seen : list (K * V)) (w : W), inv w ∧
    ∀ k, abs w !! k = if decide (k ∈ seen.*1) then difference_target k else L !! k).
  apply (for_each_ind I); unfold I.
  { split; [done|]. intros k. by rw Habs. }
  intros seen [k v] todo w1 Heq [Hi1 Ha1]. cbn [fst snd].
  assert (L !! k = Some v) as HLk by (apply (Hin (k, v)); rw Heq; set_solver).
  assert (k ∉ seen.*1) as Hns.
  { rw Heq fmap_app fmap_cons NoDup_app in Hnd. set_solver. }
  pose proof (Ha1 k) as Hk. rw decide_False // HLk in Hk.
  rw (map_Get_ok (abs:=λ _, R) k w1 Hi1) fmap_app.
  assert (∀ k', k' ≠ k → (if decide (k' ∈ seen.*1 ++ [(k, v)].*1) then difference_target k' else L !! k')
                = abs w1 !! k') as Hother.
  { intros k' Hne. rw Ha1. destruct (decide (k' ∈ seen.*1)), (decide _); set_solver. }
  assert (k ∈ seen.*1 ++ [(k, v)].*1) as Hkin by set_solver.
  assert (difference_target k = match R !! k with
           | None => None | Some r => if isEqual r v then Some v else Some r end) as Ht.
  { unfold difference_target. rw HLk. by destruct (R !! k). }
  destruct (R !! k) as [r|] eqn:HRk; [destruct (isEqual r v) eqn:Heqv|].
  - split; [done|]. intros k'. simpl. destruct (decide (k' = k)) as [->|Hne].
    + by rw decide_True // Ht.
    + by rw Hother.
  - simpl. destruct (mcr_update_ok k v r w1 Hi1 Hk) as [? Ha2]. split; [done|].
    intros k'. rw Ha2. destruct (decide (k' = k)) as [->|Hne].
    + by rw lookup_insert_eq decide_True // Ht.
    + by rw lookup_insert_ne // Hother.
  - destruct (mcr_delete_ok k v w1 Hi1 Hk) as [? Ha2]. split; [done|].
    intros k'. rw Ha2. destruct (decide (k' = k)) as [->|Hne].
    + by rw lookup_delete_eq decide_True // Ht.
    + by rw lookup_delete_ne // Hother.
Qed.

Lemma right_loop w :
  inv w → (∀ k, abs w !! k = match L !! k with Some _ => difference_target k | None => None end) →
  let w' := for_each (map_Visit right w) (λ tup w,
    match map_Get left tup.1 w with
    | None => mcr_Create receiver tup.1 tup.2 w
    | Some _ => w
    end) w in
  inv w' ∧ ∀ k, abs w' !! k = difference_target k.
Proof.
  intros Hw Habs.
  pose proof (map_Visit_NoDup right inv (λ _, R) w Hw) as Hnd.
  assert (∀ p, p ∈ map_Visit right w → R !! p.1 = Some p.2) as Hin.
  { intros [k v] Hp. by apply (elem_of_map_Visit right inv (λ _, R) w k v Hw). }
  assert (∀ k, k ∈ (map_Visit right w).*1 ↔ is_Some (R !! k)) as Hkeys.
  { intros k. apply (elem_of_map_Visit_fst right inv (λ _, R) w k Hw). }
  revert Hnd Hin Hkeys. generalize (map_Visit right w) as l. intros l Hnd Hin Hkeys.
  cut (let w' := for_each l (λ tup w,
    match map_Get left tup.1 w with
    | None => mcr_Create receiver tup.1 tup.2 w
    | Some _ => w
    end) w in
    inv w' ∧ ∀ k, abs w' !! k = if decide (k ∈ l.*1) then difference_target k else abs w !! k).
  { intros [Hi Ha]. split; [done|]. intros k. rw Ha. destruct (decide _) as [|Hn]; [done|].
    rw Hkeys -eq_None_not_Some in Hn. rw Habs. unfold difference_target. rw Hn.
    by destruct (L !! k). }
  set (I := λ (seen : list (K * V)) (w' : W), inv w' ∧
    ∀ k, abs w' !! k = if decide (k ∈ seen.*1) then difference_target k else abs w !! k).
  apply (for_each_ind I); unfold I.
  { done. }
  intros seen [k v] todo w1 Heq [Hi1 Ha1]. cbn [fst snd].
  assert (R !! k = Some v) as HRk by (apply (Hin (k, v)); rw Heq; set_solver).
  assert (k ∉ seen.*1) as Hns.
  { rw Heq fmap_app fmap_cons NoDup_app in Hnd. set_solver. }
  pose proof (Ha1 k) as Hk. rw decide_False // Habs in Hk.
  rw (map_Get_ok (abs:=λ _, L) k w1 Hi1) fmap_app.
  assert (∀ k', k' ≠ k → (if decide (k' ∈ seen.*1 ++ [(k, v)].*1) then difference_target k' else abs w !! k')
                = abs w1 !! k') as Hother.
  { intros k' Hne. rw Ha1. destruct (decide (k' ∈ seen.*1)), (decide _); set_solver. }
  assert (k ∈ seen.*1 ++ [(k, v)].*1) as Hkin by set_solver.
  destruct (L !! k) as [l0|] eqn:HLk.
  - split; [done|]. intros k'. destruct (decide (k' = k)) as [->|Hne].
    + by rw decide_True.
    + by rw Hother.
  - destruct (mcr_create_ok k v w1 Hi1 Hk) as [? Ha2]. split; [done|].
    intros k'. rw Ha2. destruct (decide (k' = k)) as [->|Hne].
    + rw lookup_insert_eq decide_True //. unfold difference_target. by rw HRk HLk.
    + by rw lookup_insert_ne // Hother.
Qed.

Lemma MapEnumerateDifferencesParametric_spec w :
  inv w → abs w = L →
  let w' := MapEnumerateDifferencesParametric isEqual left right receiver w in
  inv w' ∧ ∀ k, abs w' !! k = difference_target k.
Proof.
  intros Hw Habs. unfold MapEnumerateDifferencesParametric. cbv zeta.
  destruct (left_loop w Hw Habs) as [Hi Ha]. apply right_loop; [done|].
  intros k. rw Ha. pose proof (elem_of_map_Visit_fst left inv (λ _, L) w k Hw) as Hkeys.
  destruct (decide _) as [Hin|Hn].
  - apply Hkeys in Hin as [? ->]. done.
  - rw Hkeys -eq_None_not_Some in Hn. by rw Hn.
Qed.
End map_difference_facts.

(** [MapEnumerateDifferences] drives an observer from the first map to the
    second: every call it makes is truthful (the old values it passes are the
    ones the observer has), and an observer that knew [L] ends up with [R]. *)
Theorem MapEnumerateDifferences_correct {W K V} `{Countable K, EqDecision V}
  (inv : W → Prop) (L R : gmap K V) (left right : GoMap W K V)
  `{!GoMapOk left inv (λ _, L)} `{!GoMapOk right inv (λ _, R)}
  (receiver : MapChangeReceiver W K V) (abs : W → gmap K V)
  `{!MapChangeReceiverOk receiver inv abs} w :
  inv w → abs w = L →
  let w' := MapEnumerateDifferences left right receiver w in
  inv w' ∧ abs w' = R.
Proof.
  intros Hw Habs. unfold MapEnumerateDifferences. cbv zeta.
  destruct (MapEnumerateDifferencesParametric_spec inv L R left right
    (λ a b, bool_decide (a = b)) receiver abs w Hw Habs) as [Hi Ha].
  split; [done|]. apply map_eq. intros k. rw Ha. unfold difference_target.
  destruct (R !! k) as [r|], (L !! k) as [l|]; try done.
  case_bool_decide; by subst.
Qed.

(** * Runs: sequences of calls *)

Inductive MapOp (Key Val : Type) : Type :=
| OpPut (key : Key) (val : Val)
| OpDelete (key : Key).
Arguments OpPut {_ _} _ _.
Arguments OpDelete {_ _} _.

Definition run_op {W Key Val} (mr : MappingReceiver W Key Val) (op : MapOp Key Val) : W → W :=
  match op with
  | OpPut key val => mr_Put mr key val
  | OpDelete key => mr_Delete mr key
  end.

(** The same calls on a finite map. *)
Definition spec_op {Key Val} `{Countable Key} (op : MapOp Key Val) (m : gmap Key Val)
  : gmap Key Val :=
  match op with
  | OpPut key val => <[key:=val]> m
  | OpDelete key => delete key m
  end.

Lemma run_ops_ok {W Key Val} `{Countable Key} (mr : MappingReceiver W Key Val) inv abs
  `{!MappingReceiverOk mr inv abs} ops w :
  inv w →
  inv (for_each ops (run_op mr) w) ∧
  abs (for_each ops (run_op mr) w) = for_each ops spec_op (abs w).
Proof.
  revert w. induction ops as [|op ops IH]; intros w Hw; [done|]. rw !for_each_cons.
  destruct op as [k v|k]; simpl.
  - destruct (mr_put_ok k v w Hw) as [Hi <-]. by apply IH.
  - destruct (mr_delete_ok k w Hw) as [Hi <-]. by apply IH.
Qed.


Lemma run_ops_sim {W Key Val} `{Countable Key} (mr : MappingReceiver W Key Val) T
  `{!MappingReceiverSim mr T} ops m w :
  T m w → T (for_each ops spec_op m) (for_each ops (run_op mr) w).
Proof.
  revert m w. induction ops as [|[k v|k] ops IH]; intros m w HT; [done|..];
    rw !for_each_cons; apply IH; [by apply sim_put|by apply sim_delete].
Qed.
