(* ===== verification/GoStrings.v ===== *)
(** Go's strings as the jsonpath and customize packages use them: a Go string is a
    sequence of bytes, which is what Rocq's [string] is.  Slicing, UTF-8 decoding
    and encoding (unicode/utf8, strings.Reader.ReadRune, strings.Builder),
    strconv.ParseInt and the wrap-around of [int] are modelled after the Go standard library. *)

From Stdlib Require Import Ascii.
From Stdlib Require String.
From S2P Require Import Prelude.

#[local] Open Scope Z_scope.

(** * Bytes and slices *)

Definition code (a : ascii) : Z := Z.of_N (N_of_ascii a).

(** [s[n:]] and [s[:n]], for [n] up to the length. *)
Fixpoint str_drop (n : nat) (s : string) : string :=
  match n, s with
  | O, _ => s
  | S n, String _ s => str_drop n s
  | S _, EmptyString => EmptyString
  end.

Fixpoint str_take (n : nat) (s : string) : string :=
  match n, s with
  | S n, String a s => String a (str_take n s)
  | _, _ => EmptyString
  end.

(** [s[i:j]] *)
Definition slice (s : string) (i j : nat) : string := str_take (j - i) (str_drop i s).

(** * UTF-8 *)

(** A rune is an int32; the functions below only produce code points. *)
Definition RuneError : Z := 0xFFFD.
Definition MaxRune : Z := 0x10FFFF.

Definition in_range (lo hi b : Z) : bool := (lo <=? b) && (b <=? hi).

(** The length of the encoding that starts with the byte [b0], 0 if none does. *)
Definition utf8_size (b0 : Z) : nat :=
  if in_range 0xC2 0xDF b0 then 2%nat
  else if in_range 0xE0 0xEF b0 then 3%nat
  else if in_range 0xF0 0xF4 b0 then 4%nat
  else 0%nat.

(** The bytes that may follow [b0]. *)
Definition second_ok (b0 b1 : Z) : bool :=
  if b0 =? 0xE0 then in_range 0xA0 0xBF b1
  else if b0 =? 0xED then in_range 0x80 0x9F b1
  else if b0 =? 0xF0 then in_range 0x90 0xBF b1
  else if b0 =? 0xF4 then in_range 0x80 0x8F b1
  else in_range 0x80 0xBF b1.
Definition tail_ok (b : Z) : bool := in_range 0x80 0xBF b.

(** utf8.DecodeRuneInString: the first rune and its width in bytes. *)
Definition DecodeRuneInString (s : string) : Z * nat :=
  match s with
  | EmptyString => (RuneError, 0%nat)
  | String a0 s1 =>
      let b0 := code a0 in
      if b0 <? 0x80 then (b0, 1%nat)
      else
        match utf8_size b0, s1 with
        | 2%nat, String a1 _ =>
            if second_ok b0 (code a1) then ((b0 - 0xC0) * 64 + (code a1 - 0x80), 2%nat)
            else (RuneError, 1%nat)
        | 3%nat, String a1 (String a2 _) =>
            if second_ok b0 (code a1) && tail_ok (code a2)
            then ((b0 - 0xE0) * 4096 + (code a1 - 0x80) * 64 + (code a2 - 0x80), 3%nat)
            else (RuneError, 1%nat)
        | 4%nat, String a1 (String a2 (String a3 _)) =>
            if second_ok b0 (code a1) && tail_ok (code a2) && tail_ok (code a3)
            then ((b0 - 0xF0) * 262144 + (code a1 - 0x80) * 4096 + (code a2 - 0x80) * 64
                    + (code a3 - 0x80), 4%nat)
            else (RuneError, 1%nat)
        | _, _ => (RuneError, 1%nat)
        end
  end.

(** strings.Reader.ReadRune on a reader with [s] left: the rune, its width, whether
    it reported io.EOF, and what is left. *)
Definition ReadRune (s : string) : Z * nat * bool * string :=
  match s with
  | EmptyString => (0, 0%nat, true, EmptyString)
  | _ => let '(r, size) := DecodeRuneInString s in (r, size, false, str_drop size s)
  end.

Definition byte (b : Z) : ascii := ascii_of_N (Z.to_N b).

(** The bytes that strings.Builder.WriteRune appends. *)
Definition EncodeRune (r : Z) : string :=
  let r := if in_range 0 0xD7FF r || in_range 0xE000 MaxRune r then r else RuneError in
  if r <=? 0x7F then String (byte r) ""
  else if r <=? 0x7FF then String (byte (0xC0 + r / 64)) (String (byte (0x80 + r mod 64)) "")
  else if r <=? 0xFFFF then
    String (byte (0xE0 + r / 4096))
      (String (byte (0x80 + r / 64 mod 64)) (String (byte (0x80 + r mod 64)) ""))
  else
    String (byte (0xF0 + r / 262144))
      (String (byte (0x80 + r / 4096 mod 64))
        (String (byte (0x80 + r / 64 mod 64)) (String (byte (0x80 + r mod 64)) ""))).

(** strings.ContainsRune, for an ASCII rune *)
Fixpoint contains_byte (c : ascii) (s : string) : bool :=
  match s with
  | EmptyString => false
  | String a s => if ascii_dec a c then true else contains_byte c s
  end.

(** * strconv.ParseInt with base 10 and 64 bits *)

Inductive NumError : Set := NumErrSyntax | NumErrRange.

Definition maxUint64 : Z := 2 ^ 64 - 1.

(** The loop of ParseUint: an overflow is reported as soon as it happens. *)
Fixpoint ParseUint_loop (s : string) (n : Z) : Z * option NumError :=
  match s with
  | EmptyString => (n, None)
  | String c s =>
      if in_range 48 57 (code c) then
        let d := code c - 48 in
        if maxUint64 / 10 + 1 <=? n then (maxUint64, Some NumErrRange)
        else if maxUint64 <? n * 10 + d then (maxUint64, Some NumErrRange)
        else ParseUint_loop s (n * 10 + d)
      else (0, Some NumErrSyntax)
  end.

Definition ParseUint (s : string) : Z * option NumError :=
  match s with
  | EmptyString => (0, Some NumErrSyntax)
  | _ => ParseUint_loop s 0
  end.

Definition ParseInt (s : string) : Z * option NumError :=
  let '(neg, digits) :=
    match s with
    | String c rest =>
        if code c =? 43 then (false, rest) else if code c =? 45 then (true, rest) else (false, s)
    | EmptyString => (false, s)
    end in
  match s with
  | EmptyString => (0, Some NumErrSyntax)
  | _ =>
      match ParseUint digits with
      | (_, Some NumErrSyntax) => (0, Some NumErrSyntax)
      | (un, err) =>
          if negb neg && (2 ^ 63 <=? un) then (2 ^ 63 - 1, Some NumErrRange)
          else if neg && (2 ^ 63 <? un) then (- 2 ^ 63, Some NumErrRange)
          else (if neg then - un else un, err)
      end
  end.

(** * Facts *)

Lemma code_range a : 0 ≤ code a < 256.
Proof. unfold code. pose proof (N_ascii_bounded a). lia. Qed.

Lemma code_byte b : 0 ≤ b < 256 → code (byte b) = b.
Proof. intros Hb. unfold code, byte. rw N_ascii_embedding; lia. Qed.

Lemma byte_code a : byte (code a) = a.
Proof. unfold code, byte. by rw N2Z.id ascii_N_embedding. Qed.

Lemma str_drop_length n s : String.length (str_drop n s) = (String.length s - n)%nat.
Proof. revert s. induction n as [|n IH]; intros [|a s]; cbn; [done..|apply IH]. Qed.

Lemma str_drop_app s t : str_drop (String.length s) (s +:+ t) = t.
Proof. by induction s. Qed.

Lemma str_take_app s t : str_take (String.length s) (s +:+ t) = s.
Proof. induction s as [|a s IH]; [by destruct t|]. cbn. f_equal. exact IH. Qed.

Lemma str_take_drop n s : (n ≤ String.length s)%nat → str_take n s +:+ str_drop n s = s.
Proof.
  revert s. induction n as [|n IH]; intros [|a s] Hn; cbn in *; [done..|lia|].
  change (String a (str_take n s +:+ str_drop n s) = String a s). f_equal. apply IH. lia.
Qed.

Lemma str_take_length n s : (n ≤ String.length s)%nat → String.length (str_take n s) = n.
Proof.
  revert s. induction n as [|n IH]; intros [|a s] Hn; cbn in *; [done..|lia|].
  f_equal. apply IH. lia.
Qed.

Lemma str_length_app s t : String.length (s +:+ t) = (String.length s + String.length t)%nat.
Proof. induction s as [|a s IH]; [done|]. exact (f_equal S IH). Qed.

Lemma str_cons_app a s t : String a s +:+ t = String a (s +:+ t).
Proof. done. Qed.

Lemma str_app_assoc s t u : (s +:+ t) +:+ u = s +:+ (t +:+ u).
Proof. induction s as [|a s IH]; [done|]. exact (f_equal (String a) IH). Qed.

Lemma str_app_nil s : s +:+ "" = s.
Proof. induction s as [|a s IH]; [done|]. exact (f_equal (String a) IH). Qed.

(** A slice of a concatenation. *)
Lemma slice_app pre s post :
  slice (pre +:+ s +:+ post) (String.length pre) (String.length pre + String.length s) = s.
Proof.
  unfold slice. rw str_drop_app.
  replace (String.length pre + String.length s - String.length pre)%nat with (String.length s) by lia.
  apply str_take_app.
Qed.

Lemma in_range_spec lo hi b : in_range lo hi b = true ↔ lo ≤ b ≤ hi.
Proof. unfold in_range. rw andb_true_iff !Z.leb_le //. Qed.

(** Decoding makes progress and stays within the string. *)
Lemma DecodeRuneInString_size a s :
  (1 ≤ (DecodeRuneInString (String a s)).2 ≤ S (String.length s))%nat.
Proof.
  cbn [DecodeRuneInString]. cbv zeta. destruct (code a <? 0x80); [cbn; lia|].
  destruct (utf8_size (code a)) as [|[|[|[|[|]]]]]; try (cbn; lia).
  all: destruct s as [|a1 [|a2 [|a3 s]]]; try (cbn; lia); case_match; cbn; lia.
Qed.

Lemma DecodeRuneInString_ascii a s : code a < 0x80 → DecodeRuneInString (String a s) = (code a, 1%nat).
Proof. intros Ha. cbn. by rw (proj2 (Z.ltb_lt _ _) Ha). Qed.

(** Only an ASCII byte decodes to an ASCII rune. *)
Lemma DecodeRuneInString_ascii_inv a s r size :
  DecodeRuneInString (String a s) = (r, size) → r < 0x80 → r = code a ∧ size = 1%nat.
Proof.
  cbn [DecodeRuneInString]. cbv zeta. pose proof (code_range a) as Ha.
  destruct (code a <? 0x80) eqn:Hlt; [by intros [= <- <-]|]. apply Z.ltb_ge in Hlt.
  unfold RuneError, second_ok, tail_ok. intros Hd Hr. exfalso. revert Hd.
  unfold utf8_size.
  destruct (in_range 0xC2 0xDF (code a)) eqn:H2; [apply in_range_spec in H2|
    destruct (in_range 0xE0 0xEF (code a)) eqn:H3; [apply in_range_spec in H3|
      destruct (in_range 0xF0 0xF4 (code a)) eqn:H4; [apply in_range_spec in H4|]]].
  all: destruct s as [|a1 [|a2 [|a3 s]]]; try (intros [= <- <-]; lia).
  all: repeat case_match; intros [= <- <-]; try lia.
  all: repeat match goal with
         | H : _ && _ = true |- _ => apply andb_true_iff in H as [? ?]
         | H : in_range _ _ _ = true |- _ => apply in_range_spec in H
         | H : (_ =? _) = false |- _ => apply Z.eqb_neq in H
         | H : (_ =? _) = true |- _ => apply Z.eqb_eq in H
         end; lia.
Qed.

(** ** Decimal numbers *)

Lemma ParseUint_loop_range s n m err :
  0 ≤ n → ParseUint_loop s n = (m, err) → 0 ≤ m.
Proof.
  revert n. induction s as [|c s IH]; intros n Hn; cbn; [by intros [= <- _]|].
  destruct (in_range 48 57 (code c)) eqn:Hc; [|by intros [= <- _]]. apply in_range_spec in Hc.
  repeat (case_match; [intros [= <- _]; done|]). apply IH. lia.
Qed.

Lemma ParseInt_digit c s n :
  48 ≤ code c ≤ 57 → ParseInt (String c s) = (n, None) → 0 ≤ n < 2 ^ 63.
Proof.
  intros Hc. unfold ParseInt. rw !(proj2 (Z.eqb_neq _ _)); [|lia..].
  destruct (ParseUint _) as [un [[]|]] eqn:Hu; cbn [negb andb]; try done.
  - case_match; done.
  - case_match eqn:Hle; [done|]. intros [= <-]. apply Z.leb_gt in Hle. split; [|done].
    by eapply ParseUint_loop_range.
Qed.

(** ** Encoding and decoding *)

Definition rune_ok (r : Z) : Prop := 0 ≤ r ≤ 0xD7FF ∨ 0xE000 ≤ r ≤ MaxRune.

Lemma EncodeRune_nonempty r : (1 ≤ String.length (EncodeRune r))%nat.
Proof. unfold EncodeRune. cbv zeta. repeat case_match; cbn; lia. Qed.

(** Decoding what was encoded. *)
Lemma Decode_Encode r s :
  rune_ok r → DecodeRuneInString (EncodeRune r +:+ s) = (r, String.length (EncodeRune r)).
Proof.
  intros Hr. unfold EncodeRune.
  assert (in_range 0 0xD7FF r || in_range 0xE000 MaxRune r = true) as ->.
  { apply orb_true_iff. by rw !in_range_spec. }
  unfold rune_ok, MaxRune in Hr.
  pose proof (Z.mod_pos_bound r 64) as Hm0. pose proof (Z.mod_pos_bound (r / 64) 64) as Hm1.
  pose proof (Z.mod_pos_bound (r / 4096) 64) as Hm2.
  pose proof (Z.div_mod r 64) as Hd0. pose proof (Z.div_mod (r / 64) 64) as Hd1.
  pose proof (Z.div_mod (r / 4096) 64) as Hd2.
  rw Z.div_div in Hd1; [|lia..]. rw Z.div_div in Hd2; [|lia..].
  change (64 * 64) with 4096 in Hd1. change (4096 * 64) with 262144 in Hd2.
  assert (∀ b0, 0x80 ≤ b0 → (b0 <? 0x80) = false) as Hge by (intros; by apply Z.ltb_ge).
  assert (∀ b, 0x80 ≤ b ≤ 0xBF → tail_ok b = true) as Htail by (intros; by apply in_range_spec).
  destruct (r <=? 0x7F) eqn:H1; [|destruct (r <=? 0x7FF) eqn:H2; [|destruct (r <=? 0xFFFF) eqn:H3]].
  all: rw !str_cons_app; cbn [DecodeRuneInString String.length]; cbv zeta.
  - rw code_byte; [|lia]. by rw (proj2 (Z.ltb_lt r 0x80)); [|lia].
  - rw !code_byte; [|lia..]. rw Hge; [|lia].
    assert (utf8_size (0xC0 + r / 64) = 2%nat) as -> by (unfold utf8_size, in_range; repeat case_match; lia).
    assert (second_ok (0xC0 + r / 64) (0x80 + r mod 64) = true) as ->
      by (unfold second_ok, in_range; repeat case_match; lia).
    f_equal. lia.
  - rw !code_byte; [|lia..]. rw Hge; [|lia].
    assert (utf8_size (0xE0 + r / 4096) = 3%nat) as -> by (unfold utf8_size, in_range; repeat case_match; lia).
    assert (second_ok (0xE0 + r / 4096) (0x80 + r / 64 mod 64) = true) as ->
      by (unfold second_ok, in_range; repeat case_match; lia).
    rw Htail; [|lia]. cbn [andb]. f_equal. lia.
  - rw !code_byte; [|lia..]. rw Hge; [|lia].
    assert (utf8_size (0xF0 + r / 262144) = 4%nat) as ->
      by (unfold utf8_size, in_range; repeat case_match; lia).
    assert (second_ok (0xF0 + r / 262144) (0x80 + r / 4096 mod 64) = true) as ->
      by (unfold second_ok, in_range; repeat case_match; lia).
    rw !Htail; [|lia..]. cbn [andb]. f_equal. lia.
Qed.

Lemma ReadRune_Encode r s :
  rune_ok r → ReadRune (EncodeRune r +:+ s) = (r, String.length (EncodeRune r), false, s).
Proof.
  intros Hr. unfold ReadRune. rw Decode_Encode //. pose proof (EncodeRune_nonempty r) as Hne.
  destruct (EncodeRune r +:+ s) as [|a t] eqn:He.
  - apply (f_equal String.length) in He. rw str_length_app in He. cbn in He. lia.
  - by rw -He str_drop_app.
Qed.

Lemma ReadRune_ascii c s : code c < 128 → ReadRune (String c s) = (code c, 1%nat, false, s).
Proof. intros Hc. unfold ReadRune. by rw DecodeRuneInString_ascii. Qed.

(** * Machine integers *)

(** Addition of the type [int]. *)
Definition wrap_int (n : Z) : Z := (n + 2 ^ 63) mod 2 ^ 64 - 2 ^ 63.

Lemma wrap_int_id n : - 2 ^ 63 ≤ n < 2 ^ 63 → wrap_int n = n.
Proof. intros Hn. unfold wrap_int. rw Z.mod_small; lia. Qed.
