(* ===== verification/JsonLexer.v ===== *)
(** The lexer of JSONPath expressions (pkg/jsonpath/lexer.go).

    A method of [*Lexer] takes and returns the lexer.  The loops of the source are
    bounded by a fuel, the number of bytes left to read; a function that would need
    more returns [None], and [Next_total] shows that this never happens.

    Parameters of the model: the JavaScript parser goja, which reads string
    literals, and the tables of the package unicode outside the ASCII range. *)

From Stdlib Require Import Ascii.
From Stdlib Require String.
From S2P Require Import Prelude GoStrings.

#[local] Open Scope Z_scope.

(** * Types *)

(** The errors that the lexer and the parser return; [fmt.Errorf] errors keep the
    constant part of their message.  [GoPanic] is not a returned error but the
    panic of a failed type assertion, which ends the call. *)
Inductive jperror : Set :=
| io_EOF
| ErrSyntax
| ErrNum (e : NumError)
| ErrGoja (msg : string)
| Errorf (msg : string)
| GoPanic.

#[export] Instance NumError_eq_dec : EqDecision NumError.
Proof. solve_decision. Defined.
#[export] Instance jperror_eq_dec : EqDecision jperror.
Proof. solve_decision. Defined.

Record Lexer : Set := MkLexer {
  source : string;
  reader : string;  (** what the reader has left *)
  chr : Z;          (** next rune to process *)
  chrPos : nat;     (** index of start of chr *)
  nextPos : nat;    (** index after chr *)
  eof : bool        (** no more to process *)
}.

Inductive Token : Set := TokenEOF | TokenSpecial | TokenString | TokenIdentifier | TokenNumber.

#[export] Instance Token_eq_dec : EqDecision Token.
Proof. solve_decision. Defined.

(** [JPLiteralValue]: either a string or an int64 *)
Inductive JPLiteralValue : Set :=
| JPStr (s : string)
| JPInt (n : Z).

#[export] Instance JPLiteralValue_eq_dec : EqDecision JPLiteralValue.
Proof. solve_decision. Defined.

(** What the source looks at in the result of [goja.Parse]. *)
Inductive js_expression : Set := js_StringLiteral (value : string) | js_OtherExpression.
Inductive js_statement : Set := js_ExpressionStatement (e : js_expression) | js_OtherStatement.

(** The tables of the package unicode that the source names. *)
Inductive UnicodeTable : Set :=
| Letter | Title | Lm | Other_ID_Start | Other_ID_Continue | Pattern_Syntax | Pattern_White_Space.

(** Their ASCII part. *)
Definition ascii_Is (t : UnicodeTable) (r : Z) : bool :=
  match t with
  | Letter => in_range 65 90 r || in_range 97 122 r
  | Title | Lm | Other_ID_Start | Other_ID_Continue => false
  | Pattern_Syntax =>
      in_range 33 47 r || in_range 58 64 r || in_range 91 94 r || (r =? 96) || in_range 123 126 r
  | Pattern_White_Space => in_range 9 13 r || (r =? 32)
  end.

Section lexer.
Context (goja_Parse : string → string + list js_statement).
Context (nonascii_Is : UnicodeTable → Z → bool) (nonascii_IsDigit : Z → bool).

Definition unicode_In (r : Z) (tables : list UnicodeTable) : bool :=
  existsb (λ t, if r <? 128 then ascii_Is t r else nonascii_Is t r) tables.
Definition unicode_IsDigit (r : Z) : bool :=
  if r <? 128 then in_range 48 57 r else nonascii_IsDigit r.

Definition isIdentifierStart (r : Z) : bool :=
  (r =? 36) || (r =? 95) ||
  (unicode_In r [Letter; Title; Lm; Other_ID_Start] &&
   negb (unicode_In r [Pattern_Syntax; Pattern_White_Space])).

Definition isIdentifierPart (r : Z) : bool :=
  (r =? 36) || (r =? 95) || (r =? 0x200C) || (r =? 0x200D) || unicode_IsDigit r ||
  (unicode_In r [Letter; Title; Lm; Other_ID_Continue] &&
   negb (unicode_In r [Pattern_Syntax; Pattern_White_Space])).

(** * Reading *)

Definition Lexer_advance (lxr : Lexer) : option jperror * Lexer :=
  if eof lxr then (Some io_EOF, lxr)
  else
    let chrPos := nextPos lxr in
    let '(r, size, err, rest) := ReadRune (reader lxr) in
    (None, MkLexer (source lxr) rest r chrPos (chrPos + size) err).

Definition NewLexer (src : string) : Lexer :=
  (Lexer_advance (MkLexer src src 0 0 0 false)).2.

(** The result of a call to the lexer. *)
Definition LexResult : Set := Token * JPLiteralValue * option jperror.

(** The value of the string literal [stringSrc], by goja. *)
Definition stringValue (stringSrc : string) : JPLiteralValue * option jperror :=
  match goja_Parse stringSrc with
  | inl msg => (JPStr stringSrc, Some (ErrGoja msg))
  | inr [stmt] =>
      match stmt with
      | js_ExpressionStatement (js_StringLiteral value) => (JPStr value, None)
      | js_ExpressionStatement js_OtherExpression =>
          (JPStr stringSrc, Some (Errorf "goja statement is not a string literal"))
      | js_OtherStatement =>
          (JPStr stringSrc, Some (Errorf "goja statement is not an expression statement"))
      end
  | inr _ => (JPStr stringSrc, Some (Errorf "parsed goja body len"))
  end.

Fixpoint nextString_loop (fuel : nat) (startPos : nat) (close : Z) (lxr : Lexer)
  : option (LexResult * Lexer) :=
  match fuel with
  | O => None
  | S fuel =>
      match Lexer_advance lxr with
      | (Some err, lxr) => Some ((TokenEOF, JPStr "", Some err), lxr)
      | (None, lxr) =>
          if eof lxr then
            Some ((TokenString, JPStr (str_drop startPos (source lxr)), Some ErrSyntax), lxr)
          else if chr lxr =? close then
            match Lexer_advance lxr with
            | (Some err, lxr) => Some ((TokenEOF, JPStr "", Some err), lxr)
            | (None, lxr) =>
                let stringSrc := slice (source lxr) startPos (chrPos lxr) in
                let '(val, err) := stringValue stringSrc in
                Some ((TokenString, val, err), lxr)
            end
          else if chr lxr =? 92 then
            match Lexer_advance lxr with
            | (Some err, lxr) => Some ((TokenEOF, JPStr "", Some err), lxr)
            | (None, lxr) =>
                if eof lxr then
                  Some ((TokenString, JPStr (str_drop startPos (source lxr)), Some ErrSyntax), lxr)
                else nextString_loop fuel startPos close lxr
            end
          else nextString_loop fuel startPos close lxr
      end
  end.

(** Enough fuel for any loop that reads on from [lxr]. *)
Definition lexer_fuel (lxr : Lexer) : nat := S (S (String.length (reader lxr))).

Definition Lexer_nextString (lxr : Lexer) : option (LexResult * Lexer) :=
  nextString_loop (lexer_fuel lxr) (chrPos lxr) (chr lxr) lxr.

(** The loop of [nextNumber] reads the longest run of digits; the final [None] of
    the error component is the normal exit. *)
Fixpoint nextNumber_loop (fuel : nat) (baseable isOctal isHex : bool) (lxr : Lexer)
  : option (option jperror * Lexer) :=
  match fuel with
  | O => None
  | S fuel =>
      if eof lxr then Some (None, lxr)
      else
        match Lexer_advance lxr with
        | (Some err, lxr) => Some (Some err, lxr)
        | (None, lxr) =>
            let c := chr lxr in
            if baseable && (c =? 111) then nextNumber_loop fuel false true isHex lxr
            else if baseable && (c =? 120) then nextNumber_loop fuel false isOctal true lxr
            else if (48 <=? c) && (c <? 56) then nextNumber_loop fuel false isOctal isHex lxr
            else if negb isOctal && ((c =? 56) || (c =? 57)) then
              nextNumber_loop fuel false isOctal isHex lxr
            else if isHex && (in_range 97 102 c || in_range 65 70 c) then
              nextNumber_loop fuel false isOctal isHex lxr
            else Some (None, lxr)
        end
  end.

Definition Lexer_nextNumber (startOffset : nat) (lxr : Lexer) : option (LexResult * Lexer) :=
  let startPos := (chrPos lxr + startOffset)%nat in
  let baseable := (chr lxr =? 48) && (startOffset =? 0)%nat in
  match nextNumber_loop (lexer_fuel lxr) baseable false false lxr with
  | None => None
  | Some (Some err, lxr) => Some ((TokenEOF, JPStr "", Some err), lxr)
  | Some (None, lxr) =>
      let numSrc := slice (source lxr) startPos (chrPos lxr) in
      let '(numInt, err) := ParseInt numSrc in
      Some ((TokenNumber, JPInt numInt, ErrNum <$> err), lxr)
  end.

Fixpoint nextIdentifierName_loop (fuel : nat) (lxr : Lexer) : option (option jperror * Lexer) :=
  match fuel with
  | O => None
  | S fuel =>
      if eof lxr then Some (None, lxr)
      else
        match Lexer_advance lxr with
        | (Some err, lxr) => Some (Some err, lxr)
        | (None, lxr) =>
            if negb (isIdentifierPart (chr lxr)) then Some (None, lxr)
            else nextIdentifierName_loop fuel lxr
        end
  end.

Definition Lexer_nextIdentifierName (lxr : Lexer) : option (LexResult * Lexer) :=
  let startPos := chrPos lxr in
  match nextIdentifierName_loop (lexer_fuel lxr) lxr with
  | None => None
  | Some (Some err, lxr) => Some ((TokenEOF, JPStr "", Some err), lxr)
  | Some (None, lxr) =>
      Some ((TokenIdentifier, JPStr (slice (source lxr) startPos (chrPos lxr)), None), lxr)
  end.

(** The characters [ [ ] * , : ] *)
Definition is_punctuation (c : Z) : bool :=
  (c =? 91) || (c =? 93) || (c =? 42) || (c =? 44) || (c =? 58).

Definition Lexer_Next (lxr : Lexer) : option (LexResult * Lexer) :=
  if eof lxr then Some ((TokenEOF, JPStr "", None), lxr)
  else
    let c := chr lxr in
    if is_punctuation c then
      match Lexer_advance lxr with
      | (Some err, lxr) => Some ((TokenEOF, JPStr "", Some err), lxr)
      | (None, lxr) => Some ((TokenSpecial, JPStr (EncodeRune c), None), lxr)
      end
    else if c =? 46 then
      match Lexer_advance lxr with
      | (Some err, lxr) => Some ((TokenEOF, JPStr "", Some err), lxr)
      | (None, lxr) =>
          if chr lxr =? 46 then
            match Lexer_advance lxr with
            | (Some err, lxr) => Some ((TokenEOF, JPStr "", Some err), lxr)
            | (None, lxr) => Some ((TokenSpecial, JPStr "..", None), lxr)
            end
          else Some ((TokenSpecial, JPStr ".", None), lxr)
      end
    else if (48 <=? c) && (c <=? 57) then Lexer_nextNumber 0 lxr
    else if (c =? 34) || (c =? 39) then Lexer_nextString lxr
    else if isIdentifierStart c then Lexer_nextIdentifierName lxr
    else Some ((TokenSpecial, JPStr "", Some (Errorf "syntax error at")), lxr).
End lexer.

(** * Invariant

    [lex_at lxr pre post]: the lexer has consumed [pre] and has [post] ahead, with
    the first rune of [post] in [chr]. *)
Definition lex_at (lxr : Lexer) (pre post : string) : Prop :=
  source lxr = pre +:+ post ∧ chrPos lxr = String.length pre ∧
  let '(r, size, err, rest) := ReadRune post in
  lxr = MkLexer (source lxr) rest r (chrPos lxr) (chrPos lxr + size) err.

Lemma NewLexer_at src : lex_at (NewLexer src) "" src.
Proof.
  unfold NewLexer, lex_at. cbn. destruct (ReadRune src) as [[[r size] err] rest]. by cbn.
Qed.

(** The rune that is next: what it consumes, and what is then left. *)
Lemma ReadRune_split post r size err rest :
  ReadRune post = (r, size, err, rest) →
  post = str_take size post +:+ rest ∧ String.length (str_take size post) = size ∧
  (err = true ↔ post = EmptyString) ∧ (post ≠ EmptyString → (1 ≤ size)%nat).
Proof.
  destruct post as [|a s]; [by intros [= <- <- <- <-]|].
  unfold ReadRune. pose proof (DecodeRuneInString_size a s) as Hs.
  destruct (DecodeRuneInString (String a s)) as [r' size']. intros [= <- <- <- <-].
  cbn [snd] in Hs. rw str_take_drop; [|cbn; lia]. rw str_take_length; [|cbn; lia].
  split_and!; try done. intros _. lia.
Qed.

Lemma advance_at lxr pre post :
  lex_at lxr pre post → eof lxr = false →
  ∃ tok rest lxr', Lexer_advance lxr = (None, lxr') ∧ post = tok +:+ rest ∧
    (1 ≤ String.length tok)%nat ∧ reader lxr = rest ∧ lex_at lxr' (pre +:+ tok) rest.
Proof.
  intros (Hsrc & Hpos & Hl) He. destruct (ReadRune post) as [[[r size] err] rest] eqn:Hr.
  apply ReadRune_split in Hr as (Hpost & Hlen & Herr & Hsize).
  rw Hl in He. cbn in He. subst err. assert (post ≠ EmptyString) as Hne by (intros Hp; by apply Herr in Hp).
  exists (str_take size post), rest. unfold Lexer_advance. rw Hl. cbn.
  destruct (ReadRune rest) as [[[r' size'] err'] rest'] eqn:Hr'.
  eexists. split; [done|]. rw Hlen. split; [done|]. split; [by apply Hsize|]. split; [done|].
  unfold lex_at. cbn. rw Hr'. rw Hsrc {1}Hpost str_length_app Hlen Hpos.
  split; [by rw str_app_assoc|done].
Qed.

(** [reads_on pre post n lxr']: having consumed [pre] with [post] ahead, at least [n]
    more bytes were consumed. *)
Definition reads_on (pre post : string) (n : nat) (lxr' : Lexer) : Prop :=
  ∃ tok rest, post = tok +:+ rest ∧ (n ≤ String.length tok)%nat ∧ lex_at lxr' (pre +:+ tok) rest.

Lemma reads_on_more pre tok rest n m lxr' :
  reads_on (pre +:+ tok) rest n lxr' → (m ≤ String.length tok + n)%nat →
  reads_on pre (tok +:+ rest) m lxr'.
Proof.
  intros (t & r & -> & Hn & Hat) Hm. exists (tok +:+ t), r. rw str_app_assoc str_length_app.
  split; [done|]. split; [lia|]. by rw -str_app_assoc.
Qed.

Lemma reads_on_here pre post lxr : lex_at lxr pre post → reads_on pre post 0 lxr.
Proof. intros Hl. exists "", post. by rw str_app_nil. Qed.

Lemma lex_at_eof lxr pre post : lex_at lxr pre post → eof lxr = true ↔ post = EmptyString.
Proof.
  intros (_ & _ & Hl). destruct (ReadRune post) as [[[r size] err] rest] eqn:Hr.
  apply ReadRune_split in Hr as (_ & _ & Herr & _). rw Hl. by cbn.
Qed.

Lemma lex_at_reader lxr pre post :
  lex_at lxr pre post → eof lxr = false → (String.length (reader lxr) < String.length post)%nat.
Proof.
  intros Hl He. destruct (advance_at _ _ _ Hl He) as (tok & rest & l' & _ & -> & Hn & -> & _).
  rw str_length_app. lia.
Qed.

(** The byte at hand, when the rune at hand is ASCII. *)
Lemma lex_at_chr lxr pre post :
  lex_at lxr pre post → eof lxr = false → chr lxr < 128 →
  ∃ c post', post = String c post' ∧ code c = chr lxr.
Proof.
  intros Hl He Hc. destruct post as [|c post'].
  { pose proof (proj2 (lex_at_eof _ _ _ Hl) eq_refl) as Ht. by rw He in Ht. }
  destruct Hl as (_ & _ & Hl). unfold ReadRune in Hl.
  destruct (DecodeRuneInString (String c post')) as [r size] eqn:Hd. rw Hl in Hc. cbn in Hc.
  apply DecodeRuneInString_ascii_inv in Hd as [-> _]; [|done]. exists c, post'. split; [done|].
  by rw Hl.
Qed.

(** What is consumed from [lxr] to [lxr'], as a slice of the source. *)
Lemma lex_at_slice lxr lxr' pre tok rest :
  lex_at lxr pre (tok +:+ rest) → lex_at lxr' (pre +:+ tok) rest →
  slice (source lxr') (chrPos lxr) (chrPos lxr') = tok.
Proof.
  intros (_ & Hp & _) (Hs & Hp' & _). rw Hs Hp Hp' str_app_assoc str_length_app. apply slice_app.
Qed.

(** A number token comes with an int64, the others with a string; the only special
    token that comes with an error is the empty one. *)
Definition value_ok (tok : Token) (val : JPLiteralValue) (err : option jperror) : Prop :=
  match tok with
  | TokenNumber => ∃ n, val = JPInt n ∧ (err = None → 0 ≤ n < 2 ^ 63)
  | TokenSpecial => ∃ s, val = JPStr s ∧ (err ≠ None → s = "")
  | _ => ∃ s, val = JPStr s
  end.

(** The errors that do not stand for the end of the input or a panic. *)
Definition proper_error (err : option jperror) : Prop := err ≠ Some io_EOF ∧ err ≠ Some GoPanic.

(** * Totality and progress *)

Section lexer_facts.
Context (goja_Parse : string → string + list js_statement).
Context (nonascii_Is : UnicodeTable → Z → bool) (nonascii_IsDigit : Z → bool).

Abbreviation Next := (Lexer_Next goja_Parse nonascii_Is nonascii_IsDigit).

(** Advancing, in the form the loops use it. *)
Lemma advance_reads lxr pre post :
  lex_at lxr pre post → eof lxr = false →
  ∃ tok rest lxr', Lexer_advance lxr = (None, lxr') ∧ post = tok +:+ rest ∧
    (1 ≤ String.length tok)%nat ∧ lex_at lxr' (pre +:+ tok) rest ∧
    (eof lxr' = false → (String.length (reader lxr') < String.length (reader lxr))%nat).
Proof.
  intros Hl He. destruct (advance_at _ _ _ Hl He) as (tok & rest & l' & Ha & -> & Hn & Hr & Hl').
  exists tok, rest, l'. split_and!; try done. intros He'. rw Hr. by eapply lex_at_reader.
Qed.

Lemma nextNumber_loop_reads fuel b o x lxr pre post :
  lex_at lxr pre post → eof lxr = false → (S (String.length (reader lxr)) < fuel)%nat →
  ∃ lxr', nextNumber_loop fuel b o x lxr = Some (None, lxr') ∧ reads_on pre post 1 lxr'.
Proof.
  revert b o x lxr pre post.
  induction fuel as [|fuel IH]; intros b o x lxr pre post Hl He Hf; [lia|]. cbn [nextNumber_loop].
  rw He. destruct (advance_reads _ _ _ Hl He) as (tok & rest & l' & -> & -> & Hn & Hl' & Hr).
  assert (∀ b o x, ∃ lxr', nextNumber_loop fuel b o x l' = Some (None, lxr') ∧
    reads_on pre (tok +:+ rest) 1 lxr') as Hgo.
  { intros b' o' x'. destruct (eof l') eqn:He'.
    - destruct fuel as [|fuel]; [lia|]. cbn [nextNumber_loop]. rw He'. exists l'. split; [done|].
      by exists tok, rest.
    - destruct (IH b' o' x' l' (pre +:+ tok) rest Hl' He') as (l'' & Hgo & Hreads).
      { specialize (Hr eq_refl). lia. }
      exists l''. split; [done|]. eapply reads_on_more; [done|lia]. }
  cbv zeta. repeat (case_match; [apply Hgo|]). exists l'. split; [done|]. by exists tok, rest.
Qed.

Lemma nextIdentifierName_loop_reads fuel lxr pre post :
  lex_at lxr pre post → eof lxr = false → (S (String.length (reader lxr)) < fuel)%nat →
  ∃ lxr', nextIdentifierName_loop nonascii_Is nonascii_IsDigit fuel lxr = Some (None, lxr') ∧
    reads_on pre post 1 lxr'.
Proof.
  revert lxr pre post.
  induction fuel as [|fuel IH]; intros lxr pre post Hl He Hf; [lia|]. cbn [nextIdentifierName_loop].
  rw He. destruct (advance_reads _ _ _ Hl He) as (tok & rest & l' & -> & -> & Hn & Hl' & Hr).
  case_match; [exists l'; split; [done|]; by exists tok, rest|]. destruct (eof l') eqn:He'.
  - destruct fuel as [|fuel]; [lia|]. cbn [nextIdentifierName_loop]. rw He'. exists l'.
    split; [done|]. by exists tok, rest.
  - destruct (IH l' (pre +:+ tok) rest Hl' He') as (l'' & Hgo & Hreads).
    { specialize (Hr eq_refl). lia. }
    exists l''. split; [done|]. eapply reads_on_more; [done|lia].
Qed.

Lemma stringValue_ok src val err :
  stringValue goja_Parse src = (val, err) → (∃ s, val = JPStr s) ∧ proper_error err.
Proof.
  unfold stringValue, proper_error. intros Hv. repeat case_match; simplify_eq; eauto.
Qed.

Lemma nextString_loop_reads fuel startPos close lxr pre post :
  lex_at lxr pre post → eof lxr = false → (S (String.length (reader lxr)) < fuel)%nat →
  ∃ s err lxr', nextString_loop goja_Parse fuel startPos close lxr
      = Some ((TokenString, JPStr s, err), lxr') ∧
    reads_on pre post 1 lxr' ∧ proper_error err.
Proof.
  revert lxr pre post.
  induction fuel as [|fuel IH]; intros lxr pre post Hl He Hf; [lia|]. cbn [nextString_loop].
  destruct (advance_reads _ _ _ Hl He) as (tok & rest & l' & -> & -> & Hn & Hl' & Hr).
  destruct (eof l') eqn:He'.
  { eexists _, _, l'. split; [done|]. split; [by exists tok, rest|done]. }
  specialize (Hr eq_refl).
  destruct (advance_reads _ _ _ Hl' He') as (tok2 & rest2 & l2 & Ha & -> & Hn2 & Hl2 & Hr2).
  assert (reads_on pre (tok +:+ tok2 +:+ rest2) 1 l2) as Hreads2.
  { eapply reads_on_more; [by exists tok2, rest2|lia]. }
  destruct (chr l' =? close).
  { rw Ha. cbv zeta. destruct (stringValue goja_Parse _) as [val err] eqn:Hv.
    apply stringValue_ok in Hv as [[s ->] ?]. by eexists _, _, l2. }
  destruct (chr l' =? 92).
  - rw Ha. destruct (eof l2) eqn:He2.
    { eexists _, _, l2. split; [done|]. by split. }
    specialize (Hr2 eq_refl).
    destruct (IH l2 _ _ Hl2 He2) as (val & err & l3 & Hgo & Hreads & ?); [lia|].
    exists val, err, l3. split; [done|]. split; [|done].
    apply (reads_on_more pre tok _ 0); [|lia]. by apply (reads_on_more _ tok2 _ 1); [|lia].
  - destruct (IH l' _ _ Hl' He') as (val & err & l3 & Hgo & Hreads & ?); [lia|].
    exists val, err, l3. split; [done|]. split; [|done]. eapply reads_on_more; [done|lia].
Qed.

Lemma nextNumber_reads lxr pre post :
  lex_at lxr pre post → eof lxr = false → 48 ≤ chr lxr ≤ 57 →
  ∃ n err lxr', Lexer_nextNumber 0 lxr = Some ((TokenNumber, JPInt n, err), lxr') ∧
    reads_on pre post 1 lxr' ∧ proper_error err ∧ (err = None → 0 ≤ n < 2 ^ 63).
Proof.
  intros Hl He Hc. unfold Lexer_nextNumber. cbv zeta.
  destruct (nextNumber_loop_reads (lexer_fuel lxr) ((chr lxr =? 48) && (0 =? 0)%nat) false false
    lxr _ _ Hl He) as (l2 & -> & tok & rest & -> & Hn & Hl2); [unfold lexer_fuel; lia|].
  rw Nat.add_0_r (lex_at_slice _ _ _ _ _ Hl Hl2).
  destruct (lex_at_chr _ _ _ Hl He) as (c & post & Heq & Hcode); [lia|].
  destruct (ParseInt tok) as [n err] eqn:Hp. eexists _, _, l2. split; [done|].
  split; [by exists tok, rest|]. split; [by destruct err|].
  destruct err; [done|]. intros _. destruct tok as [|c' tok]; [cbn in Hn; lia|].
  injection Heq as <- _. eapply ParseInt_digit; [|done]. lia.
Qed.

(** [Next] always returns; before the end of the input it consumes something
    unless it reports an error. *)
Lemma Next_reads lxr pre post :
  lex_at lxr pre post →
  ∃ tok val err lxr', Next lxr = Some ((tok, val, err), lxr') ∧
    reads_on pre post (if eof lxr then 0 else match err with Some _ => 0 | None => 1 end)%nat lxr' ∧
    proper_error err ∧ value_ok tok val err ∧ (eof lxr = true → tok = TokenEOF).
Proof.
  intros Hl. unfold Lexer_Next. destruct (eof lxr) eqn:He.
  { eexists _, _, _, lxr. split; [done|]. split; [by apply reads_on_here|]. split; [done|].
    split; [by eexists|done]. }
  cbv zeta. destruct (advance_reads _ _ _ Hl He) as (tok & rest & l' & Ha & Hpost & Hn & Hl' & Hr).
  assert (reads_on pre post 1 l') as H1 by (by exists tok, rest).
  destruct (is_punctuation (chr lxr)).
  { rw Ha. eexists _, _, _, l'. split; [done|]. split_and!; try done. eexists. by split. }
  destruct (chr lxr =? 46).
  { rw Ha. destruct (chr l' =? 46) eqn:Hc;
      [|eexists _, _, _, l'; split; [done|]; split_and!; try done; eexists; by split].
    destruct (eof l') eqn:He'.
    { (* at the end of the input the next rune is 0 *)
      apply (lex_at_eof _ _ _ Hl') in He'. destruct Hl' as (_ & _ & Hl'). rw He' in Hl'.
      cbn in Hl'. rw Hl' in Hc. done. }
    destruct (advance_reads _ _ _ Hl' He') as (tok2 & rest2 & l2 & -> & -> & Hn2 & Hl2 & _).
    eexists _, _, _, l2. split; [done|]. split_and!; try done; [|by eexists]. subst post.
    eapply reads_on_more; [by exists tok2, rest2|lia]. }
  destruct (_ && _) eqn:Hd.
  { apply andb_true_iff in Hd as [?%Z.leb_le ?%Z.leb_le].
    destruct (nextNumber_reads lxr _ _ Hl He) as (n & err & l2 & -> & (t & r & ? & ? & ?) & ? & ?); [lia|].
    eexists _, _, _, l2. split; [done|]. split_and!; try done; [|by exists n].
    exists t, r. destruct err; split_and!; try done; lia. }
  destruct (_ || _).
  { destruct (nextString_loop_reads (lexer_fuel lxr) (chrPos lxr) (chr lxr) lxr _ _ Hl He)
      as (val & err & l2 & Hgo & (t & r & ? & ? & ?) & ?); [unfold lexer_fuel; lia|].
    unfold Lexer_nextString. rw Hgo.
    eexists _, _, _, l2. split; [done|]. split_and!; try done; [|by eexists].
    exists t, r. destruct err; split_and!; try done; lia. }
  destruct (isIdentifierStart _ _).
  { unfold Lexer_nextIdentifierName. cbv zeta.
    destruct (nextIdentifierName_loop_reads (lexer_fuel lxr) lxr _ _ Hl He) as (l2 & -> & Hreads);
      [unfold lexer_fuel; lia|].
    eexists _, _, _, l2. split; [done|]. split_and!; try done. by eexists. }
  eexists _, _, _, lxr. split; [done|]. split_and!; try done; [by apply reads_on_here|by eexists].
Qed.
End lexer_facts.

(** * ASCII input *)

(** The rune at the start of a string. *)
Definition chr_at (s : string) : Z := (ReadRune s).1.1.1.

Lemma chr_at_cons c s : code c < 128 → chr_at (String c s) = code c.
Proof. intros Hc. unfold chr_at, ReadRune. by rw DecodeRuneInString_ascii. Qed.

Lemma lex_at_chr_at lxr pre post : lex_at lxr pre post → chr lxr = chr_at post.
Proof.
  intros (_ & _ & Hl). unfold chr_at. destruct (ReadRune post) as [[[r size] err] rest]. by rw Hl.
Qed.

Lemma advance_ascii lxr pre c post :
  code c < 128 → lex_at lxr pre (String c post) →
  eof lxr = false ∧ chr lxr = code c ∧ reader lxr = post ∧
  ∃ lxr', Lexer_advance lxr = (None, lxr') ∧ lex_at lxr' (pre +:+ String c "") post.
Proof.
  intros Hc Hl. assert (eof lxr = false) as He.
  { destruct (eof lxr) eqn:He; [|done]. by apply (lex_at_eof _ _ _ Hl) in He. }
  split; [done|]. split; [by rw (lex_at_chr_at _ _ _ Hl) chr_at_cons|].
  destruct (advance_at _ _ _ Hl He) as (tok & rest & l' & Ha & Heq & Hn & Hr & Hl').
  assert (reader lxr = post) as Hrp.
  { destruct Hl as (_ & _ & Hl). unfold ReadRune in Hl. rw DecodeRuneInString_ascii // in Hl.
    by rw Hl. }
  split; [done|]. rw Hrp in Hr. subst rest. exists l'. split; [done|].
  destruct tok as [|c' [|c'' tok]]; [cbn in Hn; lia| |].
  - by injection Heq as <-.
  - exfalso. apply (f_equal String.length) in Heq. rw str_length_app in Heq. cbn in Heq. lia.
Qed.

Section numbers.
Context (goja_Parse : string → string + list js_statement).
Context (nonascii_Is : UnicodeTable → Z → bool) (nonascii_IsDigit : Z → bool).

(** the lexer reads a number with the prefix [0x] or [0o] to its end, and then
    always rejects it: it hands the text, prefix included, to ParseInt with base 10. *)
Theorem hex_and_octal_rejected lxr pre c rest :
  c = "x"%char ∨ c = "o"%char → lex_at lxr pre (String "0" (String c rest)) →
  ∃ lxr', Lexer_Next goja_Parse nonascii_Is nonascii_IsDigit lxr
    = Some ((TokenNumber, JPInt 0, Some (ErrNum NumErrSyntax)), lxr').
Proof.
  intros Hc Hl. assert (code c < 128) as Hc128 by (by destruct Hc as [-> | ->]).
  destruct (advance_ascii _ _ "0"%char _ eq_refl Hl) as (He & Hchr & Hread & l1 & Ha & Hl1).
  destruct (advance_ascii _ _ c _ Hc128 Hl1) as (He1 & Hchr1 & Hread1 & _).
  assert (∃ l2 tok rest', nextNumber_loop (lexer_fuel lxr) true false false lxr = Some (None, l2) ∧
    lex_at l2 (pre +:+ String "0" (String c tok)) rest' ∧ rest = tok +:+ rest')
    as (l2 & tok & rest' & Hgo & Hl2 & Heq).
  { unfold lexer_fuel. cbn [nextNumber_loop]. rw He Ha. cbv zeta. rw Hchr1 Hread.
    assert (∀ o x, ∃ l2, nextNumber_loop (S (String.length (String c rest))) false o x l1
      = Some (None, l2) ∧ reads_on (pre +:+ "0") (String c rest) 1 l2) as Hloop.
    { intros o x. apply nextNumber_loop_reads; [done|done|]. rw Hread1. cbn. lia. }
    assert (∀ l2, reads_on (pre +:+ "0") (String c rest) 1 l2 →
      ∃ tok rest', lex_at l2 (pre +:+ String "0" (String c tok)) rest' ∧ rest = tok +:+ rest') as Hend.
    { intros l2 (t & r & Ht & Hn & Hl2). destruct t as [|c' t]; [cbn in Hn; lia|].
      injection Ht as <- ->. exists t, r. by rw str_app_assoc in Hl2. }
    destruct Hc as [-> | ->].
    - destruct (Hloop false true) as (l2 & Hgo & (t & r & ? & ?)%Hend). by exists l2, t, r.
    - destruct (Hloop true false) as (l2 & Hgo & (t & r & ? & ?)%Hend). by exists l2, t, r. }
  exists l2. unfold Lexer_Next. cbv zeta. rw He Hchr.
  change (is_punctuation (code "0")) with false. change (code "0" =? 46) with false.
  change ((48 <=? code "0") && (code "0" <=? 57)) with true. cbv iota.
  unfold Lexer_nextNumber. cbv zeta. rw Hchr. change ((code "0" =? 48) && (0 =? 0)%nat) with true.
  rw Hgo Nat.add_0_r. rw Heq in Hl.
  rw (lex_at_slice lxr l2 pre (String "0" (String c tok)) rest' Hl Hl2).
  by destruct Hc as [-> | ->].
Qed.
End numbers.
