(* ===== verification/JsonPath.v ===== *)
(** The parser of JSONPath expressions (pkg/jsonpath/parser.go).

    The parser pulls tokens from the lexer of JsonLexer.v, with the same
    parameters.  Its loops are bounded by the length of the source, which
    [ParseString_total] shows to be enough.  [int] is 64 bits wide. *)

From Stdlib Require Import Ascii.
From Stdlib Require String.
From S2P Require Import Prelude GoStrings JsonLexer.

#[local] Open Scope Z_scope.

(** * Types *)

Inductive SelectorType : Set :=
| SelectorName | SelectorRange | SelectorList | SelectorRecurse | SelectorEveryChild.

Record Range : Set := MkRange {
  rgStart : Z;
  rgAfterEnd : option Z;
  rgStride : Z
}.

Inductive Selector : Set :=
  MkSelector (Type' : SelectorType) (Name : string) (Rng : option Range) (List' : list Selector).

Definition selType (s : Selector) : SelectorType := let 'MkSelector t _ _ _ := s in t.
Definition selName (s : Selector) : string := let 'MkSelector _ n _ _ := s in n.
Definition selRange (s : Selector) : option Range := let 'MkSelector _ _ r _ := s in r.
Definition selList (s : Selector) : list Selector := let 'MkSelector _ _ _ l := s in l.

Definition Parsed : Set := list Selector.

#[export] Instance SelectorType_eq_dec : EqDecision SelectorType.
Proof. solve_decision. Defined.
#[export] Instance Range_eq_dec : EqDecision Range.
Proof. solve_decision. Defined.

(** * Equality *)

Definition ptrEqual `{EqDecision T} (left right : option T) : bool :=
  match left, right with
  | None, None => true
  | None, Some _ => false
  | Some _, None => false
  | Some l, Some r => bool_decide (l = r)
  end.

Definition Range_Equals (left right : option Range) : bool :=
  match left, right with
  | None, None => true
  | None, Some _ => false
  | Some _, None => false
  | Some l, Some r =>
      if negb (rgStart l =? rgStart r) || negb (rgStride l =? rgStride r) then false
      else ptrEqual (rgAfterEnd l) (rgAfterEnd r)
  end.

(** [Parsed.Equals], for the given equality of selectors *)
Fixpoint Parsed_Equals_with (eqb : Selector → Selector → bool) (left right : Parsed) : bool :=
  match left, right with
  | [], [] => true
  | l :: ls, r :: rs => if negb (eqb l r) then false else Parsed_Equals_with eqb ls rs
  | _, _ => false
  end.

Fixpoint Selector_Equals (left right : Selector) : bool :=
  match left with
  | MkSelector lt ln lr ll =>
      if negb (bool_decide (lt = selType right)) || negb (bool_decide (ln = selName right)) then false
      else if negb (Range_Equals lr (selRange right)) then false
      else if negb (Parsed_Equals_with Selector_Equals ll (selList right)) then false
      else true
  end.

Definition Parsed_Equals (left right : Parsed) : bool :=
  if negb (length left =? length right)%nat then false
  else Parsed_Equals_with Selector_Equals left right.

(** * Parsing *)

Definition rangeOf1 (index : Z) : Range := MkRange index (Some (wrap_int (index + 1))) 1.

Definition nameSelector (name : string) : Selector := MkSelector SelectorName name None [].
Definition rangeSelector (r : Range) : Selector := MkSelector SelectorRange "" (Some r) [].
Definition listSelector (l : list Selector) : Selector := MkSelector SelectorList "" None l.
Definition everyChild : Selector := MkSelector SelectorEveryChild "" None [].
Definition recurse : Selector := MkSelector SelectorRecurse "" None [].
Definition zeroSelector : Selector := MkSelector SelectorName "" None [].

(** The test [tok == TokenSpecial && val == s] *)
Definition special (tok : Token) (val : JPLiteralValue) (s : string) : bool :=
  bool_decide (tok = TokenSpecial) && bool_decide (val = JPStr s).

Section parser.
Context (goja_Parse : string → string + list js_statement).
Context (nonascii_Is : UnicodeTable → Z → bool) (nonascii_IsDigit : Z → bool).

Abbreviation Next := (Lexer_Next goja_Parse nonascii_Is nonascii_IsDigit).

(** Enough fuel for any loop over the tokens of [lxr]. *)
Definition parser_fuel (lxr : Lexer) : nat := S (S (String.length (source lxr))).

(** The part of [parseRange] after [start:afterEnd], where the token [tok] was read. *)
Definition parseRange_rest (lxr : Lexer) (start : Z) (afterEnd : option Z) (tok : Token)
  (val : JPLiteralValue) : option (Selector * option jperror * Lexer) :=
  let sel := rangeSelector (MkRange start afterEnd 1) in
  if special tok val "]" then Some (sel, None, lxr)
  else if negb (special tok val ":") then
    Some (sel, Some (Errorf "expected colon or close bracket"), lxr)
  else
    '((tok, val, err), lxr) ← Next lxr;
    match err with
    | Some err => Some (sel, Some err, lxr)
    | None =>
        if special tok val "]" then Some (sel, None, lxr)
        else if negb (bool_decide (tok = TokenNumber)) then
          Some (sel, Some (Errorf "expected number"), lxr)
        else
          match val with
          | JPStr _ => Some (sel, Some (Errorf "expected int but got float"), lxr)
          | JPInt stride =>
              let sel := rangeSelector (MkRange start afterEnd stride) in
              '((tok, val, err), lxr) ← Next lxr;
              match err with
              | Some err => Some (sel, Some err, lxr)
              | None =>
                  if negb (special tok val "]") then
                    Some (sel, Some (Errorf "expected close bracket"), lxr)
                  else Some (sel, None, lxr)
              end
          end
    end.

Definition parseRange (lxr : Lexer) (start : Z) : option (Selector * option jperror * Lexer) :=
  let sel := rangeSelector (MkRange start None 1) in
  '((tok, val, err), lxr) ← Next lxr;
  match err with
  | Some err => Some (sel, Some err, lxr)
  | None =>
      if decide (tok = TokenNumber) then
        match val with
        | JPStr _ => Some (sel, Some (Errorf "expected int but got float"), lxr)
        | JPInt afterEnd =>
            let sel := rangeSelector (MkRange start (Some afterEnd) 1) in
            '((tok, val, err), lxr) ← Next lxr;
            match err with
            | Some err => Some (sel, Some err, lxr)
            | None => parseRange_rest lxr start (Some afterEnd) tok val
            end
        end
      else parseRange_rest lxr start None tok val
  end.

(** [subs[0]] if there is one, the list otherwise *)
Definition subscripts (subs : list Selector) : Selector :=
  match subs with
  | [sub] => sub
  | _ => listSelector subs
  end.

Fixpoint parseStringSubscripts_loop (fuel : nat) (lxr : Lexer) (subs : list Selector)
  : option (Selector * option jperror * Lexer) :=
  match fuel with
  | O => None
  | S fuel =>
      '((tok, val, err), lxr) ← Next lxr;
      match err with
      | Some err => Some (zeroSelector, Some err, lxr)
      | None =>
          if special tok val "]" then Some (subscripts subs, None, lxr)
          else if negb (special tok val ",") then
            Some (zeroSelector, Some (Errorf "expected comma or close bracket"), lxr)
          else
            '((tok, val, err), lxr) ← Next lxr;
            match err with
            | Some err => Some (zeroSelector, Some err, lxr)
            | None =>
                if negb (bool_decide (tok = TokenString)) then
                  Some (zeroSelector, Some (Errorf "expected string"), lxr)
                else
                  match val with
                  | JPInt _ => Some (zeroSelector, Some GoPanic, lxr)
                  | JPStr name => parseStringSubscripts_loop fuel lxr (subs ++ [nameSelector name])
                  end
            end
      end
  end.

Definition parseStringSubscripts (lxr : Lexer) (str1 : string)
  : option (Selector * option jperror * Lexer) :=
  parseStringSubscripts_loop (parser_fuel lxr) lxr [nameSelector str1].

(** The loop consumes [,number] until [ ] ], having read the token [tok]. *)
Fixpoint parseNumericSubscripts_loop (fuel : nat) (tok : Token) (val : JPLiteralValue) (lxr : Lexer)
  (subs : list Selector) : option (Selector * option jperror * Lexer) :=
  match fuel with
  | O => None
  | S fuel =>
      if special tok val "]" then Some (subscripts subs, None, lxr)
      else if negb (special tok val ",") then
        Some (zeroSelector, Some (Errorf "expected comma or close bracket"), lxr)
      else
        '((tok, val, err), lxr) ← Next lxr;
        match err with
        | Some err => Some (zeroSelector, Some err, lxr)
        | None =>
            if negb (bool_decide (tok = TokenNumber)) then
              Some (zeroSelector, Some (Errorf "expected number"), lxr)
            else
              match val with
              | JPStr _ => Some (zeroSelector, Some (Errorf "expected int"), lxr)
              | JPInt num =>
                  let subs := subs ++ [rangeSelector (rangeOf1 num)] in
                  '((tok, val, err), lxr) ← Next lxr;
                  match err with
                  | Some err => Some (zeroSelector, Some err, lxr)
                  | None => parseNumericSubscripts_loop fuel tok val lxr subs
                  end
              end
        end
  end.

Definition parseNumericSubscripts (lxr : Lexer) (numVal : JPLiteralValue)
  : option (Selector * option jperror * Lexer) :=
  match numVal with
  | JPStr _ => Some (zeroSelector, Some (Errorf "expected int but got float"), lxr)
  | JPInt num1 =>
      '((tok, val, err), lxr) ← Next lxr;
      match err with
      | Some err => Some (zeroSelector, Some err, lxr)
      | None =>
          if special tok val ":" then parseRange lxr num1
          else parseNumericSubscripts_loop (parser_fuel lxr) tok val lxr
                 [rangeSelector (rangeOf1 num1)]
      end
  end.

(** The body of the loop of [Parse] after a [.]: the selectors so far, and an error
    if it returns. *)
Definition Parse_dot (lxr : Lexer) (parsed : Parsed) : option (Parsed * option jperror * Lexer) :=
  '((tok, val, err), lxr) ← Next lxr;
  match err with
  | Some err => Some (parsed, Some err, lxr)
  | None =>
      if special tok val "*" then Some (parsed ++ [everyChild], None, lxr)
      else if decide (tok = TokenIdentifier) then
        match val with
        | JPStr name => Some (parsed ++ [nameSelector name], None, lxr)
        | JPInt _ => Some (parsed, Some GoPanic, lxr)
        end
      else if decide (tok = TokenNumber) then
        match val with
        | JPInt num1 => Some (parsed ++ [rangeSelector (rangeOf1 num1)], None, lxr)
        | JPStr _ => Some (parsed, Some (Errorf "expected int but got float"), lxr)
        end
      else Some (parsed, Some (Errorf "expected star or identifer"), lxr)
  end.

(** Append the selector that one of the functions above has parsed. *)
Definition append_parsed (parsed : Parsed) (res : option (Selector * option jperror * Lexer))
  : option (Parsed * option jperror * Lexer) :=
  '(sel, err, lxr) ← res;
  match err with
  | Some err => Some (parsed, Some err, lxr)
  | None => Some (parsed ++ [sel], None, lxr)
  end.

(** The same after a [ [ ]. *)
Definition Parse_bracket (lxr : Lexer) (parsed : Parsed) : option (Parsed * option jperror * Lexer) :=
  '((tok, val, err), lxr) ← Next lxr;
  match err with
  | Some err => Some (parsed, Some err, lxr)
  | None =>
      if special tok val "*" then
        let parsed := parsed ++ [everyChild] in
        '((tok, val, err), lxr) ← Next lxr;
        match err with
        | Some err => Some (parsed, Some err, lxr)
        | None =>
            if negb (special tok val "]") then
              Some (parsed, Some (Errorf "expected close bracket"), lxr)
            else Some (parsed, None, lxr)
        end
      else if special tok val ":" then append_parsed parsed (parseRange lxr 0)
      else if decide (tok = TokenNumber) then append_parsed parsed (parseNumericSubscripts lxr val)
      else if decide (tok = TokenString) then
        match val with
        | JPStr name => append_parsed parsed (parseStringSubscripts lxr name)
        | JPInt _ => Some (parsed, Some GoPanic, lxr)
        end
      else Some (parsed, Some (Errorf "expected number or string"), lxr)
  end.

Fixpoint Parse_loop (fuel : nat) (lxr : Lexer) (parsed : Parsed) (nextTakeStar : bool)
  : option (Parsed * option jperror) :=
  match fuel with
  | O => None
  | S fuel =>
      if eof lxr then Some (parsed, None)
      else
        let takeStar := nextTakeStar in
        '((tok, val, err), lxr) ← Next lxr;
        if decide (err = Some io_EOF) then Some (parsed, None)
        else if special tok val "." then
          '(parsed, err, lxr) ← Parse_dot lxr parsed;
          match err with
          | Some err => Some (parsed, Some err)
          | None => Parse_loop fuel lxr parsed false
          end
        else if special tok val "[" then
          '(parsed, err, lxr) ← Parse_bracket lxr parsed;
          match err with
          | Some err => Some (parsed, Some err)
          | None => Parse_loop fuel lxr parsed false
          end
        else if special tok val ".." then Parse_loop fuel lxr (parsed ++ [recurse]) true
        else if takeStar && special tok val "*" then Parse_loop fuel lxr (parsed ++ [everyChild]) false
        else Some (parsed, Some (Errorf "syntax error at position"))
  end.

(** A nil result is [[]]. *)
Definition Parse (lxr : Lexer) : option (Parsed * option jperror) :=
  '((tok, val, err), lxr) ← Next lxr;
  match err with
  | Some err => Some ([], Some err)
  | None =>
      if negb (bool_decide (tok = TokenIdentifier)) || negb (bool_decide (val = JPStr "$")) then
        Some ([], Some (Errorf "did not start with $"))
      else Parse_loop (parser_fuel lxr) lxr [] false
  end.

Definition ParseString (src : string) : option (Parsed * option jperror) := Parse (NewLexer src).
End parser.

(** * Examples: the cases of parser_test.go that do not need goja *)

Definition no_goja : string → string + list js_statement := λ _, inl "not a string literal".
Definition no_table : UnicodeTable → Z → bool := λ _ _, false.
Definition ParseAscii : string → option (Parsed * option jperror) :=
  ParseString no_goja no_table (λ _, false).

Example ParseString_samples :
  ParseAscii "$" = Some ([], None) ∧
  ParseAscii "$.foo" = Some ([nameSelector "foo"], None) ∧
  ParseAscii "$..*" = Some ([recurse; everyChild], None) ∧
  ParseAscii "$.a[2]" = Some ([nameSelector "a"; rangeSelector (MkRange 2 (Some 3) 1)], None) ∧
  ParseAscii "$[1:8:3].b" = Some ([rangeSelector (MkRange 1 (Some 8) 3); nameSelector "b"], None) ∧
  ParseAscii "$[1,4]" = Some ([listSelector [rangeSelector (rangeOf1 1); rangeSelector (rangeOf1 4)]], None) ∧
  ParseAscii "$[::9]" = Some ([rangeSelector (MkRange 0 None 9)], None) ∧
  ParseAscii "$*" = Some ([], Some (Errorf "syntax error at position")).
Proof. vm_compute. done. Qed.

(** * Equality is structural *)

Lemma Range_Equals_spec l r : Range_Equals l r = true ↔ l = r.
Proof.
  destruct l as [[ls le lk]|], r as [[rs re rk]|]; cbn; try done.
  destruct (ls =? rs) eqn:Hs; destruct (lk =? rk) eqn:Hk; cbn; rw ?Z.eqb_eq ?Z.eqb_neq in Hs Hk;
    try naive_solver.
  subst. destruct le, re; cbn; try naive_solver. rw bool_decide_eq_true. naive_solver.
Qed.

Lemma Parsed_Equals_with_spec eqb ls rs :
  (∀ l, l ∈ ls → ∀ r, eqb l r = true ↔ l = r) → Parsed_Equals_with eqb ls rs = true ↔ ls = rs.
Proof.
  revert rs. induction ls as [|l ls IH]; intros [|r rs] Heq; cbn; try done.
  destruct (eqb l r) eqn:He; cbn.
  - apply Heq in He; [|left]. rw IH; [naive_solver|]. intros l' Hl'. apply Heq. by right.
  - split; [done|]. intros [= <- <-]. assert (eqb l l = true) as Ht by (apply Heq; [left|done]).
    by rw Ht in He.
Qed.

(** Induction on selectors, with the hypothesis for the selectors of a list. *)
Lemma Selector_list_ind (P : Selector → Prop) :
  (∀ t n r l, Forall P l → P (MkSelector t n r l)) → ∀ s, P s.
Proof.
  intros Hstep. fix self 1. intros [t n r l]. apply Hstep.
  induction l as [|s l IH]; [by constructor|]. constructor; [apply self|exact IH].
Qed.

Lemma Selector_Equals_spec l r : Selector_Equals l r = true ↔ l = r.
Proof.
  revert r. induction l as [lt ln lr ll IH] using Selector_list_ind. intros [rt rn rr rl].
  pose proof (proj1 (Forall_forall _ _) IH) as IH'. cbn. case_bool_decide; case_bool_decide; cbn; try naive_solver. subst.
  destruct (Range_Equals lr rr) eqn:Hr; cbn.
  - apply Range_Equals_spec in Hr as ->.
    destruct (Parsed_Equals_with Selector_Equals ll rl) eqn:Hl; cbn.
    + apply Parsed_Equals_with_spec in Hl as ->; [done|]. intros l Hin. by apply IH'.
    + split; [done|]. intros [= ->]. by rw (proj2 (Parsed_Equals_with_spec _ rl rl IH')) in Hl.
  - split; [done|]. intros [= -> _]. by rw (proj2 (Range_Equals_spec rr rr)) in Hr.
Qed.

(** [Parsed.Equals] decides equality: two parsed paths are [Equals], by the
    comparison of types, names, ranges behind pointers and nested lists, exactly when
    they are the same path. *)
Theorem Parsed_Equals_spec l r : Parsed_Equals l r = true ↔ l = r.
Proof.
  unfold Parsed_Equals. destruct (length l =? length r)%nat eqn:Hlen; cbn.
  - apply Parsed_Equals_with_spec. intros s _. apply Selector_Equals_spec.
  - split; [done|]. intros ->. by rw Nat.eqb_refl in Hlen.
Qed.

(** * What the parser returns *)

Definition index_ok (n : Z) : Prop := 0 ≤ n < 2 ^ 63.

Definition range_wf (r : Range) : Prop :=
  index_ok (rgStart r) ∧ index_ok (rgStride r) ∧
  ∀ e, rgAfterEnd r = Some e → - 2 ^ 63 ≤ e < 2 ^ 63.

(** The selectors of the grammar at the head of parser.go. *)
Inductive selector_wf : Selector → Prop :=
| wf_name n : selector_wf (nameSelector n)
| wf_range r : range_wf r → selector_wf (rangeSelector r)
| wf_names ns : (2 ≤ length ns)%nat → selector_wf (listSelector (nameSelector <$> ns))
| wf_indexes ixs : (2 ≤ length ixs)%nat → Forall index_ok ixs →
    selector_wf (listSelector ((λ i, rangeSelector (rangeOf1 i)) <$> ixs))
| wf_everyChild : selector_wf everyChild
| wf_recurse : selector_wf recurse.

Lemma wrap_int_range n : - 2 ^ 63 ≤ wrap_int n < 2 ^ 63.
Proof. unfold wrap_int. pose proof (Z.mod_pos_bound (n + 2 ^ 63) (2 ^ 64)). lia. Qed.

Lemma rangeOf1_wf i : index_ok i → range_wf (rangeOf1 i).
Proof.
  intros Hi. split; [done|]. split; [split; cbn; lia|]. intros e [= <-]. apply wrap_int_range.
Qed.

Section parser_facts.
Context (goja_Parse : string → string + list js_statement).
Context (nonascii_Is : UnicodeTable → Z → bool) (nonascii_IsDigit : Z → bool).

(** The outcome of a parsing function called with [pre] consumed and [post] ahead:
    it returns, without a panic, and when it reports no error its result satisfies
    [P] and the lexer stands further on. *)
Definition parses {A : Type} (pre post : string) (P : A → Prop)
  (res : option (A * option jperror * Lexer)) : Prop :=
  ∃ x err lxr', res = Some (x, err, lxr') ∧ proper_error err ∧
    (err = None → P x ∧ reads_on pre post 0 lxr').

Lemma parses_error {A} pre post (P : A → Prop) x e lxr :
  proper_error (Some e) → parses pre post P (Some (x, Some e, lxr)).
Proof. intros He. by exists x, (Some e), lxr. Qed.

Lemma parses_done {A} pre post (P : A → Prop) x lxr :
  P x → reads_on pre post 0 lxr → parses pre post P (Some (x, None, lxr)).
Proof. intros Hx Hr. by exists x, None, lxr. Qed.

Lemma parses_more {A} pre t rest (P : A → Prop) res :
  parses (pre +:+ t) rest P res → parses pre (t +:+ rest) P res.
Proof.
  intros (x & err & l & -> & He & Hx). exists x, err, l. split_and!; [done..|].
  intros Hn. destruct (Hx Hn) as [? Hr]. split; [done|]. eapply reads_on_more; [done|lia].
Qed.

Hint Resolve parses_error : placement.
Hint Extern 1 (proper_error _) => done : placement.
Hint Extern 1 (proper_error _) => by split : placement.

Lemma special_tok tok val s : special tok val s = true → tok = TokenSpecial ∧ val = JPStr s.
Proof. unfold special. by intros [?%bool_decide_eq_true ?%bool_decide_eq_true]%andb_true_iff. Qed.

(** Read a token with [lex_at lxr pre post] known, and dismiss the case of an error. *)
Ltac next_token Hl :=
  let tok := fresh "tok" in let val := fresh "val" in let err := fresh "err" in
  let l := fresh "l" in let t := fresh "t" in let rest := fresh "rest" in
  let Hn := fresh "Hn" in let Hl' := fresh "Hl" in let Herr := fresh "Herr" in
  let Hval := fresh "Hval" in let Heof := fresh "Heof" in
  destruct (Next_reads goja_Parse nonascii_Is nonascii_IsDigit _ _ _ Hl)
    as (tok & val & err & l & -> & (t & rest & -> & Hn & Hl') & Herr & Hval & Heof);
  cbn [mbind option_bind]; destruct err as [err|]; [by auto with placement|].

Lemma reads_on_one {A} pre t rest (P : A → Prop) x lxr :
  P x → lex_at lxr (pre +:+ t) rest → parses pre (t +:+ rest) P (Some (x, None, lxr)).
Proof. intros Hx Hl. apply parses_done; [done|]. exists t, rest. split_and!; [done|lia|done]. Qed.

Lemma parseRange_rest_parses lxr pre post start e tok val :
  lex_at lxr pre post → index_ok start → (∀ z, e = Some z → - 2 ^ 63 ≤ z < 2 ^ 63) →
  parses pre post selector_wf
    (parseRange_rest goja_Parse nonascii_Is nonascii_IsDigit lxr start e tok val).
Proof.
  intros Hl Hs He. unfold parseRange_rest. cbv zeta.
  assert (∀ k, index_ok k → selector_wf (rangeSelector (MkRange start e k))) as Hwf.
  { intros k Hk. by apply wf_range; split_and!. }
  assert (index_ok 1) as H1 by (split; lia).
  destruct (special tok val "]"); [by apply parses_done; [apply Hwf|apply reads_on_here]|].
  destruct (special tok val ":"); cbn [negb]; [|by auto with placement].
  next_token Hl. destruct (special tok0 val0 "]"); [apply reads_on_one; [by apply Hwf|done]|].
  case_bool_decide as Ht; cbn [negb]; [|by auto with placement]. subst tok0.
  destruct Hval as (k & -> & Hk). cbv zeta. apply parses_more. next_token Hl0.
  destruct (special tok0 val0 "]"); cbn [negb]; [|by auto with placement].
  apply reads_on_one; [by apply Hwf, Hk|done].
Qed.

Lemma parseRange_parses lxr pre post start :
  lex_at lxr pre post → index_ok start →
  parses pre post selector_wf (parseRange goja_Parse nonascii_Is nonascii_IsDigit lxr start).
Proof.
  intros Hl Hs. unfold parseRange. cbv zeta. next_token Hl.
  destruct (decide (tok = TokenNumber)) as [->|Hne].
  - destruct Hval as (n & -> & Hb). apply parses_more. next_token Hl0.
    apply parses_more, parseRange_rest_parses; [done..|].
    intros z [= <-]. specialize (Hb eq_refl). lia.
  - by apply parses_more, parseRange_rest_parses.
Qed.

(** The selector made of the subscripts that were read. *)
Lemma subscripts_names ns : ns ≠ [] → selector_wf (subscripts (nameSelector <$> ns)).
Proof.
  destruct ns as [|n [|n' ns]]; [done|intros _; apply wf_name|intros _].
  apply (wf_names (n :: n' :: ns)). cbn. lia.
Qed.

Lemma subscripts_indexes ixs :
  ixs ≠ [] → Forall index_ok ixs →
  selector_wf (subscripts ((λ i, rangeSelector (rangeOf1 i)) <$> ixs)).
Proof.
  destruct ixs as [|i [|i' ixs]]; [done|..]; intros _ Hi.
  - apply wf_range, rangeOf1_wf. by inversion Hi.
  - apply (wf_indexes (i :: i' :: ixs)); [cbn; lia|done].
Qed.

Lemma parseStringSubscripts_loop_parses fuel lxr pre post ns :
  lex_at lxr pre post → (String.length post < fuel)%nat → ns ≠ [] →
  parses pre post selector_wf
    (parseStringSubscripts_loop goja_Parse nonascii_Is nonascii_IsDigit fuel lxr
       (nameSelector <$> ns)).
Proof.
  revert lxr pre post ns.
  induction fuel as [|fuel IH]; intros lxr pre post ns Hl Hf Hns; [lia|].
  cbn [parseStringSubscripts_loop]. next_token Hl.
  destruct (special tok val "]"); [apply reads_on_one; [by apply subscripts_names|done]|].
  destruct (special tok val ",") eqn:Hs; cbn [negb]; [|by auto with placement].
  apply special_tok in Hs as [-> ->]. destruct (eof lxr); [by specialize (Heof eq_refl)|].
  apply parses_more. next_token Hl0. case_bool_decide as Ht; cbn [negb]; [|by auto with placement].
  subst tok. destruct Hval0 as [s ->].
  change [nameSelector s] with (nameSelector <$> [s]). rw -fmap_app.
  apply parses_more, IH; [done| |by destruct ns]. rw !str_length_app in Hf. lia.
Qed.

Lemma parseNumericSubscripts_loop_parses fuel tok val lxr pre post ixs :
  lex_at lxr pre post → (String.length post < fuel)%nat → ixs ≠ [] → Forall index_ok ixs →
  parses pre post selector_wf
    (parseNumericSubscripts_loop goja_Parse nonascii_Is nonascii_IsDigit fuel tok val lxr
       ((λ i, rangeSelector (rangeOf1 i)) <$> ixs)).
Proof.
  revert tok val lxr pre post ixs.
  induction fuel as [|fuel IH]; intros tok val lxr pre post ixs Hl Hf Hns Hixs; [lia|].
  cbn [parseNumericSubscripts_loop].
  destruct (special tok val "]").
  { apply parses_done; [by apply subscripts_indexes|by apply reads_on_here]. }
  destruct (special tok val ","); cbn [negb]; [|by auto with placement].
  next_token Hl. case_bool_decide as Ht; cbn [negb]; [|by auto with placement].
  subst tok0. destruct Hval as (n & -> & Hb).
  destruct (eof lxr); [by specialize (Heof eq_refl)|]. cbv zeta.
  apply parses_more. next_token Hl0.
  change [rangeSelector (rangeOf1 n)] with ((λ i, rangeSelector (rangeOf1 i)) <$> [n]). rw -fmap_app.
  apply parses_more, IH; [done| |by destruct ixs|].
  - rw !str_length_app in Hf. lia.
  - apply Forall_app. split; [done|]. apply Forall_singleton. by apply Hb.
Qed.

(** What is ahead is part of the source. *)
Lemma parser_fuel_enough lxr pre post :
  lex_at lxr pre post → (String.length post < parser_fuel lxr)%nat.
Proof. intros (Hs & _). unfold parser_fuel. rw Hs str_length_app. lia. Qed.

Lemma parseNumericSubscripts_parses lxr pre post n :
  lex_at lxr pre post → index_ok n →
  parses pre post selector_wf
    (parseNumericSubscripts goja_Parse nonascii_Is nonascii_IsDigit lxr (JPInt n)).
Proof.
  intros Hl Hn. unfold parseNumericSubscripts. next_token Hl.
  destruct (special tok val ":"); [by apply parses_more, parseRange_parses|].
  apply parses_more, (parseNumericSubscripts_loop_parses _ _ _ _ _ _ [n]);
    [done|by eapply parser_fuel_enough|done|by apply Forall_singleton].
Qed.

Abbreviation all_wf := (Forall selector_wf).

Lemma all_wf_snoc parsed sel : all_wf parsed → selector_wf sel → all_wf (parsed ++ [sel]).
Proof. intros. apply Forall_app. split; [done|]. by apply Forall_singleton. Qed.

Lemma append_parsed_parses pre post parsed res :
  all_wf parsed → parses pre post selector_wf res → parses pre post all_wf (append_parsed parsed res).
Proof.
  intros Hp (sel & err & l & -> & Herr & Hsel). cbn. destruct err as [e|]; [by apply parses_error|].
  destruct (Hsel eq_refl). apply parses_done; [by apply all_wf_snoc|done].
Qed.

Lemma Parse_dot_parses lxr pre post parsed :
  lex_at lxr pre post → all_wf parsed →
  parses pre post all_wf (Parse_dot goja_Parse nonascii_Is nonascii_IsDigit lxr parsed).
Proof.
  intros Hl Hp. unfold Parse_dot. next_token Hl.
  destruct (special tok val "*"); [apply reads_on_one; [apply all_wf_snoc, wf_everyChild; done|done]|].
  destruct (decide (tok = TokenIdentifier)) as [->|].
  { destruct Hval as [s ->]. apply reads_on_one; [apply all_wf_snoc, wf_name; done|done]. }
  destruct (decide (tok = TokenNumber)) as [->|]; [|by auto with placement].
  destruct Hval as (num & -> & Hb). apply reads_on_one; [|done].
  apply all_wf_snoc; [done|]. by apply wf_range, rangeOf1_wf, Hb.
Qed.

Lemma Parse_bracket_parses lxr pre post parsed :
  lex_at lxr pre post → all_wf parsed →
  parses pre post all_wf (Parse_bracket goja_Parse nonascii_Is nonascii_IsDigit lxr parsed).
Proof.
  intros Hl Hp. unfold Parse_bracket. next_token Hl.
  destruct (special tok val "*").
  { cbv zeta. apply parses_more. next_token Hl0.
    destruct (special tok0 val0 "]"); cbn [negb]; [|by auto with placement].
    apply reads_on_one; [apply all_wf_snoc, wf_everyChild; done|done]. }
  destruct (special tok val ":").
  { apply parses_more, append_parsed_parses, parseRange_parses; [done..|split; lia]. }
  destruct (decide (tok = TokenNumber)) as [->|].
  { destruct Hval as (num & -> & Hb).
    by apply parses_more, append_parsed_parses, parseNumericSubscripts_parses; [..|apply Hb]. }
  destruct (decide (tok = TokenString)) as [->|]; [|by auto with placement].
  destruct Hval as [s ->]. apply parses_more, append_parsed_parses; [done|].
  apply (parseStringSubscripts_loop_parses _ _ _ _ [s]); [done|by eapply parser_fuel_enough|done].
Qed.

Lemma Parse_loop_returns fuel lxr pre post parsed star :
  lex_at lxr pre post → (String.length post < fuel)%nat → all_wf parsed →
  ∃ parsed' err, Parse_loop goja_Parse nonascii_Is nonascii_IsDigit fuel lxr parsed star
      = Some (parsed', err) ∧ proper_error err ∧ (err = None → all_wf parsed').
Proof.
  revert lxr pre post parsed star.
  induction fuel as [|fuel IH]; intros lxr pre post parsed star Hl Hf Hp; [lia|].
  cbn [Parse_loop]. destruct (eof lxr) eqn:He; [by exists parsed, None|]. cbv zeta.
  destruct (Next_reads goja_Parse nonascii_Is nonascii_IsDigit _ _ _ Hl)
    as (tok & val & err & l & -> & (t & rest & -> & Hn & Hl') & Herr & Hval & Heof).
  cbn [mbind option_bind]. rw He in Hn. rw str_length_app in Hf.
  destruct (decide (err = Some io_EOF)) as [->|_]; [by destruct Herr|].
  assert (∀ s, special tok val s = true → s ≠ "" → String.length rest < fuel)%nat as Hshort.
  { intros s [-> ->]%special_tok Hs. destruct Hval as (s' & [= <-] & Hv).
    destruct err; [by destruct Hs; apply Hv|]. lia. }
  assert (∀ res, parses (pre +:+ t) rest all_wf res → (String.length rest < fuel)%nat →
    ∃ parsed' err, (
      '(parsed, err, lxr) ← res;
      match err with
      | Some err => Some (parsed, Some err)
      | None => Parse_loop goja_Parse nonascii_Is nonascii_IsDigit fuel lxr parsed false
      end) = Some (parsed', err) ∧ proper_error err ∧ (err = None → all_wf parsed')) as Hgo.
  { intros res (p & e & l2 & -> & Hpe & Hok) Hlt. cbn. destruct e as [e|]; [by exists p, (Some e)|].
    destruct (Hok eq_refl) as [Hwf (t2 & r2 & -> & _ & Hl2)]. eapply IH; [done| |done].
    rw str_length_app in Hlt. lia. }
  destruct (special tok val ".") eqn:H1; [by apply Hgo; [apply Parse_dot_parses|eapply Hshort]|].
  destruct (special tok val "[") eqn:H2; [by apply Hgo; [apply Parse_bracket_parses|eapply Hshort]|].
  destruct (special tok val "..") eqn:H3.
  { eapply IH; [done|by eapply Hshort|]. apply all_wf_snoc, wf_recurse. done. }
  destruct (star && special tok val "*") eqn:H4.
  { apply andb_true_iff in H4 as [_ H4]. eapply IH; [done|by eapply Hshort|].
    apply all_wf_snoc, wf_everyChild. done. }
  eexists _, _. split; [done|]. by split.
Qed.

Lemma ParseString_returns src :
  ∃ parsed err, ParseString goja_Parse nonascii_Is nonascii_IsDigit src = Some (parsed, err) ∧
    proper_error err ∧ (err = None → all_wf parsed).
Proof.
  unfold ParseString, Parse. pose proof (NewLexer_at src) as Hl.
  destruct (Next_reads goja_Parse nonascii_Is nonascii_IsDigit _ _ _ Hl)
    as (tok & val & err & l & -> & (t & rest & -> & Hn & Hl') & Herr & Hval & Heof).
  cbn [mbind option_bind]. destruct err as [e|].
  { exists [], (Some e). by split. }
  destruct (_ || _); [eexists _, _; split; [done|]; by split|].
  apply (Parse_loop_returns (parser_fuel l) l _ _ [] false Hl'); [by eapply parser_fuel_enough|done].
Qed.

(** C33: parsing terminates and is safe: on every source string, whatever goja and the
    Unicode tables, [ParseString] returns, no type assertion panics, and a result
    without error consists of selectors of the grammar: ranges with non-negative
    start and stride, and lists of at least two names or of at least two indexes. *)
Theorem ParseString_total src :
  ∃ parsed err, ParseString goja_Parse nonascii_Is nonascii_IsDigit src = Some (parsed, err) ∧
    err ≠ Some GoPanic ∧ (err = None → Forall selector_wf parsed).
Proof.
  destruct (ParseString_returns src) as (parsed & err & Hp & [_ Herr] & Hwf). by exists parsed, err.
Qed.
End parser_facts.
