(* ===== verification/JsonPrint.v ===== *)
(** Printing parsed JSONPath expressions, and the round trip through the parser of
    JsonPath.v.  The source has no printer; this one writes each selector in the
    syntax of the grammar at the head of parser.go. *)

From Stdlib Require Import Ascii.
From Stdlib Require String.
From S2P Require Import Prelude GoStrings JsonLexer JsonPath.

#[local] Open Scope Z_scope.

(** * The printer *)

Fixpoint digits_loop (fuel : nat) (n : Z) (acc : string) : string :=
  let acc := String (byte (48 + n mod 10)) acc in
  match fuel with
  | O => acc
  | S fuel => if n <? 10 then acc else digits_loop fuel (n / 10) acc
  end.

(** Twenty digits are enough for 64 bits. *)
Definition print_int (n : Z) : string := digits_loop 20 n "".

Definition ascii_letter (c : ascii) : bool := in_range 65 90 (code c) || in_range 97 122 (code c).
Definition ascii_digit (c : ascii) : bool := in_range 48 57 (code c).
Definition ident_start (c : ascii) : bool := (code c =? 36) || (code c =? 95) || ascii_letter c.
Definition ident_part (c : ascii) : bool := ident_start c || ascii_digit c.

Fixpoint all_chars (p : ascii → bool) (s : string) : bool :=
  match s with
  | EmptyString => true
  | String c s => p c && all_chars p s
  end.

Definition is_identifier (s : string) : bool :=
  match s with
  | EmptyString => false
  | String c s => ident_start c && all_chars ident_part s
  end.

(** A printable ASCII character other than the quotes and the backslash. *)
Definition plain_char (c : ascii) : bool :=
  in_range 32 126 (code c) && negb (code c =? 34) && negb (code c =? 39) && negb (code c =? 92).
Definition plain (s : string) : bool := all_chars plain_char s.

Definition quote (s : string) : string := "'" +:+ s +:+ "'".

Fixpoint separated (items : list string) : string :=
  match items with
  | [] => ""
  | [item] => item
  | item :: items => item +:+ "," +:+ separated items
  end.

Definition print_range (r : Range) : string :=
  "[" +:+ print_int (rgStart r) +:+ ":" +:+ from_option print_int "" (rgAfterEnd r) +:+ ":"
  +:+ print_int (rgStride r) +:+ "]".

Definition print_subscript (s : Selector) : string :=
  match selRange s with
  | Some r => print_int (rgStart r)
  | None => quote (selName s)
  end.

Definition print_selector (s : Selector) : string :=
  match selType s with
  | SelectorName =>
      if is_identifier (selName s) then "." +:+ selName s else "[" +:+ quote (selName s) +:+ "]"
  | SelectorRange => from_option print_range "" (selRange s)
  | SelectorList => "[" +:+ separated (print_subscript <$> selList s) +:+ "]"
  | SelectorRecurse => ".."
  | SelectorEveryChild => ".*"
  end.

Fixpoint print_selectors (path : Parsed) : string :=
  match path with
  | [] => ""
  | s :: path => print_selector s +:+ print_selectors path
  end.

Definition print_path (path : Parsed) : string := "$" +:+ print_selectors path.

(** What the printer can print: the well-formed selectors whose names are plain. *)
Inductive printable : Selector → Prop :=
| printable_name n : plain n = true → printable (nameSelector n)
| printable_range s e k : index_ok s → (∀ z, e = Some z → index_ok z) → index_ok k →
    printable (rangeSelector (MkRange s e k))
| printable_names ns : (2 ≤ length ns)%nat → Forall (λ n, plain n = true) ns →
    printable (listSelector (nameSelector <$> ns))
| printable_indexes ixs : (2 ≤ length ixs)%nat → Forall index_ok ixs →
    printable (listSelector ((λ i, rangeSelector (rangeOf1 i)) <$> ixs))
| printable_everyChild : printable everyChild
| printable_recurse : printable recurse.

Example print_path_sample :
  print_path [nameSelector "spec"; recurse; nameSelector "a-b"; rangeSelector (MkRange 1 (Some 10) 2);
              listSelector [nameSelector "x"; nameSelector "y z"]; everyChild]
  = "$.spec..['a-b'][1:10:2]['x','y z'].*".
Proof. vm_compute. done. Qed.

(** * Decimal numbers *)

Definition is_digits (s : string) : Prop := all_chars ascii_digit s = true.

Lemma all_chars_app p s t : all_chars p (s +:+ t) = all_chars p s && all_chars p t.
Proof.
  induction s as [|c s IH]; [done|]. change (p c && all_chars p (s +:+ t) = p c && all_chars p s && all_chars p t).
  by rw IH andb_assoc.
Qed.

(** One digit of ParseUint. *)
Lemma ParseUint_digit c s m d :
  code c = 48 + d → 0 ≤ d < 10 → 0 ≤ m → m * 10 + d ≤ maxUint64 →
  ParseUint_loop (String c s) m = ParseUint_loop s (m * 10 + d).
Proof.
  intros Hc Hd Hm Hmax. cbn [ParseUint_loop]. unfold maxUint64 in *. rw Hc.
  rw (proj2 (in_range_spec 48 57 (48 + d))); [|lia].
  replace (48 + d - 48) with d by lia.
  rw (proj2 (Z.leb_gt _ _)); [|change ((2 ^ 64 - 1) / 10) with 1844674407370955161; lia].
  rw (proj2 (Z.ltb_ge _ _)); [done|lia].
Qed.

(** The digits in front of [acc], and the value that ParseUint gives them. *)
Lemma digits_loop_spec fuel n acc :
  0 ≤ n < 10 ^ (Z.of_nat fuel + 1) →
  ∃ c ds, digits_loop fuel n acc = String c ds +:+ acc ∧ is_digits (String c ds) ∧
    (code c = 48 → n = 0 ∧ ds = "") ∧
    ∀ m s, 0 ≤ m → m * 10 ^ Z.of_nat (S (String.length ds)) + n ≤ maxUint64 →
      ParseUint_loop (String c ds +:+ s) m
      = ParseUint_loop s (m * 10 ^ Z.of_nat (S (String.length ds)) + n).
Proof.
  revert n acc. induction fuel as [|fuel IH]; intros n acc Hn.
  all: assert (0 ≤ n mod 10 < 10) as Hmod by (apply Z.mod_pos_bound; lia).
  all: assert (code (byte (48 + n mod 10)) = 48 + n mod 10) as Hcode by (apply code_byte; lia).
  all: assert (ascii_digit (byte (48 + n mod 10)) = true) as Hdig
    by (unfold ascii_digit; rw Hcode; apply in_range_spec; lia).
  all: assert (n < 10 → ∃ c ds, String (byte (48 + n mod 10)) acc = String c ds +:+ acc ∧
    is_digits (String c ds) ∧ (code c = 48 → n = 0 ∧ ds = "") ∧
    ∀ m s, 0 ≤ m → m * 10 ^ Z.of_nat (S (String.length ds)) + n ≤ maxUint64 →
      ParseUint_loop (String c ds +:+ s) m
      = ParseUint_loop s (m * 10 ^ Z.of_nat (S (String.length ds)) + n)) as Hone.
  1, 3: (intros Hlt; rw Z.mod_small in Hcode Hdig |- *; [|lia];
    exists (byte (48 + n)), ""; split; [done|]; split; [by rw /is_digits /= Hdig|];
    split; [intros; split; [lia|done]|]; intros m s Hm Hmax; cbn [String.length] in *;
    change (10 ^ Z.of_nat 1) with 10 in *; by apply ParseUint_digit; [|lia..]).
  - apply Hone. cbn in Hn. lia.
  - cbn [digits_loop]. cbv zeta. destruct (n <? 10) eqn:Hlt; [apply Hone; by apply Z.ltb_lt|].
    apply Z.ltb_ge in Hlt. pose proof (Z.div_mod n 10 ltac:(lia)) as Hdm.
    destruct (IH (n / 10) (String (byte (48 + n mod 10)) acc)) as (c & ds & Heq & Hds & Hz & Hval).
    { replace (Z.of_nat (S fuel) + 1) with (Z.succ (Z.of_nat fuel + 1)) in Hn by lia.
      rw Z.pow_succ_r in Hn; [|lia]. lia. }
    exists c, (ds +:+ String (byte (48 + n mod 10)) ""). split; [|split; [|split]].
    + rw Heq. exact (f_equal (String c)
        (eq_sym (str_app_assoc ds (String (byte (48 + n mod 10)) "") acc))).
    + unfold is_digits in *. cbn [all_chars] in *. rw all_chars_app. cbn.
      rw Hdig. apply andb_true_iff in Hds as [-> ->]. done.
    + intros Hc. apply Hz in Hc as [Hc _]. lia.
    + intros m s Hm Hmax. rw str_length_app. cbn [String.length].
      rw str_length_app in Hmax. cbn [String.length] in Hmax.
      set (k := Z.of_nat (S (String.length ds))) in *.
      assert (10 ^ Z.of_nat (S (String.length ds + 1)) = 10 * 10 ^ k) as Hpow.
      { rw -Z.pow_succ_r; [|lia]. f_equal. lia. }
      rw Hpow in Hmax |- *.
      rw str_cons_app str_app_assoc str_cons_app -str_cons_app.
      assert (0 ≤ m * 10 ^ k) by (apply Z.mul_nonneg_nonneg; lia).
      rw Hval; [|done|lia].
      rw (ParseUint_digit _ _ _ (n mod 10)); [f_equal; lia|done|done|lia|lia].
Qed.

Lemma print_int_spec n :
  index_ok n →
  ∃ c ds, print_int n = String c ds ∧ is_digits (String c ds) ∧ (code c = 48 → ds = "") ∧
    ParseInt (String c ds) = (n, None).
Proof.
  intros [Hn0 Hn]. destruct (digits_loop_spec 20 n "") as (c & ds & Heq & Hds & Hz & Hval).
  { change (10 ^ (Z.of_nat 20 + 1)) with 1000000000000000000000. lia. }
  rw str_app_nil in Heq. exists c, ds. split; [done|]. split; [done|]. split; [by intros Hc; apply Hz|].
  assert (48 ≤ code c ≤ 57) as Hc.
  { apply in_range_spec. unfold is_digits in Hds. cbn in Hds. by apply andb_true_iff in Hds as [? _]. }
  specialize (Hval 0 ""). rw str_app_nil in Hval.
  unfold ParseInt. rw !(proj2 (Z.eqb_neq _ _)); [|lia..].
  unfold ParseUint. rw Hval; [|lia|unfold maxUint64; lia]. cbn [ParseUint_loop negb andb].
  rw (proj2 (Z.leb_gt _ _)); [|lia]. f_equal; lia.
Qed.

(** * Lexing what was printed *)

Lemma EncodeRune_ascii c : code c < 128 → EncodeRune (code c) = String c "".
Proof.
  intros Hc. pose proof (code_range c). unfold EncodeRune.
  rw (proj2 (in_range_spec 0 0xD7FF (code c))); [|lia]. cbn [orb].
  rw (proj2 (Z.leb_le _ _)); [|lia]. by rw byte_code.
Qed.

Section printed_tokens.
Context (goja_Parse : string → string + list js_statement).
Context (nonascii_Is : UnicodeTable → Z → bool) (nonascii_IsDigit : Z → bool).

Abbreviation Next := (Lexer_Next goja_Parse nonascii_Is nonascii_IsDigit).

(** [lxr], with [pre] consumed, reads the token with the given value off [s] and then
    has [rest] ahead. *)
Definition lexes (lxr : Lexer) (pre s rest : string) (tok : Token) (val : JPLiteralValue) : Prop :=
  ∃ lxr', Next lxr = Some ((tok, val, None), lxr') ∧ lex_at lxr' (pre +:+ s) rest.

Lemma lexes_punctuation lxr pre c rest :
  is_punctuation (code c) = true → lex_at lxr pre (String c rest) →
  lexes lxr pre (String c "") rest TokenSpecial (JPStr (String c "")).
Proof.
  intros Hp Hl. assert (code c < 128) as Hc.
  { unfold is_punctuation in Hp. rw !orb_true_iff !Z.eqb_eq in Hp. lia. }
  destruct (advance_ascii _ _ _ _ Hc Hl) as (He & Hchr & _ & l' & Ha & Hl').
  exists l'. split; [|done]. unfold Lexer_Next. cbv zeta. rw He Hchr Hp Ha. by rw EncodeRune_ascii.
Qed.

Lemma lexes_dot lxr pre rest :
  lex_at lxr pre (String "." rest) → chr_at rest ≠ 46 →
  lexes lxr pre "." rest TokenSpecial (JPStr ".").
Proof.
  intros Hl Hr. destruct (advance_ascii _ _ "."%char _ eq_refl Hl) as (He & Hchr & _ & l' & Ha & Hl').
  exists l'. split; [|done]. unfold Lexer_Next. cbv zeta. rw He Hchr. cbn [is_punctuation].
  change (is_punctuation (code ".")) with false. cbn [Z.eqb]. change (code "." =? 46) with true. cbv iota.
  rw Ha (lex_at_chr_at _ _ _ Hl'). by rw (proj2 (Z.eqb_neq _ _) Hr).
Qed.

Lemma lexes_dotdot lxr pre rest :
  lex_at lxr pre (String "." (String "." rest)) → lexes lxr pre ".." rest TokenSpecial (JPStr "..").
Proof.
  intros Hl. destruct (advance_ascii _ _ "."%char _ eq_refl Hl) as (He & Hchr & _ & l' & Ha & Hl').
  destruct (advance_ascii _ _ "."%char _ eq_refl Hl') as (_ & Hchr' & _ & l2 & Ha2 & Hl2).
  rw str_app_assoc in Hl2. exists l2. split; [|done]. unfold Lexer_Next. cbv zeta. rw He Hchr.
  change (is_punctuation (code ".")) with false. change (code "." =? 46) with true. cbv iota.
  rw Ha Hchr'. change (code "." =? 46) with true. cbv iota. by rw Ha2.
Qed.

(** ** Numbers *)

Lemma digits_step c ds rest fuel b lxr pre :
  is_digits (String c ds) → (b = true → ds = "") → is_punctuation (chr_at rest) = true →
  lex_at lxr pre (String c (ds +:+ rest)) → (S (String.length (reader lxr)) < fuel)%nat →
  ∃ lxr', nextNumber_loop fuel b false false lxr = Some (None, lxr') ∧
    lex_at lxr' (pre +:+ String c ds) rest.
Proof.
  revert c b lxr pre fuel. induction ds as [|c' ds IH]; intros c b lxr pre fuel Hd Hb Hr Hl Hf.
  all: unfold is_digits in Hd; cbn [all_chars] in Hd; apply andb_true_iff in Hd as [Hc Hds].
  all: apply in_range_spec in Hc as Hc'; destruct fuel as [|fuel]; [lia|]; cbn [nextNumber_loop].
  all: destruct (advance_ascii _ _ c _ ltac:(lia) Hl) as (-> & Hchr & Hread & l' & -> & Hl'); cbv zeta.
  - change ("" +:+ rest) with rest in Hl'. exists l'. split; [|done]. rw (lex_at_chr_at _ _ _ Hl').
    unfold is_punctuation in Hr. rw !orb_true_iff !Z.eqb_eq in Hr.
    destruct Hr as [[[[-> | ->] | ->] | ->] | ->]; by destruct b.
  - assert (b = false) as -> by (by destruct b; [specialize (Hb eq_refl)|]).
    apply andb_true_iff in Hds as [Hc1 Hds]. apply in_range_spec in Hc1 as Hc1'.
    change (lex_at l' (pre +:+ String c "") (String c' (ds +:+ rest))) in Hl'.
    destruct (advance_ascii _ _ c' _ ltac:(lia) Hl') as (He' & Hchr' & Hread' & _).
    destruct (IH c' false l' (pre +:+ String c "") fuel) as (l2 & Hgo & Hl2); [|done|done|done|..].
    { unfold is_digits. cbn. by rw Hc1 Hds. }
    { rw Hread'. rw Hread in Hf. rw !str_length_app in Hf |- *. cbn in Hf. lia. }
    exists l2. rw str_app_assoc in Hl2. split; [|done]. cbn [andb]. rw Hchr'.
    destruct ((48 <=? code c') && (code c' <? 56)) eqn:H8; [done|]. cbn [negb andb].
    replace ((code c' =? 56) || (code c' =? 57)) with true; [done|]. symmetry.
    apply orb_true_iff. rw !Z.eqb_eq. apply andb_false_iff in H8 as [?%Z.leb_gt|?%Z.ltb_ge]; lia.
Qed.

Lemma lexes_number lxr pre n rest :
  index_ok n → is_punctuation (chr_at rest) = true → lex_at lxr pre (print_int n +:+ rest) →
  lexes lxr pre (print_int n) rest TokenNumber (JPInt n).
Proof.
  intros Hn Hr. destruct (print_int_spec n Hn) as (c & ds & -> & Hds & Hz & Hp). intros Hl.
  rw str_cons_app in Hl. assert (48 ≤ code c ≤ 57) as Hc.
  { apply in_range_spec. unfold is_digits in Hds. cbn in Hds. by apply andb_true_iff in Hds as [? _]. }
  destruct (advance_ascii _ _ c _ ltac:(lia) Hl) as (He & Hchr & _).
  destruct (digits_step c ds rest (lexer_fuel lxr) ((chr lxr =? 48) && (0 =? 0)%nat) lxr pre)
    as (l' & Hgo & Hl'); [done| |done|done|unfold lexer_fuel; lia|].
  { intros [H48%Z.eqb_eq _]%andb_true_iff. apply Hz. lia. }
  exists l'. split; [|done]. unfold Lexer_Next. cbv zeta. rw He Hchr.
  replace (is_punctuation (code c)) with false.
  2: { symmetry. unfold is_punctuation. rw !orb_false_iff !Z.eqb_neq. lia. }
  rw (proj2 (Z.eqb_neq (code c) 46)); [|lia]. rw (proj2 (Z.leb_le 48 (code c))); [|lia].
  rw (proj2 (Z.leb_le (code c) 57)); [|lia]. cbn [andb]. unfold Lexer_nextNumber. cbv zeta.
  rw Hgo Nat.add_0_r. rw -str_cons_app in Hl. by rw (lex_at_slice _ _ _ _ _ Hl Hl') Hp.
Qed.

(** ** Identifiers *)

Lemma isIdentifierStart_ascii c : code c < 128 → isIdentifierStart nonascii_Is (code c) = ident_start c.
Proof. destruct c as [[] [] [] [] [] [] [] []]; intros Hc; solve [reflexivity|discriminate Hc]. Qed.

Lemma isIdentifierPart_ascii c :
  code c < 128 → isIdentifierPart nonascii_Is nonascii_IsDigit (code c) = ident_part c.
Proof. destruct c as [[] [] [] [] [] [] [] []]; intros Hc; solve [reflexivity|discriminate Hc]. Qed.

Lemma ident_part_code c : ident_part c = true → code c < 128.
Proof. destruct c as [[] [] [] [] [] [] [] []]; intros Hc; solve [reflexivity|discriminate Hc]. Qed.

Lemma ident_start_part c : ident_start c = true → ident_part c = true.
Proof. unfold ident_part. by intros ->. Qed.

(** The start of an identifier is none of the other starts of a token. *)
Lemma ident_start_other c :
  ident_start c = true →
  is_punctuation (code c) = false ∧ (code c =? 46) = false ∧ ((48 <=? code c) && (code c <=? 57)) = false ∧
  ((code c =? 34) || (code c =? 39)) = false.
Proof. destruct c as [[] [] [] [] [] [] [] []]; intros Hc; solve [by vm_compute|discriminate Hc]. Qed.

Lemma ident_step n rest c fuel lxr pre :
  all_chars ident_part n = true → code c < 128 →
  isIdentifierPart nonascii_Is nonascii_IsDigit (chr_at rest) = false →
  lex_at lxr pre (String c (n +:+ rest)) → (S (String.length (reader lxr)) < fuel)%nat →
  ∃ lxr', nextIdentifierName_loop nonascii_Is nonascii_IsDigit fuel lxr = Some (None, lxr') ∧
    lex_at lxr' (pre +:+ String c n) rest.
Proof.
  revert c lxr pre fuel. induction n as [|c' n IH]; intros c lxr pre fuel Hn Hc Hr Hl Hf.
  all: destruct fuel as [|fuel]; [lia|]; cbn [nextIdentifierName_loop].
  all: destruct (advance_ascii _ _ c _ Hc Hl) as (-> & Hchr & Hread & l' & -> & Hl').
  - change ("" +:+ rest) with rest in Hl'. exists l'. split; [|done].
    by rw (lex_at_chr_at _ _ _ Hl') Hr.
  - cbn [all_chars] in Hn. apply andb_true_iff in Hn as [Hc' Hn]. rw str_cons_app in Hl'.
    pose proof (ident_part_code _ Hc') as Hcode.
    destruct (advance_ascii _ _ c' _ Hcode Hl') as (He' & Hchr' & Hread' & _).
    destruct (IH c' l' (pre +:+ String c "") fuel) as (l2 & Hgo & Hl2); [done..| |].
    { rw Hread'. rw Hread in Hf. rw !str_length_app in Hf |- *. cbn in Hf. lia. }
    exists l2. rw str_app_assoc in Hl2. split; [|done]. by rw Hchr' isIdentifierPart_ascii // Hc'.
Qed.

Lemma lexes_identifier lxr pre n rest :
  is_identifier n = true → isIdentifierPart nonascii_Is nonascii_IsDigit (chr_at rest) = false →
  lex_at lxr pre (n +:+ rest) → lexes lxr pre n rest TokenIdentifier (JPStr n).
Proof.
  intros Hn Hr Hl. destruct n as [|c n]; [done|].
  apply andb_true_iff in Hn as [Hc Hn]. pose proof (ident_part_code _ (ident_start_part _ Hc)) as Hcode.
  rw str_cons_app in Hl. destruct (advance_ascii _ _ c _ Hcode Hl) as (He & Hchr & _).
  destruct (ident_step n rest c (lexer_fuel lxr) lxr pre) as (l' & Hgo & Hl'); [done..| |].
  { unfold lexer_fuel. lia. }
  exists l'. split; [|done]. unfold Lexer_Next. cbv zeta. rw He Hchr.
  destruct (ident_start_other c Hc) as (-> & -> & -> & ->). rw isIdentifierStart_ascii // Hc.
  unfold Lexer_nextIdentifierName. cbv zeta. rw Hgo. rw -str_cons_app in Hl.
  by rw (lex_at_slice _ _ _ _ _ Hl Hl').
Qed.

(** ** Strings *)

Lemma plain_char_code c :
  plain_char c = true → code c < 128 ∧ (code c =? 39) = false ∧ (code c =? 92) = false.
Proof. destruct c as [[] [] [] [] [] [] [] []]; intros Hc; solve [by vm_compute|discriminate Hc]. Qed.

Lemma string_step n rest c fuel startPos lxr pre :
  plain n = true → code c < 128 →
  lex_at lxr pre (String c (n +:+ "'" +:+ rest)) → (S (String.length (reader lxr)) < fuel)%nat →
  ∃ lxr', nextString_loop goja_Parse fuel startPos 39 lxr
      = (let '(val, err) := stringValue goja_Parse (slice (source lxr') startPos (chrPos lxr')) in
         Some ((TokenString, val, err), lxr')) ∧
    lex_at lxr' (pre +:+ String c (n +:+ "'")) rest.
Proof.
  revert c lxr pre fuel. induction n as [|c' n IH]; intros c lxr pre fuel Hn Hc Hl Hf.
  all: destruct fuel as [|fuel]; [lia|]; cbn [nextString_loop].
  all: destruct (advance_ascii _ _ c _ Hc Hl) as (_ & Hchr & Hread & l' & -> & Hl').
  - change (lex_at l' (pre +:+ String c "") (String "'" rest)) in Hl'.
    destruct (advance_ascii _ _ "'"%char _ eq_refl Hl') as (-> & -> & _ & l2 & -> & Hl2).
    change (code "'" =? 39) with true. cbv iota zeta. exists l2. split; [done|].
    by rw str_app_assoc in Hl2.
  - unfold plain in Hn. cbn [all_chars] in Hn. apply andb_true_iff in Hn as [Hc' Hn].
    rw str_cons_app in Hl'. destruct (plain_char_code _ Hc') as (Hcode & H39 & H92).
    destruct (advance_ascii _ _ c' _ Hcode Hl') as (He' & Hchr' & Hread' & _).
    destruct (IH c' l' (pre +:+ String c "") fuel) as (l2 & Hgo & Hl2); [done..| |].
    { rw Hread'. rw Hread in Hf. rw !str_length_app in Hf |- *. cbn in Hf |- *. lia. }
    exists l2. rw str_app_assoc in Hl2. split; [|done]. by rw He' Hchr' H39 H92.
Qed.

Context (Hgoja : ∀ n, plain n = true →
  goja_Parse (quote n) = inr [js_ExpressionStatement (js_StringLiteral n)]).

Lemma lexes_string lxr pre n rest :
  plain n = true → lex_at lxr pre (quote n +:+ rest) →
  lexes lxr pre (quote n) rest TokenString (JPStr n).
Proof.
  intros Hn Hl. unfold quote in Hl |- *. assert (lex_at lxr pre (String "'" (n +:+ "'" +:+ rest))) as Hl1.
  { by rw !str_app_assoc in Hl. }
  destruct (advance_ascii _ _ "'"%char _ eq_refl Hl1) as (He & Hchr & _).
  destruct (string_step n rest "'" (lexer_fuel lxr) (chrPos lxr) lxr pre) as (l' & Hgo & Hl');
    [done..|unfold lexer_fuel; lia|].
  exists l'. split; [|done]. unfold Lexer_Next. cbv zeta. rw He Hchr.
  change (is_punctuation (code "'")) with false. change (code "'" =? 46) with false.
  change ((48 <=? code "'") && (code "'" <=? 57)) with false.
  change ((code "'" =? 34) || (code "'" =? 39)) with true. cbv iota.
  unfold Lexer_nextString. rw Hchr. change (code "'") with 39. rw Hgo.
  change (lex_at l' (pre +:+ "'" +:+ n +:+ "'") rest) in Hl'.
  rw (lex_at_slice _ _ _ _ _ Hl Hl'). unfold stringValue. by rw (Hgoja n Hn).
Qed.

(** * Parsing what was printed *)

(** A parsing function returned [x] without error and has [rest] ahead. *)
Definition parsed_to {A : Type} (res : option (A * option jperror * Lexer)) (x : A) (rest : string)
  : Prop :=
  ∃ lxr' pre', res = Some (x, None, lxr') ∧ lex_at lxr' pre' rest.

(** Each item preceded by a comma. *)
Fixpoint comma_items (items : list string) : string :=
  match items with
  | [] => ""
  | item :: items => "," +:+ item +:+ comma_items items
  end.

Lemma separated_cons item items : separated (item :: items) = item +:+ comma_items items.
Proof.
  revert item. induction items as [|i items IH]; intros item; [by rw str_app_nil|].
  change (separated (item :: i :: items)) with (item +:+ "," +:+ separated (i :: items)). by rw IH.
Qed.

Lemma special_iff tok val s : special tok val s = bool_decide (tok = TokenSpecial ∧ val = JPStr s).
Proof. unfold special. symmetry. apply bool_decide_and. Qed.

Ltac lex_token H := destruct H as (?l & -> & ?Hl); cbn [mbind option_bind].

Lemma parses_range lxr pre s e k rest :
  index_ok s → (∀ z, e = Some z → index_ok z) → index_ok k →
  lex_at lxr pre (from_option print_int "" e +:+ ":" +:+ print_int k +:+ "]" +:+ rest) →
  parsed_to (parseRange goja_Parse nonascii_Is nonascii_IsDigit lxr s)
    (rangeSelector (MkRange s e k)) rest.
Proof.
  intros Hs He Hk Hl. unfold parseRange. cbv zeta.
  assert (∀ lxr pre, lex_at lxr pre (print_int k +:+ "]" +:+ rest) →
    parsed_to (parseRange_rest goja_Parse nonascii_Is nonascii_IsDigit lxr s e TokenSpecial (JPStr ":"))
      (rangeSelector (MkRange s e k)) rest) as Hrest.
  { clear lxr pre Hl. intros lxr pre Hl. unfold parseRange_rest. cbv zeta.
    change (special TokenSpecial (JPStr ":") "]") with false.
    change (special TokenSpecial (JPStr ":") ":") with true. cbn [negb].
    lex_token (lexes_number lxr pre k ("]" +:+ rest) Hk eq_refl Hl).
    change (special TokenNumber (JPInt k) "]") with false.
    change (bool_decide (TokenNumber = TokenNumber)) with true. cbn [negb]. cbv iota.
    lex_token (lexes_punctuation l _ "]"%char rest eq_refl Hl0).
    change (special TokenSpecial (JPStr "]") "]") with true. by eexists _, _. }
  destruct e as [e|]; cbn [from_option] in Hl.
  - lex_token (lexes_number lxr pre e (":" +:+ print_int k +:+ "]" +:+ rest) (He e eq_refl) eq_refl Hl).
    destruct (decide (TokenNumber = TokenNumber)) as [_|]; [|done].
    lex_token (lexes_punctuation l _ ":"%char _ eq_refl Hl0). by eapply Hrest.
  - lex_token (lexes_punctuation lxr _ ":"%char _ eq_refl Hl).
    destruct (decide (TokenSpecial = TokenNumber)) as [|_]; [done|]. by eapply Hrest.
Qed.

Lemma parses_names fuel ns done lxr pre rest :
  Forall (λ n, plain n = true) ns → (length ns < fuel)%nat →
  lex_at lxr pre (comma_items (quote <$> ns) +:+ "]" +:+ rest) →
  parsed_to (parseStringSubscripts_loop goja_Parse nonascii_Is nonascii_IsDigit fuel lxr
               (nameSelector <$> done))
    (subscripts (nameSelector <$> (done ++ ns))) rest.
Proof.
  revert fuel done lxr pre. induction ns as [|n ns IH]; intros [|fuel] done lxr pre Hns Hf Hl;
    cbn in Hf; try lia; cbn [parseStringSubscripts_loop].
  - lex_token (lexes_punctuation lxr _ "]"%char rest eq_refl Hl).
    change (special TokenSpecial (JPStr "]") "]") with true. rw app_nil_r. by eexists _, _.
  - apply Forall_cons in Hns as [Hn Hns]. cbn [fmap list_fmap comma_items] in Hl.
    rw 2!str_app_assoc in Hl.
    lex_token (lexes_punctuation lxr _ ","%char _ eq_refl Hl).
    change (special TokenSpecial (JPStr ",") "]") with false.
    change (special TokenSpecial (JPStr ",") ",") with true. cbn [negb].
    lex_token (lexes_string l _ n _ Hn Hl0).
    change (bool_decide (TokenString = TokenString)) with true. cbn [negb]. cbv iota.
    change [nameSelector n] with (nameSelector <$> [n]). rw -fmap_app.
    replace (done ++ n :: ns) with ((done ++ [n]) ++ ns) by by rw -app_assoc.
    eapply IH; [done|lia|exact Hl1].
Qed.

Lemma parses_indexes fuel ixs done lxr pre rest :
  Forall index_ok ixs → (length ixs < fuel)%nat →
  lex_at lxr pre (comma_items (print_int <$> ixs) +:+ "]" +:+ rest) →
  ∃ tok val lxr1, Next lxr = Some ((tok, val, None), lxr1) ∧ special tok val ":" = false ∧
    parsed_to (parseNumericSubscripts_loop goja_Parse nonascii_Is nonascii_IsDigit fuel tok val lxr1
                 ((λ i, rangeSelector (rangeOf1 i)) <$> done))
      (subscripts ((λ i, rangeSelector (rangeOf1 i)) <$> (done ++ ixs))) rest.
Proof.
  revert fuel done lxr pre. induction ixs as [|i ixs IH]; intros [|fuel] done lxr pre Hi Hf Hl;
    cbn in Hf; try lia; cbn [parseNumericSubscripts_loop].
  - destruct (lexes_punctuation lxr _ "]"%char rest eq_refl Hl) as (l & -> & Hl0).
    eexists _, _, l. split; [done|]. split; [done|]. rw app_nil_r. by eexists _, _.
  - apply Forall_cons in Hi as [Hi Hixs]. cbn [fmap list_fmap comma_items] in Hl.
    rw !str_app_assoc in Hl.
    destruct (lexes_punctuation lxr _ ","%char _ eq_refl Hl) as (l & -> & Hl0).
    eexists _, _, l. split; [done|]. split; [done|].
    change (special TokenSpecial (JPStr ",") "]") with false.
    change (special TokenSpecial (JPStr ",") ",") with true. cbn [negb].
    assert (is_punctuation (chr_at (comma_items (print_int <$> ixs) +:+ "]" +:+ rest)) = true) as Hp
      by (by destruct ixs).
    lex_token (lexes_number l _ i _ Hi Hp Hl0).
    change (bool_decide (TokenNumber = TokenNumber)) with true. cbn [negb]. cbv iota zeta.
    destruct (IH fuel (done ++ [i]) _ _ Hixs ltac:(lia) Hl1) as (tok & val & l2 & -> & _ & Hgo).
    cbn [mbind option_bind].
    change [rangeSelector (rangeOf1 i)] with ((λ i, rangeSelector (rangeOf1 i)) <$> [i]). rw -fmap_app.
    by rw -app_assoc in Hgo.
Qed.

Abbreviation bracket := (Parse_bracket goja_Parse nonascii_Is nonascii_IsDigit).

Lemma append_parsed_to parsed res sel rest :
  parsed_to res sel rest → parsed_to (append_parsed parsed res) (parsed ++ [sel]) rest.
Proof. intros (l & pre & -> & Hl). by exists l, pre. Qed.

Lemma comma_items_length items : (length items ≤ String.length (comma_items items))%nat.
Proof. induction items as [|i items IH]; [done|]. cbn [comma_items length]. rw !str_length_app. cbn. lia. Qed.

(** What follows an opening bracket up to the closing one. *)
Lemma bracket_names n ns parsed lxr pre rest :
  plain n = true → Forall (λ n, plain n = true) ns →
  lex_at lxr pre (separated (quote <$> n :: ns) +:+ "]" +:+ rest) →
  parsed_to (bracket lxr parsed) (parsed ++ [subscripts (nameSelector <$> n :: ns)]) rest.
Proof.
  intros Hn Hns Hl. rw fmap_cons separated_cons str_app_assoc in Hl. unfold Parse_bracket.
  lex_token (lexes_string lxr pre n _ Hn Hl).
  change (special TokenString (JPStr n) "*") with false.
  change (special TokenString (JPStr n) ":") with false. cbv iota.
  destruct (decide (TokenString = TokenNumber)) as [|_]; [done|].
  destruct (decide (TokenString = TokenString)) as [_|]; [|done].
  apply append_parsed_to. unfold parseStringSubscripts.
  apply (parses_names _ ns [n] l (pre +:+ quote n) rest Hns); [|done].
  pose proof (parser_fuel_enough _ _ _ Hl0) as Hf. rw str_length_app in Hf.
  pose proof (comma_items_length (quote <$> ns)) as Hc. rw length_fmap in Hc. lia.
Qed.

Lemma bracket_indexes i ixs parsed lxr pre rest :
  index_ok i → Forall index_ok ixs →
  lex_at lxr pre (separated (print_int <$> i :: ixs) +:+ "]" +:+ rest) →
  parsed_to (bracket lxr parsed)
    (parsed ++ [subscripts ((λ i, rangeSelector (rangeOf1 i)) <$> i :: ixs)]) rest.
Proof.
  intros Hi Hixs Hl. rw fmap_cons separated_cons str_app_assoc in Hl. unfold Parse_bracket.
  assert (is_punctuation (chr_at (comma_items (print_int <$> ixs) +:+ "]" +:+ rest)) = true) as Hp
    by (by destruct ixs).
  lex_token (lexes_number lxr pre i _ Hi Hp Hl).
  change (special TokenNumber (JPInt i) "*") with false.
  change (special TokenNumber (JPInt i) ":") with false. cbv iota.
  destruct (decide (TokenNumber = TokenNumber)) as [_|]; [|done].
  apply append_parsed_to. unfold parseNumericSubscripts.
  destruct (Next_reads goja_Parse nonascii_Is nonascii_IsDigit _ _ _ Hl0)
    as (tok & val & err & l1 & Hn & (t & r & Ht & _ & Hl1) & _).
  destruct (parses_indexes (parser_fuel l1) ixs [i] l (pre +:+ print_int i) rest Hixs)
    as (tok' & val' & l1' & Hn' & Hcol & Hgo); [|done|].
  - unfold parser_fuel. destruct Hl1 as (-> & _ & _). rw !str_length_app.
    pose proof (comma_items_length (print_int <$> ixs)) as Hc. rw length_fmap in Hc.
    apply (f_equal String.length) in Ht. rw !str_length_app in Ht. lia.
  - rw Hn in Hn'. injection Hn' as -> -> -> ->. rw Hn. cbn [mbind option_bind]. by rw Hcol.
Qed.

Lemma bracket_range st e k parsed lxr pre rest :
  index_ok st → (∀ z, e = Some z → index_ok z) → index_ok k →
  lex_at lxr pre (print_int st +:+ ":" +:+ from_option print_int "" e +:+ ":" +:+ print_int k
                  +:+ "]" +:+ rest) →
  parsed_to (bracket lxr parsed) (parsed ++ [rangeSelector (MkRange st e k)]) rest.
Proof.
  intros Hs He Hk Hl. unfold Parse_bracket.
  lex_token (lexes_number lxr pre st (":" +:+ _) Hs eq_refl Hl).
  change (special TokenNumber (JPInt st) "*") with false.
  change (special TokenNumber (JPInt st) ":") with false. cbv iota.
  destruct (decide (TokenNumber = TokenNumber)) as [_|]; [|done].
  apply append_parsed_to. unfold parseNumericSubscripts.
  lex_token (lexes_punctuation l _ ":"%char _ eq_refl Hl0).
  change (special TokenSpecial (JPStr ":") ":") with true. cbv iota. by eapply parses_range.
Qed.

(** The first rune of a printed path. *)
Lemma print_selectors_chr path :
  Forall printable path →
  chr_at (print_selectors path) = 0 ∨ chr_at (print_selectors path) = 46 ∨
  chr_at (print_selectors path) = 91.
Proof.
  intros Hp. destruct Hp as [|sel path Hsel Hp]; [by left|]. right. cbn [print_selectors].
  destruct Hsel; cbn [print_selector selType selName selRange selList nameSelector rangeSelector
    listSelector everyChild recurse from_option]; try (by right); try (by left).
  destruct (is_identifier n); [by left|by right].
Qed.

(** One printed selector: the token that the loop of [Parse] sees, and what the
    loop does with it. *)
Lemma selector_step sel lxr pre rest parsed :
  printable sel → lex_at lxr pre (print_selector sel +:+ rest) →
  chr_at rest = 0 ∨ chr_at rest = 46 ∨ chr_at rest = 91 →
  ∃ l s, Next lxr = Some ((TokenSpecial, JPStr s, None), l) ∧
    (s = "." ∧ parsed_to (Parse_dot goja_Parse nonascii_Is nonascii_IsDigit l parsed)
                 (parsed ++ [sel]) rest ∨
     s = "[" ∧ parsed_to (bracket l parsed) (parsed ++ [sel]) rest ∨
     s = ".." ∧ sel = recurse ∧ ∃ pre', lex_at l pre' rest).
Proof.
  intros Hsel Hl Hr. destruct Hsel as [n Hn|st e k Hs He Hk|ns Hlen Hns|ixs Hlen Hixs| |];
    cbn [print_selector selType selName selRange selList nameSelector rangeSelector
      listSelector everyChild recurse from_option] in Hl.
  - destruct (is_identifier n) eqn:Hid.
    + rw str_app_assoc in Hl.
      assert (chr_at (n +:+ rest) ≠ 46) as Hne.
      { destruct n as [|c n]; [done|]. apply andb_true_iff in Hid as [Hc _].
        rw str_cons_app chr_at_cons; [|by apply ident_part_code, ident_start_part].
        apply Z.eqb_neq. by apply ident_start_other. }
      destruct (lexes_dot lxr pre (n +:+ rest) Hl Hne) as (l & Hn1 & Hl1).
      exists l, ".". split; [done|]. left. split; [done|]. unfold Parse_dot.
      assert (isIdentifierPart nonascii_Is nonascii_IsDigit (chr_at rest) = false) as Hpart
        by (by destruct Hr as [-> | [-> | ->]]).
      lex_token (lexes_identifier l _ n rest Hid Hpart Hl1).
      change (special TokenIdentifier (JPStr n) "*") with false. cbv iota.
      destruct (decide (TokenIdentifier = TokenIdentifier)) as [_|]; [|done]. by eexists _, _.
    + rw 2!str_app_assoc in Hl.
      destruct (lexes_punctuation lxr pre "["%char _ eq_refl Hl) as (l & Hn1 & Hl1).
      exists l, "[". split; [done|]. right; left. split; [done|].
      by apply (bracket_names n [] parsed l (pre +:+ "[") rest Hn (Forall_nil_2 _)).
  - unfold print_range in Hl. cbn [rgStart rgAfterEnd rgStride] in Hl. rw !str_app_assoc in Hl.
    destruct (lexes_punctuation lxr pre "["%char _ eq_refl Hl) as (l & Hn1 & Hl1).
    exists l, "[". split; [done|]. right; left. split; [done|].
    by apply (bracket_range st e k parsed l (pre +:+ "[") rest Hs He Hk).
  - rw -list_fmap_compose 2!str_app_assoc in Hl.
    destruct (lexes_punctuation lxr pre "["%char _ eq_refl Hl) as (l & Hn1 & Hl1).
    exists l, "[". split; [done|]. right; left. split; [done|].
    destruct ns as [|n [|n' ns]]; cbn in Hlen; [lia..|]. apply Forall_cons in Hns as [Hn Hns].
    by apply (bracket_names n (n' :: ns) parsed l (pre +:+ "[") rest Hn Hns).
  - rw -list_fmap_compose 2!str_app_assoc in Hl.
    destruct (lexes_punctuation lxr pre "["%char _ eq_refl Hl) as (l & Hn1 & Hl1).
    exists l, "[". split; [done|]. right; left. split; [done|].
    destruct ixs as [|i [|i' ixs]]; cbn in Hlen; [lia..|]. apply Forall_cons in Hixs as [Hi Hixs].
    by apply (bracket_indexes i (i' :: ixs) parsed l (pre +:+ "[") rest Hi Hixs).
  - destruct (lexes_dot lxr pre ("*" +:+ rest) Hl ltac:(done)) as (l & Hn1 & Hl1).
    exists l, ".". split; [done|]. left. split; [done|]. unfold Parse_dot.
    lex_token (lexes_punctuation l _ "*"%char rest eq_refl Hl1).
    change (special TokenSpecial (JPStr "*") "*") with true. by eexists _, _.
  - destruct (lexes_dotdot lxr pre rest Hl) as (l & Hn1 & Hl1).
    exists l, "..". split; [done|]. right; right. split; [done|]. split; [done|]. by eexists.
Qed.

Lemma print_selector_length sel : printable sel → (1 ≤ String.length (print_selector sel))%nat.
Proof.
  intros Hsel. destruct Hsel; cbn [print_selector selType selName selRange selList nameSelector
    rangeSelector listSelector everyChild recurse from_option]; try (destruct (is_identifier n));
    unfold print_range; rw ?str_length_app; cbn; lia.
Qed.

Lemma Parse_loop_print fuel path parsed star lxr pre :
  Forall printable path → lex_at lxr pre (print_selectors path) →
  (String.length (print_selectors path) < fuel)%nat →
  Parse_loop goja_Parse nonascii_Is nonascii_IsDigit fuel lxr parsed star
  = Some (parsed ++ path, None).
Proof.
  revert fuel parsed star lxr pre.
  induction path as [|sel path IH]; intros [|fuel] parsed star lxr pre Hp Hl Hf; try lia.
  { cbn [Parse_loop]. rw (proj2 (lex_at_eof _ _ _ Hl) eq_refl). by rw app_nil_r. }
  apply Forall_cons in Hp as [Hsel Hp]. cbn [print_selectors] in Hl, Hf.
  pose proof (print_selector_length sel Hsel) as Hlen. rw str_length_app in Hf.
  assert (eof lxr = false) as Heof.
  { destruct (eof lxr) eqn:Heof; [|done]. apply (lex_at_eof _ _ _ Hl) in Heof.
    apply (f_equal String.length) in Heof. rw str_length_app in Heof. cbn in Heof. lia. }
  cbn [Parse_loop]. rw Heof. cbv zeta.
  destruct (selector_step sel lxr pre _ parsed Hsel Hl (print_selectors_chr path Hp))
    as (l & s & -> & Hcase). cbn [mbind option_bind].
  destruct (decide (None = Some io_EOF)) as [|_]; [done|].
  replace (parsed ++ sel :: path) with ((parsed ++ [sel]) ++ path) by by rw -app_assoc.
  destruct Hcase as [[-> (l2 & pre2 & Hres & Hl2)]|[[-> (l2 & pre2 & Hres & Hl2)]|(-> & -> & pre2 & Hl2)]].
  - change (special TokenSpecial (JPStr ".") ".") with true. cbv iota. rw Hres. cbn [mbind option_bind].
    eapply IH; [done|exact Hl2|lia].
  - change (special TokenSpecial (JPStr "[") ".") with false.
    change (special TokenSpecial (JPStr "[") "[") with true. cbv iota. rw Hres.
    cbn [mbind option_bind]. eapply IH; [done|exact Hl2|lia].
  - change (special TokenSpecial (JPStr "..") ".") with false.
    change (special TokenSpecial (JPStr "..") "[") with false.
    change (special TokenSpecial (JPStr "..") "..") with true. cbv iota.
    eapply IH; [done|exact Hl2|lia].
Qed.

(** C34: the round trip of JSONPath expressions: every path made of names of printable
    ASCII characters other than quotes and backslashes, ranges of numbers from 0 to 2^63-1,
    lists of at least two names or indexes, [..] and [*], printed in the syntax of the
    grammar, is parsed back to itself, if goja reads a plain single-quoted string as the
    string between the quotes. *)
Theorem ParseString_print path :
  Forall printable path →
  ParseString goja_Parse nonascii_Is nonascii_IsDigit (print_path path) = Some (path, None).
Proof.
  intros Hp. unfold ParseString, Parse.
  pose proof (NewLexer_at (print_path path)) as Hl.
  assert (isIdentifierPart nonascii_Is nonascii_IsDigit (chr_at (print_selectors path)) = false) as Hpart
    by (by destruct (print_selectors_chr path Hp) as [-> | [-> | ->]]).
  lex_token (lexes_identifier _ _ "$" _ eq_refl Hpart Hl).
  change (bool_decide (TokenIdentifier = TokenIdentifier)) with true.
  change (bool_decide (JPStr "$" = JPStr "$")) with true. cbn [negb orb].
  eapply (Parse_loop_print _ path []); [done|exact Hl0|by eapply parser_fuel_enough].
Qed.
End printed_tokens.
