(* ===== verification/JsonEval.v ===== *)
(** Applying a function at the places of a JSON value that a path selects
    (pkg/jsonpath/eval.go).

    Go's maps and slices are references, and [Apply] updates them in place, so JSON
    values live in a store: a value is a scalar or the location of an array or an
    object, and values may share parts.  The recursion and the loops are bounded by a
    fuel; [Diverges] is the outcome of a run that exceeds it. *)

From Stdlib Require Import Ascii.
From Stdlib Require String.
From S2P Require Import Prelude GoStrings JsonLexer JsonPath.

#[local] Open Scope Z_scope.

(** * The store *)

Abbreviation loc := positive.

(** [JSONValue]: a number is kept as the bits of its float64. *)
Inductive JVal : Set :=
| JNull
| JBool (b : bool)
| JNumber (bits : Z)
| JString (s : string)
| JRef (l : loc).

Inductive JNode : Set :=
| JArray (elts : list JVal)
| JObject (members : gmap string JVal).

Abbreviation Heap := (gmap loc JNode).

#[export] Instance JVal_eq_dec : EqDecision JVal.
Proof. solve_decision. Defined.

(** The type assertions [data.(map[string]any)] and [data.([]any)] *)
Definition as_object (data : JVal) (h : Heap) : option (loc * gmap string JVal) :=
  match data with
  | JRef l => match h !! l with Some (JObject m) => Some (l, m) | _ => None end
  | _ => None
  end.

Definition as_array (data : JVal) (h : Heap) : option (loc * list JVal) :=
  match data with
  | JRef l => match h !! l with Some (JArray elts) => Some (l, elts) | _ => None end
  | _ => None
  end.

(** The assignments [typed[name] = v] and [typed[index] = v] *)
Definition set_member (l : loc) (name : string) (v : JVal) (h : Heap) : Heap :=
  alter (λ node, match node with
                 | JObject m => JObject (<[name:=v]> m)
                 | JArray _ => node
                 end) l h.

Definition set_elem (l : loc) (i : nat) (v : JVal) (h : Heap) : Heap :=
  alter (λ node, match node with
                 | JArray elts => JArray (<[i:=v]> elts)
                 | JObject _ => node
                 end) l h.

(** The reads [typed[name]], with the zero value for an absent member, and
    [typed[index]], [None] out of range. *)
Definition get_member (l : loc) (name : string) (h : Heap) : JVal :=
  match h !! l with Some (JObject m) => default JNull (m !! name) | _ => JNull end.

Definition get_elem (l : loc) (i : Z) (h : Heap) : option JVal :=
  match h !! l with
  | Some (JArray elts) => if i <? 0 then None else elts !! Z.to_nat i
  | _ => None
  end.

Lemma get_elem_neg l i h : i < 0 → get_elem l i h = None.
Proof.
  intros Hi. unfold get_elem. rw (proj2 (Z.ltb_lt i 0) Hi). by destruct (h !! l) as [[]|].
Qed.

(** * Outcomes *)

Inductive Outcome (A : Type) : Type :=
| Returns (a : A)
| Panics
| Diverges.
Arguments Returns {_} _.
Arguments Panics {_}.
Arguments Diverges {_}.

#[export] Instance Outcome_bind : MBind Outcome := λ A B f o,
  match o with
  | Returns a => f a
  | Panics => Panics
  | Diverges => Diverges
  end.

(** Split on the outcome of the first step of a sequence. *)
Tactic Notation "first_step" simple_intropattern(pat) ident(Hm) :=
  match goal with |- mbind _ ?e = _ → _ => destruct e as pat eqn:Hm end; try done;
  cbn [mbind Outcome_bind].

(** [for index := index; index < limit; index += stride], with the addition of [int] *)
Fixpoint range_loop {S : Type} (fuel : nat) (body : Z → S → Outcome S) (index limit stride : Z) (s : S)
  : Outcome S :=
  match fuel with
  | O => Diverges
  | S fuel =>
      if index <? limit then
        s ← body index s;
        range_loop fuel body (wrap_int (index + stride)) limit stride s
      else Returns s
  end.

(** [for x := range xs] *)
Fixpoint each {X S : Type} (body : X → S → Outcome S) (xs : list X) (s : S) : Outcome S :=
  match xs with
  | [] => Returns s
  | x :: xs => s ← body x s; each body xs s
  end.

(** * Apply *)

(** Whether a range selects one place for sure. *)
Definition range_definite (r : Range) : bool :=
  match rgAfterEnd r with
  | Some afterEnd => (afterEnd =? wrap_int (rgStart r + 1)) && (rgStride r =? 1)
  | None => false
  end.

Definition range_limit (r : Range) (len : Z) : Z :=
  match rgAfterEnd r with
  | Some afterEnd => if afterEnd <? len then afterEnd else len
  | None => len
  end.

(** A [range] over a map visits the keys that are there when it starts. *)
Fixpoint Apply `{MapRange} (fuel : nat) (fn : JVal → Heap → JVal * Heap) (data : JVal)
  (path : list Selector) (definite : bool) (h : Heap) : Outcome (JVal * Heap) :=
  match fuel with
  | O => Diverges
  | S fuel =>
      let at_elem path definite l (i : Z) (h : Heap) :=
        match get_elem l i h with
        | None => Panics
        | Some elt =>
            '(v, h) ← Apply fuel fn elt path definite h;
            Returns (set_elem l (Z.to_nat i) v h)
        end in
      let at_member path definite l name (h : Heap) :=
        '(v, h) ← Apply fuel fn (get_member l name h) path definite h;
        Returns (set_member l name v h) in
      let at_children path (data : JVal) (h : Heap) :=
        match as_array data h, as_object data h with
        | Some (l, elts), _ =>
            each (λ i h, at_elem path false l (Z.of_nat i) h) (seq 0 (length elts)) h
        | None, Some (l, m) => each (λ key h, at_member path false l key h) (map_range m).*1 h
        | None, None => Returns h
        end in
      match path with
      | [] => Returns (fn data h)
      | sel :: rest =>
          match selType sel with
          | SelectorName =>
              match as_object data h with
              | Some (l, m) =>
                  if definite || bool_decide (is_Some (m !! selName sel)) then
                    h ← at_member rest definite l (selName sel) h;
                    Returns (data, h)
                  else Returns (data, h)
              | None => Returns (data, h)
              end
          | SelectorRange =>
              match selRange sel with
              | None =>
                  (* a nil pointer is dereferenced *)
                  if definite || bool_decide (is_Some (as_array data h)) then Panics
                  else Returns (data, h)
              | Some r =>
                  let definite := definite && range_definite r in
                  match as_array data h with
                  | Some (l, elts) =>
                      let limit := range_limit r (Z.of_nat (length elts)) in
                      h ← range_loop fuel (at_elem rest definite l) (rgStart r) limit (rgStride r) h;
                      Returns (data, h)
                  | None => Returns (data, h)
                  end
              end
          | SelectorList =>
              each (λ sub '(data, h), Apply fuel fn data (sub :: rest) definite h) (selList sel) (data, h)
          | SelectorEveryChild =>
              h ← at_children rest data h;
              Returns (data, h)
          | SelectorRecurse =>
              '(data, h) ← Apply fuel fn data rest false h;
              h ← at_children path data h;
              Returns (data, h)
          end
      end
  end.

(** The function that Customize applies: replace by a value. *)
Definition replace_by (v : JVal) : JVal → Heap → JVal * Heap := λ _ h, (v, h).

(** * Loops that return *)

Lemma each_returns {X S} (body : X → S → Outcome S) (I : S → Prop) xs s :
  (∀ x s, x ∈ xs → I s → ∃ s', body x s = Returns s' ∧ I s') →
  I s → ∃ s', each body xs s = Returns s' ∧ I s'.
Proof.
  revert s. induction xs as [|x xs IH]; intros s Hbody Hs; [by exists s|]. cbn [each].
  destruct (Hbody x s) as (s' & -> & Hs'); [left|done|]. cbn [mbind Outcome_bind].
  apply IH; [|done]. intros x' s'' Hx'. apply Hbody. by right.
Qed.

Lemma range_loop_returns {S} fuel (body : Z → S → Outcome S) (I : S → Prop) index limit stride s :
  0 ≤ index → 1 ≤ stride → limit + stride < 2 ^ 63 → limit - index < Z.of_nat fuel →
  (∀ i s, index ≤ i < limit → I s → ∃ s', body i s = Returns s' ∧ I s') →
  0 < Z.of_nat fuel → I s → ∃ s', range_loop fuel body index limit stride s = Returns s' ∧ I s'.
Proof.
  revert index s. induction fuel as [|fuel IH]; intros index s Hi Hst Hlim Hf Hbody H0 Hs; [lia|].
  cbn [range_loop]. destruct (index <? limit) eqn:Hlt; [apply Z.ltb_lt in Hlt|by exists s].
  destruct (Hbody index s) as (s' & -> & Hs'); [lia|done|]. cbn [mbind Outcome_bind].
  rw wrap_int_id; [|lia]. apply IH; try done; try lia. intros i s'' Hi'. apply Hbody. lia.
Qed.

(** * Termination *)

(** The arrays keep their lengths and the objects stay objects. *)
Definition same_shape (h h' : Heap) : Prop :=
  ∀ l, match h !! l, h' !! l with
       | Some (JArray elts), Some (JArray elts') => length elts = length elts'
       | Some (JObject _), Some (JObject _) => True
       | None, None => True
       | _, _ => False
       end.

#[export] Instance same_shape_preorder : PreOrder same_shape.
Proof.
  split.
  - intros h l. by destruct (h !! l) as [[]|].
  - intros h1 h2 h3 H12 H23 l. specialize (H12 l). specialize (H23 l).
    repeat case_match; simplify_eq; try done. congruence.
Qed.

Lemma set_member_shape l name v h : same_shape h (set_member l name v h).
Proof.
  intros l'. unfold set_member. destruct (decide (l' = l)) as [->|Hne].
  - rw lookup_alter_eq.
    by destruct (h !! l) as [[]|]; cbn.
  - rw lookup_alter_ne //. by destruct (h !! l') as [[]|].
Qed.

Lemma set_elem_shape l i v h : same_shape h (set_elem l i v h).
Proof.
  intros l'. unfold set_elem. destruct (decide (l' = l)) as [->|Hne].
  - rw lookup_alter_eq. destruct (h !! l) as [[]|]; cbn; [|done..]. by rw length_insert.
  - rw lookup_alter_ne //. by destruct (h !! l') as [[]|].
Qed.

(** No array of the store has more than [N] elements. *)
Definition arrays_bounded (N : nat) (h : Heap) : Prop :=
  ∀ l elts, h !! l = Some (JArray elts) → (length elts ≤ N)%nat.

Lemma arrays_bounded_shape N h h' : same_shape h h' → arrays_bounded N h → arrays_bounded N h'.
Proof.
  intros Hs Hb l elts Hl. specialize (Hs l). rw Hl in Hs. specialize (Hb l).
  destruct (h !! l) as [[elts0|]|] eqn:Hh; try done. rw -Hs. by apply Hb.
Qed.

(** The selectors that do not recurse and, over arrays of up to [N] elements, step
    forward without overflow. *)
Definition flat_selector (N : nat) (sel : Selector) : Prop :=
  match selType sel with
  | SelectorName | SelectorEveryChild => True
  | SelectorRange =>
      ∃ r, selRange sel = Some r ∧ 0 ≤ rgStart r ∧ 1 ≤ rgStride r ∧ Z.of_nat N + rgStride r < 2 ^ 63
  | SelectorList | SelectorRecurse => False
  end.
Definition steady_selector (N : nat) (sel : Selector) : Prop :=
  flat_selector N sel ∨ (selType sel = SelectorList ∧ Forall (flat_selector N) (selList sel)).

Section termination.
Context `{MapRange} (v0 : JVal) (N : nat).

Abbreviation ApplyV fuel := (Apply fuel (replace_by v0)).

(** [total fuel path]: with that fuel the call returns, whatever the data. *)
Definition total (fuel : nat) (path : list Selector) : Prop :=
  ∀ data definite h, arrays_bounded N h →
  ∃ v h', ApplyV fuel data path definite h = Returns (v, h') ∧ same_shape h h'.

Lemma at_elem_returns fuel path definite l i h len :
  total fuel path → arrays_bounded N h → (∃ elts, h !! l = Some (JArray elts) ∧ length elts = len) →
  0 ≤ i < Z.of_nat len →
  ∃ h', match get_elem l i h with
        | None => Panics
        | Some elt =>
            '(v, h) ← ApplyV fuel elt path definite h;
            Returns (set_elem l (Z.to_nat i) v h)
        end = Returns h' ∧ same_shape h h'.
Proof.
  intros Ht Hb (elts & Hl & Hlen) Hi. unfold get_elem. rw Hl.
  rw (proj2 (Z.ltb_ge i 0)); [|lia].
  destruct (lookup_lt_is_Some_2 elts (Z.to_nat i)) as [elt ->]; [lia|].
  destruct (Ht elt definite h Hb) as (v & h' & -> & Hs). cbn [mbind Outcome_bind].
  eexists. split; [done|]. etransitivity; [exact Hs|apply set_elem_shape].
Qed.

Lemma at_member_returns fuel path definite l name h :
  total fuel path → arrays_bounded N h →
  ∃ h', ('(v, h) ← ApplyV fuel (get_member l name h) path definite h;
         Returns (set_member l name v h)) = Returns h' ∧ same_shape h h'.
Proof.
  intros Ht Hb. destruct (Ht (get_member l name h) definite h Hb) as (v & h' & -> & Hs).
  cbn [mbind Outcome_bind]. eexists. split; [done|]. etransitivity; [exact Hs|apply set_member_shape].
Qed.

Lemma shape_array h h' l elts :
  same_shape h h' → h !! l = Some (JArray elts) →
  ∃ elts', h' !! l = Some (JArray elts') ∧ length elts' = length elts.
Proof.
  intros Hs Hl. specialize (Hs l). rw Hl in Hs. destruct (h' !! l) as [[elts'|]|]; try done.
  by exists elts'.
Qed.

Lemma as_array_spec data h l elts : as_array data h = Some (l, elts) → h !! l = Some (JArray elts).
Proof. destruct data; cbn; try done. repeat case_match; naive_solver. Qed.

Lemma flat_total fuel sel rest :
  flat_selector N sel → (N < fuel)%nat → total fuel rest → total (S fuel) (sel :: rest).
Proof.
  intros Hsel Hf Hrest data definite h Hb. cbn [Apply]. cbv zeta. unfold flat_selector in Hsel.
  destruct (selType sel); try done.
  - destruct (as_object data h) as [[l m]|]; [|by eexists _, _].
    destruct (definite || _); [|by eexists _, _].
    destruct (at_member_returns fuel rest definite l (selName sel) h Hrest Hb) as (h' & -> & Hs).
    by eexists _, _.
  - destruct Hsel as (r & -> & Hst & Hstride & Hmax).
    destruct (as_array data h) as [[l elts]|] eqn:Ha; [|by eexists _, _].
    apply as_array_spec in Ha. pose proof (Hb l elts Ha) as Hlen.
    assert (range_limit r (Z.of_nat (length elts)) ≤ Z.of_nat (length elts)) as Hlim.
    { unfold range_limit. repeat case_match; lia. }
    match goal with |- context [range_loop fuel ?b ?i ?l ?s h] =>
      destruct (range_loop_returns fuel b (same_shape h) i l s h) as (h' & -> & Hs);
        [lia|lia|lia|lia| |lia|done|] end; [|by eexists _, _].
    intros i h1 Hi Hs1.
    destruct (at_elem_returns fuel rest (definite && range_definite r) l i h1 (length elts) Hrest)
      as (h2 & -> & Hs2); [by eapply arrays_bounded_shape|by eapply shape_array|lia|].
    exists h2. split; [done|]. by etransitivity.
  - destruct (as_array data h) as [[l elts]|] eqn:Ha.
    + apply as_array_spec in Ha.
      match goal with |- context [each ?b ?xs h] =>
        destruct (each_returns b (same_shape h) xs h) as (h' & -> & Hs); [|done|] end; [|by eexists _, _].
      intros i h1 Hi%elem_of_seq Hs1.
      destruct (at_elem_returns fuel rest false l (Z.of_nat i) h1 (length elts) Hrest)
        as (h2 & -> & Hs2); [by eapply arrays_bounded_shape|by eapply shape_array|lia|].
      exists h2. split; [done|]. by etransitivity.
    + destruct (as_object data h) as [[l m]|]; [|by eexists _, _].
      match goal with |- context [each ?b ?xs h] =>
        destruct (each_returns b (same_shape h) xs h) as (h' & -> & Hs); [|done|] end; [|by eexists _, _].
      intros key h1 _ Hs1.
      destruct (at_member_returns fuel rest false l key h1 Hrest) as (h2 & -> & Hs2);
        [by eapply arrays_bounded_shape|].
      exists h2. split; [done|]. by etransitivity.
Qed.

Lemma steady_total fuel path :
  Forall (steady_selector N) path → (2 * length path + N < fuel)%nat → total fuel path.
Proof.
  intros Hp. revert fuel. induction Hp as [|sel rest Hsel Hp IH]; intros fuel Hf.
  - intros data definite h Hb. destruct fuel as [|fuel]; [cbn in Hf; lia|]. by eexists _, _.
  - cbn [length] in Hf. destruct fuel as [|[|fuel]]; [lia..|].
    destruct Hsel as [Hflat|[Hlist Hsubs]].
    { apply flat_total; [done|lia|]. apply IH. lia. }
    intros data definite h Hb. cbn [Apply]. cbv zeta. rw Hlist.
    match goal with |- context [each ?b ?xs (data, h)] =>
      destruct (each_returns b (λ dh, same_shape h dh.2) xs (data, h)) as ([d h'] & Heach & Hs) end.
    + intros sub [d h1] Hsub Hs1. cbn in Hs1.
      destruct (flat_total fuel sub rest) with (data := d) (definite := definite) (h := h1)
        as (v & h2 & Heq & Hs2); [by eapply Forall_forall|lia|by apply IH; lia|
          by eapply arrays_bounded_shape|].
      exists (v, h2). split; [exact Heq|]. by etransitivity.
    + done.
    + exists d, h'. split; [exact Heach|done].
Qed.
End termination.

Section apply_facts.
Context `{MapRange}.

(** C35: applying a path terminates: over any store, even one with shared or cyclic
    values, whose arrays have at most [N] elements, replacing by a given value along a path
    of names, ranges with a start that is not negative and a positive stride small enough
    not to overflow, lists of those, and [*] returns; no index is out of range; and arrays
    keep their lengths. *)
Theorem Apply_terminates (v0 : JVal) (N fuel : nat) path data definite h :
  Forall (steady_selector N) path → arrays_bounded N h → (2 * length path + N < fuel)%nat →
  ∃ v h', Apply fuel (replace_by v0) data path definite h = Returns (v, h') ∧ same_shape h h'.
Proof. intros Hp Hb Hf. by apply (steady_total v0 N fuel path). Qed.

(** A loop with stride 0 whose body does not end it. *)
Lemma range_loop_diverges {S} fuel (body : Z → S → Outcome S) (I : S → Prop) index limit s :
  index < limit → wrap_int index = index →
  (∀ s, I s → body index s = Diverges ∨ ∃ s', body index s = Returns s' ∧ I s') →
  I s → range_loop fuel body index limit 0 s = Diverges.
Proof.
  intros Hlt Hw Hbody. revert s. induction fuel as [|fuel IH]; intros s Hs; [done|].
  cbn [range_loop]. rw (proj2 (Z.ltb_lt _ _) Hlt) Z.add_0_r Hw.
  destruct (Hbody s Hs) as [-> |(s' & -> & Hs')]; [done|]. by apply IH.
Qed.

(** A stride of 0 is accepted by the parser, and applying such a path to a
    non-empty array never returns: no amount of fuel is enough. *)
Theorem zero_stride_diverges v0 l elt elts definite h :
  h !! l = Some (JArray (elt :: elts)) →
  let sel := rangeSelector (MkRange 0 None 0) in
  ParseAscii "$[0::0]" = Some ([sel], None) ∧
  ∀ fuel, Apply fuel (replace_by v0) (JRef l) [sel] definite h = Diverges.
Proof.
  intros Hl. split; [by vm_compute|]. intros [|fuel]; [done|]. cbn [Apply]. cbv zeta.
  cbn [selType rangeSelector selRange as_array]. rw Hl. cbn [range_limit rgAfterEnd rgStart rgStride].
  match goal with |- context [range_loop fuel ?b ?i ?lim 0 h] =>
    rw (range_loop_diverges fuel b (same_shape h) i lim h); [done| |done| |done] end.
  - cbn [length]. lia.
  - intros h1 Hs. destruct (shape_array h h1 l _ Hs Hl) as (elts' & Hl1 & Hlen).
    unfold get_elem. rw Hl1. cbn [Z.ltb Z.compare Z.to_nat]. destruct elts' as [|e elts']; [done|].
    destruct fuel as [|fuel]; [by left|]. right. cbn. eexists. split; [done|].
    etransitivity; [exact Hs|apply set_elem_shape].
Qed.

(** The first index of a range that is below the limit is an index of the array. *)
Lemma get_elem_start l elts r h :
  h !! l = Some (JArray elts) → 0 ≤ rgStart r → rgStart r < range_limit r (Z.of_nat (length elts)) →
  is_Some (get_elem l (rgStart r) h).
Proof.
  intros Hl Hs Hlim. unfold get_elem. rw Hl. rw (proj2 (Z.ltb_ge (rgStart r) 0) Hs).
  apply lookup_lt_is_Some. unfold range_limit in Hlim. repeat case_match; lia.
Qed.

(** A sum of two [int]s that is too large wraps around to a negative number. *)
Lemma wrap_int_overflow n : 2 ^ 63 ≤ n < 2 ^ 64 → wrap_int n < 0.
Proof.
  intros Hn. unfold wrap_int. replace (n + 2 ^ 63) with (n - 2 ^ 63 + 1 * 2 ^ 64) by lia.
  rw Z.mod_add; [|lia]. rw Z.mod_small; lia.
Qed.

(** C36: a range that selects some element of an array, and whose start and stride, each
    of which fits in [int], have a sum that does not, makes [Apply] panic: after the first
    element the index wraps around to a negative number, which is below the limit and out
    of range.  The parser accepts such ranges, for example [$[1::9223372036854775807]], which
    panics on every array of at least two elements. *)
Theorem huge_stride_panics v0 l elts r definite h fuel :
  h !! l = Some (JArray elts) → 0 ≤ rgStart r < range_limit r (Z.of_nat (length elts)) →
  rgStart r < 2 ^ 63 → rgStride r < 2 ^ 63 → 2 ^ 63 ≤ rgStart r + rgStride r → (3 ≤ fuel)%nat →
  Apply fuel (replace_by v0) (JRef l) [rangeSelector r] definite h = Panics ∧
  ParseAscii "$[1::9223372036854775807]"
    = Some ([rangeSelector (MkRange 1 None 9223372036854775807)], None).
Proof.
  intros Hl [Hs Hlim] Hs' Hst Hover Hf. split; [|by vm_compute].
  destruct fuel as [|[|[|fuel]]]; [lia..|].
  cbn [Apply]. cbv zeta. cbn [selType rangeSelector selRange as_array]. rw Hl.
  cbn [range_loop]. rw (proj2 (Z.ltb_lt (rgStart r) _) Hlim).
  destruct (get_elem_start l elts r h Hl Hs Hlim) as [elt ->]. cbn [mbind Outcome_bind replace_by].
  pose proof (wrap_int_overflow (rgStart r + rgStride r)) as Hw.
  rw (proj2 (Z.ltb_lt _ (range_limit r (Z.of_nat (length elts))))); [|lia]. by rw get_elem_neg; [|lia].
Qed.

(** ** Ranges *)

(** The index [i] is one of [index], [index + stride], ... below [limit]. *)
Definition selected (index limit stride : Z) (i : nat) : bool :=
  (index <=? Z.of_nat i) && (Z.of_nat i <? limit) && ((Z.of_nat i - index) mod stride =? 0).

Lemma selected_next index limit stride i :
  1 ≤ stride → index < limit →
  selected index limit stride i = (Z.of_nat i =? index) || selected (index + stride) limit stride i.
Proof.
  intros Hs Hlt. unfold selected. apply eq_bool_prop_intro.
  rw !Is_true_true !orb_true_iff !andb_true_iff !Z.leb_le !Z.ltb_lt !Z.eqb_eq. split.
  - intros [[Hle Hl] Hm]. destruct (decide (Z.of_nat i = index)) as [|Hne]; [by left|]. right.
    apply Z.mod_divide in Hm as [k Hk]; [|lia].
    assert (1 ≤ k) as Hk1 by nia. split_and!; [nia|done|].
    replace (Z.of_nat i - (index + stride)) with ((k - 1) * stride) by lia. apply Z.mod_mul. lia.
  - intros [<- |[[Hle Hl] Hm]].
    + rw Z.sub_diag. split_and!; [lia|done|]. apply Z.mod_0_l. lia.
    + apply Z.mod_divide in Hm as [k Hk]; [|lia]. split_and!; [lia|done|].
      replace (Z.of_nat i - index) with ((k + 1) * stride) by lia. apply Z.mod_mul. lia.
Qed.

(** The loop that [Apply] runs over an array for a final range selector. *)
Definition replace_elem (v : JVal) (l : loc) (i : Z) (h : Heap) : Outcome Heap :=
  match get_elem l i h with
  | None => Panics
  | Some _ => Returns (set_elem l (Z.to_nat i) v h)
  end.

Lemma replace_elem_in v l i elts h :
  h !! l = Some (JArray elts) → 0 ≤ i < Z.of_nat (length elts) →
  replace_elem v l i h = Returns (<[l:=JArray (<[Z.to_nat i:=v]> elts)]> h).
Proof.
  intros Hl Hi. unfold replace_elem, get_elem. rw Hl (proj2 (Z.ltb_ge i 0)); [|lia].
  destruct (lookup_lt_is_Some_2 elts (Z.to_nat i)) as [elt ->]; [lia|].
  f_equal. apply map_eq. intros l'. unfold set_elem. destruct (decide (l' = l)) as [->|Hne].
  - by rw lookup_alter_eq lookup_insert_eq Hl.
  - by rw lookup_alter_ne // lookup_insert_ne.
Qed.

Lemma replace_loop fuel v l index limit stride elts h :
  h !! l = Some (JArray elts) → 0 ≤ index → 1 ≤ stride → limit ≤ Z.of_nat (length elts) →
  limit + stride < 2 ^ 63 → limit - index < Z.of_nat fuel → (1 ≤ fuel)%nat →
  ∃ elts', range_loop fuel (replace_elem v l) index limit stride h = Returns (<[l:=JArray elts']> h) ∧
    ∀ i, elts' !! i = if selected index limit stride i then Some v else elts !! i.
Proof.
  revert index elts h. induction fuel as [|fuel IH]; intros index elts h Hl Hi Hs Hlim Hmax Hf H1; [lia|].
  cbn [range_loop]. destruct (index <? limit) eqn:Hlt.
  - apply Z.ltb_lt in Hlt. rw (replace_elem_in v l index elts h Hl); [|lia]. cbn [mbind Outcome_bind].
    rw wrap_int_id; [|lia].
    destruct (IH (index + stride) (<[Z.to_nat index:=v]> elts)
      (<[l:=JArray (<[Z.to_nat index:=v]> elts)]> h)) as (elts' & -> & Hsel).
    + by rw lookup_insert_eq.
    + lia.
    + done.
    + by rw length_insert.
    + done.
    + lia.
    + lia.
    + rw insert_insert_eq. exists elts'. split; [done|]. intros i. rw Hsel (selected_next index) //.
      destruct (selected (index + stride) limit stride i); [by rw orb_true_r|]. rw orb_false_r.
      destruct (Z.of_nat i =? index) eqn:Hii.
      * apply Z.eqb_eq in Hii. subst index. rw Nat2Z.id list_lookup_insert_eq //. lia.
      * apply Z.eqb_neq in Hii. rw list_lookup_insert_ne //. lia.
  - apply Z.ltb_ge in Hlt. exists elts. rw insert_id //. split; [done|]. intros i.
    unfold selected. rw (andb_comm (index <=? _)).
    destruct (Z.of_nat i <? limit) eqn:Hil; [|done]. apply Z.ltb_lt in Hil.
    by rw (proj2 (Z.leb_gt index (Z.of_nat i))); [|lia].
Qed.

(** A path that ends in a range [start:afterEnd:stride] replaces exactly the
    elements at [start], [start + stride], ... below both [afterEnd] and the length of
    the array; the other elements and the rest of the store stay as they are. *)
Theorem Apply_range_replaces v l elts r definite h fuel :
  h !! l = Some (JArray elts) → 0 ≤ rgStart r → 1 ≤ rgStride r →
  Z.of_nat (length elts) + rgStride r < 2 ^ 63 → (S (length elts) < fuel)%nat →
  ∃ elts', Apply fuel (replace_by v) (JRef l) [rangeSelector r] definite h
      = Returns (JRef l, <[l:=JArray elts']> h) ∧
    ∀ i, elts' !! i = if selected (rgStart r) (range_limit r (Z.of_nat (length elts))) (rgStride r) i
                      then Some v else elts !! i.
Proof.
  intros Hl Hst Hs Hmax Hf. destruct fuel as [|[|fuel]]; [lia..|]. cbn [Apply]. cbv zeta.
  cbn [selType rangeSelector selRange as_array]. rw Hl.
  assert (range_limit r (Z.of_nat (length elts)) ≤ Z.of_nat (length elts)) as Hlim.
  { unfold range_limit. repeat case_match; lia. }
  destruct (replace_loop (S fuel) v l (rgStart r) (range_limit r (Z.of_nat (length elts))) (rgStride r)
    elts h Hl) as (elts' & Hloop & Hsel); [lia..|].
  exists elts'. split; [|done].
  match goal with |- context [range_loop (S fuel) ?b] => change b with (replace_elem v l) end.
  by rw Hloop.
Qed.

(** ** Names *)

(** From the object [l], following the members [names], one gets to the object
    [last], and not through the member [name] of [last]. *)
Fixpoint member_chain (h : Heap) (l : loc) (names : list string) (last : loc) (name : string) : Prop :=
  match names with
  | [] => l = last
  | n :: names =>
      (l, n) ≠ (last, name) ∧
      ∃ m l', h !! l = Some (JObject m) ∧ m !! n = Some (JRef l') ∧
        member_chain h l' names last name
  end.

(** Writing back the reference that is there changes nothing. *)
Lemma set_member_back l n l' last name v m h :
  (l, n) ≠ (last, name) → h !! l = Some (JObject m) → m !! n = Some (JRef l') →
  set_member l n (JRef l') (set_member last name v h) = set_member last name v h.
Proof.
  intros Hne Hl Hm. apply map_eq. intros k. unfold set_member at 1.
  destruct (decide (k = l)) as [->|Hk]; [|by rw lookup_alter_ne].
  rw lookup_alter_eq. unfold set_member. destruct (decide (l = last)) as [->|Hll].
  - rw lookup_alter_eq Hl. cbn. do 2 f_equal. apply insert_id.
    rw lookup_insert_ne //. congruence.
  - rw lookup_alter_ne // Hl. cbn. do 2 f_equal. by apply insert_id.
Qed.

(** What happens at the end of a chain of names is all that happens. *)
Lemma Apply_chain fuel fn names rest l last name x h :
  member_chain h l names last name →
  Apply fuel fn (JRef last) rest true h = Returns (JRef last, set_member last name x h) →
  Apply (length names + fuel) fn (JRef l) ((nameSelector <$> names) ++ rest) true h
  = Returns (JRef l, set_member last name x h).
Proof.
  revert l. induction names as [|n names IH]; intros l Hc Hrest.
  { cbn in Hc. by subst l. }
  destruct Hc as (Hne & m & l' & Hl & Hm & Hc). specialize (IH l' Hc Hrest).
  cbn [length Nat.add Apply fmap list_fmap app]. cbv zeta.
  cbn [selType nameSelector selName as_object]. rw Hl. cbn [orb].
  assert (get_member l n h = JRef l') as -> by (unfold get_member; by rw Hl Hm).
  rw IH. cbn [mbind Outcome_bind]. by erewrite set_member_back.
Qed.

(** a definite path of names sets the named member: if the names lead from the
    root through objects to an object, then the member with the last name, new or
    old, is the given value afterwards, and nothing else in the store changes. *)
Theorem Apply_names_sets v names name l last m h fuel :
  member_chain h l names last name → h !! last = Some (JObject m) →
  Apply (length names + S (S fuel)) (replace_by v) (JRef l) (nameSelector <$> names ++ [name]) true h
  = Returns (JRef l, set_member last name v h).
Proof.
  intros Hc Hlast. rw fmap_app. apply Apply_chain; [done|]. cbn [fmap list_fmap Apply]. cbv zeta.
  cbn [selType nameSelector selName as_object]. by rw Hlast.
Qed.

(** a definite path of names does not create objects: if the names lead to an
    object that lacks the next member and the path goes on, then that member is
    introduced with the value null, and the value to place is dropped. *)
Theorem Apply_missing_prefix_null v names name more rest l last m h fuel :
  member_chain h l names last name → h !! last = Some (JObject m) → m !! name = None →
  Apply (length names + S (S fuel)) (replace_by v) (JRef l)
    ((nameSelector <$> names ++ [name; more]) ++ rest) true h
  = Returns (JRef l, set_member last name JNull h).
Proof.
  intros Hc Hlast Hname. rw fmap_app -app_assoc. apply Apply_chain; [done|].
  cbn [fmap list_fmap app Apply]. cbv zeta.
  cbn [selType nameSelector selName as_object]. rw Hlast. cbn [orb].
  assert (get_member last name h = JNull) as -> by (unfold get_member; by rw Hlast Hname). done.
Qed.
End apply_facts.

(** * Regions

    A region is a set of locations that refers to nothing outside itself. *)

Section regions.
Context `{MapRange} (R : loc → Prop).

Definition val_in (v : JVal) : Prop := match v with JRef l => R l | _ => True end.

Definition node_in (n : JNode) : Prop :=
  match n with
  | JArray elts => Forall val_in elts
  | JObject m => map_Forall (λ _, val_in) m
  end.

Definition region_closed (h : Heap) : Prop := ∀ l n, R l → h !! l = Some n → node_in n.

(** Only the region changes, and it stays closed. *)
Definition within (h h' : Heap) : Prop := (∀ l, ¬ R l → h' !! l = h !! l) ∧ region_closed h'.

Lemma within_refl h : region_closed h → within h h.
Proof. by split. Qed.

Lemma within_trans h1 h2 h3 : within h1 h2 → within h2 h3 → within h1 h3.
Proof. intros [H12 _] [H23 ?]. split; [|done]. intros l Hl. by rw H23 // H12. Qed.

Lemma set_member_within l name v h :
  R l → val_in v → region_closed h → within h (set_member l name v h).
Proof.
  intros Hl Hv Hc. unfold set_member. split.
  - intros l' Hl'. rw lookup_alter_ne //. by intros ->.
  - intros l' n Hl' Hn. destruct (decide (l' = l)) as [->|Hne].
    + rw lookup_alter_eq in Hn. apply fmap_Some in Hn as (n0 & Hn0 & ->). specialize (Hc l n0 Hl Hn0).
      destruct n0 as [elts|m]; [done|]. cbn in *. by apply map_Forall_insert_2.
    + rw lookup_alter_ne // in Hn. by eapply Hc.
Qed.

Lemma set_elem_within l i v h :
  R l → val_in v → region_closed h → within h (set_elem l i v h).
Proof.
  intros Hl Hv Hc. unfold set_elem. split.
  - intros l' Hl'. rw lookup_alter_ne //. by intros ->.
  - intros l' n Hl' Hn. destruct (decide (l' = l)) as [->|Hne].
    + rw lookup_alter_eq in Hn. apply fmap_Some in Hn as (n0 & Hn0 & ->). specialize (Hc l n0 Hl Hn0).
      destruct n0 as [elts|m]; [|done]. cbn in *. by apply Forall_insert.
    + rw lookup_alter_ne // in Hn. by eapply Hc.
Qed.

Lemma get_member_in l name h : R l → region_closed h → val_in (get_member l name h).
Proof.
  intros Hl Hc. unfold get_member. destruct (h !! l) as [[|m]|] eqn:Hh; try done.
  specialize (Hc l _ Hl Hh). cbn in Hc. destruct (m !! name) as [v|] eqn:Hm; [|done].
  exact (Hc name v Hm).
Qed.

Lemma get_elem_in l i h v : R l → region_closed h → get_elem l i h = Some v → val_in v.
Proof.
  intros Hl Hc. unfold get_elem. destruct (h !! l) as [[elts|]|] eqn:Hh; try done.
  specialize (Hc l _ Hl Hh). cbn in Hc. case_match; [done|]. intros Hv. by eapply Forall_lookup_1.
Qed.

Lemma each_within {X} (body : X → Heap → Outcome Heap) xs h h' :
  (∀ x h h', region_closed h → body x h = Returns h' → within h h') →
  region_closed h → each body xs h = Returns h' → within h h'.
Proof.
  intros Hbody. revert h. induction xs as [|x xs IH]; intros h Hc; cbn [each].
  - intros [= <-]. by apply within_refl.
  - destruct (body x h) as [h1| |] eqn:Hb; try done. cbn. intros Hgo.
    pose proof (Hbody _ _ _ Hc Hb) as Hw. eapply within_trans; [exact Hw|]. apply IH; [apply Hw|done].
Qed.

Lemma range_loop_within fuel (body : Z → Heap → Outcome Heap) i limit stride h h' :
  (∀ x h h', region_closed h → body x h = Returns h' → within h h') →
  region_closed h → range_loop fuel body i limit stride h = Returns h' → within h h'.
Proof.
  intros Hbody. revert i h. induction fuel as [|fuel IH]; intros i h Hc; cbn [range_loop]; [done|].
  case_match; [|intros [= <-]; by apply within_refl].
  destruct (body i h) as [h1| |] eqn:Hb; try done. cbn. intros Hgo.
  pose proof (Hbody _ _ _ Hc Hb) as Hw. eapply within_trans; [exact Hw|].
  eapply IH; [apply Hw|done].
Qed.

Lemma as_array_in data h l elts : val_in data → as_array data h = Some (l, elts) → R l.
Proof. destruct data; cbn; try done. repeat case_match; naive_solver. Qed.

Lemma as_object_in data h l m : val_in data → as_object data h = Some (l, m) → R l.
Proof. destruct data; cbn; try done. repeat case_match; naive_solver. Qed.

Section apply_within.
Context (v0 : JVal) (Hv0 : val_in v0).

(** [Apply] from a value of the region, placing a value of the region. *)
Definition applies_within (fuel : nat) : Prop := ∀ data path definite h v h',
  val_in data → region_closed h →
  Apply fuel (replace_by v0) data path definite h = Returns (v, h') → val_in v ∧ within h h'.

Lemma at_elem_within fuel path definite l i h h' :
  applies_within fuel → R l → region_closed h →
  match get_elem l i h with
  | None => Panics
  | Some elt =>
      '(v, h) ← Apply fuel (replace_by v0) elt path definite h;
      Returns (set_elem l (Z.to_nat i) v h)
  end = Returns h' → within h h'.
Proof.
  intros IH Hl Hc. destruct (get_elem l i h) as [elt|] eqn:He; [|done].
  pose proof (get_elem_in _ _ _ _ Hl Hc He) as Hin.
  destruct (Apply fuel (replace_by v0) elt path definite h) as [[v h1]| |] eqn:Ha; try done. cbn.
  destruct (IH _ _ _ _ _ _ Hin Hc Ha) as [Hv Hw]. intros [= <-]. eapply within_trans; [exact Hw|].
  apply set_elem_within; [done|done|apply Hw].
Qed.

Lemma at_member_within fuel path definite l name h h' :
  applies_within fuel → R l → region_closed h →
  ('(v, h) ← Apply fuel (replace_by v0) (get_member l name h) path definite h;
   Returns (set_member l name v h)) = Returns h' → within h h'.
Proof.
  intros IH Hl Hc. pose proof (get_member_in l name h Hl Hc) as Hin.
  destruct (Apply fuel (replace_by v0) _ path definite h) as [[v h1]| |] eqn:Ha; try done. cbn.
  destruct (IH _ _ _ _ _ _ Hin Hc Ha) as [Hv Hw]. intros [= <-]. eapply within_trans; [exact Hw|].
  apply set_member_within; [done|done|apply Hw].
Qed.

Lemma at_children_within fuel path data h h' :
  applies_within fuel → val_in data → region_closed h →
  match as_array data h, as_object data h with
  | Some (l, elts), _ =>
      each (λ i h,
        match get_elem l (Z.of_nat i) h with
        | None => Panics
        | Some elt =>
            '(v, h) ← Apply fuel (replace_by v0) elt path false h;
            Returns (set_elem l (Z.to_nat (Z.of_nat i)) v h)
        end) (seq 0 (length elts)) h
  | None, Some (l, m) =>
      each (λ key h,
        '(v, h) ← Apply fuel (replace_by v0) (get_member l key h) path false h;
        Returns (set_member l key v h)) (map_range m).*1 h
  | None, None => Returns h
  end = Returns h' → within h h'.
Proof.
  intros IH Hd Hc. destruct (as_array data h) as [[l elts]|] eqn:Ha.
  - apply as_array_in in Ha; [|done]. apply each_within; [|done]. intros i h1 h2.
    by apply at_elem_within.
  - destruct (as_object data h) as [[l m]|] eqn:Ho; [|intros [= <-]; by apply within_refl].
    apply as_object_in in Ho; [|done]. apply each_within; [|done]. intros key h1 h2.
    by apply at_member_within.
Qed.

Lemma Apply_within fuel : applies_within fuel.
Proof.
  induction fuel as [|fuel IH]; intros data path definite h v h' Hd Hc; [done|].
  cbn [Apply]. cbv zeta. destruct path as [|sel rest].
  { intros [= <- <-]. split; [done|by apply within_refl]. }
  destruct (selType sel).
  - destruct (as_object data h) as [[l m]|] eqn:Ho;
      [|intros [= <- <-]; split; [done|by apply within_refl]].
    apply as_object_in in Ho; [|done]. destruct (definite || _);
      [|intros [= <- <-]; split; [done|by apply within_refl]].
    first_step [h1| |] Hm. intros [= <- <-]. split; [done|].
    by eapply at_member_within.
  - destruct (selRange sel) as [r|];
      [|destruct (definite || _); [done|intros [= <- <-]; split; [done|by apply within_refl]]].
    destruct (as_array data h) as [[l elts]|] eqn:Ha;
      [|intros [= <- <-]; split; [done|by apply within_refl]].
    apply as_array_in in Ha; [|done].
    first_step [h1| |] Hm. intros [= <- <-]. split; [done|].
    eapply range_loop_within; [|done|exact Hm]. intros i h2 h3. by apply at_elem_within.
  - intros Heach. assert (∀ subs d h1, val_in d → region_closed h1 →
      each (λ sub '(data, h), Apply fuel (replace_by v0) data (sub :: rest) definite h) subs (d, h1)
      = Returns (v, h') → val_in v ∧ within h1 h') as Hsubs; [|by eapply Hsubs].
    clear Heach data h Hd Hc. induction subs as [|sub subs IHs]; intros d h1 Hd Hc; cbn [each].
    { intros [= <- <-]. split; [done|by apply within_refl]. }
    destruct (Apply fuel (replace_by v0) d (sub :: rest) definite h1) as [[v1 h2]| |] eqn:Ha; try done. cbn.
    destruct (IH _ _ _ _ _ _ Hd Hc Ha) as [Hv1 Hw1]. intros Hgo.
    destruct (IHs v1 h2 Hv1) as [? ?]; [apply Hw1|done|]. split; [done|]. by eapply within_trans.
  - first_step [[v1 h1]| |] Ha. destruct (IH _ _ _ _ _ _ Hd Hc Ha) as [Hv1 Hw1].
    first_step [h2| |] Hm. intros [= <- <-].
    split; [done|]. eapply within_trans; [exact Hw1|]. eapply at_children_within; [done|done|apply Hw1|exact Hm].
  - first_step [h2| |] Hm. intros [= <- <-].
    split; [done|]. by eapply at_children_within.
Qed.
End apply_within.
End regions.
