(* ===== verification/Customize.v ===== *)
(** Customization of workload objects (pkg/customize/customize.go): expansion of
    parameters in strings, and replacement at JSONPath locations.

    Objects live in the store of JsonEval.v.  Parameters of the model: reading the
    annotations of an unstructured object, copying it deeply, and parsing a JSON text
    (encoding/json) into the store, with what the package relies on as the class
    [JsonLibrary]; and those of the lexer.  A run can diverge, as [Apply] can. *)

From Stdlib Require Import Ascii.
From Stdlib Require String.
From S2P Require Import Prelude GoStrings JsonLexer JsonPath JsonEval.

#[local] Open Scope Z_scope.

(** * Types *)

Definition ParameterExpansionAnnotationKey : string := "edge.kubestellar.io/expand-parameters".

Record Replacement : Set := MkReplacement { replPath : string; replValue : string }.

(** [Customizer] and [Location], reduced to what is read of them. *)
Record Customizer : Set := MkCustomizer {
  cuAnnotations : gmap string string;
  cuReplacements : list Replacement
}.

Record Location : Set := MkLocation {
  locLabels : gmap string string;
  locAnnotations : gmap string string
}.

Definition Definitions : Set := list (gmap string string).

Fixpoint Definitions_Get (defs : Definitions) (key : string) : option string :=
  match defs with
  | [] => None
  | def :: defs =>
      match def !! key with
      | Some val => Some val
      | None => Definitions_Get defs key
      end
  end.

(** * Expansion of parameters *)

(** Reads a name up to a closing parenthesis or the end; returns it and what is left. *)
Fixpoint readNameToReplace (fuel : nat) (input builder : string) : string * string :=
  match fuel with
  | O => (builder, input)
  | S fuel =>
      let '(next, _, err, input) := ReadRune input in
      if err : bool then (builder, input)
      else if next =? 41 then (builder, input)
      else readNameToReplace fuel input (builder +:+ EncodeRune next)
  end.

Fixpoint expandString_loop (fuel : nat) (input builder : string) (defs : Definitions) : string :=
  match fuel with
  | O => builder
  | S fuel =>
      let '(next, _, err, input) := ReadRune input in
      if err : bool then builder
      else if negb (next =? 37) then expandString_loop fuel input (builder +:+ EncodeRune next) defs
      else
        let '(next, _, err, input) := ReadRune input in
        if err : bool then builder +:+ "%"
        else if negb (next =? 40) then
          expandString_loop fuel input (builder +:+ "%" +:+ EncodeRune next) defs
        else
          let '(name, input) := readNameToReplace (S (String.length input)) input "" in
          match Definitions_Get defs name with
          | Some replacement => expandString_loop fuel input (builder +:+ replacement) defs
          | None => expandString_loop fuel input (builder +:+ "%(" +:+ name +:+ ")") defs
          end
  end.

Definition expandString (input : string) (defs : Definitions) : string :=
  if negb (contains_byte "%" input) then input
  else expandString_loop (S (String.length input)) input "" defs.

Fixpoint expandParameters `{MapRange} (fuel : nat) (defs : Definitions) (data : JVal) (h : Heap)
  : Outcome (JVal * Heap) :=
  match fuel with
  | O => Diverges
  | S fuel =>
      match data with
      | JString typed => Returns (JString (expandString typed defs), h)
      | JRef l =>
          match h !! l with
          | Some (JObject m) =>
              h ← each (λ '(key, val) h,
                     '(newVal, h) ← expandParameters fuel defs val h;
                     Returns (set_member l key newVal h)) (map_range m) h;
              Returns (data, h)
          | Some (JArray elts) =>
              h ← each (λ idx h,
                     match get_elem l (Z.of_nat idx) h with
                     | None => Panics
                     | Some val =>
                         '(newVal, h) ← expandParameters fuel defs val h;
                         Returns (set_elem l idx newVal h)
                     end) (seq 0 (length elts)) h;
              Returns (data, h)
          | None => Returns (data, h)
          end
      | _ => Returns (data, h)
      end
  end.

(** * Customize *)

Section customize.
Context `{MapRange}.
Context (goja_Parse : string → string + list js_statement).
Context (nonascii_Is : UnicodeTable → Z → bool) (nonascii_IsDigit : Z → bool).
Context (GetAnnotations : JVal → Heap → gmap string string).
Context (DeepCopy : JVal → Heap → JVal * Heap).
Context (json_Unmarshal : string → Heap → option JVal * Heap).

(** One replacement: the object it is applied to, and the object that results. *)
Definition Customize_replacement (fuel : nat) (expandCustomizer : bool) (defs : Definitions)
  (repl : Replacement) (st : JVal * Heap) : Outcome (JVal * Heap) :=
  let '(outputU, h) := st in
  let where_ := if expandCustomizer then expandString (replPath repl) defs else replPath repl in
  match ParseString goja_Parse nonascii_Is nonascii_IsDigit where_ with
  | None => Diverges
  | Some (_, Some _) => Returns (outputU, h)
  | Some (jp, None) =>
      let valueStr := if expandCustomizer then expandString (replValue repl) defs else replValue repl in
      match json_Unmarshal valueStr h with
      | (None, h) => Returns (outputU, h)
      | (Some valueAny, h) =>
          '(outputAny, h) ← Apply fuel (replace_by valueAny) outputU jp true h;
          match as_object outputAny h with
          | Some _ => Returns (outputAny, h)
          | None => Returns (outputU, h)
          end
      end
  end.

Definition Customize (fuel : nat) (input : JVal) (customizer : option Customizer)
  (location : option Location) (h : Heap) : Outcome (JVal * Heap) :=
  let expandInput := bool_decide (GetAnnotations input h !! ParameterExpansionAnnotationKey = Some "true") in
  let expandCustomizer :=
    match customizer with
    | Some cu => bool_decide (cuAnnotations cu !! ParameterExpansionAnnotationKey = Some "true")
    | None => false
    end in
  if bool_decide (customizer = None) && negb expandInput then Returns (input, h)
  else
    let '(outputU, h) := DeepCopy input h in
    let defs :=
      match location with
      | Some location => [locLabels location; locAnnotations location]
      | None => []
      end in
    '(outputU, h) ←
      (if expandInput then
         '(outputA, h) ← expandParameters fuel defs outputU h;
         match as_object outputA h with
         | Some _ => Returns (outputA, h)
         | None => Panics
         end
       else Returns (outputU, h));
    match customizer with
    | Some cu =>
        each (Customize_replacement fuel expandCustomizer defs) (cuReplacements cu) (outputU, h)
    | None => Returns (outputU, h)
    end.
End customize.

Example expandString_samples :
  let defs : Definitions := [{["a" := "one"]}; {["a" := "two"; "b" := "B"]}] in
  expandString "x%(a)y%(b)%%(c)%" defs = "xoneyB%%(c)%" ∧
  expandString "%(a" defs = "one" ∧ expandString "100% sure" defs = "100% sure".
Proof. vm_compute. done. Qed.

(** * What expansion means *)

(** A string as a sequence of pieces: text, [%(name)], and a percent sign with the
    character after it. *)
Inductive piece : Set :=
| Text (runes : list Z)
| Param (name : list Z)
| Percent (r : Z).

Fixpoint encode_runes (runes : list Z) : string :=
  match runes with
  | [] => ""
  | r :: runes => EncodeRune r +:+ encode_runes runes
  end.

Definition render_piece (p : piece) : string :=
  match p with
  | Text runes => encode_runes runes
  | Param name => "%(" +:+ encode_runes name +:+ ")"
  | Percent r => "%" +:+ EncodeRune r
  end.

(** The first definition of a name replaces it; a name without one, and a percent
    sign that starts none, stay. *)
Definition expand_piece (defs : Definitions) (p : piece) : string :=
  match p with
  | Param name => default (render_piece p) (Definitions_Get defs (encode_runes name))
  | _ => render_piece p
  end.

Fixpoint concat_pieces (f : piece → string) (pieces : list piece) : string :=
  match pieces with
  | [] => ""
  | p :: pieces => f p +:+ concat_pieces f pieces
  end.

Definition piece_ok (p : piece) : Prop :=
  match p with
  | Text runes => Forall (λ r, rune_ok r ∧ r ≠ 37) runes
  | Param name => Forall (λ r, rune_ok r ∧ r ≠ 41) name
  | Percent r => rune_ok r ∧ r ≠ 40
  end.

Lemma readName_spec fuel name rest b :
  Forall (λ r, rune_ok r ∧ r ≠ 41) name →
  (String.length (encode_runes name +:+ ")" +:+ rest) < fuel)%nat →
  readNameToReplace fuel (encode_runes name +:+ ")" +:+ rest) b = (b +:+ encode_runes name, rest).
Proof.
  intros Hn. revert fuel b. induction Hn as [|r name [Hr Hne] Hn IH]; intros fuel b Hf;
    (destruct fuel as [|fuel]; [lia|]); cbn [encode_runes readNameToReplace] in *.
  - by rw str_app_nil.
  - rw str_app_assoc in Hf |- *. rw ReadRune_Encode //. rw (proj2 (Z.eqb_neq r 41) Hne).
    rw IH; [by rw str_app_assoc|]. rw str_length_app in Hf. pose proof (EncodeRune_nonempty r). lia.
Qed.

Lemma expand_text fuel runes rest b defs :
  Forall (λ r, rune_ok r ∧ r ≠ 37) runes →
  (String.length (encode_runes runes +:+ rest) < fuel)%nat →
  ∃ fuel', (String.length rest < fuel')%nat ∧
    expandString_loop fuel (encode_runes runes +:+ rest) b defs
    = expandString_loop fuel' rest (b +:+ encode_runes runes) defs.
Proof.
  intros Hn. revert fuel b. induction Hn as [|r runes [Hr Hne] Hn IH]; intros fuel b Hf.
  - exists fuel. by rw str_app_nil.
  - destruct fuel as [|fuel]; [lia|]. cbn [encode_runes expandString_loop] in *.
    rw str_app_assoc in Hf |- *. rw ReadRune_Encode //. rw (proj2 (Z.eqb_neq r 37) Hne). cbn [negb].
    destruct (IH fuel (b +:+ EncodeRune r)) as (fuel' & Hf' & ->).
    { rw str_length_app in Hf. pose proof (EncodeRune_nonempty r). lia. }
    exists fuel'. split; [done|]. by rw str_app_assoc.
Qed.

Lemma expand_loop_spec fuel pieces b defs :
  Forall piece_ok pieces → (String.length (concat_pieces render_piece pieces) < fuel)%nat →
  expandString_loop fuel (concat_pieces render_piece pieces) b defs
  = b +:+ concat_pieces (expand_piece defs) pieces.
Proof.
  intros Hp. revert fuel b. induction Hp as [|p pieces Hok Hp IH]; intros fuel b Hf.
  { destruct fuel as [|fuel]; [cbn in Hf; lia|]. by rw str_app_nil. }
  cbn [concat_pieces] in *. destruct p as [runes|name|r]; cbn [render_piece expand_piece piece_ok] in *.
  - destruct (expand_text fuel runes (concat_pieces render_piece pieces) b defs Hok Hf)
      as (fuel' & Hf' & ->). rw (IH fuel' _ Hf'). by rw str_app_assoc.
  - destruct fuel as [|fuel]; [lia|]. cbn [expandString_loop].
    assert (("%(" +:+ encode_runes name +:+ ")") +:+ concat_pieces render_piece pieces
      = String "%" (String "(" (encode_runes name +:+ ")" +:+ concat_pieces render_piece pieces))) as Heq.
    { by rw !str_app_assoc. }
    rw Heq in Hf |- *. cbn [String.length] in Hf. rw ReadRune_ascii //. cbn [negb].
    change (negb (code "%" =? 37)) with false. cbv iota. rw ReadRune_ascii //.
    change (negb (code "(" =? 40)) with false. cbv iota.
    rw readName_spec; [|done|lia]. cbv iota beta. change ("" +:+ encode_runes name) with (encode_runes name).
    rw !str_length_app in Hf. cbn in Hf.
    destruct (Definitions_Get defs (encode_runes name)) as [repl|]; cbn [default].
    + rw IH; [by rw str_app_assoc|lia].
    + rw IH; [|lia]. by rw str_app_assoc.
  - destruct Hok as [Hr Hne]. destruct fuel as [|fuel]; [lia|]. cbn [expandString_loop].
    rw str_app_assoc in Hf |- *. change ("%" +:+ ?s) with (String "%" s).
    rw ReadRune_ascii //. change (negb (code "%" =? 37)) with false. cbv iota.
    rw ReadRune_Encode // (proj2 (Z.eqb_neq r 40) Hne). cbn [negb].
    rw !str_length_app in Hf. cbn in Hf. rw IH; [|lia]. by rw !str_app_assoc.
Qed.

Lemma contains_byte_app c s t : contains_byte c (s +:+ t) = contains_byte c s || contains_byte c t.
Proof.
  induction s as [|a s IH]; [done|]. rw str_cons_app. cbn. by destruct (ascii_dec a c).
Qed.

(** Without a percent sign there is nothing to expand. *)
Lemma expand_plain pieces defs :
  contains_byte "%" (concat_pieces render_piece pieces) = false →
  concat_pieces (expand_piece defs) pieces = concat_pieces render_piece pieces.
Proof.
  induction pieces as [|p pieces IH]; [done|]. cbn [concat_pieces]. rw contains_byte_app.
  intros [Hp Hps]%orb_false_iff. rw IH //. by destruct p.
Qed.

(** Parameter expansion: in a string of pieces, each [%(name)] is replaced by the
    first definition of the name, labels before annotations, or stays when there is
    none, and everything else stays, [%%] included (the API documentation says that
    [%%] becomes [%]); whatever Unicode text the pieces hold. *)
Theorem expandString_spec pieces defs :
  Forall piece_ok pieces →
  expandString (concat_pieces render_piece pieces) defs = concat_pieces (expand_piece defs) pieces.
Proof.
  intros Hp. unfold expandString. destruct (contains_byte "%" _) eqn:Hc; cbn [negb].
  - rw (expand_loop_spec _ _ "") //. lia.
  - by rw expand_plain.
Qed.

(** * What Customize may touch *)

(** [fresh_value h v h']: from the store [h], the value [v] was built in new
    locations only, and shares nothing with [h]. *)
Definition fresh_value (h : Heap) (v : JVal) (h' : Heap) : Prop :=
  let new l := h !! l = None in
  val_in new v ∧ within new h h'.

(** What the package relies on: a deep copy and an unmarshalled value are new, and
    whether a text is JSON depends on the text only. *)
Class JsonLibrary (DeepCopy : JVal → Heap → JVal * Heap)
  (json_Unmarshal : string → Heap → option JVal * Heap) : Prop := {
  deepcopy_fresh : ∀ v h, fresh_value h (DeepCopy v h).1 (DeepCopy v h).2;
  unmarshal_fresh : ∀ s h v h', json_Unmarshal s h = (Some v, h') → fresh_value h v h';
  unmarshal_error : ∀ s h h', (json_Unmarshal s h).1 = None → json_Unmarshal s h' = (None, h')
}.

Section customize_facts.
Context `{MapRange}.
Context (goja_Parse : string → string + list js_statement).
Context (nonascii_Is : UnicodeTable → Z → bool) (nonascii_IsDigit : Z → bool).
Context (GetAnnotations : JVal → Heap → gmap string string).
Context (DeepCopy : JVal → Heap → JVal * Heap).
Context (json_Unmarshal : string → Heap → option JVal * Heap).
Context `{Hlib : !JsonLibrary DeepCopy json_Unmarshal}.

Abbreviation replacement := (Customize_replacement goja_Parse nonascii_Is nonascii_IsDigit json_Unmarshal).
Abbreviation customized := (Customize goja_Parse nonascii_Is nonascii_IsDigit GetAnnotations DeepCopy
  json_Unmarshal).

(** A new value belongs to every region that holds all the new locations. *)
Lemma fresh_in_region (R : loc → Prop) h v h' :
  (∀ l, h !! l = None → R l) → region_closed R h → fresh_value h v h' →
  val_in R v ∧ within R h h'.
Proof.
  clear Hlib. intros HR Hc [Hv [Hsame Hnew]].
  assert (∀ v, val_in (λ l, h !! l = None) v → val_in R v) as Hval by (by intros []; cbn; auto).
  split; [by apply Hval|]. split.
  - intros l Hl. apply Hsame. by intros ?%HR.
  - intros l n Hl Hn. destruct (h !! l) as [n0|] eqn:Hh.
    + rw Hsame in Hn; [|congruence]. eapply Hc; [done|]. congruence.
    + specialize (Hnew l n Hh Hn). destruct n as [elts|m]; cbn in *.
      * eapply Forall_impl; [exact Hnew|done].
      * eapply map_Forall_impl; [exact Hnew|]. intros ? ?. apply Hval.
Qed.

Lemma expandParameters_within (R : loc → Prop) fuel defs data h v h' :
  val_in R data → region_closed R h → expandParameters fuel defs data h = Returns (v, h') →
  val_in R v ∧ within R h h'.
Proof.
  clear Hlib. revert data h v h'. induction fuel as [|fuel IH]; intros data h v h' Hd Hc; [done|].
  cbn [expandParameters]. destruct data as [| | | |l];
    try (intros [= <- <-]; split; [done|by apply within_refl]).
  destruct (h !! l) as [[elts|m]|] eqn:Hl; [| |intros [= <- <-]; split; [done|by apply within_refl]].
  - first_step [h1| |] Hm. intros [= <- <-]. split; [done|]. eapply each_within; [|done|exact Hm].
    intros i h2 h3 Hc2. cbv beta. destruct (get_elem l (Z.of_nat i) h2) as [val|] eqn:He; [|done].
    first_step [[v1 h4]| |] Hv. intros [= <-].
    destruct (IH _ _ _ _ (get_elem_in _ _ _ _ _ Hd Hc2 He) Hc2 Hv) as [? Hw].
    eapply within_trans; [exact Hw|]. apply set_elem_within; [done|done|apply Hw].
  - first_step [h1| |] Hm. intros [= <- <-]. split; [done|].
    assert (∀ kvs h1 h2, (∀ kv, kv ∈ kvs → val_in R kv.2) → region_closed R h1 →
      each (λ '(key, val) h,
        '(newVal, h) ← expandParameters fuel defs val h;
        Returns (set_member l key newVal h)) kvs h1 = Returns h2 → within R h1 h2) as Hgo.
    { clear h1 Hm. induction kvs as [|[k v] kvs IHk]; intros h1 h2 Hk Hc1; cbn [each].
      { intros [= <-]. by apply within_refl. }
      destruct (expandParameters fuel defs v h1) as [[nv h3]| |] eqn:Hv; try done. cbn.
      destruct (IH _ _ _ _ (Hk _ (list_elem_of_here _ _)) Hc1 Hv) as [? Hw]. intros Hgo.
      eapply within_trans; [exact Hw|].
      assert (within R h3 (set_member l k nv h3)) as Hw2 by (apply set_member_within; [done|done|apply Hw]).
      eapply within_trans; [exact Hw2|]. apply IHk; [|apply Hw2|done].
      intros kv Hkv. apply Hk. by right. }
    apply (Hgo _ _ _) in Hm; [done| |done]. intros [k x] Hin. rw map_range_perm in Hin.
    apply elem_of_map_to_list in Hin. specialize (Hc l _ Hd Hl). exact (Hc k x Hin).
Qed.

(** Within the locations that are new with respect to [h0]. *)
Abbreviation new h0 := (λ l, h0 !! l = None).

Lemma within_new h0 h l : within (new h0) h0 h → h !! l = None → h0 !! l = None.
Proof.
  clear Hlib. intros [Hs _] Hl. destruct (h0 !! l) as [n|] eqn:Hn; [|done].
  rw Hs in Hl; [congruence|]. by rw Hn.
Qed.

Lemma replacement_within h0 fuel ec defs repl out h out' h' :
  val_in (new h0) out → within (new h0) h0 h →
  replacement fuel ec defs repl (out, h) = Returns (out', h') →
  val_in (new h0) out' ∧ within (new h0) h0 h'.
Proof.
  intros Ho Hw. unfold Customize_replacement. cbv zeta.
  destruct (ParseString _ _ _ _) as [[jp [err|]]|]; [by intros [= <- <-]| |done].
  destruct (json_Unmarshal _ h) as [[v|] h1] eqn:Hu.
  - apply unmarshal_fresh in Hu. destruct (fresh_in_region (new h0) h v h1) as [Hv Hw1];
      [by intros l; apply within_new|apply Hw|done|].
    first_step [[oa h2]| |] Ha.
    destruct (Apply_within (new h0) v Hv _ _ _ _ _ _ _ Ho (proj2 Hw1) Ha) as [Hoa Hw2].
    intros Hres. assert (within (new h0) h0 h2) as Hw02.
    { eapply within_trans; [exact Hw|]. by eapply within_trans. }
    by destruct (as_object oa h2); injection Hres as <- <-.
  - pose proof (unmarshal_error _ h h (f_equal fst Hu)) as Hu2. rw Hu in Hu2. injection Hu2 as ->.
    by intros [= <- <-].
Qed.

(** C37: [Customize] never modifies its input: every array and object that existed
    before the call is unchanged after it, and the result is either the input itself
    or an object that shares nothing with what existed before. *)
Theorem Customize_preserves_input fuel input customizer location h out h' :
  customized fuel input customizer location h = Returns (out, h') →
  (∀ l, is_Some (h !! l) → h' !! l = h !! l) ∧
  (out = input ∨ val_in (new h) out ∧ region_closed (new h) h').
Proof.
  unfold Customize. cbv zeta. destruct (_ && _); [intros [= <- <-]; by split; [|left]|].
  pose proof (deepcopy_fresh input h) as [Hv Hw]. destruct (DeepCopy input h) as [o1 h1].
  cbn [fst snd] in Hv, Hw.
  assert (∀ o2 h2, val_in (new h) o2 → within (new h) h h2 →
    (match customizer with
     | Some cu => each (replacement fuel
         (bool_decide (cuAnnotations cu !! ParameterExpansionAnnotationKey = Some "true"))
         (match location with Some location => [locLabels location; locAnnotations location] | None => [] end))
         (cuReplacements cu) (o2, h2)
     | None => Returns (o2, h2)
     end) = Returns (out, h') → val_in (new h) out ∧ within (new h) h h') as Hrepl.
  { intros o2 h2 Ho2 Hw2. destruct customizer as [[ann repls]|]; [|by intros [= <- <-]]. cbn [cuReplacements].
    revert o2 h2 Ho2 Hw2. induction repls as [|r repls IH]; intros o2 h2 Ho2 Hw2; cbn [each];
      [by intros [= <- <-]|].
    first_step [[o3 h3]| |] Hr. apply replacement_within with (h0 := h) in Hr as [? ?]; [|done|done].
    by apply IH. }
  first_step [[o2 h2]| |] He.
  intros Hgo. destruct (Hrepl o2 h2) as [Hout [Hsame Hclosed]].
  - case_bool_decide; [|by injection He as <- <-]. revert He. first_step [[oa ha]| |] Hx.
    destruct (expandParameters_within (new h) _ _ _ _ _ _ Hv (proj2 Hw) Hx) as [? ?].
    destruct (as_object oa ha); [|done]. by intros [= <- <-].
  - case_bool_decide; [|by injection He as <- <-]. revert He. first_step [[oa ha]| |] Hx.
    destruct (expandParameters_within (new h) _ _ _ _ _ _ Hv (proj2 Hw) Hx) as [? ?].
    destruct (as_object oa ha); [|done]. intros [= <- <-]. by eapply within_trans.
  - by destruct customizer.
  - split; [|by right]. intros l [n Hn]. apply Hsame. by rw Hn.
Qed.

(** A replacement that can be used: its path parses and its value is JSON. *)
Definition usable (ec : bool) (defs : Definitions) (repl : Replacement) : Prop :=
  (∃ jp, ParseString goja_Parse nonascii_Is nonascii_IsDigit
     (if ec then expandString (replPath repl) defs else replPath repl) = Some (jp, None)) ∧
  is_Some (json_Unmarshal (if ec then expandString (replValue repl) defs else replValue repl) ∅).1.

(** a replacement with a malformed path or a malformed value is skipped, and only
    that one: a list of replacements has the effect of the usable ones among them. *)
Theorem Customize_skips_unusable fuel ec defs repls `{∀ r, Decision (usable ec defs r)} st :
  each (replacement fuel ec defs) repls st
  = each (replacement fuel ec defs) (filter (usable ec defs) repls) st.
Proof.
  revert st. induction repls as [|r repls IH]; intros [out h]; [done|].
  destruct (decide (usable ec defs r)) as [Hu|Hu].
  { rw filter_cons_True //. cbn [each]. destruct (replacement fuel ec defs r (out, h)); [apply IH|done..]. }
  rw filter_cons_False // -IH. cbn [each].
  assert (replacement fuel ec defs r (out, h) = Returns (out, h)) as ->; [|done].
  unfold Customize_replacement. cbv zeta.
  destruct (ParseString_returns goja_Parse nonascii_Is nonascii_IsDigit
    (if ec then expandString (replPath r) defs else replPath r)) as (jp & [err|] & Hp & _); rw Hp; [done|].
  destruct (json_Unmarshal (if ec then expandString (replValue r) defs else replValue r) ∅).1
    as [v|] eqn:Hv.
  - destruct Hu. split; [by exists jp|]. by rw Hv.
  - by rw (unmarshal_error _ _ h Hv).
Qed.
End customize_facts.
