(* ===== verification/Types.v ===== *)
(** The data exchanged by the parts of the placement translator: declarations.go,
    external-name.go and the two API structs they are built on
    (pkg/apis/edge/v2alpha1).

    [ObjectName], [NamespaceName] and UIDs are Go string types and so strings here. *)

From S2P Require Import Prelude Tuples.

(** * API structs *)

Record SinglePlacement : Set := MkSinglePlacement {
  spCluster : string;
  spLocationName : string;
  spSyncTargetName : string;
  spSyncTargetUID : string
}.

Record UpsyncSet : Set := MkUpsyncSet {
  usAPIGroup : string;
  usResources : list string;
  usNamespaces : list string;
  usNames : list string
}.

(** metav1.GroupResource *)
Record GroupResource : Set := MkGroupResource { grGroup : string; grResource : string }.

(** metav1.GroupVersionForDiscovery *)
Record GroupVersionForDiscovery : Set := MkGroupVersionForDiscovery {
  gvdGroupVersion : string;
  gvdVersion : string
}.

(** [SinglePlacementSlice], reduced to the field that the placement translator reads. *)
Record SinglePlacementSlice : Set := MkSinglePlacementSlice {
  spsDestinations : list SinglePlacement
}.

(** The result of an API call or of a lookup in the cache of an informer. *)
Inductive Lookup (A : Type) : Type :=
| Found (a : A)
| NotFound
| LookupError (e : string).
Arguments Found {_} _.
Arguments NotFound {_}.
Arguments LookupError {_} _.

(** * declarations.go *)

Definition ObjectName : Set := string.
Definition NamespaceName : Set := string.

Record ExternalName : Set := MkExternalName {
  enCluster : string;
  enName : ObjectName
}.

Record DistributionBits : Set := MkDistributionBits {
  dbReturnSingletonState : bool;
  dbCreateOnly : bool
}.

Record ProjectionModeKey : Set := MkProjectionModeKey {
  pmkGroupResource : GroupResource;
  pmkDestination : SinglePlacement
}.

Record ProjectionModeVal : Set := MkProjectionModeVal { pmvAPIVersion : string }.

Record ProjectionKey : Set := MkProjectionKey {
  pkGroupResource : GroupResource;
  pkDestination : SinglePlacement
}.

Record WorkloadPartDetails : Set := MkWorkloadPartDetails {
  wpdAPIVersion : string;
  wpdReturnSingletonState : bool;
  wpdCreateOnly : bool
}.

Definition WorkloadPartDetails_distributionBits (wpd : WorkloadPartDetails) : DistributionBits :=
  {| dbReturnSingletonState := wpdReturnSingletonState wpd; dbCreateOnly := wpdCreateOnly wpd |}.

Definition WorkloadPartDetails_setDistributionBits (wpd : WorkloadPartDetails)
  (bits : DistributionBits) : WorkloadPartDetails :=
  {| wpdAPIVersion := wpdAPIVersion wpd;
     wpdReturnSingletonState := dbReturnSingletonState bits;
     wpdCreateOnly := dbCreateOnly bits |}.

Definition NamespacedName : Type := Pair NamespaceName ObjectName.
Definition ExternalNamespacedName : Type := Triple string NamespaceName ObjectName.
Definition NamespacedDistributionTuple : Type := Pair ProjectionModeKey ExternalNamespacedName.
Definition NonNamespacedDistributionTuple : Type := Pair ProjectionModeKey ExternalName.
Definition WorkloadPartID : Type := Triple GroupResource NamespaceName ObjectName.
Definition NamespaceAndDestination : Type := Pair NamespaceName SinglePlacement.
Definition SourceAndDestination : Type := Pair string SinglePlacement.
Definition NamespacedJoinKeyLessnS : Type := Triple string GroupResource SinglePlacement.

Definition ResolvedWhere : Type := list SinglePlacementSlice.

Record APIGroupInfo : Set := MkAPIGroupInfo {
  agiVersions : list GroupVersionForDiscovery;
  agiPreferredVersion : GroupVersionForDiscovery
}.

Record ResourceDetails : Set := MkResourceDetails {
  rdNamespaced : bool;
  rdSupportsInformers : bool;
  rdPreferredVersion : string
}.

(** ** Resource modes *)

Definition PropagationMode : Set := string.
Definition ErrorInCenter : PropagationMode := "error".
Definition TolerateInCenter : PropagationMode := "tolerate".
Definition GoesToMailbox : PropagationMode := "tomail".
Definition GoesToEdge : PropagationMode := "propagate".

Definition NatureMode : Set := string.
Definition NaturalyDenatured : NatureMode := "NaturallyDenatured".
Definition NaturallyNatured : NatureMode := "NaturallyNatured".
Definition ForciblyDenatured : NatureMode := "ForciblyDenatured".

Record ResourceMode : Set := MkResourceMode {
  rmPropagationMode : PropagationMode;
  rmNatureMode : NatureMode;
  rmBuiltinToEdge : bool
}.

Definition DefaultResourceMode : ResourceMode :=
  {| rmPropagationMode := GoesToEdge;
     rmNatureMode := NaturalyDenatured;
     rmBuiltinToEdge := false |}.

(** The two methods panic ([None]) on a mode that is none of the constants. *)
Definition ResourceMode_GoesToMailbox (rscMode : ResourceMode) : option bool :=
  let mode := rmPropagationMode rscMode in
  if decide (mode = ErrorInCenter ∨ mode = TolerateInCenter) then Some false
  else if decide (mode = GoesToEdge ∨ mode = GoesToMailbox) then Some true
  else None.

Definition ResourceMode_GoesToEdge (rscMode : ResourceMode) : option bool :=
  let mode := rmPropagationMode rscMode in
  if decide (mode = ErrorInCenter ∨ mode = TolerateInCenter ∨ mode = GoesToMailbox)
  then Some false
  else if decide (mode = GoesToEdge) then Some true
  else None.

Definition MBspaceNameSep : string := "-mb-".

Definition SPMailboxWorkspaceName (sp : SinglePlacement) : string :=
  (spCluster sp +:+ MBspaceNameSep +:+ spSyncTargetUID sp)%string.

Definition GetNamespacesBuiltIntoEdgeClusters : gset string := {["default"]}.
Definition GetNamespacesBuiltIntoMailboxes : gset string := {["default"]}.

(** * Decidable equality and countability *)

#[export] Instance SinglePlacement_eq_dec : EqDecision SinglePlacement.
Proof. solve_decision. Defined.
#[export] Instance SinglePlacement_countable : Countable SinglePlacement.
Proof.
  refine (inj_countable'
    (λ s, (spCluster s, spLocationName s, spSyncTargetName s, spSyncTargetUID s))
    (λ p, MkSinglePlacement p.1.1.1 p.1.1.2 p.1.2 p.2) _).
  by intros [].
Defined.

#[export] Instance UpsyncSet_eq_dec : EqDecision UpsyncSet.
Proof. solve_decision. Defined.
#[export] Instance UpsyncSet_countable : Countable UpsyncSet.
Proof.
  refine (inj_countable' (λ s, (usAPIGroup s, usResources s, usNamespaces s, usNames s))
    (λ p, MkUpsyncSet p.1.1.1 p.1.1.2 p.1.2 p.2) _).
  by intros [].
Defined.

#[export] Instance GroupResource_eq_dec : EqDecision GroupResource.
Proof. solve_decision. Defined.
#[export] Instance GroupResource_countable : Countable GroupResource.
Proof.
  refine (inj_countable' (λ s, (grGroup s, grResource s)) (λ p, MkGroupResource p.1 p.2) _).
  by intros [].
Defined.

#[export] Instance GroupVersionForDiscovery_eq_dec : EqDecision GroupVersionForDiscovery.
Proof. solve_decision. Defined.
#[export] Instance SinglePlacementSlice_eq_dec : EqDecision SinglePlacementSlice.
Proof. solve_decision. Defined.
#[export] Instance ObjectName_eq_dec : EqDecision ObjectName := String.eq_dec.
#[export] Instance ObjectName_countable : Countable ObjectName := String.countable.
#[export] Instance NamespaceName_eq_dec : EqDecision NamespaceName := String.eq_dec.
#[export] Instance NamespaceName_countable : Countable NamespaceName := String.countable.

#[export] Instance NamespacedName_eq_dec : EqDecision NamespacedName := prod_eq_dec.
#[export] Instance NamespacedName_countable : Countable NamespacedName := prod_countable.

#[export] Instance ExternalName_eq_dec : EqDecision ExternalName.
Proof. solve_decision. Defined.
#[export] Instance ExternalName_countable : Countable ExternalName.
Proof.
  refine (inj_countable' (λ s, (enCluster s, enName s)) (λ p, MkExternalName p.1 p.2) _).
  by intros [].
Defined.

#[export] Instance DistributionBits_eq_dec : EqDecision DistributionBits.
Proof. solve_decision. Defined.

#[export] Instance ProjectionModeKey_eq_dec : EqDecision ProjectionModeKey.
Proof. solve_decision. Defined.
#[export] Instance ProjectionModeKey_countable : Countable ProjectionModeKey.
Proof.
  refine (inj_countable' (λ s, (pmkGroupResource s, pmkDestination s))
    (λ p, MkProjectionModeKey p.1 p.2) _).
  by intros [].
Defined.

#[export] Instance ProjectionModeVal_eq_dec : EqDecision ProjectionModeVal.
Proof. solve_decision. Defined.

#[export] Instance ProjectionKey_eq_dec : EqDecision ProjectionKey.
Proof. solve_decision. Defined.
#[export] Instance ProjectionKey_countable : Countable ProjectionKey.
Proof.
  refine (inj_countable' (λ s, (pkGroupResource s, pkDestination s))
    (λ p, MkProjectionKey p.1 p.2) _).
  by intros [].
Defined.

#[export] Instance WorkloadPartDetails_eq_dec : EqDecision WorkloadPartDetails.
Proof. solve_decision. Defined.
#[export] Instance WorkloadPartID_eq_dec : EqDecision WorkloadPartID := Triple_eq_dec.
#[export] Instance WorkloadPartID_countable : Countable WorkloadPartID := Triple_countable.
#[export] Instance ExternalNamespacedName_eq_dec : EqDecision ExternalNamespacedName :=
  Triple_eq_dec.
#[export] Instance ExternalNamespacedName_countable : Countable ExternalNamespacedName :=
  Triple_countable.
#[export] Instance NamespacedDistributionTuple_eq_dec : EqDecision NamespacedDistributionTuple :=
  prod_eq_dec.
#[export] Instance NamespacedDistributionTuple_countable : Countable NamespacedDistributionTuple :=
  prod_countable.
#[export] Instance NonNamespacedDistributionTuple_eq_dec :
  EqDecision NonNamespacedDistributionTuple := prod_eq_dec.
#[export] Instance NonNamespacedDistributionTuple_countable :
  Countable NonNamespacedDistributionTuple := prod_countable.

(** A resource that goes to the edge goes to the mailbox. *)
Lemma GoesToEdge_GoesToMailbox rscMode :
  ResourceMode_GoesToEdge rscMode = Some true → ResourceMode_GoesToMailbox rscMode = Some true.
Proof.
  unfold ResourceMode_GoesToEdge, ResourceMode_GoesToMailbox.
  repeat case_decide; naive_solver.
Qed.
