(* ===== verification/KbUser.v ===== *)
(** Names and space identifiers under kube-bind (pkg/kbuser): object_ids.go, which
    translates the names of cluster-scoped objects between the consumer's space and the
    provider's, and space_ids.go, which maintains the relation between kube-bind's
    identifiers of consumers and the identifiers of the underlying spaces.

    A method that panics on its argument returns [None].  The mutex of the relation is
    held during each operation, so operations do not interleave. *)

From Stdlib Require Import Ascii.
From Stdlib Require String.
From S2P Require Import Prelude GoStrings.

(** * object_ids.go *)

(** The parts of metav1.ObjectMeta that are read; a nil map reads as an empty one. *)
Record ObjectMeta : Type := MkObjectMeta {
  omName : string;
  omNamespace : string;
  omUID : string;
  omLabels : gmap string string;
  omAnnotations : gmap string string
}.

(** [s[key]] for a [map[string]string] *)
Definition get_string (m : gmap string string) (key : string) : string := default "" (m !! key).

(** strings.HasPrefix *)
Fixpoint HasPrefix (s prefix : string) {struct prefix} : bool :=
  match prefix, s with
  | EmptyString, _ => true
  | String a prefix, String b s => if ascii_dec a b then HasPrefix s prefix else false
  | String _ _, EmptyString => false
  end.

Definition cutPrefix (s sep : string) : string * bool :=
  if HasPrefix s sep then (str_drop (String.length sep) s, true) else (s, false).

Definition clusterNamespaceKey : string := "kube-bind.io/cluster-namespace".

Definition AnalyzeObject (obj : ObjectMeta) : string * string * option string :=
  let kbSpaceID := get_string (omAnnotations obj) clusterNamespaceKey in
  if bool_decide (kbSpaceID = "") then
    ("", "", Some "no 'kube-bind.io/cluster-namespace' annotation found")
  else if negb (bool_decide (omNamespace obj = "")) then
    ("", "", Some "object is namespaced-scoped and not cluster-scoped")
  else
    let '(name, ok) := cutPrefix (omName obj) (kbSpaceID +:+ "-") in
    if ok : bool then (name, kbSpaceID, None)
    else (name, kbSpaceID, Some "name does not have prefix for comsumer").

(** The object is [None] for a nil pointer, whose methods panic. *)
Definition AnalyzeClusterScopedObject (obj : option ObjectMeta)
  : option (string * string * option string) := AnalyzeObject <$> obj.

Definition ComposeClusterScopedName (kbSpaceID name : string) : string := kbSpaceID +:+ "-" +:+ name.

(** * space_ids.go *)

Definition KubeBindLabelName : string := "kubestellar.io/kube-bind-id".
Definition CMNamePrefix : string := "kbmap-".

(** The interface, as the methods of a relation at one time. *)
Record KubeBindSpaceRelation : Type := MkKubeBindSpaceRelation {
  SpaceIDToKubeBind : string → string;
  SpaceIDFromKubeBind : string → string
}.

(** Its promise: a 1:1 relation, with the empty string for no relationship. *)
Class KubeBindSpaceRelationOk (reln : KubeBindSpaceRelation) : Prop :=
  space_ids_one_to_one : ∀ spaceID kbSpaceID, spaceID ≠ "" → kbSpaceID ≠ "" →
    SpaceIDToKubeBind reln spaceID = kbSpaceID ↔ SpaceIDFromKubeBind reln kbSpaceID = spaceID.

(** The selector of the informer: only ConfigMaps with the label are received. *)
Definition tweakListOptions (labelSelector : string) : string :=
  if bool_decide (labelSelector = "") then KubeBindLabelName
  else labelSelector +:+ "," +:+ KubeBindLabelName.

Record kubeBindSpaceRelation : Type := MkkubeBindSpaceRelation {
  toKubeBind : gmap string string;
  fromKubeBind : gmap string string
}.

Definition NewKubeBindSpaceRelation : kubeBindSpaceRelation := MkkubeBindSpaceRelation ∅ ∅.

Definition kubeBindSpaceRelation_setMapping (newUnderID newKBSpaceID : string)
  (reln : kubeBindSpaceRelation) : kubeBindSpaceRelation :=
  let oldKBSpaceID := get_string (toKubeBind reln) newUnderID in
  if bool_decide (newKBSpaceID = oldKBSpaceID) then reln
  else if bool_decide (newKBSpaceID = "") then
    MkkubeBindSpaceRelation (delete newUnderID (toKubeBind reln))
      (delete oldKBSpaceID (fromKubeBind reln))
  else
    let oldUnderID := get_string (fromKubeBind reln) newKBSpaceID in
    let to := if bool_decide (oldUnderID = "") then toKubeBind reln
              else delete oldUnderID (toKubeBind reln) in
    let from := if bool_decide (oldKBSpaceID = "") then fromKubeBind reln
                else delete oldKBSpaceID (fromKubeBind reln) in
    MkkubeBindSpaceRelation (<[newUnderID:=newKBSpaceID]> to) (<[newKBSpaceID:=newUnderID]> from).

(** What an informer hands to its handlers. *)
Inductive InformerObject : Type :=
| AConfigMap (cm : ObjectMeta)
| DeletedFinalStateUnknown (obj : InformerObject)
| AnotherObject.

(** The test of the name and the rest of it. *)
Definition underID_of (cm : ObjectMeta) : option string :=
  if negb (HasPrefix (omName cm) CMNamePrefix)
     || (String.length (omName cm) <=? String.length CMNamePrefix + 1)%nat
  then None
  else Some (str_drop (String.length CMNamePrefix) (omName cm)).

Definition kubeBindSpaceRelation_OnAdd (obj : InformerObject) (reln : kubeBindSpaceRelation)
  : option kubeBindSpaceRelation :=
  match obj with
  | AConfigMap cm =>
      match underID_of cm with
      | None => Some reln
      | Some underID =>
          let kbSpaceID := get_string (omLabels cm) KubeBindLabelName in
          Some (kubeBindSpaceRelation_setMapping underID kbSpaceID reln)
      end
  | _ => None
  end.

Definition kubeBindSpaceRelation_OnUpdate (oldObj newObj : InformerObject) (reln : kubeBindSpaceRelation)
  : option kubeBindSpaceRelation := kubeBindSpaceRelation_OnAdd newObj reln.

Definition kubeBindSpaceRelation_OnDelete (obj : InformerObject) (reln : kubeBindSpaceRelation)
  : option kubeBindSpaceRelation :=
  let obj := match obj with DeletedFinalStateUnknown obj => obj | _ => obj end in
  match obj with
  | AConfigMap cm =>
      match underID_of cm with
      | None => Some reln
      | Some underID => Some (kubeBindSpaceRelation_setMapping underID "" reln)
      end
  | _ => None
  end.

Definition kubeBindSpaceRelation_SpaceIDToKubeBind (reln : kubeBindSpaceRelation) (spaceID : string)
  : string := get_string (toKubeBind reln) spaceID.

Definition kubeBindSpaceRelation_SpaceIDFromKubeBind (reln : kubeBindSpaceRelation) (kubeBindID : string)
  : string := get_string (fromKubeBind reln) kubeBindID.

(** A [*kubeBindSpaceRelation] as a [KubeBindSpaceRelation]. *)
Definition AsKubeBindSpaceRelation (reln : kubeBindSpaceRelation) : KubeBindSpaceRelation :=
  MkKubeBindSpaceRelation (kubeBindSpaceRelation_SpaceIDToKubeBind reln)
    (kubeBindSpaceRelation_SpaceIDFromKubeBind reln).

(** * Facts about names *)

Lemma HasPrefix_app s t : HasPrefix (s +:+ t) s = true.
Proof. induction s as [|a s IH]; [done|]. rw str_cons_app. cbn. by destruct (ascii_dec a a). Qed.

Lemma HasPrefix_drop s p : HasPrefix s p = true → s = p +:+ str_drop (String.length p) s.
Proof.
  revert s. induction p as [|a p IH]; intros s; [done|]. destruct s as [|b s]; [done|]. cbn.
  destruct (ascii_dec a b) as [-> |]; [|done]. intros Hp. rw str_cons_app.
  exact (f_equal (String b) (IH s Hp)).
Qed.

Lemma Compose_prefix kb name : ComposeClusterScopedName kb name = (kb +:+ "-") +:+ name.
Proof. unfold ComposeClusterScopedName. by rw str_app_assoc. Qed.

Lemma Analyze_spec obj name kb :
  AnalyzeObject obj = (name, kb, None) ↔
  omAnnotations obj !! clusterNamespaceKey = Some kb ∧ kb ≠ "" ∧ omNamespace obj = "" ∧
  omName obj = ComposeClusterScopedName kb name.
Proof.
  unfold AnalyzeObject, get_string. cbv zeta. rw Compose_prefix.
  destruct (omAnnotations obj !! clusterNamespaceKey) as [kb'|]; cbn [from_option]; unfold id;
    (case_bool_decide as Hkb; [split; [done|naive_solver]|]); [|naive_solver].
  unfold cutPrefix. case_bool_decide as Hns; cbn [negb]; [|split; [done|naive_solver]].
  destruct (HasPrefix (omName obj) (kb' +:+ "-")) eqn:Hp.
  - split.
    + intros [= <- <-]. split; [done|]. split; [done|]. split; [done|]. exact (HasPrefix_drop _ _ Hp).
    + intros ([= <-] & _ & _ & ->). by rw str_drop_app.
  - split; [done|]. intros ([= <-] & _ & _ & Heq). by rw Heq HasPrefix_app in Hp.
Qed.

(** translating names is a round trip: a provider's copy of a consumer's object, that
    is a cluster-scoped object annotated with a consumer, is analyzed as the consumer's
    name and the consumer, without error, exactly when its name is composed of them. *)
Theorem Analyze_Compose obj name kb :
  AnalyzeClusterScopedObject (Some obj) = Some (name, kb, None) ↔
  omAnnotations obj !! clusterNamespaceKey = Some kb ∧ kb ≠ "" ∧ omNamespace obj = "" ∧
  omName obj = ComposeClusterScopedName kb name.
Proof. rw -Analyze_spec. cbn. split; [by intros [= ->]|by intros ->]. Qed.

(** * The relation is 1:1 *)

Definition reln_wf (reln : kubeBindSpaceRelation) : Prop :=
  (∀ u k, toKubeBind reln !! u = Some k ↔ fromKubeBind reln !! k = Some u) ∧
  (∀ u k, toKubeBind reln !! u = Some k → u ≠ "" ∧ k ≠ "").

(** The specification of a change: a partial injection of spaces to consumers. *)
Definition spec_mapping (u k : string) (m : gmap string string) : gmap string string :=
  if decide (k = "") then delete u m else <[u:=k]> (filter (λ uk, uk.2 ≠ k) m).

Lemma get_string_Some m key v : v ≠ "" → get_string m key = v ↔ m !! key = Some v.
Proof. unfold get_string. intros Hv. destruct (m !! key); cbn; naive_solver. Qed.

Lemma get_string_empty reln u :
  reln_wf reln → get_string (toKubeBind reln) u = "" ↔ toKubeBind reln !! u = None.
Proof.
  intros [_ Hne]. unfold get_string. destruct (toKubeBind reln !! u) eqn:Hu; cbn; [|done].
  apply Hne in Hu. naive_solver.
Qed.

Lemma get_string_empty_from reln k :
  reln_wf reln → get_string (fromKubeBind reln) k = "" ↔ fromKubeBind reln !! k = None.
Proof.
  intros [Hinv Hne]. unfold get_string. destruct (fromKubeBind reln !! k) eqn:Hk; cbn; [|done].
  apply Hinv, Hne in Hk. naive_solver.
Qed.

Lemma wf_Ok reln : reln_wf reln → KubeBindSpaceRelationOk (AsKubeBindSpaceRelation reln).
Proof.
  intros [Hinv _] spaceID kbSpaceID Hs Hk. cbn.
  unfold kubeBindSpaceRelation_SpaceIDToKubeBind, kubeBindSpaceRelation_SpaceIDFromKubeBind.
  rw !get_string_Some //.
Qed.

(** What [setMapping] leaves in each direction. *)
Lemma setMapping_to u k reln u' :
  reln_wf reln → u ≠ "" →
  toKubeBind (kubeBindSpaceRelation_setMapping u k reln) !! u' = spec_mapping u k (toKubeBind reln) !! u'.
Proof.
  intros Hwf Hu. pose proof Hwf as [Hinv Hne]. unfold kubeBindSpaceRelation_setMapping, spec_mapping. cbv zeta.
  case_bool_decide as Hold; [|case_bool_decide as Hk].
  - destruct (decide (k = "")) as [-> |Hk].
    + symmetry in Hold. apply get_string_empty in Hold; [|done]. by rw delete_id.
    + symmetry in Hold. apply get_string_Some in Hold; [|done]. apply option_eq. intros k'.
      rw lookup_insert_Some map_lookup_filter_Some. cbn. split.
      * intros Hu'. destruct (decide (u = u')) as [-> |]; [naive_solver|]. right. split; [done|].
        split; [done|]. intros ->. apply Hinv in Hu', Hold. naive_solver.
      * naive_solver.
  - by destruct (decide (k = "")).
  - destruct (decide (k = "")) as [|_]; [done|]. cbn [toKubeBind]. apply option_eq. intros k'.
    rw !lookup_insert_Some map_lookup_filter_Some. cbn.
    case_bool_decide as Hfrom.
    + apply get_string_empty_from in Hfrom; [|done].
      assert (∀ x, toKubeBind reln !! x ≠ Some k) by (intros x Hx%Hinv; naive_solver). naive_solver.
    + rw lookup_delete_Some. apply not_eq_sym in Hfrom as Hf.
      destruct (fromKubeBind reln !! k) as [old|] eqn:Hk'; unfold get_string in Hfrom |- *; rw Hk' in Hfrom |- *;
        cbn in *; [|done]. apply Hinv in Hk'.
      split; [|naive_solver]. intros [?|(? & ? & Hx)]; [naive_solver|]. right. split; [done|]. split; [done|].
      intros ->. apply Hinv in Hx, Hk'. naive_solver.
Qed.

Lemma setMapping_from u k reln k' u' :
  reln_wf reln → u ≠ "" →
  fromKubeBind (kubeBindSpaceRelation_setMapping u k reln) !! k' = Some u' ↔
  k ≠ "" ∧ k' = k ∧ u' = u ∨ k' ≠ k ∧ u' ≠ u ∧ fromKubeBind reln !! k' = Some u'.
Proof.
  intros Hwf Hu. pose proof Hwf as [Hinv Hne]. unfold kubeBindSpaceRelation_setMapping. cbv zeta.
  assert (∀ x, fromKubeBind reln !! x = Some u ↔ x ≠ "" ∧ get_string (toKubeBind reln) u = x) as Hold.
  { intros x. rw -Hinv. split; [|by intros [? ?%get_string_Some]]. intros Hx. pose proof (Hne _ _ Hx) as [_ ?].
    split; [done|]. by apply get_string_Some. }
  assert (fromKubeBind reln !! "" = None) as Hfe.
  { destruct (fromKubeBind reln !! "") eqn:He; [|done]. apply Hinv, Hne in He. naive_solver. }
  remember (get_string (toKubeBind reln) u) as old eqn:Ho. clear Ho.
  assert (u' = u → fromKubeBind reln !! k' = Some u' → k' = old) as H1 by naive_solver.
  assert (k' = old → fromKubeBind reln !! k' = Some u' → u' = u) as H2.
  { intros -> Hx. destruct (decide (old = "")) as [-> |]; [by rw Hfe in Hx|].
    rw (proj2 (Hold old)) // in Hx. by injection Hx. }
  assert (old ≠ "" → u' = u → k' = old → fromKubeBind reln !! k' = Some u') as H3 by naive_solver.
  assert (fromKubeBind reln !! k' = Some u' → k' ≠ "") as H4 by (intros Hx ->; by rw Hfe in Hx).
  clear Hold Hfe Hwf Hinv Hne.
  case_bool_decide; [|case_bool_decide]; cbn [fromKubeBind].
  - destruct (decide (old = "")), (decide (k' = k)), (decide (u' = u)); naive_solver.
  - rw lookup_delete_Some. destruct (decide (k' = old)), (decide (u' = u)); naive_solver.
  - rw lookup_insert_Some. case_bool_decide; [|rw lookup_delete_Some];
      destruct (decide (k' = k)), (decide (k' = old)), (decide (u' = u)); naive_solver.
Qed.

Lemma setMapping_wf u k reln :
  reln_wf reln → u ≠ "" → reln_wf (kubeBindSpaceRelation_setMapping u k reln).
Proof.
  intros Hwf Hu. pose proof Hwf as [Hinv Hne].
  assert (∀ u' k', toKubeBind (kubeBindSpaceRelation_setMapping u k reln) !! u' = Some k' ↔
    k ≠ "" ∧ k' = k ∧ u' = u ∨ k' ≠ k ∧ u' ≠ u ∧ toKubeBind reln !! u' = Some k') as Hto.
  { intros u' k'. rw setMapping_to //. unfold spec_mapping. case_decide.
    - subst k. rw lookup_delete_Some. naive_solver.
    - rw lookup_insert_Some map_lookup_filter_Some. naive_solver. }
  split; intros u' k'.
  - rw Hto setMapping_from // Hinv. naive_solver.
  - rw Hto. naive_solver.
Qed.

(** * Sequences of events *)

Inductive CMEvent : Type :=
| CMAdded (cm : ObjectMeta)
| CMUpdated (oldCM cm : ObjectMeta)
| CMDeleted (cm : ObjectMeta) (tombstone : bool).

Definition handle_event (e : CMEvent) (reln : kubeBindSpaceRelation) : option kubeBindSpaceRelation :=
  match e with
  | CMAdded cm => kubeBindSpaceRelation_OnAdd (AConfigMap cm) reln
  | CMUpdated oldCM cm => kubeBindSpaceRelation_OnUpdate (AConfigMap oldCM) (AConfigMap cm) reln
  | CMDeleted cm tombstone =>
      kubeBindSpaceRelation_OnDelete
        (if tombstone then DeletedFinalStateUnknown (AConfigMap cm) else AConfigMap cm) reln
  end.

Fixpoint handle_events (es : list CMEvent) (reln : kubeBindSpaceRelation) : option kubeBindSpaceRelation :=
  match es with
  | [] => Some reln
  | e :: es => reln ← handle_event e reln; handle_events es reln
  end.

(** What an event says: nothing, or that a space has a consumer, or (with an empty
    identifier) none.  An identifier of a space has at least two characters. *)
Definition event_mapping (e : CMEvent) : option (string * string) :=
  let '(cm, k) :=
    match e with
    | CMAdded cm | CMUpdated _ cm => (cm, get_string (omLabels cm) KubeBindLabelName)
    | CMDeleted cm _ => (cm, "")
    end in
  u ← underID_of cm; Some (u, k).

Definition spec_event (e : CMEvent) (m : gmap string string) : gmap string string :=
  match event_mapping e with Some (u, k) => spec_mapping u k m | None => m end.

Lemma underID_nonempty cm u : underID_of cm = Some u → u ≠ "".
Proof.
  unfold underID_of. destruct (negb _ || _) eqn:Hc; [done|]. apply orb_false_iff in Hc as [_ Hlen].
  apply Nat.leb_gt in Hlen. intros Hs%(inj Some) ->. apply (f_equal String.length) in Hs.
  rw str_drop_length in Hs. cbn in Hs, Hlen. lia.
Qed.

Lemma handle_event_spec e reln :
  reln_wf reln →
  ∃ reln', handle_event e reln = Some reln' ∧ reln_wf reln' ∧
    toKubeBind reln' = spec_event e (toKubeBind reln).
Proof.
  intros Hwf. unfold spec_event, event_mapping.
  assert (∀ u k, u ≠ "" → ∃ reln', Some (kubeBindSpaceRelation_setMapping u k reln) = Some reln' ∧
    reln_wf reln' ∧ toKubeBind reln' = spec_mapping u k (toKubeBind reln)) as Hset.
  { intros u k Hu. eexists. split; [done|]. split; [by apply setMapping_wf|].
    apply map_eq. intros u'. by apply setMapping_to. }
  destruct e as [cm|o cm|cm []]; cbn;
    (destruct (underID_of cm) as [u|] eqn:Hu; [by apply Hset, (underID_nonempty cm)|by exists reln]).
Qed.

(** C38: whatever sequence of additions, updates and deletions of ConfigMaps the informer
    reports, the handlers do not panic, the relation is 1:1 in both directions, and each
    space has the consumer that the specification gives it: the one of the last event
    about that space, unless another space has claimed the consumer since. *)
Theorem kubeBindSpaceRelation_one_to_one es :
  ∃ reln, handle_events es NewKubeBindSpaceRelation = Some reln ∧
    KubeBindSpaceRelationOk (AsKubeBindSpaceRelation reln) ∧
    ∀ spaceID, SpaceIDToKubeBind (AsKubeBindSpaceRelation reln) spaceID
      = get_string (foldl (flip spec_event) ∅ es) spaceID.
Proof.
  assert (∀ reln, reln_wf reln → ∃ reln', handle_events es reln = Some reln' ∧ reln_wf reln' ∧
    toKubeBind reln' = foldl (flip spec_event) (toKubeBind reln) es) as Hrun.
  { induction es as [|e es IH]; intros reln Hwf; [by exists reln|].
    destruct (handle_event_spec e reln Hwf) as (r1 & He & Hwf1 & Hto). cbn. rw He. cbn.
    destruct (IH r1 Hwf1) as (r2 & Hes & Hwf2 & Hto2). exists r2. by rw Hto2 Hto. }
  destruct (Hrun NewKubeBindSpaceRelation) as (reln & He & Hwf & Hto); [split; naive_solver|].
  exists reln. split; [done|]. split; [by apply wf_Ok|]. intros spaceID. cbn.
  unfold kubeBindSpaceRelation_SpaceIDToKubeBind. by rw Hto.
Qed.
