(* ===== verification/WhereResolver.v ===== *)
(** The where-resolver (pkg/where-resolver): it keeps, for each EdgePlacement, the
    SinglePlacementSlice that lists the SyncTargets at the Locations that the
    EdgePlacement selects.  Three reconcilers, one per kind of object, update an internal
    relation (store.go) and the slices.

    A reconciler is a computation in the monad [M] of errors and panics over the state of
    the controller: the internal data, the cache of slices, whose objects the code
    modifies in place, and the API server.  The caches of the other objects are constant
    during a reconciliation, which holds the lock of the store from beginning to end.

    Parameters of the model: label selectors and the keys of objects in caches
    (apimachinery, client-go), the space client, the marshalling of JSON and the Patch,
    Get and Create calls of the API server. *)

From Stdlib Require Import Ascii.
From Stdlib Require String.
From S2P Require Import Prelude Tuples Types GoStrings KbUser.

(** * Data *)

(** The API objects, with the fields that are read. *)
Record EdgePlacement (LabelSelector : Type) : Type := MkEdgePlacement {
  epMeta : ObjectMeta;
  epLocationSelectors : list LabelSelector
}.
Record Location (LabelSelector : Type) : Type := MkLocation {
  locMeta : ObjectMeta;
  locInstanceSelector : option LabelSelector
}.
Record SyncTarget : Type := MkSyncTarget { stMeta : ObjectMeta }.
Record PlacementSlice : Type := MkPlacementSlice {
  slMeta : ObjectMeta;
  slDestinations : list SinglePlacement
}.
Arguments MkEdgePlacement {_} _ _.
Arguments epMeta {_} _.
Arguments epLocationSelectors {_} _.
Arguments MkLocation {_} _ _.
Arguments locMeta {_} _.
Arguments locInstanceSelector {_} _.

(** * store.go *)

Record internalData : Type := MkInternalData {
  epsBySelectedLoc : gmap string (gset string);
  locsBySelectedSt : gmap string (gset string)
}.

Definition emptyData : internalData := MkInternalData ∅ ∅.

Section store.
Context `{MapRange}.

Definition unionTwo (a b : gset string) : gset string :=
  let u := for_each (set_range a) (λ k u, {[k]} ∪ u) ∅ in
  for_each (set_range b) (λ k u, {[k]} ∪ u) u.

(** [m[k]], which is nil, an empty set, when there is none *)
Definition get_set (m : gmap string (gset string)) (k : string) : gset string := default ∅ (m !! k).

Definition findEpsUsedSt (st : string) (d : internalData) : gset string :=
  for_each (set_range (get_set (locsBySelectedSt d) st))
    (λ l eps, unionTwo eps (get_set (epsBySelectedLoc d) l)) ∅.

Definition dropEp (epKey : string) (d : internalData) : internalData :=
  MkInternalData ((λ eps, eps ∖ {[epKey]}) <$> epsBySelectedLoc d) (locsBySelectedSt d).

Definition dropLoc (locKey : string) (d : internalData) : internalData :=
  MkInternalData (delete locKey (epsBySelectedLoc d))
    ((λ locs, locs ∖ {[locKey]}) <$> locsBySelectedSt d).

Definition dropSt (stKey : string) (d : internalData) : internalData :=
  MkInternalData (epsBySelectedLoc d) (delete stKey (locsBySelectedSt d)).

(** The two loops by which a reconciler makes [key] a member of exactly the sets of
    [selecting]: delete it from the others, then add it. *)
Definition deleteFromOthers (key : string) (selecting : gset string) (m : gmap string (gset string))
  : gmap string (gset string) :=
  map_imap (λ x keys, Some (if bool_decide (x ∈ selecting) then keys else keys ∖ {[key]})) m.

Definition addToSelecting (key : string) (selecting : gset string) (m : gmap string (gset string))
  : gmap string (gset string) :=
  for_each (set_range selecting) (λ x m,
    match m !! x with
    | None => <[x:={[key]}]> m
    | Some keys => <[x:={[key]} ∪ keys]> m
    end) m.

Definition updateColumn (key : string) (selecting : gset string) (m : gmap string (gset string))
  : gmap string (gset string) := addToSelecting key selecting (deleteFromOthers key selecting m).
End store.

(** * The controller *)

Inductive Result (A : Type) : Type :=
| Ok (a : A)
| Err (e : string)
| Panic.
Arguments Ok {_} _.
Arguments Err {_} _.
Arguments Panic {_}.

(** Outcome of the creation of an object. *)
Inductive CreateResult : Type := Created | AlreadyExists | CreateError (e : string).

Record controllerState (Api : Type) : Type := MkControllerState {
  csStore : internalData;
  csSlices : gmap string PlacementSlice;
  csApi : Api
}.
Arguments MkControllerState {_} _ _ _.
Arguments csStore {_} _.
Arguments csSlices {_} _.
Arguments csApi {_} _.

Definition M (Api A : Type) : Type := controllerState Api → Result A * controllerState Api.

#[export] Instance M_ret {Api} : MRet (M Api) := λ A a w, (Ok a, w).
#[export] Instance M_bind {Api} : MBind (M Api) := λ A B f m w,
  match m w with
  | (Ok a, w) => f a w
  | (Err e, w) => (Err e, w)
  | (Panic, w) => (Panic, w)
  end.

Definition fail {Api A} (e : string) : M Api A := λ w, (Err e, w).
Definition panic {Api A} : M Api A := λ w, (Panic, w).
Definition gets {Api A} (f : controllerState Api → A) : M Api A := λ w, (Ok (f w), w).
Definition modify_store {Api} (f : internalData → internalData) : M Api () :=
  λ w, (Ok (), MkControllerState (f (csStore w)) (csSlices w) (csApi w)).

(** The object that a cached pointer refers to is modified. *)
Definition set_slice {Api} (name : string) (sps : PlacementSlice) : M Api () :=
  λ w, (Ok (), MkControllerState (csStore w) (<[name:=sps]> (csSlices w)) (csApi w)).

(** A call of an API server. *)
Definition api_call {Api A} (call : Api → A * Api) : M Api A := λ w,
  let '(a, api) := call (csApi w) in (Ok a, MkControllerState (csStore w) (csSlices w) api).

(** [if err != nil { return err }] *)
Definition check_sum {Api A} (r : string + A) : M Api A :=
  match r with inl e => fail e | inr a => mret a end.
Definition check_err {Api} (err : option string) : M Api () :=
  match err with Some e => fail e | None => mret () end.

(** [for x := range xs] with a body that may return an error *)
Fixpoint for_all {Api X} (body : X → M Api ()) (xs : list X) : M Api () :=
  match xs with
  | [] => mret ()
  | x :: xs => body x;; for_all body xs
  end.

(** Appending to a slice the items of a list that pass a test that may fail. *)
Fixpoint filter_loop {X} (test : X → string + bool) (xs filtered : list X) : list X * option string :=
  match xs with
  | [] => (filtered, None)
  | x :: xs =>
      match test x with
      | inl e => (filtered, Some e)
      | inr b => filter_loop test xs (if b : bool then filtered ++ [x] else filtered)
      end
  end.

(** The owner of a slice. *)
Record OwnerReference : Type := MkOwnerReference {
  orAPIVersion : string;
  orKind : string;
  orName : string;
  orUID : string
}.

Inductive triggeringKind : Set :=
| triggeringKindEdgePlacement
| triggeringKindLocation
| triggeringKindSyncTarget.

Record queueItem : Set := MkQueueItem { qiTriggeringKind : triggeringKind; qiKey : string }.

Section where_resolver.
Context `{MapRange}.
Context {LabelSelector : Type}.
Context (LabelSelectorAsSelector : option LabelSelector → string + (gmap string string → bool)).
Context (MetaNamespaceKeyFunc : ObjectMeta → string).
Context (SplitMetaNamespaceKey : string → string + (string * string)).
Context (kbSpaceRelation : KubeBindSpaceRelation).

Abbreviation Location := (Location LabelSelector).
Abbreviation EdgePlacement := (EdgePlacement LabelSelector).

(** [break] at the first selector that matches *)
Fixpoint matchesAny (selectors : list LabelSelector) (labels : gmap string string) : string + bool :=
  match selectors with
  | [] => inr false
  | s :: selectors =>
      match LabelSelectorAsSelector (Some s) with
      | inl e => inl e
      | inr selector => if selector labels then inr true else matchesAny selectors labels
      end
  end.

Definition filterStsByLoc (sts : list SyncTarget) (loc : Location) : list SyncTarget * option string :=
  let '(_, locKBSpaceID, err) := AnalyzeObject (locMeta loc) in
  match err with
  | Some err => ([], Some err)
  | None =>
      filter_loop (λ st,
        let '(_, stKBSpaceID, err) := AnalyzeObject (stMeta st) in
        match err with
        | Some err => inl err
        | None =>
            if negb (bool_decide (stKBSpaceID = locKBSpaceID)) then inr false
            else
              match LabelSelectorAsSelector (locInstanceSelector loc) with
              | inl err => inl err
              | inr selector => inr (selector (omLabels (stMeta st)))
              end
        end) sts []
  end.

Definition filterEpsByLoc (eps : list EdgePlacement) (loc : Location)
  : list EdgePlacement * option string :=
  filter_loop (λ ep, matchesAny (epLocationSelectors ep) (omLabels (locMeta loc))) eps [].

Definition filterLocsBySt (locs : list Location) (st : SyncTarget) : list Location * option string :=
  filter_loop (λ l,
    match LabelSelectorAsSelector (locInstanceSelector l) with
    | inl err => inl err
    | inr selector => inr (selector (omLabels (stMeta st)))
    end) locs [].

Definition filterLocsByEp (locs : list Location) (ep : EdgePlacement) : list Location * option string :=
  filter_loop (λ l, matchesAny (epLocationSelectors ep) (omLabels (locMeta l))) locs [].

Definition packKeys (objs : list ObjectMeta) : gset string :=
  for_each objs (λ obj keys, {[MetaNamespaceKeyFunc obj]} ∪ keys) ∅.
Definition packEpKeys (eps : list EdgePlacement) : gset string := packKeys (epMeta <$> eps).
Definition packStKeys (sts : list SyncTarget) : gset string := packKeys (stMeta <$> sts).
Definition packLocKeys (locs : list Location) : gset string := packKeys (locMeta <$> locs).

Definition cleanSPSByLoc (sps : PlacementSlice) (locSpaceID lName : string) : PlacementSlice :=
  MkPlacementSlice (slMeta sps)
    (filter (λ sp, spCluster sp ≠ locSpaceID ∨ spLocationName sp ≠ lName) (slDestinations sps)).

Definition cleanSPSBySt (sps : PlacementSlice) (stSpaceID stName : string) : PlacementSlice :=
  MkPlacementSlice (slMeta sps)
    (filter (λ sp, spCluster sp ≠ stSpaceID ∨ spSyncTargetName sp ≠ stName) (slDestinations sps)).

Definition extendSPS (sps : PlacementSlice) (singles : list SinglePlacement) : PlacementSlice :=
  MkPlacementSlice (slMeta sps) (slDestinations sps ++ singles).

Definition makeSinglePlacementsForLoc (locSelectingSts : option Location) (sts : list SyncTarget)
  : list SinglePlacement :=
  match locSelectingSts with
  | None => []
  | Some loc =>
      if (length sts =? 0)%nat then []
      else
        let '(locOriginalName, kbSpaceID, err) := AnalyzeObject (locMeta loc) in
        match err with
        | Some _ => []
        | None =>
            let locSpaceID := SpaceIDFromKubeBind kbSpaceRelation kbSpaceID in
            if bool_decide (locSpaceID = "") then []
            else
              for_each sts (λ st made,
                let '(stOriginalName, _, err) := AnalyzeObject (stMeta st) in
                match err with
                | Some _ => made
                | None =>
                    made ++ [MkSinglePlacement locSpaceID locOriginalName stOriginalName (omUID (stMeta st))]
                end) []
        end
  end.

Definition makeSinglePlacementsForSt (locsSelectingSt : list Location) (st : option SyncTarget)
  : list SinglePlacement :=
  match st with
  | None => []
  | Some st =>
      if (length locsSelectingSt =? 0)%nat then []
      else
        let '(stOriginalName, kbSpaceID, err) := AnalyzeObject (stMeta st) in
        match err with
        | Some _ => []
        | None =>
            let stSpaceID := SpaceIDFromKubeBind kbSpaceRelation kbSpaceID in
            if bool_decide (stSpaceID = "") then []
            else
              for_each locsSelectingSt (λ loc made,
                let '(locOriginalName, _, err) := AnalyzeObject (locMeta loc) in
                match err with
                | Some _ => made
                | None =>
                    made ++ [MkSinglePlacement stSpaceID locOriginalName stOriginalName (omUID (stMeta st))]
                end) []
        end
  end.

(** The caches of the informers *)
Context (edgePlacementLister_Get : string → Lookup EdgePlacement).
Context (edgePlacementLister_List : string + list EdgePlacement).
Context (locationLister_Get : string → Lookup Location).
Context (locationLister_List : string + list Location).
Context (synctargetLister_Get : string → Lookup SyncTarget).
Context (synctargetLister_List : string + list SyncTarget).
Context (singlePlacementSliceLister_error : string → option string).

(** The space client and the API servers of the spaces *)
Context {Api Config Client : Type}.
Context (ConfigForSpace : string → string + Config).
Context (NewForConfig : Config → string + Client).
Context (json_Marshal : list SinglePlacement → string + string).
Context (SinglePlacementSlices_Patch : Client → string → string → Api → option string * Api).
Context (SinglePlacementSlices_Create :
  Client → string → OwnerReference → list SinglePlacement → Api → CreateResult * Api).
Context (EdgePlacements_Get : Client → string → Api → string + ObjectMeta).

Abbreviation M := (M Api).

(** [kbuser.AnalyzeClusterScopedObject] of a pointer, and the check of its error *)
Definition analyze (obj : option ObjectMeta) : M (string * string) :=
  match AnalyzeClusterScopedObject obj with
  | None => panic
  | Some (name, kbSpaceID, err) => check_err err;; mret (name, kbSpaceID)
  end.

Definition consumerSpace (kbSpaceID : string) : M string :=
  let spaceID := SpaceIDFromKubeBind kbSpaceRelation kbSpaceID in
  if bool_decide (spaceID = "") then fail "failed to obtain space ID from kube-bind reference"
  else mret spaceID.

Definition singlePlacementSliceLister_Get (name : string) : M (Lookup PlacementSlice) :=
  match singlePlacementSliceLister_error name with
  | Some e => mret (LookupError e)
  | None => gets (λ w, match csSlices w !! name with Some sps => Found sps | None => NotFound end)
  end.

(** A lookup whose failure is returned as an error *)
Definition found {A} (l : Lookup A) : M A :=
  match l with
  | Found a => mret a
  | NotFound => fail "not found"
  | LookupError e => fail e
  end.

Definition getConsumerSpaceForSPS (sps : PlacementSlice) : M (string * string) :=
  '(name, kbSpaceID) ← analyze (Some (slMeta sps));
  spaceID ← consumerSpace kbSpaceID;
  mret (name, spaceID).

Definition patch_text (destBytes : string) : string :=
  String (ascii_of_nat 123) (String (ascii_of_nat 34) "destinations" +:+
    String (ascii_of_nat 34) (": " +:+ destBytes +:+ "}")).

Definition patchSpsDestinations (destinations : list SinglePlacement) (spaceID spsName : string) : M () :=
  destBytes ← check_sum (json_Marshal destinations);
  spaceConfig ← check_sum (ConfigForSpace spaceID);
  edgeClientset ← check_sum (NewForConfig spaceConfig);
  err ← api_call (SinglePlacementSlices_Patch edgeClientset spsName (patch_text destBytes));
  check_err err.

(** ** reconcile_on_location.go *)

(** The bodies of the loops 4a, without [singles], and 4b and 4c, with them *)
Definition updateSPSForLoc (locSpaceID locOriginalName : string) (singles : option (list SinglePlacement))
  (ep : string) : M () :=
  '(_, name) ← check_sum (SplitMetaNamespaceKey ep);
  l ← singlePlacementSliceLister_Get name;
  currentSPS ← found l;
  '(originalName, spaceID) ← getConsumerSpaceForSPS currentSPS;
  let nextSPS := cleanSPSByLoc currentSPS locSpaceID locOriginalName in
  let nextSPS := match singles with Some singles => extendSPS nextSPS singles | None => nextSPS end in
  set_slice name nextSPS;;
  patchSpsDestinations (slDestinations nextSPS) spaceID originalName.

Definition reconcileOnLocation (locKey : string) : M () :=
  '(_, lName) ← check_sum (SplitMetaNamespaceKey locKey);
  (* [None] is nil, and stands for [locDeleted] *)
  loc ← (match locationLister_Get lName with
         | Found loc => mret (Some loc)
         | NotFound => mret None
         | LookupError e => fail e
         end : M (option Location));
  '(locOriginalName, kbSpaceID) ← analyze (locMeta <$> loc);
  locSpaceID ← consumerSpace kbSpaceID;
  epsSelectedLoc ← gets (λ w, get_set (epsBySelectedLoc (csStore w)) locKey);
  stsFilteredByLoc ←
    (match loc with
     | Some loc =>
         allSts ← check_sum synctargetLister_List;
         let '(sts, err) := filterStsByLoc allSts loc in
         check_err err;; mret sts
     | None => mret []
     end : M (list SyncTarget));
  let stsSelecting := packStKeys stsFilteredByLoc in
  epsFilteredByLoc ←
    (match loc with
     | Some loc =>
         epsAll ← check_sum edgePlacementLister_List;
         (* the error is only logged *)
         mret (filterEpsByLoc epsAll loc).1
     | None => mret []
     end : M (list EdgePlacement));
  let epsSelectingLoc := packEpKeys epsFilteredByLoc in
  modify_store (λ d,
    match loc with
    | Some _ =>
        MkInternalData (<[locKey:=epsSelectingLoc]> (epsBySelectedLoc d))
          (updateColumn locKey stsSelecting (locsBySelectedSt d))
    | None => dropLoc locKey d
    end);;
  let singles := makeSinglePlacementsForLoc loc stsFilteredByLoc in
  for_all (λ ep,
    if negb (bool_decide (ep ∈ epsSelectingLoc))
    then updateSPSForLoc locSpaceID locOriginalName None ep
    else updateSPSForLoc locSpaceID locOriginalName (Some singles) ep) (set_range epsSelectedLoc);;
  for_all (λ ep,
    if negb (bool_decide (ep ∈ epsSelectedLoc))
    then updateSPSForLoc locSpaceID locOriginalName (Some singles) ep
    else mret ()) (set_range epsSelectingLoc).

(** ** reconcile_on_synctarget.go *)

(** The body of 4a *)
Definition removeStFromSPS (stSpaceID stOriginalName : string) (ep : string) : M () :=
  '(_, name) ← check_sum (SplitMetaNamespaceKey ep);
  l ← singlePlacementSliceLister_Get name;
  currentSPS ← found l;
  let nextSPS := cleanSPSBySt currentSPS stSpaceID stOriginalName in
  set_slice name nextSPS;;
  '(originalName, spaceID) ← getConsumerSpaceForSPS nextSPS;
  patchSpsDestinations (slDestinations nextSPS) spaceID originalName.

(** The bodies of 4b and 4c *)
Definition updateSPSForSt (stSpaceID stOriginalName : string) (locsFilteredBySt : list Location)
  (st : option SyncTarget) (ep : string) : M () :=
  '(_, name) ← check_sum (SplitMetaNamespaceKey ep);
  l ← singlePlacementSliceLister_Get name;
  currentSPS ← found l;
  let nextSPS := cleanSPSBySt currentSPS stSpaceID stOriginalName in
  set_slice name nextSPS;;
  epObj ← found (edgePlacementLister_Get name);
  let '(locsFilteredByStAndEp, err) := filterLocsByEp locsFilteredBySt epObj in
  check_err err;;
  let additionalSingles := makeSinglePlacementsForSt locsFilteredByStAndEp st in
  let nextSPS := extendSPS nextSPS additionalSingles in
  set_slice name nextSPS;;
  '(originalName, spaceID) ← getConsumerSpaceForSPS nextSPS;
  patchSpsDestinations (slDestinations nextSPS) spaceID originalName.

Definition reconcileOnSyncTarget (stKey : string) : M () :=
  '(_, stName) ← check_sum (SplitMetaNamespaceKey stKey);
  st ← (match synctargetLister_Get stName with
        | Found st => mret (Some st)
        | NotFound => mret None
        | LookupError e => fail e
        end : M (option SyncTarget));
  '(stOriginalName, kbSpaceID) ← analyze (stMeta <$> st);
  stSpaceID ← consumerSpace kbSpaceID;
  epsUsedSt ← gets (λ w, findEpsUsedSt stKey (csStore w));
  locsFilteredBySt ←
    (match st with
     | Some st =>
         locsInStws ← check_sum locationLister_List;
         let '(locs, err) := filterLocsBySt locsInStws st in
         check_err err;; mret locs
     | None => mret []
     end : M (list Location));
  let locsSelectingSt := packLocKeys locsFilteredBySt in
  epsUsingSt ← gets (λ w,
    match st with
    | Some _ => for_each locsFilteredBySt (λ loc epsUsingSt,
        let locKey := MetaNamespaceKeyFunc (locMeta loc) in
        unionTwo epsUsingSt (get_set (epsBySelectedLoc (csStore w)) locKey)) ∅
    | None => ∅
    end);
  modify_store (λ d,
    match st with
    | Some _ => MkInternalData (epsBySelectedLoc d) (<[stKey:=locsSelectingSt]> (locsBySelectedSt d))
    | None => dropSt stKey d
    end);;
  for_all (λ ep,
    if negb (bool_decide (ep ∈ epsUsingSt))
    then removeStFromSPS stSpaceID stOriginalName ep
    else updateSPSForSt stSpaceID stOriginalName locsFilteredBySt st ep) (set_range epsUsedSt);;
  for_all (λ ep,
    if negb (bool_decide (ep ∈ epsUsedSt))
    then updateSPSForSt stSpaceID stOriginalName locsFilteredBySt st ep
    else mret ()) (set_range epsUsingSt).

(** ** reconcile_on_edgeplacement.go *)

(** Step 2: the SinglePlacements of the selected Locations *)
Fixpoint singlesForLocs (locs : list Location) (singles : list SinglePlacement)
  : M (list SinglePlacement) :=
  match locs with
  | [] => mret singles
  | loc :: locs =>
      allSts ← check_sum synctargetLister_List;
      let '(stsSelecting, err) := filterStsByLoc allSts loc in
      check_err err;;
      singlesForLocs locs (singles ++ makeSinglePlacementsForLoc (Some loc) stsSelecting)
  end.

Definition edgePlacementOwner (originalName uid : string) : OwnerReference :=
  MkOwnerReference "edge.kubestellar.io/v2alpha1" "EdgePlacement" originalName uid.

(** Step 4: create the slice, or patch it *)
Definition writeSPS (epName originalName spaceID : string) (singles : list SinglePlacement) : M () :=
  spaceConfig ← check_sum (ConfigForSpace spaceID);
  edgeClientset ← check_sum (NewForConfig spaceConfig);
  r ← gets (λ w, EdgePlacements_Get edgeClientset originalName (csApi w));
  originalEP ← check_sum r;
  l ← singlePlacementSliceLister_Get epName;
  match l with
  | NotFound =>
      res ← api_call (SinglePlacementSlices_Create edgeClientset originalName
                        (edgePlacementOwner originalName (omUID originalEP)) singles);
      match res with
      | Created | AlreadyExists => mret ()
      | CreateError e => fail e
      end
  | LookupError e => fail e
  | Found _ => patchSpsDestinations singles spaceID originalName
  end.

Definition reconcileOnEdgePlacement (epKey : string) : M () :=
  '(_, epName) ← check_sum (SplitMetaNamespaceKey epKey);
  match edgePlacementLister_Get epName with
  | NotFound => modify_store (dropEp epKey)
  | LookupError e => fail e
  | Found ep =>
      locsAll ← check_sum locationLister_List;
      (* the error is only logged *)
      let locsFilteredByEp := (filterLocsByEp locsAll ep).1 in
      let locsSelecting := packLocKeys locsFilteredByEp in
      singles ← singlesForLocs locsFilteredByEp [];
      modify_store (λ d,
        MkInternalData (updateColumn epKey locsSelecting (epsBySelectedLoc d)) (locsBySelectedSt d));;
      '(originalName, kbSpaceID) ← analyze (Some (epMeta ep));
      spaceID ← consumerSpace kbSpaceID;
      writeSPS epName originalName spaceID singles
  end.

(** ** controller.go *)

Definition process (item : queueItem) : M () :=
  match qiTriggeringKind item with
  | triggeringKindEdgePlacement => reconcileOnEdgePlacement (qiKey item)
  | triggeringKindLocation => reconcileOnLocation (qiKey item)
  | triggeringKindSyncTarget => reconcileOnSyncTarget (qiKey item)
  end.
End where_resolver.
