(* ===== verification/WhereResolverFacts.v ===== *)
(** Correctness of the where-resolver of WhereResolver.v: its internal data follow the
    selection of Locations by EdgePlacements, and its reconcilers write the slices. *)

From Stdlib Require Import Ascii.
From Stdlib Require String.
From S2P Require Import Prelude Tuples Types GoStrings KbUser WhereResolver.

(** * The internal data *)

Section store_facts.
Context `{MapRange}.

Lemma insert_all (xs : list string) (u : gset string) :
  for_each xs (λ k u, {[k]} ∪ u) u = list_to_set xs ∪ u.
Proof.
  revert u. induction xs as [|x xs IH]; intros u; [cbn; set_solver|].
  rw for_each_cons IH. cbn. set_solver.
Qed.

Lemma unionTwo_spec (a b : gset string) : unionTwo a b = a ∪ b.
Proof.
  unfold unionTwo. rw !insert_all. apply set_eq. intros x.
  rw !elem_of_union !elem_of_list_to_set !elem_of_set_range. set_solver.
Qed.

Lemma union_all {X} (f : X → gset string) (xs : list X) (u : gset string) k :
  k ∈ for_each xs (λ x u, unionTwo u (f x)) u ↔ k ∈ u ∨ ∃ x, x ∈ xs ∧ k ∈ f x.
Proof.
  revert u. induction xs as [|x xs IH]; intros u.
  - cbn. set_solver.
  - rw for_each_cons IH unionTwo_spec. set_solver.
Qed.

(** The EdgePlacements that use a SyncTarget, through some Location. *)
Lemma findEpsUsedSt_spec st d ep :
  ep ∈ findEpsUsedSt st d ↔
  ∃ loc, loc ∈ get_set (locsBySelectedSt d) st ∧ ep ∈ get_set (epsBySelectedLoc d) loc.
Proof. unfold findEpsUsedSt. rw union_all. setoid_rewrite elem_of_set_range. set_solver. Qed.

Lemma deleteFromOthers_spec key selecting m x :
  get_set (deleteFromOthers key selecting m) x
  = if bool_decide (x ∈ selecting) then get_set m x else get_set m x ∖ {[key]}.
Proof.
  unfold get_set, deleteFromOthers. rw map_lookup_imap.
  destruct (m !! x); cbn; case_bool_decide; set_solver.
Qed.

Lemma add_all key xs m x :
  get_set (for_each xs (λ x m, match m !! x with
                               | None => <[x:={[key]}]> m
                               | Some keys => <[x:={[key]} ∪ keys]> m
                               end) m) x
  = if bool_decide (x ∈ xs) then {[key]} ∪ get_set m x else get_set m x.
Proof.
  revert m. induction xs as [|y xs IH]; intros m; [done|].
  rw for_each_cons IH. unfold get_set. destruct (decide (x = y)) as [-> |Hne].
  - destruct (m !! y); rw lookup_insert_eq; cbn; repeat case_bool_decide; set_solver.
  - destruct (m !! y); rw lookup_insert_ne //; repeat case_bool_decide; set_solver.
Qed.

(** After the update the key is in exactly the sets of [selecting], and all others are
    where they were. *)
Lemma updateColumn_spec key selecting m x k :
  k ∈ get_set (updateColumn key selecting m) x ↔
  if decide (k = key) then x ∈ selecting else k ∈ get_set m x.
Proof.
  unfold updateColumn, addToSelecting. rw add_all deleteFromOthers_spec.
  assert (x ∈ set_range selecting ↔ x ∈ selecting) by apply elem_of_set_range.
  repeat case_bool_decide; case_decide; set_solver.
Qed.

Lemma dropEp_spec key d x k :
  k ∈ get_set (epsBySelectedLoc (dropEp key d)) x ↔ k ≠ key ∧ k ∈ get_set (epsBySelectedLoc d) x.
Proof. unfold get_set, dropEp. cbn. rw lookup_fmap. destruct (_ !! x); cbn; set_solver. Qed.
End store_facts.

(** * Filters *)

Lemma filter_loop_spec {X} (test : X → string + bool) xs acc :
  (filter_loop test xs acc).2 = None →
  (filter_loop test xs acc).1 = acc ++ filter (λ x, test x = inr true) xs.
Proof.
  revert acc. induction xs as [|x xs IH]; intros acc; cbn [filter_loop]; [by rw app_nil_r|].
  rw filter_cons. destruct (test x) as [e|[]] eqn:Ht; [done| |]; intros Hn; rw IH //; case_decide; try done.
  by rw -app_assoc.
Qed.

(** An error ends the loop with what has been found so far. *)
Lemma filter_loop_err {X} (test : X → string + bool) xs x ys acc err :
  test x = inl err → (filter_loop test (xs ++ x :: ys) acc).1 = (filter_loop test xs acc).1.
Proof.
  intros Hx. revert acc. induction xs as [|y xs IH]; intros acc; cbn [app filter_loop]; [by rw Hx|].
  destruct (test y); [done|]. apply IH.
Qed.

Lemma filter_loop_ok {X} (test : X → string + bool) xs acc :
  (∀ x, x ∈ xs → ∃ b, test x = inr b) → (filter_loop test xs acc).2 = None.
Proof.
  revert acc. induction xs as [|x xs IH]; intros acc Hok; cbn [filter_loop]; [done|].
  destruct (Hok x) as [b ->]; [set_solver|]. apply IH. set_solver.
Qed.

(** * Frames and runs *)

Section monad_facts.
Context {Api X : Type} (view : internalData → X).

(** A computation that leaves a view of the internal data alone, whatever its outcome. *)
Definition store_frame {A} (m : M Api A) : Prop := ∀ w, view (csStore (m w).2) = view (csStore w).

Lemma store_frame_bind {A B} (m : M Api A) (f : A → M Api B) :
  store_frame m → (∀ a, store_frame (f a)) → store_frame (m ≫= f).
Proof.
  intros Hm Hf w. unfold mbind, M_bind. specialize (Hm w). destruct (m w) as [[a|e|] w1]; cbn in *; try done.
  by rw Hf.
Qed.

Lemma store_frame_ret {A} (a : A) : store_frame (mret a : M Api A).
Proof. done. Qed.
Lemma store_frame_fail {A} e : store_frame (fail e : M Api A).
Proof. done. Qed.
Lemma store_frame_panic {A} : store_frame (panic : M Api A).
Proof. done. Qed.
Lemma store_frame_gets {A} (f : controllerState Api → A) : store_frame (gets f).
Proof. done. Qed.
Lemma store_frame_set_slice name sps : store_frame (set_slice name sps : M Api ()).
Proof. done. Qed.
Lemma store_frame_check_sum {A} (r : string + A) : store_frame (check_sum r : M Api A).
Proof. by destruct r. Qed.
Lemma store_frame_check_err err : store_frame (check_err err : M Api ()).
Proof. by destruct err. Qed.
Lemma store_frame_api_call {A} (call : Api → A * Api) : store_frame (api_call call).
Proof. intros w. unfold api_call. by destruct (call (csApi w)). Qed.

Lemma store_frame_modify (g : internalData → internalData) :
  (∀ d, view (g d) = view d) → store_frame (modify_store g : M Api ()).
Proof. intros Hg w. apply Hg. Qed.

Lemma store_frame_for_all {Y} (body : Y → M Api ()) xs :
  (∀ x, store_frame (body x)) → store_frame (for_all body xs).
Proof. intros Hb. induction xs as [|x xs IH]; [apply store_frame_ret|]. by apply store_frame_bind. Qed.
End monad_facts.

Section run_facts.
Context {Api : Type}.

Lemma bind_ok {A B} (m : M Api A) (f : A → M Api B) w b w' :
  (m ≫= f) w = (Ok b, w') → ∃ a w1, m w = (Ok a, w1) ∧ f a w1 = (Ok b, w').
Proof. unfold mbind, M_bind. destruct (m w) as [[a|e|] w1]; naive_solver. Qed.

Lemma bind_run_ok {A B} (m : M Api A) (f : A → M Api B) w a w1 :
  m w = (Ok a, w1) → (m ≫= f) w = f a w1.
Proof. unfold mbind, M_bind. by intros ->. Qed.

Lemma bind_run_err {A B} (m : M Api A) (f : A → M Api B) w e w1 :
  m w = (Err e, w1) → (m ≫= f) w = (Err e, w1).
Proof. unfold mbind, M_bind. by intros ->. Qed.

Lemma modify_run {B} g (f : () → M Api B) w :
  (modify_store g ≫= f) w = f () (MkControllerState (g (csStore w)) (csSlices w) (csApi w)).
Proof. done. Qed.

Lemma check_sum_ok {A} (r : string + A) w a w' :
  (check_sum r : M Api A) w = (Ok a, w') → r = inr a ∧ w' = w.
Proof. destruct r as [e|b]; [by intros [=]|]. by intros [= <- <-]. Qed.

Lemma for_all_app {X} (body : X → M Api ()) xs ys w :
  for_all body (xs ++ ys) w = (for_all body xs;; for_all body ys) w.
Proof.
  revert w. induction xs as [|x xs IH]; intros w; [done|]. cbn [app for_all].
  unfold mbind, M_bind in IH |- *. destruct (body x w) as [[[]|e|] w1]; [apply IH|done..].
Qed.

Lemma for_all_fmap {X Y} (g : X → Y) (body : Y → M Api ()) xs w :
  for_all body (g <$> xs) w = for_all (λ x, body (g x)) xs w.
Proof.
  revert w. induction xs as [|x xs IH]; intros w; [done|]. cbn. unfold mbind, M_bind.
  destruct (body (g x) w) as [[[]|e|] w1]; [apply IH|done..].
Qed.

Lemma for_all_filter {X} (P : X → Prop) `{∀ x, Decision (P x)} (body : X → M Api ()) xs w :
  for_all body (filter P xs) w = for_all (λ x, if bool_decide (P x) then body x else mret ()) xs w.
Proof.
  revert w. induction xs as [|x xs IH]; intros w; [done|]. rw filter_cons. cbn [for_all].
  case_bool_decide; case_decide; try done; cbn [for_all].
  unfold mbind, M_bind. destruct (body x w) as [[[]|e|] w1]; [apply IH|done..].
Qed.

Lemma for_all_ext {X} (body1 body2 : X → M Api ()) xs w :
  (∀ x w, body1 x w = body2 x w) → for_all body1 xs w = for_all body2 xs w.
Proof.
  intros Hb. revert w. induction xs as [|x xs IH]; intros w; [done|]. cbn. unfold mbind, M_bind.
  rw Hb. destruct (body2 x w) as [[[]|e|] w1]; [apply IH|done..].
Qed.

Lemma check_err_ok err w w' : (check_err err : M Api ()) w = (Ok (), w') → err = None ∧ w' = w.
Proof. destruct err as [e|]; [by intros [=]|]. by intros [= <-]. Qed.
End run_facts.

#[export] Hint Resolve store_frame_ret store_frame_fail store_frame_panic store_frame_gets
  store_frame_set_slice store_frame_check_sum store_frame_check_err store_frame_api_call : placement.

(** Take a frame apart. *)
Ltac solve_frame :=
  repeat first
    [ progress eauto with placement
    | apply store_frame_bind; [|intros]
    | apply store_frame_for_all; intros
    | case_match ].

(** * Caches of informers, indexed by name *)

Definition cache_Get {A} (m : gmap string A) (name : string) : Lookup A :=
  match m !! name with Some a => Found a | None => NotFound end.
Definition cache_List `{MapRange} {A} (m : gmap string A) : string + list A := inr (map_range m).*2.

Lemma elem_of_cache_list `{MapRange} {A} (m : gmap string A) a :
  a ∈ (map_range m).*2 ↔ ∃ name, m !! name = Some a.
Proof.
  rw list_elem_of_fmap. split.
  - intros ([name b] & -> & Hin%elem_of_map_range). by exists name.
  - intros [name Hn]. exists (name, a). split; [done|]. by apply elem_of_map_range.
Qed.

Section resolver_facts.
Context `{MapRange}.
Context {LabelSelector : Type}.
Context (LabelSelectorAsSelector : option LabelSelector → string + (gmap string string → bool)).
Context (MetaNamespaceKeyFunc : ObjectMeta → string).
Context (SplitMetaNamespaceKey : string → string + (string * string)).
Context (kbSpaceRelation : KubeBindSpaceRelation).
Context (eps : gmap string (EdgePlacement LabelSelector)).
Context (locs : gmap string (Location LabelSelector)).
Context (sts : gmap string SyncTarget).
Context (singlePlacementSliceLister_error : string → option string).
Context {Api Config Client : Type}.
Context (ConfigForSpace : string → string + Config).
Context (NewForConfig : Config → string + Client).
Context (json_Marshal : list SinglePlacement → string + string).
Context (SinglePlacementSlices_Patch : Client → string → string → Api → option string * Api).
Context (SinglePlacementSlices_Create :
  Client → string → OwnerReference → list SinglePlacement → Api → CreateResult * Api).
Context (EdgePlacements_Get : Client → string → Api → string + ObjectMeta).

Abbreviation processItem := (process LabelSelectorAsSelector MetaNamespaceKeyFunc SplitMetaNamespaceKey
  kbSpaceRelation (cache_Get eps) (cache_List eps) (cache_Get locs) (cache_List locs)
  (cache_Get sts) (cache_List sts) singlePlacementSliceLister_error ConfigForSpace NewForConfig
  json_Marshal SinglePlacementSlices_Patch SinglePlacementSlices_Create EdgePlacements_Get).

(** The EdgePlacement selects the Location: one of its selectors matches the labels. *)
Definition selects (ep : EdgePlacement LabelSelector) (loc : Location LabelSelector) : Prop :=
  ∃ s selector, s ∈ epLocationSelectors ep ∧ LabelSelectorAsSelector (Some s) = inr selector ∧
    selector (omLabels (locMeta loc)) = true.

(** Cluster-scoped objects, cached under their names, which are their keys; and EdgePlacements
    with well-formed selectors only. The latter is more than the API servers see to: what
    happens without it is in [malformed_selector_hides]. *)
Class CachesOk : Prop := {
  ep_key : ∀ name ep, eps !! name = Some ep → MetaNamespaceKeyFunc (epMeta ep) = name;
  loc_key : ∀ name loc, locs !! name = Some loc → MetaNamespaceKeyFunc (locMeta loc) = name;
  selectors_valid : ∀ name ep s, eps !! name = Some ep → s ∈ epLocationSelectors ep →
    ∃ selector, LabelSelectorAsSelector (Some s) = inr selector
}.

(** The row of a Location holds the keys of the EdgePlacements that select it. *)
Definition row_exact (d : internalData) (loc : Location LabelSelector) (locKey : string) : Prop :=
  ∀ epKey, epKey ∈ get_set (epsBySelectedLoc d) locKey ↔
    ∃ ep, eps !! epKey = Some ep ∧ selects ep loc.

Lemma matchesAny_spec ss labels :
  (∀ s, s ∈ ss → ∃ selector, LabelSelectorAsSelector (Some s) = inr selector) →
  ∃ b, matchesAny LabelSelectorAsSelector ss labels = inr b ∧
    (b = true ↔ ∃ s selector, s ∈ ss ∧ LabelSelectorAsSelector (Some s) = inr selector ∧
      selector labels = true).
Proof.
  induction ss as [|s ss IH]; intros Hv; cbn.
  - exists false. split; [done|]. split; [done|]. intros (s & sel & Hs & _). set_solver.
  - destruct (Hv s) as [sel Hsel]; [set_solver|]. rw Hsel. destruct (sel labels) eqn:Hl.
    + exists true. split; [done|]. split; [|done]. intros _. exists s, sel. set_solver.
    + destruct IH as (b & -> & Hb); [set_solver|]. exists b. split; [done|]. rw Hb. split.
      * intros (s' & sel' & Hs' & ?). exists s', sel'. set_solver.
      * intros (s' & sel' & [-> |Hs']%elem_of_cons & Hsel' & Hl'); [congruence|]. by exists s', sel'.
Qed.

Lemma packKeys_spec objs k :
  k ∈ packKeys MetaNamespaceKeyFunc objs ↔ ∃ obj, obj ∈ objs ∧ MetaNamespaceKeyFunc obj = k.
Proof.
  unfold packKeys. assert (∀ u : gset string,
    k ∈ for_each objs (λ obj keys, {[MetaNamespaceKeyFunc obj]} ∪ keys) u ↔
    k ∈ u ∨ ∃ obj, obj ∈ objs ∧ MetaNamespaceKeyFunc obj = k) as Hall; [|rw Hall; set_solver].
  induction objs as [|o objs IH]; intros u; [cbn; set_solver|]. rw for_each_cons IH. set_solver.
Qed.

Context `{!CachesOk}.

Lemma matches_selects name ep loc :
  eps !! name = Some ep →
  (∃ b, matchesAny LabelSelectorAsSelector (epLocationSelectors ep) (omLabels (locMeta loc)) = inr b) ∧
  (matchesAny LabelSelectorAsSelector (epLocationSelectors ep) (omLabels (locMeta loc)) = inr true ↔
   selects ep loc).
Proof.
  intros He. destruct (matchesAny_spec (epLocationSelectors ep) (omLabels (locMeta loc))) as (b & -> & Hb).
  { intros s. by eapply selectors_valid. }
  split; [by exists b|]. unfold selects. rw -Hb. naive_solver.
Qed.

(** The keys that the reconcilers compute from the caches. *)
Lemma selecting_eps loc k :
  k ∈ packEpKeys MetaNamespaceKeyFunc
        (filterEpsByLoc LabelSelectorAsSelector (map_range eps).*2 loc).1 ↔
  ∃ ep, eps !! k = Some ep ∧ selects ep loc.
Proof.
  unfold packEpKeys, filterEpsByLoc. rw packKeys_spec filter_loop_spec; last first.
  { apply filter_loop_ok. intros ep [name He]%elem_of_cache_list. by eapply matches_selects. }
  cbn [app]. setoid_rewrite list_elem_of_fmap. setoid_rewrite list_elem_of_filter.
  setoid_rewrite elem_of_cache_list. split.
  - intros (? & (ep & -> & Hm & name & He) & <-). rw (ep_key name ep He). exists ep.
    split; [done|]. by eapply matches_selects.
  - intros (ep & He & Hs). exists (epMeta ep). split; [|by eapply ep_key]. exists ep.
    split; [done|]. split; [by eapply matches_selects|]. by exists k.
Qed.

Lemma selected_locs name ep k :
  eps !! name = Some ep →
  k ∈ packLocKeys MetaNamespaceKeyFunc
        (filterLocsByEp LabelSelectorAsSelector (map_range locs).*2 ep).1 ↔
  ∃ loc, locs !! k = Some loc ∧ selects ep loc.
Proof.
  intros He. unfold packLocKeys, filterLocsByEp. rw packKeys_spec filter_loop_spec; last first.
  { apply filter_loop_ok. intros loc _. by eapply matches_selects. }
  cbn [app]. setoid_rewrite list_elem_of_fmap. setoid_rewrite list_elem_of_filter.
  setoid_rewrite elem_of_cache_list. split.
  - intros (? & (loc & -> & Hm & lname & Hl) & <-). rw (loc_key lname loc Hl). exists loc.
    split; [done|]. by eapply matches_selects.
  - intros (loc & Hl & Hs). exists (locMeta loc). split; [|by eapply loc_key]. exists loc.
    split; [done|]. split; [by eapply matches_selects|]. by exists k.
Qed.

(** ** What the reconcilers do to the internal data *)

Abbreviation onLocation := (reconcileOnLocation LabelSelectorAsSelector MetaNamespaceKeyFunc
  SplitMetaNamespaceKey kbSpaceRelation (cache_List eps) (cache_Get locs)
  (cache_List sts) singlePlacementSliceLister_error ConfigForSpace NewForConfig
  json_Marshal SinglePlacementSlices_Patch).
Abbreviation onSyncTarget := (reconcileOnSyncTarget LabelSelectorAsSelector MetaNamespaceKeyFunc
  SplitMetaNamespaceKey kbSpaceRelation (cache_Get eps) (cache_List locs)
  (cache_Get sts) singlePlacementSliceLister_error ConfigForSpace NewForConfig
  json_Marshal SinglePlacementSlices_Patch).
Abbreviation onEdgePlacement := (reconcileOnEdgePlacement LabelSelectorAsSelector MetaNamespaceKeyFunc
  SplitMetaNamespaceKey kbSpaceRelation (cache_Get eps) (cache_List locs)
  (cache_List sts) singlePlacementSliceLister_error ConfigForSpace NewForConfig
  json_Marshal SinglePlacementSlices_Patch SinglePlacementSlices_Create EdgePlacements_Get).
Abbreviation updateForLoc := (updateSPSForLoc SplitMetaNamespaceKey kbSpaceRelation
  singlePlacementSliceLister_error ConfigForSpace NewForConfig json_Marshal SinglePlacementSlices_Patch).

Lemma patch_frame {X} (view : internalData → X) dests spaceID name :
  store_frame view (patchSpsDestinations ConfigForSpace NewForConfig json_Marshal SinglePlacementSlices_Patch
    dests spaceID name).
Proof. unfold patchSpsDestinations. solve_frame. Qed.

Lemma analyze_frame {X} (view : internalData → X) obj : store_frame view (analyze (Api := Api) obj).
Proof. unfold analyze. solve_frame. Qed.

Lemma consumerSpace_frame {X} (view : internalData → X) kb : store_frame view (consumerSpace kbSpaceRelation (Api := Api) kb).
Proof. unfold consumerSpace. solve_frame. Qed.

Lemma getConsumerSpace_frame {X} (view : internalData → X) sps :
  store_frame view (getConsumerSpaceForSPS kbSpaceRelation (Api := Api) sps).
Proof.
  unfold getConsumerSpaceForSPS. apply store_frame_bind; [apply analyze_frame|]. intros [name kb].
  apply store_frame_bind; [apply consumerSpace_frame|]. solve_frame.
Qed.

Lemma lister_frame {X} (view : internalData → X) name :
  store_frame view (singlePlacementSliceLister_Get singlePlacementSliceLister_error (Api := Api) name).
Proof. unfold singlePlacementSliceLister_Get. solve_frame. Qed.

Lemma found_frame {X} (view : internalData → X) {A} (l : Lookup A) : store_frame view (found (Api := Api) l).
Proof. unfold found. solve_frame. Qed.

#[local] Hint Resolve patch_frame analyze_frame consumerSpace_frame getConsumerSpace_frame lister_frame
  found_frame : placement.

Lemma updateForLoc_frame {X} (view : internalData → X) s n singles ep : store_frame view (updateForLoc s n singles ep).
Proof. unfold updateSPSForLoc. solve_frame. Qed.

Lemma onSyncTarget_store stKey : store_frame epsBySelectedLoc (onSyncTarget stKey).
Proof.
  unfold reconcileOnSyncTarget, removeStFromSPS, updateSPSForSt. solve_frame;
    (apply store_frame_modify; intros; by repeat case_match).
Qed.

(** The loops over the EdgePlacements. *)
Definition locLoops (space name : string) (old new : gset string) (singles : list SinglePlacement) : M Api () :=
  for_all (λ ep, if negb (bool_decide (ep ∈ new)) then updateForLoc space name None ep
                 else updateForLoc space name (Some singles) ep) (set_range old);;
  for_all (λ ep, if negb (bool_decide (ep ∈ old)) then updateForLoc space name (Some singles) ep
                 else mret ()) (set_range new).

(** The run on a Location in the cache: an error, or an update of its row and its column
    and then the loops. *)
Lemma onLocation_run locKey loc w :
  SplitMetaNamespaceKey locKey = inr ("", locKey) → locs !! locKey = Some loc →
  (∃ e, onLocation locKey w = (Err e, w)) ∨
  ∃ name kb stsSelecting,
    let space := SpaceIDFromKubeBind kbSpaceRelation kb in
    let new := packEpKeys MetaNamespaceKeyFunc
                 (filterEpsByLoc LabelSelectorAsSelector (map_range eps).*2 loc).1 in
    AnalyzeObject (locMeta loc) = (name, kb, None) ∧ space ≠ "" ∧
    filterStsByLoc LabelSelectorAsSelector (map_range sts).*2 loc = (stsSelecting, None) ∧
    onLocation locKey w
    = locLoops space name (get_set (epsBySelectedLoc (csStore w)) locKey) new
        (makeSinglePlacementsForLoc kbSpaceRelation (Some loc) stsSelecting)
        (MkControllerState
           (MkInternalData (<[locKey:=new]> (epsBySelectedLoc (csStore w)))
              (updateColumn locKey (packStKeys MetaNamespaceKeyFunc stsSelecting)
                 (locsBySelectedSt (csStore w))))
           (csSlices w) (csApi w)).
Proof.
  intros Hsplit Hloc. unfold reconcileOnLocation, cache_Get, cache_List, analyze, consumerSpace.
  unfold mbind, M_bind, AnalyzeClusterScopedObject. cbn. rw Hsplit. cbn. rw Hloc. cbn.
  destruct (AnalyzeObject (locMeta loc)) as [[name kb] [err|]]; cbn; [by left; eexists|].
  case_bool_decide as Hs; cbn; [by left; eexists|].
  destruct (filterStsByLoc LabelSelectorAsSelector (map_range sts).*2 loc) as [sel [err|]] eqn:Hf; cbn;
    [by left; eexists|].
  right. exists name, kb, sel. done.
Qed.

(** The SinglePlacements for one Location. *)
Definition loc_singles (loc : Location LabelSelector) : list SinglePlacement :=
  makeSinglePlacementsForLoc kbSpaceRelation (Some loc)
    (filterStsByLoc LabelSelectorAsSelector (map_range sts).*2 loc).1.

Lemma singlesForLocs_run ls acc w :
  (∃ e, singlesForLocs LabelSelectorAsSelector kbSpaceRelation (cache_List sts) (Api := Api) ls acc w
     = (Err e, w)) ∨
  singlesForLocs LabelSelectorAsSelector kbSpaceRelation (cache_List sts) (Api := Api) ls acc w
  = (Ok (acc ++ (ls ≫= loc_singles)), w) ∧
  ∀ loc, loc ∈ ls → (filterStsByLoc LabelSelectorAsSelector (map_range sts).*2 loc).2 = None.
Proof.
  revert acc. induction ls as [|loc ls IH]; intros acc.
  { right. split; [by rw app_nil_r|set_solver]. }
  assert (∀ sel err, filterStsByLoc LabelSelectorAsSelector (map_range sts).*2 loc = (sel, err) →
    singlesForLocs LabelSelectorAsSelector kbSpaceRelation (cache_List sts) (Api := Api) (loc :: ls) acc w
    = match err with
      | Some e => (Err e, w)
      | None => singlesForLocs LabelSelectorAsSelector kbSpaceRelation (cache_List sts) (Api := Api) ls
                  (acc ++ makeSinglePlacementsForLoc kbSpaceRelation (Some loc) sel) w
      end) as Hstep.
  { intros sel err Hf. cbn [singlesForLocs]. unfold mbind, M_bind, cache_List. cbn. rw Hf. by destruct err. }
  rw bind_cons. unfold loc_singles at 1.
  destruct (filterStsByLoc LabelSelectorAsSelector (map_range sts).*2 loc) as [sel err] eqn:Hf.
  rw (Hstep sel err eq_refl). destruct err as [e|]; [by left; exists e|]. cbn [fst]. rw app_assoc.
  destruct (IH (acc ++ makeSinglePlacementsForLoc kbSpaceRelation (Some loc) sel)) as [?|[Hr Hall]]; [by left|].
  right. split; [done|]. intros x [-> |Hx]%elem_of_cons; [by rw Hf|by apply Hall].
Qed.

Abbreviation writeSlice := (writeSPS singlePlacementSliceLister_error ConfigForSpace NewForConfig
  json_Marshal SinglePlacementSlices_Patch SinglePlacementSlices_Create EdgePlacements_Get).

(** The run on an EdgePlacement in the cache: an error without any effect, or an update of
    its column and then the writing of its slice. *)
Lemma onEdgePlacement_run epKey ep w :
  SplitMetaNamespaceKey epKey = inr ("", epKey) → eps !! epKey = Some ep →
  let selected := (filterLocsByEp LabelSelectorAsSelector (map_range locs).*2 ep).1 in
  (∃ e, onEdgePlacement epKey w = (Err e, w)) ∨
  let w1 := MkControllerState
              (MkInternalData (updateColumn epKey (packLocKeys MetaNamespaceKeyFunc selected)
                 (epsBySelectedLoc (csStore w))) (locsBySelectedSt (csStore w)))
              (csSlices w) (csApi w) in
  (∃ e, onEdgePlacement epKey w = (Err e, w1)) ∨
  ∃ name kb, AnalyzeObject (epMeta ep) = (name, kb, None) ∧
    SpaceIDFromKubeBind kbSpaceRelation kb ≠ "" ∧
    (∀ loc, loc ∈ selected →
       (filterStsByLoc LabelSelectorAsSelector (map_range sts).*2 loc).2 = None) ∧
    onEdgePlacement epKey w
    = writeSlice epKey name (SpaceIDFromKubeBind kbSpaceRelation kb) (selected ≫= loc_singles) w1.
Proof.
  intros Hsplit Hep selected.
  assert (onEdgePlacement epKey w
    = (singles ← singlesForLocs LabelSelectorAsSelector kbSpaceRelation (cache_List sts) selected [];
       modify_store (λ d, MkInternalData (updateColumn epKey (packLocKeys MetaNamespaceKeyFunc selected)
         (epsBySelectedLoc d)) (locsBySelectedSt d));;
       '(originalName, kbSpaceID) ← analyze (Some (epMeta ep));
       spaceID ← consumerSpace kbSpaceRelation kbSpaceID;
       writeSlice epKey originalName spaceID singles) w) as ->.
  { unfold reconcileOnEdgePlacement, cache_Get. unfold mbind, M_bind. cbn. rw Hsplit. cbn. by rw Hep. }
  destruct (singlesForLocs_run selected [] w) as [[e He]|[He Hall]].
  { left. exists e. by rw (bind_run_err _ _ _ _ _ He). }
  right. rw (bind_run_ok _ _ _ _ _ He) modify_run.
  cbv zeta.
  match goal with |- context [(analyze (Some (epMeta ep)) ≫= _) ?w1] => set (w1' := w1) end.
  destruct (AnalyzeObject (epMeta ep)) as [[name kb] [err|]] eqn:Ha.
  { left. exists err. apply (bind_run_err _ _ _ err w1'). unfold analyze. cbn. by rw Ha. }
  assert (analyze (Some (epMeta ep)) w1' = (Ok (name, kb), w1')) as Hrun.
  { unfold analyze. cbn. by rw Ha. }
  rw (bind_run_ok _ _ _ _ _ Hrun).
  destruct (decide (SpaceIDFromKubeBind kbSpaceRelation kb = "")) as [Hs|Hs].
  - left. eexists. apply (bind_run_err _ _ _ _ w1'). unfold consumerSpace. cbv zeta. by rw bool_decide_eq_true_2.
  - right. exists name, kb. split; [done|]. split; [done|]. split; [done|].
    assert (consumerSpace kbSpaceRelation kb w1' = (Ok (SpaceIDFromKubeBind kbSpaceRelation kb), w1')) as Hc.
    { unfold consumerSpace. cbv zeta. by rw bool_decide_eq_false_2. }
    by rw (bind_run_ok _ _ _ _ _ Hc).
Qed.

Lemma onEdgePlacement_gone epKey w :
  SplitMetaNamespaceKey epKey = inr ("", epKey) → eps !! epKey = None →
  onEdgePlacement epKey w
  = (Ok (), MkControllerState (dropEp epKey (csStore w)) (csSlices w) (csApi w)).
Proof.
  intros Hsplit Hep. unfold reconcileOnEdgePlacement, cache_Get, mbind, M_bind. cbn. rw Hsplit. cbn. by rw Hep.
Qed.

Lemma writeSlice_frame epName name spaceID singles w :
  csStore (writeSlice epName name spaceID singles w).2 = csStore w.
Proof. revert w. change (store_frame id (writeSlice epName name spaceID singles)). unfold writeSPS. solve_frame. Qed.

Lemma locLoops_frame space name old new singles w :
  csStore (locLoops space name old new singles w).2 = csStore w.
Proof.
  revert w. change (store_frame id (locLoops space name old new singles)). unfold locLoops.
  solve_frame; apply updateForLoc_frame.
Qed.

(** ** Exactness *)

Lemma row_updateColumn d epKey ep loc locKey ls :
  eps !! epKey = Some ep → locs !! locKey = Some loc → row_exact d loc locKey →
  row_exact (MkInternalData (updateColumn epKey (packLocKeys MetaNamespaceKeyFunc
    (filterLocsByEp LabelSelectorAsSelector (map_range locs).*2 ep).1) (epsBySelectedLoc d)) ls) loc locKey.
Proof.
  intros Hep Hloc Hrow k. cbn. rw updateColumn_spec. case_decide as Hk; [|apply Hrow]. subst k.
  rw (selected_locs epKey ep) //. naive_solver.
Qed.

Lemma row_onLocation d loc locKey other ls :
  (other = locKey ∨ row_exact d loc other) →
  (other = locKey → locs !! other = Some loc) →
  ∀ loc', locs !! locKey = Some loc' →
  row_exact (MkInternalData (<[locKey:=packEpKeys MetaNamespaceKeyFunc
    (filterEpsByLoc LabelSelectorAsSelector (map_range eps).*2 loc').1]> (epsBySelectedLoc d)) ls) loc other.
Proof.
  intros Hrow Hsame loc' Hloc' k. cbn. unfold get_set. destruct (decide (other = locKey)) as [-> |Hne].
  - rw lookup_insert_eq. cbn. rw selecting_eps. naive_solver.
  - rw lookup_insert_ne //. by destruct Hrow as [|Hrow]; [|apply Hrow].
Qed.

(** The invariant is preserved whatever the outcome of the reconciliation. *)
Lemma process_preserves item w loc locKey :
  SplitMetaNamespaceKey (qiKey item) = inr ("", qiKey item) →
  locs !! locKey = Some loc → row_exact (csStore w) loc locKey →
  row_exact (csStore (processItem item w).2) loc locKey.
Proof.
  destruct item as [[] key]; cbn [qiKey process qiTriggeringKind]; intros Hsplit Hloc Hrow.
  - destruct (eps !! key) as [ep|] eqn:Hep.
    + pose proof (row_updateColumn _ key ep loc locKey (locsBySelectedSt (csStore w)) Hep Hloc Hrow) as Hrow'.
      destruct (onEdgePlacement_run key ep w Hsplit Hep) as [[e ->]|[[e ->]|(name & kb & _ & _ & _ & ->)]]; [done..|].
      by rw writeSlice_frame.
    + rw onEdgePlacement_gone //. intros k. cbn. rw dropEp_spec Hrow. naive_solver.
  - destruct (locs !! key) as [loc'|] eqn:Hloc'.
    + destruct (onLocation_run key loc' w Hsplit Hloc') as [[e ->]|(name & kb & sel & _ & _ & _ & ->)]; [done|].
      rw locLoops_frame. apply row_onLocation; [by right|naive_solver|done].
    + assert (onLocation key w = (Panic, w)) as ->; [|done].
      unfold reconcileOnLocation, cache_Get, mbind, M_bind. cbn. rw Hsplit. cbn. by rw Hloc'.
  - intros k. rw (onSyncTarget_store key w). apply Hrow.
Qed.

(** A successful reconciliation establishes it for its Location. *)
Lemma process_establishes w w' loc locKey :
  SplitMetaNamespaceKey locKey = inr ("", locKey) → locs !! locKey = Some loc →
  processItem (MkQueueItem triggeringKindLocation locKey) w = (Ok (), w') →
  row_exact (csStore w') loc locKey.
Proof.
  intros Hsplit Hloc. cbn.
  destruct (onLocation_run locKey loc w Hsplit Hloc) as [[e ->]|(name & kb & sel & _ & _ & _ & Hrun)]; [done|].
  intros Hok. rw Hok in Hrun. apply (f_equal (λ r, csStore r.2)) in Hrun. cbn [snd] in Hrun.
  rw locLoops_frame in Hrun. rw Hrun. by apply row_onLocation; [left| |].
Qed.

(** If a selector of a cached EdgePlacement is malformed, the reconciliation of a Location
    succeeds all the same, but the row of the Location lacks every EdgePlacement that comes
    later in the list, whether it selects the Location or not: the error is only logged. *)
Theorem malformed_selector_hides w w' loc locKey before bad after err :
  SplitMetaNamespaceKey locKey = inr ("", locKey) → locs !! locKey = Some loc →
  (map_range eps).*2 = before ++ bad :: after →
  matchesAny LabelSelectorAsSelector (epLocationSelectors bad) (omLabels (locMeta loc)) = inl err →
  processItem (MkQueueItem triggeringKindLocation locKey) w = (Ok (), w') →
  get_set (epsBySelectedLoc (csStore w')) locKey
  = packEpKeys MetaNamespaceKeyFunc (filterEpsByLoc LabelSelectorAsSelector before loc).1.
Proof.
  intros Hsplit Hloc Hlist Hbad. cbn.
  destruct (onLocation_run locKey loc w Hsplit Hloc) as [[e ->]|(name & kb & sel & _ & _ & _ & Hrun)]; [done|].
  intros Hok. rw Hok in Hrun. apply (f_equal (λ r, csStore r.2)) in Hrun. cbn [snd] in Hrun.
  rw locLoops_frame in Hrun. rw Hrun. cbn [csStore epsBySelectedLoc]. unfold get_set. rw lookup_insert_eq. cbn [default].
  unfold filterEpsByLoc. by rw Hlist (filter_loop_err _ _ _ _ _ err).
Qed.

(** Reconciliations one after the other, with their results. *)
Inductive processes : controllerState Api → list (queueItem * Result ()) → controllerState Api → Prop :=
| processes_nil w : processes w [] w
| processes_cons w item r w1 trace w2 :
    SplitMetaNamespaceKey (qiKey item) = inr ("", qiKey item) →
    processItem item w = (r, w1) → processes w1 trace w2 → processes w ((item, r) :: trace) w2.

(** C27: the internal data converge, provided that all Location selectors of the cached
    EdgePlacements are well-formed and objects are cached under their keys: once every cached
    Location has been reconciled successfully, in whatever order and among whatever other
    reconciliations of objects of the three kinds, failing ones included, while the caches
    stay the same, the row of each Location holds exactly the keys of the EdgePlacements that
    select it. (With a malformed selector in one EdgePlacement others may be missing.) *)
Theorem internalData_converges w trace w' :
  processes w trace w' →
  (∀ locKey, is_Some (locs !! locKey) → (MkQueueItem triggeringKindLocation locKey, Ok ()) ∈ trace) →
  ∀ locKey loc, locs !! locKey = Some loc → row_exact (csStore w') loc locKey.
Proof.
  intros Hp Hall locKey loc Hloc. specialize (Hall locKey (mk_is_Some _ _ Hloc)).
  assert (row_exact (csStore w) loc locKey ∨
    (MkQueueItem triggeringKindLocation locKey, Ok ()) ∈ trace) as Hor by by right.
  clear Hall. induction Hp as [w|w item r w1 trace w2 Hsplit Hrun Hp IH].
  - destruct Hor as [|Hin]; [done|]. set_solver.
  - apply IH. destruct Hor as [Hrow|[[= Hi Hr]|Hin]%elem_of_cons]; [| |by right]; left.
    + pose proof (process_preserves item w loc locKey Hsplit Hloc Hrow) as Hpres. by rw Hrun in Hpres.
    + subst item r. by eapply process_establishes.
Qed.

(** * The slices *)

(** The SyncTargets at a Location, as SinglePlacements: those of the same consumer whose
    labels match the selector of the Location. *)
Definition placed_at (loc : Location LabelSelector) (kb space name : string) (sp : SinglePlacement) : Prop :=
  ∃ stKey st stName selector, sts !! stKey = Some st ∧ AnalyzeObject (stMeta st) = (stName, kb, None) ∧
    LabelSelectorAsSelector (locInstanceSelector loc) = inr selector ∧
    selector (omLabels (stMeta st)) = true ∧
    sp = MkSinglePlacement space name stName (omUID (stMeta st)).

Lemma filterStsByLoc_spec loc name kb sel st :
  AnalyzeObject (locMeta loc) = (name, kb, None) →
  filterStsByLoc LabelSelectorAsSelector (map_range sts).*2 loc = (sel, None) →
  st ∈ sel ↔ ∃ stKey stName selector, sts !! stKey = Some st ∧ AnalyzeObject (stMeta st) = (stName, kb, None) ∧
    LabelSelectorAsSelector (locInstanceSelector loc) = inr selector ∧ selector (omLabels (stMeta st)) = true.
Proof.
  unfold filterStsByLoc. intros -> Hf.
  match type of Hf with filter_loop ?test ?xs [] = _ => pose proof (filter_loop_spec test xs []) as Hspec end.
  rw Hf in Hspec. cbn [fst snd app] in Hspec. rw Hspec // list_elem_of_filter elem_of_cache_list. clear Hf Hspec.
  destruct (AnalyzeObject (stMeta st)) as [[stName kb'] [err|]]; [naive_solver|].
  case_bool_decide as Hkb; cbn [negb]; [|naive_solver].
  destruct (LabelSelectorAsSelector (locInstanceSelector loc)) as [e|selector]; [naive_solver|]. split.
  - intros [[= Hm] [k Hk]]. exists k, stName, selector. by subst.
  - intros (k & n & selector' & Hk & _ & [= <-] & Hm). split; [by rw Hm|by exists k].
Qed.

Lemma make_all space name (xs : list SyncTarget) acc sp :
  sp ∈ for_each xs (λ st made,
    let '(stName, _, err) := AnalyzeObject (stMeta st) in
    match err with
    | Some _ => made
    | None => made ++ [MkSinglePlacement space name stName (omUID (stMeta st))]
    end) acc ↔
  sp ∈ acc ∨ ∃ st stName kb, st ∈ xs ∧ AnalyzeObject (stMeta st) = (stName, kb, None) ∧
    sp = MkSinglePlacement space name stName (omUID (stMeta st)).
Proof.
  revert acc. induction xs as [|st xs IH]; intros acc; [cbn; set_solver|]. rw for_each_cons IH.
  setoid_rewrite elem_of_cons. destruct (AnalyzeObject (stMeta st)) as [[n kb] [err|]] eqn:Ha.
  - split; (intros [Hin|(x & m & k & Hx & Hm & Hsp)]; [by left|]); right; exists x, m, k.
    + by split; [right|].
    + destruct Hx as [-> |Hx]; [congruence|done].
  - rw elem_of_app list_elem_of_singleton. split.
    + intros [[Hin| ->]|(x & m & k & Hx & Hm & Hsp)]; [by left| |]; right.
      * exists st, n, kb. by split; [left|].
      * exists x, m, k. by split; [right|].
    + intros [Hin|(x & m & k & [-> |Hx] & Hm & Hsp)]; [by left; left| |by right; exists x, m, k].
      left; right. congruence.
Qed.

Lemma singles_spec loc name kb sel sp :
  AnalyzeObject (locMeta loc) = (name, kb, None) → SpaceIDFromKubeBind kbSpaceRelation kb ≠ "" →
  filterStsByLoc LabelSelectorAsSelector (map_range sts).*2 loc = (sel, None) →
  sp ∈ makeSinglePlacementsForLoc kbSpaceRelation (Some loc) sel ↔
  placed_at loc kb (SpaceIDFromKubeBind kbSpaceRelation kb) name sp.
Proof.
  intros Ha Hs Hf. unfold placed_at, makeSinglePlacementsForLoc.
  transitivity (∃ st stName, st ∈ sel ∧ AnalyzeObject (stMeta st) = (stName, kb, None) ∧
    sp = MkSinglePlacement (SpaceIDFromKubeBind kbSpaceRelation kb) name stName (omUID (stMeta st))); last first.
  { split.
    - intros (st & stName & (k & n & selector & Hk & Hn & Hl & Hm)%(filterStsByLoc_spec loc name kb sel st Ha Hf) & Hn' & ->).
      exists k, st, stName, selector. done.
    - intros (k & st & stName & selector & Hk & Hn & Hl & Hm & ->). exists st, stName.
      split; [|done]. apply (filterStsByLoc_spec loc name kb sel st Ha Hf). by exists k, stName, selector. }
  destruct (length sel =? 0)%nat eqn:Hlen.
  { apply Nat.eqb_eq, length_zero_iff_nil in Hlen as ->. set_solver. }
  rw Ha. rw bool_decide_eq_false_2 //.
  rw make_all. split.
  - intros [|(st & stName & kb' & Hin & Hn & ->)]; [set_solver|]. exists st, stName.
    pose proof Hin as (k & n & selector & _ & Hn' & _)%(filterStsByLoc_spec loc name kb sel st Ha Hf).
    split; [done|]. split; [congruence|done].
  - intros (st & stName & Hin & Hn & ->). right. by exists st, stName, kb.
Qed.

(** The destinations that the API servers hold, by space and name of the slice, and what
    the calls do to them when they succeed. *)
Class ApiServerOk (destinations : Api → gmap (string * string) (list SinglePlacement)) : Prop := {
  patch_sets : ∀ space config client dests bytes name api api',
    ConfigForSpace space = inr config → NewForConfig config = inr client →
    json_Marshal dests = inr bytes →
    SinglePlacementSlices_Patch client name (patch_text bytes) api = (None, api') →
    destinations api' = <[(space, name):=dests]> (destinations api);
  create_sets : ∀ space config client name owner dests api api',
    ConfigForSpace space = inr config → NewForConfig config = inr client →
    SinglePlacementSlices_Create client name owner dests api = (Created, api') →
    destinations api' = <[(space, name):=dests]> (destinations api)
}.

(** The consumer's slice that a cached slice is a copy of. *)
Definition consumer (sps : PlacementSlice) (key : string * string) : Prop :=
  ∃ name kb, AnalyzeObject (slMeta sps) = (name, kb, None) ∧
    SpaceIDFromKubeBind kbSpaceRelation kb ≠ "" ∧ key = (SpaceIDFromKubeBind kbSpaceRelation kb, name).

(** Slices are cached under their names. *)
Definition keyed (slices : gmap string PlacementSlice) : Prop :=
  ∀ n sps, slices !! n = Some sps → omName (slMeta sps) = n.

Context (destinations : Api → gmap (string * string) (list SinglePlacement)).
Context `{!ApiServerOk destinations, !KubeBindSpaceRelationOk kbSpaceRelation}.

(** Different cached slices are copies of different slices. *)
Lemma consumer_inj slices n1 n2 sps1 sps2 key :
  keyed slices → slices !! n1 = Some sps1 → slices !! n2 = Some sps2 →
  consumer sps1 key → consumer sps2 key → n1 = n2.
Proof.
  intros Hk H1%Hk H2%Hk (m1 & kb1 & (_ & Hne1 & _ & Hn1)%Analyze_spec & Hs1 & ->)
    (m2 & kb2 & (_ & Hne2 & _ & Hn2)%Analyze_spec & Hs2 & [= Hs ->]).
  assert (kb1 = kb2) as -> by
    (rw -(proj2 (space_ids_one_to_one _ kb1 Hs1 Hne1) eq_refl) Hs; by apply space_ids_one_to_one).
  congruence.
Qed.

Definition new_slice (space name : string) (singles : option (list SinglePlacement)) (sps : PlacementSlice)
  : PlacementSlice :=
  let sps := cleanSPSByLoc sps space name in
  match singles with Some singles => extendSPS sps singles | None => sps end.

Lemma patch_ok dests space name w w' :
  patchSpsDestinations ConfigForSpace NewForConfig json_Marshal SinglePlacementSlices_Patch
    dests space name w = (Ok (), w') →
  csSlices w' = csSlices w ∧ destinations (csApi w') = <[(space, name):=dests]> (destinations (csApi w)).
Proof.
  unfold patchSpsDestinations. intros (bytes & w1 & [Hb ->]%check_sum_ok & Hp)%bind_ok.
  apply bind_ok in Hp as (config & w1 & [Hc ->]%check_sum_ok & Hp).
  apply bind_ok in Hp as (client & w1 & [Hn ->]%check_sum_ok & Hp).
  apply bind_ok in Hp as (err & w1 & Hcall & [-> ->]%check_err_ok). unfold api_call in Hcall.
  destruct (SinglePlacementSlices_Patch client name (patch_text bytes) (csApi w)) as [e api] eqn:Hpatch.
  injection Hcall as -> <-. split; [done|]. cbn. by eapply patch_sets.
Qed.

Lemma getConsumer_ok sps w name space w' :
  getConsumerSpaceForSPS kbSpaceRelation (Api := Api) sps w = (Ok (name, space), w') →
  consumer sps (space, name) ∧ w' = w.
Proof.
  unfold getConsumerSpaceForSPS, analyze, consumerSpace. cbn.
  destruct (AnalyzeObject (slMeta sps)) as [[n kb] [err|]] eqn:Ha; [by intros [=]|].
  unfold mbind, M_bind. cbn. case_bool_decide; [by intros [=]|]. intros [= <- <- <-].
  split; [|done]. by exists n, kb.
Qed.

Lemma updateForLoc_ok space name singles ep w w' :
  SplitMetaNamespaceKey ep = inr ("", ep) → updateForLoc space name singles ep w = (Ok (), w') →
  ∃ sps key, csSlices w !! ep = Some sps ∧ consumer sps key ∧
    csSlices w' = <[ep:=new_slice space name singles sps]> (csSlices w) ∧
    destinations (csApi w')
    = <[key:=slDestinations (new_slice space name singles sps)]> (destinations (csApi w)).
Proof.
  unfold updateSPSForLoc. intros Hsplit ([ns n] & w1 & [Hs ->]%check_sum_ok & Hp)%bind_ok.
  rw Hsplit in Hs. injection Hs as <- <-.
  apply bind_ok in Hp as (l & w1 & Hl & Hp). apply bind_ok in Hp as (sps & w2 & Hf & Hp).
  apply bind_ok in Hp as ([m sid] & w3 & Hc & Hp). apply getConsumer_ok in Hc as [Hc ->].
  assert (w1 = w ∧ w2 = w1 ∧ csSlices w !! ep = Some sps) as (-> & -> & Hsps).
  { unfold singlePlacementSliceLister_Get in Hl. destruct (singlePlacementSliceLister_error ep).
    - injection Hl as <- <-. by injection Hf.
    - injection Hl as <- <-. destruct (csSlices w !! ep); [|by injection Hf]. by injection Hf as -> ->. }
  apply bind_ok in Hp as ([] & w1 & [= <-] & Hp). apply patch_ok in Hp as [Hsl Hd].
  exists sps, (sid, m). cbn in Hsl, Hd. by destruct singles.
Qed.

(** A loop of updates: each slice of the list is written once, the others are not. *)
Lemma updates_ok space name jobs w w' :
  NoDup jobs.*1 → (∀ ep, ep ∈ jobs.*1 → SplitMetaNamespaceKey ep = inr ("", ep)) → keyed (csSlices w) →
  for_all (λ job : string * option (list SinglePlacement), updateForLoc space name job.2 job.1) jobs w
  = (Ok (), w') →
  (∀ ep singles, (ep, singles) ∈ jobs → ∃ sps key, csSlices w !! ep = Some sps ∧ consumer sps key ∧
     destinations (csApi w') !! key = Some (slDestinations (new_slice space name singles sps))) ∧
  (∀ key, (∀ ep sps, ep ∈ jobs.*1 → csSlices w !! ep = Some sps → ¬ consumer sps key) →
     destinations (csApi w') !! key = destinations (csApi w) !! key).
Proof.
  revert w. induction jobs as [|[ep singles] jobs IH]; intros w.
  { intros _ _ _ [= ->]. split; [set_solver|done]. }
  cbn [fmap list_fmap fst for_all]. rw NoDup_cons. intros [Hnin Hnd] Hsplit Hk Hrun.
  apply bind_ok in Hrun as ([] & w1 & Hhead & Htail).
  apply updateForLoc_ok in Hhead as (sps & key & Hsps & Hcons & Hsl & Hd); [|apply Hsplit; set_solver].
  cbn [snd] in Hsl, Hd.
  assert (∀ n, n ≠ ep → csSlices w1 !! n = csSlices w !! n) as Hother.
  { intros n Hne. by rw Hsl lookup_insert_ne. }
  assert (keyed (csSlices w1)) as Hk1.
  { intros n s. rw Hsl lookup_insert_Some. intros [[<- <-]|[_ Hs]]; [|by apply Hk].
    rw -(Hk _ _ Hsps). by destruct singles. }
  destruct (IH w1 Hnd) as [Hin Hout]; [intros n Hn; apply Hsplit; set_solver|done|done|]. split.
  - intros ep' singles' [[= -> ->]|Hjob]%elem_of_cons.
    + exists sps, key. split; [done|]. split; [done|]. rw Hout.
      * by rw Hd lookup_insert_eq.
      * intros n s Hn Hs Hc. assert (n ≠ ep) as Hne by set_solver. rw Hother // in Hs.
        by apply Hne, (consumer_inj (csSlices w) n ep s sps key).
    + assert (ep' ≠ ep) as Hne.
      { intros ->. apply Hnin, list_elem_of_fmap. by exists (ep, singles'). }
      destruct (Hin _ _ Hjob) as (s & k & Hs & ?). rw Hother // in Hs. by exists s, k.
  - intros k Hnone. rw Hout.
    + rw Hd lookup_insert_ne //. intros ->. eapply Hnone; [|done..]. set_solver.
    + intros n s Hn Hs. assert (n ≠ ep) as Hne by set_solver. rw Hother // in Hs. eapply Hnone; [|done]. set_solver.
Qed.

(** What a written slice lists. *)
Lemma new_slice_in loc kb space name singles sps sp (P : Prop) `{Decision P} :
  (∀ x, x ∈ singles ↔ placed_at loc kb space name x) →
  sp ∈ slDestinations (new_slice space name (if bool_decide P then Some singles else None) sps) ↔
  if decide (spCluster sp = space ∧ spLocationName sp = name)
  then P ∧ placed_at loc kb space name sp else sp ∈ slDestinations sps.
Proof.
  intros Hsingles.
  assert (placed_at loc kb space name sp → spCluster sp = space ∧ spLocationName sp = name) as Hat
    by (by intros (? & ? & ? & ? & _ & _ & _ & _ & ->)).
  unfold new_slice. case_bool_decide as HP; cbn; [rw elem_of_app Hsingles|]; rw list_elem_of_filter;
    (case_decide as Hsp; [naive_solver|]); apply not_and_l_alt in Hsp; naive_solver.
Qed.

Definition loc_jobs (old new : gset string) (singles : list SinglePlacement)
  : list (string * option (list SinglePlacement)) :=
  ((λ ep, (ep, if bool_decide (ep ∈ new) then Some singles else None)) <$> set_range old) ++
  ((λ ep, (ep, Some singles)) <$> filter (λ ep, ep ∉ old) (set_range new)).

Lemma locLoops_jobs space name old new singles w :
  locLoops space name old new singles w
  = for_all (λ job : string * option (list SinglePlacement), updateForLoc space name job.2 job.1)
      (loc_jobs old new singles) w.
Proof.
  unfold locLoops, loc_jobs. rw for_all_app. unfold mbind, M_bind. rw for_all_fmap.
  rw (for_all_ext (λ ep, if negb (bool_decide (ep ∈ new)) then updateForLoc space name None ep
                         else updateForLoc space name (Some singles) ep)
        (λ ep, updateForLoc space name (if bool_decide (ep ∈ new) then Some singles else None) ep));
    [|intros ep w1; by case_bool_decide].
  cbn [fst snd]. destruct (for_all _ (set_range old) w) as [[[]|e|] w1]; [|done..].
  rw for_all_fmap for_all_filter. apply for_all_ext. intros ep w2. cbn [fst snd].
  destruct (decide (ep ∈ old)) as [Hin|Hin].
  - by rw (bool_decide_eq_true_2 (ep ∈ old)) // bool_decide_eq_false_2 //; naive_solver.
  - by rw (bool_decide_eq_false_2 (ep ∈ old)) // bool_decide_eq_true_2.
Qed.

Lemma pair_keys {A B} (g : A → B) (xs : list A) : ((λ x, (x, g x)) <$> xs).*1 = xs.
Proof. induction xs as [|x xs IH]; [done|]. cbn. by f_equal. Qed.

Lemma loc_jobs_keys old new singles :
  NoDup (loc_jobs old new singles).*1 ∧ ∀ ep, ep ∈ (loc_jobs old new singles).*1 ↔ ep ∈ old ∨ ep ∈ new.
Proof.
  unfold loc_jobs. rw fmap_app !pair_keys. split.
  - apply NoDup_app. split; [apply NoDup_set_range|]. split; [|apply NoDup_filter, NoDup_set_range].
    intros ep Hin%elem_of_set_range. rw list_elem_of_filter. naive_solver.
  - intros ep. rw elem_of_app list_elem_of_filter !elem_of_set_range.
    destruct (decide (ep ∈ old)); naive_solver.
Qed.

Lemma loc_jobs_in old new singles ep :
  ep ∈ old ∨ ep ∈ new →
  (ep, if bool_decide (ep ∈ new) then Some singles else None) ∈ loc_jobs old new singles.
Proof.
  intros Hep. unfold loc_jobs. rw elem_of_app !list_elem_of_fmap.
  destruct (decide (ep ∈ old)) as [Hin|Hin].
  - left. exists ep. split; [done|]. by apply elem_of_set_range.
  - right. exists ep. destruct Hep as [|Hnew]; [done|]. rw bool_decide_eq_true_2 //. split; [done|].
    apply list_elem_of_filter. split; [done|]. by apply elem_of_set_range.
Qed.

(** C26: reconciling a cached Location writes the slices, provided that all Location selectors
    of the cached EdgePlacements are well-formed, that the objects are cached under their keys,
    which are plain names, and that the identifiers of spaces and of their consumers are one to
    one: when it succeeds, the slice of each EdgePlacement that selected the Location when it
    was last reconciled, or selects it, has, among the destinations at this Location, exactly
    the SyncTargets at the Location if the EdgePlacement selects it, and none otherwise; its
    other destinations are those it had in the cache, and no other slice is written. (With a
    malformed selector in one EdgePlacement the slices of others may be cleaned.) *)
Theorem reconcileOnLocation_writes_slices locKey loc w w' :
  SplitMetaNamespaceKey locKey = inr ("", locKey) → locs !! locKey = Some loc →
  (∀ ep, ep ∈ get_set (epsBySelectedLoc (csStore w)) locKey ∨ is_Some (eps !! ep) →
     SplitMetaNamespaceKey ep = inr ("", ep)) →
  keyed (csSlices w) → onLocation locKey w = (Ok (), w') →
  let selecting ep := ∃ epObj, eps !! ep = Some epObj ∧ selects epObj loc in
  let affected ep := ep ∈ get_set (epsBySelectedLoc (csStore w)) locKey ∨ selecting ep in
  ∃ name kb, AnalyzeObject (locMeta loc) = (name, kb, None) ∧
    let space := SpaceIDFromKubeBind kbSpaceRelation kb in
    (∀ ep, affected ep → ∃ sps key dests,
      csSlices w !! ep = Some sps ∧ consumer sps key ∧ destinations (csApi w') !! key = Some dests ∧
      ∀ sp, sp ∈ dests ↔
        if decide (spCluster sp = space ∧ spLocationName sp = name)
        then selecting ep ∧ placed_at loc kb space name sp
        else sp ∈ slDestinations sps) ∧
    (∀ key, (∀ ep sps, affected ep → csSlices w !! ep = Some sps → ¬ consumer sps key) →
      destinations (csApi w') !! key = destinations (csApi w) !! key).
Proof.
  intros Hsplit Hloc Hplain Hk Hrun selecting affected.
  destruct (onLocation_run locKey loc w Hsplit Hloc) as [[e He]|(name & kb & sel & Ha & Hs & Hf & Heq)]; [by rw He in Hrun|].
  exists name, kb. split; [done|]. cbv zeta in Heq. rw Heq locLoops_jobs in Hrun.
  match type of Hrun with for_all _ (loc_jobs ?o ?n ?s) _ = _ => set (old := o) in *; set (new := n) in *; set (singles := s) in * end.
  assert (∀ ep, ep ∈ new ↔ selecting ep) as Hnew by (intros ep; apply selecting_eps).
  destruct (loc_jobs_keys old new singles) as [Hnd Hkeys].
  assert (∀ ep, ep ∈ (loc_jobs old new singles).*1 → SplitMetaNamespaceKey ep = inr ("", ep)) as Hpl.
  { intros ep [Hep|Hep]%Hkeys; apply Hplain; [by left|]. apply Hnew in Hep as (epObj & Hep & _). by right. }
  apply updates_ok in Hrun as [Hin Hout]; [|exact Hnd|exact Hpl|exact Hk]. split.
  - intros ep Haff. assert (ep ∈ old ∨ ep ∈ new) as Hep by (destruct Haff; [by left|right; by apply Hnew]).
    destruct (Hin _ _ (loc_jobs_in old new singles ep Hep)) as (sps & key & Hsps & Hc & Hd).
    exists sps, key. eexists. split; [done|]. split; [done|]. split; [exact Hd|]. intros sp.
    etransitivity; [apply new_slice_in; intros x; by apply singles_spec|].
    destruct (decide _); [|done]. split; intros [He ?]; (split; [by apply Hnew|done]).
  - intros key Hnone. apply Hout. intros ep sps Hep. apply Hnone.
    apply Hkeys in Hep as [|Hep]; [by left|right]. by apply Hnew.
Qed.

(** The SinglePlacements of an EdgePlacement: the SyncTargets at the Locations it selects. *)
Definition placed_by (ep : EdgePlacement LabelSelector) (sp : SinglePlacement) : Prop :=
  ∃ locKey loc name kb, locs !! locKey = Some loc ∧ selects ep loc ∧
    AnalyzeObject (locMeta loc) = (name, kb, None) ∧ SpaceIDFromKubeBind kbSpaceRelation kb ≠ "" ∧
    placed_at loc kb (SpaceIDFromKubeBind kbSpaceRelation kb) name sp.

Lemma loc_singles_spec loc sp :
  (filterStsByLoc LabelSelectorAsSelector (map_range sts).*2 loc).2 = None →
  sp ∈ loc_singles loc ↔
  ∃ name kb, AnalyzeObject (locMeta loc) = (name, kb, None) ∧ SpaceIDFromKubeBind kbSpaceRelation kb ≠ "" ∧
    placed_at loc kb (SpaceIDFromKubeBind kbSpaceRelation kb) name sp.
Proof.
  unfold loc_singles.
  destruct (filterStsByLoc LabelSelectorAsSelector (map_range sts).*2 loc) as [sel err] eqn:Hf. cbn [fst snd]. intros ->.
  destruct (AnalyzeObject (locMeta loc)) as [[name kb] [err|]] eqn:Ha.
  { unfold filterStsByLoc in Hf. by rw Ha in Hf. }
  destruct (decide (SpaceIDFromKubeBind kbSpaceRelation kb = "")) as [Hs|Hs].
  - unfold makeSinglePlacementsForLoc. rw Ha. rw bool_decide_eq_true_2 //.
    destruct (length sel =? 0)%nat; (split; [set_solver|naive_solver]).
  - rw (singles_spec loc name kb) //. naive_solver.
Qed.

Lemma all_singles_spec epKey ep sp :
  eps !! epKey = Some ep →
  (∀ loc, loc ∈ (filterLocsByEp LabelSelectorAsSelector (map_range locs).*2 ep).1 →
     (filterStsByLoc LabelSelectorAsSelector (map_range sts).*2 loc).2 = None) →
  sp ∈ (filterLocsByEp LabelSelectorAsSelector (map_range locs).*2 ep).1 ≫= loc_singles ↔ placed_by ep sp.
Proof.
  intros Hep Hall. rw list_elem_of_bind. unfold placed_by.
  assert (∀ loc, loc ∈ (filterLocsByEp LabelSelectorAsSelector (map_range locs).*2 ep).1 ↔
    ∃ locKey, locs !! locKey = Some loc ∧ selects ep loc) as Hsel.
  { intros loc. unfold filterLocsByEp. rw filter_loop_spec; last first.
    { apply filter_loop_ok. intros l _. by eapply matches_selects. }
    cbn [app]. rw list_elem_of_filter elem_of_cache_list.
    rw (proj2 (matches_selects epKey ep loc Hep)). naive_solver. }
  split.
  - intros (loc & Hin & Hl). pose proof Hl as Hloc. apply Hsel in Hloc as (k & Hk & Hs).
    apply loc_singles_spec in Hin as (name & kb & ?); [|by apply Hall]. by exists k, loc, name, kb.
  - intros (k & loc & name & kb & Hk & Hs & Hrest). exists loc.
    assert (loc ∈ (filterLocsByEp LabelSelectorAsSelector (map_range locs).*2 ep).1) as Hl by (apply Hsel; by exists k).
    split; [|done]. apply loc_singles_spec; [by apply Hall|]. by exists name, kb.
Qed.

Lemma writeSlice_ok epName name space singles w w' :
  writeSlice epName name space singles w = (Ok (), w') →
  destinations (csApi w') = <[(space, name):=singles]> (destinations (csApi w)) ∨
  csSlices w !! epName = None ∧
  ∃ client owner api', SinglePlacementSlices_Create client name owner singles (csApi w) = (AlreadyExists, api').
Proof.
  unfold writeSPS. intros (config & w1 & [Hc ->]%check_sum_ok & Hp)%bind_ok.
  apply bind_ok in Hp as (client & w1 & [Hn ->]%check_sum_ok & Hp).
  apply bind_ok in Hp as (r & w1 & [= Hr <-] & Hp). apply bind_ok in Hp as (orig & w1 & [_ ->]%check_sum_ok & Hp).
  apply bind_ok in Hp as (l & w1 & Hl & Hp).
  assert (w1 = w ∧ (l = NotFound → csSlices w !! epName = None)) as [-> Hnone].
  { unfold singlePlacementSliceLister_Get in Hl. destruct (singlePlacementSliceLister_error epName).
    - injection Hl as <- <-. done.
    - injection Hl as <- <-. by destruct (csSlices w !! epName). }
  destruct l as [sps| |e]; [left; by apply patch_ok in Hp as [_ ?]| |done].
  apply bind_ok in Hp as (res & w1 & Hcall & Hp). unfold api_call in Hcall.
  destruct (SinglePlacementSlices_Create client name (edgePlacementOwner name (omUID orig)) singles (csApi w))
    as [res' api] eqn:Hcreate. injection Hcall as -> <-.
  destruct res as [| |e]; [|right|done].
  - injection Hp as <-. left. cbn. by eapply create_sets.
  - split; [by apply Hnone|]. by eexists _, _, api.
Qed.

(** Reconciling an EdgePlacement writes its slice: when it succeeds, the destinations
    of the consumer's slice are exactly the SyncTargets at the Locations that the
    EdgePlacement selects, and no other slice is written; unless the slice is neither
    cached nor, according to the API server, absent. *)
Theorem reconcileOnEdgePlacement_writes_slice epKey ep w w' :
  SplitMetaNamespaceKey epKey = inr ("", epKey) → eps !! epKey = Some ep →
  onEdgePlacement epKey w = (Ok (), w') →
  ∃ name kb dests, AnalyzeObject (epMeta ep) = (name, kb, None) ∧
    (∀ sp, sp ∈ dests ↔ placed_by ep sp) ∧
    (destinations (csApi w')
       = <[(SpaceIDFromKubeBind kbSpaceRelation kb, name):=dests]> (destinations (csApi w)) ∨
     csSlices w !! epKey = None ∧ ∃ client owner api',
       SinglePlacementSlices_Create client name owner dests (csApi w) = (AlreadyExists, api')).
Proof.
  intros Hsplit Hep Hrun.
  destruct (onEdgePlacement_run epKey ep w Hsplit Hep)
    as [[e He]|[[e He]|(name & kb & Ha & Hs & Hall & Heq)]]; [by rw He in Hrun..|].
  rw Heq in Hrun. exists name, kb, ((filterLocsByEp LabelSelectorAsSelector (map_range locs).*2 ep).1 ≫= loc_singles).
  split; [done|]. split; [intros sp; by eapply all_singles_spec|]. by apply writeSlice_ok in Hrun.
Qed.

(** C39: deletions are not handled: reconciling a Location or a SyncTarget that is gone from
    the cache panics, before the entry of the object is dropped from the internal data and
    before any slice is cleaned, because the nil object is analyzed first. *)
Theorem deleted_objects_panic key w :
  SplitMetaNamespaceKey key = inr ("", key) →
  (locs !! key = None →
   reconcileOnLocation LabelSelectorAsSelector MetaNamespaceKeyFunc SplitMetaNamespaceKey kbSpaceRelation
     (cache_List eps) (cache_Get locs) (cache_List sts) singlePlacementSliceLister_error ConfigForSpace
     NewForConfig json_Marshal SinglePlacementSlices_Patch key w = (Panic, w)) ∧
  (sts !! key = None →
   reconcileOnSyncTarget LabelSelectorAsSelector MetaNamespaceKeyFunc SplitMetaNamespaceKey kbSpaceRelation
     (cache_Get eps) (cache_List locs) (cache_Get sts) singlePlacementSliceLister_error ConfigForSpace
     NewForConfig json_Marshal SinglePlacementSlices_Patch key w = (Panic, w)).
Proof.
  intros Hsplit. split; intros Hnone;
    [unfold reconcileOnLocation|unfold reconcileOnSyncTarget];
    unfold cache_Get, mbind, M_bind; cbn; rw Hsplit; cbn; by rw Hnone.
Qed.

(** The two ways to match Locations with SyncTargets disagree across spaces: a Location
    whose selector matches a SyncTarget of another consumer does not list it, but the
    SyncTarget lists the Location, and is then placed at a Location of that name in its
    own space, where there need be none. *)
Theorem other_space_mismatch loc st locName locKB stName stKB selector :
  AnalyzeObject (locMeta loc) = (locName, locKB, None) →
  AnalyzeObject (stMeta st) = (stName, stKB, None) → locKB ≠ stKB →
  LabelSelectorAsSelector (locInstanceSelector loc) = inr selector →
  selector (omLabels (stMeta st)) = true → SpaceIDFromKubeBind kbSpaceRelation stKB ≠ "" →
  filterStsByLoc LabelSelectorAsSelector [st] loc = ([], None) ∧
  filterLocsBySt LabelSelectorAsSelector [loc] st = ([loc], None) ∧
  makeSinglePlacementsForSt kbSpaceRelation [loc] (Some st)
  = [MkSinglePlacement (SpaceIDFromKubeBind kbSpaceRelation stKB) locName stName (omUID (stMeta st))].
Proof.
  intros Hl Hs Hne Hsel Hm Hsp. split; [|split].
  - unfold filterStsByLoc. rw Hl. cbn. rw Hs. by rw bool_decide_eq_false_2.
  - unfold filterLocsBySt. cbn. rw Hsel. by rw Hm.
  - unfold makeSinglePlacementsForSt. cbn. rw Hs Hl. by rw bool_decide_eq_false_2.
Qed.
End resolver_facts.
