(* ===== verification/HashDomains.v ===== *)
(** Hash domains of pkg/placement (hash-domain.go): equality and a 64-bit hash,
    for strings (the CRC-64 of the Go standard library), slices, tuples, names,
    placements and upsync sets.

    A [HashValue] is a Go [uint64]: an integer between 0 and 2^64, with the sums
    and products of the source taken modulo 2^64. *)

From Stdlib Require Import Ascii.
From Stdlib Require String.
From S2P Require Import Prelude Tuples Slices Types.
Local Open Scope Z_scope.

(** * 64-bit arithmetic *)

Definition two64 : Z := 18446744073709551616.
Definition wrap64 (x : Z) : Z := x mod two64.
Definition u64_add (x y : Z) : Z := wrap64 (x + y).
Definition u64_mul (x y : Z) : Z := wrap64 (x * y).

(** * Domains *)

Record HashDomain (Elt : Type) : Type := NewHashDomainFuncs {
  hd_Equal : Elt → Elt → bool;
  hd_Hash : Elt → Z
}.
Arguments NewHashDomainFuncs {_} _ _.
Arguments hd_Equal {_} _ _ _.
Arguments hd_Hash {_} _ _.

Definition PairHashDomain {First Second} (first : HashDomain First) (second : HashDomain Second)
  : HashDomain (Pair First Second) :=
  NewHashDomainFuncs
    (λ left right, hd_Equal first left.1 right.1 && hd_Equal second left.2 right.2)
    (λ tup, u64_add (u64_mul (hd_Hash first tup.1) 257) (hd_Hash second tup.2)).

Definition TripleHashDomain {First Second Third} (first : HashDomain First)
  (second : HashDomain Second) (third : HashDomain Third)
  : HashDomain (Triple First Second Third) :=
  NewHashDomainFuncs
    (λ left right, hd_Equal first (tFirst left) (tFirst right)
                   && hd_Equal second (tSecond left) (tSecond right)
                   && hd_Equal third (tThird left) (tThird right))
    (λ tup, u64_add (u64_add (u64_mul (hd_Hash first (tFirst tup)) 65539)
                       (u64_mul (hd_Hash second (tSecond tup)) 257))
              (hd_Hash third (tThird tup))).

Definition NewTransformHashDomain {Original Transformed} (transform : Original → Transformed)
  (transformedDomain : HashDomain Transformed) : HashDomain Original :=
  NewHashDomainFuncs
    (λ left right,
       let leftT := transform left in
       let rightT := transform right in
       hd_Equal transformedDomain leftT rightT)
    (λ arg, let argT := transform arg in hd_Hash transformedDomain argT).

(** [SliceHashDomain.Equal] indexes the second slice along the first. *)
Definition SliceHashDomain_Equal {Elt} (eltDomain : HashDomain Elt) (left right : list Elt)
  : bool :=
  if negb (length left =? length right)%nat then false
  else SliceEqual_loop (hd_Equal eltDomain) 0 left right.

Definition SliceHashDomain_Hash {Elt} (eltDomain : HashDomain Elt) (slice : list Elt) : Z :=
  for_each slice (λ elt ans, u64_add (u64_mul ans 263) (hd_Hash eltDomain elt)) 0.

Definition NewSliceHashDomain {Elt} (eltDomain : HashDomain Elt) : HashDomain (list Elt) :=
  NewHashDomainFuncs (SliceHashDomain_Equal eltDomain) (SliceHashDomain_Hash eltDomain).

(** ** CRC-64 (hash/crc64 with the ECMA polynomial, bit-reversed) *)

Definition crc64_ECMA : Z := 0xC96C5795D7870F42.

(** [MakeTable]: one entry *)
Definition crc64_entry (i : Z) : Z :=
  Nat.iter 8 (λ crc, if Z.odd crc then Z.lxor (Z.shiftr crc 1) crc64_ECMA
                     else Z.shiftr crc 1) i.

Definition u64_not (x : Z) : Z := Z.lxor x (two64 - 1).

Definition crc64_update (crc v : Z) : Z :=
  Z.lxor (crc64_entry (Z.lxor (Z.land crc 255) v)) (Z.shiftr crc 8).

Definition bytes_of_string (s : string) : list Z :=
  (λ a, Z.of_N (N_of_ascii a)) <$> String.list_ascii_of_string s.

Definition StringHash (arg : string) : Z :=
  u64_not (for_each (bytes_of_string arg) (λ v crc, crc64_update crc v) (u64_not 0)).

(** ** The domains of the source *)

Definition HashDomainString : HashDomain string :=
  NewHashDomainFuncs (λ left right, bool_decide (left = right)) StringHash.

Definition SliceOfStringDomain : HashDomain (list string) := NewSliceHashDomain HashDomainString.

Definition HashLogicalClusterName : HashDomain string :=
  NewTransformHashDomain (λ name, name) HashDomainString.

Definition HashObjectName : HashDomain ObjectName :=
  NewTransformHashDomain (λ name : ObjectName, name) HashDomainString.

Definition HashClusterString : HashDomain (Pair string string) :=
  PairHashDomain HashLogicalClusterName HashDomainString.

Definition HashClusterObjectName : HashDomain (Pair string ObjectName) :=
  PairHashDomain HashLogicalClusterName HashObjectName.

Definition factorExternalName : Factorer ExternalName string ObjectName :=
  NewFactorer (λ whole, NewPair (enCluster whole) (enName whole))
    (λ parts, MkExternalName parts.1 parts.2).

Definition HashExternalName : HashDomain ExternalName :=
  NewTransformHashDomain (rotFirst factorExternalName) HashClusterObjectName.

Definition UpsyncSetEqual (left right : UpsyncSet) : bool :=
  if negb (bool_decide (usAPIGroup left = usAPIGroup right)) then false
  else SliceEqual (usResources left) (usResources right)
       && SliceEqual (usNamespaces left) (usNamespaces right)
       && SliceEqual (usNames left) (usNames right).

Definition HashUpsyncSet_Hash (arg : UpsyncSet) : Z :=
  u64_add
    (u64_add
       (u64_add (StringHash (usAPIGroup arg))
          (u64_mul 5 (hd_Hash SliceOfStringDomain (usResources arg))))
       (u64_mul 37 (hd_Hash SliceOfStringDomain (usNamespaces arg))))
    (u64_mul 257 (hd_Hash SliceOfStringDomain (usNames arg))).

Definition HashUpsyncSet : HashDomain UpsyncSet :=
  NewHashDomainFuncs UpsyncSetEqual HashUpsyncSet_Hash.

Definition HashSinglePlacement_Equal (left right : SinglePlacement) : bool :=
  bool_decide (spCluster left = spCluster right)
  && bool_decide (spLocationName left = spLocationName right)
  && bool_decide (spSyncTargetName left = spSyncTargetName right)
  && bool_decide (spSyncTargetUID left = spSyncTargetUID right).

Definition HashSinglePlacement_Hash (arg : SinglePlacement) : Z :=
  u64_add
    (u64_add (u64_add (StringHash (spCluster arg)) (StringHash (spLocationName arg)))
       (StringHash (spSyncTargetName arg)))
    (StringHash (spSyncTargetUID arg)).

Definition HashSinglePlacement : HashDomain SinglePlacement :=
  NewHashDomainFuncs HashSinglePlacement_Equal HashSinglePlacement_Hash.

(** * Lawful domains *)

(** What the hash map relies on: [Equal] decides equality, and hashes are [uint64]s. *)
Class HashDomainOk {Elt} `{EqDecision Elt} (d : HashDomain Elt) : Prop := {
  hd_Equal_ok : ∀ x y, hd_Equal d x y = bool_decide (x = y);
  hd_Hash_range : ∀ x, 0 ≤ hd_Hash d x < two64
}.

Lemma wrap64_range x : 0 ≤ wrap64 x < two64.
Proof. apply Z.mod_pos_bound. done. Qed.

Lemma u64_add_range x y : 0 ≤ u64_add x y < two64.
Proof. apply wrap64_range. Qed.

Lemma lxor_range (n a b : Z) : 0 ≤ n → 0 ≤ a < 2 ^ n → 0 ≤ b < 2 ^ n → 0 ≤ Z.lxor a b < 2 ^ n.
Proof.
  intros Hn Ha Hb.
  assert (0 ≤ Z.lxor a b) as Hpos by (apply Z.lxor_nonneg; lia). split; [done|].
  destruct (Z.eq_dec (Z.lxor a b) 0) as [->|Hnz]; [lia|].
  destruct (Z.eq_dec n 0) as [->|Hn0].
  { assert (a = 0) as -> by lia. assert (b = 0) as -> by lia. done. }
  apply Z.log2_lt_pow2; [lia|].
  eapply Z.le_lt_trans; [apply Z.log2_lxor; lia|]. apply Z.max_lub_lt.
  - destruct (Z.eq_dec a 0) as [->|]; [simpl; lia|]. apply Z.log2_lt_pow2; lia.
  - destruct (Z.eq_dec b 0) as [->|]; [simpl; lia|]. apply Z.log2_lt_pow2; lia.
Qed.

Lemma shiftr_range (n a k : Z) : 0 ≤ k → 0 ≤ a < 2 ^ n → 0 ≤ Z.shiftr a k < 2 ^ n.
Proof.
  intros Hk Ha. rw Z.shiftr_div_pow2 //. split; [apply Z.div_pos; lia|].
  eapply Z.le_lt_trans; [apply Z.div_le_upper_bound; [lia|]|apply Ha].
  pose proof (Z.pow_pos_nonneg 2 k). nia.
Qed.

Lemma crc64_entry_range i : 0 ≤ i < 256 → 0 ≤ crc64_entry i < 2 ^ 64.
Proof.
  intros Hi. unfold crc64_entry. set (f := λ crc, _).
  generalize 8%nat. induction n as [|n IH]; [simpl; lia|].
  change (Nat.iter (S n) f i) with (f (Nat.iter n f i)). unfold f at 1 3.
  destruct (Z.odd _).
  - apply lxor_range; [lia|by apply shiftr_range|done].
  - by apply shiftr_range.
Qed.

Lemma bytes_of_string_range s v : v ∈ bytes_of_string s → 0 ≤ v < 2 ^ 8.
Proof.
  intros (a & -> & _)%list_elem_of_fmap.
  pose proof (N_ascii_bounded a). lia.
Qed.

Lemma crc64_update_range crc v :
  0 ≤ crc < 2 ^ 64 → 0 ≤ v < 2 ^ 8 → 0 ≤ crc64_update crc v < 2 ^ 64.
Proof.
  intros Hc Hv. unfold crc64_update. apply lxor_range; [lia| |by apply shiftr_range].
  apply crc64_entry_range. change 256 with (2 ^ 8). apply lxor_range; [lia| |done].
  change 255 with (Z.ones 8). rw Z.land_ones; [|lia]. apply Z.mod_pos_bound. lia.
Qed.

Lemma StringHash_range s : 0 ≤ StringHash s < two64.
Proof.
  unfold StringHash, u64_not. change two64 with (2 ^ 64).
  apply lxor_range; [lia| |lia]. change (Z.lxor 0 (2 ^ 64 - 1)) with (2 ^ 64 - 1).
  assert (∀ l crc, (∀ v, v ∈ l → 0 ≤ v < 2 ^ 8) → 0 ≤ crc < 2 ^ 64 →
    0 ≤ for_each l (λ v crc, crc64_update crc v) crc < 2 ^ 64) as Hgen.
  { induction l as [|v l IH]; intros crc Hl Hc; [done|]. rw for_each_cons.
    apply IH; [set_solver|]. apply crc64_update_range; [done|]. apply Hl. set_solver. }
  apply Hgen; [apply bytes_of_string_range|lia].
Qed.

#[export] Instance HashDomainString_ok : HashDomainOk HashDomainString.
Proof. split; [done|apply StringHash_range]. Qed.

#[export] Instance PairHashDomain_ok `{EqDecision A, EqDecision B}
  (d1 : HashDomain A) (d2 : HashDomain B) `{!HashDomainOk d1, !HashDomainOk d2} :
  HashDomainOk (PairHashDomain d1 d2).
Proof.
  split; [|intros; apply u64_add_range].
  intros [x1 x2] [y1 y2]. simpl. rw !hd_Equal_ok. apply eq_bool_prop_intro.
  rw andb_True !bool_decide_spec. naive_solver.
Qed.

#[export] Instance TripleHashDomain_ok `{EqDecision A, EqDecision B, EqDecision C}
  (d1 : HashDomain A) (d2 : HashDomain B) (d3 : HashDomain C)
  `{!HashDomainOk d1, !HashDomainOk d2, !HashDomainOk d3} :
  HashDomainOk (TripleHashDomain d1 d2 d3).
Proof.
  split; [|intros; apply u64_add_range].
  intros [x1 x2 x3] [y1 y2 y3]. simpl. rw !hd_Equal_ok. apply eq_bool_prop_intro.
  rw !andb_True !bool_decide_spec. naive_solver.
Qed.

Lemma NewTransformHashDomain_ok `{EqDecision A, EqDecision B} (f : A → B) (d : HashDomain B)
  `{!HashDomainOk d} : Inj (=) (=) f → HashDomainOk (NewTransformHashDomain f d).
Proof.
  intros Hf. split; simpl; [|intros; apply hd_Hash_range].
  intros x y. rw hd_Equal_ok. apply bool_decide_ext. naive_solver.
Qed.

#[export] Instance NewSliceHashDomain_ok `{EqDecision A} (d : HashDomain A) `{!HashDomainOk d} :
  HashDomainOk (NewSliceHashDomain d).
Proof.
  split; simpl.
  - intros a b. unfold SliceHashDomain_Equal.
    destruct (Nat.eqb_spec (length a) (length b)) as [Hlen|Hlen]; simpl.
    + apply eq_bool_prop_intro. rw !Is_true_true bool_decide_eq_true SliceEqual_loop_spec.
      * by rw drop_0.
      * intros x y. rw hd_Equal_ok. apply bool_decide_eq_true.
      * lia.
    + symmetry. apply bool_decide_eq_false. by intros ->.
  - intros l. unfold SliceHashDomain_Hash. destruct l as [|x l _] using rev_ind; [done|].
    rw for_each_app. apply u64_add_range.
Qed.

#[export] Instance HashLogicalClusterName_ok : HashDomainOk HashLogicalClusterName.
Proof. apply (NewTransformHashDomain_ok _ _). by intros ??. Qed.

#[export] Instance HashObjectName_ok : HashDomainOk HashObjectName.
Proof. apply (NewTransformHashDomain_ok _ _). by intros ??. Qed.

#[export] Instance factorExternalName_ok : RotatorOk factorExternalName.
Proof. split; by intros []. Qed.

#[export] Instance HashExternalName_ok : HashDomainOk HashExternalName.
Proof.
  unfold HashExternalName, HashClusterObjectName.
  apply (NewTransformHashDomain_ok _ _). intros x y. apply rotFirst_inj, _.
Qed.

#[export] Instance HashUpsyncSet_ok : HashDomainOk HashUpsyncSet.
Proof.
  split; simpl; [|intros; apply u64_add_range].
  intros [g r ns n] [g' r' ns' n']. unfold UpsyncSetEqual. simpl. rw !SliceEqual_spec.
  repeat case_bool_decide; simpl; naive_solver.
Qed.

#[export] Instance HashSinglePlacement_ok : HashDomainOk HashSinglePlacement.
Proof.
  split; simpl; [|intros; apply u64_add_range].
  intros [a b c d] [a' b' c' d']. unfold HashSinglePlacement_Equal. simpl.
  repeat case_bool_decide; simpl; naive_solver.
Qed.

(** The published check value of this CRC (CRC-64/XZ). *)
Example StringHash_check : StringHash "123456789" = 0x995DC9BBDF1939FA.
Proof. vm_compute. reflexivity. Qed.
