(* ===== verification/HashMap.v ===== *)
(** The hash map and hash set of pkg/placement (map-hash.go, set-hash.go).

    The representation is the array of [numHashBuckets] buckets, each a slice of
    pairs.  [hashMap_ok] shows that over any lawful hash domain it implements a
    finite map, and reports its changes to its observer. *)

From S2P Require Import Prelude Tuples Interfaces Slices Sets Maps Types HashDomains.

Definition numHashBuckets : nat := 8.

Section hashmap.
Context {W Key Val : Type}.
Context (domain : HashDomain Key) (observer : option (MapChangeReceiver W Key Val)).

Definition buckets : Type := list (list (Pair Key Val)).
Context (c : Cell W buckets).

(** The zero value of the array. *)
Definition emptyBuckets : buckets := replicate numHashBuckets [].

Definition hashMap_IsEmpty (w : W) : bool :=
  match (visit (λ bucket s, (if 0 <? length bucket then Some errStop else None, s))
           (cget c w) ()).1 with
  | Some _ => false
  | None => true
  end.

Definition hashMap_Len (w : W) : nat :=
  for_each (cget c w) (λ bucket ans, ans + length bucket) 0.

(** The loop of [seek]: the index of the first pair whose key is equal, or the length. *)
Fixpoint seek_loop (key : Key) (bucket : list (Pair Key Val)) (indexInBucket : nat)
  : nat * bool :=
  match bucket with
  | [] => (indexInBucket, false)
  | pair0 :: bucket =>
      if hd_Equal domain key pair0.1 then (indexInBucket, true)
      else seek_loop key bucket (S indexInBucket)
  end.

Definition hashMap_seek (key : Key) (hm : buckets) : nat * nat * bool :=
  let bucketNum := Z.to_nat (hd_Hash domain key mod Z.of_nat numHashBuckets) in
  let bucket := default [] (hm !! bucketNum) in
  let '(indexInBucket, have) := seek_loop key bucket 0 in
  (bucketNum, indexInBucket, have).

Definition hashMap_Get (key : Key) (w : W) : option Val :=
  let '(bucketNum, indexInBucket, have) := hashMap_seek key (cget c w) in
  if have then snd <$> (cget c w !! bucketNum ≫= (.!! indexInBucket)) else None.

Definition hashMap_Put (key : Key) (val : Val) (w : W) : W :=
  let hm := cget c w in
  let '(bucketNum, indexInBucket, have) := hashMap_seek key hm in
  if have then
    let old := snd <$> (hm !! bucketNum ≫= (.!! indexInBucket)) in
    let w := cset c (alter (alter (λ tup, (tup.1, val)) indexInBucket) bucketNum hm) w in
    match observer, old with
    | Some observer, Some oldVal => mcr_Update observer key oldVal val w
    | _, _ => w
    end
  else
    let w := cset c (alter (λ bucket, bucket ++ [NewPair key val]) bucketNum hm) w in
    match observer with
    | Some observer => mcr_Create observer key val w
    | None => w
    end.

Definition hashMap_Delete (key : Key) (w : W) : W :=
  let hm := cget c w in
  let '(bucketNum, indexInBucket, have) := hashMap_seek key hm in
  if negb have then w
  else
    let bucket := default [] (hm !! bucketNum) in
    let old := snd <$> bucket !! indexInBucket in
    let w := cset c (<[bucketNum:=take indexInBucket bucket ++ drop (indexInBucket + 1) bucket]> hm) w in
    match observer, old with
    | Some observer, Some oldVal => mcr_DeleteWithFinal observer key oldVal w
    | _, _ => w
    end.

Definition hashMap_Visit (w : W) : list (Pair Key Val) := mjoin (cget c w).

(** The change of the object referred to under [key]. *)
Definition hashMap_Mutate (key : Key) (val : Val) (w : W) : W :=
  let hm := cget c w in
  let '(bucketNum, indexInBucket, have) := hashMap_seek key hm in
  if have
  then cset c (alter (alter (λ tup, (tup.1, val)) indexInBucket) bucketNum hm) w
  else w.

Definition hashMap_AsMutableMap : MutableMap W Key Val :=
  MkMutableMap
    (MkGoMap hashMap_IsEmpty hashMap_Len (λ _, true) hashMap_Get hashMap_Visit)
    (MkMappingReceiver hashMap_Put hashMap_Delete)
    hashMap_Mutate.

Definition NewHashMap (w : W) : W := cset c emptyBuckets w.
End hashmap.
Arguments buckets : clear implicits.
Arguments hashMap_AsMutableMap {_ _ _} _ _ _.

(** A hash set is the key set of a hash map to [Empty]. *)
Section hashset.
Context {W Elt : Type} (domain : HashDomain Elt) (c : Cell W (buckets Elt Empty)).

Definition hashSet_AsMutableSet : MutableSet W Elt :=
  NewSetByMapToEmpty (hashMap_AsMutableMap domain None c).

Definition NewHashSet (elts : list Elt) (w : W) : W :=
  let w := NewHashMap c w in
  for_each elts (λ elt w, (sw_Add hashSet_AsMutableSet elt w).2) w.

Definition HashSetCopy (source : list Elt) (w : W) : W :=
  let w := NewHashSet [] w in
  for_each source (λ elt w, (sw_Add hashSet_AsMutableSet elt w).2) w.
End hashset.

(** * Refinement of finite maps *)

Section bucket_facts.
Context {Key Val : Type} `{Countable Key}.
Implicit Types (bucket : list (Key * Val)).

Lemma split_at_lookup bucket i k (v : Val) :
  bucket !! i = Some (k, v) →
  bucket ≡ₚ (k, v) :: (take i bucket ++ drop (S i) bucket).
Proof.
  intros Hi. rw -{1}(take_drop_middle bucket i (k, v) Hi). symmetry. apply Permutation_middle.
Qed.

Lemma bucket_delete bucket i k (v : Val) :
  NoDup bucket.*1 → bucket !! i = Some (k, v) →
  NoDup (take i bucket ++ drop (S i) bucket).*1 ∧
  (k ∉ (take i bucket ++ drop (S i) bucket).*1) ∧
  (list_to_map (take i bucket ++ drop (S i) bucket) : gmap Key Val)
  = delete k (list_to_map bucket).
Proof.
  intros Hnd Hi. pose proof (split_at_lookup _ _ _ _ Hi) as Hp.
  assert (NoDup ((k, v) :: (take i bucket ++ drop (S i) bucket)).*1) as Hnd' by by rw -Hp.
  rw (list_to_map_proper _ _ Hnd Hp). cbn [fmap list_fmap] in Hnd'.
  apply NoDup_cons in Hnd' as [Hk Hnd']. split_and!; [done..|]. simpl.
  rw delete_insert_id //. by apply not_elem_of_list_to_map_1.
Qed.

Lemma bucket_replace bucket i k (v v' : Val) :
  NoDup bucket.*1 → bucket !! i = Some (k, v) →
  (alter (λ tup, (tup.1, v')) i bucket).*1 = bucket.*1 ∧
  (list_to_map (alter (λ tup, (tup.1, v')) i bucket) : gmap Key Val)
  = <[k:=v']> (list_to_map bucket).
Proof.
  intros Hnd Hi. pose proof (split_at_lookup _ _ _ _ Hi) as Hp.
  assert ((alter (λ tup, (tup.1, v')) i bucket).*1 = bucket.*1) as Hfst.
  { rw (list_fmap_alter fst _ id); [by rw list_alter_id|by apply Forall_true]. }
  split; [done|].
  assert (alter (λ tup, (tup.1, v')) i bucket !! i = Some (k, v')) as Hi'.
  { by rw list_lookup_alter_eq Hi. }
  pose proof (split_at_lookup _ _ _ _ Hi') as Hp'.
  rw take_alter_ge // drop_alter_lt in Hp'; [|lia].
  assert (NoDup (alter (λ tup, (tup.1, v')) i bucket).*1) as Hnd' by by rw Hfst.
  rw (list_to_map_proper _ _ Hnd' Hp') (list_to_map_proper _ _ Hnd Hp). simpl.
  by rw insert_insert_eq.
Qed.

Lemma alter_as_insert {A} (f : A → A) (l : list A) i x :
  l !! i = Some x → alter f i l = <[i:=f x]> l.
Proof.
  revert i. induction l as [|y l IH]; intros [|i] Hi; try done.
  - by injection Hi as ->.
  - cbn. f_equal. by apply IH.
Qed.

Lemma list_elem_of_fst_lookup bucket k :
  k ∈ bucket.*1 → ∃ i (v : Val), bucket !! i = Some (k, v).
Proof.
  intros ([k' v] & -> & Hin)%list_elem_of_fmap. apply list_elem_of_lookup in Hin as [i Hi].
  by exists i, v.
Qed.
End bucket_facts.

Section hashmap_facts.
Context {W Key Val : Type} `{Countable Key} (domain : HashDomain Key) `{!HashDomainOk domain}.
Implicit Types (hm : buckets Key Val) (bucket : list (Key * Val)).

Definition bucketOf (key : Key) : nat :=
  Z.to_nat (hd_Hash domain key mod Z.of_nat numHashBuckets).

(** Every key is in its own bucket, once. *)
Definition hashMap_wf hm : Prop :=
  length hm = numHashBuckets ∧
  ∀ b bucket, hm !! b = Some bucket →
    NoDup bucket.*1 ∧ ∀ tup, tup ∈ bucket → bucketOf tup.1 = b.

Definition hashMap_abs hm : gmap Key Val := list_to_map (mjoin hm).

Lemma bucketOf_lt key : bucketOf key < numHashBuckets.
Proof.
  unfold bucketOf. pose proof (Z.mod_pos_bound (hd_Hash domain key) (Z.of_nat numHashBuckets)).
  unfold numHashBuckets in *. lia.
Qed.

Lemma hashMap_bucket hm key : hashMap_wf hm → is_Some (hm !! bucketOf key).
Proof. intros [Hlen _]. apply lookup_lt_is_Some. rw Hlen. apply bucketOf_lt. Qed.

Lemma elem_of_mjoin_bucket hm key (v : Val) bucket :
  hashMap_wf hm → hm !! bucketOf key = Some bucket →
  (key, v) ∈ mjoin hm ↔ (key, v) ∈ bucket.
Proof.
  intros [_ Hwf] Hb. rw list_elem_of_join. split.
  - intros (bucket' & Hin & Hin'). apply list_elem_of_lookup in Hin' as [b Hb'].
    assert (bucketOf key = b) as Hbk by apply (proj2 (Hwf _ _ Hb') _ Hin).
    rw -Hbk Hb in Hb'. by injection Hb' as ->.
  - intros Hin. exists bucket. split; [done|]. by eapply list_elem_of_lookup_2.
Qed.

Lemma hashMap_wf_NoDup hm : hashMap_wf hm → NoDup (mjoin hm).*1.
Proof.
  intros [_ Hwf].
  assert (∀ off, (∀ b bucket, hm !! b = Some bucket →
    NoDup bucket.*1 ∧ ∀ tup, tup ∈ bucket → bucketOf tup.1 = off + b) →
    NoDup (mjoin hm).*1) as Hgen; [|by apply (Hgen 0)].
  clear Hwf. induction hm as [|bucket hm IH]; intros off Hwf; [constructor|].
  cbn. rw fmap_app. apply NoDup_app. split_and!.
  - by apply (Hwf 0 bucket).
  - intros key (p & -> & Hp)%list_elem_of_fmap (q & Hq & Hin)%list_elem_of_fmap.
    apply list_elem_of_join in Hin as (bucket' & Hin & Hin').
    apply list_elem_of_lookup in Hin' as [b Hb].
    pose proof (proj2 (Hwf 0 bucket eq_refl) p Hp).
    pose proof (proj2 (Hwf (S b) bucket' Hb) q Hin). rw Hq in H0. lia.
  - apply (IH (S off)). intros b bucket' Hb.
    destruct (Hwf (S b) bucket' Hb) as [? Hk]. split; [done|].
    intros p Hp. rw (Hk p Hp). lia.
Qed.

Lemma hashMap_abs_lookup hm key bucket :
  hashMap_wf hm → hm !! bucketOf key = Some bucket →
  hashMap_abs hm !! key = (list_to_map bucket : gmap Key Val) !! key.
Proof.
  intros Hwf Hb. apply option_eq. intros v. unfold hashMap_abs.
  rw -!elem_of_list_to_map; [|by apply (proj2 Hwf _ _ Hb)|by apply hashMap_wf_NoDup].
  by apply elem_of_mjoin_bucket.
Qed.

Lemma seek_loop_spec key bucket n :
  NoDup bucket.*1 →
  match seek_loop domain key bucket n with
  | (i, true) => ∃ j v, i = n + j ∧ bucket !! j = Some (key, v)
  | (i, false) => i = n + length bucket ∧ key ∉ bucket.*1
  end.
Proof.
  revert n. induction bucket as [|[k v] bucket IH]; intros n Hnd; simpl.
  { split; [lia|apply not_elem_of_nil]. }
  rw hd_Equal_ok. cbn [fmap list_fmap] in Hnd. apply NoDup_cons in Hnd as [Hk Hnd].
  case_bool_decide as Heq.
  - simpl in Heq. subst k. exists 0, v. split; [lia|done].
  - specialize (IH (S n) Hnd). destruct (seek_loop domain key bucket (S n)) as [i []].
    + destruct IH as (j & v' & -> & Hj). exists (S j), v'. split; [lia|done].
    + destruct IH as [-> Hn]. split; [lia|]. simpl in *. set_solver.
Qed.

(** What [seek] finds, at the level of the whole map. *)
Lemma hashMap_seek_spec hm key :
  hashMap_wf hm →
  ∃ bucket, hm !! bucketOf key = Some bucket ∧ NoDup bucket.*1 ∧
    hashMap_abs hm !! key = (list_to_map bucket : gmap Key Val) !! key ∧
    match hashMap_seek domain key hm with
    | (b, i, true) => b = bucketOf key ∧ ∃ v, bucket !! i = Some (key, v) ∧
                      hashMap_abs hm !! key = Some v
    | (b, i, false) => b = bucketOf key ∧ (key ∉ bucket.*1) ∧ hashMap_abs hm !! key = None
    end.
Proof.
  intros Hwf. destruct (hashMap_bucket hm key Hwf) as [bucket Hb].
  assert (NoDup bucket.*1) as Hnd by apply (proj2 Hwf _ _ Hb).
  exists bucket. split_and!; [done..|by apply hashMap_abs_lookup|].
  unfold hashMap_seek. cbv zeta. fold (bucketOf key). rw Hb. cbn [from_option id].
  pose proof (seek_loop_spec key bucket 0 Hnd) as Hseek.
  destruct (seek_loop domain key bucket 0) as [i []]; cbv beta iota; (split; [done|]).
  - destruct Hseek as (j & v & -> & Hj). exists v. split; [done|].
    rw (hashMap_abs_lookup _ _ _ Hwf Hb). apply elem_of_list_to_map_1; [done|].
    by eapply list_elem_of_lookup_2.
  - destruct Hseek as [-> Hn]. split; [done|].
    rw (hashMap_abs_lookup _ _ _ Hwf Hb). by apply not_elem_of_list_to_map_1.
Qed.

(** Replacing a bucket by one that differs only in the mapping of [key]. *)
Lemma hashMap_replace_bucket hm key bucket bucket' (f : option Val) :
  hashMap_wf hm → hm !! bucketOf key = Some bucket → NoDup bucket'.*1 →
  (∀ tup, tup ∈ bucket' → tup.1 = key ∨ tup.1 ∈ bucket.*1) →
  (∀ k, (list_to_map bucket' : gmap Key Val) !! k
        = if decide (k = key) then f else (list_to_map bucket : gmap Key Val) !! k) →
  hashMap_wf (<[bucketOf key:=bucket']> hm) ∧
  ∀ k, hashMap_abs (<[bucketOf key:=bucket']> hm) !! k
       = if decide (k = key) then f else hashMap_abs hm !! k.
Proof.
  intros Hwf Hb Hnd' Hkeys Hlook.
  assert (hashMap_wf (<[bucketOf key:=bucket']> hm)) as Hwf'.
  { destruct Hwf as [Hlen Hwf]. split; [by rw length_insert|]. intros b bkt Hbk.
    apply list_lookup_insert_Some in Hbk as [(<- & <- & _)|[_ Hbk]]; [|by apply Hwf].
    split; [done|]. intros p [Hp|Hp]%Hkeys; [by rw Hp|].
    apply list_elem_of_fmap in Hp as (q & -> & Hq). by apply (Hwf _ _ Hb). }
  split; [done|]. intros k. destruct (hashMap_bucket hm k Hwf) as [bk Hbk].
  assert (length hm = numHashBuckets) as Hlen by apply Hwf.
  destruct (decide (bucketOf k = bucketOf key)) as [Hsame|Hdiff].
  - rw (hashMap_abs_lookup _ _ bucket' Hwf').
    + rw Hlook. destruct (decide (k = key)); [done|].
      rw Hsame in Hbk. by rw (hashMap_abs_lookup _ k bucket Hwf) // Hsame.
    + rw Hsame list_lookup_insert_eq //. rw Hlen. apply bucketOf_lt.
  - rw (hashMap_abs_lookup _ _ bk Hwf') ?list_lookup_insert_ne //.
    rw decide_False; [|naive_solver]. by rw (hashMap_abs_lookup _ _ _ Hwf Hbk).
Qed.

Lemma hashMap_put_wf hm key val :
  hashMap_wf hm →
  let '(b, i, have) := hashMap_seek domain key hm in
  let hm' := if have : bool then alter (alter (λ tup, (tup.1, val)) i) b hm
             else alter (λ bucket, bucket ++ [NewPair key val]) b hm in
  hashMap_wf hm' ∧ hashMap_abs hm' = <[key:=val]> (hashMap_abs hm) ∧
  have = bool_decide (is_Some (hashMap_abs hm !! key)) ∧
  (have = true → snd <$> (hm !! b ≫= (.!! i)) = hashMap_abs hm !! key).
Proof.
  intros Hwf. destruct (hashMap_seek_spec hm key Hwf) as (bucket & Hb & Hnd & Habs & Hseek).
  destruct (hashMap_seek domain key hm) as [[b i] []]; cbv zeta.
  - destruct Hseek as (-> & v & Hi & Hv).
    destruct (bucket_replace bucket i key v val Hnd Hi) as [Hfst Hmap].
    destruct (hashMap_replace_bucket hm key bucket (alter (λ tup, (tup.1, val)) i bucket)
                (Some val)) as [Hwf' Hlook]; [done|done|by rw Hfst|..].
    + intros p Hp. right. rw -Hfst. by apply list_elem_of_fmap_2.
    + intros k. rw Hmap. destruct (decide (k = key)) as [->|Hne];
        [apply lookup_insert_eq|by apply lookup_insert_ne].
    + rw (alter_as_insert _ _ _ _ Hb). split_and!; [done|..].
      * apply map_eq. intros k. rw Hlook. destruct (decide (k = key)) as [->|Hne];
          [by rw lookup_insert_eq|by rw lookup_insert_ne].
      * rw Hv bool_decide_true //.
      * intros _. by rw Hb /= Hi Hv.
  - destruct Hseek as (-> & Hn & Hv).
    destruct (hashMap_replace_bucket hm key bucket (bucket ++ [(key, val)])
                (Some val)) as [Hwf' Hlook]; [done|done|..].
    + rw fmap_app. apply NoDup_app. split_and!; [done| |apply NoDup_singleton]. set_solver.
    + intros p [Hp|Hp]%elem_of_app; [right; by apply list_elem_of_fmap_2|].
      left. by apply list_elem_of_singleton in Hp as ->.
    + intros k. rw list_to_map_snoc //. destruct (decide (k = key)) as [->|Hne];
        [apply lookup_insert_eq|by apply lookup_insert_ne].
    + rw (alter_as_insert _ _ _ _ Hb). split_and!; [done|..].
      * apply map_eq. intros k. rw Hlook. destruct (decide (k = key)) as [->|Hne];
          [by rw lookup_insert_eq|by rw lookup_insert_ne].
      * by rw Hv bool_decide_false.
      * done.
Qed.

Lemma hashMap_delete_wf hm key :
  hashMap_wf hm →
  let '(b, i, have) := hashMap_seek domain key hm in
  let bucket := default [] (hm !! b) in
  have = bool_decide (is_Some (hashMap_abs hm !! key)) ∧
  (have = true →
   let hm' := <[b:=take i bucket ++ drop (i + 1) bucket]> hm in
   hashMap_wf hm' ∧ hashMap_abs hm' = delete key (hashMap_abs hm) ∧
   snd <$> bucket !! i = hashMap_abs hm !! key).
Proof.
  intros Hwf. destruct (hashMap_seek_spec hm key Hwf) as (bucket & Hb & Hnd & Habs & Hseek).
  destruct (hashMap_seek domain key hm) as [[b i] []]; cbv zeta.
  - destruct Hseek as (-> & v & Hi & Hv). rw Hv bool_decide_true //. split; [done|]. intros _.
    rw Hb. cbn [from_option id]. rw Nat.add_1_r.
    destruct (bucket_delete bucket i key v Hnd Hi) as (Hnd' & _ & Hmap).
    destruct (hashMap_replace_bucket hm key bucket (take i bucket ++ drop (S i) bucket)
                None) as [Hwf' Hlook]; [done|done|done|..].
    + intros p Hp. right. apply list_elem_of_fmap_2.
      rw (split_at_lookup bucket i key v Hi). set_solver.
    + intros k. rw Hmap. destruct (decide (k = key)) as [->|Hne];
        [apply lookup_delete_eq|by apply lookup_delete_ne].
    + split_and!; [done| |by rw Hi].
      apply map_eq. intros k. rw Hlook. destruct (decide (k = key)) as [->|Hne];
        [by rw lookup_delete_eq|by rw lookup_delete_ne].
  - destruct Hseek as (-> & Hn & Hv). by rw Hv bool_decide_false.
Qed.

Lemma hashMap_Len_spec hm :
  for_each hm (λ bucket ans, ans + length bucket) 0 = length (mjoin hm).
Proof.
  enough (∀ n, for_each hm (λ bucket ans, ans + length bucket) n = n + length (mjoin hm))
    as Hgen by apply Hgen.
  induction hm as [|bucket hm IH]; intros n; [simpl; lia|].
  rw for_each_cons IH. change (mjoin (bucket :: hm)) with (bucket ++ mjoin hm).
  rw length_app. lia.
Qed.

Lemma hashMap_size hm : hashMap_wf hm → length (mjoin hm) = size (hashMap_abs hm).
Proof.
  intros Hwf. unfold hashMap_abs.
  by rw -length_map_to_list map_to_list_to_map; [|apply hashMap_wf_NoDup].
Qed.

Lemma hashMap_IsEmpty_spec hm :
  existsb (λ bucket : list (Key * Val), 0 <? length bucket) hm = negb (length (mjoin hm) =? 0).
Proof.
  induction hm as [|bucket hm IH]; [done|]. cbn. rw IH. by destruct bucket.
Qed.

Lemma hashMap_wf_empty : hashMap_wf (emptyBuckets : buckets Key Val).
Proof.
  split; [done|]. intros b bucket Hb.
  apply lookup_replicate in Hb as [-> _]. split; [constructor|set_solver].
Qed.

Lemma hashMap_abs_empty : hashMap_abs (emptyBuckets : buckets Key Val) = ∅.
Proof. done. Qed.

(** The hash map implements the [MutableMap] contract, observer included. *)
#[export] Instance hashMap_ok (observer : option (MapChangeReceiver W Key Val))
  (c : Cell W (buckets Key Val)) `{!CellOk c} :
  MutableMapOk (hashMap_AsMutableMap domain observer c) observer c hashMap_wf hashMap_abs.
Proof.
  split; [split|..]; simpl.
  - intros w Hwf. unfold hashMap_IsEmpty. rw visit_test hashMap_IsEmpty_spec hashMap_size //.
    destruct (Nat.eqb_spec (size (hashMap_abs (cget c w))) 0) as [Hz|Hz]; simpl; symmetry.
    + apply bool_decide_eq_true. rw dom_empty_iff_L. by apply map_size_empty_inv.
    + apply bool_decide_eq_false. rw dom_empty_iff_L. intros He. by rw He map_size_empty in Hz.
  - intros w Hwf. unfold hashMap_Len. by rw hashMap_Len_spec hashMap_size.
  - intros k w Hwf. unfold hashMap_Get.
    destruct (hashMap_seek_spec _ k Hwf) as (bucket & Hb & Hnd & Habs & Hseek).
    destruct (hashMap_seek domain k (cget c w)) as [[b i] []].
    + destruct Hseek as (-> & v & Hi & ->). by rw Hb /= Hi.
    + by destruct Hseek as (_ & _ & ->).
  - intros w Hwf. unfold hashMap_Visit, hashMap_abs. symmetry.
    by apply map_to_list_to_map, hashMap_wf_NoDup.
  - intros k v w Hwf. unfold hashMap_Put. cbv zeta.
    pose proof (hashMap_put_wf _ k v Hwf) as Hput.
    destruct (hashMap_seek domain k (cget c w)) as [[b i] have].
    destruct Hput as (Hwf' & Habs & Hhave & Hold).
    eexists _, (cset c _ w). split; [|split; [by apply Updated_cset|done]].
    unfold notify_put. destruct have.
    + rw Hold //. by destruct observer, (hashMap_abs (cget c w) !! k) eqn:Hk;
        rw ?Hk in Hhave.
    + symmetry in Hhave. apply bool_decide_eq_false, eq_None_not_Some in Hhave.
      rw Hhave. by destruct observer.
  - intros k w Hwf. unfold hashMap_Delete. cbv zeta.
    pose proof (hashMap_delete_wf _ k Hwf) as Hdel.
    destruct (hashMap_seek domain k (cget c w)) as [[b i] []]; cbn [negb].
    + destruct Hdel as [Hhave Hdel]. destruct (Hdel eq_refl) as (Hwf' & Habs & Hold).
      eexists _, (cset c _ w). split; [|split; [by apply Updated_cset|done]].
      rw Hold. unfold notify_delete. by destruct observer, (hashMap_abs (cget c w) !! k).
    + destruct Hdel as [Hhave _]. symmetry in Hhave.
      apply bool_decide_eq_false, eq_None_not_Some in Hhave. exists (cget c w), w.
      split_and!; [|apply Updated_refl|done|by rw delete_id].
      unfold notify_delete. rw Hhave. by destruct observer.
  - intros k v w Hwf Hk. unfold hashMap_Mutate. cbv zeta.
    pose proof (hashMap_put_wf _ k v Hwf) as Hput.
    destruct (hashMap_seek domain k (cget c w)) as [[b i] []].
    + destruct Hput as (Hwf' & Habs & _). eexists. split; [by apply Updated_cset|done].
    + destruct Hput as (_ & _ & Hhave & _). symmetry in Hhave.
      by apply bool_decide_eq_false in Hhave.
Qed.
End hashmap_facts.

#[export] Instance hashSet_ok {W Elt} `{Countable Elt} (domain : HashDomain Elt)
  `{!HashDomainOk domain} (c : Cell W (buckets Elt Empty)) `{!CellOk c} :
  MutableSetOk (hashSet_AsMutableSet domain c) c (hashMap_wf domain) (λ hm, dom (hashMap_abs hm)).
Proof. unfold hashSet_AsMutableSet. apply _. Qed.

(** * Runs *)

(** C30: over any lawful hash domain, and whatever the collisions, a hash map that
    went through any sequence of [Put] and [Delete] calls answers [Get], [Len],
    [IsEmpty] and [Visit] like the finite map that went through the same calls,
    and each key is stored once and in its own bucket. *)
Theorem hashMap_refines {Key Val} `{Countable Key} (domain : HashDomain Key)
  `{!HashDomainOk domain} (ops : list (MapOp Key Val)) :
  let m := hashMap_AsMutableMap domain None id_cell in
  let hm := for_each ops (run_op m) (NewHashMap id_cell emptyBuckets) in
  let spec := for_each ops spec_op (∅ : gmap Key Val) in
  hashMap_wf domain hm ∧
  (∀ key, map_Get m key hm = spec !! key) ∧
  map_Len m hm = size spec ∧ map_IsEmpty m hm = bool_decide (spec = ∅) ∧
  map_Visit m hm ≡ₚ map_to_list spec.
Proof.
  cbv zeta. set (m := hashMap_AsMutableMap domain None id_cell).
  assert (MappingReceiverOk m (hashMap_wf domain) hashMap_abs) as Hmr.
  { apply (MutableMapOk_receiver m id_cell), _. }
  destruct (run_ops_ok m (hashMap_wf domain) hashMap_abs ops (NewHashMap id_cell emptyBuckets))
    as [Hwf Habs]; [apply (hashMap_wf_empty domain)|].
  change (hashMap_abs (NewHashMap id_cell emptyBuckets)) with (∅ : gmap Key Val) in Habs.
  assert (GoMapOk m (hashMap_wf domain) hashMap_abs) as Hm
    by exact (mm_map_ok (MutableMapOk:=hashMap_ok domain None id_cell)).
  rw -Habs. split_and!; [done|..].
  - intros key. by apply map_Get_ok.
  - by apply map_Len_ok.
  - rw map_IsEmpty_ok //. apply bool_decide_ext. apply dom_empty_iff_L.
  - by apply map_Visit_ok.
Qed.
