(* ===== verification/Relations.v ===== *)
(** Indexed sets and relations of pkg/placement (set-indexed.go,
    relation-types.go, map-relation.go).

    A generic indexed set keeps a map from the key part of its tuples to the set
    of the value parts.  The sets in the map are mutable objects; the model keeps
    their contents in the map and changes them there with [mm_Mutate]. *)

From S2P Require Import Prelude Tuples Interfaces Slices Sets Maps Types HashDomains HashMap.

(** * Generic indexed sets *)

Section indexed_set.
Context {W Tuple Key Val ValMutableSet ValSet : Type}.
Context (factoring : Factorer Tuple Key Val) (valSetFactory : Key → ValMutableSet)
  (valMutableSetAsSet : MutableSet ValMutableSet Val) (insulateValSet : ValMutableSet → ValSet)
  (rep : MutableMap W Key ValMutableSet).

Definition genericIndexedSet_IsEmpty (w : W) : bool := map_IsEmpty rep w.

Definition genericIndexedSet_Len (w : W) : nat :=
  for_each (map_Visit rep w) (λ tup ans, ans + set_Len valMutableSetAsSet tup.2) 0.

Definition genericIndexedSet_Has (tup : Tuple) (w : W) : bool :=
  let '(key, val) := Factorer_Factor factoring tup in
  match map_Get rep key w with
  | None => false
  | Some valSet => set_Has valMutableSetAsSet val valSet
  end.

Definition genericIndexedSet_Visit (w : W) : list Tuple :=
  map_Visit rep w ≫= λ tup,
    (λ val, rotSecond factoring (tup.1, val)) <$> set_Visit valMutableSetAsSet tup.2.

Definition genericIndexedSet_Add (tup : Tuple) (w : W) : bool * W :=
  let '(key, val) := Factorer_Factor factoring tup in
  let '(valSet, w) :=
    match map_Get rep key w with
    | Some valSet => (valSet, w)
    | None => let valSet := valSetFactory key in (valSet, mr_Put rep key valSet w)
    end in
  let '(change, valSet) := sw_Add valMutableSetAsSet val valSet in
  (change, mm_Mutate rep key valSet w).

Definition genericIndexedSet_Remove (tup : Tuple) (w : W) : bool * W :=
  let '(key, val) := Factorer_Factor factoring tup in
  match map_Get rep key w with
  | None => (false, w)
  | Some valSet =>
      let '(change, valSet) := sw_Remove valMutableSetAsSet val valSet in
      let w := mm_Mutate rep key valSet w in
      if negb change then (false, w)
      else if set_IsEmpty valMutableSetAsSet valSet then (true, mr_Delete rep key w)
      else (true, w)
  end.

Definition NewGenericIndexedSet : MutableSet W Tuple :=
  MkMutableSet
    (MkGoSet genericIndexedSet_IsEmpty genericIndexedSet_Len (λ _, false) genericIndexedSet_Has
       genericIndexedSet_Visit)
    (MkSetWriter genericIndexedSet_Add genericIndexedSet_Remove).

(** [GetIndex1to2]; [insulateSeconds] is inlined in [Visit]. *)
Definition genericIndexedSetIndex_Get (key : Key) (w : W) : option ValSet :=
  match map_Get rep key w with
  | None => None
  | Some set => Some (insulateValSet set)
  end.

Definition genericIndexedSetIndex_Visit (w : W) : list (Pair Key ValSet) :=
  (λ tup, NewPair tup.1 (insulateValSet tup.2)) <$> map_Visit rep w.

Definition genericIndexedSetIndex_Visit1to2 (key : Key) (w : W) : list Val :=
  match map_Get rep key w with
  | Some valSet => set_Visit valMutableSetAsSet valSet
  | None => []
  end.
End indexed_set.

(** * Relations *)

(** interface [MutableRelation2]; [rel_Visit1to2] is [GetIndex1to2().Visit1to2] *)
Record MutableRelation2 (W First Second : Type) : Type := MkMutableRelation2 {
  rel_Set :> MutableSet W (Pair First Second);
  rel_Visit1to2 : First → W → list Second
}.
Arguments MkMutableRelation2 {_ _ _} _ _.
Arguments rel_Set {_ _ _} _.
Arguments rel_Visit1to2 {_ _ _} _ _ _.

Definition NewSingleIndexedRelation2 {W First Second R} (secondSetFactory : First → R)
  (secondSet : MutableSet R Second) (rep : MutableMap W First R)
  : MutableRelation2 W First Second :=
  MkMutableRelation2
    (NewGenericIndexedSet PairFactorer secondSetFactory secondSet rep)
    (genericIndexedSetIndex_Visit1to2 secondSet rep).

Section map_relations.
Context `{MapRange}.

Definition MapRelation2Rep (First Second : Type) `{Countable First, Countable Second} : Type :=
  gmap First (MapSet Second).

Definition NewMapRelation2 {W First Second} `{Countable First, Countable Second}
  (c : Cell W (MapRelation2Rep First Second)) : MutableRelation2 W First Second :=
  NewSingleIndexedRelation2 (λ _, NewEmptyMapSet) (MapSet_AsMutableSet id_cell)
    (MapMap_AsMutableMap None c).

Definition MapRelation3Rep (First Second Third : Type)
  `{Countable First, Countable Second, Countable Third} : Type :=
  gmap First (MapRelation2Rep Second Third).

Definition NewMapRelation3 {W First Second Third}
  `{Countable First, Countable Second, Countable Third}
  (c : Cell W (MapRelation3Rep First Second Third)) : MutableSet W (Triple First Second Third) :=
  NewGenericIndexedSet TripleFactorerTo1and23 (λ _, ∅)
    (NewGenericIndexedSet PairFactorer (λ _, NewEmptyMapSet) (MapSet_AsMutableSet id_cell)
       (MapMap_AsMutableMap None id_cell))
    (MapMap_AsMutableMap None c).

Definition MapRelation4Rep (First Second Third Fourth : Type)
  `{Countable First, Countable Second, Countable Third, Countable Fourth} : Type :=
  gmap First (MapRelation3Rep Second Third Fourth).

Definition NewMapRelation4 {W First Second Third Fourth}
  `{Countable First, Countable Second, Countable Third, Countable Fourth}
  (c : Cell W (MapRelation4Rep First Second Third Fourth))
  : MutableSet W (Quad First Second Third Fourth) :=
  NewGenericIndexedSet QuadFactorerTo1and234 (λ _, ∅)
    (NewGenericIndexedSet TripleFactorerTo1and23 (λ _, ∅)
       (NewGenericIndexedSet PairFactorer (λ _, NewEmptyMapSet) (MapSet_AsMutableSet id_cell)
          (MapMap_AsMutableMap None id_cell))
       (MapMap_AsMutableMap None id_cell))
    (MapMap_AsMutableMap None c).
End map_relations.

Definition HashRelation2Rep (First Second : Type) : Type :=
  buckets First (buckets Second Empty).

Definition NewHashRelation2 {W First Second} (hashDomainFirst : HashDomain First)
  (hashDomainSecond : HashDomain Second) (c : Cell W (HashRelation2Rep First Second))
  : MutableRelation2 W First Second :=
  NewSingleIndexedRelation2 (λ _, emptyBuckets) (hashSet_AsMutableSet hashDomainSecond id_cell)
    (hashMap_AsMutableMap hashDomainFirst None c).

(** * Relations with observers *)

Section observed_relation.
Context {W First Second : Type} (inner : MutableRelation2 W First Second)
  (observers : list (SetWriter W (Pair First Second))).

Definition relation2WithObservers_Add (tup : Pair First Second) (w : W) : bool * W :=
  let '(change, w) := sw_Add inner tup w in
  if change : bool
  then (true, for_each observers (λ observer w, (sw_Add observer tup w).2) w)
  else (false, w).

Definition relation2WithObservers_Remove (tup : Pair First Second) (w : W) : bool * W :=
  let '(change, w) := sw_Remove inner tup w in
  if change : bool
  then (true, for_each observers (λ observer w, (sw_Remove observer tup w).2) w)
  else (false, w).

Definition Relation2WithObservers : MutableRelation2 W First Second :=
  MkMutableRelation2
    (MkMutableSet inner (MkSetWriter relation2WithObservers_Add relation2WithObservers_Remove))
    (rel_Visit1to2 inner).
End observed_relation.

(** * Correctness *)

Section indexed_facts.
Context {W Tuple Key Val ValMutableSet ValSet R : Type}.
Context `{Countable Tuple, Countable Key, Countable Val}.
Context (factoring : Factorer Tuple Key Val) `{!RotatorOk factoring}.
Context (valSetFactory : Key → ValMutableSet).
Context (vset : MutableSet ValMutableSet Val) (wfV : ValMutableSet → Prop)
  (absV : ValMutableSet → gset Val) `{HV : !MutableSetOk vset id_cell wfV absV}.
Context (Hfactory : ∀ k, wfV (valSetFactory k) ∧ absV (valSetFactory k) = ∅).
Context (rep : MutableMap W Key ValMutableSet) (c : Cell W R) (wfR : R → Prop)
  (absR : R → gmap Key ValMutableSet) `{HR : !MutableMapOk rep None c wfR absR}.

Abbreviation gis := (NewGenericIndexedSet factoring valSetFactory vset rep).

#[local] Instance vset_reads : GoSetOk vset wfV absV := ms_set_ok (MutableSetOk:=HV).

Lemma rep_Get k w : wfR (cget c w) → map_Get rep k w = absR (cget c w) !! k.
Proof. intros Hw. by apply (map_Get_ok (abs:=λ w, absR (cget c w))). Qed.

(** No key is kept with an empty set of values. *)
Definition indexed_wf (r : R) : Prop :=
  wfR r ∧ ∀ k vs, absR r !! k = Some vs → wfV vs ∧ absV vs ≠ ∅.

(** The tuples that an index represents. *)
Definition index_tuples (m : gmap Key ValMutableSet) : list Tuple :=
  map_to_list m ≫= λ tup, (λ v, rotSecond factoring (tup.1, v)) <$> elements (absV tup.2).

Definition indexed_abs (r : R) : gset Tuple := list_to_set (index_tuples (absR r)).

Lemma elem_of_index_tuples m t :
  t ∈ index_tuples m ↔
  ∃ vs, m !! (rotFirst factoring t).1 = Some vs ∧ (rotFirst factoring t).2 ∈ absV vs.
Proof.
  unfold index_tuples. rw list_elem_of_bind. split.
  - intros ([k vs] & (v & -> & Hv)%list_elem_of_fmap & Hk). simpl in *.
    apply elem_of_map_to_list in Hk. apply elem_of_elements in Hv.
    exists vs. by rw rot_first_second.
  - intros (vs & Hk & Hv). exists ((rotFirst factoring t).1, vs). split.
    + apply list_elem_of_fmap. exists (rotFirst factoring t).2. simpl.
      rw -surjective_pairing rot_second_first. split; [done|]. by apply elem_of_elements.
    + by apply elem_of_map_to_list.
Qed.

Lemma elem_of_indexed_abs r t :
  t ∈ indexed_abs r ↔
  ∃ vs, absR r !! (rotFirst factoring t).1 = Some vs ∧ (rotFirst factoring t).2 ∈ absV vs.
Proof. unfold indexed_abs. by rw elem_of_list_to_set elem_of_index_tuples. Qed.

Lemma NoDup_index_tuples m : NoDup (index_tuples m).
Proof.
  unfold index_tuples. apply NoDup_bind.
  - intros [k1 vs1] [k2 vs2] t Hin1 Hin2 Ht1 Ht2. simpl in *.
    apply list_elem_of_fmap in Ht1 as (v1 & -> & _).
    apply list_elem_of_fmap in Ht2 as (v2 & Heq & _).
    apply (rotSecond_inj factoring) in Heq as [= -> ->].
    apply elem_of_map_to_list in Hin1, Hin2. congruence.
  - intros [k vs] _. apply NoDup_fmap_2_strong; [|apply NoDup_elements].
    intros v1 v2 _ _ Heq. simpl in *. by apply (rotSecond_inj factoring) in Heq as [= ->].
  - apply NoDup_map_to_list.
Qed.

Lemma elements_indexed_abs r : elements (indexed_abs r) ≡ₚ index_tuples (absR r).
Proof. apply elements_list_to_set, NoDup_index_tuples. Qed.

Lemma genericIndexedSet_Visit_perm w :
  indexed_wf (cget c w) →
  genericIndexedSet_Visit factoring vset rep w ≡ₚ index_tuples (absR (cget c w)).
Proof.
  intros [Hwf Hvs]. unfold genericIndexedSet_Visit, index_tuples.
  pose proof (map_Visit_ok (m:=rep) w Hwf) as Hvis. rw Hvis. clear Hvis.
  assert (∀ p, p ∈ map_to_list (absR (cget c w)) → wfV p.2) as Hp.
  { intros [k vs] Hin. apply elem_of_map_to_list in Hin. by apply (Hvs k vs). }
  revert Hp. generalize (map_to_list (absR (cget c w))). intros l Hp.
  induction l as [|p l IH]; [done|]. cbn. f_equiv.
  - apply fmap_Permutation. apply (set_Visit_ok p.2). apply (Hp p). set_solver.
  - apply IH. set_solver.
Qed.

Lemma index_tuples_length (l : list (Key * ValMutableSet)) n :
  (∀ p, p ∈ l → wfV p.2) →
  for_each l (λ tup ans, ans + set_Len vset tup.2) n
  = n + length (l ≫= λ tup, (λ v, rotSecond factoring (tup.1, v)) <$> elements (absV tup.2)).
Proof.
  revert n. induction l as [|p l IH]; intros n Hp; [by rw Nat.add_0_r|].
  rw for_each_cons IH; [|set_solver]. rw bind_cons length_app length_fmap.
  rw (set_Len_ok p.2); [|apply (Hp p); set_solver]. unfold size, set_size. simpl. lia.
Qed.

Lemma indexed_abs_empty r : indexed_wf r → indexed_abs r = ∅ ↔ absR r = ∅.
Proof.
  intros [_ Hvs]. split.
  - intros He. apply map_eq. intros k. rw lookup_empty. destruct (absR r !! k) as [vs|] eqn:Hk; [|done].
    destruct (Hvs k vs Hk) as [_ Hne]. apply set_choose_L in Hne as [v Hv].
    assert (rotSecond factoring (k, v) ∈ indexed_abs r) as Hin; [|rw He in Hin; set_solver].
    apply elem_of_indexed_abs. rw rot_first_second. by exists vs.
  - intros He. unfold indexed_abs, index_tuples. by rw He map_to_list_empty.
Qed.

Lemma genericIndexedSet_reads :
  GoSetOk gis (λ w, indexed_wf (cget c w)) (λ w, indexed_abs (cget c w)).
Proof.
  split; simpl.
  - intros w Hwf. unfold genericIndexedSet_IsEmpty. rw map_IsEmpty_ok; [|apply Hwf].
    apply bool_decide_ext. rw dom_empty_iff_L. symmetry. by apply indexed_abs_empty.
  - intros w Hwf. unfold genericIndexedSet_Len. rw index_tuples_length.
    + pose proof (map_Visit_ok (m:=rep) w (proj1 Hwf)) as Hvis. rw Hvis. simpl. fold (index_tuples (absR (cget c w))).
      by rw -elements_indexed_abs.
    + intros [k vs] Hin. apply (elem_of_map_Visit rep _ _ w k vs (proj1 Hwf)) in Hin.
      by apply (proj2 Hwf k vs).
  - intros t w Hwf. unfold genericIndexedSet_Has, Factorer_Factor. cbv beta iota zeta.
    rw (rep_Get _ w (proj1 Hwf)).
    destruct (absR (cget c w) !! (rotFirst factoring t).1) as [vs|] eqn:Hk.
    + rw (set_Has_ok _ vs); [|by apply (proj2 Hwf _ vs Hk)].
      apply bool_decide_ext. rw elem_of_indexed_abs. cbn. split; [intros; by exists vs|].
      rw Hk. by intros (? & [= <-] & ?).
    + symmetry. apply bool_decide_eq_false. rw elem_of_indexed_abs Hk. by intros (? & ? & _).
  - intros w Hwf. rw genericIndexedSet_Visit_perm //. by rw elements_indexed_abs.
Qed.

(** The index after a value was added under a key. *)
Lemma indexed_add_pure t key val r r2 vs' :
  indexed_wf r → rotFirst factoring t = (key, val) → wfR r2 → wfV vs' →
  absR r2 = <[key:=vs']> (absR r) →
  (∀ v, v ∈ absV vs' ↔ v = val ∨ ∃ vs0, absR r !! key = Some vs0 ∧ v ∈ absV vs0) →
  indexed_wf r2 ∧ indexed_abs r2 = {[t]} ∪ indexed_abs r.
Proof.
  clear HV Hfactory HR vset rep c valSetFactory. intros [_ Hvs] Ht Hwf2 Hwfv Ha2 Hmem. split.
  - split; [done|]. intros k vs0. rw Ha2. destruct (decide (k = key)) as [->|Hne].
    + rw lookup_insert_eq. intros [= <-]. split; [done|].
      assert (val ∈ absV vs') by (apply Hmem; by left). set_solver.
    + rw lookup_insert_ne //. apply Hvs.
  - apply set_eq. intros t'. rw elem_of_union elem_of_singleton !elem_of_indexed_abs Ha2.
    destruct (rotFirst factoring t') as [k v] eqn:Ht'. cbn [fst snd].
    assert (t' = t ↔ k = key ∧ v = val) as Heq.
    { split; [intros ->; rw Ht in Ht'; by injection Ht' as -> ->|].
      intros [-> ->]. apply (rotFirst_inj factoring). by rw Ht Ht'. }
    destruct (decide (k = key)) as [->|Hne].
    + rw lookup_insert_eq exists_Some_eq Hmem Heq. tauto.
    + rw lookup_insert_ne // Heq. tauto.
Qed.

(** The index after a value was removed under a key; the key goes with its last value. *)
Lemma indexed_remove_pure t key val r r2 vs vs' :
  indexed_wf r → rotFirst factoring t = (key, val) → absR r !! key = Some vs →
  wfR r2 → wfV vs' → absV vs' = absV vs ∖ {[val]} →
  (absV vs' ≠ ∅ ∧ absR r2 = <[key:=vs']> (absR r) ∨
   absV vs' = ∅ ∧ absR r2 = delete key (absR r)) →
  indexed_wf r2 ∧ indexed_abs r2 = indexed_abs r ∖ {[t]}.
Proof.
  clear HV Hfactory HR vset rep c valSetFactory. intros [_ Hvs] Ht Hk Hwf2 Hwfv Hrem Ha2. split.
  - split; [done|]. intros k vs0. destruct Ha2 as [[Hne ->]|[_ ->]].
    + destruct (decide (k = key)) as [->|Hnk].
      * rw lookup_insert_eq. by intros [= <-].
      * rw lookup_insert_ne //. apply Hvs.
    + intros [_ Hl]%lookup_delete_Some. by apply (Hvs k).
  - apply set_eq. intros t'. rw elem_of_difference elem_of_singleton !elem_of_indexed_abs.
    destruct (rotFirst factoring t') as [k v] eqn:Ht'. cbn [fst snd].
    assert (t' = t ↔ k = key ∧ v = val) as Heq.
    { split; [intros ->; rw Ht in Ht'; by injection Ht' as -> ->|].
      intros [-> ->]. apply (rotFirst_inj factoring). by rw Ht Ht'. }
    assert ((∃ vs0, absR r2 !! k = Some vs0 ∧ v ∈ absV vs0) ↔
            if decide (k = key) then v ∈ absV vs'
            else ∃ vs0, absR r !! k = Some vs0 ∧ v ∈ absV vs0) as ->.
    { destruct (decide (k = key)) as [->|Hne]; destruct Ha2 as [[? ->]|[He ->]].
      - by rw lookup_insert_eq exists_Some_eq.
      - rw lookup_delete_eq exists_None_eq He. set_solver.
      - by rw lookup_insert_ne.
      - by rw lookup_delete_ne. }
    rw Heq. destruct (decide (k = key)) as [->|Hne]; [|tauto].
    rw Hk exists_Some_eq Hrem. set_solver.
Qed.

Lemma genericIndexedSet_add_ok t w :
  indexed_wf (cget c w) → ∃ r w',
  sw_Add gis t w = (bool_decide (t ∉ indexed_abs (cget c w)), w') ∧ Updated c r w w' ∧
  indexed_wf r ∧ indexed_abs r = {[t]} ∪ indexed_abs (cget c w).
Proof.
  intros Hwf. simpl. unfold genericIndexedSet_Add, Factorer_Factor. cbv beta iota zeta.
  destruct (rotFirst factoring t) as [key val] eqn:Ht. cbn [fst snd].
  rw (rep_Get key w (proj1 Hwf)).
  assert (∃ valSet r1 w1,
    match absR (cget c w) !! key with
    | Some valSet => (valSet, w)
    | None => (valSetFactory key, mr_Put rep key (valSetFactory key) w)
    end = (valSet, w1) ∧ Updated c r1 w w1 ∧ wfR r1 ∧ wfV valSet ∧
    absR r1 = <[key:=valSet]> (absR (cget c w)) ∧
    (∀ v, v ∈ absV valSet ↔ ∃ vs0, absR (cget c w) !! key = Some vs0 ∧ v ∈ absV vs0))
    as (vs & r1 & w1 & -> & Hu1 & Hwf1 & Hvs & Ha1 & Hmem).
  { destruct (absR (cget c w) !! key) as [vs|] eqn:Hk.
    - exists vs, (cget c w), w. split_and!; [done|apply Updated_refl|apply Hwf| |by rw insert_id|].
      + by apply (proj2 Hwf key vs).
      + intros v. by rw exists_Some_eq.
    - destruct (mm_put_ok key (valSetFactory key) w (proj1 Hwf)) as (r & w' & -> & Hu & ? & Ha).
      destruct (Hfactory key) as [? He].
      exists (valSetFactory key), r, w'. split_and!; [done..|]. intros v. rw He exists_None_eq.
      set_solver. }
  destruct (ms_add_ok val vs Hvs) as (vs' & vs'' & -> & [Hvs'' _] & Hwf' & Hadd).
  cbn in Hvs'', Hadd. subst vs''. assert (cget c w1 = r1) as Hr1 by apply Hu1.
  destruct (mm_mutate_ok key vs' w1) as (r2 & Hu2 & Hwf2 & Ha2).
  { by rw Hr1. } { rw Hr1 Ha1 lookup_insert_eq. by eexists. }
  rw Hr1 Ha1 insert_insert_eq in Ha2.
  exists r2, (mm_Mutate rep key vs' w1). split_and!; [|by eapply Updated_trans|..].
  - f_equal. apply bool_decide_ext. by rw elem_of_indexed_abs Ht Hmem.
  - by apply (indexed_add_pure t key val (cget c w) r2 vs'); [..|intros v; rw Hadd -Hmem; set_solver].
  - by apply (indexed_add_pure t key val (cget c w) r2 vs'); [..|intros v; rw Hadd -Hmem; set_solver].
Qed.

Lemma genericIndexedSet_remove_ok t w :
  indexed_wf (cget c w) → ∃ r w',
  sw_Remove gis t w = (bool_decide (t ∈ indexed_abs (cget c w)), w') ∧ Updated c r w w' ∧
  indexed_wf r ∧ indexed_abs r = indexed_abs (cget c w) ∖ {[t]}.
Proof.
  intros Hwf. simpl. unfold genericIndexedSet_Remove, Factorer_Factor. cbv beta iota zeta.
  destruct (rotFirst factoring t) as [key val] eqn:Ht. cbn [fst snd].
  rw (rep_Get key w (proj1 Hwf)).
  destruct (absR (cget c w) !! key) as [vs|] eqn:Hk; last first.
  { assert (t ∉ indexed_abs (cget c w)) as Hn by (rw elem_of_indexed_abs Ht Hk exists_None_eq; tauto).
    exists (cget c w), w. rw bool_decide_false //.
    split_and!; [done|apply Updated_refl|done|set_solver]. }
  destruct (proj2 Hwf key vs Hk) as [Hvs Hvne].
  assert (t ∈ indexed_abs (cget c w) ↔ val ∈ absV vs) as Hin
    by (rw elem_of_indexed_abs Ht Hk exists_Some_eq; done).
  destruct (ms_remove_ok val vs Hvs) as (vs' & vs'' & -> & [Hvs'' _] & Hwf' & Hrem).
  cbn in Hvs'', Hrem. subst vs''.
  destruct (mm_mutate_ok key vs' w (proj1 Hwf)) as (r1 & Hu1 & Hwf1 & Ha1); [by rw Hk|].
  set (w1 := mm_Mutate rep key vs' w) in *. assert (cget c w1 = r1) as Hr1 by apply Hu1.
  rw (bool_decide_ext _ _ Hin) (set_IsEmpty_ok vs' Hwf').
  pose proof (λ r2 H1 H2, indexed_remove_pure t key val (cget c w) r2 vs vs' Hwf Ht Hk H1 Hwf' Hrem H2)
    as Hfin.
  change (cget id_cell vs) with vs.
  destruct (bool_decide_reflect (val ∈ absV vs)) as [Hv|Hv]; simpl; last first.
  { assert (absV vs' = absV vs) as Hsame by set_solver.
    destruct (Hfin r1 Hwf1) as [? ?]; [left; by rw Hsame|]. by exists r1, w1. }
  destruct (bool_decide_reflect (absV vs' = ∅)) as [He|He].
  - destruct (mm_delete_ok key w1) as (r2 & w2 & -> & Hu2 & Hwf2 & Ha2); [by rw Hr1|].
    rw Hr1 Ha1 delete_insert_eq in Ha2. destruct (Hfin r2 Hwf2) as [? ?]; [by right|].
    exists r2, w2. split_and!; [done|by eapply Updated_trans|done..].
  - destruct (Hfin r1 Hwf1) as [? ?]; [by left|]. by exists r1, w1.
Qed.

#[export] Instance genericIndexedSet_ok : MutableSetOk gis c indexed_wf indexed_abs.
Proof.
  split; [apply genericIndexedSet_reads|apply genericIndexedSet_add_ok
         |apply genericIndexedSet_remove_ok].
Qed.

(** The index of the set: under each key, exactly the value parts of the tuples with that key. *)
Lemma genericIndexedSetIndex_Get_spec (insulate : ValMutableSet → ValSet) key w :
  indexed_wf (cget c w) →
  match genericIndexedSetIndex_Get insulate rep key w with
  | Some s => ∃ vs, s = insulate vs ∧ wfV vs ∧ absV vs ≠ ∅ ∧
      ∀ v, v ∈ absV vs ↔ rotSecond factoring (key, v) ∈ indexed_abs (cget c w)
  | None => ∀ v, rotSecond factoring (key, v) ∉ indexed_abs (cget c w)
  end.
Proof.
  intros Hwf. unfold genericIndexedSetIndex_Get. rw (rep_Get key w (proj1 Hwf)).
  destruct (absR (cget c w) !! key) as [vs|] eqn:Hk.
  - exists vs. destruct (proj2 Hwf key vs Hk). split_and!; [done..|].
    intros v. rw elem_of_indexed_abs rot_first_second Hk ?exists_Some_eq ?exists_None_eq. tauto.
  - intros v. rw elem_of_indexed_abs rot_first_second Hk ?exists_Some_eq ?exists_None_eq. tauto.
Qed.

Lemma genericIndexedSetIndex_Visit1to2_spec key w :
  indexed_wf (cget c w) →
  NoDup (genericIndexedSetIndex_Visit1to2 vset rep key w) ∧
  ∀ v, v ∈ genericIndexedSetIndex_Visit1to2 vset rep key w ↔
       rotSecond factoring (key, v) ∈ indexed_abs (cget c w).
Proof.
  clear Hfactory valSetFactory. intros Hwf. unfold genericIndexedSetIndex_Visit1to2. rw (rep_Get key w (proj1 Hwf)).
  destruct (absR (cget c w) !! key) as [vs|] eqn:Hk.
  - destruct (proj2 Hwf key vs Hk) as [Hvs _]. split.
    + rw (set_Visit_ok vs Hvs). apply NoDup_elements.
    + intros v. rw (elem_of_set_Visit vset _ _ vs v Hvs).
      rw elem_of_indexed_abs rot_first_second Hk ?exists_Some_eq ?exists_None_eq. tauto.
  - split; [constructor|]. intros v. rw elem_of_indexed_abs rot_first_second Hk. set_solver.
Qed.
End indexed_facts.

(** ** The relations of the source *)

(** What a relation promises: it is a set of pairs, and its index is exact. *)
Class MutableRelation2Ok {W A B R} `{Countable A, Countable B} (rel : MutableRelation2 W A B)
  (c : Cell W R) (wf : R → Prop) (abs : R → gset (A * B)) : Prop := {
  rel_set_ok :: MutableSetOk rel c wf abs;
  rel_visit_NoDup : ∀ x w, wf (cget c w) → NoDup (rel_Visit1to2 rel x w);
  rel_visit_ok : ∀ x y w, wf (cget c w) →
    y ∈ rel_Visit1to2 rel x w ↔ (x, y) ∈ abs (cget c w)
}.

Section relation_instances.
Context `{MapRange}.

Lemma pair_index_ok {W A B} `{Countable A, Countable B} (c : Cell W (gmap A (gset B))) `{!CellOk c} :
  MutableSetOk
    (NewGenericIndexedSet PairFactorer (λ _, NewEmptyMapSet) (MapSet_AsMutableSet id_cell)
       (MapMap_AsMutableMap None c)) c
    (indexed_wf (λ _, True) id (λ _, True) id) (indexed_abs PairFactorer id id).
Proof. apply genericIndexedSet_ok; try apply _. done. Qed.

#[export] Instance NewMapRelation2_ok {W A B} `{Countable A, Countable B}
  (c : Cell W (MapRelation2Rep A B)) `{!CellOk c} :
  MutableRelation2Ok (NewMapRelation2 c) c (indexed_wf (λ _, True) id (λ _, True) id)
    (indexed_abs PairFactorer id id).
Proof.
  split.
  - by apply pair_index_ok.
  - intros x w Hw.
    by apply (genericIndexedSetIndex_Visit1to2_spec PairFactorer _ (λ _, True) id _ c (λ _, True) id).
  - intros x y w Hw.
    by apply (genericIndexedSetIndex_Visit1to2_spec PairFactorer _ (λ _, True) id _ c (λ _, True) id).
Qed.

#[export] Instance NewHashRelation2_ok {W A B} `{Countable A, Countable B}
  (dA : HashDomain A) (dB : HashDomain B) `{!HashDomainOk dA, !HashDomainOk dB}
  (c : Cell W (HashRelation2Rep A B)) `{!CellOk c} :
  MutableRelation2Ok (NewHashRelation2 dA dB c) c
    (indexed_wf (hashMap_wf dB) (λ hm, dom (hashMap_abs hm)) (hashMap_wf dA) hashMap_abs)
    (indexed_abs PairFactorer (λ hm, dom (hashMap_abs hm)) hashMap_abs).
Proof.
  assert (∀ k : A, hashMap_wf dB (emptyBuckets : buckets B Empty) ∧
                   dom (hashMap_abs (emptyBuckets : buckets B Empty)) = ∅) as Hf.
  { intros k. split; [by apply (hashMap_wf_empty dB)|by rw hashMap_abs_empty dom_empty_L]. }
  split.
  - apply genericIndexedSet_ok; try apply _. done.
  - intros x w Hw.
    by apply (genericIndexedSetIndex_Visit1to2_spec PairFactorer _ (hashMap_wf dB)
      (λ hm, dom (hashMap_abs hm)) _ c (hashMap_wf dA) hashMap_abs).
  - intros x y w Hw.
    by apply (genericIndexedSetIndex_Visit1to2_spec PairFactorer _ (hashMap_wf dB)
      (λ hm, dom (hashMap_abs hm)) _ c (hashMap_wf dA) hashMap_abs).
Qed.

#[export] Instance NewMapRelation3_ok {W A B C} `{Countable A, Countable B, Countable C}
  (c : Cell W (MapRelation3Rep A B C)) `{!CellOk c} :
  MutableSetOk (NewMapRelation3 c) c
    (indexed_wf (indexed_wf (λ _, True) id (λ _, True) id) (indexed_abs PairFactorer id id)
       (λ _, True) id)
    (indexed_abs TripleFactorerTo1and23 (indexed_abs PairFactorer id id) id).
Proof.
  unfold NewMapRelation3. apply genericIndexedSet_ok; [apply _|by apply pair_index_ok| |apply _].
  intros k. split; [|done]. split; [done|]. intros k' vs. by rw lookup_empty.
Qed.

#[export] Instance NewMapRelation4_ok {W A B C D}
  `{Countable A, Countable B, Countable C, Countable D}
  (c : Cell W (MapRelation4Rep A B C D)) `{!CellOk c} :
  MutableSetOk (NewMapRelation4 c) c
    (indexed_wf
       (indexed_wf (indexed_wf (λ _, True) id (λ _, True) id) (indexed_abs PairFactorer id id)
          (λ _, True) id)
       (indexed_abs TripleFactorerTo1and23 (indexed_abs PairFactorer id id) id)
       (λ _, True) id)
    (indexed_abs QuadFactorerTo1and234
       (indexed_abs TripleFactorerTo1and23 (indexed_abs PairFactorer id id) id) id).
Proof.
  unfold NewMapRelation4. apply genericIndexedSet_ok; [apply _|apply (NewMapRelation3_ok id_cell)| |apply _].
  intros k. split; [|done]. split; [done|]. intros k' vs. by rw lookup_empty.
Qed.
End relation_instances.

(** ** Runs *)

(** C32: after any sequence of [Add] and [Remove] calls on an empty
    [NewMapRelation2], the index on the first column is exact: [Get] of a key
    returns the non-empty set of the seconds paired with it, and nothing iff there
    is no such pair; [Visit1to2] enumerates that set without repetition; [Has],
    [Len] and [IsEmpty] agree with the set of pairs. *)
Theorem MapRelation2_index_exact `{MapRange} {A B} `{Countable A, Countable B}
  (ops : list (SetOp (A * B))) :
  let rel := NewMapRelation2 id_cell in
  let rep := MapMap_AsMutableMap None id_cell in
  let r := for_each ops (run_set_op rel) ∅ in
  let spec := for_each ops spec_set_op (∅ : gset (A * B)) in
  (∀ key, match genericIndexedSetIndex_Get id rep key r with
          | Some seconds => seconds ≠ ∅ ∧ ∀ v, v ∈ seconds ↔ (key, v) ∈ spec
          | None => ∀ v, (key, v) ∉ spec
          end) ∧
  (∀ key, NoDup (rel_Visit1to2 rel key r) ∧
          ∀ v, v ∈ rel_Visit1to2 rel key r ↔ (key, v) ∈ spec) ∧
  (∀ tup, set_Has rel tup r = bool_decide (tup ∈ spec)) ∧
  set_Len rel r = size spec ∧ set_IsEmpty rel r = bool_decide (spec = ∅).
Proof.
  cbv zeta. set (rel := NewMapRelation2 id_cell). set (rep := MapMap_AsMutableMap None id_cell).
  set (wf := indexed_wf (λ _, True) id (λ _, True) id : MapRelation2Rep A B → Prop).
  set (abs := indexed_abs PairFactorer id id : MapRelation2Rep A B → gset (A * B)).
  pose proof (NewMapRelation2_ok id_cell : MutableRelation2Ok rel id_cell wf abs) as Hrok.
  pose proof (rel_set_ok (MutableRelation2Ok:=Hrok)) as Hrel.
  pose proof (MutableSetOk_writer rel id_cell wf abs Hrel) as Hsw.
  destruct (run_set_ops_ok rel wf abs ops ∅) as [Hwf Habs].
  { split; [done|]. intros k vs. by rw lookup_empty. }
  assert (GoSetOk rel wf abs) as Hset by exact (ms_set_ok (MutableSetOk:=Hrel)).
  change (abs ∅) with (∅ : gset (A * B)) in Habs. rw -Habs. split_and!.
  - intros key.
    pose proof (genericIndexedSetIndex_Get_spec (R:=MapRelation2Rep A B) PairFactorer
      (λ _, True) id rep id_cell (λ _, True) id id key _ Hwf) as Hget.
    destruct (genericIndexedSetIndex_Get _ _ _ _) as [s|]; [|done].
    by destruct Hget as (vs & -> & _ & ? & ?).
  - intros key. split; [by apply (rel_visit_NoDup (wf:=wf) (c:=id_cell))|].
    intros v. by apply (rel_visit_ok (wf:=wf) (c:=id_cell)).
  - intros t. by apply (set_Has_ok (wf:=wf)).
  - by apply (set_Len_ok (wf:=wf)).
  - by apply (set_IsEmpty_ok (wf:=wf)).
Qed.

(** ** Observed relations *)

Section observed_facts.
Context {W A B R : Type} `{Countable A, Countable B}.
Context (inner : MutableRelation2 W A B) (c : Cell W R) (wf : R → Prop) (abs : R → gset (A * B)).
Context `{Hinner : !MutableRelation2Ok inner c wf abs}.

(** The simulation form, for any way [T] of describing what the observers know. *)
Lemma relation2WithObservers_sim (observers : list (SetWriter W (A * B)))
  (T : gset (A * B) → W → Prop) :
  (∀ X r w w', Updated c r w w' → T X w → T X w') →
  (∀ e X w, e ∉ X → wf (cget c w) → abs (cget c w) = {[e]} ∪ X → T X w →
     let w' := for_each observers (λ o w, (sw_Add o e w).2) w in
     T ({[e]} ∪ X) w' ∧ cget c w' = cget c w) →
  (∀ e X w, e ∈ X → wf (cget c w) → abs (cget c w) = X ∖ {[e]} → T X w →
     let w' := for_each observers (λ o w, (sw_Remove o e w).2) w in
     T (X ∖ {[e]}) w' ∧ cget c w' = cget c w) →
  SetWriterSim (Relation2WithObservers inner observers)
    (λ X w, wf (cget c w) ∧ abs (cget c w) = X ∧ T X w).
Proof.
  intros Hc Hadd Hrem. split; intros e X w (Hwf & <- & HT); simpl.
  - unfold relation2WithObservers_Add.
    destruct (ms_add_ok e w Hwf) as (r & w1 & -> & Hu & Hwf' & Habs).
    assert (cget c w1 = r) as Hr by apply Hu.
    assert (T (abs (cget c w)) w1) as HT1 by by eapply Hc.
    case_bool_decide as Hin; simpl.
    + destruct (Hadd e (abs (cget c w)) w1) as [HT2 Hc2]; [done|by rw Hr|by rw Hr|done|].
      by rw Hc2 Hr.
    + assert ({[e]} ∪ abs (cget c w) = abs (cget c w)) as Hsame by set_solver.
      by rw Hr Habs Hsame.
  - unfold relation2WithObservers_Remove.
    destruct (ms_remove_ok e w Hwf) as (r & w1 & -> & Hu & Hwf' & Habs).
    assert (cget c w1 = r) as Hr by apply Hu.
    assert (T (abs (cget c w)) w1) as HT1 by by eapply Hc.
    case_bool_decide as Hin; simpl.
    + destruct (Hrem e (abs (cget c w)) w1) as [HT2 Hc2]; [done|by rw Hr|by rw Hr|done|].
      by rw Hc2 Hr.
    + assert (abs (cget c w) ∖ {[e]} = abs (cget c w)) as Hsame by set_solver.
      by rw Hr Habs Hsame.
Qed.

(** The observers, each with the set that it keeps. *)
Context (observers : list (SetWriter W (A * B) * (W → gset (A * B)))).
Context (inv : W → Prop) `{!Indep c inv}.
Context (Hobs : ∀ i o, observers !! i = Some o →
  SetWriterOk o.1 inv o.2 ∧ QuietSW o.1 (cget c) ∧ Indep c o.2).
Context (Hdisj : ∀ i j o o', observers !! i = Some o → observers !! j = Some o' → i ≠ j →
  QuietSW o.1 o'.2).

(** All observers have the contents of the relation. *)
Definition in_step (w : W) : Prop :=
  wf (cget c w) ∧ inv w ∧ ∀ i o, observers !! i = Some o → o.2 w = abs (cget c w).

Lemma notify_observers (op : SetWriter W (A * B) → W → W) (X Y : gset (A * B)) r w :
  (∀ i o, observers !! i = Some o → ∀ w, inv w →
     inv (op o.1 w) ∧ cget c (op o.1 w) = cget c w ∧ (o.2 w = X → o.2 (op o.1 w) = Y)) →
  (∀ i j o o', observers !! i = Some o → observers !! j = Some o' → i ≠ j → ∀ w,
     o'.2 (op o.1 w) = o'.2 w) →
  inv w → cget c w = r → (∀ i o, observers !! i = Some o → o.2 w = X) →
  let w' := for_each observers.*1 op w in
  inv w' ∧ cget c w' = r ∧ ∀ i o, observers !! i = Some o → o.2 w' = Y.
Proof.
  intros Hop Hother Hi Hr HX. cbv zeta. rw for_each_fmap.
  set (I := λ (seen : list (SetWriter W (A * B) * (W → gset (A * B)))) (w' : W),
    inv w' ∧ cget c w' = r ∧ ∀ i o, observers !! i = Some o →
      o.2 w' = if decide (i < length seen) then Y else X).
  assert (I observers (for_each observers (λ o, op o.1) w)) as (Hi' & Hr' & HY).
  { apply (for_each_ind I).
    { split_and!; [done..|]. intros i o Ho. by apply (HX i). }
    intros seen o todo w1 Heq (Hi1 & Hr1 & Hseen).
    assert (observers !! length seen = Some o) as Ho
      by (rw Heq; by apply list_lookup_middle).
    destruct (Hop _ _ Ho w1 Hi1) as (? & Hc & Hy).
    split_and!; [done|by rw Hc|]. intros i o' Ho'. rw length_app /=.
    destruct (decide (i = length seen)) as [->|Hne].
    - rw decide_True; [|lia]. rw Ho in Ho'. injection Ho' as <-. apply Hy.
      rw (Hseen _ _ Ho). by rw decide_False; [|lia].
    - rw (Hother _ _ _ _ Ho Ho') // (Hseen _ _ Ho').
      by destruct (decide (i < length seen)), (decide (i < length seen + 1)); try lia. }
  split_and!; [done..|]. intros i o Ho. rw (HY i o Ho) decide_True //.
  by eapply lookup_lt_Some.
Qed.

(** a relation with observers tells every observer about exactly the changes
    of the relation: with all observers in step before a call of [Add] or
    [Remove], the relation has the expected contents after it and all observers
    are still in step. *)
Theorem relation2WithObservers_in_step :
  SetWriterOk (Relation2WithObservers inner observers.*1) in_step (λ w, abs (cget c w)).
Proof.
  split; intros t w (Hwf & Hi & Hstep); simpl.
  - unfold relation2WithObservers_Add.
    destruct (ms_add_ok t w Hwf) as (r & w1 & -> & [Hr Hu] & Hwf' & Habs).
    assert (inv w1) as Hi1 by by rw Hu.
    assert (∀ i o, observers !! i = Some o → o.2 w1 = abs (cget c w)) as Hs1.
    { intros i o Ho. destruct (Hobs i o Ho) as (_ & _ & ?). rw Hu //. by apply (Hstep i). }
    case_bool_decide as Hin; simpl.
    + destruct (notify_observers (λ o w, (sw_Add o t w).2) (abs (cget c w)) (abs r) r w1)
        as (? & Hc & HY); [|by intros; eapply Hdisj|done..|].
      * intros i o Ho w' Hw'. destruct (Hobs i o Ho) as ([Ha _] & Hq & _).
        destruct (Ha t w' Hw') as [? Hset]. split_and!; [done|apply Hq|]. intros HX.
        by rw Hset HX Habs.
      * split; [split_and!|by rw Hc]; [by rw Hc|done|]. intros i o Ho. by rw Hc (HY i o Ho).
    + assert (abs r = abs (cget c w)) as Hsame by (rw Habs; set_solver).
      split; [split_and!|by rw Hr]; [by rw Hr|done|]. intros i o Ho. by rw Hr (Hs1 i o Ho).
  - unfold relation2WithObservers_Remove.
    destruct (ms_remove_ok t w Hwf) as (r & w1 & -> & [Hr Hu] & Hwf' & Habs).
    assert (inv w1) as Hi1 by by rw Hu.
    assert (∀ i o, observers !! i = Some o → o.2 w1 = abs (cget c w)) as Hs1.
    { intros i o Ho. destruct (Hobs i o Ho) as (_ & _ & ?). rw Hu //. by apply (Hstep i). }
    case_bool_decide as Hin; simpl.
    + destruct (notify_observers (λ o w, (sw_Remove o t w).2) (abs (cget c w)) (abs r) r w1)
        as (? & Hc & HY); [|by intros; eapply Hdisj|done..|].
      * intros i o Ho w' Hw'. destruct (Hobs i o Ho) as ([_ Ha] & Hq & _).
        destruct (Ha t w' Hw') as [? Hset]. split_and!; [done|apply Hq|]. intros HX.
        by rw Hset HX Habs.
      * split; [split_and!|by rw Hc]; [by rw Hc|done|]. intros i o Ho. by rw Hc (HY i o Ho).
    + assert (abs r = abs (cget c w)) as Hsame by (rw Habs; set_solver).
      split; [split_and!|by rw Hr]; [by rw Hr|done|]. intros i o Ho. by rw Hr (Hs1 i o Ho).
Qed.
End observed_facts.
