(* ===== verification/FactoredMap.v ===== *)
(** Factored maps of pkg/placement (map-factored.go, map-factored-aggregate.go).

    A factored map splits its keys in two parts and keeps a map from the first
    part to a map from the second part to the value.  The inner maps are mutable
    objects, whose contents the model keeps in the outer map and changes there
    with [mm_Mutate]; the outer observer, which the source hands a reference to
    an inner map, is handed its contents. *)

From S2P Require Import Prelude Tuples Interfaces Slices Sets Maps.

Section factored_map.
Context {W WholeKey KeyPartA KeyPartB Val Inner InnerMap : Type}.
Context (keyDecomposer : Factorer WholeKey KeyPartA KeyPartB)
  (innerMapConstructor : KeyPartA → W → Inner * W) (innerMapAsMap : MutableMap Inner KeyPartB Val)
  (insulateInner : Inner → InnerMap) (outerMap : MutableMap W KeyPartA Inner)
  (unifiedObserver : option (MapChangeReceiver W WholeKey Val))
  (outerObserver : option (MappingReceiver W KeyPartA Inner)).

Definition genericFactoredMap_IsEmpty (w : W) : bool := map_IsEmpty outerMap w.

Definition genericFactoredMap_Len (w : W) : nat :=
  for_each (map_Visit outerMap w)
    (λ outerMapping ans, ans + map_Len innerMapAsMap outerMapping.2) 0.

Definition genericFactoredMap_Visit (w : W) : list (Pair WholeKey Val) :=
  map_Visit outerMap w ≫= λ outerMapping,
    (λ innerMapping,
       let decomposedKey := (outerMapping.1, innerMapping.1) in
       let wholeKey := rotSecond keyDecomposer decomposedKey in
       (wholeKey, innerMapping.2)) <$> map_Visit innerMapAsMap outerMapping.2.

Definition genericFactoredMap_Get (wholeKey : WholeKey) (w : W) : option Val :=
  let decomposedKey := rotFirst keyDecomposer wholeKey in
  match map_Get outerMap decomposedKey.1 w with
  | None => None
  | Some innerMap => map_Get innerMapAsMap decomposedKey.2 innerMap
  end.

(** Calls of the observers, which may be nil. *)
Definition unified_Create (key : WholeKey) (val : Val) (w : W) : W :=
  match unifiedObserver with Some o => mcr_Create o key val w | None => w end.
Definition unified_Update (key : WholeKey) (oldVal val : Val) (w : W) : W :=
  match unifiedObserver with Some o => mcr_Update o key oldVal val w | None => w end.
Definition unified_DeleteWithFinal (key : WholeKey) (oldVal : Val) (w : W) : W :=
  match unifiedObserver with Some o => mcr_DeleteWithFinal o key oldVal w | None => w end.
Definition outer_Put (key : KeyPartA) (inner : Inner) (w : W) : W :=
  match outerObserver with Some o => mr_Put o key inner w | None => w end.
Definition outer_Delete (key : KeyPartA) (w : W) : W :=
  match outerObserver with Some o => mr_Delete o key w | None => w end.

Definition genericFactoredMap_Put (wholeKey : WholeKey) (val : Val) (w : W) : W :=
  let decomposedKey := rotFirst keyDecomposer wholeKey in
  match map_Get outerMap decomposedKey.1 w with
  | None =>
      let '(innerMap, w) := innerMapConstructor decomposedKey.1 w in
      let innerMap := mr_Put innerMapAsMap decomposedKey.2 val innerMap in
      let w := mr_Put outerMap decomposedKey.1 innerMap w in
      let w := unified_Create wholeKey val w in
      outer_Put decomposedKey.1 innerMap w
  | Some innerMap =>
      if (if unifiedObserver is Some _ then true else false)
         || (if outerObserver is Some _ then true else false) then
        let old := map_Get innerMapAsMap decomposedKey.2 innerMap in
        let innerMap := mr_Put innerMapAsMap decomposedKey.2 val innerMap in
        let w := mm_Mutate outerMap decomposedKey.1 innerMap w in
        match old with
        | Some oldVal =>
            let w := unified_Update wholeKey oldVal val w in
            outer_Put decomposedKey.1 innerMap w
        | None =>
            let w := unified_Create wholeKey val w in
            outer_Put decomposedKey.1 innerMap w
        end
      else
        let innerMap := mr_Put innerMapAsMap decomposedKey.2 val innerMap in
        mm_Mutate outerMap decomposedKey.1 innerMap w
  end.

Definition genericFactoredMap_Delete (wholeKey : WholeKey) (w : W) : W :=
  let decomposedKey := rotFirst keyDecomposer wholeKey in
  match map_Get outerMap decomposedKey.1 w with
  | None => w
  | Some innerMap =>
      match map_Get innerMapAsMap decomposedKey.2 innerMap with
      | None => w
      | Some oldVal =>
          let innerMap := mr_Delete innerMapAsMap decomposedKey.2 innerMap in
          let w := mm_Mutate outerMap decomposedKey.1 innerMap w in
          let w :=
            if map_IsEmpty innerMapAsMap innerMap then
              let w := mr_Delete outerMap decomposedKey.1 w in
              outer_Delete decomposedKey.1 w
            else outer_Put decomposedKey.1 innerMap w in
          unified_DeleteWithFinal wholeKey oldVal w
      end
  end.

(** A factored map as a [MutableMap]; [mm_Mutate] reaches the value in its inner map. *)
Definition NewGenericFactoredMap : MutableMap W WholeKey Val :=
  MkMutableMap
    (MkGoMap genericFactoredMap_IsEmpty genericFactoredMap_Len (λ _, false)
       genericFactoredMap_Get genericFactoredMap_Visit)
    (MkMappingReceiver genericFactoredMap_Put genericFactoredMap_Delete)
    (λ wholeKey val w,
       let decomposedKey := rotFirst keyDecomposer wholeKey in
       match map_Get outerMap decomposedKey.1 w with
       | None => w
       | Some innerMap =>
           mm_Mutate outerMap decomposedKey.1
             (mm_Mutate innerMapAsMap decomposedKey.2 val innerMap) w
       end).

(** [GetIndex] *)
Definition genericFactoredMapIndex_IsEmpty (w : W) : bool := genericFactoredMap_IsEmpty w.
Definition genericFactoredMapIndex_LenIsCheap (w : W) : bool := map_LenIsCheap outerMap w.
Definition genericFactoredMapIndex_Len (w : W) : nat := map_Len outerMap w.

Definition genericFactoredMapIndex_Get (keyPartA : KeyPartA) (w : W) : option InnerMap :=
  match map_Get outerMap keyPartA w with
  | None => None
  | Some innerMap => Some (insulateInner innerMap)
  end.

Definition genericFactoredMapIndex_Visit (w : W) : list (Pair KeyPartA InnerMap) :=
  (λ outerTup, let innerMap := insulateInner outerTup.2 in NewPair outerTup.1 innerMap)
    <$> map_Visit outerMap w.

Definition genericFactoredMapIndex_Visit1to2 (keyPartA : KeyPartA) (w : W)
  : list (Pair KeyPartB Val) :=
  match map_Get outerMap keyPartA w with
  | None => []
  | Some innerMap => map_Visit innerMapAsMap innerMap
  end.
End factored_map.

Section factored_map_map.
Context `{MapRange} {W WholeKey KeyPartA KeyPartB Val : Type} `{Countable KeyPartA, Countable KeyPartB}.
Context (keyDecomposer : Factorer WholeKey KeyPartA KeyPartB).

(** The observer of the outer map. *)
Definition outerMapObserver {Rest} (outerKeysetObserver : option (SetChangeReceiver W KeyPartA))
  : MapChangeReceiver W KeyPartA Rest :=
  MkMapChangeReceiver
    (λ keyPartA _ w, match outerKeysetObserver with Some o => o true keyPartA w | None => w end)
    (λ _ _ _ w, w)
    (λ keyPartA _ w, match outerKeysetObserver with Some o => o false keyPartA w | None => w end).

Definition NewFactoredMapMap (unifiedObserver : option (MapChangeReceiver W WholeKey Val))
  (outerKeysetObserver : option (SetChangeReceiver W KeyPartA))
  (outerObserver2 : option (MappingReceiver W KeyPartA (gmap KeyPartB Val)))
  (c : Cell W (gmap KeyPartA (gmap KeyPartB Val))) : MutableMap W WholeKey Val :=
  NewGenericFactoredMap keyDecomposer (λ _ w, (∅, w)) (MapMap_AsMutableMap None id_cell)
    (MapMap_AsMutableMap (Some (outerMapObserver outerKeysetObserver)) c)
    unifiedObserver outerObserver2.

(** The aggregation is given the inner map, which it can enumerate. *)
Definition observeToSolve {Aggregation} (aggregate : KeyPartA → gmap KeyPartB Val → Aggregation)
  (aggregationObserver : MappingReceiver W KeyPartA Aggregation)
  : MappingReceiver W KeyPartA (gmap KeyPartB Val) :=
  MkMappingReceiver
    (λ keyPartA problem w,
       let aggregation := aggregate keyPartA problem in
       mr_Put aggregationObserver keyPartA aggregation w)
    (λ keyPartA w, mr_Delete aggregationObserver keyPartA w).

Definition NewFactoredMapMapAggregator {Aggregation}
  (unifiedObserver : option (MapChangeReceiver W WholeKey Val))
  (outerKeysetObserver : option (SetChangeReceiver W KeyPartA))
  (aggregate : KeyPartA → gmap KeyPartB Val → Aggregation)
  (aggregationObserver : MappingReceiver W KeyPartA Aggregation)
  (c : Cell W (gmap KeyPartA (gmap KeyPartB Val))) : MutableMap W WholeKey Val :=
  NewFactoredMapMap unifiedObserver outerKeysetObserver
    (Some (observeToSolve aggregate aggregationObserver)) c.
End factored_map_map.

Section single_indexed_maps.
Context `{MapRange} {W First Second Third Val : Type}.
Context `{Countable First, Countable Second, Countable Third}.

Definition NewSingleIndexedMapMap2 (c : Cell W (gmap First (gmap Second Val)))
  : MutableMap W (Pair First Second) Val :=
  NewGenericFactoredMap PairFactorer (λ _ w, (∅, w)) (MapMap_AsMutableMap None id_cell)
    (MapMap_AsMutableMap None c) None None.

Definition NewSingleIndexedMapMap3 (c : Cell W (gmap First (gmap Second (gmap Third Val))))
  : MutableMap W (Triple First Second Third) Val :=
  NewGenericFactoredMap TripleFactorerTo1and23 (λ _ w, (∅, w))
    (NewGenericFactoredMap PairFactorer (λ _ w, (∅, w)) (MapMap_AsMutableMap None id_cell)
       (MapMap_AsMutableMap None id_cell) None None)
    (MapMap_AsMutableMap None c) None None.
End single_indexed_maps.

(** * The flat contents of a factored map *)

Section flatten_facts.
Context {Whole A B V Inner : Type} `{Countable Whole, Countable A, Countable B}.
Context (kd : Factorer Whole A B) `{!RotatorOk kd}.
Context (absI : Inner → gmap B V).
Implicit Types (m : gmap A Inner).

Definition flat_list (l : list (A * Inner)) : list (Whole * V) :=
  l ≫= λ p, (λ q, (rotSecond kd (p.1, q.1), q.2)) <$> map_to_list (absI p.2).

Definition flatten m : gmap Whole V := list_to_map (flat_list (map_to_list m)).

Lemma NoDup_flat_list (l : list (A * Inner)) : NoDup l.*1 → NoDup (flat_list l).*1.
Proof.
  induction l as [|[a i] l IH]; intros Hnd; [constructor|].
  cbn [fmap list_fmap] in Hnd. apply NoDup_cons in Hnd as [Ha Hnd].
  unfold flat_list. rw bind_cons fmap_app. apply NoDup_app. split_and!; [|..|by apply IH].
  - rw -list_fmap_compose.
    replace ((fst ∘ λ q, (rotSecond kd (a, q.1), q.2)) <$> map_to_list (absI i))
      with ((λ b, rotSecond kd (a, b)) <$> (map_to_list (absI i)).*1)
      by by rw -list_fmap_compose.
    apply NoDup_fmap_2_strong; [|apply NoDup_fst_map_to_list].
    intros b1 b2 _ _ Heq. by apply (rotSecond_inj kd) in Heq as [= ->].
  - intros x Hx1 Hx2. apply list_elem_of_fmap in Hx1 as (p1 & -> & Hp1).
    apply list_elem_of_fmap in Hp1 as (q1 & -> & _).
    apply list_elem_of_fmap in Hx2 as (p2 & Heq & Hp2).
    apply list_elem_of_bind in Hp2 as ([a2 i2] & (q2 & -> & _)%list_elem_of_fmap & Hin).
    simpl in Heq. apply (rotSecond_inj kd) in Heq as [= <- _].
    apply Ha, list_elem_of_fmap. by exists (a, i2).
Qed.

Lemma elem_of_flat_list m k v :
  (k, v) ∈ flat_list (map_to_list m) ↔
  ∃ i, m !! (rotFirst kd k).1 = Some i ∧ absI i !! (rotFirst kd k).2 = Some v.
Proof.
  unfold flat_list. rw list_elem_of_bind. split.
  - intros ([a i] & (q & [= -> ->] & Hq)%list_elem_of_fmap & Hin). simpl.
    apply elem_of_map_to_list in Hin. exists i. rw rot_first_second. split; [done|].
    apply elem_of_map_to_list. by destruct q.
  - intros (i & Ha & Hb). exists ((rotFirst kd k).1, i). split; [|by apply elem_of_map_to_list].
    apply list_elem_of_fmap. exists ((rotFirst kd k).2, v). simpl.
    rw -surjective_pairing rot_second_first. split; [done|]. by apply elem_of_map_to_list.
Qed.

Lemma lookup_flatten m k :
  flatten m !! k = m !! (rotFirst kd k).1 ≫= λ i, absI i !! (rotFirst kd k).2.
Proof.
  apply option_eq. intros v. unfold flatten.
  rw -elem_of_list_to_map; [|apply NoDup_flat_list, NoDup_fst_map_to_list].
  rw elem_of_flat_list bind_Some. done.
Qed.

Lemma map_to_list_flatten m : map_to_list (flatten m) ≡ₚ flat_list (map_to_list m).
Proof. apply map_to_list_to_map, NoDup_flat_list, NoDup_fst_map_to_list. Qed.

Lemma flatten_empty : flatten ∅ = ∅.
Proof. unfold flatten. by rw map_to_list_empty. Qed.

(** The effect of changing one inner map in one key. *)
Lemma flatten_insert m k v i i' :
  (∀ b, absI i !! b = m !! (rotFirst kd k).1 ≫= λ i, absI i !! b) →
  absI i' = <[(rotFirst kd k).2:=v]> (absI i) →
  flatten (<[(rotFirst kd k).1:=i']> m) = <[k:=v]> (flatten m).
Proof.
  intros Hi Hi'. apply map_eq. intros k'. rw lookup_flatten.
  destruct (decide (k' = k)) as [->|Hne].
  - by rw !lookup_insert_eq /= Hi' lookup_insert_eq.
  - rw (lookup_insert_ne _ k) // lookup_flatten.
    destruct (decide ((rotFirst kd k').1 = (rotFirst kd k).1)) as [Ha|Ha].
    + rw Ha lookup_insert_eq /= Hi' lookup_insert_ne ?Hi //.
      intros Hb. apply Hne, (rotFirst_inj kd). rw (surjective_pairing (rotFirst kd k')).
      by rw Ha -Hb -surjective_pairing.
    + by rw lookup_insert_ne.
Qed.

Lemma flatten_delete m k i i' (f : gmap A Inner) :
  m !! (rotFirst kd k).1 = Some i → absI i' = delete (rotFirst kd k).2 (absI i) →
  (f = <[(rotFirst kd k).1:=i']> m ∨ (absI i' = ∅ ∧ f = delete (rotFirst kd k).1 m)) →
  flatten f = delete k (flatten m).
Proof.
  intros Hi Hi' Hf. apply map_eq. intros k'. rw lookup_flatten.
  assert (f !! (rotFirst kd k').1 ≫= (λ i, absI i !! (rotFirst kd k').2)
          = <[(rotFirst kd k).1:=i']> m !! (rotFirst kd k').1 ≫= λ i, absI i !! (rotFirst kd k').2)
    as ->.
  { destruct Hf as [->|[He ->]]; [done|].
    destruct (decide ((rotFirst kd k').1 = (rotFirst kd k).1)) as [->|Hne].
    - by rw lookup_delete_eq lookup_insert_eq /= He lookup_empty.
    - by rw lookup_delete_ne // lookup_insert_ne. }
  destruct (decide (k' = k)) as [->|Hne].
  - by rw lookup_insert_eq lookup_delete_eq /= Hi' lookup_delete_eq.
  - rw (lookup_delete_ne _ k) // lookup_flatten.
    destruct (decide ((rotFirst kd k').1 = (rotFirst kd k).1)) as [Ha|Ha].
    + rw Ha lookup_insert_eq /= Hi' Hi lookup_delete_ne //.
      intros Hb. apply Hne, (rotFirst_inj kd). rw (surjective_pairing (rotFirst kd k')).
      by rw Ha -Hb -surjective_pairing.
    + by rw lookup_insert_ne.
Qed.
End flatten_facts.

(** * Without observers: a map like any other *)

Section factored_facts.
Context {W Whole A B V Inner R : Type} `{Countable Whole, Countable A, Countable B}.
Context (kd : Factorer Whole A B) `{!RotatorOk kd} (ctor : A → Inner).
Context (inner : MutableMap Inner B V) (wfI : Inner → Prop) (absI : Inner → gmap B V)
  `{HI : !MutableMapOk inner None id_cell wfI absI}.
Context (Hctor : ∀ a, wfI (ctor a) ∧ absI (ctor a) = ∅).
Context (outer : MutableMap W A Inner) (c : Cell W R) (wfR : R → Prop)
  (absR : R → gmap A Inner) `{HO : !MutableMapOk outer None c wfR absR}.

Abbreviation fm := (NewGenericFactoredMap kd (λ a w, (ctor a, w)) inner outer None None).

#[local] Instance inner_reads : GoMapOk inner wfI absI := mm_map_ok (MutableMapOk:=HI).

Lemma outer_Get a w : wfR (cget c w) → map_Get outer a w = absR (cget c w) !! a.
Proof. intros Hw. by apply (map_Get_ok (abs:=λ w, absR (cget c w))). Qed.

Lemma outer_IsEmpty w : wfR (cget c w) → map_IsEmpty outer w = bool_decide (absR (cget c w) = ∅).
Proof.
  intros Hw. etrans; [by apply (map_IsEmpty_ok (abs:=λ w, absR (cget c w)))|].
  apply bool_decide_ext, dom_empty_iff_L.
Qed.

Lemma inner_Put b v i : wfI i → wfI (mr_Put inner b v i) ∧ absI (mr_Put inner b v i) = <[b:=v]> (absI i).
Proof.
  intros Hi. by destruct (mm_put_ok b v i Hi) as (r & i' & -> & [<- _] & ? & ?).
Qed.

Lemma inner_Delete b i : wfI i → wfI (mr_Delete inner b i) ∧ absI (mr_Delete inner b i) = delete b (absI i).
Proof.
  intros Hi. by destruct (mm_delete_ok b i Hi) as (r & i' & -> & [<- _] & ? & ?).
Qed.

(** No first part is kept with an empty inner map. *)
Definition factored_wf (r : R) : Prop :=
  wfR r ∧ ∀ a i, absR r !! a = Some i → wfI i ∧ absI i ≠ ∅.

Definition factored_abs (r : R) : gmap Whole V := flatten kd absI (absR r).

Lemma factored_abs_empty r : factored_wf r → factored_abs r = ∅ ↔ absR r = ∅.
Proof.
  intros [_ Hi]. split; [|intros He; unfold factored_abs; rw He; apply flatten_empty].
  intros He. apply map_empty. intros a. destruct (absR r !! a) as [i|] eqn:Ha; [|done].
  destruct (Hi a i Ha) as [_ Hne]. apply map_choose in Hne as (b & v & Hb).
  assert (factored_abs r !! rotSecond kd (a, b) = Some v) as Hc.
  { unfold factored_abs. by rw lookup_flatten rot_first_second /= Ha. }
  by rw He lookup_empty in Hc.
Qed.

Lemma factored_reads :
  GoMapOk fm (λ w, factored_wf (cget c w)) (λ w, factored_abs (cget c w)).
Proof.
  assert (∀ w, factored_wf (cget c w) →
    genericFactoredMap_Visit kd inner outer w ≡ₚ flat_list kd absI (map_to_list (absR (cget c w))))
    as Hvisit.
  { intros w [Hw Hi]. unfold genericFactoredMap_Visit, flat_list.
    pose proof (map_Visit_ok (m:=outer) w Hw) as Hv. rw Hv. clear Hv.
    assert (∀ p, p ∈ map_to_list (absR (cget c w)) → wfI p.2) as Hp.
    { intros [a i] Hin. apply elem_of_map_to_list in Hin. by apply (Hi a i). }
    revert Hp. generalize (map_to_list (absR (cget c w))). intros l Hp.
    induction l as [|p l IH]; [done|]. rw !bind_cons. f_equiv.
    - apply fmap_Permutation. apply (map_Visit_ok p.2). apply (Hp p). set_solver.
    - apply IH. set_solver. }
  split; simpl.
  - intros w Hw. unfold genericFactoredMap_IsEmpty.
    rw (outer_IsEmpty w (proj1 Hw)). apply bool_decide_ext.
    rw dom_empty_iff_L. symmetry. by apply factored_abs_empty.
  - intros w Hw. rw -length_map_to_list. unfold factored_abs. rw map_to_list_flatten -(Hvisit w Hw).
    unfold genericFactoredMap_Len, genericFactoredMap_Visit.
    assert (∀ p, p ∈ map_Visit outer w → wfI p.2) as Hp.
    { intros [a i] Hin. apply (elem_of_map_Visit outer _ _ w a i (proj1 Hw)) in Hin.
      by apply (proj2 Hw a i). }
    revert Hp. generalize (map_Visit outer w). intros l Hp.
    enough (∀ n, for_each l (λ p ans, ans + map_Len inner p.2) n
      = n + length (l ≫= λ p, (λ q, (rotSecond kd (p.1, q.1), q.2)) <$> map_Visit inner p.2)) as Hl
      by apply Hl.
    induction l as [|p l IH]; intros n; [by rw Nat.add_0_r|].
    assert (wfI p.2) as Hip by (apply Hp; set_solver).
    rw for_each_cons IH; [|set_solver]. rw bind_cons length_app length_fmap.
    rw (map_Len_ok p.2 Hip) (map_Visit_ok p.2 Hip) length_map_to_list. lia.
  - intros k w Hw. unfold genericFactoredMap_Get. rw (outer_Get _ w (proj1 Hw)).
    unfold factored_abs. rw lookup_flatten.
    destruct (absR (cget c w) !! (rotFirst kd k).1) as [i|] eqn:Ha; [|done]. simpl.
    apply (map_Get_ok (m:=inner)). by apply (proj2 Hw _ i Ha).
  - intros w Hw. unfold factored_abs. by rw map_to_list_flatten Hvisit.
Qed.

Lemma factored_put_ok k v w :
  factored_wf (cget c w) → ∃ r w',
  mr_Put fm k v w = w' ∧ Updated c r w w' ∧ factored_wf r ∧
  factored_abs r = <[k:=v]> (factored_abs (cget c w)).
Proof.
  intros Hw. simpl. unfold genericFactoredMap_Put, unified_Create, outer_Put. cbn [orb].
  rw (outer_Get _ w (proj1 Hw)).
  assert (∀ i r, wfI i → wfR r →
    (∀ b, absI i !! b = absR (cget c w) !! (rotFirst kd k).1 ≫= λ i, absI i !! b) →
    absR r = <[(rotFirst kd k).1:=mr_Put inner (rotFirst kd k).2 v i]> (absR (cget c w)) →
    factored_wf r ∧ factored_abs r = <[k:=v]> (factored_abs (cget c w))) as Hfin.
  { intros i r Hwi Hwr Hi Hr. destruct (inner_Put (rotFirst kd k).2 v i Hwi) as [Hwi' Hi'].
    split.
    - split; [done|]. intros a i0. rw Hr.
      destruct (decide (a = (rotFirst kd k).1)) as [->|Hne].
      + rw lookup_insert_eq. intros [= <-]. split; [done|]. rw Hi'. apply insert_non_empty.
      + rw lookup_insert_ne //. apply (proj2 Hw).
    - unfold factored_abs. rw Hr. by apply (flatten_insert kd absI _ k v i). }
  destruct (absR (cget c w) !! (rotFirst kd k).1) as [i|] eqn:Ha.
  - destruct (mm_mutate_ok (rotFirst kd k).1 (mr_Put inner (rotFirst kd k).2 v i) w (proj1 Hw))
      as (r & Hu & Hwr & Hr); [by rw Ha|].
    exists r. eexists. split; [done|]. split; [done|]. apply (Hfin i); [|done..].
    by apply (proj2 Hw _ i Ha).
  - destruct (mm_put_ok (rotFirst kd k).1 (mr_Put inner (rotFirst kd k).2 v (ctor (rotFirst kd k).1))
      w (proj1 Hw)) as (r & w' & Heq & Hu & Hwr & Hr).
    destruct (Hctor (rotFirst kd k).1) as [Hwc Hc].
    exists r, w'. split; [done|]. split; [done|]. apply (Hfin (ctor (rotFirst kd k).1)); [done..| |done].
    intros b. by rw Hc lookup_empty.
Qed.

Lemma factored_delete_ok k w :
  factored_wf (cget c w) → ∃ r w',
  mr_Delete fm k w = w' ∧ Updated c r w w' ∧ factored_wf r ∧
  factored_abs r = delete k (factored_abs (cget c w)).
Proof.
  intros Hw. simpl. unfold genericFactoredMap_Delete, unified_DeleteWithFinal, outer_Put, outer_Delete.
  rw (outer_Get _ w (proj1 Hw)).
  assert (factored_abs (cget c w) !! k = None → ∃ r w',
    w = w' ∧ Updated c r w w' ∧ factored_wf r ∧
    factored_abs r = delete k (factored_abs (cget c w))) as Hnone.
  { intros Hn. exists (cget c w), w. split_and!; [done|apply Updated_refl|apply Hw..|by rw delete_id]. }
  destruct (absR (cget c w) !! (rotFirst kd k).1) as [i|] eqn:Ha; last first.
  { apply Hnone. unfold factored_abs. by rw lookup_flatten Ha. }
  destruct (proj2 Hw _ i Ha) as [Hwi Hine]. rw (map_Get_ok (m:=inner) _ i Hwi).
  destruct (absI i !! (rotFirst kd k).2) as [old|] eqn:Hb; last first.
  { apply Hnone. unfold factored_abs. by rw lookup_flatten Ha /= Hb. }
  destruct (inner_Delete (rotFirst kd k).2 i Hwi) as [Hwi' Hi'].
  set (i' := mr_Delete inner (rotFirst kd k).2 i) in *.
  destruct (mm_mutate_ok (rotFirst kd k).1 i' w (proj1 Hw)) as (r1 & Hu1 & Hwr1 & Hr1); [by rw Ha|].
  set (w1 := mm_Mutate outer (rotFirst kd k).1 i' w) in *.
  assert (cget c w1 = r1) as Hc1 by apply Hu1.
  cbv zeta. rw (map_IsEmpty_ok (m:=inner) i' Hwi'). case_bool_decide as He.
  - apply dom_empty_iff_L in He.
    destruct (mm_delete_ok (rotFirst kd k).1 w1) as (r2 & w2 & -> & Hu2 & Hwr2 & Hr2); [by rw Hc1|].
    rw Hc1 Hr1 delete_insert_eq in Hr2. exists r2, w2. split_and!; [done|by eapply Updated_trans|..].
    + split; [done|]. intros a i0. rw Hr2. intros [? Hl]%lookup_delete_Some. by apply (proj2 Hw a).
    + unfold factored_abs. apply (flatten_delete kd absI _ k i i' _ Ha Hi'). by right.
  - rw dom_empty_iff_L in He. exists r1, w1. split_and!; [done|done|..].
    + split; [done|]. intros a i0. rw Hr1. destruct (decide (a = (rotFirst kd k).1)) as [->|Hne].
      * rw lookup_insert_eq. by intros [= <-].
      * rw lookup_insert_ne //. apply (proj2 Hw).
    + unfold factored_abs. apply (flatten_delete kd absI _ k i i' _ Ha Hi'). by left.
Qed.

#[export] Instance genericFactoredMap_ok : MutableMapOk fm None c factored_wf factored_abs.
Proof.
  split; [apply factored_reads|apply factored_put_ok|apply factored_delete_ok|].
  intros k v w Hw Hk. simpl. unfold factored_abs in Hk. rw lookup_flatten in Hk.
  rw (outer_Get _ w (proj1 Hw)).
  destruct (absR (cget c w) !! (rotFirst kd k).1) as [i|] eqn:Ha; [|by destruct Hk]. simpl in Hk.
  destruct (proj2 Hw _ i Ha) as [Hwi Hine].
  destruct (mm_mutate_ok (rotFirst kd k).2 v i Hwi Hk) as (i' & [Hi _] & Hwi' & Hi').
  cbn in Hi. set (i2 := mm_Mutate inner _ v i) in *. assert (i2 = i') as -> by done.
  destruct (mm_mutate_ok (rotFirst kd k).1 i' w (proj1 Hw)) as (r & Hu & Hwr & Hr); [by rw Ha|].
  exists r. split; [done|]. split.
  - split; [done|]. intros a i0. rw Hr. destruct (decide (a = (rotFirst kd k).1)) as [->|Hne].
    + rw lookup_insert_eq. intros [= <-]. split; [done|]. rw Hi'. apply insert_non_empty.
    + rw lookup_insert_ne //. apply (proj2 Hw).
  - unfold factored_abs. rw Hr. apply (flatten_insert kd absI _ k v i); [|done]. intros b. by rw Ha.
Qed.
End factored_facts.

#[export] Instance NewSingleIndexedMapMap2_ok `{MapRange} {W A B V} `{Countable A, Countable B}
  (c : Cell W (gmap A (gmap B V))) `{!CellOk c} :
  MutableMapOk (NewSingleIndexedMapMap2 c) None c
    (factored_wf (λ _, True) id (λ _, True) id) (factored_abs PairFactorer id id).
Proof. unfold NewSingleIndexedMapMap2. apply genericFactoredMap_ok; try apply _. done. Qed.

#[export] Instance NewSingleIndexedMapMap3_ok `{MapRange} {W A B C V}
  `{Countable A, Countable B, Countable C}
  (c : Cell W (gmap A (gmap B (gmap C V)))) `{!CellOk c} :
  MutableMapOk (NewSingleIndexedMapMap3 c) None c
    (factored_wf (factored_wf (λ _, True) id (λ _, True) id) (factored_abs PairFactorer id id)
       (λ _, True) id)
    (factored_abs TripleFactorerTo1and23 (factored_abs PairFactorer id id) id).
Proof.
  unfold NewSingleIndexedMapMap3. apply genericFactoredMap_ok; try apply _.
  intros a. split; [|done]. split; [done|]. intros ??. by rw lookup_empty.
Qed.

(** * With observers *)

Section observed_factored_map.
Context `{MapRange} {W Whole A B V : Type} `{Countable Whole, Countable A, Countable B}.
Context (kd : Factorer Whole A B) `{!RotatorOk kd}.
Context (c : Cell W (gmap A (gmap B V))) `{!CellOk c}.
Context (uo : option (MapChangeReceiver W Whole V)) (ko : option (SetChangeReceiver W A))
  (oo : option (MappingReceiver W A (gmap B V))).

(** [T u o k w]: in [w] the unified observer knows the map [u], the outer
    observer the map of maps [o] and the key set observer the set [k]; an absent
    observer knows anything. *)
Context (T : gmap Whole V → gmap A (gmap B V) → gset A → W → Prop).

Definition unified_observes : Prop :=
  match uo with
  | None => ∀ u u' o k w, T u o k w → T u' o k w
  | Some r => QuietMCR r (cget c) ∧
      (∀ x v u o k w, u !! x = None → T u o k w → T (<[x:=v]> u) o k (mcr_Create r x v w)) ∧
      (∀ x v v' u o k w, u !! x = Some v → T u o k w →
         T (<[x:=v']> u) o k (mcr_Update r x v v' w)) ∧
      (∀ x v u o k w, u !! x = Some v → T u o k w →
         T (delete x u) o k (mcr_DeleteWithFinal r x v w))
  end.

Definition keyset_observes : Prop :=
  match ko with
  | None => ∀ u o k k' w, T u o k w → T u o k' w
  | Some f => (∀ add a w, cget c (f add a w) = cget c w) ∧
      (∀ a u o k w, a ∉ k → T u o k w → T u o ({[a]} ∪ k) (f true a w)) ∧
      (∀ a u o k w, a ∈ k → T u o k w → T u o (k ∖ {[a]}) (f false a w))
  end.

Definition outer_observes : Prop :=
  match oo with
  | None => ∀ u o o' k w, T u o k w → T u o' k w
  | Some r => QuietMR r (cget c) ∧
      (∀ a i u o k w, T u o k w → T u (<[a:=i]> o) k (mr_Put r a i w)) ∧
      (∀ a u o k w, T u o k w → T u (delete a o) k (mr_Delete r a w))
  end.

Context (HTc : ∀ u o k s w, T u o k w → T u o k (cset c s w)).
Context (Hu : unified_observes) (Hk : keyset_observes) (Ho : outer_observes).

(** The factored map holds [m] and all its observers know it. *)
Definition factored_in_step (m : gmap Whole V) (w : W) : Prop :=
  (∀ a i, cget c w !! a = Some i → i ≠ ∅) ∧ flatten kd id (cget c w) = m ∧
  T m (cget c w) (dom (cget c w)) w.

Lemma unified_Create_step x v u o k w :
  u !! x = None → T u o k w →
  T (<[x:=v]> u) o k (unified_Create uo x v w) ∧ cget c (unified_Create uo x v w) = cget c w.
Proof.
  intros Hx HT. revert Hu. unfold unified_observes, unified_Create. destruct uo as [r|].
  - intros (Hq & Hcr & _). split; [by apply Hcr|apply quiet_create].
  - intros Hu'. split; [by apply (Hu' u)|done].
Qed.

Lemma unified_Update_step x v v' u o k w :
  u !! x = Some v → T u o k w →
  T (<[x:=v']> u) o k (unified_Update uo x v v' w) ∧
  cget c (unified_Update uo x v v' w) = cget c w.
Proof.
  intros Hx HT. revert Hu. unfold unified_observes, unified_Update. destruct uo as [r|].
  - intros (Hq & _ & Hup & _). split; [by apply Hup|apply quiet_update].
  - intros Hu'. split; [by apply (Hu' u)|done].
Qed.

Lemma unified_Delete_step x v u o k w :
  u !! x = Some v → T u o k w →
  T (delete x u) o k (unified_DeleteWithFinal uo x v w) ∧
  cget c (unified_DeleteWithFinal uo x v w) = cget c w.
Proof.
  intros Hx HT. revert Hu. unfold unified_observes, unified_DeleteWithFinal. destruct uo as [r|].
  - intros (Hq & _ & _ & Hd). split; [by apply Hd|apply quiet_final].
  - intros Hu'. split; [by apply (Hu' u)|done].
Qed.

Lemma outer_Put_step a i u o k w :
  T u o k w →
  T u (<[a:=i]> o) k (outer_Put oo a i w) ∧ cget c (outer_Put oo a i w) = cget c w.
Proof.
  intros HT. revert Ho. unfold outer_observes, outer_Put. destruct oo as [r|].
  - intros (Hq & Hp & _). split; [by apply Hp|apply quiet_put].
  - intros Ho'. split; [by apply (Ho' u o)|done].
Qed.

Lemma outer_Delete_step a u o k w :
  T u o k w →
  T u (delete a o) k (outer_Delete oo a w) ∧ cget c (outer_Delete oo a w) = cget c w.
Proof.
  intros HT. revert Ho. unfold outer_observes, outer_Delete. destruct oo as [r|].
  - intros (Hq & _ & Hd). split; [by apply Hd|apply quiet_delete].
  - intros Ho'. split; [by apply (Ho' u o)|done].
Qed.

Abbreviation outer := (MapMap_AsMutableMap (Some (outerMapObserver ko)) c).
Abbreviation inner := (MapMap_AsMutableMap None id_cell : MutableMap (gmap B V) B V).

Lemma outer_map_Put_step a i u o w :
  cget c w !! a = None → T u o (dom (cget c w)) w →
  let w' := mr_Put outer a i w in
  T u o (dom (cget c w')) w' ∧ cget c w' = <[a:=i]> (cget c w).
Proof.
  intros Ha HT. simpl. unfold MapMap_Put. rw Ha. simpl. revert Hk. unfold keyset_observes.
  destruct ko as [f|].
  - intros (Hq & Hadd & _). rw Hq cget_cset dom_insert_L. split; [|done].
    apply Hadd; [by apply not_elem_of_dom|]. by apply HTc.
  - intros Hk'. rw cget_cset. split; [|done]. eapply Hk'. by apply HTc.
Qed.

Lemma outer_map_Delete_step a u o w :
  is_Some (cget c w !! a) → T u o (dom (cget c w)) w →
  let w' := mr_Delete outer a w in
  T u o (dom (cget c w')) w' ∧ cget c w' = delete a (cget c w).
Proof.
  intros [i Ha] HT. simpl. unfold MapMap_Delete. rw Ha. simpl. revert Hk. unfold keyset_observes.
  destruct ko as [f|].
  - intros (Hq & _ & Hrm). rw Hq cget_cset dom_delete_L. split; [|done].
    apply Hrm; [by apply elem_of_dom_2 in Ha|]. by apply HTc.
  - intros Hk'. rw cget_cset. split; [|done]. eapply Hk'. by apply HTc.
Qed.

Lemma unobserved o u u' k w :
  uo = None → oo = None → ∀ o', T u o k w → T u' o' k w.
Proof.
  intros Huo Hoo o' HT. revert Hu Ho. unfold unified_observes, outer_observes. rw Huo Hoo.
  intros Hu' Ho'. apply (Hu' u). by apply (Ho' u o).
Qed.

Lemma factored_put_step k v m w :
  factored_in_step m w →
  factored_in_step (<[k:=v]> m) (mr_Put (NewFactoredMapMap kd uo ko oo c) k v w).
Proof.
  intros (Hne & Hflat & HT).
  change (mr_Put (NewFactoredMapMap kd uo ko oo c) k v w)
    with (genericFactoredMap_Put kd (λ _ w, (∅, w)) inner outer uo oo k v w).
  unfold genericFactoredMap_Put. set (a := (rotFirst kd k).1). set (b := (rotFirst kd k).2).
  cbv zeta. change (map_Get outer a w) with (cget c w !! a).
  assert (∀ i, map_Get inner b i = i !! b) as HG by done.
  assert (∀ i, mr_Put inner b v i = <[b:=v]> i) as HP by done.
  assert (m !! k = cget c w !! a ≫= (.!! b)) as Hmk by by rw -Hflat lookup_flatten.
  destruct (cget c w !! a) as [i|] eqn:Ha; simpl in Hmk.
  - assert (∀ w', cget c w' = <[a:=<[b:=v]> i]> (cget c w) →
      T (<[k:=v]> m) (<[a:=<[b:=v]> i]> (cget c w)) (dom (cget c w)) w' →
      factored_in_step (<[k:=v]> m) w') as Hfin.
    { intros w' Hc' HT'. split_and!.
      - intros a' i'. rw Hc'. destruct (decide (a' = a)) as [->|Hne'].
        + rw lookup_insert_eq. intros [= <-]. apply insert_non_empty.
        + rw lookup_insert_ne //. apply Hne.
      - rw Hc' -Hflat. apply (flatten_insert kd id (cget c w) k v i); [|done].
        intros b'. fold a. by rw Ha.
      - rw Hc' dom_insert_lookup_L //. }
    rw !HG !HP. set (w1 := mm_Mutate outer a (<[b:=v]> i) w).
    assert (T m (cget c w) (dom (cget c w)) w1) as HT1 by by apply HTc.
    assert (cget c w1 = <[a:=<[b:=v]> i]> (cget c w)) as Hc1 by apply cget_cset.
    destruct (_ || _) eqn:Hob.
    + destruct (i !! b) as [old|] eqn:Hb.
      * destruct (unified_Update_step k old v m (cget c w) (dom (cget c w)) w1) as [HT2 Hc2];
          [by rw Hmk|done|].
        destruct (outer_Put_step a (<[b:=v]> i) _ _ _ _ HT2) as [HT3 Hc3].
        apply Hfin; [|done]. by rw Hc3 Hc2.
      * destruct (unified_Create_step k v m (cget c w) (dom (cget c w)) w1) as [HT2 Hc2];
          [by rw Hmk|done|].
        destruct (outer_Put_step a (<[b:=v]> i) _ _ _ _ HT2) as [HT3 Hc3].
        apply Hfin; [|done]. by rw Hc3 Hc2.
    + apply Hfin; [done|]. destruct uo eqn:Huo, oo eqn:Hoo; try done.
      by eapply unobserved.
  - set (i := <[b:=v]> (∅ : gmap B V)).
    destruct (outer_map_Put_step a i m (cget c w) w Ha HT) as [HT1 Hc1].
    rw !HP. fold i. set (w1 := mr_Put outer a i w) in *.
    destruct (unified_Create_step k v m (cget c w) (dom (cget c w1)) w1) as [HT2 Hc2]; [done..|].
    destruct (outer_Put_step a i _ _ _ _ HT2) as [HT3 Hc3].
    rw -Hc1 in HT3. rw Hc2 in Hc3. split_and!.
    + intros a' i'. rw Hc3 Hc1. destruct (decide (a' = a)) as [->|Hne'].
      * rw lookup_insert_eq. intros [= <-]. apply insert_non_empty.
      * rw lookup_insert_ne //. apply Hne.
    + rw Hc3 Hc1 -Hflat. apply (flatten_insert kd id (cget c w) k v ∅); [|done].
      intros b'. fold a. by rw Ha.
    + by rw Hc3.
Qed.

Lemma factored_delete_step k m w :
  factored_in_step m w →
  factored_in_step (delete k m) (mr_Delete (NewFactoredMapMap kd uo ko oo c) k w).
Proof.
  intros (Hne & Hflat & HT).
  change (mr_Delete (NewFactoredMapMap kd uo ko oo c) k w)
    with (genericFactoredMap_Delete kd inner outer uo oo k w).
  unfold genericFactoredMap_Delete. set (a := (rotFirst kd k).1). set (b := (rotFirst kd k).2).
  cbv zeta. change (map_Get outer a w) with (cget c w !! a).
  assert (m !! k = cget c w !! a ≫= (.!! b)) as Hmk by by rw -Hflat lookup_flatten.
  destruct (cget c w !! a) as [i|] eqn:Ha; simpl in Hmk; [|by rw delete_id].
  change (map_Get inner b i) with (i !! b).
  destruct (i !! b) as [old|] eqn:Hb; rw ?Hb in Hmk; [|by rw delete_id].
  assert (mr_Delete inner b i = delete b i) as ->.
  { simpl. unfold MapMap_Delete. cbn. by rw Hb. }
  set (w1 := mm_Mutate outer a (delete b i) w).
  assert (T m (cget c w) (dom (cget c w)) w1) as HT1 by by apply HTc.
  assert (cget c w1 = <[a:=delete b i]> (cget c w)) as Hc1 by apply cget_cset.
  assert (∀ o' w2, (o' = <[a:=delete b i]> (cget c w) ∧ delete b i ≠ ∅ ∨
                    o' = delete a (cget c w) ∧ delete b i = ∅) →
    cget c w2 = o' → T m o' (dom o') w2 →
    factored_in_step (delete k m) (unified_DeleteWithFinal uo k old w2)) as Hfin.
  { intros o' w2 Ho' Hc2 HT2.
    destruct (unified_Delete_step k old m o' (dom o') w2 Hmk HT2) as [HT3 Hc3].
    rw Hc2 in Hc3. split_and!; [|..|by rw Hc3].
    - intros a' i'. rw Hc3. destruct Ho' as [[-> Hn]|[-> Hn]].
      + destruct (decide (a' = a)) as [->|Hne']; [rw lookup_insert_eq; by intros [= <-]|].
        rw lookup_insert_ne //. apply Hne.
      + intros [_ Hl]%lookup_delete_Some. by apply (Hne a').
    - rw Hc3 -Hflat. apply (flatten_delete kd id (cget c w) k i (delete b i) o' Ha eq_refl).
      naive_solver. }
  change (map_IsEmpty inner (delete b i)) with (size (delete b i) =? 0).
  destruct (Nat.eqb_spec (size (delete b i)) 0) as [He|He].
  - apply map_size_empty_inv in He.
    destruct (outer_map_Delete_step a m (cget c w) w1) as [HT2 Hc2].
    { rw Hc1 lookup_insert_eq. by eexists. }
    { rw Hc1 dom_insert_lookup_L //. }
    rw Hc1 delete_insert_eq in Hc2.
    destruct (outer_Delete_step a _ _ _ _ HT2) as [HT3 Hc3].
    apply (Hfin (delete a (cget c w))); [by right|by rw Hc3|]. by rw -{2}Hc2.
  - assert (delete b i ≠ ∅) as Hn by (intros Hn; by rw Hn map_size_empty in He).
    destruct (outer_Put_step a (delete b i) _ _ _ _ HT1) as [HT3 Hc3].
    apply (Hfin (<[a:=delete b i]> (cget c w))); [by left|by rw Hc3|].
    rw dom_insert_lookup_L //.
Qed.

#[export] Instance factored_map_sim :
  MappingReceiverSim (NewFactoredMapMap kd uo ko oo c) factored_in_step.
Proof. split; [apply factored_put_step|apply factored_delete_step]. Qed.
End observed_factored_map.

(** * Grouping *)

Section grouping.
Context {Whole A B V : Type} `{Countable Whole, Countable A, Countable B}.
Context (kd : Factorer Whole A B) `{!RotatorOk kd}.

(** The entries of [m] whose key has the first part [a], by second part. *)
Definition group (m : gmap Whole V) (a : A) : gmap B V :=
  list_to_map (omap (λ p, let k := rotFirst kd p.1 in
                          if decide (k.1 = a) then Some (k.2, p.2) else None) (map_to_list m)).

Lemma elem_of_group_list (m : gmap Whole V) a b v :
  (b, v) ∈ omap (λ p, let k := rotFirst kd p.1 in
                      if decide (k.1 = a) then Some (k.2, p.2) else None) (map_to_list m)
  ↔ m !! rotSecond kd (a, b) = Some v.
Proof.
  rw list_elem_of_omap. split.
  - intros ([k v'] & Hin & Hk). cbn in Hk. destruct (decide ((rotFirst kd k).1 = a)) as [Ha|]; [|done].
    injection Hk as <- <-. apply elem_of_map_to_list in Hin.
    rw -Ha -surjective_pairing rot_second_first //.
  - intros Hk. exists (rotSecond kd (a, b), v). split; [by apply elem_of_map_to_list|].
    cbn. rw rot_first_second /=. by destruct (decide (a = a)).
Qed.

Lemma lookup_group (m : gmap Whole V) a b : group m a !! b = m !! rotSecond kd (a, b).
Proof.
  apply option_eq. intros v. unfold group. rw -elem_of_list_to_map'.
  - apply elem_of_group_list.
  - intros v' Hv'. rw !elem_of_group_list in Hv' |- *. congruence.
Qed.

Lemma group_flatten (o : gmap A (gmap B V)) a :
  (∀ a i, o !! a = Some i → i ≠ ∅) →
  o !! a = if decide (group (flatten kd id o) a = ∅) then None
           else Some (group (flatten kd id o) a).
Proof.
  intros Hne. assert (group (flatten kd id o) a = default ∅ (o !! a)) as ->.
  { apply map_eq. intros b. rw lookup_group lookup_flatten rot_first_second. simpl.
    by destruct (o !! a). }
  destruct (o !! a) as [i|] eqn:Ha; simpl; [|done].
  specialize (Hne a i Ha). by destruct (decide (i = ∅)).
Qed.
End grouping.

Section aggregator.
Context `{MapRange} {W Whole A B V Agg : Type} `{Countable Whole, Countable A, Countable B}.
Context (kd : Factorer Whole A B) `{!RotatorOk kd} (aggregate : A → gmap B V → Agg).
Context (c : Cell W (gmap A (gmap B V))) `{!CellOk c}.
Context (ao : MappingReceiver W A Agg) (T : gmap A Agg → W → Prop).
Context `{Hao : !MappingReceiverSim ao T} `{Hq : !QuietMR ao (cget c)}.
Context (HTc : ∀ g s w, T g w → T g (cset c s w)).

Definition aggregates (o : gmap A (gmap B V)) : gmap A Agg :=
  map_imap (λ a i, Some (aggregate a i)) o.

Lemma aggregates_insert a i o : aggregates (<[a:=i]> o) = <[a:=aggregate a i]> (aggregates o).
Proof. unfold aggregates. by rw (map_imap_insert_Some _ _ _ _ (aggregate a i)). Qed.

Lemma aggregates_delete a o : aggregates (delete a o) = delete a (aggregates o).
Proof. unfold aggregates. by rw map_imap_delete. Qed.

(** The aggregator and what its observer knows. *)
Definition aggregator_in_step : gmap Whole V → W → Prop :=
  factored_in_step kd c (λ _ o _ w, T (aggregates o) w).

#[export] Instance aggregator_sim :
  MappingReceiverSim (NewFactoredMapMapAggregator kd None None aggregate ao c) aggregator_in_step.
Proof.
  apply factored_map_sim; try apply _.
  - intros. by apply HTc.
  - by intros u u' o k w.
  - by intros u o k k' w.
  - split_and!.
    + split; intros; simpl; [apply quiet_put|apply quiet_delete].
    + intros a i u o k w HT. simpl. rw aggregates_insert. by apply sim_put.
    + intros a u o k w HT. simpl. rw aggregates_delete. by apply sim_delete.
Qed.

Lemma aggregator_quiet {X} (f : W → X) `{!QuietMR ao f, Hind : !Indep c f} :
  QuietMR (NewFactoredMapMapAggregator kd None None aggregate ao c) f.
Proof.
  split.
  - intros k v w. simpl. unfold genericFactoredMap_Put. simpl.
    unfold unified_Create, unified_Update, outer_Put, MapMap_Get.
    destruct (cget c w !! (rotFirst kd k).1) as [i|] eqn:Ha; cbn.
    + destruct (i !! (rotFirst kd k).2); cbn; rw quiet_put; apply Hind.
    + rw quiet_put. apply Hind.
  - intros k w. simpl. unfold genericFactoredMap_Delete. simpl.
    unfold unified_DeleteWithFinal, outer_Put, outer_Delete, MapMap_Get.
    destruct (cget c w !! (rotFirst kd k).1) as [i|] eqn:Ha; [|done]. cbn.
    destruct (i !! (rotFirst kd k).2) as [v|] eqn:Hb; [|done].
    destruct (MapMap_IsEmpty id_cell _); cbn.
    + rw quiet_delete. unfold MapMap_Delete. rw cget_cset lookup_insert_eq !Hind //.
    + rw quiet_put. apply Hind.
Qed.
End aggregator.

(** C31: a map made by [NewFactoredMapMapAggregator] maintains a GROUP BY: after
    any sequence of [Put] and [Delete] calls the map has the contents those calls
    call for, and the aggregation observer has, for exactly the first key parts
    that occur, the aggregation of the entries with that first part. *)
Theorem FactoredMapAggregator_groups `{MapRange} {W Whole A B V Agg}
  `{Countable Whole, Countable A, Countable B} (kd : Factorer Whole A B) `{!RotatorOk kd}
  (aggregate : A → gmap B V → Agg) (c : Cell W (gmap A (gmap B V))) `{!CellOk c}
  (ao : MappingReceiver W A Agg) inv absAgg
  `{!MappingReceiverOk ao inv absAgg, !QuietMR ao (cget c), !Indep c inv, !Indep c absAgg}
  (ops : list (MapOp Whole V)) w :
  cget c w = ∅ → inv w → absAgg w = ∅ →
  let fm := NewFactoredMapMapAggregator kd None None aggregate ao c in
  let w' := for_each ops (run_op fm) w in
  let spec := for_each ops spec_op (∅ : gmap Whole V) in
  (∀ k, map_Get fm k w' = spec !! k) ∧
  ∀ a, absAgg w' !! a = if decide (group kd spec a = ∅) then None
                        else Some (aggregate a (group kd spec a)).
Proof.
  intros Hw Hi Ha. cbv zeta. set (fm := NewFactoredMapMapAggregator kd None None aggregate ao c).
  set (T := λ (g : gmap A Agg) w, inv w ∧ absAgg w = g).
  assert (MappingReceiverSim fm (aggregator_in_step kd aggregate c T)) as Hsim.
  { apply aggregator_sim; try apply _.
    - by apply MappingReceiverOk_sim.
    - intros g s w0 [Hi0 <-]. split; by rw indep. }
  pose proof (run_ops_sim fm _ ops ∅ w) as Hrun.
  destruct Hrun as (Hne & Hflat & Hi' & Hagg).
  { split; [intros a i; by rw Hw lookup_empty|]. split; [by rw Hw flatten_empty|].
    split; [done|by rw Hw Ha]. }
  set (w' := for_each ops (run_op fm) w) in *.
  rw -Hflat. split.
  - intros k. simpl. unfold genericFactoredMap_Get, MapMap_Get. rw lookup_flatten.
    simpl. unfold MapMap_Get. by destruct (cget c w' !! (rotFirst kd k).1).
  - intros a. rw Hagg. unfold aggregates. rw map_lookup_imap (group_flatten kd _ a Hne).
    by destruct (decide _).
Qed.
