(* ===== verification/Receivers.v ===== *)
(** Pipe fittings between receivers: the combinators of set-types.go,
    map-types.go, map-key-set.go and dummies.go that build receivers from
    functions, forward to several receivers, or change what is forwarded.

    Function fields that may be nil are options.  Loggers only have an effect
    outside of the program; [log] stands for it. *)

From S2P Require Import Prelude Tuples Interfaces Slices Sets Maps.

(** * Set writers *)

Section set_writers.
Context {W Elt : Type}.

Definition SetWriterFuncs (OnAdd OnRemove : option (Elt → W → bool * W)) : SetWriter W Elt :=
  MkSetWriter
    (λ elt w, match OnAdd with Some f => f elt w | None => (false, w) end)
    (λ elt w, match OnRemove with Some f => f elt w | None => (false, w) end).

Definition NewSetWriterFuncs (OnAdd OnRemove : Elt → W → bool * W) : SetWriter W Elt :=
  SetWriterFuncs (Some OnAdd) (Some OnRemove).

Definition SetWriterReverse (forward : SetWriter W Elt) : SetWriter W Elt :=
  MkSetWriter (sw_Remove forward) (sw_Add forward).

Definition setChangeReceiverFork_Add (combineWithAnd : bool) (receivers : list (SetWriter W Elt))
  (elt : Elt) (w : W) : bool * W :=
  for_each receivers (λ receiver '(ans, w),
    let '(change, w) := sw_Add receiver elt w in
    (if combineWithAnd then ans && change else ans || change, w)) (combineWithAnd, w).

Definition setChangeReceiverFork_Remove (combineWithAnd : bool)
  (receivers : list (SetWriter W Elt)) (elt : Elt) (w : W) : bool * W :=
  for_each receivers (λ receiver '(ans, w),
    let '(change, w) := sw_Remove receiver elt w in
    (if combineWithAnd then ans && change else ans || change, w)) (combineWithAnd, w).

Definition SetWriterFork (combineWithAnd : bool) (receivers : list (SetWriter W Elt))
  : SetWriter W Elt :=
  MkSetWriter (setChangeReceiverFork_Add combineWithAnd receivers)
    (setChangeReceiverFork_Remove combineWithAnd receivers).

Definition loggingSetWriter (log : string → Elt → W → W) : SetWriter W Elt :=
  MkSetWriter (λ elt w, (true, log "Add" elt w)) (λ elt w, (true, log "Remove" elt w)).
End set_writers.

Definition TransformSetWriter {W Type1 Type2} (transform : Type1 → Type2)
  (inner : SetWriter W Type2) : SetWriter W Type1 :=
  MkSetWriter
    (λ v1 w, let v2 := transform v1 in sw_Add inner v2 w)
    (λ v1 w, let v2 := transform v1 in sw_Remove inner v2 w).

(** * Mapping receivers *)

Section mapping_receivers.
Context {W Key Val : Type}.

(** [MappingReceiverFuncs] is both a [MappingReceiver] and a [MapChangeReceiver]. *)
Definition MappingReceiverFuncs (OnPut : option (Key → Val → W → W))
  (OnDelete : option (Key → W → W)) : MappingReceiver W Key Val :=
  MkMappingReceiver
    (λ key val w, match OnPut with Some f => f key val w | None => w end)
    (λ key w, match OnDelete with Some f => f key w | None => w end).

Definition MappingReceiverFuncs_AsMapChangeReceiver (OnPut : option (Key → Val → W → W))
  (OnDelete : option (Key → W → W)) : MapChangeReceiver W Key Val :=
  MkMapChangeReceiver
    (λ key val w, match OnPut with Some f => f key val w | None => w end)
    (λ key _ newVal w, match OnPut with Some f => f key newVal w | None => w end)
    (λ key _ w, match OnDelete with Some f => f key w | None => w end).

Definition NewMappingReceiverFuncs (put : Key → Val → W → W) (delete : Key → W → W)
  : MappingReceiver W Key Val :=
  MappingReceiverFuncs (Some put) (Some delete).

Definition MappingReceiverFork (mrf : list (MappingReceiver W Key Val))
  : MappingReceiver W Key Val :=
  MkMappingReceiver
    (λ key val w, for_each mrf (λ mr w, mr_Put mr key val w) w)
    (λ key w, for_each mrf (λ mr w, mr_Delete mr key w) w).

(** [MappingReceiverHolderFork] forwards through pointers to the receivers. *)
Definition MappingReceiverHolderFork (mrf : list (Cell W (MappingReceiver W Key Val)))
  : MappingReceiver W Key Val :=
  MkMappingReceiver
    (λ key val w, for_each mrf (λ holder w, mr_Put (cget holder w) key val w) w)
    (λ key w, for_each mrf (λ holder w, mr_Delete (cget holder w) key w) w).

Definition MappingReceiverFunc (fn : W → MappingReceiver W Key Val) : MappingReceiver W Key Val :=
  MkMappingReceiver
    (λ key val w, let mr := fn w in mr_Put mr key val w)
    (λ key w, let mr := fn w in mr_Delete mr key w).

Definition loggingMappingReceiver (log : string → Key → option Val → W → W)
  : MappingReceiver W Key Val :=
  MkMappingReceiver (λ key val w, log "Put" key (Some val) w) (λ key w, log "Delete" key None w).

(** * Map change receivers *)

Definition MapChangeReceiverFuncs (OnCreate : option (Key → Val → W → W))
  (OnUpdate : option (Key → Val → Val → W → W)) (OnDelete : option (Key → Val → W → W))
  : MapChangeReceiver W Key Val :=
  MkMapChangeReceiver
    (λ key val w, match OnCreate with Some f => f key val w | None => w end)
    (λ key oldVal newVal w, match OnUpdate with Some f => f key oldVal newVal w | None => w end)
    (λ key val w, match OnDelete with Some f => f key val w | None => w end).

Definition MapChangeReceiverFork (mrf : list (MapChangeReceiver W Key Val))
  : MapChangeReceiver W Key Val :=
  MkMapChangeReceiver
    (λ key val w, for_each mrf (λ mr w, mcr_Create mr key val w) w)
    (λ key oldVal newVal w, for_each mrf (λ mr w, mcr_Update mr key oldVal newVal w) w)
    (λ key val w, for_each mrf (λ mr w, mcr_DeleteWithFinal mr key val w) w).

Definition MappingReceiverDiscardsPrevious (mr : MappingReceiver W Key Val)
  : MapChangeReceiver W Key Val :=
  MkMapChangeReceiver
    (λ key val w, mr_Put mr key val w)
    (λ key _ newVal w, mr_Put mr key newVal w)
    (λ key _ w, mr_Delete mr key w).

(** ** Key sets *)

Definition MapKeySetReceiver (ksr : SetWriter W Key) : MapChangeReceiver W Key Val :=
  MapChangeReceiverFuncs
    (Some (λ key _ w, (sw_Add ksr key w).2)) None (Some (λ key _ w, (sw_Remove ksr key w).2)).

Definition MapKeySetReceiverLossy (ksr : SetWriter W Key) : MappingReceiver W Key Val :=
  MappingReceiverFuncs
    (Some (λ key _ w, (sw_Add ksr key w).2)) (Some (λ key w, (sw_Remove ksr key w).2)).

Definition MutableMapWithKeyObserver (mm : MutableMap W Key Val) (observer : SetWriter W Key)
  : MutableMap W Key Val :=
  MkMutableMap mm
    (MkMappingReceiver
       (λ key val w, let w := mr_Put mm key val w in (sw_Add observer key w).2)
       (λ key w, let w := mr_Delete mm key w in (sw_Remove observer key w).2))
    (mm_Mutate mm).
End mapping_receivers.

Definition TransformMappingReceiver {W KeyOriginal KeyTransformed ValOriginal ValTransformed}
  (TransformKey : KeyOriginal → KeyTransformed) (TransformVal : ValOriginal → ValTransformed)
  (Inner : MappingReceiver W KeyTransformed ValTransformed)
  : MappingReceiver W KeyOriginal ValOriginal :=
  MkMappingReceiver
    (λ keyOriginal valOriginal w,
       let keyTransformed := TransformKey keyOriginal in
       let valTransformed := TransformVal valOriginal in
       mr_Put Inner keyTransformed valTransformed w)
    (λ keyOriginal w,
       let keyTransformed := TransformKey keyOriginal in
       mr_Delete Inner keyTransformed w).

(** [TrivialTransactor] *)
Definition TrivialTransactor_Transact {W OpsType} (Ops : OpsType) (xn : OpsType → W → W) (w : W)
  : W :=
  xn Ops w.

(** * Correctness *)

Section fork_facts.
Context {W Elt : Type} `{Countable Elt}.

Lemma fork_loop (combineWithAnd : bool) (op : SetWriter W Elt → W → bool * W) rs (ans : bool) w :
  (for_each rs (λ r '(ans, w), let '(change, w) := op r w in
     (if combineWithAnd then ans && change else ans || change, w)) (ans, w)).2
  = for_each rs (λ r w, (op r w).2) w.
Proof.
  revert ans w. induction rs as [|r rs IH]; intros ans w; [done|].
  rw !for_each_cons. destruct (op r w) as [change w1]. apply IH.
Qed.

(** Receivers that each maintain their own component of a state of sets. *)
Lemma for_each_components (ops : list (W → W)) (T : list (gset Elt) → W → Prop) X Y w :
  (∀ i op Xs w, ops !! i = Some op → Xs !! i = Some X → T Xs w → T (<[i:=Y]> Xs) (op w)) →
  T (replicate (length ops) X) w →
  T (replicate (length ops) Y) (for_each ops (λ op w, op w) w).
Proof.
  intros Hop HT.
  set (I := λ (seen : list (W → W)) (w : W),
    T (replicate (length seen) Y ++ replicate (length ops - length seen) X) w).
  assert (I ops (for_each ops (λ op w, op w) w)) as HI.
  { apply (for_each_ind I); unfold I; [by rw /= Nat.sub_0_r|].
    intros seen op todo w1 Heq HT1. assert (length ops = length seen + S (length todo)) as Hlen
      by (rw Heq length_app /=; lia).
    assert (ops !! length seen = Some op) as Hl by (rw Heq; by apply list_lookup_middle).
    apply (Hop _ _ _ _ Hl) in HT1.
    - rw insert_app_r_alt in HT1; [|by rw length_replicate]. rw length_replicate in HT1.
      rw Nat.sub_diag in HT1. rw length_app /=.
      replace (length ops - length seen) with (S (length ops - (length seen + 1))) in HT1 by lia.
      simpl in HT1. rw replicate_add /=. by rw -app_assoc.
    - rw lookup_app_r; [|by rw length_replicate]. rw length_replicate Nat.sub_diag.
      replace (length ops - length seen) with (S (length todo)) by lia. done. }
  unfold I in HI. rw Nat.sub_diag app_nil_r in HI. done.
Qed.

(** A [SetWriterFork] keeps all its receivers in step: if each receiver
    maintains its own set, without disturbing the sets of the others, then after
    a call of the fork all of them have made the change. *)
Theorem SetWriterFork_broadcasts (combineWithAnd : bool) (rs : list (SetWriter W Elt))
  (T : list (gset Elt) → W → Prop) :
  (∀ i r Xs X e w, rs !! i = Some r → Xs !! i = Some X → T Xs w →
     T (<[i:={[e]} ∪ X]> Xs) (sw_Add r e w).2 ∧ T (<[i:=X ∖ {[e]}]> Xs) (sw_Remove r e w).2) →
  SetWriterSim (SetWriterFork combineWithAnd rs) (λ X w, T (replicate (length rs) X) w).
Proof.
  intros Hrs. split; intros e X w HT; simpl.
  - unfold setChangeReceiverFork_Add. rw (fork_loop combineWithAnd (λ r, sw_Add r e)).
    rw -(for_each_fmap (λ r w, (sw_Add r e w).2) rs (λ op w, op w)).
    rw -(length_fmap (λ r w, (sw_Add r e w).2) rs) in HT |- *.
    apply (for_each_components _ _ X); [|done]. intros i op Xs w1 Hop HX HT1.
    apply list_lookup_fmap_Some in Hop as (r & -> & Hr). by eapply Hrs.
  - unfold setChangeReceiverFork_Remove. rw (fork_loop combineWithAnd (λ r, sw_Remove r e)).
    rw -(for_each_fmap (λ r w, (sw_Remove r e w).2) rs (λ op w, op w)).
    rw -(length_fmap (λ r w, (sw_Remove r e w).2) rs) in HT |- *.
    apply (for_each_components _ _ X); [|done]. intros i op Xs w1 Hop HX HT1.
    apply list_lookup_fmap_Some in Hop as (r & -> & Hr). by eapply Hrs.
Qed.

(** The fork of two receivers, as the set binder uses it. *)
Lemma SetWriterFork2_sim (combineWithAnd : bool) (r1 r2 : SetWriter W Elt)
  (T : gset Elt → gset Elt → W → Prop) :
  (∀ X2, SetWriterSim r1 (λ X1, T X1 X2)) → (∀ X1, SetWriterSim r2 (λ X2, T X1 X2)) →
  SetWriterSim (SetWriterFork combineWithAnd [r1; r2]) (λ X, T X X).
Proof.
  intros H1 H2. split; intros e X w HT; simpl.
  - unfold setChangeReceiverFork_Add. rw (fork_loop combineWithAnd (λ r, sw_Add r e)). cbn.
    apply (sim_add (SetWriterSim:=H2 _)). by apply (sim_add (SetWriterSim:=H1 _)).
  - unfold setChangeReceiverFork_Remove. rw (fork_loop combineWithAnd (λ r, sw_Remove r e)). cbn.
    apply (sim_remove (SetWriterSim:=H2 _)). by apply (sim_remove (SetWriterSim:=H1 _)).
Qed.
End fork_facts.

Section receiver_facts.
Context {W K V : Type} `{Countable K}.

#[export] Instance MappingReceiverDiscardsPrevious_ok (mr : MappingReceiver W K V) inv abs
  `{!MappingReceiverOk mr inv abs} :
  MapChangeReceiverOk (MappingReceiverDiscardsPrevious mr) inv abs.
Proof. split; simpl; intros; [by apply mr_put_ok|by apply mr_put_ok|by apply mr_delete_ok]. Qed.

(** An observer of the keys of a map: from change reports, without redundant calls. *)
Lemma MapKeySetReceiver_sim (ksr : SetWriter W K) (T : gset K → W → Prop) `{!SetWriterSim ksr T}
  (m : gmap K V) k v w :
  T (dom m) w →
  T (dom (<[k:=v]> m)) (mcr_Create (MapKeySetReceiver ksr) k v w) ∧
  (∀ v', is_Some (m !! k) → T (dom (<[k:=v]> m)) (mcr_Update (MapKeySetReceiver ksr) k v' v w)) ∧
  T (dom (delete k m)) (mcr_DeleteWithFinal (MapKeySetReceiver ksr) k v w).
Proof.
  intros HT. split_and!.
  - rw dom_insert_L. by apply sim_add.
  - intros v' Hk. by rw dom_insert_lookup_L.
  - rw dom_delete_L. by apply sim_remove.
Qed.

#[export] Instance TransformMappingReceiver_ok {K' V'} `{Countable K'} (f : K → K') (g : V → V')
  (mr : MappingReceiver W K' V') inv abs `{!MappingReceiverOk mr inv abs} `{!Inj (=) (=) f} :
  MappingReceiverSim (TransformMappingReceiver f g mr)
    (λ m w, inv w ∧ ∀ k, abs w !! f k = g <$> m !! k).
Proof.
  split; simpl.
  - intros k v m w [Hi Ha]. destruct (mr_put_ok (f k) (g v) w Hi) as [? ->]. split; [done|].
    intros k'. destruct (decide (k' = k)) as [->|Hne]; [by rw !lookup_insert_eq|].
    rw !lookup_insert_ne //. naive_solver.
  - intros k m w [Hi Ha]. destruct (mr_delete_ok (f k) w Hi) as [? ->]. split; [done|].
    intros k'. destruct (decide (k' = k)) as [->|Hne]; [by rw !lookup_delete_eq|].
    rw !lookup_delete_ne //. naive_solver.
Qed.
End receiver_facts.
