(* ===== verification/Differencers.v ===== *)
(** Differencers of pkg/placement (map-set-differencer.go, slice-differencer.go):
    receivers of whole collections that pass on the changes from one collection
    to the next. *)

From S2P Require Import Prelude Tuples Interfaces Slices Sets Maps Types.

(** * ResolvedWhere as a set *)

Definition ResolvedWhere_IsEmpty (rw : ResolvedWhere) : bool :=
  match (visit (λ sps s, (if 0 <? length (spsDestinations sps) then Some errStop else None, s))
           rw ()).1 with
  | Some _ => false
  | None => true
  end.

Definition ResolvedWhere_Len (rw : ResolvedWhere) : nat :=
  for_each rw (λ sps ans, ans + length (spsDestinations sps)) 0.

Definition ResolvedWhere_Visit (rw : ResolvedWhere) : list SinglePlacement :=
  rw ≫= λ sps, spsDestinations sps.

Definition ResolvedWhere_Has (rw : ResolvedWhere) (seek : SinglePlacement) : bool :=
  VisitableHas (ResolvedWhere_Visit rw) seek.

Definition ResolvedWhereAsVisitable (rw : ResolvedWhere) : list SinglePlacement :=
  ResolvedWhere_Visit rw.

(** [WorkloadParts] is a Go map, which may be nil ([None]). *)
Definition WorkloadParts : Type := option (gmap WorkloadPartID WorkloadPartDetails).

Definition ResolvedWhatAsVisitable `{MapRange} (rw : WorkloadParts)
  : list (Pair WorkloadPartID WorkloadPartDetails) :=
  map_range (default ∅ rw).

(** * Updating a collection to match another *)

Section update_to_match.
Context `{MapRange} {W : Type}.

Definition SetUpdateToMatch {Elt} `{Countable Elt} (current : MutableSet W Elt)
  (target : list Elt) (eltChangeReceiver : SetWriter W Elt) (w : W) : W :=
  let goners := MapSetCopy (set_Visit current w) in
  let '(goners, w) :=
    for_each target (λ newElt '(goners, w),
      let '(change, w) := sw_Add current newElt w in
      let w := if change : bool then (sw_Add eltChangeReceiver newElt w).2 else w in
      let goners := (MapSet_Remove newElt goners).2 in
      (goners, w)) (goners, w) in
  for_each (MapSet_Visit goners) (λ oldElt w,
    let w := (sw_Remove current oldElt w).2 in
    (sw_Remove eltChangeReceiver oldElt w).2) w.

Definition MapUpdateToMatch {Key Val} `{Countable Key} (current : MutableMap W Key Val)
  (target : list (Pair Key Val)) (w : W) : W :=
  let goners := MapMapCopy None id_cell (map_Visit current w) (∅ : gmap Key Val) in
  let '(goners, w) :=
    for_each target (λ tup '(goners, w),
      let w := mr_Put current tup.1 tup.2 w in
      let goners := MapMap_Delete None id_cell tup.1 goners in
      (goners, w)) (goners, w) in
  for_each (MapMap_Visit id_cell goners) (λ oldTup w, mr_Delete current oldTup.1 w) w.

(** The two differencers: the current collection is kept in the variable [c]. *)
Definition setDifferenceByMapAndEnum_Receive {SetType Elt} `{Countable Elt}
  (visitablize : SetType → list Elt) (eltChangeReceiver : SetWriter W Elt)
  (c : Cell W (MapSet Elt)) : Receiver W SetType :=
  λ nextA w,
    let nextS := visitablize nextA in
    SetUpdateToMatch (MapSet_AsMutableSet c) nextS eltChangeReceiver w.

Definition mapDifferenceByMapAndEnum_Receive {MapType Key Val} `{Countable Key}
  (visitablize : MapType → list (Pair Key Val))
  (mappingChangeReceiver : MapChangeReceiver W Key Val) (c : Cell W (gmap Key Val))
  : Receiver W MapType :=
  λ nextA w,
    let nextS := visitablize nextA in
    MapUpdateToMatch (MapMap_AsMutableMap (Some mappingChangeReceiver) c) nextS w.

Definition NewResolvedWhereDifferencer (eltChangeReceiver : SetWriter W SinglePlacement)
  (c : Cell W (MapSet SinglePlacement)) : Receiver W ResolvedWhere :=
  setDifferenceByMapAndEnum_Receive ResolvedWhereAsVisitable eltChangeReceiver c.

Definition NewWorkloadPartsDifferencer
  (mappingReceiver : MapChangeReceiver W WorkloadPartID WorkloadPartDetails)
  (c : Cell W (gmap WorkloadPartID WorkloadPartDetails)) : Receiver W WorkloadParts :=
  mapDifferenceByMapAndEnum_Receive ResolvedWhatAsVisitable mappingReceiver c.
End update_to_match.

(** * Slices *)

(** [sliceDifferencer]: the current slice is kept in the variable [c]. *)
Definition sliceDifferencer_Receive {W Elt} (isEqual : Elt → Elt → bool)
  (changeReceiver : SetChangeReceiver W Elt) (c : Cell W (list Elt)) : Receiver W (list Elt) :=
  λ newWhole w,
    let w := for_each (cget c w) (λ oldElt w,
               if negb (SliceContainsParametric isEqual newWhole oldElt)
               then changeReceiver false oldElt w else w) w in
    let w := for_each newWhole (λ newElt w,
               if negb (SliceContainsParametric isEqual (cget c w) newElt)
               then changeReceiver true newElt w else w) w in
    cset c newWhole w.

(** [NewSliceDifferencerParametric] stores a copy of the initial slice. *)
Definition NewSliceDifferencerParametric {W Elt} (c : Cell W (list Elt)) (initial : list Elt)
  (w : W) : W :=
  cset c (SliceCopy initial) w.

(** * Correctness *)

Lemma ResolvedWhere_spec (rw : ResolvedWhere) :
  ResolvedWhere_Len rw = length (ResolvedWhere_Visit rw) ∧
  ResolvedWhere_IsEmpty rw = bool_decide (ResolvedWhere_Visit rw = []) ∧
  ∀ sp, ResolvedWhere_Has rw sp = bool_decide (sp ∈ ResolvedWhere_Visit rw).
Proof.
  split_and!.
  - unfold ResolvedWhere_Len, ResolvedWhere_Visit.
    enough (∀ n, for_each rw (λ sps ans, ans + length (spsDestinations sps)) n
      = n + length (rw ≫= λ sps, spsDestinations sps)) as Hgen by apply Hgen.
    induction rw as [|sps rw IH]; intros n; [by rw Nat.add_0_r|].
    rw for_each_cons IH bind_cons length_app. lia.
  - unfold ResolvedWhere_IsEmpty, ResolvedWhere_Visit. rw visit_test.
    induction rw as [|[[|d ds]] rw IH]; [done|..]; simpl; [apply IH|done].
  - intros sp. apply VisitableHas_spec.
Qed.

Section set_differencer_facts.
Context `{MapRange} {W Elt R : Type} `{Countable Elt}.
Context (current : MutableSet W Elt) (c : Cell W R) (wf : R → Prop) (abs : R → gset Elt)
  `{Hcur : !MutableSetOk current c wf abs}.
Context (receiver : SetWriter W Elt) `{Hq : !QuietSW receiver (cget c)}.

(** [T X w]: the receiver has been told of a set [X].  It need only understand
    real changes. *)
Context (T : gset Elt → W → Prop).
Context (HTc : ∀ X r w w', Updated c r w w' → T X w → T X w').
Context (Hadd : ∀ e X w, e ∉ X → T X w → T ({[e]} ∪ X) (sw_Add receiver e w).2).
Context (Hrem : ∀ e X w, e ∈ X → T X w → T (X ∖ {[e]}) (sw_Remove receiver e w).2).

(** The current set and what the receiver knows. *)
Definition set_in_step (X : gset Elt) (w : W) : Prop :=
  wf (cget c w) ∧ abs (cget c w) = X ∧ T X w.

Lemma update_add_step e X w :
  set_in_step X w →
  let '(change, w) := sw_Add current e w in
  set_in_step ({[e]} ∪ X) (if change : bool then (sw_Add receiver e w).2 else w).
Proof.
  intros (Hwf & <- & HT).
  destruct (ms_add_ok e w Hwf) as (r & w1 & -> & Hu & Hwf' & Habs).
  assert (cget c w1 = r) as Hr by apply Hu.
  assert (T (abs (cget c w)) w1) as HT1 by by eapply HTc.
  case_bool_decide as Hin; unfold set_in_step.
  - rw quiet_add Hr. split_and!; [done..|]. by apply Hadd.
  - assert ({[e]} ∪ abs (cget c w) = abs (cget c w)) as Hsame by set_solver.
    by rw Hr Habs Hsame.
Qed.

Lemma update_remove_step e X w :
  e ∈ X → set_in_step X w →
  set_in_step (X ∖ {[e]}) (sw_Remove receiver e (sw_Remove current e w).2).2.
Proof.
  intros Hin (Hwf & <- & HT).
  destruct (ms_remove_ok e w Hwf) as (r & w1 & -> & Hu & Hwf' & Habs). simpl.
  assert (cget c w1 = r) as Hr by apply Hu. unfold set_in_step.
  rw quiet_remove Hr. split_and!; [done..|]. apply Hrem; [done|]. by eapply HTc.
Qed.

(** The receiver is told of real changes only, and ends up with the target. *)
Lemma SetUpdateToMatch_spec target X w :
  set_in_step X w → set_in_step (list_to_set target) (SetUpdateToMatch current target receiver w).
Proof.
  intros Hin. unfold SetUpdateToMatch.
  assert (MapSetCopy (set_Visit current w) = X) as ->.
  { destruct Hin as (Hwf & <- & _). unfold MapSetCopy.
    destruct (SetAddAll_loop (MapSet_AsMutableSet id_cell) id_cell (λ _, True) id
      (set_Visit current w) false true NewEmptyMapSet I) as (r & w' & Heq & [Hr _] & _ & Habs).
    unfold SetAddAll. rw Heq /=. cbn in Hr, Habs. subst w'. rw Habs. unfold NewEmptyMapSet.
    apply set_eq. intros e. rw elem_of_union elem_of_list_to_set.
    rw (elem_of_set_Visit current (λ w, wf (cget c w)) (λ w, abs (cget c w)) w e Hwf). set_solver. }
  set (I := λ (seen : list Elt) (p : MapSet Elt * W),
    p.1 = X ∖ list_to_set seen ∧ set_in_step (list_to_set seen ∪ X) p.2).
  match goal with |- context [for_each target ?f ?s] => set (step := f); set (s0 := s) end.
  assert (I target (for_each target step s0)) as [Hg Hs].
  { apply (for_each_ind I); unfold I.
    - split; [set_solver|]. simpl. by rw (left_id_L ∅ (∪)).
    - intros seen e todo [goners w1] _ [Hg Hs]. simpl in *. unfold step.
      pose proof (update_add_step e _ _ Hs) as Hstep.
      destruct (sw_Add current e w1) as [change w2]. rw MapSet_Remove_spec /=. split.
      + rw Hg list_to_set_app_L /=. set_solver.
      + replace (list_to_set (seen ++ [e]) ∪ X) with ({[e]} ∪ (list_to_set seen ∪ X)) by set_solver.
        done. }
  destruct (for_each target step s0) as [goners w1]. simpl in *. clear I step s0.
  unfold MapSet_Visit. set (l := set_range goners).
  set (I := λ (seen : list Elt) (w : W), set_in_step ((list_to_set target ∪ X) ∖ list_to_set seen) w).
  set (w2 := for_each l _ w1).
  assert (I l w2) as HI.
  { apply (for_each_ind I); unfold I.
    - by replace ((list_to_set target ∪ X) ∖ list_to_set []) with (list_to_set target ∪ X) by set_solver.
    - intros seen e todo w' Heq Hs'.
      replace ((list_to_set target ∪ X) ∖ list_to_set (seen ++ [e]))
        with ((list_to_set target ∪ X) ∖ list_to_set seen ∖ {[e]}) by set_solver.
      apply update_remove_step; [|done].
      assert (e ∈ goners) as He by (apply elem_of_set_range; fold l; rw Heq; set_solver).
      assert (NoDup l) as Hnd by apply NoDup_set_range.
      rw Heq NoDup_app in Hnd. set_solver. }
  unfold I in HI. replace (list_to_set target) with
    ((list_to_set target ∪ X) ∖ list_to_set l : gset Elt); [done|].
  apply set_eq. intros e. rw elem_of_difference elem_of_union.
  rw (elem_of_list_to_set (C:=gset Elt) e l) /l elem_of_set_range Hg. destruct (decide (e ∈ (list_to_set target : gset Elt))); set_solver.
Qed.
End set_differencer_facts.

Section map_differencer_facts.
Context `{MapRange} {W Key Val : Type} `{Countable Key}.
Context (current : MutableMap W Key Val) (S : gmap Key Val → W → Prop).
Context `{Hsim : !MappingReceiverSim current S}.
Context (Hvisit : ∀ m w, S m w → map_Visit current w ≡ₚ map_to_list m).

(** The contents after putting the pairs of a list, in order, in an empty map. *)
Definition puts (l : list (Key * Val)) : gmap Key Val := foldl (λ m p, <[p.1:=p.2]> m) ∅ l.

Lemma lookup_puts_app (l : list (Key * Val)) (m : gmap Key Val) k :
  foldl (λ m p, <[p.1:=p.2]> m) m l !! k = if decide (k ∈ l.*1) then puts l !! k else m !! k.
Proof.
  unfold puts. generalize (∅ : gmap Key Val) as m'. revert m. induction l as [|[k' v'] l IH]; intros m m'; [done|].
  cbn [foldl fst snd]. rw (IH (<[k':=v']> m) m). rw (IH (<[k':=v']> m') m).
  destruct (decide (k ∈ l.*1)) as [Hin|Hn].
  - by rw decide_True; [|set_solver].
  - destruct (decide (k = k')) as [->|Hne].
    + rw decide_True; [|set_solver]. by rw !lookup_insert_eq.
    + rw decide_False; [|set_solver]. by rw !lookup_insert_ne.
Qed.

Lemma puts_NoDup (m : gmap Key Val) : puts (map_range m) = m.
Proof.
  apply map_eq. intros k. unfold puts. destruct (m !! k) as [v|] eqn:Hk.
  - apply lookup_foldl_insert_in; [apply NoDup_map_range_fst|by apply elem_of_map_range].
  - rw lookup_foldl_insert_notin; [apply lookup_empty|].
    intros ([k' v] & -> & Hin)%list_elem_of_fmap. apply elem_of_map_range in Hin. simpl in Hk. congruence.
Qed.

Lemma MapMapCopy_spec (l : list (Key * Val)) :
  MapMapCopy None id_cell l (∅ : gmap Key Val) = puts l.
Proof. done. Qed.

Lemma MapMap_Delete_id k (m : gmap Key Val) : MapMap_Delete None id_cell k m = delete k m.
Proof.
  unfold MapMap_Delete. cbn. destruct (m !! k) eqn:Hk; [done|]. by rw delete_id.
Qed.

Lemma for_each_delete_sim (l : list (Key * Val)) m w :
  S m w → S (foldl (λ m k, delete k m) m l.*1) (for_each l (λ p w, mr_Delete current p.1 w) w).
Proof.
  revert m w. induction l as [|[k v] l IH]; intros m w HS; [done|].
  rw for_each_cons. apply IH. by apply (sim_delete (MappingReceiverSim:=Hsim)).
Qed.

Lemma MapUpdateToMatch_spec target m w :
  S m w → S (puts target) (MapUpdateToMatch current target w).
Proof.
  intros HS. unfold MapUpdateToMatch. rw MapMapCopy_spec.
  assert (puts (map_Visit current w) = m) as ->.
  { apply map_eq. intros k. pose proof (Hvisit m w HS) as Hv. unfold puts.
    assert (NoDup (map_Visit current w).*1) as Hnd by (rw Hv; apply NoDup_fst_map_to_list).
    destruct (m !! k) as [v|] eqn:Hk.
    - apply lookup_foldl_insert_in; [done|]. rw Hv. by apply elem_of_map_to_list.
    - rw lookup_foldl_insert_notin; [apply lookup_empty|].
      intros ([k' v] & -> & Hin)%list_elem_of_fmap. rw Hv in Hin.
      apply elem_of_map_to_list in Hin. simpl in Hk. congruence. }
  set (I := λ (seen : list (Key * Val)) (p : gmap Key Val * W),
    p.1 = foldl (λ m k, delete k m) m seen.*1 ∧ S (foldl (λ m p, <[p.1:=p.2]> m) m seen) p.2).
  match goal with |- context [for_each target ?f ?s] => set (step := f); set (s0 := s) end.
  assert (I target (for_each target step s0)) as [Hg Hs].
  { apply (for_each_ind I); unfold I; [done|].
    intros seen [k v] todo [goners w1] _ [Hg Hs]. simpl in *. rw MapMap_Delete_id.
    rw fmap_app !foldl_app /= Hg. split; [done|]. by apply (sim_put (MappingReceiverSim:=Hsim)). }
  destruct (for_each target step s0) as [goners w1]. simpl in *.
  unfold MapMap_Visit. cbn [cget id_cell]. change (id goners) with goners.
  replace (puts target) with
    (foldl (λ m k, delete k m) (foldl (λ m p, <[p.1:=p.2]> m) m target) (map_range goners).*1);
    [by apply for_each_delete_sim|].
  apply map_eq. intros k. rw lookup_foldl_delete lookup_puts_app.
  assert (k ∈ (map_range goners).*1 ↔ (k ∉ target.*1) ∧ is_Some (m !! k)) as Hk.
  { rw list_elem_of_fmap. split.
    - intros ([k' v] & -> & Hin). apply elem_of_map_range in Hin.
      rw Hg lookup_foldl_delete in Hin. simpl.
      destruct (decide (k' ∈ target.*1)); [done|]. split; [done|by eexists].
    - intros [Hn [v Hv]]. exists (k, v). split; [done|]. apply elem_of_map_range.
      by rw Hg lookup_foldl_delete decide_False. }
  destruct (decide (k ∈ (map_range goners).*1)) as [Hin|Hin]; rw Hk in Hin.
  - destruct Hin as [Hn _]. symmetry. unfold puts.
    rw lookup_foldl_insert_notin //.
  - destruct (decide (k ∈ target.*1)) as [|Hn]; [done|].
    unfold puts. rw lookup_foldl_insert_notin // lookup_empty. apply eq_None_not_Some. tauto.
Qed.
End map_differencer_facts.

(** the differencer of sets (behind [NewResolvedWhereDifferencer]) tells its
    receiver of additions of absent elements and removals of present elements
    only, and after each received collection, whatever its repetitions, both the
    kept set and what the receiver was told are that collection. *)
Theorem setDifferencer_tracks `{MapRange} {W SetType Elt} `{Countable Elt}
  (visitablize : SetType → list Elt) (receiver : SetWriter W Elt)
  (c : Cell W (MapSet Elt)) `{!CellOk c} `{!QuietSW receiver (cget c)}
  (T : gset Elt → W → Prop) :
  (∀ X r w w', Updated c r w w' → T X w → T X w') →
  (∀ e X w, e ∉ X → T X w → T ({[e]} ∪ X) (sw_Add receiver e w).2) →
  (∀ e X w, e ∈ X → T X w → T (X ∖ {[e]}) (sw_Remove receiver e w).2) →
  ∀ wholes whole w,
  T (cget c w) w →
  let receive := setDifferenceByMapAndEnum_Receive visitablize receiver c in
  let w' := receive whole (for_each wholes receive w) in
  cget c w' = list_to_set (visitablize whole) ∧ T (list_to_set (visitablize whole)) w'.
Proof.
  intros HTc Hadd Hrem wholes whole w HT. cbv zeta.
  assert (∀ X w whole, set_in_step c (λ _, True) id T X w →
    set_in_step c (λ _, True) id T (list_to_set (visitablize whole))
      (setDifferenceByMapAndEnum_Receive visitablize receiver c whole w)) as Hstep.
  { intros X w0 whole0 Hs. by apply (SetUpdateToMatch_spec _ c (λ _, True) id _ T HTc Hadd Hrem _ X). }
  assert (∃ X, set_in_step c (λ _, True) id T X
    (for_each wholes (setDifferenceByMapAndEnum_Receive visitablize receiver c) w)) as [X HX].
  { revert HT. revert w. induction wholes as [|h wholes IH]; intros w HT; [by exists (cget c w)|].
    rw for_each_cons. apply IH.
    destruct (Hstep (cget c w) w h) as (_ & Heq & HT'); [done|]. by rw -Heq in HT'. }
  by destruct (Hstep X _ whole HX) as (_ & ? & ?).
Qed.

Section map_differencer_instance.
Context `{MapRange} {W Key Val : Type} `{Countable Key} (c : Cell W (gmap Key Val)) `{!CellOk c}.
Context (o : MapChangeReceiver W Key Val) `{Hq : !QuietMCR o (cget c)} (T : gmap Key Val → W → Prop).
Context (HTc : ∀ m s w, T m w → T m (cset c s w)).
Context (Hcreate : ∀ k v m w, m !! k = None → T m w → T (<[k:=v]> m) (mcr_Create o k v w)).
Context (Hupdate : ∀ k v v' m w, m !! k = Some v → T m w → T (<[k:=v']> m) (mcr_Update o k v v' w)).
Context (Hfinal : ∀ k v m w, m !! k = Some v → T m w → T (delete k m) (mcr_DeleteWithFinal o k v w)).

Lemma MapMap_observed_sim :
  MappingReceiverSim (MapMap_AsMutableMap (Some o) c) (λ m w, cget c w = m ∧ T m w).
Proof.
  split; simpl.
  - intros k v m w [<- HT]. unfold MapMap_Put. destruct (cget c w !! k) as [old|] eqn:Hk.
    + rw quiet_update cget_cset. split; [done|]. apply Hupdate; [done|]. by apply HTc.
    + rw quiet_create cget_cset. split; [done|]. apply Hcreate; [done|]. by apply HTc.
  - intros k m w [<- HT]. unfold MapMap_Delete. destruct (cget c w !! k) as [old|] eqn:Hk.
    + rw quiet_final cget_cset. split; [done|]. apply Hfinal; [done|]. by apply HTc.
    + by rw delete_id.
Qed.

Lemma mapDifferencer_spec {MapType} (visitablize : MapType → list (Key * Val)) whole m w :
  cget c w = m → T m w →
  let w' := mapDifferenceByMapAndEnum_Receive visitablize o c whole w in
  cget c w' = puts (visitablize whole) ∧ T (puts (visitablize whole)) w'.
Proof.
  intros Hc HT. cbv zeta.
  apply (MapUpdateToMatch_spec (MapMap_AsMutableMap (Some o) c) (λ m w, cget c w = m ∧ T m w)
    (Hsim:=MapMap_observed_sim)) with (m:=m); [|done].
  intros m' w' [<- _]. apply map_range_perm.
Qed.
End map_differencer_instance.

(** The differencer of maps (behind [NewWorkloadPartsDifferencer]) reports to
    its receiver truthful creations, updates and deletions, with the old values
    it reported before, and after each received map both the kept map and what
    the receiver was told are that map. *)
Theorem mapDifferencer_tracks `{MapRange} {W} (c : Cell W (gmap WorkloadPartID WorkloadPartDetails))
  `{!CellOk c} (o : MapChangeReceiver W WorkloadPartID WorkloadPartDetails) `{!QuietMCR o (cget c)}
  inv abs `{!MapChangeReceiverOk o inv abs, !Indep c inv, !Indep c abs} wholes whole w :
  inv w → abs w = cget c w →
  let receive := NewWorkloadPartsDifferencer o c in
  let w' := receive whole (for_each wholes receive w) in
  inv w' ∧ abs w' = default ∅ whole ∧ cget c w' = default ∅ whole.
Proof.
  intros Hi Ha. cbv zeta.
  set (T := λ (m : gmap WorkloadPartID WorkloadPartDetails) w, inv w ∧ abs w = m).
  assert (∀ w (whole : WorkloadParts), T (cget c w) w →
    let w' := NewWorkloadPartsDifferencer o c whole w in
    cget c w' = default ∅ whole ∧ T (default ∅ whole) w') as Hstep.
  { intros w0 whole0 HT. cbv zeta. rw -(puts_NoDup (default ∅ whole0)).
    apply (mapDifferencer_spec c o T) with (m:=cget c w0); try done; unfold T.
    - intros m s w1 [? <-]. split; by rw indep.
    - intros k v m w1 Hk [Hi1 <-]. by apply mcr_create_ok.
    - intros k v v' m w1 Hk [Hi1 <-]. by apply mcr_update_ok.
    - intros k v m w1 Hk [Hi1 <-]. by apply mcr_delete_ok. }
  assert (T (cget c (for_each wholes (NewWorkloadPartsDifferencer o c) w))
            (for_each wholes (NewWorkloadPartsDifferencer o c) w)) as HT.
  { assert (T (cget c w) w) as HT0 by done. revert HT0. generalize w as w0.
    induction wholes as [|h wholes IH]; intros w0 HT; [done|]. rw for_each_cons. apply IH.
    destruct (Hstep w0 h HT) as [Hc HT']. by rw Hc. }
  destruct (Hstep _ whole HT) as [Hc [? ?]]. done.
Qed.

Section slice_differencer_facts.
Context {W Elt : Type} `{Countable Elt} (isEqual : Elt → Elt → bool).
Context (HisEqual : ∀ x y, isEqual x y = bool_decide (x = y)).
Context (receiver : SetChangeReceiver W Elt) (c : Cell W (list Elt)) `{!CellOk c}.
Context (Hq : ∀ add e w, cget c (receiver add e w) = cget c w).
Context (T : gset Elt → W → Prop) (HTc : ∀ X s w, T X w → T X (cset c s w)).
Context (Hadd : ∀ e X w, T X w → T ({[e]} ∪ X) (receiver true e w)).
Context (Hrem : ∀ e X w, T X w → T (X ∖ {[e]}) (receiver false e w)).

Lemma slice_contains l e :
  SliceContainsParametric isEqual l e = bool_decide (e ∈ l).
Proof.
  apply eq_bool_prop_intro. rw !Is_true_true SliceContainsParametric_spec bool_decide_eq_true.
  setoid_rewrite HisEqual. setoid_rewrite bool_decide_eq_true. naive_solver.
Qed.

Lemma slice_loop (add : bool) (op : gset Elt → gset Elt → gset Elt) (keep : list Elt) l X w :
  (∀ e X w, T X w → T (op X {[e]}) (receiver add e w)) →
  (∀ X Y Z, op (op X Y) Z = op X (Y ∪ Z)) → (∀ X, op X ∅ = X) →
  T X w →
  let w' := for_each l (λ e w, if negb (bool_decide (e ∈ keep)) then receiver add e w else w) w in
  T (op X (list_to_set (filter (λ e, e ∉ keep) l))) w' ∧ cget c w' = cget c w.
Proof.
  intros Hop Hassoc Hid. revert X w. induction l as [|e l IH]; intros X w HT.
  { by rw /= Hid. }
  cbn zeta. rw for_each_cons filter_cons. destruct (decide (e ∈ keep)) as [Hin|Hn].
  - rw bool_decide_true //=. destruct (decide (e ∉ keep)); [done|]. by apply IH.
  - rw bool_decide_false //=. destruct (decide (e ∉ keep)); [|done].
    destruct (IH (op X {[e]}) (receiver add e w)) as [HT' Hc]; [by apply Hop|].
    rw list_to_set_cons -Hassoc. split; [done|]. by rw Hc Hq.
Qed.

Lemma sliceDifferencer_spec newWhole w :
  T (list_to_set (cget c w)) w →
  let w' := sliceDifferencer_Receive isEqual receiver c newWhole w in
  cget c w' = newWhole ∧ T (list_to_set newWhole) w'.
Proof.
  intros HT. unfold sliceDifferencer_Receive. cbv zeta. rw cget_cset. split; [done|].
  set (w1 := for_each (cget c w) _ w).
  assert (T (list_to_set (cget c w) ∖ list_to_set (filter (λ e, e ∉ newWhole) (cget c w))) w1 ∧
          cget c w1 = cget c w) as [HT1 Hc1].
  { unfold w1. setoid_rewrite slice_contains.
    apply (slice_loop false (λ X Y, X ∖ Y) newWhole); [done|set_solver..|done]. }
  set (w2 := for_each newWhole _ w1).
  assert (∀ l w, cget c w = cget c w1 →
    for_each l (λ newElt w, if negb (SliceContainsParametric isEqual (cget c w) newElt)
                            then receiver true newElt w else w) w
    = for_each l (λ e w, if negb (bool_decide (e ∈ cget c w1)) then receiver true e w else w) w)
    as Hsame.
  { induction l as [|e l IH]; intros w0 Hc0; [done|]. rw !for_each_cons slice_contains Hc0.
    apply IH. destruct (negb _); [by rw Hq|done]. }
  assert (T ((list_to_set (cget c w) ∖ list_to_set (filter (λ e, e ∉ newWhole) (cget c w)))
             ∪ list_to_set (filter (λ e, e ∉ cget c w1) newWhole)) w2) as HT2.
  { unfold w2. rw Hsame //. apply (slice_loop true (λ X Y, X ∪ Y)); [|set_solver..|done].
    intros e X w0 HT0. rw (comm_L (∪)). by apply Hadd. }
  apply HTc. rw Hc1 in HT2.
  replace (list_to_set newWhole : gset Elt) with
    ((list_to_set (cget c w) ∖ list_to_set (filter (λ e, e ∉ newWhole) (cget c w)))
     ∪ list_to_set (filter (λ e, e ∉ cget c w) newWhole) : gset Elt); [done|].
  apply set_eq. intros e. rw elem_of_union elem_of_difference !elem_of_list_to_set !list_elem_of_filter.
  destruct (decide (e ∈ newWhole)), (decide (e ∈ cget c w)); tauto.
Qed.
End slice_differencer_facts.

(** the differencer of slices turns successive slices into changes of the set
    of their elements: its receiver, which must tolerate repeated calls because
    the slices may have repetitions, ends up with the elements of the last slice. *)
Theorem sliceDifferencer_tracks {W} (receiver : SetChangeReceiver W UpsyncSet)
  (isEqual : UpsyncSet → UpsyncSet → bool) (c : Cell W (list UpsyncSet)) `{!CellOk c}
  (T : gset UpsyncSet → W → Prop) :
  (∀ x y, isEqual x y = bool_decide (x = y)) →
  (∀ add e w, cget c (receiver add e w) = cget c w) →
  (∀ X s w, T X w → T X (cset c s w)) →
  (∀ e X w, T X w → T ({[e]} ∪ X) (receiver true e w)) →
  (∀ e X w, T X w → T (X ∖ {[e]}) (receiver false e w)) →
  ∀ wholes whole w,
  T (list_to_set (cget c w)) w →
  let receive := sliceDifferencer_Receive isEqual receiver c in
  let w' := receive whole (for_each wholes receive w) in
  cget c w' = whole ∧ T (list_to_set whole) w'.
Proof.
  intros He Hq HTc Hadd Hrem wholes whole w HT. cbv zeta.
  apply (sliceDifferencer_spec isEqual He receiver c Hq T HTc Hadd Hrem).
  revert HT. revert w. induction wholes as [|h wholes IH]; intros w HT; [done|].
  rw for_each_cons. apply IH.
  destruct (sliceDifferencer_spec isEqual He receiver c Hq T HTc Hadd Hrem h w HT) as [Hc HT'].
  by rw Hc.
Qed.
