(* ===== verification/Joins.v ===== *)
(** Projection and equijoin of change streams (set-project.go, join-static.go,
    join-dynamic-12with13.go, join-dynamic-12vwith13.go).

    The dynamic operators are receivers: given a receiver of the changes of a
    result they are receivers of the changes of the inputs.  Their correctness is
    a simulation: what the receiver was told is at any time the projection (the
    join) of what the inputs were told. *)

From S2P Require Import Prelude Tuples Interfaces Slices Sets Maps Types HashDomains HashMap.
From S2P Require Import Relations FactoredMap Receivers.

(** * Projection *)

Section projector.
Context {W Whole PartA PartB Inner : Type}.

Definition NewSetChangeProjector (factoring : Factorer Whole PartA PartB)
  (partAReceiver : SetWriter W PartA)
  (repMaker : MapChangeReceiver W PartA Inner → MutableMap W PartA Inner)
  (innerSetFactory : PartA → Inner) (innerSet : MutableSet Inner PartB) : SetWriter W Whole :=
  let indexerRep := repMaker (MapKeySetReceiver partAReceiver) in
  let indexer := NewGenericIndexedSet factoring innerSetFactory innerSet indexerRep in
  indexer.
End projector.

Definition NewSetChangeProjectorByMapMap `{MapRange} {W Whole PartA PartB}
  `{Countable PartA, Countable PartB} (factoring : Factorer Whole PartA PartB)
  (partAReceiver : SetWriter W PartA) (c : Cell W (gmap PartA (MapSet PartB)))
  : SetWriter W Whole :=
  NewSetChangeProjector factoring partAReceiver
    (λ observer, MapMap_AsMutableMap (Some observer) c)
    (λ _, NewEmptyMapSet) (MapSet_AsMutableSet id_cell).

Definition NewSetChangeProjectorByHashMap {W Whole PartA PartB}
  (factoring : Factorer Whole PartA PartB) (partAReceiver : SetWriter W PartA)
  (hashDomainA : HashDomain PartA) (hashDomainB : HashDomain PartB)
  (c : Cell W (buckets PartA (buckets PartB Empty))) : SetWriter W Whole :=
  NewSetChangeProjector factoring partAReceiver
    (λ observer, hashMap_AsMutableMap hashDomainA (Some observer) c)
    (λ _, emptyBuckets) (hashSet_AsMutableSet hashDomainB id_cell).

(** * Static joins *)

Section static_joins.
Context `{MapRange} {W : Type}.

Definition Relation2Equijoin12with13 {First Second Third} `{Countable Second, Countable Third}
  (left : MutableRelation2 W First Second) (right : MutableRelation2 W First Third) (w : W)
  : MapRelation2Rep Second Third :=
  let ans := NewMapRelation2 id_cell in
  for_each (set_Visit left w) (λ xy r,
    for_each (rel_Visit1to2 right xy.1 w) (λ z r, (sw_Add ans (xy.2, z) r).2) r) ∅.

Definition Map12VEquijoinRelation13 {First Second Third Val}
  `{Countable First, Countable Second, Countable Third}
  (left : GoMap W (Pair First Second) Val) (right : MutableRelation2 W Second Third) (w : W)
  : gmap (Triple First Second Third) Val :=
  let ans := MapMap_AsMutableMap None id_cell in
  for_each (map_Visit left w) (λ tupl r,
    for_each (rel_Visit1to2 right tupl.1.2 w)
      (λ third r, mr_Put ans (NewTriple tupl.1.1 tupl.1.2 third) tupl.2 r) r) ∅.

Definition MapEquijoin12With13 {Key ValLeft ValRight} `{Countable Key}
  (left : GoMap W Key ValLeft) (right : GoMap W Key ValRight) (w : W)
  : gmap Key (Pair ValLeft ValRight) :=
  let ans := MapMap_AsMutableMap None id_cell in
  for_each (map_Visit left w) (λ kl r,
    match map_Get right kl.1 w with
    | Some rightVal => mr_Put ans kl.1 (kl.2, rightVal) r
    | None => r
    end) ∅.

Definition JoinByVisitSquared {Left Right Joint} (left : list Left) (right : list Right)
  (matchFn : Left → Right → option Joint) : list Joint :=
  left ≫= λ leftElt, right ≫= λ rightElt,
    match matchFn leftElt rightElt with
    | None => []
    | Some joint => [joint]
    end.
End static_joins.

(** * Dynamic joins *)

Definition extrapolateFwd1 {W ColX ColY ColZ} (xzReln : MutableRelation2 W ColX ColZ)
  (receiver : SetWriter W (Triple ColX ColY ColZ)) : SetWriter W (Pair ColX ColY) :=
  MkSetWriter
    (λ xy w, (true, for_each (rel_Visit1to2 xzReln xy.1 w)
                      (λ z w, (sw_Add receiver (NewTriple xy.1 xy.2 z) w).2) w))
    (λ xy w, (true, for_each (rel_Visit1to2 xzReln xy.1 w)
                      (λ z w, (sw_Remove receiver (NewTriple xy.1 xy.2 z) w).2) w)).

Definition TripleSetWriterReverse23 {W Left Middle Right}
  (forward : SetWriter W (Triple Left Middle Right)) : SetWriter W (Triple Left Right Middle) :=
  MkSetWriter
    (λ tup w, sw_Add forward (NewTriple (tFirst tup) (tThird tup) (tSecond tup)) w)
    (λ tup w, sw_Remove forward (NewTriple (tFirst tup) (tThird tup) (tSecond tup)) w).

(** The assembly common to the map-based and the hash-based full join. *)
Definition dynamicJoin12with13 {W ColX ColY ColZ} (xyReln0 : MutableRelation2 W ColX ColY)
  (xzReln0 : MutableRelation2 W ColX ColZ) (receiver : SetWriter W (Triple ColX ColY ColZ))
  : SetWriter W (Pair ColX ColY) * SetWriter W (Pair ColX ColZ) :=
  let xyReln := Relation2WithObservers xyReln0 [extrapolateFwd1 xzReln0 receiver] in
  let xzReln := Relation2WithObservers xzReln0
                  [extrapolateFwd1 xyReln (TripleSetWriterReverse23 receiver)] in
  (rel_Set xyReln : SetWriter W (Pair ColX ColY), rel_Set xzReln : SetWriter W (Pair ColX ColZ)).

Section dynamic_joins.
Context `{MapRange} {W ColX ColY ColZ : Type} `{Countable ColX, Countable ColY, Countable ColZ}.

Definition NewDynamicFullJoin12with13 (cxy : Cell W (MapRelation2Rep ColX ColY))
  (cxz : Cell W (MapRelation2Rep ColX ColZ)) (receiver : SetWriter W (Triple ColX ColY ColZ))
  : SetWriter W (Pair ColX ColY) * SetWriter W (Pair ColX ColZ) :=
  dynamicJoin12with13 (NewMapRelation2 cxy) (NewMapRelation2 cxz) receiver.

Definition NewDynamicJoin12with13 (cxy : Cell W (MapRelation2Rep ColX ColY))
  (cxz : Cell W (MapRelation2Rep ColX ColZ))
  (cindex : Cell W (gmap (Pair ColY ColZ) (MapSet ColX)))
  (receiver : SetWriter W (Pair ColY ColZ))
  : SetWriter W (Pair ColX ColY) * SetWriter W (Pair ColX ColZ) :=
  let indexerAsReceiver :=
    NewSetChangeProjectorByMapMap TripleFactorerTo23and1 receiver cindex in
  NewDynamicFullJoin12with13 cxy cxz indexerAsReceiver.
End dynamic_joins.

Definition NewDynamicFullJoin12with13Parametric {W ColX ColY ColZ} (hashDomainX : HashDomain ColX)
  (hashDomainY : HashDomain ColY) (hashDomainZ : HashDomain ColZ)
  (cxy : Cell W (HashRelation2Rep ColX ColY)) (cxz : Cell W (HashRelation2Rep ColX ColZ))
  (receiver : SetWriter W (Triple ColX ColY ColZ))
  : SetWriter W (Pair ColX ColY) * SetWriter W (Pair ColX ColZ) :=
  dynamicJoin12with13 (NewHashRelation2 hashDomainX hashDomainY cxy)
    (NewHashRelation2 hashDomainX hashDomainZ cxz) receiver.

(** ** A map joined with a relation *)

Section dynamic_join_v.
Context {W ColX ColY ColZ Val : Type}.
Context (receiver : MappingReceiver W (Triple ColX ColY ColZ) Val).

(** [er.xyvReln.GetIndex().Visit1to2], as a function of the world *)
Definition extrapolate1v (xyvVisit1to2 : ColX → W → list (Pair ColY Val))
  : SetWriter W (Pair ColX ColZ) :=
  MkSetWriter
    (λ xz w, (true, for_each (xyvVisit1to2 xz.1 w)
                      (λ inner w, mr_Put receiver (NewTriple xz.1 inner.1 xz.2) inner.2 w) w))
    (λ xz w, (true, for_each (xyvVisit1to2 xz.1 w)
                      (λ inner w, mr_Delete receiver (NewTriple xz.1 inner.1 xz.2) w) w)).

Definition extrapolate2v_Create (xzReln : MutableRelation2 W ColX ColZ) (xy : Pair ColX ColY)
  (val : Val) (w : W) : W :=
  for_each (rel_Visit1to2 xzReln xy.1 w)
    (λ z w, mr_Put receiver (NewTriple xy.1 xy.2 z) val w) w.

Definition extrapolate2v (xzReln : MutableRelation2 W ColX ColZ)
  : MapChangeReceiver W (Pair ColX ColY) Val :=
  MkMapChangeReceiver
    (extrapolate2v_Create xzReln)
    (λ xy _ newVal w, extrapolate2v_Create xzReln xy newVal w)
    (λ xy _ w, for_each (rel_Visit1to2 xzReln xy.1 w)
                 (λ z w, mr_Delete receiver (NewTriple xy.1 xy.2 z) w) w).
End dynamic_join_v.

Definition NewDynamicFullJoin12VWith13 `{MapRange} {W ColX ColY ColZ Val}
  `{Countable ColX, Countable ColY, Countable ColZ}
  (cxyv : Cell W (gmap ColX (gmap ColY Val))) (cxz : Cell W (MapRelation2Rep ColX ColZ))
  (receiver : MappingReceiver W (Triple ColX ColY ColZ) Val)
  : MappingReceiver W (Pair ColX ColY) Val * SetWriter W (Pair ColX ColZ) :=
  let xzReln0 := NewMapRelation2 cxz in
  let xyvReln := NewFactoredMapMap PairFactorer (Some (extrapolate2v receiver xzReln0)) None None
                   cxyv in
  let xyvVisit1to2 := genericFactoredMapIndex_Visit1to2 (MapMap_AsMutableMap None id_cell)
        (MapMap_AsMutableMap (Some (outerMapObserver None)) cxyv) in
  let xzReln := Relation2WithObservers xzReln0 [extrapolate1v receiver xyvVisit1to2] in
  (mm_Receiver xyvReln, rel_Set xzReln : SetWriter W (Pair ColX ColZ)).

(** * Correctness of the projection *)

Section projector_facts.
Context {W Whole A B VS R : Type} `{Countable Whole, Countable A, Countable B}.
Context (factoring : Factorer Whole A B) `{!RotatorOk factoring} (factory : A → VS).
Context (vset : MutableSet VS B) (wfV : VS → Prop) (absV : VS → gset B)
  `{HV : !MutableSetOk vset id_cell wfV absV}.
Context (Hfactory : ∀ k, wfV (factory k) ∧ absV (factory k) = ∅).
Context (partA : SetWriter W A) (rep : MutableMap W A VS) (c : Cell W R) (wfR : R → Prop)
  (absR : R → gmap A VS) `{HR : !MutableMapOk rep (Some (MapKeySetReceiver partA)) c wfR absR}.
Context `{Hq : !QuietSW partA (cget c)}.

(** [T X w]: the receiver of the projection was told of [X]; it need only
    understand real changes. *)
Context (T : gset A → W → Prop).
Context (HTc : ∀ X r w w', Updated c r w w' → T X w → T X w').
Context (Hadd : ∀ a X w, a ∉ X → T X w → T ({[a]} ∪ X) (sw_Add partA a w).2).
Context (Hrem : ∀ a X w, a ∈ X → T X w → T (X ∖ {[a]}) (sw_Remove partA a w).2).

Definition projection (X : gset Whole) : gset A := set_map (λ t, (rotFirst factoring t).1) X.

(** The projector holds [X] and its receiver knows the projection of [X]. *)
Definition projector_in_step (X : gset Whole) (w : W) : Prop :=
  indexed_wf wfV absV wfR absR (cget c w) ∧ indexed_abs factoring absV absR (cget c w) = X ∧
  T (projection X) w.

Lemma dom_projection r :
  indexed_wf wfV absV wfR absR r → projection (indexed_abs factoring absV absR r) = dom (absR r).
Proof.
  intros [_ Hvs]. apply set_eq. intros a. unfold projection. rw elem_of_map elem_of_dom. split.
  - intros (t & -> & Ht). apply elem_of_indexed_abs in Ht as (vs & Hk & _); [|done]. by eexists.
  - intros [vs Hk]. destruct (Hvs a vs Hk) as [_ Hne]. apply set_choose_L in Hne as [b Hb].
    exists (rotSecond factoring (a, b)). rw rot_first_second. split; [done|].
    apply elem_of_indexed_abs; [done|]. rw rot_first_second. by exists vs.
Qed.

Abbreviation proj := (ms_Writer (NewGenericIndexedSet factoring factory vset rep)).

Lemma projector_get key w :
  wfR (cget c w) → map_Get rep key w = absR (cget c w) !! key.
Proof. intros Hw. by apply (map_Get_ok (abs:=λ w, absR (cget c w))). Qed.

Lemma projector_add_step t X w :
  projector_in_step X w → projector_in_step ({[t]} ∪ X) (sw_Add proj t w).2.
Proof.
  intros (Hwf & <- & HT). rw dom_projection // in HT.
  simpl. unfold genericIndexedSet_Add, Factorer_Factor. cbv beta iota zeta.
  destruct (rotFirst factoring t) as [key val] eqn:Ht. cbn [fst snd].
  rw (projector_get key w (proj1 Hwf)).
  assert (∃ valSet r1 w1,
    match absR (cget c w) !! key with
    | Some valSet => (valSet, w)
    | None => (factory key, mr_Put rep key (factory key) w)
    end = (valSet, w1) ∧ cget c w1 = r1 ∧ wfR r1 ∧ wfV valSet ∧
    absR r1 = <[key:=valSet]> (absR (cget c w)) ∧ T (dom (absR r1)) w1 ∧
    (∀ v, v ∈ absV valSet ↔ ∃ vs0, absR (cget c w) !! key = Some vs0 ∧ v ∈ absV vs0))
    as (vs & r1 & w1 & -> & Hr1 & Hwf1 & Hvs & Ha1 & HT1 & Hmem).
  { destruct (absR (cget c w) !! key) as [vs|] eqn:Hk.
    - exists vs, (cget c w), w. split_and!; [done|done|apply Hwf| |by rw insert_id|done|].
      + by apply (proj2 Hwf key vs).
      + intros v. by rw exists_Some_eq.
    - destruct (mm_put_ok key (factory key) w (proj1 Hwf)) as (r & w' & -> & Hu & ? & Ha).
      destruct (Hfactory key) as [? He]. rw Hk. cbn [notify_put mcr_Create MapKeySetReceiver MapChangeReceiverFuncs].
      exists (factory key), r, (sw_Add partA key w').2. rw quiet_add.
      split_and!; [done|apply Hu|done|done|done| |].
      + rw Ha dom_insert_L. apply Hadd; [by apply not_elem_of_dom|]. by eapply HTc.
      + intros v. rw He exists_None_eq. set_solver. }
  destruct (ms_add_ok val vs Hvs) as (vs' & vs'' & -> & [Hvs'' _] & Hwf' & Hadd').
  cbn in Hvs'', Hadd'. subst vs''.
  destruct (mm_mutate_ok key vs' w1) as (r2 & Hu2 & Hwf2 & Ha2).
  { by rw Hr1. } { rw Hr1 Ha1 lookup_insert_eq. by eexists. }
  rw Hr1 Ha1 insert_insert_eq in Ha2. simpl.
  assert (cget c (mm_Mutate rep key vs' w1) = r2) as Hr2 by apply Hu2.
  destruct (indexed_add_pure factoring wfV absV wfR absR t key val (cget c w) r2 vs') as [Hwf3 Habs3];
    [done..|intros v; rw Hadd' -Hmem; set_solver|].
  unfold projector_in_step. rw Hr2 -Habs3 dom_projection //. split_and!; [done|done|].
  eapply HTc; [done|]. by rw Ha2 dom_insert_L -(dom_insert_L _ key vs) -Ha1.
Qed.

Lemma projector_remove_step t X w :
  projector_in_step X w → projector_in_step (X ∖ {[t]}) (sw_Remove proj t w).2.
Proof.
  intros (Hwf & <- & HT). rw dom_projection // in HT.
  simpl. unfold genericIndexedSet_Remove, Factorer_Factor. cbv beta iota zeta.
  destruct (rotFirst factoring t) as [key val] eqn:Ht. cbn [fst snd].
  rw (projector_get key w (proj1 Hwf)).
  destruct (absR (cget c w) !! key) as [vs|] eqn:Hk; last first.
  { assert (t ∉ indexed_abs factoring absV absR (cget c w)) as Hn
      by (rw elem_of_indexed_abs Ht Hk exists_None_eq; tauto).
    replace (indexed_abs factoring absV absR (cget c w) ∖ {[t]})
      with (indexed_abs factoring absV absR (cget c w)) by set_solver.
    split_and!; [apply Hwf..|done|by rw dom_projection]. }
  destruct (proj2 Hwf key vs Hk) as [Hvs Hvne].
  destruct (ms_remove_ok val vs Hvs) as (vs' & vs'' & -> & [Hvs'' _] & Hwf' & Hrem').
  cbn in Hvs'', Hrem'. subst vs''.
  destruct (mm_mutate_ok key vs' w (proj1 Hwf)) as (r1 & Hu1 & Hwf1 & Ha1); [by rw Hk|].
  set (w1 := mm_Mutate rep key vs' w) in *. assert (cget c w1 = r1) as Hr1 by apply Hu1.
  pose proof (λ r2 H1 H2, indexed_remove_pure factoring wfV absV wfR absR t key val (cget c w) r2
    vs vs' Hwf Ht Hk H1 Hwf' Hrem' H2) as Hfin.
  assert (dom (absR r1) = dom (absR (cget c w))) as Hdom by (rw Ha1 dom_insert_lookup_L //).
  assert (T (dom (absR r1)) w1) as HT1 by (rw Hdom; by eapply HTc).
  assert (absV vs' ≠ ∅ → projector_in_step (indexed_abs factoring absV absR (cget c w) ∖ {[t]}) w1)
    as Hkeep.
  { intros He. destruct (Hfin r1 Hwf1) as [? Heq]; [by left|].
    unfold projector_in_step. rw -Heq Hr1 dom_projection //. }
  change (cget id_cell vs) with vs.
  destruct (bool_decide_reflect (val ∈ absV vs)) as [Hv|Hv]; simpl; last first.
  { apply Hkeep. replace (absV vs') with (absV vs) by set_solver. done. }
  pose proof (set_IsEmpty_ok (GoSetOk:=ms_set_ok (MutableSetOk:=HV)) vs' Hwf') as Hempty.
  cbn in Hempty. rw Hempty.
  destruct (bool_decide_reflect (absV vs' = ∅)) as [He|He]; [|by apply Hkeep].
  destruct (mm_delete_ok key w1) as (r2 & w2 & -> & Hu2 & Hwf2 & Ha2); [by rw Hr1|].
  rw Hr1 in Ha2. rw Hr1 Ha1 lookup_insert_eq. cbn [notify_delete mcr_DeleteWithFinal MapKeySetReceiver MapChangeReceiverFuncs].
  assert (cget c w2 = r2) as Hr2 by apply Hu2.
  destruct (Hfin r2 Hwf2) as [? Heq]; [right; by rw Ha2 Ha1 delete_insert_eq|].
  unfold projector_in_step. simpl. rw quiet_remove -Heq Hr2 dom_projection //.
  split_and!; [done..|]. rw Ha2 dom_delete_L. apply Hrem; [by rw Ha1 dom_insert_L; set_solver|].
  by eapply HTc.
Qed.

Lemma projector_sim : SetWriterSim proj projector_in_step.
Proof. split; [apply projector_add_step|apply projector_remove_step]. Qed.
End projector_facts.

(** * Correctness of the joins *)

(** [t] is the equijoin of two relations on their first columns. *)
Definition is_join {X Y Z} `{Countable X, Countable Y, Countable Z} (R1 : gset (X * Y))
  (R2 : gset (X * Z)) (t : gset (Triple X Y Z)) : Prop :=
  ∀ x y z, NewTriple x y z ∈ t ↔ (x, y) ∈ R1 ∧ (x, z) ∈ R2.

#[local] Instance NewTriple_inj3 {X Y Z} (x : X) (y : Y) : Inj (=) (=) (@NewTriple X Y Z x y).
Proof. by intros ?? [=]. Qed.
#[local] Instance NewTriple_inj2 {X Y Z} (x : X) (z : Z) :
  Inj (=) (=) (λ y : Y, NewTriple x y z).
Proof. by intros ?? [=]. Qed.

Section receiver_loops.
Context {W E D : Type} `{Countable E} (receiver : SetWriter W E) (T : gset E → W → Prop).
Context (Hadd : ∀ e X w, e ∉ X → T X w → T ({[e]} ∪ X) (sw_Add receiver e w).2).
Context (Hrem : ∀ e X w, e ∈ X → T X w → T (X ∖ {[e]}) (sw_Remove receiver e w).2).
Context (mk : D → E) `{!Inj (=) (=) mk}.

Lemma add_all_new (l : list D) X w :
  NoDup l → (∀ d, d ∈ l → mk d ∉ X) → T X w →
  T (list_to_set (mk <$> l) ∪ X) (for_each l (λ d w, (sw_Add receiver (mk d) w).2) w).
Proof.
  clear Hrem. revert X w. induction l as [|d l IH]; intros X w Hnd Hnew HT.
  { by replace (list_to_set (mk <$> []) ∪ X) with X by set_solver. }
  apply NoDup_cons in Hnd as [Hd Hnd]. rw for_each_cons.
  replace (list_to_set (mk <$> d :: l) ∪ X) with (list_to_set (mk <$> l) ∪ ({[mk d]} ∪ X))
    by set_solver.
  apply IH; [done| |apply Hadd; [apply Hnew; set_solver|done]].
  intros d' Hd'. assert (mk d' ≠ mk d) by (intros Heq; apply Hd; by apply (inj mk) in Heq as <-).
  set_solver.
Qed.

Lemma remove_all_old (l : list D) X w :
  NoDup l → (∀ d, d ∈ l → mk d ∈ X) → T X w →
  T (X ∖ list_to_set (mk <$> l)) (for_each l (λ d w, (sw_Remove receiver (mk d) w).2) w).
Proof.
  clear Hadd. revert X w. induction l as [|d l IH]; intros X w Hnd Hold HT.
  { by replace (X ∖ list_to_set (mk <$> [])) with X by set_solver. }
  apply NoDup_cons in Hnd as [Hd Hnd]. rw for_each_cons.
  replace (X ∖ list_to_set (mk <$> d :: l)) with (X ∖ {[mk d]} ∖ list_to_set (mk <$> l))
    by set_solver.
  apply IH; [done| |apply Hrem; [apply Hold; set_solver|done]].
  intros d' Hd'. assert (mk d' ≠ mk d) by (intros Heq; apply Hd; by apply (inj mk) in Heq as <-).
  set_solver.
Qed.
End receiver_loops.

Section join_facts.
Context {W X Y Z R1 R2 : Type} `{Countable X, Countable Y, Countable Z}.
Context (xy : MutableRelation2 W X Y) (cxy : Cell W R1) (wf1 : R1 → Prop)
  (abs1 : R1 → gset (X * Y)) `{Hxy : !MutableRelation2Ok xy cxy wf1 abs1}.
Context (xz : MutableRelation2 W X Z) (cxz : Cell W R2) (wf2 : R2 → Prop)
  (abs2 : R2 → gset (X * Z)) `{Hxz : !MutableRelation2Ok xz cxz wf2 abs2}.
Context `{!Indep cxy (cget cxz), !Indep cxz (cget cxy)}.
Context (receiver : SetWriter W (Triple X Y Z)) `{!QuietSW receiver (cget cxy)}
  `{!QuietSW receiver (cget cxz)}.
Context (T : gset (Triple X Y Z) → W → Prop).
Context (HT1 : ∀ t r w w', Updated cxy r w w' → T t w → T t w')
  (HT2 : ∀ t r w w', Updated cxz r w w' → T t w → T t w').
Context (Hadd : ∀ e t w, e ∉ t → T t w → T ({[e]} ∪ t) (sw_Add receiver e w).2).
Context (Hrem : ∀ e t w, e ∈ t → T t w → T (t ∖ {[e]}) (sw_Remove receiver e w).2).

(** The inputs were told of [S1] and [S2], and the receiver of their join. *)
Definition join_in_step (S1 : gset (X * Y)) (S2 : gset (X * Z)) (w : W) : Prop :=
  wf1 (cget cxy w) ∧ abs1 (cget cxy w) = S1 ∧ wf2 (cget cxz w) ∧ abs2 (cget cxz w) = S2 ∧
  ∃ t, is_join S1 S2 t ∧ T t w.

Lemma join_left_sim S2 :
  SetWriterSim (dynamicJoin12with13 xy xz receiver).1 (λ S1, join_in_step S1 S2).
Proof.
  pose proof (relation2WithObservers_sim xy cxy wf1 abs1 [extrapolateFwd1 xz receiver]
    (λ S1 w, wf2 (cget cxz w) ∧ abs2 (cget cxz w) = S2 ∧ ∃ t, is_join S1 S2 t ∧ T t w)) as Hsim.
  apply Hsim; clear Hsim.
  - intros S1 r w w' Hu (? & ? & t & Hj & HT). rw (Updated_indep cxy (cget cxz) r w w' Hu _).
    split_and!; [done..|]. exists t. split; [done|]. by eapply HT1.
  - intros [x y] S1 w Hnew _ _ (Hwf2 & <- & t & Hj & HT). cbn.
    set (zs := rel_Visit1to2 xz x w). split.
    + rw (for_each_frame (cget cxz)); [|intros; apply quiet_add]. split_and!; [done..|].
      exists (list_to_set (NewTriple x y <$> zs) ∪ t). split.
      * intros x' y' z. rw elem_of_union elem_of_list_to_set list_elem_of_fmap Hj elem_of_union
          elem_of_singleton. unfold zs. setoid_rewrite (rel_visit_ok (wf:=wf2) x _ w Hwf2).
        split; [intros [(z' & [= -> -> ->] & ?)|?]; tauto|].
        intros [[[= -> ->]|?] ?]; [left; by exists z|tauto].
      * apply (add_all_new receiver T Hadd (NewTriple x y)); [by apply (rel_visit_NoDup (wf:=wf2))| |done].
        intros z _. rw Hj. tauto.
    + apply for_each_frame. intros. apply quiet_add.
  - intros [x y] S1 w Hold _ _ (Hwf2 & <- & t & Hj & HT). cbn.
    set (zs := rel_Visit1to2 xz x w). split.
    + rw (for_each_frame (cget cxz)); [|intros; apply quiet_remove]. split_and!; [done..|].
      exists (t ∖ list_to_set (NewTriple x y <$> zs)). split.
      * intros x' y' z. rw elem_of_difference elem_of_list_to_set list_elem_of_fmap Hj
          elem_of_difference elem_of_singleton. unfold zs.
        setoid_rewrite (rel_visit_ok (wf:=wf2) x _ w Hwf2). split.
        -- intros [[? Hz] Hn]. split_and!; [done| |done]. intros [= -> ->]. apply Hn. by exists z.
        -- intros [[? Hne] Hz]. split; [done|]. by intros (z' & [= -> -> ->] & _).
      * apply (remove_all_old receiver T Hrem (NewTriple x y)); [by apply (rel_visit_NoDup (wf:=wf2))| |done].
        intros z Hz. rw Hj. split; [done|]. by apply (rel_visit_ok (wf:=wf2) x z w Hwf2).
    + apply for_each_frame. intros. apply quiet_remove.
Qed.

Lemma join_right_sim S1 :
  SetWriterSim (dynamicJoin12with13 xy xz receiver).2 (λ S2, join_in_step S1 S2).
Proof.
  pose proof (relation2WithObservers_sim xz cxz wf2 abs2
    [extrapolateFwd1 (Relation2WithObservers xy [extrapolateFwd1 xz receiver])
       (TripleSetWriterReverse23 receiver)]
    (λ S2 w, wf1 (cget cxy w) ∧ abs1 (cget cxy w) = S1 ∧ ∃ t, is_join S1 S2 t ∧ T t w)) as Hsim.
  assert (SetWriterSim (dynamicJoin12with13 xy xz receiver).2 (λ S2 w,
    wf2 (cget cxz w) ∧ abs2 (cget cxz w) = S2 ∧ wf1 (cget cxy w) ∧ abs1 (cget cxy w) = S1 ∧
    ∃ t, is_join S1 S2 t ∧ T t w)) as Hs.
  { apply Hsim; clear Hsim.
    - intros S2 r w w' Hu (? & ? & t & Hj & HT). rw (Updated_indep cxz (cget cxy) r w w' Hu _).
      split_and!; [done..|]. exists t. split; [done|]. by eapply HT2.
    - intros [x z] S2 w Hnew _ _ (Hwf1 & <- & t & Hj & HT). cbn.
      set (ys := rel_Visit1to2 xy x w). split.
      + rw (for_each_frame (cget cxy)); [|intros; apply quiet_add]. split_and!; [done..|].
        exists (list_to_set ((λ y, NewTriple x y z) <$> ys) ∪ t). split.
        * intros x' y z'. rw elem_of_union elem_of_list_to_set list_elem_of_fmap Hj elem_of_union
            elem_of_singleton. unfold ys. setoid_rewrite (rel_visit_ok (wf:=wf1) x _ w Hwf1).
          split; [intros [(y' & [= -> -> ->] & ?)|?]; tauto|].
          intros [? [[= -> ->]|?]]; [left; by exists y|tauto].
        * apply (add_all_new receiver T Hadd (λ y, NewTriple x y z));
            [by apply (rel_visit_NoDup (wf:=wf1))| |done].
          intros y _. rw Hj. tauto.
      + apply for_each_frame. intros. apply quiet_add.
    - intros [x z] S2 w Hold _ _ (Hwf1 & <- & t & Hj & HT). cbn.
      set (ys := rel_Visit1to2 xy x w). split.
      + rw (for_each_frame (cget cxy)); [|intros; apply quiet_remove]. split_and!; [done..|].
        exists (t ∖ list_to_set ((λ y, NewTriple x y z) <$> ys)). split.
        * intros x' y z'. rw elem_of_difference elem_of_list_to_set list_elem_of_fmap Hj
            elem_of_difference elem_of_singleton. unfold ys.
          setoid_rewrite (rel_visit_ok (wf:=wf1) x _ w Hwf1). split.
          -- intros [[Hy ?] Hn]. split_and!; [done..|]. intros [= -> ->]. apply Hn. by exists y.
          -- intros [Hy [? Hne]]. split; [done|]. by intros (y' & [= -> -> ->] & _).
        * apply (remove_all_old receiver T Hrem (λ y, NewTriple x y z));
            [by apply (rel_visit_NoDup (wf:=wf1))| |done].
          intros y Hy. rw Hj. split; [|done]. by apply (rel_visit_ok (wf:=wf1) x y w Hwf1).
      + apply for_each_frame. intros. apply quiet_remove. }
  unfold join_in_step. split.
  - intros e S2 w (? & ? & ? & ? & Ht).
    destruct (sim_add (SetWriterSim:=Hs) e S2 w) as (? & ? & ? & ? & ?); [by split_and!|]. by split_and!.
  - intros e S2 w (? & ? & ? & ? & Ht).
    destruct (sim_remove (SetWriterSim:=Hs) e S2 w) as (? & ? & ? & ? & ?); [by split_and!|]. by split_and!.
Qed.
End join_facts.

(** ** A map joined with a relation *)

(** [t] gives [(x, y, z)] the value of [(x, y)] for the [z] related to [x]. *)
Definition is_joinV {X Y Z V} `{Countable X, Countable Y, Countable Z} (m : gmap (X * Y) V)
  (S : gset (X * Z)) (t : gmap (Triple X Y Z) V) : Prop :=
  ∀ x y z, t !! NewTriple x y z = if decide ((x, z) ∈ S) then m !! (x, y) else None.

Section mapping_loops.
Context {W K V D : Type} `{Countable K} (mr : MappingReceiver W K V) (T : gmap K V → W → Prop)
  `{!MappingReceiverSim mr T}.

Lemma sim_put_all (key : D → K) (val : D → V) (l : list D) t w :
  T t w → T (foldl (λ m p, <[p.1:=p.2]> m) t ((λ d, (key d, val d)) <$> l))
            (for_each l (λ d, mr_Put mr (key d) (val d)) w).
Proof. revert t w. induction l as [|d l IH]; intros t w HT; [done|]. by apply IH, sim_put. Qed.

Lemma sim_delete_all (key : D → K) (l : list D) t w :
  T t w → T (foldl (λ m k, delete k m) t (key <$> l)) (for_each l (λ d, mr_Delete mr (key d)) w).
Proof. revert t w. induction l as [|d l IH]; intros t w HT; [done|]. by apply IH, sim_delete. Qed.
End mapping_loops.

Section join_v_facts.
Context `{MapRange} {W X Y Z V : Type} `{Countable X, Countable Y, Countable Z}.
Context (cxyv : Cell W (gmap X (gmap Y V))) `{!CellOk cxyv} (cxz : Cell W (MapRelation2Rep X Z))
  `{!CellOk cxz} `{Hi1 : !Indep cxyv (cget cxz), Hi2 : !Indep cxz (cget cxyv)}.
Context (receiver : MappingReceiver W (Triple X Y Z) V) `{!QuietMR receiver (cget cxyv)}
  `{!QuietMR receiver (cget cxz)}.
Context (T : gmap (Triple X Y Z) V → W → Prop) `{Hsim : !MappingReceiverSim receiver T}.
Context (HT1 : ∀ t s w, T t w → T t (cset cxyv s w))
  (HT2 : ∀ t r w w', Updated cxz r w w' → T t w → T t w').

Abbreviation rel_wf := (indexed_wf (λ _, True) id (λ _, True) id).
Abbreviation rel_abs := (indexed_abs PairFactorer id id).

(** The inputs were told of [m] and [S], and the receiver of their join. *)
Definition joinV_in_step (m : gmap (X * Y) V) (S : gset (X * Z)) (w : W) : Prop :=
  (∀ a i, cget cxyv w !! a = Some i → i ≠ ∅) ∧ flatten PairFactorer id (cget cxyv w) = m ∧
  rel_wf (cget cxz w) ∧ rel_abs (cget cxz w) = S ∧ ∃ t, is_joinV m S t ∧ T t w.

Lemma extrapolate2v_put_step x y v m S w :
  rel_wf (cget cxz w) → rel_abs (cget cxz w) = S → (∃ t, is_joinV m S t ∧ T t w) →
  let w' := extrapolate2v_Create receiver (NewMapRelation2 cxz) (x, y) v w in
  cget cxz w' = cget cxz w ∧ ∃ t, is_joinV (<[(x, y):=v]> m) S t ∧ T t w'.
Proof.
  intros Hwf <- (t & Hj & HT). cbv zeta. unfold extrapolate2v_Create. cbn [fst snd].
  set (zs := rel_Visit1to2 (NewMapRelation2 cxz) x w). split.
  { apply for_each_frame. intros. apply quiet_put. }
  eexists. split; [|apply (sim_put_all receiver T (NewTriple x y) (λ _, v) zs t w HT)].
  assert (∀ z, z ∈ zs ↔ (x, z) ∈ rel_abs (cget cxz w)) as Hzs
    by (intros z; by apply (rel_visit_ok (wf:=rel_wf))).
  intros x' y' z. destruct (decide (NewTriple x' y' z ∈ NewTriple x y <$> zs)) as [Hin|Hnin].
  - rw (lookup_foldl_insert_in _ t (NewTriple x' y' z) v).
    + apply list_elem_of_fmap in Hin as (z' & [= -> -> ->] & Hz'). apply Hzs in Hz'.
      by rw decide_True // lookup_insert_eq.
    + rw -list_fmap_compose. apply (NoDup_fmap (NewTriple x y)).
      by apply (rel_visit_NoDup (wf:=rel_wf)).
    + apply list_elem_of_fmap in Hin as (z' & [= -> -> ->] & Hz').
      apply list_elem_of_fmap. by exists z'.
  - rw lookup_foldl_insert_notin; [|by rw -list_fmap_compose].
    rw Hj. destruct (decide ((x', z) ∈ _)) as [Hz|]; [|done].
    rw lookup_insert_ne //. intros [= <- <-]. apply Hnin, list_elem_of_fmap. exists z.
    split; [done|]. by apply Hzs.
Qed.

Lemma extrapolate2v_delete_step x y v m S w :
  rel_wf (cget cxz w) → rel_abs (cget cxz w) = S → (∃ t, is_joinV m S t ∧ T t w) →
  let w' := mcr_DeleteWithFinal (extrapolate2v receiver (NewMapRelation2 cxz)) (x, y) v w in
  cget cxz w' = cget cxz w ∧ ∃ t, is_joinV (delete (x, y) m) S t ∧ T t w'.
Proof.
  intros Hwf <- (t & Hj & HT). cbn.
  set (zs := genericIndexedSetIndex_Visit1to2 _ _ x w). split.
  { apply for_each_frame. intros. apply quiet_delete. }
  eexists. split; [|apply (sim_delete_all receiver T (NewTriple x y) zs t w HT)].
  assert (∀ z, z ∈ zs ↔ (x, z) ∈ rel_abs (cget cxz w)) as Hzs
    by (intros z; by apply (rel_visit_ok (wf:=rel_wf) (rel:=NewMapRelation2 cxz))).
  intros x' y' z. rw lookup_foldl_delete Hj.
  destruct (decide (NewTriple x' y' z ∈ _)) as [Hin|Hnin].
  - apply list_elem_of_fmap in Hin as (z' & [= -> -> ->] & Hz').
    rw lookup_delete_eq. by destruct (decide _).
  - destruct (decide ((x', z) ∈ _)) as [Hz|]; [|done]. rw lookup_delete_ne //.
    intros [= <- <-]. apply Hnin, list_elem_of_fmap. exists z. split; [done|]. by apply Hzs.
Qed.

Lemma joinV_left_sim S :
  MappingReceiverSim (NewDynamicFullJoin12VWith13 cxyv cxz receiver).1 (λ m, joinV_in_step m S).
Proof.
  pose proof (factored_map_sim PairFactorer cxyv
    (Some (extrapolate2v receiver (NewMapRelation2 cxz))) None None
    (λ u o k w, rel_wf (cget cxz w) ∧ rel_abs (cget cxz w) = S ∧ ∃ t, is_joinV u S t ∧ T t w))
    as Hs.
  apply Hs; clear Hs.
  - intros u o k s w (? & ? & t & ? & ?). rw (indep (c:=cxyv) (f:=cget cxz)).
    split_and!; [done..|]. exists t. split; [done|]. by apply HT1.
  - split_and!.
    + split; intros; cbn; apply for_each_frame; intros; first [apply quiet_put|apply quiet_delete].
    + intros [x y] v u o k w _ (Hwf & Habs & Ht).
      destruct (extrapolate2v_put_step x y v u S w Hwf Habs Ht) as [Hc ?]. cbn in *. by rw Hc.
    + intros [x y] v v' u o k w _ (Hwf & Habs & Ht).
      destruct (extrapolate2v_put_step x y v' u S w Hwf Habs Ht) as [Hc ?]. cbn in *. by rw Hc.
    + intros [x y] v u o k w _ (Hwf & Habs & Ht).
      destruct (extrapolate2v_delete_step x y v u S w Hwf Habs Ht) as [Hc ?]. cbn in *. by rw Hc.
  - by intros u o k k' w.
  - by intros u o o' k w.
Qed.

Lemma xyv_visit x w :
  NoDup (genericFactoredMapIndex_Visit1to2 (MapMap_AsMutableMap None id_cell)
           (MapMap_AsMutableMap (Some (outerMapObserver None)) cxyv) x w).*1 ∧
  ∀ y v, (y, v) ∈ genericFactoredMapIndex_Visit1to2 (MapMap_AsMutableMap None id_cell)
           (MapMap_AsMutableMap (Some (outerMapObserver None)) cxyv) x w
         ↔ flatten PairFactorer id (cget cxyv w) !! (x, y) = Some v.
Proof.
  setoid_rewrite (lookup_flatten PairFactorer id (cget cxyv w)).
  unfold genericFactoredMapIndex_Visit1to2. cbn. unfold MapMap_Get, MapMap_Visit.
  destruct (cget cxyv w !! x) as [i|]; cbn.
  - split; [apply NoDup_map_range_fst|]. intros y v. apply elem_of_map_range.
  - split; [apply NoDup_nil_2|]. intros y v. by rw elem_of_nil.
Qed.

Lemma joinV_right_sim m :
  SetWriterSim (NewDynamicFullJoin12VWith13 cxyv cxz receiver).2 (λ S, joinV_in_step m S).
Proof.
  clear HT1.
  set (visit := genericFactoredMapIndex_Visit1to2 (MapMap_AsMutableMap None id_cell)
           (MapMap_AsMutableMap (Some (outerMapObserver None)) cxyv)).
  pose proof (relation2WithObservers_sim (NewMapRelation2 cxz) cxz rel_wf rel_abs
    [extrapolate1v receiver visit]
    (λ S w, ((∀ a i, cget cxyv w !! a = Some i → i ≠ ∅) ∧ flatten PairFactorer id (cget cxyv w) = m) ∧
            ∃ t, is_joinV m S t ∧ T t w)) as Hs.
  assert (SetWriterSim (NewDynamicFullJoin12VWith13 cxyv cxz receiver).2 (λ S w,
    rel_wf (cget cxz w) ∧ rel_abs (cget cxz w) = S ∧
    ((∀ a i, cget cxyv w !! a = Some i → i ≠ ∅) ∧ flatten PairFactorer id (cget cxyv w) = m) ∧
            ∃ t, is_joinV m S t ∧ T t w)) as Hs'.
  { apply Hs; clear Hs.
    - intros S r w w' Hu (? & t & Hj & HT). rw (Updated_indep cxz (cget cxyv) r w w' Hu _).
      split; [done|]. exists t. split; [done|]. by eapply HT2.
    - intros [x z] S w Hnew _ _ ((Hne & <-) & t & Hj & HT). cbn.
      destruct (xyv_visit x w) as [Hnd Hin]. fold visit in Hnd, Hin. split.
      + rw (for_each_frame (cget cxyv)); [|intros; apply quiet_put]. split; [done|].
        eexists. split; [|apply (sim_put_all receiver T (λ i, NewTriple x i.1 z) snd _ t w HT)].
        intros x' y z'. destruct (decide (x' = x ∧ z' = z)) as [[-> ->]|Hneq].
        * rw decide_True; [|set_solver].
          destruct (flatten PairFactorer id (cget cxyv w) !! (x, y)) as [v|] eqn:Hv.
          -- apply lookup_foldl_insert_in.
             ++ rw -list_fmap_compose. rw (list_fmap_compose fst (λ y, NewTriple x y z)).
                by apply (NoDup_fmap (λ y, NewTriple x y z)).
             ++ apply list_elem_of_fmap. exists (y, v). split; [done|]. by apply Hin.
          -- rw lookup_foldl_insert_notin.
             ++ rw Hj. by destruct (decide _).
             ++ rw -list_fmap_compose list_elem_of_fmap. intros ([y' v] & [= <-] & Hy).
                apply Hin in Hy. by rw Hv in Hy.
        * rw lookup_foldl_insert_notin.
          -- rw Hj. apply decide_ext. set_solver.
          -- rw -list_fmap_compose list_elem_of_fmap. intros ([y' v] & [= -> _ ->] & _). tauto.
      + apply for_each_frame. intros. apply quiet_put.
    - intros [x z] S w Hold _ _ ((Hne & <-) & t & Hj & HT). cbn.
      destruct (xyv_visit x w) as [Hnd Hin]. fold visit in Hnd, Hin. split.
      + rw (for_each_frame (cget cxyv)); [|intros; apply quiet_delete]. split; [done|].
        eexists. split; [|apply (sim_delete_all receiver T (λ i, NewTriple x i.1 z) _ t w HT)].
        intros x' y z'. rw lookup_foldl_delete Hj.
        destruct (decide (NewTriple x' y z' ∈ _)) as [Hi|Hn].
        * apply list_elem_of_fmap in Hi as ([y' v] & [= -> _ ->] & _). rw decide_False //. set_solver.
        * destruct (decide (x' = x ∧ z' = z)) as [[-> ->]|Hneq].
          -- rw (decide_False (P:=(x, z) ∈ S ∖ {[(x, z)]})); [|set_solver]. rw decide_True //.
             destruct (flatten PairFactorer id (cget cxyv w) !! (x, y)) as [v|] eqn:Hv; [|done].
             destruct Hn. apply list_elem_of_fmap. exists (y, v). split; [done|]. by apply Hin.
          -- apply decide_ext. set_solver.
      + apply for_each_frame. intros. apply quiet_delete. }
  unfold joinV_in_step. split.
  - intros e S w (? & ? & ? & ? & Ht).
    destruct (sim_add (SetWriterSim:=Hs') e S w) as (? & ? & [??] & ?); [by split_and!|]. by split_and!.
  - intros e S w (? & ? & ? & ? & Ht).
    destruct (sim_remove (SetWriterSim:=Hs') e S w) as (? & ? & [??] & ?); [by split_and!|]. by split_and!.
Qed.
End join_v_facts.

(** * Footprints of the projectors and of the joins *)

Section projector_quiet.
Context {W Whole A B VS X : Type}.
Context (factoring : Factorer Whole A B) (factory : A → VS) (vset : MutableSet VS B)
  (rep : MutableMap W A VS) (f : W → X).

Lemma genericIndexedSet_quiet :
  QuietMR rep f → (∀ k v w, f (mm_Mutate rep k v w) = f w) →
  QuietSW (NewGenericIndexedSet factoring factory vset rep) f.
Proof.
  intros Hq Hm. split; intros e w; simpl.
  - unfold genericIndexedSet_Add. destruct (Factorer_Factor factoring e) as [key val].
    destruct (map_Get rep key w) as [vs|]; destruct (sw_Add vset val _); simpl; rw Hm //.
    apply quiet_put.
  - unfold genericIndexedSet_Remove. destruct (Factorer_Factor factoring e) as [key val].
    destruct (map_Get rep key w) as [vs|]; [|done].
    destruct (sw_Remove vset val vs) as [[] vs']; simpl; [|apply Hm].
    destruct (set_IsEmpty vset vs'); simpl; rw ?quiet_delete; apply Hm.
Qed.
End projector_quiet.

Section rep_quiet.
Context {W K V X : Type} (f : W → X).

Lemma MapMap_quiet `{MapRange} `{Countable K} obs (c : Cell W (gmap K V)) `{Hi : !Indep c f} :
  (∀ o, obs = Some o → QuietMCR o f) → QuietMR (MapMap_AsMutableMap obs c) f.
Proof.
  intros Hq. split.
  - intros k v w. simpl. unfold MapMap_Put. destruct obs as [o|]; [|apply Hi].
    specialize (Hq o eq_refl). destruct (cget c w !! k); rw ?quiet_update ?quiet_create; apply Hi.
  - intros k w. simpl. unfold MapMap_Delete. destruct (cget c w !! k); [|done].
    destruct obs as [o|]; [|apply Hi]. specialize (Hq o eq_refl). rw quiet_final. apply Hi.
Qed.

Lemma hashMap_quiet (d : HashDomain K) obs (c : Cell W (buckets K V)) `{Hi : !Indep c f} :
  (∀ o, obs = Some o → QuietMCR o f) → QuietMR (hashMap_AsMutableMap d obs c) f.
Proof.
  intros Hq. split.
  - intros k v w. simpl. unfold hashMap_Put. cbv zeta.
    destruct (hashMap_seek d k (cget c w)) as [[b i] []].
    + destruct obs as [o|]; [|apply Hi]. specialize (Hq o eq_refl).
      destruct (snd <$> _); rw ?quiet_update; apply Hi.
    + destruct obs as [o|]; [|apply Hi]. specialize (Hq o eq_refl). rw quiet_create. apply Hi.
  - intros k w. simpl. unfold hashMap_Delete. cbv zeta.
    destruct (hashMap_seek d k (cget c w)) as [[b i] []]; simpl; [|done].
    destruct obs as [o|]; [|apply Hi]. specialize (Hq o eq_refl).
    destruct (snd <$> _); rw ?quiet_final; apply Hi.
Qed.

Lemma hashMap_Mutate_quiet (d : HashDomain K) obs (c : Cell W (buckets K V)) `{Hi : !Indep c f} k v w :
  f (mm_Mutate (hashMap_AsMutableMap d obs c) k v w) = f w.
Proof.
  simpl. unfold hashMap_Mutate. cbv zeta.
  destruct (hashMap_seek d k (cget c w)) as [[b i] []]; [apply Hi|done].
Qed.
End rep_quiet.

#[export] Instance MapKeySetReceiver_quiet {W K V X} (sw : SetWriter W K) (f : W → X) :
  QuietSW sw f → QuietMCR (MapKeySetReceiver (Val:=V) sw) f.
Proof. intros Hq. split; intros; simpl; [apply Hq|done|apply Hq]. Qed.

#[export] Instance projectorByMapMap_quiet `{MapRange} {W Whole A B X} `{Countable A, Countable B}
  (fac : Factorer Whole A B) (sw : SetWriter W A) c (f : W → X) `{!Indep c f, !QuietSW sw f} :
  QuietSW (NewSetChangeProjectorByMapMap fac sw c) f.
Proof.
  apply genericIndexedSet_quiet; [|intros; apply indep].
  apply MapMap_quiet; [done|]. intros o [= <-]. apply _.
Qed.

#[export] Instance projectorByHashMap_quiet {W Whole A B X} (fac : Factorer Whole A B)
  (sw : SetWriter W A) dA dB c (f : W → X) `{!Indep c f, !QuietSW sw f} :
  QuietSW (NewSetChangeProjectorByHashMap fac sw dA dB c) f.
Proof.
  apply genericIndexedSet_quiet; [|intros; by apply hashMap_Mutate_quiet].
  apply hashMap_quiet; [done|]. intros o [= <-]. apply _.
Qed.

(** * Interleaved changes of two inputs *)

Definition run_either {A B W} (f : A → W → W) (g : B → W → W) (op : A + B) : W → W :=
  match op with inl a => f a | inr b => g b end.

Definition spec_either {A B S1 S2} (f : A → S1 → S1) (g : B → S2 → S2) (op : A + B)
  (s : S1 * S2) : S1 * S2 :=
  match op with inl a => (f a s.1, s.2) | inr b => (s.1, g b s.2) end.

Lemma run_either_sim {A B W S1 S2} (f : A → W → W) (g : B → W → W) (f' : A → S1 → S1)
  (g' : B → S2 → S2) (J : S1 → S2 → W → Prop) :
  (∀ a s1 s2 w, J s1 s2 w → J (f' a s1) s2 (f a w)) →
  (∀ b s1 s2 w, J s1 s2 w → J s1 (g' b s2) (g b w)) →
  ∀ ops s1 s2 w, J s1 s2 w →
    let s := for_each ops (spec_either f' g') (s1, s2) in
    J s.1 s.2 (for_each ops (run_either f g) w).
Proof.
  intros Hf Hg ops. induction ops as [|[a|b] ops IH]; intros s1 s2 w HJ; [done|..];
    rw !for_each_cons; apply IH; cbn; auto.
Qed.

Lemma run_set_op_sim {W E} `{Countable E} (sw : SetWriter W E) T :
  SetWriterSim sw T → ∀ op X w, T X w → T (spec_set_op op X) (run_set_op sw op w).
Proof. intros Hs op X w. by apply (run_set_ops_sim sw T [op]). Qed.

Lemma run_op_sim {W K V} `{Countable K} (mr : MappingReceiver W K V) T :
  MappingReceiverSim mr T → ∀ op m w, T m w → T (spec_op op m) (run_op mr op w).
Proof. intros Hs op m w. by apply (run_ops_sim mr T [op]). Qed.

(** A receiver that keeps a set, seen as the target of a simulation. *)
Lemma told_updated {W R E} `{Countable E} (c : Cell W R) (inv : W → Prop) (abs : W → gset E)
  `{!Indep c inv, !Indep c abs} t r w w' :
  Updated c r w w' → inv w ∧ abs w = t → inv w' ∧ abs w' = t.
Proof. intros Hu. by rw !(Updated_indep _ _ _ _ _ Hu _). Qed.

(** ** Runs of the joins *)

Section empty_hash_relation.
Context {A B : Type} `{Countable A, Countable B} (dA : HashDomain A) (dB : HashDomain B)
  `{!HashDomainOk dA, !HashDomainOk dB}.

Lemma hashRelation_empty_wf :
  indexed_wf (hashMap_wf dB) (λ hm : buckets B Empty, dom (hashMap_abs hm)) (hashMap_wf dA)
    hashMap_abs (emptyBuckets : HashRelation2Rep A B).
Proof.
  split; [by apply (hashMap_wf_empty dA)|]. intros k vs. by rw hashMap_abs_empty lookup_empty.
Qed.

Lemma hashRelation_empty_abs {Whole} `{Countable Whole} (fac : Factorer Whole A B) :
  indexed_abs fac (λ hm : buckets B Empty, dom (hashMap_abs hm)) hashMap_abs
    (emptyBuckets : HashRelation2Rep A B) = ∅.
Proof. unfold indexed_abs, index_tuples. by rw hashMap_abs_empty map_to_list_empty. Qed.
End empty_hash_relation.

Section full_joins.
Context {W X Y Z : Type} `{Countable X, Countable Y, Countable Z}.
Context (receiver : SetWriter W (Triple X Y Z)) (inv : W → Prop) (told : W → gset (Triple X Y Z))
  `{Hrec : !SetWriterOk receiver inv told}.

Section assembly.
Context {R1 R2 : Type} (cxy : Cell W R1) (cxz : Cell W R2).
Context `{!Indep cxy (cget cxz), !Indep cxz (cget cxy)} `{!QuietSW receiver (cget cxy)}
  `{!QuietSW receiver (cget cxz)} `{!Indep cxy inv, !Indep cxy told, !Indep cxz inv, !Indep cxz told}.
Context (xy : MutableRelation2 W X Y) (xz : MutableRelation2 W X Z) (wf1 : R1 → Prop)
  (wf2 : R2 → Prop) (abs1 : R1 → gset (X * Y)) (abs2 : R2 → gset (X * Z))
  `{!MutableRelation2Ok xy cxy wf1 abs1, !MutableRelation2Ok xz cxz wf2 abs2}.

Lemma dynamicJoin_run ops w :
  wf1 (cget cxy w) → abs1 (cget cxy w) = ∅ → wf2 (cget cxz w) → abs2 (cget cxz w) = ∅ →
  inv w → told w = ∅ →
  let join := dynamicJoin12with13 xy xz receiver in
  let w' := for_each ops (run_either (run_set_op join.1) (run_set_op join.2)) w in
  let spec := for_each ops (spec_either spec_set_op spec_set_op) (∅, ∅) in
  inv w' ∧ is_join spec.1 spec.2 (told w').
Proof.
  intros Hw1 Ha1 Hw2 Ha2 Hi Ht. cbv zeta.
  set (T := λ t w, inv w ∧ told w = t).
  set (J := join_in_step cxy wf1 abs1 cxz wf2 abs2 T).
  assert (∀ t r w w', Updated cxy r w w' → T t w → T t w') as HT1
    by (intros t r w0 w1 ?; by apply (told_updated cxy inv told t r)).
  assert (∀ t r w w', Updated cxz r w w' → T t w → T t w') as HT2
    by (intros t r w0 w1 ?; by apply (told_updated cxz inv told t r)).
  assert (∀ e t w, e ∉ t → T t w → T ({[e]} ∪ t) (sw_Add receiver e w).2) as Hadd.
  { intros e t w0 _ [? <-]. by apply sw_add_ok. }
  assert (∀ e t w, e ∈ t → T t w → T (t ∖ {[e]}) (sw_Remove receiver e w).2) as Hrem.
  { intros e t w0 _ [? <-]. by apply sw_remove_ok. }
  destruct (run_either_sim (run_set_op (dynamicJoin12with13 xy xz receiver).1)
    (run_set_op (dynamicJoin12with13 xy xz receiver).2) spec_set_op spec_set_op J) with
    (ops := ops) (s1 := ∅ : gset (X * Y)) (s2 := ∅ : gset (X * Z)) (w := w)
    as (_ & _ & _ & _ & t & Hj & Hi' & <-); [| | |done].
  - intros op s1 s2. apply (run_set_op_sim _ (λ S1, J S1 s2)). by apply join_left_sim.
  - intros op s1. apply (run_set_op_sim _ (J s1)). by apply join_right_sim.
  - split_and!; [done..|]. exists ∅. split; [|done]. intros x y z. set_solver.
Qed.
End assembly.

(** The map-based dynamic join maintains the equijoin: whatever the
    interleaving of additions and removals at its two inputs, starting from empty
    relations, what its receiver was told is exactly the set of triples
    [(x, y, z)] with [(x, y)] in the first and [(x, z)] in the second input. *)
Theorem DynamicFullJoin_maintains_join `{MapRange} (cxy : Cell W (MapRelation2Rep X Y))
  (cxz : Cell W (MapRelation2Rep X Z)) `{!CellOk cxy, !CellOk cxz}
  `{!Indep cxy (cget cxz), !Indep cxz (cget cxy)} `{!QuietSW receiver (cget cxy)}
  `{!QuietSW receiver (cget cxz)} `{!Indep cxy inv, !Indep cxy told, !Indep cxz inv, !Indep cxz told}
  ops w :
  cget cxy w = ∅ → cget cxz w = ∅ → inv w → told w = ∅ →
  let join := NewDynamicFullJoin12with13 cxy cxz receiver in
  let w' := for_each ops (run_either (run_set_op join.1) (run_set_op join.2)) w in
  let spec := for_each ops (spec_either spec_set_op spec_set_op) (∅, ∅) in
  is_join spec.1 spec.2 (told w').
Proof.
  intros Hxy Hxz Hi Ht. apply (dynamicJoin_run cxy cxz (NewMapRelation2 cxy) (NewMapRelation2 cxz)
    _ _ _ _ ops w); rw ?Hxy ?Hxz //; (split; [done|]); intros k vs; by rw lookup_empty.
Qed.

(** The same of the join over hash maps, for hash domains whose equality is
    the equality of the values and whose hash is a function of the value. *)
Theorem DynamicFullJoinParametric_maintains_join (dX : HashDomain X) (dY : HashDomain Y)
  (dZ : HashDomain Z) `{!HashDomainOk dX, !HashDomainOk dY, !HashDomainOk dZ}
  (cxy : Cell W (HashRelation2Rep X Y)) (cxz : Cell W (HashRelation2Rep X Z))
  `{!CellOk cxy, !CellOk cxz}
  `{!Indep cxy (cget cxz), !Indep cxz (cget cxy)} `{!QuietSW receiver (cget cxy)}
  `{!QuietSW receiver (cget cxz)} `{!Indep cxy inv, !Indep cxy told, !Indep cxz inv, !Indep cxz told}
  ops w :
  cget cxy w = emptyBuckets → cget cxz w = emptyBuckets → inv w → told w = ∅ →
  let join := NewDynamicFullJoin12with13Parametric dX dY dZ cxy cxz receiver in
  let w' := for_each ops (run_either (run_set_op join.1) (run_set_op join.2)) w in
  let spec := for_each ops (spec_either spec_set_op spec_set_op) (∅, ∅) in
  is_join spec.1 spec.2 (told w').
Proof.
  intros Hxy Hxz Hi Ht.
  apply (dynamicJoin_run cxy cxz (NewHashRelation2 dX dY cxy) (NewHashRelation2 dX dZ cxz)
    _ _ _ _ ops w); rw ?Hxy ?Hxz //; by apply hashRelation_empty_wf.
Qed.
End full_joins.

(** C25: the dynamic join of a map with a relation maintains the join: after any
    interleaving of [Put] and [Delete] calls at the first input and of [Add] and
    [Remove] calls at the second, the receiver has at [(x, y, z)] the value of
    [(x, y)] in the first input if [(x, z)] is in the second, and nothing
    otherwise. *)
Theorem DynamicFullJoin12V_maintains_join `{MapRange} {W X Y Z V}
  `{Countable X, Countable Y, Countable Z} (cxyv : Cell W (gmap X (gmap Y V)))
  (cxz : Cell W (MapRelation2Rep X Z)) (receiver : MappingReceiver W (Triple X Y Z) V)
  (inv : W → Prop) (told : W → gmap (Triple X Y Z) V) `{!MappingReceiverOk receiver inv told}
  `{!CellOk cxyv, !CellOk cxz, !Indep cxyv (cget cxz), !Indep cxz (cget cxyv)}
  `{!QuietMR receiver (cget cxyv), !QuietMR receiver (cget cxz)}
  `{!Indep cxyv inv, !Indep cxyv told, !Indep cxz inv, !Indep cxz told} ops w :
  cget cxyv w = ∅ → cget cxz w = ∅ → inv w → told w = ∅ →
  let join := NewDynamicFullJoin12VWith13 cxyv cxz receiver in
  let w' := for_each ops (run_either (run_op join.1) (run_set_op join.2)) w in
  let spec := for_each ops (spec_either spec_op spec_set_op) (∅, ∅) in
  ∀ x y z, told w' !! NewTriple x y z
           = if decide ((x, z) ∈ spec.2) then spec.1 !! (x, y) else None.
Proof.
  intros Hxy Hxz Hi Ht. cbv zeta. set (T := λ t w, inv w ∧ told w = t).
  assert (MappingReceiverSim receiver T) as Hsim by by apply MappingReceiverOk_sim.
  set (J := joinV_in_step cxyv cxz T).
  assert (∀ t s w, T t w → T t (cset cxyv s w)) as HT1
    by (intros t s w0 [??]; split; by rw indep).
  assert (∀ t r w w', Updated cxz r w w' → T t w → T t w') as HT2.
  { intros t r w0 w1 Hu [??]. split; by rw (Updated_indep _ _ _ _ _ Hu _). }
  destruct (run_either_sim (run_op (NewDynamicFullJoin12VWith13 cxyv cxz receiver).1)
    (run_set_op (NewDynamicFullJoin12VWith13 cxyv cxz receiver).2) spec_op spec_set_op J) with
    (ops := ops) (s1 := ∅ : gmap (X * Y) V) (s2 := ∅ : gset (X * Z)) (w := w)
    as (_ & _ & _ & _ & t & Hj & _ & ->); [| | |exact Hj].
  - intros op m S. apply (run_op_sim _ (λ m, J m S)). by apply joinV_left_sim.
  - intros op m. apply (run_set_op_sim _ (J m)). by apply joinV_right_sim.
  - unfold J, joinV_in_step. rw Hxy Hxz. split_and!.
    + intros a i. by rw lookup_empty.
    + apply flatten_empty.
    + split; [done|]. intros k vs. by rw lookup_empty.
    + done.
    + exists ∅. split; [|done]. intros x y z. rw !lookup_empty. by destruct (decide _).
Qed.

(** The dynamic join without its first column: whatever the interleaving of
    changes at the two inputs, the receiver was told of exactly the pairs
    [(y, z)] for which some [x] is related to both. *)
Theorem DynamicJoin_maintains_composition `{MapRange} {W X Y Z}
  `{Countable X, Countable Y, Countable Z} (cxy : Cell W (MapRelation2Rep X Y))
  (cxz : Cell W (MapRelation2Rep X Z)) (cindex : Cell W (gmap (Y * Z) (MapSet X)))
  (receiver : SetWriter W (Y * Z)) (inv : W → Prop) (told : W → gset (Y * Z))
  `{!SetWriterOk receiver inv told, !CellOk cxy, !CellOk cxz, !CellOk cindex}
  `{!Indep cxy (cget cxz), !Indep cxz (cget cxy), !Indep cxy (cget cindex)}
  `{!Indep cxz (cget cindex), !Indep cindex (cget cxy), !Indep cindex (cget cxz)}
  `{!QuietSW receiver (cget cxy), !QuietSW receiver (cget cxz), !QuietSW receiver (cget cindex)}
  `{!Indep cxy inv, !Indep cxy told, !Indep cxz inv, !Indep cxz told}
  `{!Indep cindex inv, !Indep cindex told} ops w :
  cget cxy w = ∅ → cget cxz w = ∅ → cget cindex w = ∅ → inv w → told w = ∅ →
  let join := NewDynamicJoin12with13 cxy cxz cindex receiver in
  let w' := for_each ops (run_either (run_set_op join.1) (run_set_op join.2)) w in
  let spec := for_each ops (spec_either spec_set_op spec_set_op) (∅, ∅) in
  ∀ y z, (y, z) ∈ told w' ↔ ∃ x, (x, y) ∈ spec.1 ∧ (x, z) ∈ spec.2.
Proof.
  intros Hxy Hxz Hc Hi Ht. cbv zeta.
  set (proj := NewSetChangeProjectorByMapMap TripleFactorerTo23and1 receiver cindex).
  set (T := λ S w, inv w ∧ told w = S).
  set (stored := λ w, indexed_abs TripleFactorerTo23and1 id id (cget cindex w)).
  set (P := projector_in_step TripleFactorerTo23and1 (λ _, True) id cindex (λ _, True) id T).
  assert (SetWriterSim proj P) as Hproj.
  { apply (projector_sim TripleFactorerTo23and1 (λ _, NewEmptyMapSet) (MapSet_AsMutableSet id_cell)
      (λ _, True) id (λ _, conj I eq_refl) receiver
      (MapMap_AsMutableMap (Some (MapKeySetReceiver receiver)) cindex)); [apply _..| | |].
    - intros S r w0 w1 Hu [??]. split; by rw (Updated_indep _ _ _ _ _ Hu _).
    - intros a S w0 _ [? <-]. by apply sw_add_ok.
    - intros a S w0 _ [? <-]. by apply sw_remove_ok. }
  assert (SetWriterOk proj (λ w, P (stored w) w) stored) as Hok.
  { split; intros e w0 HP.
    - pose proof (sim_add (SetWriterSim:=Hproj) e _ w0 HP) as HP'.
      assert (stored (sw_Add proj e w0).2 = {[e]} ∪ stored w0) as -> by apply HP'. done.
    - pose proof (sim_remove (SetWriterSim:=Hproj) e _ w0 HP) as HP'.
      assert (stored (sw_Remove proj e w0).2 = stored w0 ∖ {[e]}) as -> by apply HP'. done. }
  assert (∀ R (c : Cell W R), Indep c (cget cindex) → Indep c inv → Indep c told →
            Indep c stored ∧ Indep c (λ w, P (stored w) w)) as Hind.
  { intros R c Hc1 Hc2 Hc3. split; intros r w0; unfold stored, P, projector_in_step, T;
      by rw ?Hc1 ?Hc2 ?Hc3. }
  destruct (Hind _ cxy _ _ _), (Hind _ cxz _ _ _).
  destruct (dynamicJoin_run proj (λ w, P (stored w) w) stored cxy cxz (NewMapRelation2 cxy)
    (NewMapRelation2 cxz) _ _ _ _ ops w) as [Htold Hj];
    rw ?Hxy ?Hxz //.
  - unfold P, projector_in_step, stored, T. rw Hc Ht. split_and!; [|done..].
    split; [done|]. intros k vs. by rw lookup_empty.
  - unfold stored. by rw Hc.
  - intros y z. assert (∀ w, P (stored w) w → told w = projection TripleFactorerTo23and1 (stored w))
      as Htw by by intros w0 (_ & _ & _ & ?).
    rw Htw; [|by split_and!; apply Htold].
    unfold projection. rw elem_of_map. split.
    + intros ([x y' z'] & [= -> ->] & Hin). exists x. by apply Hj.
    + intros (x & ? & ?). exists (NewTriple x y z). split; [done|]. by apply Hj.
Qed.

(** * Correctness of the static joins *)

Lemma unobserved_MapMap_sim `{MapRange} {K V} `{Countable K} :
  MappingReceiverSim (MapMap_AsMutableMap None (@id_cell (gmap K V))) (λ m r, r = m).
Proof.
  split; [by intros k v m _ ->|]. intros k m _ ->. simpl. unfold MapMap_Delete. cbn.
  destruct (m !! k) eqn:Hk; [done|]. by rw delete_id.
Qed.

Section static_join_facts.
Context `{MapRange} {W X Y Z : Type} `{Countable X, Countable Y, Countable Z}.

Lemma nested_add_all {D : Type} (ans : SetWriter (MapRelation2Rep Y Z) (Y * Z)) wf abs
  `{!SetWriterOk ans wf abs} (outer : list D) (inner : D → list Z) (mk : D → Y) r :
  wf r →
  let r' := for_each outer (λ d r, for_each (inner d) (λ z r, (sw_Add ans (mk d, z) r).2) r) r in
  wf r' ∧ ∀ y z, (y, z) ∈ abs r' ↔ (y, z) ∈ abs r ∨ ∃ d, d ∈ outer ∧ mk d = y ∧ z ∈ inner d.
Proof.
  revert r. induction outer as [|d outer IH]; intros r Hwf.
  { split; [done|]. intros y z. split; [by left|]. by intros [?|(d & Hd%elem_of_nil & _)]. }
  cbv zeta. rw for_each_cons. pose proof (sw_add_all ans wf abs (pair (mk d) <$> inner d) r Hwf) as Hadd.
  rw !for_each_fmap in Hadd. destruct Hadd as [Hwf1 Habs1].
  destruct (IH _ Hwf1) as [Hwf2 Habs2]. split; [done|]. intros y z. rw Habs2 Habs1.
  rw elem_of_union elem_of_list_to_set list_elem_of_fmap. setoid_rewrite elem_of_cons. split.
  - intros [[(z' & [= -> ->] & ?)|?]|(d' & ? & ? & ?)]; [right; exists d; tauto|by left|].
    right. exists d'. tauto.
  - intros [?|(d' & [->|?] & <- & ?)]; [tauto| |right; by exists d'].
    left. left. by exists z.
Qed.

(** the static equijoin of two relations returns the relation of exactly the
    [(y, z)] for which some [x] is paired with [y] on the left and with [z] on the
    right. *)
Theorem Relation2Equijoin12with13_correct {R1 R2} (left : MutableRelation2 W X Y)
  (right : MutableRelation2 W X Z) (c1 : Cell W R1) (c2 : Cell W R2) wf1 wf2 abs1 abs2
  `{HL : !MutableRelation2Ok left c1 wf1 abs1, HR : !MutableRelation2Ok right c2 wf2 abs2} w :
  wf1 (cget c1 w) → wf2 (cget c2 w) →
  ∀ y z, set_Has (NewMapRelation2 id_cell) (y, z) (Relation2Equijoin12with13 left right w) = true
         ↔ ∃ x, (x, y) ∈ abs1 (cget c1 w) ∧ (x, z) ∈ abs2 (cget c2 w).
Proof.
  intros Hw1 Hw2 y z. set (wf := indexed_wf (λ _, True) id (λ _, True) id : MapRelation2Rep Y Z → Prop).
  set (abs := indexed_abs PairFactorer id id : MapRelation2Rep Y Z → gset (Y * Z)).
  pose proof (NewMapRelation2_ok id_cell : MutableRelation2Ok _ id_cell wf abs) as Hrok.
  pose proof (rel_set_ok (MutableRelation2Ok:=Hrok)) as Hrel.
  pose proof (MutableSetOk_writer _ id_cell wf abs Hrel) as Hsw.
  destruct (nested_add_all (NewMapRelation2 id_cell) wf abs (set_Visit left w)
    (λ xy, rel_Visit1to2 right xy.1 w) snd ∅) as [Hwf Habs].
  { split; [done|]. intros k vs. by rw lookup_empty. }
  fold (Relation2Equijoin12with13 left right w) in Hwf, Habs.
  rw (set_Has_ok (GoSetOk:=ms_set_ok (MutableSetOk:=Hrel)) (y, z) _ Hwf) bool_decide_eq_true.
  change (cget id_cell ?r) with r. rw Habs. split.
  - intros [Hn|([x y'] & Hl & <- & Hr)]; [by rw [abs _]/(∅ : gset (Y * Z)) in Hn|].
    exists x. split.
    + apply elem_of_elements. by rw -(set_Visit_ok (GoSetOk:=ms_set_ok (MutableSetOk:=rel_set_ok (MutableRelation2Ok:=HL))) w Hw1).
    + by apply (rel_visit_ok (MutableRelation2Ok:=HR)).
  - intros (x & Hl & Hr). right. exists (x, y). split_and!; [|done|].
    + rw (set_Visit_ok (GoSetOk:=ms_set_ok (MutableSetOk:=rel_set_ok (MutableRelation2Ok:=HL))) w Hw1).
      by apply elem_of_elements.
    + by apply (rel_visit_ok (MutableRelation2Ok:=HR)).
Qed.

(** The static join of a map on pairs with a relation on its second column
    has at [(x, y, z)] the value of [(x, y)] if [y] is related to [z], and nothing
    otherwise. *)
Theorem Map12VEquijoinRelation13_correct {V R2} (left : GoMap W (X * Y) V)
  (right : MutableRelation2 W Y Z) (c2 : Cell W R2) wf1 abs1 wf2 abs2
  `{HL : !GoMapOk left wf1 abs1, HR : !MutableRelation2Ok right c2 wf2 abs2} w :
  wf1 w → wf2 (cget c2 w) →
  ∀ x y z, Map12VEquijoinRelation13 left right w !! NewTriple x y z
           = if decide ((y, z) ∈ abs2 (cget c2 w)) then abs1 w !! (x, y) else None.
Proof.
  intros Hw1 Hw2 x y z. unfold Map12VEquijoinRelation13. set (ans := MapMap_AsMutableMap None id_cell).
  set (I := λ (seen : list (X * Y * V)) (r : gmap (Triple X Y Z) V), ∀ x y z v,
    r !! NewTriple x y z = Some v ↔ ((x, y), v) ∈ seen ∧ (y, z) ∈ abs2 (cget c2 w)).
  assert (∀ p v, (p, v) ∈ map_Visit left w ↔ abs1 w !! p = Some v) as Hl.
  { intros p v. rw (map_Visit_ok (GoMapOk:=HL) w Hw1). apply elem_of_map_to_list. }
  match goal with |- for_each ?l ?f ?s !! _ = _ => assert (I l (for_each l f s)) as HI end.
  - apply (for_each_ind I).
    { intros x' y' z' v. rw lookup_empty elem_of_nil. naive_solver. }
    intros seen [[a b] v] todo r Heq HI x' y' z' v'. cbn [fst snd].
    set (zs := rel_Visit1to2 right b w).
    assert (∀ z, z ∈ zs ↔ (b, z) ∈ abs2 (cget c2 w)) as Hzs
      by (intros; by apply (rel_visit_ok (MutableRelation2Ok:=HR))).
    assert (∀ v0, ((a, b), v0) ∉ seen) as Hfresh.
    { intros v0 Hin. assert (NoDup (map_Visit left w).*1) as Hnd
        by (rw (map_Visit_ok (GoMapOk:=HL) w Hw1); apply NoDup_fst_map_to_list).
      rw Heq fmap_app in Hnd. apply NoDup_app in Hnd as (_ & Hnd & _).
      apply (Hnd (a, b)); [apply list_elem_of_fmap; by exists ((a, b), v0)|left]. }
    pose proof (@unobserved_MapMap_sim _ (Triple X Y Z) V _ _) as Hans.
    rw (sim_put_all ans (λ m r, r = m) (NewTriple a b) (λ _, v) zs r r eq_refl).
    rw elem_of_app list_elem_of_singleton.
    destruct (decide (NewTriple x' y' z' ∈ NewTriple a b <$> zs)) as [Hin|Hn].
    + pose proof Hin as (z0 & [= -> -> ->] & Hz)%list_elem_of_fmap.
      rw (lookup_foldl_insert_in _ r _ v).
      * rw -Hzs. naive_solver.
      * rw -list_fmap_compose. apply (NoDup_fmap (NewTriple a b)).
        by apply (rel_visit_NoDup (MutableRelation2Ok:=HR)).
      * apply list_elem_of_fmap. by exists z0.
    + rw lookup_foldl_insert_notin; [|by rw -list_fmap_compose]. rw HI. split; [tauto|].
      intros [[?|[= -> -> ->]] ?]; [done|]. destruct Hn. apply list_elem_of_fmap. exists z'.
      split; [done|]. by apply Hzs.
  - apply option_eq. intros v. rw HI Hl. destruct (decide _); naive_solver.
Qed.
End static_join_facts.

(** * Footprints of the joins *)

Section join_quiet.
Context {W X : Type} (f : W → X).

Lemma Relation2WithObservers_quiet {A B} (inner : MutableRelation2 W A B) observers :
  QuietSW inner f → (∀ o, o ∈ observers → QuietSW o f) →
  QuietSW (Relation2WithObservers inner observers) f.
Proof.
  intros Hin Hobs.
  assert (∀ (op : SetWriter W (A * B) → W → W) w, (∀ o w, o ∈ observers → f (op o w) = f w) →
    f (for_each observers op w) = f w) as Hloop.
  { intros op. clear Hobs. induction observers as [|o l IH]; intros w Hop; [done|].
    rw for_each_cons IH; [apply Hop; left|]. intros o' w' Ho'. apply Hop. by right. }
  split; intros e w; simpl.
  - unfold relation2WithObservers_Add. pose proof (quiet_add (f:=f) e w) as Hq.
    destruct (sw_Add inner e w) as [[] w1]; [|done]. simpl in *. rw Hloop //.
    intros o w' Ho. by apply (Hobs o Ho).
  - unfold relation2WithObservers_Remove. pose proof (quiet_remove (f:=f) e w) as Hq.
    destruct (sw_Remove inner e w) as [[] w1]; [|done]. simpl in *. rw Hloop //.
    intros o w' Ho. by apply (Hobs o Ho).
Qed.

#[export] Instance NewMapRelation2_quiet `{MapRange} {A B} `{Countable A, Countable B}
  (c : Cell W (MapRelation2Rep A B)) : Indep c f → QuietSW (NewMapRelation2 c) f.
Proof.
  intros Hi. apply genericIndexedSet_quiet; [|intros; apply Hi]. by apply MapMap_quiet.
Qed.

#[export] Instance NewHashRelation2_quiet {A B} (dA : HashDomain A) (dB : HashDomain B)
  (c : Cell W (HashRelation2Rep A B)) : Indep c f → QuietSW (NewHashRelation2 dA dB c) f.
Proof.
  intros Hi. apply genericIndexedSet_quiet; [|intros; by apply hashMap_Mutate_quiet].
  by apply hashMap_quiet.
Qed.

Lemma dynamicJoin_quiet {A B C} (xy : MutableRelation2 W A B) (xz : MutableRelation2 W A C) receiver :
  QuietSW xy f → QuietSW xz f → QuietSW receiver f →
  QuietSW (dynamicJoin12with13 xy xz receiver).1 f ∧ QuietSW (dynamicJoin12with13 xy xz receiver).2 f.
Proof.
  intros H1 H2 Hr. split; apply Relation2WithObservers_quiet; [done| |done|];
    intros o ->%list_elem_of_singleton; split; intros; cbn; apply for_each_frame; intros; apply Hr.
Qed.

Lemma NewFactoredMapMap_quiet `{MapRange} {Whole A B V} `{Countable A, Countable B}
  (kd : Factorer Whole A B) (o : MapChangeReceiver W Whole V) (c : Cell W (gmap A (gmap B V))) :
  Indep c f → QuietMCR o f → QuietMR (NewFactoredMapMap kd (Some o) None None c) f.
Proof.
  intros Hi Ho. split.
  - intros k v w. simpl. unfold genericFactoredMap_Put, unified_Create, unified_Update, outer_Put.
    simpl. unfold MapMap_Get. destruct (cget c w !! (rotFirst kd k).1) as [i|] eqn:Ha; cbn.
    + destruct (i !! (rotFirst kd k).2); cbn; rw ?quiet_update ?quiet_create; apply Hi.
    + rw quiet_create. unfold MapMap_Put. destruct (cget c w !! _); cbn; apply Hi.
  - intros k w. simpl. unfold genericFactoredMap_Delete, unified_DeleteWithFinal, outer_Put, outer_Delete.
    simpl. unfold MapMap_Get. destruct (cget c w !! (rotFirst kd k).1) as [i|] eqn:Ha; [|done]. cbn.
    destruct (i !! (rotFirst kd k).2) as [v|] eqn:Hb; [|done]. rw quiet_final.
    destruct (MapMap_IsEmpty id_cell _); cbn; [|apply Hi].
    unfold MapMap_Delete. repeat case_match; cbn; rw ?Hi; done.
Qed.

Lemma dynamicJoinV_quiet `{MapRange} {A B C V} `{Countable A, Countable B, Countable C}
  (cxyv : Cell W (gmap A (gmap B V))) (cxz : Cell W (MapRelation2Rep A C)) receiver :
  Indep cxyv f → Indep cxz f → QuietMR receiver f →
  QuietMR (NewDynamicFullJoin12VWith13 cxyv cxz receiver).1 f ∧
  QuietSW (NewDynamicFullJoin12VWith13 cxyv cxz receiver).2 f.
Proof.
  intros H1' H2' Hr. split.
  - apply NewFactoredMapMap_quiet; [done|].
    split; intros; cbn; apply for_each_frame; intros; apply Hr.
  - apply Relation2WithObservers_quiet; [by apply NewMapRelation2_quiet|].
    intros o ->%list_elem_of_singleton. split; intros; cbn; apply for_each_frame; intros; apply Hr.
Qed.
End join_quiet.
