(* ===== verification/RelayMap.v ===== *)
(** Relay maps and client trackers (relay-map.go, client-tracker.go).

    A relay map stores a map and forwards every change, with its values
    transformed, to a growing list of receivers.  A receiver is an interface
    value that the code compares for identity, so here it is an identifier of
    type [Id], interpreted by [receiver_of].  The mutex is held during each
    operation, so operations do not interleave. *)

From S2P Require Import Prelude Tuples Interfaces Maps.

Record relayMap (Key OuterVal Id : Type) `{Countable Key} : Type := MkRelayMap {
  rm_theMap : gmap Key OuterVal;
  rm_receivers : list Id
}.
Arguments MkRelayMap {_ _ _ _ _} _ _.
Arguments rm_theMap {_ _ _ _ _} _.
Arguments rm_receivers {_ _ _ _ _} _.

Section relay_map.
Context `{MapRange} {W Key OuterVal InnerVal Id : Type} `{Countable Key, EqDecision Id}.
(** [zero] is Go's zero value of type [OuterVal], the result of indexing a map
    with an absent key. *)
Context (dedupReceivers : bool) (transform : OuterVal → InnerVal) (zero : OuterVal).
Context (receiver_of : Id → MappingReceiver W Key InnerVal) (c : Cell W (relayMap Key OuterVal Id)).

Definition NewRelayAndProjectMap : relayMap Key OuterVal Id := MkRelayMap ∅ [].

Definition relayMap_OuterGet (key : Key) (w : W) : OuterVal :=
  default zero (rm_theMap (cget c w) !! key).

Definition relayMap_Get {A} (key : Key) (kont : InnerVal → W → A) (w : W) : A :=
  kont (transform (relayMap_OuterGet key w)) w.

Definition relayMap_notify_delete (key : Key) (w : W) : W :=
  for_each (rm_receivers (cget c w)) (λ i w, mr_Delete (receiver_of i) key w) w.

Definition relayMap_MaybeRelease (key : Key) (shouldRelease : InnerVal → bool) (w : W) : W :=
  let innerVal := transform (relayMap_OuterGet key w) in
  if negb (shouldRelease innerVal) then w
  else
    let rm := cget c w in
    let w := cset c (MkRelayMap (delete key (rm_theMap rm)) (rm_receivers rm)) w in
    relayMap_notify_delete key w.

Definition relayMap_AddReceiver (receiver : Id) (notifyCurrent : bool) (w : W) : W :=
  let rm := cget c w in
  if dedupReceivers && bool_decide (receiver ∈ rm_receivers rm) then w
  else
    let w := cset c (MkRelayMap (rm_theMap rm) (rm_receivers rm ++ [receiver])) w in
    if negb notifyCurrent then w
    else for_each (map_range (rm_theMap (cget c w)))
           (λ kv w, mr_Put (receiver_of receiver) kv.1 (transform kv.2) w) w.

Definition relayMap_Put (key : Key) (outerVal : OuterVal) (w : W) : W :=
  let innerVal := transform outerVal in
  let rm := cget c w in
  let w := cset c (MkRelayMap (<[key:=outerVal]> (rm_theMap rm)) (rm_receivers rm)) w in
  for_each (rm_receivers (cget c w)) (λ i w, mr_Put (receiver_of i) key innerVal w) w.

Definition relayMap_Delete (key : Key) (w : W) : W :=
  let rm := cget c w in
  let w := cset c (MkRelayMap (delete key (rm_theMap rm)) (rm_receivers rm)) w in
  relayMap_notify_delete key w.

Definition relayMap_Len (w : W) : nat := size (rm_theMap (cget c w)).

Definition relayMap_Remove (key : Key) (w : W) : W := relayMap_MaybeRelease key (λ _, true) w.

(** * Every receiver is in step *)

(** [known i w] is the map that the receiver [i] has been told. *)
Context (known : Id → W → gmap Key InnerVal).
Context `{!CellOk c} (Hind : ∀ i, Indep c (known i)).
Context (Hquiet : ∀ i, QuietMR (receiver_of i) (cget c)).
Context (Hput : ∀ i k v w, known i (mr_Put (receiver_of i) k v w) = <[k:=v]> (known i w)).
Context (Hdel : ∀ i k w, known i (mr_Delete (receiver_of i) k w) = delete k (known i w)).
Context (Hother : ∀ i j, i ≠ j → QuietMR (receiver_of i) (known j)).

(** The receivers that were added know the transformed map, the others nothing. *)
Definition relay_in_step (w : W) : Prop :=
  ∀ i, known i w = if decide (i ∈ rm_receivers (cget c w))
                   then transform <$> rm_theMap (cget c w) else ∅.

(** Telling the receivers in [l] something idempotent. *)
Lemma notify_all (l : list Id) (op : Id → W → W) (g : gmap Key InnerVal → gmap Key InnerVal) w :
  (∀ i w, known i (op i w) = g (known i w)) → (∀ m, g (g m) = g m) →
  (∀ i j w, i ≠ j → known j (op i w) = known j w) → (∀ i w, cget c (op i w) = cget c w) →
  cget c (for_each l op w) = cget c w ∧
  ∀ i, known i (for_each l op w) = if decide (i ∈ l) then g (known i w) else known i w.
Proof.
  clear Hind Hquiet Hput Hdel Hother. intros Hop Hid Hoth Hc.
  split; [by apply for_each_frame|]. intros i. revert w.
  induction l as [|j l IH]; intros w; [done|]. rw for_each_cons IH.
  destruct (decide (j = i)) as [->|Hne].
  - rw Hop Hid (decide_True (P:=i ∈ i :: l)); [|set_solver]. by destruct (decide _).
  - rw Hoth //. apply decide_ext. set_solver.
Qed.

Lemma relay_put_step key v w :
  relay_in_step w →
  let w' := relayMap_Put key v w in
  relay_in_step w' ∧ cget c w' = MkRelayMap (<[key:=v]> (rm_theMap (cget c w))) (rm_receivers (cget c w)).
Proof.
  intros Hw. cbv zeta. unfold relayMap_Put. rw cget_cset. cbn.
  set (w1 := cset c _ w).
  destruct (notify_all (rm_receivers (cget c w)) (λ i, mr_Put (receiver_of i) key (transform v))
    (λ m, <[key:=transform v]> m) w1) as [Hc Hk].
  { intros. apply Hput. } { intros m. apply insert_insert_eq. }
  { intros i j w0 Hij. by apply Hother. } { intros. apply quiet_put. }
  rw cget_cset in Hc. unfold relay_in_step. rw Hc. cbn. split; [|done].
  intros i. rw Hk fmap_insert. unfold w1. rw indep Hw. by destruct (decide _).
Qed.

Lemma relay_delete_step key w :
  relay_in_step w →
  let w' := relayMap_Delete key w in
  relay_in_step w' ∧ cget c w' = MkRelayMap (delete key (rm_theMap (cget c w))) (rm_receivers (cget c w)).
Proof.
  intros Hw. cbv zeta. unfold relayMap_Delete, relayMap_notify_delete. rw cget_cset. cbn.
  set (w1 := cset c _ w).
  destruct (notify_all (rm_receivers (cget c w)) (λ i, mr_Delete (receiver_of i) key)
    (λ m, delete key m) w1) as [Hc Hk].
  { intros. apply Hdel. } { intros m. apply delete_delete_eq. }
  { intros i j w0 Hij. by apply Hother. } { intros. apply quiet_delete. }
  rw cget_cset in Hc. unfold relay_in_step. rw Hc. cbn. split; [|done].
  intros i. rw Hk fmap_delete. unfold w1. rw indep Hw. by destruct (decide _).
Qed.

(** Telling one receiver the whole map. *)
Lemma tell_current i (l : list (Key * OuterVal)) w :
  let w' := for_each l (λ kv w, mr_Put (receiver_of i) kv.1 (transform kv.2) w) w in
  cget c w' = cget c w ∧ (∀ j, j ≠ i → known j w' = known j w) ∧
  known i w' = foldl (λ m p, <[p.1:=p.2]> m) (known i w) (prod_map id transform <$> l).
Proof.
  clear Hind Hdel. cbv zeta. split_and!.
  - apply for_each_frame. intros. apply quiet_put.
  - intros j Hj. apply for_each_frame. intros. by apply Hother.
  - revert w. induction l as [|[k v] l IH]; intros w; [done|].
    rw for_each_cons IH Hput. done.
Qed.

Lemma relay_add_step i w :
  relay_in_step w →
  let w' := relayMap_AddReceiver i true w in
  relay_in_step w' ∧
  cget c w' = MkRelayMap (rm_theMap (cget c w))
    (if dedupReceivers && bool_decide (i ∈ rm_receivers (cget c w)) then rm_receivers (cget c w)
     else rm_receivers (cget c w) ++ [i]).
Proof.
  clear Hdel. intros Hw. cbv zeta. unfold relayMap_AddReceiver. destruct (_ && _) eqn:Hb.
  { split; [done|]. by destruct (cget c w). }
  cbn. set (m := rm_theMap (cget c w)). set (w1 := cset c _ w).
  assert (cget c w1 = MkRelayMap m (rm_receivers (cget c w) ++ [i])) as Hc1 by apply cget_cset.
  rw Hc1 /=. destruct (tell_current i (map_range m) w1) as (Hc & Hoth & Hk).
  set (w' := for_each _ _ w1) in *. rw Hc1 in Hc. split; [|done]. intros j. rw Hc /=.
  assert (∀ j, known j w1 = known j w) as Hkw by (intros j'; apply indep).
  destruct (decide (j = i)) as [->|Hji].
  - rw decide_True; [|set_solver]. rw Hk Hkw Hw. apply map_eq. intros k.
    destruct ((transform <$> m) !! k) as [v|] eqn:Hv.
    + apply lookup_foldl_insert_in.
      * rw -list_fmap_compose. apply NoDup_map_range_fst.
      * rw lookup_fmap in Hv. apply fmap_Some in Hv as (v0 & Hv0 & ->).
        apply list_elem_of_fmap. exists (k, v0). split; [done|]. by apply elem_of_map_range.
    + rw lookup_foldl_insert_notin; [by destruct (decide _)|].
      intros Hin. rw -list_fmap_compose in Hin.
      apply list_elem_of_fmap in Hin as ([k' v] & -> & Hin). apply elem_of_map_range in Hin.
      cbn in Hv. by rw lookup_fmap Hin in Hv.
  - rw Hoth // Hkw Hw. apply decide_ext. set_solver.
Qed.

(** ** Runs *)

Inductive RelayOp : Type :=
| RelayPut (key : Key) (val : OuterVal)
| RelayDelete (key : Key)
| RelayMaybeRelease (key : Key) (shouldRelease : InnerVal → bool)
| RelayRemove (key : Key)
| RelayAddReceiver (receiver : Id).

Definition run_relay_op (op : RelayOp) (w : W) : W :=
  match op with
  | RelayPut key val => relayMap_Put key val w
  | RelayDelete key => relayMap_Delete key w
  | RelayMaybeRelease key shouldRelease => relayMap_MaybeRelease key shouldRelease w
  | RelayRemove key => relayMap_Remove key w
  | RelayAddReceiver receiver => relayMap_AddReceiver receiver true w
  end.

(** What the operations should do to the map and to the list of receivers. *)
Definition spec_relay_op (op : RelayOp) (s : gmap Key OuterVal * list Id)
  : gmap Key OuterVal * list Id :=
  match op with
  | RelayPut key val => (<[key:=val]> s.1, s.2)
  | RelayDelete key | RelayRemove key => (delete key s.1, s.2)
  | RelayMaybeRelease key shouldRelease =>
      if shouldRelease (transform (default zero (s.1 !! key))) then (delete key s.1, s.2) else s
  | RelayAddReceiver receiver =>
      (s.1, if dedupReceivers && bool_decide (receiver ∈ s.2) then s.2 else s.2 ++ [receiver])
  end.

Lemma relay_op_step op w :
  relay_in_step w →
  let w' := run_relay_op op w in
  let s := spec_relay_op op (rm_theMap (cget c w), rm_receivers (cget c w)) in
  relay_in_step w' ∧ cget c w' = MkRelayMap s.1 s.2.
Proof.
  intros Hw. destruct op as [k v|k|k should|k|i]; cbn.
  - by apply relay_put_step.
  - by apply relay_delete_step.
  - unfold relayMap_MaybeRelease. fold (relayMap_OuterGet k w).
    change (default zero (rm_theMap (cget c w) !! k)) with (relayMap_OuterGet k w).
    destruct (should _); cbn; [by apply relay_delete_step|]. split; [done|]. by destruct (cget c w).
  - by apply (relay_delete_step k w).
  - by apply relay_add_step.
Qed.

(** A relay map with any number of receivers: after any sequence of
    operations on a fresh relay map, where receivers join at any time and ask for
    the current contents, the map and the list of receivers are what the
    operations call for, and each receiver that has joined knows exactly the
    transformed map. *)
Theorem relayMap_receivers_in_step ops w :
  cget c w = NewRelayAndProjectMap → (∀ i, known i w = ∅) →
  let w' := for_each ops run_relay_op w in
  let spec := for_each ops spec_relay_op (∅, []) in
  cget c w' = MkRelayMap spec.1 spec.2 ∧
  ∀ i, i ∈ spec.2 → known i w' = transform <$> spec.1.
Proof.
  intros Hc Hk. cbv zeta.
  assert (∀ s w, cget c w = MkRelayMap s.1 s.2 → relay_in_step w →
    let w' := for_each ops run_relay_op w in
    let spec := for_each ops spec_relay_op s in
    cget c w' = MkRelayMap spec.1 spec.2 ∧ relay_in_step w') as Hrun.
  { clear w Hc Hk. induction ops as [|op ops IH]; intros [m l] w Hc Hw; [done|].
    rw !for_each_cons. destruct (relay_op_step op w Hw) as [Hw' Hc']. rw Hc in Hc'. by apply IH. }
  destruct (Hrun (∅, []) w) as [Hc' Hw']; [done| |].
  { intros i. rw Hc Hk. by destruct (decide _). }
  split; [done|]. intros i Hi. by rw Hw' Hc' decide_True.
Qed.
End relay_map.

(** * Client trackers *)

(** A client, too, is an identifier. *)
Record ClientTracker (Provider Client : Type) `{Countable Client} : Type := MkClientTracker {
  ct_provider : Provider;
  ct_clients : gset Client
}.
Arguments MkClientTracker {_ _ _ _} _ _.
Arguments ct_provider {_ _ _ _} _.
Arguments ct_clients {_ _ _ _} _.

Section client_tracker.
Context `{MapRange} {W Provider Client : Type} `{Countable Client}.
Context (client_SetProvider : Client → Provider → W → W).
Context (c : Cell W (ClientTracker Provider Client)).

(** [zero] is the zero value of the type [Provider]. *)
Definition NewClientTracker (zero : Provider) : ClientTracker Provider Client :=
  MkClientTracker zero ∅.

Definition ClientTracker_IsEmpty (w : W) : bool := size (ct_clients (cget c w)) =? 0.

Definition ClientTracker_AddClient (client : Client) (w : W) : W :=
  let ct := cget c w in
  if bool_decide (client ∈ ct_clients ct) then w
  else
    let w := cset c (MkClientTracker (ct_provider ct) ({[client]} ∪ ct_clients ct)) w in
    client_SetProvider client (ct_provider (cget c w)) w.

Definition ClientTracker_RemoveClient (client : Client) (w : W) : bool * W :=
  let ct := cget c w in
  if negb (bool_decide (client ∈ ct_clients ct)) then (false, w)
  else
    let w := cset c (MkClientTracker (ct_provider ct) (ct_clients ct ∖ {[client]})) w in
    (size (ct_clients (cget c w)) =? 0, w).

Definition ClientTracker_SetProvider (provider : Provider) (w : W) : W :=
  let ct := cget c w in
  let w := cset c (MkClientTracker provider (ct_clients ct)) w in
  for_each (set_range (ct_clients (cget c w))) (λ client w, client_SetProvider client provider w) w.

(** [seen i w] is the provider that the client [i] was given last. *)
Context (seen : Client → W → option Provider) `{!CellOk c} (Hind : ∀ i, Indep c (seen i)).
Context (Hset : ∀ i p w, seen i (client_SetProvider i p w) = Some p).
Context (Hother : ∀ i j p w, i ≠ j → seen j (client_SetProvider i p w) = seen j w).
Context (Hframe : ∀ i p w, cget c (client_SetProvider i p w) = cget c w).

(** Every client has the current provider. *)
Definition tracker_in_step (w : W) : Prop :=
  ∀ i, i ∈ ct_clients (cget c w) → seen i w = Some (ct_provider (cget c w)).

Lemma set_provider_all (l : list Client) p w :
  let w' := for_each l (λ client w, client_SetProvider client p w) w in
  cget c w' = cget c w ∧ ∀ i, seen i w' = if decide (i ∈ l) then Some p else seen i w.
Proof.
  clear Hind. cbv zeta. split; [by apply for_each_frame|]. intros i. revert w.
  induction l as [|j l IH]; intros w; [done|]. rw for_each_cons IH.
  destruct (decide (j = i)) as [->|Hne].
  - rw Hset (decide_True (P:=i ∈ i :: l)); [|set_solver]. by destruct (decide _).
  - rw Hother //. apply decide_ext. set_solver.
Qed.

(** every operation of a client tracker keeps all its clients informed of the
    current provider; a client is added once, [RemoveClient] tells whether it
    removed the last client, and [SetProvider] keeps the clients. *)
Theorem ClientTracker_informs_clients w :
  tracker_in_step w →
  (∀ i, tracker_in_step (ClientTracker_AddClient i w) ∧
        ct_clients (cget c (ClientTracker_AddClient i w)) = {[i]} ∪ ct_clients (cget c w)) ∧
  (∀ i, let '(last, w') := ClientTracker_RemoveClient i w in
        tracker_in_step w' ∧ ct_clients (cget c w') = ct_clients (cget c w) ∖ {[i]} ∧
        (last = true ↔ ct_clients (cget c w) = {[i]})) ∧
  (∀ p, let w' := ClientTracker_SetProvider p w in
        tracker_in_step w' ∧ cget c w' = MkClientTracker p (ct_clients (cget c w))).
Proof.
  intros Hw. split_and!.
  - intros i. unfold ClientTracker_AddClient. cbv zeta. case_bool_decide as Hi.
    { split; [done|]. set_solver. }
    unfold tracker_in_step. rw Hframe !cget_cset. cbn. split; [|done]. intros j Hj.
    destruct (decide (j = i)) as [->|]; [apply Hset|]. rw Hother // indep Hw //. set_solver.
  - intros i. unfold ClientTracker_RemoveClient. cbv zeta. case_bool_decide as Hi; cbn.
    + unfold tracker_in_step. rw cget_cset. cbn. split_and!; [|done|].
      * intros j Hj. rw indep Hw //. set_solver.
      * rw Nat.eqb_eq size_empty_iff. split; [|intros ->; set_solver].
        intros He. apply set_eq. intros j. specialize (He j). destruct (decide (j = i)); set_solver.
    + split_and!; [done|set_solver|]. split; [done|]. set_solver.
  - intros p. unfold ClientTracker_SetProvider. cbv zeta. rw cget_cset. cbn.
    destruct (set_provider_all (set_range (ct_clients (cget c w))) p
      (cset c (MkClientTracker p (ct_clients (cget c w))) w)) as [Hc Hs].
    rw cget_cset in Hc. unfold tracker_in_step. rw Hc. cbn. split; [|done].
    intros i Hi. rw Hs decide_True //. by apply elem_of_set_range.
Qed.
End client_tracker.
