(* ===== verification/Organizer.v ===== *)
(** The binding organizer (binding-organizer.go): it takes the atomized bindings
    of workload parts to destinations, drops the EdgePlacement names, picks an API
    version per resource and destination, and keeps the workload projector
    informed of the result.

    The organizer's state is the record [simpleBindingOrganizer]; the closures of
    [SimpleBindingOrganizer] become receivers in a world [W] that contains that
    record (the reference [sboCell]) and the state of the workload projector and
    of the API discovery (the reference [pCell]).  The field
    [workloadProjectionSections], which the source sets for the duration of a
    transaction and which its closures read synchronously, is the argument [wps]
    of the receivers. *)

From S2P Require Import Prelude Tuples Interfaces Slices Sets Maps Types HashDomains HashMap.
From S2P Require Import Relations FactoredMap Receivers Joins.

(** * Types *)

(** The receivers that the projector exposes during a transaction. *)
Record WorkloadProjectionSections (P : Type) : Type := MkWorkloadProjectionSections {
  wps_NamespacedObjectDistributions : MappingReceiver P NamespacedDistributionTuple DistributionBits;
  wps_NamespacedModes : MappingReceiver P ProjectionModeKey ProjectionModeVal;
  wps_NonNamespacedObjectDistributions :
    MappingReceiver P NonNamespacedDistributionTuple DistributionBits;
  wps_NonNamespacedModes : MappingReceiver P ProjectionModeKey ProjectionModeVal;
  wps_Upsyncs : SetWriter P (Pair SinglePlacement UpsyncSet)
}.
Arguments MkWorkloadProjectionSections {_} _ _ _ _ _.
Arguments wps_NamespacedObjectDistributions {_} _.
Arguments wps_NamespacedModes {_} _.
Arguments wps_NonNamespacedObjectDistributions {_} _.
Arguments wps_NonNamespacedModes {_} _.
Arguments wps_Upsyncs {_} _.

(** interface [WorkloadProjector]: its [Transact] calls the given function with
    the sections between a beginning and an end of its own. *)
Record WorkloadProjector (P : Type) : Type := MkWorkloadProjector {
  wp_begin : P → WorkloadProjectionSections P * P;
  wp_end : P → P
}.
Arguments MkWorkloadProjector {_} _ _.
Arguments wp_begin {_} _ _.
Arguments wp_end {_} _ _.

Definition ResourceDiscoveryKey : Type := Pair string GroupResource.
Definition NamespacedWhatWhereFullKey : Type := Triple ExternalName WorkloadPartID SinglePlacement.
Definition ClusterWhatWhereFullKey : Type :=
  Triple ExternalName (Pair GroupResource ObjectName) SinglePlacement.

#[export] Instance NamespacedWhatWhereFullKey_eq_dec : EqDecision NamespacedWhatWhereFullKey :=
  Triple_eq_dec.
#[export] Instance NamespacedWhatWhereFullKey_countable : Countable NamespacedWhatWhereFullKey :=
  Triple_countable.
#[export] Instance ClusterWhatWhereFullKey_eq_dec : EqDecision ClusterWhatWhereFullKey :=
  Triple_eq_dec.
#[export] Instance ClusterWhatWhereFullKey_countable : Countable ClusterWhatWhereFullKey :=
  Triple_countable.

(** interface [SingleBindingOps] and func type [UpsyncOps] *)
Definition SingleBindingOps (W : Type) : Type :=
  MappingReceiver W NamespacedWhatWhereFullKey WorkloadPartDetails.
Definition UpsyncOps (W : Type) : Type :=
  SetChangeReceiver W (Triple ExternalName UpsyncSet SinglePlacement).

(** * Factorers *)

Definition factorUpsyncTuple
  : Factorer (Triple ExternalName UpsyncSet SinglePlacement) (Pair SinglePlacement UpsyncSet)
      ExternalName :=
  NewFactorer
    (λ whole, NewPair (NewPair (tThird whole) (tSecond whole)) (tFirst whole))
    (λ parts, NewTriple parts.2 parts.1.2 parts.1.1).

Definition factorNamespacedJoinKeyLessNS
  : Factorer NamespacedJoinKeyLessnS ProjectionModeKey string :=
  NewRotator
    (λ whole, (MkProjectionModeKey (tSecond whole) (tThird whole), tFirst whole))
    (λ parts, NewTriple parts.2 (pmkGroupResource parts.1) (pmkDestination parts.1)).

Definition factorNamespacedWhatWhereFullKey
  : Factorer NamespacedWhatWhereFullKey NamespacedDistributionTuple ObjectName :=
  NewRotator
    (λ nfk,
       (NewPair
          (MkProjectionModeKey (tFirst (tSecond nfk)) (tThird nfk))
          (NewTriple (enCluster (tFirst nfk)) (tSecond (tSecond nfk)) (tThird (tSecond nfk))),
        enName (tFirst nfk)))
    (λ parts,
       NewTriple
         (MkExternalName (tFirst parts.1.2) parts.2)
         (NewTriple (pmkGroupResource parts.1.1) (tSecond parts.1.2) (tThird parts.1.2))
         (pmkDestination parts.1.1)).

Definition factorClusterWhatWhereFullKey
  : Factorer ClusterWhatWhereFullKey NonNamespacedDistributionTuple ObjectName :=
  NewRotator
    (λ cfk,
       (NewPair
          (MkProjectionModeKey (tSecond cfk).1 (tThird cfk))
          (MkExternalName (enCluster (tFirst cfk)) (tSecond cfk).2),
        enName (tFirst cfk)))
    (λ decomp,
       NewTriple
         (MkExternalName (enCluster decomp.1.2) decomp.2)
         (pmkGroupResource decomp.1.1, enName decomp.1.2)
         (pmkDestination decomp.1.1)).

#[export] Instance factorUpsyncTuple_ok : RotatorOk factorUpsyncTuple.
Proof. split; [by intros []|by intros [[]]]. Qed.
#[export] Instance factorNamespacedJoinKeyLessNS_ok : RotatorOk factorNamespacedJoinKeyLessNS.
Proof. split; [by intros []|by intros [[]]]. Qed.
#[export] Instance factorNamespacedWhatWhereFullKey_ok : RotatorOk factorNamespacedWhatWhereFullKey.
Proof. split; [by intros [[] [] []]|by intros [[[] []]]]. Qed.
#[export] Instance factorClusterWhatWhereFullKey_ok : RotatorOk factorClusterWhatWhereFullKey.
Proof. split; [by intros [[] [] []]|by intros [[[] []]]]. Qed.

(** * Aggregations *)

Section aggregations.
Context `{MapRange}.

Definition detailsSansEP (versions : gmap ObjectName WorkloadPartDetails)
  : WorkloadPartDetails * bool :=
  let ans := MkWorkloadPartDetails "" false false in
  if size versions =? 0 then (ans, false)
  else
    (for_each (map_range versions) (λ vpair ans,
       MkWorkloadPartDetails (wpdAPIVersion vpair.2)
         (wpdReturnSingletonState ans || wpdReturnSingletonState vpair.2)
         (wpdCreateOnly ans || wpdCreateOnly vpair.2)) ans, true).

(** [pickThe1]; it only logs when there is more than one version. *)
Definition pickThe1 {KeyPartA KeyPartB} `{Countable KeyPartB} (_ : KeyPartA)
  (problem : gmap KeyPartB ProjectionModeVal) : ProjectionModeVal :=
  for_each (map_range problem) (λ vpair _, vpair.2) (MkProjectionModeVal "").
End aggregations.

(** * State *)

Record simpleBindingOrganizer : Type := MkSimpleBindingOrganizer {
  (** the outer map of [namespacedWhatWhereFull] and of [aggregateForNamespaced] *)
  sbo_nsFull : gmap NamespacedDistributionTuple (gmap ObjectName WorkloadPartDetails);
  sbo_nsAgg : gmap ProjectionModeKey (gmap ExternalNamespacedName ProjectionModeVal);
  (** the outer map of [clusterWhatWhereFull] and of [aggregateForCluster] *)
  sbo_clFull : gmap NonNamespacedDistributionTuple (gmap ObjectName WorkloadPartDetails);
  sbo_clAgg : gmap ProjectionModeKey (gmap ExternalName ProjectionModeVal);
  (** the hash map of [upsyncsFull] *)
  sbo_upsyncs : buckets (Pair SinglePlacement UpsyncSet) (buckets ExternalName Empty);
  (** the keys of [perSourceCluster]; the value of a key is an object that only
      has the receivers registered with the API discovery *)
  sbo_perSourceCluster : gset string;
  (** set by a call of [GoesToMailbox] that panics *)
  sbo_panicked : bool
}.

Definition empty_organizer : simpleBindingOrganizer :=
  MkSimpleBindingOrganizer ∅ ∅ ∅ ∅ emptyBuckets ∅ false.

Definition nsFull_cell : Cell simpleBindingOrganizer _ :=
  MkCell sbo_nsFull (λ x s, MkSimpleBindingOrganizer x (sbo_nsAgg s) (sbo_clFull s) (sbo_clAgg s)
    (sbo_upsyncs s) (sbo_perSourceCluster s) (sbo_panicked s)).
Definition nsAgg_cell : Cell simpleBindingOrganizer _ :=
  MkCell sbo_nsAgg (λ x s, MkSimpleBindingOrganizer (sbo_nsFull s) x (sbo_clFull s) (sbo_clAgg s)
    (sbo_upsyncs s) (sbo_perSourceCluster s) (sbo_panicked s)).
Definition clFull_cell : Cell simpleBindingOrganizer _ :=
  MkCell sbo_clFull (λ x s, MkSimpleBindingOrganizer (sbo_nsFull s) (sbo_nsAgg s) x (sbo_clAgg s)
    (sbo_upsyncs s) (sbo_perSourceCluster s) (sbo_panicked s)).
Definition clAgg_cell : Cell simpleBindingOrganizer _ :=
  MkCell sbo_clAgg (λ x s, MkSimpleBindingOrganizer (sbo_nsFull s) (sbo_nsAgg s) (sbo_clFull s) x
    (sbo_upsyncs s) (sbo_perSourceCluster s) (sbo_panicked s)).
Definition upsyncs_cell : Cell simpleBindingOrganizer _ :=
  MkCell sbo_upsyncs (λ x s, MkSimpleBindingOrganizer (sbo_nsFull s) (sbo_nsAgg s) (sbo_clFull s)
    (sbo_clAgg s) x (sbo_perSourceCluster s) (sbo_panicked s)).
Definition perSourceCluster_cell : Cell simpleBindingOrganizer _ :=
  MkCell sbo_perSourceCluster (λ x s, MkSimpleBindingOrganizer (sbo_nsFull s) (sbo_nsAgg s)
    (sbo_clFull s) (sbo_clAgg s) (sbo_upsyncs s) x (sbo_panicked s)).
Definition panicked_cell : Cell simpleBindingOrganizer _ :=
  MkCell sbo_panicked (λ x s, MkSimpleBindingOrganizer (sbo_nsFull s) (sbo_nsAgg s)
    (sbo_clFull s) (sbo_clAgg s) (sbo_upsyncs s) (sbo_perSourceCluster s) x).

#[export] Instance nsFull_cell_ok : CellOk nsFull_cell. Proof. by split. Qed.
#[export] Instance nsAgg_cell_ok : CellOk nsAgg_cell. Proof. by split. Qed.
#[export] Instance clFull_cell_ok : CellOk clFull_cell. Proof. by split. Qed.
#[export] Instance clAgg_cell_ok : CellOk clAgg_cell. Proof. by split. Qed.
#[export] Instance upsyncs_cell_ok : CellOk upsyncs_cell. Proof. by split. Qed.
#[export] Instance perSourceCluster_cell_ok : CellOk perSourceCluster_cell. Proof. by split. Qed.

(** The fields of the record are independent. *)
#[export] Hint Extern 1 (Indep nsFull_cell (cget _)) => (intros ??; reflexivity) : typeclass_instances.
#[export] Hint Extern 1 (Indep nsAgg_cell (cget _)) => (intros ??; reflexivity) : typeclass_instances.
#[export] Hint Extern 1 (Indep clFull_cell (cget _)) => (intros ??; reflexivity) : typeclass_instances.
#[export] Hint Extern 1 (Indep clAgg_cell (cget _)) => (intros ??; reflexivity) : typeclass_instances.
#[export] Hint Extern 1 (Indep upsyncs_cell (cget _)) => (intros ??; reflexivity) : typeclass_instances.
#[export] Hint Extern 1 (Indep perSourceCluster_cell (cget _)) => (intros ??; reflexivity)
  : typeclass_instances.

(** * Operations *)

Section organizer.
Context `{MapRange} {W P : Type} (sboCell : Cell W simpleBindingOrganizer) (pCell : Cell W P).
Context (discovery_AddReceivers : string → P → P) (resourceModes : GroupResource → ResourceMode).
Context (workloadProjector : WorkloadProjector P).

Section receivers.
Context (wps : WorkloadProjectionSections P).

Definition namespacedModesReceiver : MappingReceiver W ProjectionModeKey ProjectionModeVal :=
  MappingReceiverFuncs
    (Some (λ mk val w, mr_Put (lift_mr pCell (wps_NamespacedModes wps)) mk val w))
    (Some (λ mk w, mr_Delete (lift_mr pCell (wps_NamespacedModes wps)) mk w)).

(** version agreement is not implemented in the source *)
Definition resourceDiscoveryReceiver : MappingReceiver W ResourceDiscoveryKey ProjectionModeVal :=
  NewMappingReceiverFuncs (λ _ _ w, w) (λ _ w, w).

Definition namespacedObjectDistributions
  : MappingReceiver W NamespacedDistributionTuple WorkloadPartDetails :=
  NewMappingReceiverFuncs
    (λ key val w, mr_Put (lift_mr pCell (wps_NamespacedObjectDistributions wps)) key
                    (WorkloadPartDetails_distributionBits val) w)
    (λ key w, mr_Delete (lift_mr pCell (wps_NamespacedObjectDistributions wps)) key w).

Definition aggregateForNamespaced : MutableMap W NamespacedDistributionTuple ProjectionModeVal :=
  NewFactoredMapMapAggregator PairFactorer None None pickThe1 namespacedModesReceiver
    (compose_cell sboCell nsAgg_cell).

Definition namespacedChangeReceiver
  : MappingReceiver W NamespacedDistributionTuple (gmap ObjectName WorkloadPartDetails) :=
  MappingReceiverFuncs
    (Some (λ nndt versions w,
       let '(version, _) := detailsSansEP versions in
       let w := mr_Put namespacedObjectDistributions nndt version w in
       mr_Put aggregateForNamespaced nndt (MkProjectionModeVal (wpdAPIVersion version)) w))
    (Some (λ nndt w,
       let w := mr_Delete namespacedObjectDistributions nndt w in
       mr_Delete aggregateForNamespaced nndt w)).

Definition namespacedWhatWhereFull
  : MutableMap W NamespacedWhatWhereFullKey WorkloadPartDetails :=
  NewFactoredMapMap factorNamespacedWhatWhereFullKey None None (Some namespacedChangeReceiver)
    (compose_cell sboCell nsFull_cell).

Definition clusterObjectDistributionsReceiver
  : MappingReceiver W NonNamespacedDistributionTuple WorkloadPartDetails :=
  NewMappingReceiverFuncs
    (λ key val w, mr_Put (lift_mr pCell (wps_NonNamespacedObjectDistributions wps)) key
                    (WorkloadPartDetails_distributionBits val) w)
    (λ key w, mr_Delete (lift_mr pCell (wps_NonNamespacedObjectDistributions wps)) key w).

Definition clusterModesReceiver : MappingReceiver W ProjectionModeKey ProjectionModeVal :=
  MappingReceiverFuncs
    (Some (λ mk val w, mr_Put (lift_mr pCell (wps_NonNamespacedModes wps)) mk val w))
    (Some (λ mk w, mr_Delete (lift_mr pCell (wps_NonNamespacedModes wps)) mk w)).

Definition aggregateForCluster : MutableMap W NonNamespacedDistributionTuple ProjectionModeVal :=
  NewFactoredMapMapAggregator PairFactorer None None pickThe1 clusterModesReceiver
    (compose_cell sboCell clAgg_cell).

Definition clusterChangeReceiver
  : MappingReceiver W NonNamespacedDistributionTuple (gmap ObjectName WorkloadPartDetails) :=
  MappingReceiverFuncs
    (Some (λ nndt versions w,
       let '(version, _) := detailsSansEP versions in
       let w := mr_Put clusterObjectDistributionsReceiver nndt version w in
       mr_Put aggregateForCluster nndt (MkProjectionModeVal (wpdAPIVersion version)) w))
    (Some (λ nndt w,
       let w := mr_Delete clusterObjectDistributionsReceiver nndt w in
       mr_Delete aggregateForCluster nndt w)).

Definition clusterWhatWhereFull : MutableMap W ClusterWhatWhereFullKey WorkloadPartDetails :=
  NewFactoredMapMap factorClusterWhatWhereFullKey None None (Some clusterChangeReceiver)
    (compose_cell sboCell clFull_cell).

Definition upsyncsRelay : SetWriter W (Pair SinglePlacement UpsyncSet) :=
  NewSetWriterFuncs
    (λ tup w, sw_Add (lift_sw pCell (wps_Upsyncs wps)) tup w)
    (λ tup w, sw_Remove (lift_sw pCell (wps_Upsyncs wps)) tup w).

Definition upsyncsFull : SetWriter W (Triple ExternalName UpsyncSet SinglePlacement) :=
  NewSetChangeProjectorByHashMap factorUpsyncTuple upsyncsRelay
    (PairHashDomain HashSinglePlacement HashUpsyncSet) HashExternalName
    (compose_cell sboCell upsyncs_cell).

Definition receiveUpsyncChange : UpsyncOps W := λ add tup w,
  if add : bool then (sw_Add upsyncsFull tup w).2 else (sw_Remove upsyncsFull tup w).2.

(** The result tells whether there is an object for the cluster. *)
Definition getSourceCluster (cluster : string) (want : bool) (w : W) : bool * W :=
  let s := cget sboCell w in
  let have := bool_decide (cluster ∈ sbo_perSourceCluster s) in
  if want && negb have then
    let w := cset (compose_cell sboCell perSourceCluster_cell)
               ({[cluster]} ∪ sbo_perSourceCluster s) w in
    (true, cset pCell (discovery_AddReceivers cluster (cget pCell w)) w)
  else (have, w).

Definition clusterKey (tup : NamespacedWhatWhereFullKey) : ClusterWhatWhereFullKey :=
  NewTriple (tFirst tup) (tFirst (tSecond tup), tThird (tSecond tup)) (tThird tup).

Definition is_namespaced (tup : NamespacedWhatWhereFullKey) : bool :=
  0 <? String.length (tSecond (tSecond tup)).

Definition sboXnOps_Put (tup : NamespacedWhatWhereFullKey) (val : WorkloadPartDetails) (w : W) : W :=
  let rscMode := resourceModes (tFirst (tSecond tup)) in
  match ResourceMode_GoesToMailbox rscMode with
  | None => cset (compose_cell sboCell panicked_cell) true w
  | Some false => w
  | Some true =>
      let '(_, w) := getSourceCluster (enCluster (tFirst tup)) true w in
      if is_namespaced tup then mr_Put namespacedWhatWhereFull tup val w
      else mr_Put clusterWhatWhereFull (clusterKey tup) val w
  end.

Definition sboXnOps_Delete (tup : NamespacedWhatWhereFullKey) (w : W) : W :=
  let rscMode := resourceModes (tFirst (tSecond tup)) in
  match ResourceMode_GoesToMailbox rscMode with
  | None => cset (compose_cell sboCell panicked_cell) true w
  | Some false => w
  | Some true =>
      let '(sbc, w) := getSourceCluster (enCluster (tFirst tup)) false w in
      if negb sbc then w
      else
        let w := if is_namespaced tup then mr_Delete namespacedWhatWhereFull tup w else w in
        mr_Delete clusterWhatWhereFull (clusterKey tup) w
  end.

Definition sboXnOps : SingleBindingOps W := MkMappingReceiver sboXnOps_Put sboXnOps_Delete.
End receivers.

Definition simpleBindingOrganizer_Transact (xn : SingleBindingOps W → UpsyncOps W → W → W) (w : W)
  : W :=
  let '(wps, p) := wp_begin workloadProjector (cget pCell w) in
  let w := cset pCell p w in
  let w := xn (sboXnOps wps) (receiveUpsyncChange wps) w in
  cset pCell (wp_end workloadProjector (cget pCell w)) w.

(** The receiver registered with the API discovery for [cluster]. *)
Definition sbcResourceReceiver_Put (cluster : string) (gr : GroupResource)
  (details : ResourceDetails) (w : W) : W :=
  let good := rdNamespaced details && rdSupportsInformers details in
  let key := NewPair cluster gr in
  let '(wps, p) := wp_begin workloadProjector (cget pCell w) in
  let w := cset pCell p w in
  let w := if good
           then mr_Put resourceDiscoveryReceiver key
                  (MkProjectionModeVal (rdPreferredVersion details)) w
           else mr_Delete resourceDiscoveryReceiver key w in
  cset pCell (wp_end workloadProjector (cget pCell w)) w.

Definition sbcResourceReceiver_Delete (cluster : string) (gr : GroupResource) (w : W) : W :=
  let key := NewPair cluster gr in
  let '(wps, p) := wp_begin workloadProjector (cget pCell w) in
  let w := cset pCell p w in
  let w := mr_Delete resourceDiscoveryReceiver key w in
  cset pCell (wp_end workloadProjector (cget pCell w)) w.
End organizer.

Definition mgrIsNamespace (gr : GroupResource) : bool :=
  bool_decide (grGroup gr = "") && bool_decide (grResource gr = "namespaces").

(** * The aggregations do not depend on the iteration order *)

Section aggregation_facts.
Context `{MapRange}.

(** The loop of [detailsSansEP] after some of the versions. *)
Lemma detailsSansEP_loop (l : list (ObjectName * WorkloadPartDetails)) (ans : WorkloadPartDetails) :
  let ans' := for_each l (λ vpair ans,
    MkWorkloadPartDetails (wpdAPIVersion vpair.2)
      (wpdReturnSingletonState ans || wpdReturnSingletonState vpair.2)
      (wpdCreateOnly ans || wpdCreateOnly vpair.2)) ans in
  (wpdReturnSingletonState ans' = true ↔ wpdReturnSingletonState ans = true ∨
     ∃ p, p ∈ l ∧ wpdReturnSingletonState p.2 = true) ∧
  (wpdCreateOnly ans' = true ↔ wpdCreateOnly ans = true ∨
     ∃ p, p ∈ l ∧ wpdCreateOnly p.2 = true) ∧
  (l = [] ∧ ans' = ans ∨ ∃ p, p ∈ l ∧ wpdAPIVersion ans' = wpdAPIVersion p.2).
Proof.
  revert ans. induction l as [|p l IH]; intros ans.
  { split_and!; [..|by left]; (split; [by left|]); by intros [?|(? & ?%elem_of_nil & _)]. }
  rw for_each_cons. destruct (IH (MkWorkloadPartDetails (wpdAPIVersion p.2)
    (wpdReturnSingletonState ans || wpdReturnSingletonState p.2)
    (wpdCreateOnly ans || wpdCreateOnly p.2))) as (H1 & H2 & H3). cbn in *.
  setoid_rewrite elem_of_cons. split_and!.
  - rw H1 orb_true_iff. naive_solver.
  - rw H2 orb_true_iff. naive_solver.
  - right. destruct H3 as [[-> ->]|(q & ? & ?)]; [exists p; naive_solver|exists q; naive_solver].
Qed.

(** The bits are the disjunction over the EdgePlacements; the API version is that
    of one of them. *)
Lemma detailsSansEP_spec (versions : gmap ObjectName WorkloadPartDetails) :
  versions ≠ ∅ →
  let '(version, ok) := detailsSansEP versions in
  ok = true ∧
  (wpdReturnSingletonState version = true ↔
     ∃ ep d, versions !! ep = Some d ∧ wpdReturnSingletonState d = true) ∧
  (wpdCreateOnly version = true ↔ ∃ ep d, versions !! ep = Some d ∧ wpdCreateOnly d = true) ∧
  ∃ ep d, versions !! ep = Some d ∧ wpdAPIVersion version = wpdAPIVersion d.
Proof.
  intros Hne. unfold detailsSansEP.
  destruct (Nat.eqb_spec (size versions) 0) as [Hz|Hz]; [by apply map_size_empty_inv in Hz|].
  destruct (detailsSansEP_loop (map_range versions) (MkWorkloadPartDetails "" false false))
    as (H1 & H2 & H3). cbn in H1, H2.
  assert (∀ Q : WorkloadPartDetails → Prop,
    (∃ p, p ∈ map_range versions ∧ Q p.2) ↔ ∃ ep d, versions !! ep = Some d ∧ Q d) as Hex.
  { intros Q. split.
    - intros ([ep d] & Hp & ?). apply elem_of_map_range in Hp. by exists ep, d.
    - intros (ep & d & Hd & ?). exists (ep, d). split; [by apply elem_of_map_range|done]. }
  split_and!; [done|..].
  - rw H1 (Hex (λ d, wpdReturnSingletonState d = true)). naive_solver.
  - rw H2 (Hex (λ d, wpdCreateOnly d = true)). naive_solver.
  - apply (Hex (λ d, _ = wpdAPIVersion d)). destruct H3 as [[He _]|?]; [|done].
    apply (f_equal length) in He. by rw length_map_range in He.
Qed.

(** [pickThe1] picks one of the given values. *)
Lemma pickThe1_spec {A B} `{Countable B} (a : A) (problem : gmap B ProjectionModeVal) :
  problem ≠ ∅ → ∃ b, problem !! b = Some (pickThe1 a problem).
Proof.
  intros Hne. unfold pickThe1.
  assert (∀ l (v0 : ProjectionModeVal), l ≠ [] →
    ∃ b : B, (b, for_each l (λ vpair _, vpair.2) v0) ∈ l) as Hl.
  { induction l as [|[b v] l IH]; intros v0 Hl; [done|]. rw for_each_cons. cbn.
    destruct l as [|p l]; [exists b; by left|]. destruct (IH v) as [b' ?]; [done|].
    exists b'. by right. }
  destruct (Hl (map_range problem) (MkProjectionModeVal "")) as [b Hb].
  { intros He. apply (f_equal length) in He. rw length_map_range in He.
    by apply map_size_empty_inv in He. }
  exists b. by apply elem_of_map_range.
Qed.
End aggregation_facts.

(** * Dropping the EdgePlacement names

    The part of the organizer that the namespaced and the cluster-scoped
    resources have in common. *)

Section sans_ep.
Context `{MapRange} {W Full B : Type} `{Countable Full, Countable B}.
Context (kd : Factorer Full (ProjectionModeKey * B) ObjectName) `{!RotatorOk kd}.
Context (cFull : Cell W (gmap (ProjectionModeKey * B) (gmap ObjectName WorkloadPartDetails)))
  (cAgg : Cell W (gmap ProjectionModeKey (gmap B ProjectionModeVal))) `{!CellOk cFull, !CellOk cAgg}
  `{Hfa : !Indep cFull (cget cAgg), Haf : !Indep cAgg (cget cFull)}.
Context (dist : MappingReceiver W (ProjectionModeKey * B) WorkloadPartDetails)
  (modes : MappingReceiver W ProjectionModeKey ProjectionModeVal)
  `{!QuietMR dist (cget cFull), !QuietMR dist (cget cAgg)}
  `{!QuietMR modes (cget cFull), !QuietMR modes (cget cAgg)}.
Context (T : gmap (ProjectionModeKey * B) DistributionBits → gmap ProjectionModeKey ProjectionModeVal →
  W → Prop).
Context (Hdput : ∀ k v d g w, T d g w →
  T (<[k:=WorkloadPartDetails_distributionBits v]> d) g (mr_Put dist k v w)).
Context (Hddel : ∀ k d g w, T d g w → T (delete k d) g (mr_Delete dist k w)).
Context (Hmodes : ∀ d, MappingReceiverSim modes (T d)).
Context (HTf : ∀ d g s w, T d g w → T d g (cset cFull s w))
  (HTa : ∀ d g s w, T d g w → T d g (cset cAgg s w)).

(** What the two receivers are to be told about the versions of each tuple. *)
Definition sansEP_bits {K} `{Countable K} (o : gmap K (gmap ObjectName WorkloadPartDetails))
  : gmap K DistributionBits :=
  (λ i, WorkloadPartDetails_distributionBits (detailsSansEP i).1) <$> o.
Definition sansEP_versions {K} `{Countable K} (o : gmap K (gmap ObjectName WorkloadPartDetails))
  : gmap K ProjectionModeVal :=
  (λ i, MkProjectionModeVal (wpdAPIVersion (detailsSansEP i).1)) <$> o.

Definition sansEP_in_step (N : gmap Full WorkloadPartDetails) (w : W) : Prop :=
  (∀ a i, cget cFull w !! a = Some i → i ≠ ∅) ∧ flatten kd id (cget cFull w) = N ∧
  (∀ a i, cget cAgg w !! a = Some i → i ≠ ∅) ∧
  flatten PairFactorer id (cget cAgg w) = sansEP_versions (cget cFull w) ∧
  T (sansEP_bits (cget cFull w)) (aggregates pickThe1 (cget cAgg w)) w.

Definition sansEP_receiver
  : MappingReceiver W (ProjectionModeKey * B) (gmap ObjectName WorkloadPartDetails) :=
  let agg := NewFactoredMapMapAggregator PairFactorer None None pickThe1 modes cAgg in
  MappingReceiverFuncs
    (Some (λ nndt versions w,
       let '(version, _) := detailsSansEP versions in
       let w := mr_Put dist nndt version w in
       mr_Put agg nndt (MkProjectionModeVal (wpdAPIVersion version)) w))
    (Some (λ nndt w,
       let w := mr_Delete dist nndt w in
       mr_Delete agg nndt w)).

Abbreviation agg_in_step d := (aggregator_in_step PairFactorer pickThe1 cAgg (T d)).

Lemma agg_sim d :
  MappingReceiverSim
    (NewFactoredMapMapAggregator PairFactorer None None (pickThe1 (KeyPartB:=B)) modes cAgg)
    (agg_in_step d).
Proof. apply aggregator_sim; try apply _. intros g s w. apply HTa. Qed.

#[local] Instance agg_quiet {X} (f : W → X) `{!QuietMR modes f, !Indep cAgg f} :
  QuietMR (NewFactoredMapMapAggregator PairFactorer None None (pickThe1 (KeyPartB:=B)) modes cAgg) f.
Proof. by apply aggregator_quiet. Qed.

Lemma sansEP_quiet {X} (f : W → X) `{!QuietMR dist f, !QuietMR modes f, !Indep cAgg f} :
  QuietMR sansEP_receiver f.
Proof.
  split.
  - intros k v w. unfold sansEP_receiver. cbn [mr_Put MappingReceiverFuncs].
    destruct (detailsSansEP v). by rw !quiet_put.
  - intros k w. unfold sansEP_receiver. cbn [mr_Delete MappingReceiverFuncs]. by rw !quiet_delete.
Qed.

Lemma sansEP_sim :
  MappingReceiverSim (NewFactoredMapMap kd None None (Some sansEP_receiver) cFull) sansEP_in_step.
Proof.
  pose proof (factored_map_sim kd cFull None None (Some sansEP_receiver)
    (λ u o k w, agg_in_step (sansEP_bits o) (sansEP_versions o) w)) as Hs.
  apply Hs; clear Hs.
  - intros u o k s w (Hne & Hf & HT). split_and!; rw ?Hfa; [done..|]. by apply HTf.
  - by intros u u' o k w.
  - by intros u o k k' w.
  - split_and!.
    + by apply sansEP_quiet.
    + intros a i u o k w (Hne & Hf & HT). unfold sansEP_receiver. cbn [mr_Put MappingReceiverFuncs].
      destruct (detailsSansEP i) as [version ok] eqn:Hi.
      unfold sansEP_versions, sansEP_bits. rw !fmap_insert Hi. cbn [fst].
      apply (sim_put (MappingReceiverSim:=agg_sim _)).
      split_and!; rw ?quiet_put; [done..|]. by apply Hdput.
    + intros a u o k w (Hne & Hf & HT). unfold sansEP_receiver. cbn [mr_Delete MappingReceiverFuncs].
      unfold sansEP_versions, sansEP_bits. rw !fmap_delete.
      apply (sim_delete (MappingReceiverSim:=agg_sim _)).
      split_and!; rw ?quiet_delete; [done..|]. by apply Hddel.
Qed.
End sans_ep.

(** * The organizer keeps the projector informed *)

(** What the organizer relies on: [T nd nm cd cm us p] says that the projector in
    state [p] has been told of the namespaced distributions [nd] and modes [nm],
    the cluster-scoped distributions [cd] and modes [cm] and the upsyncs [us];
    the sections given to a transaction keep track of the changes. *)
Section projector_contract.
Context {P : Type}.
Context (T : gmap NamespacedDistributionTuple DistributionBits →
  gmap ProjectionModeKey ProjectionModeVal →
  gmap NonNamespacedDistributionTuple DistributionBits →
  gmap ProjectionModeKey ProjectionModeVal →
  gset (SinglePlacement * UpsyncSet) → P → Prop).

Class SectionsSim (wps : WorkloadProjectionSections P) : Prop := {
  sec_nd : ∀ nm cd cm us,
    MappingReceiverSim (wps_NamespacedObjectDistributions wps) (λ nd, T nd nm cd cm us);
  sec_nm : ∀ nd cd cm us, MappingReceiverSim (wps_NamespacedModes wps) (λ nm, T nd nm cd cm us);
  sec_cd : ∀ nd nm cm us,
    MappingReceiverSim (wps_NonNamespacedObjectDistributions wps) (λ cd, T nd nm cd cm us);
  sec_cm : ∀ nd nm cd us, MappingReceiverSim (wps_NonNamespacedModes wps) (λ cm, T nd nm cd cm us);
  sec_us : ∀ nd nm cd cm, SetWriterSim (wps_Upsyncs wps) (λ us, T nd nm cd cm us)
}.

Class WorkloadProjectorSim (wp : WorkloadProjector P) : Prop := {
  wp_begin_ok : ∀ nd nm cd cm us p, T nd nm cd cm us p →
    SectionsSim (wp_begin wp p).1 ∧ T nd nm cd cm us (wp_begin wp p).2;
  wp_end_ok : ∀ nd nm cd cm us p, T nd nm cd cm us p → T nd nm cd cm us (wp_end wp p)
}.
End projector_contract.

Lemma hash_factory_ok {A B} `{Countable B} (d : HashDomain B) `{!HashDomainOk d} (a : A) :
  hashMap_wf d (emptyBuckets : buckets B Empty) ∧
  dom (hashMap_abs (emptyBuckets : buckets B Empty)) = ∅.
Proof. split; [by apply (hashMap_wf_empty d)|by rw hashMap_abs_empty dom_empty_L]. Qed.

Section organizer_facts.
Context `{MapRange} {W P : Type} (sboCell : Cell W simpleBindingOrganizer) (pCell : Cell W P).
Context `{!CellOk sboCell, !CellOk pCell, Hsp : !Indep sboCell (cget pCell)}
  `{Hps : !Indep pCell (cget sboCell)}.
Context (T : gmap NamespacedDistributionTuple DistributionBits →
  gmap ProjectionModeKey ProjectionModeVal →
  gmap NonNamespacedDistributionTuple DistributionBits →
  gmap ProjectionModeKey ProjectionModeVal →
  gset (SinglePlacement * UpsyncSet) → P → Prop).

(** The tables of one scope hold [N]. *)
Definition scope_wf {Full B} `{Countable Full, Countable B}
  (kd : Factorer Full (ProjectionModeKey * B) ObjectName) (N : gmap Full WorkloadPartDetails)
  (full : gmap (ProjectionModeKey * B) (gmap ObjectName WorkloadPartDetails))
  (agg : gmap ProjectionModeKey (gmap B ProjectionModeVal)) : Prop :=
  (∀ a i, full !! a = Some i → i ≠ ∅) ∧ flatten kd id full = N ∧
  (∀ a i, agg !! a = Some i → i ≠ ∅) ∧ flatten PairFactorer id agg = sansEP_versions full.

(** The upsync table holds [U]. *)
Definition upsyncs_wf (U : gset (Triple ExternalName UpsyncSet SinglePlacement))
  (r : buckets (Pair SinglePlacement UpsyncSet) (buckets ExternalName Empty)) : Prop :=
  indexed_wf (hashMap_wf HashExternalName) (λ hm, dom (hashMap_abs hm))
    (hashMap_wf (PairHashDomain HashSinglePlacement HashUpsyncSet)) hashMap_abs r ∧
  indexed_abs factorUpsyncTuple (λ hm, dom (hashMap_abs hm)) hashMap_abs r = U.

Definition organizer_in_step (N : gmap NamespacedWhatWhereFullKey WorkloadPartDetails)
  (C : gmap ClusterWhatWhereFullKey WorkloadPartDetails)
  (U : gset (Triple ExternalName UpsyncSet SinglePlacement)) (S : gset string) (w : W) : Prop :=
  let s := cget sboCell w in
  scope_wf factorNamespacedWhatWhereFullKey N (sbo_nsFull s) (sbo_nsAgg s) ∧
  scope_wf factorClusterWhatWhereFullKey C (sbo_clFull s) (sbo_clAgg s) ∧
  upsyncs_wf U (sbo_upsyncs s) ∧ sbo_perSourceCluster s = S ∧
  T (sansEP_bits (sbo_nsFull s)) (aggregates pickThe1 (sbo_nsAgg s)) (sansEP_bits (sbo_clFull s))
    (aggregates pickThe1 (sbo_clAgg s)) (projection factorUpsyncTuple U) (cget pCell w).

Context (wps : WorkloadProjectionSections P) `{Hsec : !SectionsSim T wps}.

(** The receivers at the ends of the pipelines only change the projector. *)
#[local] Instance nd_quiet {X} (f : W → X) :
  Indep pCell f → QuietMR (namespacedObjectDistributions pCell wps) f.
Proof. intros Hf. split; intros; apply Hf. Qed.
#[local] Instance nm_quiet {X} (f : W → X) :
  Indep pCell f → QuietMR (namespacedModesReceiver pCell wps) f.
Proof. intros Hf. split; intros; apply Hf. Qed.
#[local] Instance cd_quiet {X} (f : W → X) :
  Indep pCell f → QuietMR (clusterObjectDistributionsReceiver pCell wps) f.
Proof. intros Hf. split; intros; apply Hf. Qed.
#[local] Instance cm_quiet {X} (f : W → X) :
  Indep pCell f → QuietMR (clusterModesReceiver pCell wps) f.
Proof. intros Hf. split; intros; apply Hf. Qed.
#[local] Instance us_quiet {X} (f : W → X) : Indep pCell f → QuietSW (upsyncsRelay pCell wps) f.
Proof. intros Hf. split; intros; [apply: quiet_add|apply: quiet_remove]. Qed.

Lemma namespaced_sim C U S :
  MappingReceiverSim (namespacedWhatWhereFull sboCell pCell wps)
    (λ N, organizer_in_step N C U S).
Proof.
  set (rest := λ s, scope_wf factorClusterWhatWhereFullKey C (sbo_clFull s) (sbo_clAgg s) ∧
    upsyncs_wf U (sbo_upsyncs s) ∧ sbo_perSourceCluster s = S).
  set (T' := λ d g w, rest (cget sboCell w) ∧ T d g (sansEP_bits (sbo_clFull (cget sboCell w)))
    (aggregates pickThe1 (sbo_clAgg (cget sboCell w))) (projection factorUpsyncTuple U) (cget pCell w)).
  assert (MappingReceiverSim (namespacedWhatWhereFull sboCell pCell wps)
    (sansEP_in_step factorNamespacedWhatWhereFullKey (compose_cell sboCell nsFull_cell)
      (compose_cell sboCell nsAgg_cell) T')) as Hs.
  { apply sansEP_sim; try apply _.
    - intros k v d g w [Hr HT]. unfold T'. cbn. rw Hps cget_cset. split; [done|].
      by apply (sim_put (MappingReceiverSim:=sec_nd T _ _ _ _)).
    - intros k d g w [Hr HT]. unfold T'. cbn. rw Hps cget_cset. split; [done|].
      by apply (sim_delete (MappingReceiverSim:=sec_nd T _ _ _ _)).
    - intros d. split; [intros k v g w [Hr HT]|intros k g w [Hr HT]]; unfold T'; cbn;
        rw Hps cget_cset; (split; [done|]).
      + by apply (sim_put (MappingReceiverSim:=sec_nm T _ _ _ _)).
      + by apply (sim_delete (MappingReceiverSim:=sec_nm T _ _ _ _)).
    - intros d g s w [Hr HT]. unfold T'. cbn. by rw Hsp cget_cset.
    - intros d g s w [Hr HT]. unfold T'. cbn. by rw Hsp cget_cset. }
  revert Hs. apply MappingReceiverSim_iff. intros N w.
  unfold sansEP_in_step, organizer_in_step, T', rest, scope_wf. cbn.
  split; intros ?; destruct_and!; split_and!; done.
Qed.

Lemma cluster_sim N U S :
  MappingReceiverSim (clusterWhatWhereFull sboCell pCell wps) (λ C, organizer_in_step N C U S).
Proof.
  set (rest := λ s, scope_wf factorNamespacedWhatWhereFullKey N (sbo_nsFull s) (sbo_nsAgg s) ∧
    upsyncs_wf U (sbo_upsyncs s) ∧ sbo_perSourceCluster s = S).
  set (T' := λ d g w, rest (cget sboCell w) ∧ T (sansEP_bits (sbo_nsFull (cget sboCell w)))
    (aggregates pickThe1 (sbo_nsAgg (cget sboCell w))) d g (projection factorUpsyncTuple U)
    (cget pCell w)).
  assert (MappingReceiverSim (clusterWhatWhereFull sboCell pCell wps)
    (sansEP_in_step factorClusterWhatWhereFullKey (compose_cell sboCell clFull_cell)
      (compose_cell sboCell clAgg_cell) T')) as Hs.
  { apply sansEP_sim; try apply _.
    - intros k v d g w [Hr HT]. unfold T'. cbn. rw Hps cget_cset. split; [done|].
      by apply (sim_put (MappingReceiverSim:=sec_cd T _ _ _ _)).
    - intros k d g w [Hr HT]. unfold T'. cbn. rw Hps cget_cset. split; [done|].
      by apply (sim_delete (MappingReceiverSim:=sec_cd T _ _ _ _)).
    - intros d. split; [intros k v g w [Hr HT]|intros k g w [Hr HT]]; unfold T'; cbn;
        rw Hps cget_cset; (split; [done|]).
      + by apply (sim_put (MappingReceiverSim:=sec_cm T _ _ _ _)).
      + by apply (sim_delete (MappingReceiverSim:=sec_cm T _ _ _ _)).
    - intros d g s w [Hr HT]. unfold T'. cbn. by rw Hsp cget_cset.
    - intros d g s w [Hr HT]. unfold T'. cbn. by rw Hsp cget_cset. }
  revert Hs. apply MappingReceiverSim_iff. intros C w.
  unfold sansEP_in_step, organizer_in_step, T', rest, scope_wf. cbn.
  split; intros ?; destruct_and!; split_and!; done.
Qed.

Lemma upsyncs_sim N C S :
  SetWriterSim (upsyncsFull sboCell pCell wps) (λ U, organizer_in_step N C U S).
Proof.
  set (rest := λ s, scope_wf factorNamespacedWhatWhereFullKey N (sbo_nsFull s) (sbo_nsAgg s) ∧
    scope_wf factorClusterWhatWhereFullKey C (sbo_clFull s) (sbo_clAgg s) ∧
    sbo_perSourceCluster s = S).
  set (T' := λ us w, rest (cget sboCell w) ∧
    let s := cget sboCell w in
    T (sansEP_bits (sbo_nsFull s)) (aggregates pickThe1 (sbo_nsAgg s)) (sansEP_bits (sbo_clFull s))
      (aggregates pickThe1 (sbo_clAgg s)) us (cget pCell w)).
  assert (SetWriterSim (upsyncsFull sboCell pCell wps)
    (projector_in_step factorUpsyncTuple (hashMap_wf HashExternalName)
      (λ hm : buckets ExternalName Empty, dom (hashMap_abs hm)) (compose_cell sboCell upsyncs_cell)
      (hashMap_wf (PairHashDomain HashSinglePlacement HashUpsyncSet)) hashMap_abs T')) as Hs.
  { apply (projector_sim factorUpsyncTuple (λ _, emptyBuckets)
      (hashSet_AsMutableSet HashExternalName id_cell) (hashMap_wf HashExternalName)
      (λ hm, dom (hashMap_abs hm)) (hash_factory_ok HashExternalName) (upsyncsRelay pCell wps)
      (hashMap_AsMutableMap (PairHashDomain HashSinglePlacement HashUpsyncSet)
        (Some (MapKeySetReceiver (upsyncsRelay pCell wps))) (compose_cell sboCell upsyncs_cell)));
      [apply _..| | |].
    - intros us r w w' [_ Hu].
      assert (T' us w' = T' us w) as ->; [|done]. apply (Hu _ (T' us)). intros r0 w0.
      unfold T'. cbn. by rw Hsp cget_cset.
    - intros a us w Hnew [Hr HT]. unfold T'. rw (quiet_add (f:=cget sboCell)). split; [done|]. cbn.
      pose proof (sim_add (SetWriterSim:=sec_us T _ _ _ _) a _ _ HT) as HT'.
      destruct (sw_Add (wps_Upsyncs wps) a (cget pCell w)). by rw cget_cset.
    - intros a us w Hnew [Hr HT]. unfold T'. rw (quiet_remove (f:=cget sboCell)). split; [done|]. cbn.
      pose proof (sim_remove (SetWriterSim:=sec_us T _ _ _ _) a _ _ HT) as HT'.
      destruct (sw_Remove (wps_Upsyncs wps) a (cget pCell w)). by rw cget_cset. }
  revert Hs. apply SetWriterSim_iff. intros U w.
  unfold projector_in_step, organizer_in_step, upsyncs_wf, T', rest. cbn.
  split; intros ?; destruct_and!; split_and!; done.
Qed.

(** ** The operations offered to the set binder *)

Context (discovery_AddReceivers : string → P → P) (resourceModes : GroupResource → ResourceMode).
Context (Hdisc : ∀ cluster nd nm cd cm us p,
  T nd nm cd cm us p → T nd nm cd cm us (discovery_AddReceivers cluster p)).
(** every resource has one of the four propagation modes *)
Context (Hmodes : ∀ gr, is_Some (ResourceMode_GoesToMailbox (resourceModes gr))).

(** The tables and the projector are in step, and the source clusters are known. *)
Definition organizer_inv (N : gmap NamespacedWhatWhereFullKey WorkloadPartDetails)
  (C : gmap ClusterWhatWhereFullKey WorkloadPartDetails)
  (U : gset (Triple ExternalName UpsyncSet SinglePlacement)) (w : W) : Prop :=
  ∃ S, organizer_in_step N C U S w ∧
    (∀ k, k ∈ dom N → enCluster (tFirst k) ∈ S) ∧ (∀ k, k ∈ dom C → enCluster (tFirst k) ∈ S).

(** Whether bindings of the object go anywhere, and what a change of a binding does to the
    tables; the deletion of a namespaced binding also touches the cluster-scoped table. *)
Definition goes_to_mailbox (tup : NamespacedWhatWhereFullKey) : Prop :=
  ResourceMode_GoesToMailbox (resourceModes (tFirst (tSecond tup))) = Some true.

#[global] Instance goes_to_mailbox_dec tup : Decision (goes_to_mailbox tup).
Proof. unfold goes_to_mailbox. apply _. Defined.

Definition spec_Put (tup : NamespacedWhatWhereFullKey) (val : WorkloadPartDetails)
  (N : gmap NamespacedWhatWhereFullKey WorkloadPartDetails)
  (C : gmap ClusterWhatWhereFullKey WorkloadPartDetails) :=
  if decide (goes_to_mailbox tup) then
    if is_namespaced tup then (<[tup:=val]> N, C) else (N, <[clusterKey tup:=val]> C)
  else (N, C).

Definition spec_Delete (tup : NamespacedWhatWhereFullKey)
  (N : gmap NamespacedWhatWhereFullKey WorkloadPartDetails)
  (C : gmap ClusterWhatWhereFullKey WorkloadPartDetails) :=
  if decide (goes_to_mailbox tup) then
    (if is_namespaced tup then delete tup N else N, delete (clusterKey tup) C)
  else (N, C).

Lemma getSourceCluster_step N C U S cluster w :
  organizer_in_step N C U S w →
  let '(_, w') := getSourceCluster sboCell pCell discovery_AddReceivers cluster true w in
  organizer_in_step N C U ({[cluster]} ∪ S) w'.
Proof.
  clear Hmodes. intros Hw. pose proof Hw as (Hn & Hc & Hu & HS & HT). unfold getSourceCluster. cbv zeta.
  case_bool_decide as Hin; simpl.
  - rw HS in Hin. by replace ({[cluster]} ∪ S) with S by set_solver.
  - unfold organizer_in_step. cbv zeta. rw Hps !cget_cset Hsp. cbn. rw HS. split_and!; try done.
    by apply Hdisc.
Qed.

Lemma sboXnOps_put_step tup val N C U w :
  organizer_inv N C U w →
  let '(N', C') := spec_Put tup val N C in
  organizer_inv N' C' U (sboXnOps_Put sboCell pCell discovery_AddReceivers resourceModes wps tup val w).
Proof.
  intros (S & Hw & HN & HC). unfold sboXnOps_Put, spec_Put.
  destruct (Hmodes (tFirst (tSecond tup))) as [b Hb].
  destruct (decide (goes_to_mailbox tup)) as [Hm|Hm]; unfold goes_to_mailbox in Hm; rw Hb in Hm *; cycle 1.
  { destruct b; [done|]. by exists S. }
  injection Hm as ->.
  pose proof (getSourceCluster_step N C U S (enCluster (tFirst tup)) w Hw) as Hget.
  destruct (getSourceCluster _ _ _ _ _ _) as [sbc w1].
  destruct (is_namespaced tup); exists ({[enCluster (tFirst tup)]} ∪ S); split_and!.
  - by apply (sim_put (MappingReceiverSim:=namespaced_sim _ _ _)).
  - intros k. rw dom_insert_L. set_solver.
  - set_solver.
  - by apply (sim_put (MappingReceiverSim:=cluster_sim _ _ _)).
  - set_solver.
  - intros k. rw dom_insert_L elem_of_union elem_of_singleton. intros [->|?]; set_solver.
Qed.

Lemma sboXnOps_delete_step tup N C U w :
  organizer_inv N C U w →
  let '(N', C') := spec_Delete tup N C in
  organizer_inv N' C' U (sboXnOps_Delete sboCell pCell discovery_AddReceivers resourceModes wps tup w).
Proof.
  clear Hdisc. intros (S & Hw & HN & HC). unfold sboXnOps_Delete, spec_Delete.
  destruct (Hmodes (tFirst (tSecond tup))) as [b Hb].
  destruct (decide (goes_to_mailbox tup)) as [Hm|Hm]; unfold goes_to_mailbox in Hm; rw Hb in Hm *; cycle 1.
  { destruct b; [done|]. by exists S. }
  injection Hm as ->. unfold getSourceCluster. cbv zeta. simpl.
  assert (sbo_perSourceCluster (cget sboCell w) = S) as -> by apply Hw.
  case_bool_decide as Hin; simpl; cycle 1.
  { assert (tup ∉ dom N) as Hn1%not_elem_of_dom by naive_solver.
    assert (clusterKey tup ∉ dom C) as Hn2%not_elem_of_dom.
    { intros Hk. by apply (HC _) in Hk. }
    rw !delete_id //. destruct (is_namespaced tup); by exists S. }
  exists S. destruct (is_namespaced tup); split_and!; try set_solver.
  - apply (sim_delete (MappingReceiverSim:=cluster_sim _ _ _)).
    by apply (sim_delete (MappingReceiverSim:=namespaced_sim _ _ _)).
  - by apply (sim_delete (MappingReceiverSim:=cluster_sim _ _ _)).
Qed.
End organizer_facts.

(** * What the projector is told, in terms of the bindings *)

Section described.
Context `{MapRange} {Full B : Type} `{Countable Full, Countable B}.
Context (kd : Factorer Full (ProjectionModeKey * B) ObjectName) `{!RotatorOk kd}.

(** [d] has the tuples bound by some EdgePlacement, with the disjunction of the
    bits over those EdgePlacements; [N] tells what is bound. *)
Definition distributes (N : Full → option WorkloadPartDetails)
  (d : gmap (ProjectionModeKey * B) DistributionBits) : Prop :=
  ∀ t, match d !! t with
       | None => ∀ ep, N (rotSecond kd (t, ep)) = None
       | Some bits =>
           (∃ ep, is_Some (N (rotSecond kd (t, ep)))) ∧
           (dbReturnSingletonState bits = true ↔ ∃ ep details,
              N (rotSecond kd (t, ep)) = Some details ∧ wpdReturnSingletonState details = true) ∧
           (dbCreateOnly bits = true ↔ ∃ ep details,
              N (rotSecond kd (t, ep)) = Some details ∧ wpdCreateOnly details = true)
       end.

(** [g] has the pairs of resource and destination for which something is bound,
    each with the API version of one of those bindings. *)
Definition picks_versions (N : Full → option WorkloadPartDetails)
  (g : gmap ProjectionModeKey ProjectionModeVal) : Prop :=
  ∀ mk, match g !! mk with
        | None => ∀ b ep, N (rotSecond kd ((mk, b), ep)) = None
        | Some v => ∃ b ep details,
            N (rotSecond kd ((mk, b), ep)) = Some details ∧ wpdAPIVersion details = pmvAPIVersion v
        end.

Lemma scope_wf_lookup N full agg t ep :
  scope_wf kd N full agg → N !! rotSecond kd (t, ep) = full !! t ≫= (.!! ep).
Proof.
  intros (_ & <- & _). rw lookup_flatten rot_first_second. cbn. by destruct (full !! t).
Qed.

Lemma scope_wf_distributes N full agg :
  scope_wf kd N full agg → distributes (N !!.) (sansEP_bits full).
Proof.
  intros Hwf t. unfold sansEP_bits. rw lookup_fmap.
  pose proof (λ ep, scope_wf_lookup _ _ _ t ep Hwf) as Hlook.
  destruct (full !! t) as [i|] eqn:Ht; cbn in *; [|done]. setoid_rewrite Hlook.
  destruct Hwf as (Hne & _). specialize (Hne t i Ht). pose proof (detailsSansEP_spec i Hne) as Hd.
  destruct (detailsSansEP i) as [version ok]. destruct Hd as (_ & ? & ? & _). cbn.
  split_and!; [|done..]. apply map_choose in Hne as (ep & d & Hd). exists ep. by rw Hd.
Qed.

Lemma scope_wf_picks N full agg :
  scope_wf kd N full agg → picks_versions (N !!.) (aggregates pickThe1 agg).
Proof.
  intros Hwf mk. pose proof (λ b ep, scope_wf_lookup _ _ _ (mk, b) ep Hwf) as Hlook.
  destruct Hwf as (Hne & _ & Hne' & Hflat).
  assert (∀ b v, agg !! mk ≫= (.!! b) = Some v ↔ sansEP_versions full !! (mk, b) = Some v) as Hv.
  { intros b v. by rw -Hflat lookup_flatten /=; destruct (agg !! mk). }
  unfold aggregates. rw map_lookup_imap. destruct (agg !! mk) as [i|] eqn:Hmk; cbn.
  - destruct (pickThe1_spec mk i) as [b Hb]; [by apply (Hne' mk)|]. cbn in Hv.
    apply Hv in Hb. unfold sansEP_versions in Hb. rw lookup_fmap in Hb.
    apply fmap_Some in Hb as (vs & Hvs & Hpick). pose proof (detailsSansEP_spec vs (Hne _ _ Hvs)) as Hd.
    destruct (detailsSansEP vs) as [version ok]. destruct Hd as (_ & _ & _ & ep & d & Hd & Hver).
    exists b, ep, d. by rw Hlook Hvs Hpick.
  - intros b ep. rw Hlook. destruct (full !! (mk, b)) as [vs|] eqn:Hfull; [|done].
    destruct (Hv b (MkProjectionModeVal (wpdAPIVersion (detailsSansEP vs).1))) as [_ Hn].
    unfold sansEP_versions in Hn. rw lookup_fmap Hfull in Hn. by specialize (Hn eq_refl).
Qed.

Lemma distributes_ext N N' d : (∀ k, N k = N' k) → distributes N d → distributes N' d.
Proof. intros HN Hd t. specialize (Hd t). destruct (d !! t); by setoid_rewrite <-HN. Qed.

Lemma picks_versions_ext N N' g : (∀ k, N k = N' k) → picks_versions N g → picks_versions N' g.
Proof. intros HN Hg mk. specialize (Hg mk). destruct (g !! mk); by setoid_rewrite <-HN. Qed.
End described.

(** * Transactions *)

Inductive BindingOp : Type :=
| BindingPut (tup : NamespacedWhatWhereFullKey) (val : WorkloadPartDetails)
| BindingDelete (tup : NamespacedWhatWhereFullKey)
| UpsyncChange (add : bool) (tup : Triple ExternalName UpsyncSet SinglePlacement).

Definition run_binding_op {W} (op : BindingOp) (ops : SingleBindingOps W) (upsyncOps : UpsyncOps W)
  (w : W) : W :=
  match op with
  | BindingPut tup val => mr_Put ops tup val w
  | BindingDelete tup => mr_Delete ops tup w
  | UpsyncChange add tup => upsyncOps add tup w
  end.

Definition Bindings : Type :=
  gmap NamespacedWhatWhereFullKey WorkloadPartDetails * gmap ClusterWhatWhereFullKey WorkloadPartDetails
  * gset (Triple ExternalName UpsyncSet SinglePlacement).

Definition spec_binding_op (resourceModes : GroupResource → ResourceMode) (op : BindingOp)
  (b : Bindings) : Bindings :=
  match op with
  | BindingPut tup val => (spec_Put resourceModes tup val b.1.1 b.1.2, b.2)
  | BindingDelete tup => (spec_Delete resourceModes tup b.1.1 b.1.2, b.2)
  | UpsyncChange add tup => (b.1, if add then {[tup]} ∪ b.2 else b.2 ∖ {[tup]})
  end.

(** ** The bindings requested so far, whatever becomes of them in the tables *)

Definition Requests : Type :=
  gmap NamespacedWhatWhereFullKey WorkloadPartDetails
  * gset (Triple ExternalName UpsyncSet SinglePlacement).

Definition request_op (op : BindingOp) (r : Requests) : Requests :=
  match op with
  | BindingPut tup val => (<[tup:=val]> r.1, r.2)
  | BindingDelete tup => (delete tup r.1, r.2)
  | UpsyncChange add tup => (r.1, if add then {[tup]} ∪ r.2 else r.2 ∖ {[tup]})
  end.

(** A change respects the scopes of the resources: an object has a namespace exactly
    if its resource is namespaced. *)
Definition op_scoped (namespacedResource : GroupResource → bool) (op : BindingOp) : Prop :=
  match op with
  | BindingPut tup _ | BindingDelete tup =>
      is_namespaced tup = namespacedResource (tFirst (tSecond tup))
  | UpsyncChange _ _ => True
  end.

#[global] Instance op_scoped_dec nr op : Decision (op_scoped nr op).
Proof. destruct op; unfold op_scoped; apply _. Defined.

(** The request for a cluster-scoped object has the empty namespace. *)
Definition fullKey (key : ClusterWhatWhereFullKey) : NamespacedWhatWhereFullKey :=
  NewTriple (tFirst key) (NewTriple (tSecond key).1 EmptyString (tSecond key).2) (tThird key).

(** The requested bindings of namespaced and of cluster-scoped objects whose resource
    goes to the mailbox. *)
Definition bound_namespaced (resourceModes : GroupResource → ResourceMode)
  (B : gmap NamespacedWhatWhereFullKey WorkloadPartDetails) (t : NamespacedWhatWhereFullKey) :
  option WorkloadPartDetails :=
  if decide (goes_to_mailbox resourceModes t ∧ is_namespaced t = true) then B !! t else None.

Definition bound_cluster (resourceModes : GroupResource → ResourceMode)
  (B : gmap NamespacedWhatWhereFullKey WorkloadPartDetails) (key : ClusterWhatWhereFullKey) :
  option WorkloadPartDetails :=
  if decide (goes_to_mailbox resourceModes (fullKey key)) then B !! fullKey key else None.

Lemma clusterKey_fullKey key : clusterKey (fullKey key) = key.
Proof. by destruct key as [? [] ?]. Qed.

Lemma fullKey_clusterKey tup : is_namespaced tup = false → fullKey (clusterKey tup) = tup.
Proof. by destruct tup as [? [? [|] ?] ?]. Qed.

Lemma fullKey_not_namespaced key : is_namespaced (fullKey key) = false.
Proof. done. Qed.

Section requests.
Context (resourceModes : GroupResource → ResourceMode) (namespacedResource : GroupResource → bool).

(** The tables hold what is requested, and the requests respect the scopes. *)
Definition tables_match (r : Requests) (b : Bindings) : Prop :=
  (∀ t, b.1.1 !! t = bound_namespaced resourceModes r.1 t) ∧
  (∀ key, b.1.2 !! key = bound_cluster resourceModes r.1 key) ∧ b.2 = r.2 ∧
  (∀ t, is_Some (r.1 !! t) → is_namespaced t = namespacedResource (tFirst (tSecond t))).

Lemma tables_match_put tup val r b :
  op_scoped namespacedResource (BindingPut tup val) → tables_match r b →
  tables_match (request_op (BindingPut tup val) r) (spec_binding_op resourceModes (BindingPut tup val) b).
Proof.
  destruct r as [B U], b as [[N C] U']. unfold tables_match. cbn -[is_namespaced].
  intros Hsc (HN & HC & -> & HB). unfold spec_Put, bound_namespaced, bound_cluster in *.
  split_and!; [| |done|]; cycle 2.
  { intros t. destruct (decide (t = tup)) as [->|Hne]; [done|]. rw lookup_insert_ne //. apply HB. }
  - intros t. destruct (decide (goes_to_mailbox resourceModes tup)) as [Hm|Hm];
      [destruct (is_namespaced tup) eqn:Hns|]; cbn; destruct (decide (t = tup)) as [->|Hne];
      rw ?lookup_insert_eq ?lookup_insert_ne //; rw ?HN; repeat case_decide; intuition congruence.
  - intros key. destruct (decide (goes_to_mailbox resourceModes tup)) as [Hm|Hm];
      [destruct (is_namespaced tup) eqn:Hns|]; cbn; destruct (decide (fullKey key = tup)) as [<-|Hne];
      rw ?clusterKey_fullKey ?lookup_insert_eq ?(lookup_insert_ne B) //; rw ?HC //; try by case_decide.
    + rw lookup_insert_ne; [apply HC|]. intros <-. by rw fullKey_clusterKey in Hne.
Qed.

(** This is where the scopes matter: the deletion of a namespaced binding also deletes the
    cluster-scoped binding of the same name, which no request has made. *)
Lemma tables_match_delete tup r b :
  op_scoped namespacedResource (BindingDelete tup) → tables_match r b →
  tables_match (request_op (BindingDelete tup) r) (spec_binding_op resourceModes (BindingDelete tup) b).
Proof.
  destruct r as [B U], b as [[N C] U']. unfold tables_match. cbn -[is_namespaced].
  intros Hsc (HN & HC & -> & HB). unfold spec_Delete, bound_namespaced, bound_cluster in *.
  split_and!; [| |done|]; cycle 2.
  { intros t [v [_ Hv]%lookup_delete_Some]. by apply HB. }
  - intros t. destruct (decide (goes_to_mailbox resourceModes tup)) as [Hm|Hm];
      [destruct (is_namespaced tup) eqn:Hns|]; cbn; destruct (decide (t = tup)) as [->|Hne];
      rw ?lookup_delete_eq ?lookup_delete_ne //; rw ?HN; repeat case_decide; intuition congruence.
  - intros key. destruct (decide (goes_to_mailbox resourceModes tup)) as [Hm|Hm]; cbn; cycle 1.
    { rw HC. case_decide; [|done]. rw lookup_delete_ne //. naive_solver. }
    destruct (decide (clusterKey tup = key)) as [<-|Hne]; cycle 1.
    { rw lookup_delete_ne // HC. case_decide; [|done]. rw lookup_delete_ne //.
      intros ->. by rw clusterKey_fullKey in Hne. }
    rw lookup_delete_eq. case_decide; [|done]. symmetry. destruct (is_namespaced tup) eqn:Hns.
    + apply lookup_delete_None. right. apply eq_None_not_Some. intros Hb%HB.
      change (is_namespaced (fullKey (clusterKey tup)) = namespacedResource (tFirst (tSecond tup))) in Hb.
      by rw -Hsc fullKey_not_namespaced in Hb.
    + by rw fullKey_clusterKey // lookup_delete_eq.
Qed.

Lemma tables_match_op op r b :
  op_scoped namespacedResource op → tables_match r b →
  tables_match (request_op op r) (spec_binding_op resourceModes op b).
Proof.
  destruct op; [apply tables_match_put|apply tables_match_delete|].
  intros _ (? & ? & Hu & ?). split_and!; try done. cbn. by rw Hu.
Qed.

Lemma tables_match_ops transactions : ∀ r b,
  Forall (Forall (op_scoped namespacedResource)) transactions → tables_match r b →
  tables_match (for_each transactions (λ ops, for_each ops request_op) r)
    (for_each transactions (λ ops, for_each ops (spec_binding_op resourceModes)) b).
Proof.
  induction transactions as [|ops txs IH]; intros r b; [done|].
  intros [Hops Htxs]%Forall_cons Hrb. rw !for_each_cons. apply IH; [done|]. clear IH Htxs.
  revert r b Hrb. induction Hops as [|op ops Hop Hops IH]; intros r b Hrb; [done|].
  rw !for_each_cons. by apply IH, tables_match_op.
Qed.

Lemma tables_match_empty : tables_match (∅, ∅) (∅, ∅, ∅).
Proof.
  split_and!; [intros t|intros key|done|intros t [v Hv]].
  - unfold bound_namespaced. cbn. by case_decide; rw ?lookup_empty.
  - unfold bound_cluster. cbn. by case_decide; rw ?lookup_empty.
  - cbn in Hv. by rw lookup_empty in Hv.
Qed.
End requests.

Section transactions.
Context `{MapRange} {W P : Type} (sboCell : Cell W simpleBindingOrganizer) (pCell : Cell W P).
Context `{!CellOk sboCell, !CellOk pCell, Hsp : !Indep sboCell (cget pCell)}
  `{Hps : !Indep pCell (cget sboCell)}.
Context (T : gmap NamespacedDistributionTuple DistributionBits →
  gmap ProjectionModeKey ProjectionModeVal →
  gmap NonNamespacedDistributionTuple DistributionBits →
  gmap ProjectionModeKey ProjectionModeVal →
  gset (SinglePlacement * UpsyncSet) → P → Prop).
Context (wp : WorkloadProjector P) `{Hwp : !WorkloadProjectorSim T wp}.
Context (discovery_AddReceivers : string → P → P) (resourceModes : GroupResource → ResourceMode).
Context (Hdisc : ∀ cluster nd nm cd cm us p,
  T nd nm cd cm us p → T nd nm cd cm us (discovery_AddReceivers cluster p)).
Context (Hmodes : ∀ gr, is_Some (ResourceMode_GoesToMailbox (resourceModes gr))).

Definition bindings_inv (b : Bindings) (w : W) : Prop :=
  organizer_inv sboCell pCell T b.1.1 b.1.2 b.2 w.

Lemma binding_op_step wps `{!SectionsSim T wps} op b w :
  bindings_inv b w →
  bindings_inv (spec_binding_op resourceModes op b)
    (run_binding_op op (sboXnOps sboCell pCell discovery_AddReceivers resourceModes wps)
       (receiveUpsyncChange sboCell pCell wps) w).
Proof.
  destruct b as [[N C] U]. intros Hw. unfold bindings_inv in *. destruct op as [tup val|tup|add tup]; cbn.
  - pose proof (sboXnOps_put_step sboCell pCell T wps discovery_AddReceivers resourceModes Hdisc
      Hmodes tup val N C U w Hw) as Hp. by destruct (spec_Put _ _ _ _ _).
  - pose proof (sboXnOps_delete_step sboCell pCell T wps discovery_AddReceivers resourceModes
      Hmodes tup N C U w Hw) as Hp. by destruct (spec_Delete _ _ _ _).
  - destruct Hw as (S & Hw & HN & HC). exists S. split; [|done]. destruct add.
    + by apply (sim_add (SetWriterSim:=upsyncs_sim sboCell pCell T wps _ _ _)).
    + by apply (sim_remove (SetWriterSim:=upsyncs_sim sboCell pCell T wps _ _ _)).
Qed.

(** A transaction whose body keeps an invariant that implies the organizer's. *)
Lemma Transact_step (xn : SingleBindingOps W → UpsyncOps W → W → W) b b' w :
  (∀ wps w, SectionsSim T wps → bindings_inv b w →
     bindings_inv b' (xn (sboXnOps sboCell pCell discovery_AddReceivers resourceModes wps)
       (receiveUpsyncChange sboCell pCell wps) w)) →
  bindings_inv b w →
  bindings_inv b' (simpleBindingOrganizer_Transact sboCell pCell discovery_AddReceivers resourceModes
    wp xn w).
Proof.
  clear Hdisc Hmodes. intros Hxn (S & (Hn & Hc & Hu & HS & HT) & HN & HC).
  unfold simpleBindingOrganizer_Transact.
  destruct (wp_begin_ok T _ _ _ _ _ _ HT) as [Hsec HT'].
  destruct (wp_begin wp (cget pCell w)) as [wps p]. cbn in Hsec, HT'.
  destruct (Hxn wps (cset pCell p w) Hsec) as (S' & (? & ? & ? & ? & HT2) & ? & ?).
  { exists S. split; [|done]. unfold organizer_in_step. cbv zeta. rw Hps cget_cset. by split_and!. }
  exists S'. split; [|done]. unfold organizer_in_step. cbv zeta. rw Hps cget_cset.
  split_and!; try done. by apply (wp_end_ok T).
Qed.

Lemma transaction_step ops b w :
  bindings_inv b w →
  bindings_inv (for_each ops (spec_binding_op resourceModes) b)
    (simpleBindingOrganizer_Transact sboCell pCell discovery_AddReceivers resourceModes wp
       (λ sbops upsyncOps w, for_each ops (λ op w, run_binding_op op sbops upsyncOps w) w) w).
Proof.
  apply Transact_step. intros wps w' Hsec. revert b w'.
  induction ops as [|op ops IH]; intros b w' Hw; [done|]. rw !for_each_cons.
  by apply IH, binding_op_step.
Qed.

Lemma empty_organizer_inv w :
  cget sboCell w = empty_organizer → T ∅ ∅ ∅ ∅ ∅ (cget pCell w) →
  bindings_inv (∅, ∅, ∅) w.
Proof.
  clear Hdisc Hmodes Hwp Hps Hsp. intros Hs HT. exists ∅. split; [|set_solver].
  unfold organizer_in_step. rw Hs. cbn.
  split_and!; try done.
  split.
  - apply (hashRelation_empty_wf (PairHashDomain HashSinglePlacement HashUpsyncSet) HashExternalName).
  - apply hashRelation_empty_abs.
Qed.

Lemma transactions_step transactions : ∀ b w,
  bindings_inv b w →
  bindings_inv (for_each transactions (λ ops, for_each ops (spec_binding_op resourceModes)) b)
    (for_each transactions (λ ops,
      simpleBindingOrganizer_Transact sboCell pCell discovery_AddReceivers resourceModes wp
      (λ sbops upsyncOps w, for_each ops (λ op w, run_binding_op op sbops upsyncOps w) w)) w).
Proof.
  induction transactions as [|ops txs IH]; intros b w Hw; [done|]. rw !for_each_cons.
  by apply IH, transaction_step.
Qed.

(** C2: the organizer keeps the workload projector informed, provided that every resource
    has one of the known propagation modes and that each resource is either namespaced or
    cluster-scoped, so that its objects either all have a namespace or all have none. The
    bindings requested are those put and not deleted since, whole tuples of EdgePlacement,
    object and destination. After any sequence of transactions, each a sequence of binding
    and upsync changes that respect the scopes, the projector has been told of exactly: for
    each object of a resource that goes to the mailbox and is requested by at least one
    EdgePlacement for a destination, a distribution whose bits are the disjunction over
    those EdgePlacements; for each such resource and destination with such an object, a
    projection mode with the API version of one of the bindings; and for each upsync
    requested by some EdgePlacement of a destination, that upsync. *)
Theorem organizer_informs_projector (namespacedResource : GroupResource → bool)
  (transactions : list (list BindingOp)) w :
  cget sboCell w = empty_organizer → T ∅ ∅ ∅ ∅ ∅ (cget pCell w) →
  Forall (Forall (op_scoped namespacedResource)) transactions →
  let w' := for_each transactions (λ ops,
    simpleBindingOrganizer_Transact sboCell pCell discovery_AddReceivers resourceModes wp
      (λ sbops upsyncOps w, for_each ops (λ op w, run_binding_op op sbops upsyncOps w) w)) w in
  let '(B, U) := for_each transactions (λ ops, for_each ops request_op) (∅, ∅) in
  ∃ nd nm cd cm us, T nd nm cd cm us (cget pCell w') ∧
    distributes factorNamespacedWhatWhereFullKey (bound_namespaced resourceModes B) nd ∧
    picks_versions factorNamespacedWhatWhereFullKey (bound_namespaced resourceModes B) nm ∧
    distributes factorClusterWhatWhereFullKey (bound_cluster resourceModes B) cd ∧
    picks_versions factorClusterWhatWhereFullKey (bound_cluster resourceModes B) cm ∧
    (∀ sp upsync, (sp, upsync) ∈ us ↔ ∃ ep, NewTriple ep upsync sp ∈ U).
Proof.
  intros Hs HT Hsc. cbv zeta.
  pose proof (transactions_step transactions _ _ (empty_organizer_inv w Hs HT)) as Hrun.
  pose proof (tables_match_ops resourceModes namespacedResource transactions (∅, ∅) (∅, ∅, ∅) Hsc
    (tables_match_empty _ _)) as Hm.
  destruct (for_each transactions (λ ops, for_each ops (spec_binding_op resourceModes)) (∅, ∅, ∅))
    as [[N C] U'].
  destruct (for_each transactions (λ ops, for_each ops request_op) (∅, ∅)) as [B U].
  destruct Hrun as (S & (Hn & Hc & Hu & _ & HT') & _), Hm as (HN & HC & HU & _). cbn in HN, HC, HU.
  subst U'. eexists _, _, _, _, _. split; [exact HT'|].
  split_and!; [eapply distributes_ext; [exact HN|exact (scope_wf_distributes _ _ _ _ Hn)]
    |eapply picks_versions_ext; [exact HN|exact (scope_wf_picks _ _ _ _ Hn)]
    |eapply distributes_ext; [exact HC|exact (scope_wf_distributes _ _ _ _ Hc)]
    |eapply picks_versions_ext; [exact HC|exact (scope_wf_picks _ _ _ _ Hc)]|].
  intros sp us. unfold projection. rw elem_of_map. split.
  - intros ([ep us' sp'] & [= -> ->] & Hin). by exists ep.
  - intros (ep & Hin). by exists (NewTriple ep us sp).
Qed.
End transactions.
