(* ===== verification/SetBinder.v ===== *)
(** The set binder (set-binder-assembly.go) and the wiring of the differencers
    (main.go): it receives, per EdgePlacement, the workload parts and upsyncs to
    distribute (what) and the destinations (where), and drives the single binder
    with the changes of the joins of the two.

    The set binder is verified against the interface [SingleBinder] that it calls,
    with the contract [SingleBinderSim].  As in the organizer, the fields
    [singleBindingOps] and [upsyncOps], which are set for the duration of a
    transaction, are arguments of the receivers. *)

From S2P Require Import Prelude Tuples Interfaces Slices Sets Maps Types HashDomains HashMap.
From S2P Require Import Relations FactoredMap Receivers Differencers Joins Organizer.

Record ResolvedWhat : Type := MkResolvedWhat {
  rwDownsync : WorkloadParts;
  rwUpsync : list UpsyncSet
}.

(** interface [SingleBinder], its method [Transact] *)
Definition SingleBinder (W : Type) : Type := (SingleBindingOps W → UpsyncOps W → W → W) → W → W.

(** * State *)

(** The states of the three differencers of one EdgePlacement. *)
Record setBindingForPlacement : Type := MkSetBindingForPlacement {
  sbp_parts : gmap WorkloadPartID WorkloadPartDetails;
  sbp_upsyncs : list UpsyncSet;
  sbp_where : MapSet SinglePlacement
}.

Record setBinder : Type := MkSetBinder {
  sb_perCluster : gmap string (gmap ObjectName setBindingForPlacement);
  (** the tables of the downsync join *)
  sb_xyv : gmap ExternalName (gmap WorkloadPartID WorkloadPartDetails);
  sb_xz : MapRelation2Rep ExternalName SinglePlacement;
  (** the tables of the upsync join *)
  sb_uxy : HashRelation2Rep ExternalName UpsyncSet;
  sb_uxz : HashRelation2Rep ExternalName SinglePlacement
}.

Definition empty_placement : setBindingForPlacement := MkSetBindingForPlacement ∅ [] ∅.
Definition empty_binder : setBinder := MkSetBinder ∅ ∅ ∅ emptyBuckets emptyBuckets.

Definition perCluster_cell : Cell setBinder _ :=
  MkCell sb_perCluster (λ x s, MkSetBinder x (sb_xyv s) (sb_xz s) (sb_uxy s) (sb_uxz s)).
Definition xyv_cell : Cell setBinder _ :=
  MkCell sb_xyv (λ x s, MkSetBinder (sb_perCluster s) x (sb_xz s) (sb_uxy s) (sb_uxz s)).
Definition xz_cell : Cell setBinder _ :=
  MkCell sb_xz (λ x s, MkSetBinder (sb_perCluster s) (sb_xyv s) x (sb_uxy s) (sb_uxz s)).
Definition uxy_cell : Cell setBinder _ :=
  MkCell sb_uxy (λ x s, MkSetBinder (sb_perCluster s) (sb_xyv s) (sb_xz s) x (sb_uxz s)).
Definition uxz_cell : Cell setBinder _ :=
  MkCell sb_uxz (λ x s, MkSetBinder (sb_perCluster s) (sb_xyv s) (sb_xz s) (sb_uxy s) x).

(** The object of an EdgePlacement, which [ensurePlacement] has made. *)
Definition placement_cell (epID : ExternalName)
  : Cell (gmap string (gmap ObjectName setBindingForPlacement)) setBindingForPlacement :=
  MkCell
    (λ pc, default empty_placement (pc !! enCluster epID ≫= (.!! enName epID)))
    (λ sbp pc, <[enCluster epID := <[enName epID := sbp]> (default ∅ (pc !! enCluster epID))]> pc).

Definition parts_cell : Cell setBindingForPlacement _ :=
  MkCell sbp_parts (λ x s, MkSetBindingForPlacement x (sbp_upsyncs s) (sbp_where s)).
Definition sbp_upsyncs_cell : Cell setBindingForPlacement _ :=
  MkCell sbp_upsyncs (λ x s, MkSetBindingForPlacement (sbp_parts s) x (sbp_where s)).
Definition where_cell : Cell setBindingForPlacement _ :=
  MkCell sbp_where (λ x s, MkSetBindingForPlacement (sbp_parts s) (sbp_upsyncs s) x).

(** * Operations *)

Section set_binder.
Context `{MapRange} {W : Type} (sbCell : Cell W setBinder) (singleBinder : SingleBinder W).

Section receivers.
Context (singleBindingOps : SingleBindingOps W) (upsyncOps : UpsyncOps W).

Definition downsyncJoin
  : MappingReceiver W (Pair ExternalName WorkloadPartID) WorkloadPartDetails *
    SetWriter W (Pair ExternalName SinglePlacement) :=
  NewDynamicFullJoin12VWith13 (compose_cell sbCell xyv_cell) (compose_cell sbCell xz_cell)
    (NewMappingReceiverFuncs
       (λ tup workloadPartDetails w, mr_Put singleBindingOps tup workloadPartDetails w)
       (λ tup w, mr_Delete singleBindingOps tup w)).

Definition upsyncJoin
  : SetWriter W (Pair ExternalName UpsyncSet) * SetWriter W (Pair ExternalName SinglePlacement) :=
  NewDynamicFullJoin12with13Parametric HashExternalName HashUpsyncSet HashSinglePlacement
    (compose_cell sbCell uxy_cell) (compose_cell sbCell uxz_cell)
    (NewSetWriterFuncs (λ tup w, (true, upsyncOps true tup w)) (λ tup w, (true, upsyncOps false tup w))).

Definition bothJoinRightInput : SetWriter W (Pair ExternalName SinglePlacement) :=
  SetWriterFork true [downsyncJoin.2; upsyncJoin.2].

Definition placementCell (epID : ExternalName) : Cell W setBindingForPlacement :=
  compose_cell (compose_cell sbCell perCluster_cell) (placement_cell epID).

(** The receivers made by [ensurePlacement], with the constructors of main.go. *)
Definition downsyncPartsReceiver (epID : ExternalName) : Receiver W WorkloadParts :=
  NewWorkloadPartsDifferencer
    (MappingReceiverFuncs_AsMapChangeReceiver
       (Some (λ partID partDetails w, mr_Put downsyncJoin.1 (NewPair epID partID) partDetails w))
       (Some (λ partID w, mr_Delete downsyncJoin.1 (NewPair epID partID) w)))
    (compose_cell (placementCell epID) parts_cell).

Definition NewUpsyncDifferencer (eltReceiver : SetChangeReceiver W UpsyncSet)
  (c : Cell W (list UpsyncSet)) : Receiver W (list UpsyncSet) :=
  sliceDifferencer_Receive UpsyncSetEqual eltReceiver c.

Definition upsyncReceiver (epID : ExternalName) : Receiver W (list UpsyncSet) :=
  NewUpsyncDifferencer
    (λ add upTerm w,
       if add : bool then (sw_Add upsyncJoin.1 (NewPair epID upTerm) w).2
       else (sw_Remove upsyncJoin.1 (NewPair epID upTerm) w).2)
    (compose_cell (placementCell epID) sbp_upsyncs_cell).

Definition resolvedWhereReceiver (epID : ExternalName) : Receiver W ResolvedWhere :=
  NewResolvedWhereDifferencer
    (TransformSetWriter (NewPair1Then2 epID) bothJoinRightInput)
    (compose_cell (placementCell epID) where_cell).
End receivers.

(** The result tells whether there is an object for the cluster. *)
Definition getCluster (cluster : string) (want : bool) (w : W) : bool * W :=
  let c := compose_cell sbCell perCluster_cell in
  match cget c w !! cluster with
  | Some _ => (true, w)
  | None => if want then (true, cset c (<[cluster:=∅]> (cget c w)) w) else (false, w)
  end.

(** On a cluster that [getCluster] has made sure of. *)
Definition ensurePlacement (epID : ExternalName) (w : W) : W :=
  let c := compose_cell sbCell perCluster_cell in
  match cget c w !! enCluster epID ≫= (.!! enName epID) with
  | Some _ => w
  | None => cset (placementCell epID) empty_placement w
  end.

Definition sbAsResolvedWhatReceiver_Put (epName : ExternalName) (resolvedWhat : ResolvedWhat) (w : W)
  : W :=
  let '(_, w) := getCluster (enCluster epName) true w in
  singleBinder (λ downsyncOps upsyncOps w,
    let w := ensurePlacement epName w in
    let w := downsyncPartsReceiver downsyncOps epName (rwDownsync resolvedWhat) w in
    upsyncReceiver upsyncOps epName (rwUpsync resolvedWhat) w) w.

Definition sbAsResolvedWhatReceiver_Delete (epName : ExternalName) (w : W) : W :=
  let '(sbc, w) := getCluster (enCluster epName) false w in
  if negb sbc then w
  else
    singleBinder (λ sbo upsyncOps w,
      let w := ensurePlacement epName w in
      let w := downsyncPartsReceiver sbo epName None w in
      upsyncReceiver upsyncOps epName [] w) w.

Definition sbAsResolvedWhereReceiver_Put (epName : ExternalName) (resolvedWhere : ResolvedWhere)
  (w : W) : W :=
  let '(_, w) := getCluster (enCluster epName) true w in
  singleBinder (λ sbo uso w,
    let w := ensurePlacement epName w in
    resolvedWhereReceiver sbo uso epName resolvedWhere w) w.

Definition sbAsResolvedWhereReceiver_Delete (epName : ExternalName) (w : W) : W :=
  let '(sbc, w) := getCluster (enCluster epName) false w in
  if negb sbc then w
  else
    singleBinder (λ sbo uso w,
      let w := ensurePlacement epName w in
      resolvedWhereReceiver sbo uso epName [] w) w.
End set_binder.

#[export] Instance perCluster_cell_ok : CellOk perCluster_cell. Proof. by split. Qed.
#[export] Instance xyv_cell_ok : CellOk xyv_cell. Proof. by split. Qed.
#[export] Instance xz_cell_ok : CellOk xz_cell. Proof. by split. Qed.
#[export] Instance uxy_cell_ok : CellOk uxy_cell. Proof. by split. Qed.
#[export] Instance uxz_cell_ok : CellOk uxz_cell. Proof. by split. Qed.
#[export] Instance parts_cell_ok : CellOk parts_cell. Proof. by split. Qed.
#[export] Instance sbp_upsyncs_cell_ok : CellOk sbp_upsyncs_cell. Proof. by split. Qed.
#[export] Instance where_cell_ok : CellOk where_cell. Proof. by split. Qed.
#[export] Instance placement_cell_ok epID : CellOk (placement_cell epID).
Proof.
  split; intros; cbn; rw lookup_insert_eq /= ?lookup_insert_eq //. by rw !insert_insert_eq.
Qed.

#[export] Hint Extern 1 (Indep perCluster_cell (cget _)) => (intros ??; reflexivity)
  : typeclass_instances.
#[export] Hint Extern 1 (Indep xyv_cell (cget _)) => (intros ??; reflexivity) : typeclass_instances.
#[export] Hint Extern 1 (Indep xz_cell (cget _)) => (intros ??; reflexivity) : typeclass_instances.
#[export] Hint Extern 1 (Indep uxy_cell (cget _)) => (intros ??; reflexivity) : typeclass_instances.
#[export] Hint Extern 1 (Indep uxz_cell (cget _)) => (intros ??; reflexivity) : typeclass_instances.

(** * What the set binder relies on *)

(** [B M U w]: in [w] the single binder has been told of the bindings [M] and the
    upsyncs [U].  During a transaction its operations keep track of the changes
    and do not touch the set binder's own state. *)
Section single_binder_contract.
Context {W : Type} (sbCell : Cell W setBinder).
Context (B : gmap NamespacedWhatWhereFullKey WorkloadPartDetails →
  gset (Triple ExternalName UpsyncSet SinglePlacement) → W → Prop).

Class OpsSim (ops : SingleBindingOps W) (upsyncOps : UpsyncOps W) : Prop := {
  ops_sim : ∀ U, MappingReceiverSim ops (λ M, B M U);
  ops_add : ∀ M U tup w, B M U w → B M ({[tup]} ∪ U) (upsyncOps true tup w);
  ops_remove : ∀ M U tup w, B M U w → B M (U ∖ {[tup]}) (upsyncOps false tup w);
  ops_quiet : QuietMR ops (cget sbCell);
  ops_upsync_quiet : ∀ add tup w, cget sbCell (upsyncOps add tup w) = cget sbCell w
}.

Class SingleBinderSim (singleBinder : SingleBinder W) : Prop := {
  binder_frame : Indep sbCell (λ w M U, B M U w);
  transact_ok : ∀ (R : _ → _ → setBinder → Prop) xn M U w,
    B M U w →
    (∀ ops upsyncOps w', OpsSim ops upsyncOps → B M U w' → cget sbCell w' = cget sbCell w →
       ∃ M' U', B M' U' (xn ops upsyncOps w') ∧ R M' U' (cget sbCell (xn ops upsyncOps w'))) →
    ∃ M' U', B M' U' (singleBinder xn w) ∧ R M' U' (cget sbCell (singleBinder xn w))
}.
End single_binder_contract.

(** * The joins *)

Section binder_joins.
Context `{MapRange} {W : Type} (sbCell : Cell W setBinder) `{!CellOk sbCell}.
Context (B : gmap NamespacedWhatWhereFullKey WorkloadPartDetails →
  gset (Triple ExternalName UpsyncSet SinglePlacement) → W → Prop).
Context (Hframe : Indep sbCell (λ w M U, B M U w)).
Context (ops : SingleBindingOps W) (upsyncOps : UpsyncOps W) `{Hops : !OpsSim sbCell B ops upsyncOps}.

Abbreviation map_wf := (indexed_wf (λ _, True) id (λ _, True) id).
Abbreviation map_abs := (indexed_abs PairFactorer id id).
Abbreviation hash_wf dA dB := (indexed_wf (hashMap_wf dB) (λ hm : buckets _ Empty, dom (hashMap_abs hm))
  (hashMap_wf dA) hashMap_abs).
Abbreviation hash_abs := (indexed_abs PairFactorer (λ hm : buckets _ Empty, dom (hashMap_abs hm))
  hashMap_abs).

Definition downsync_tables (m : gmap (ExternalName * WorkloadPartID) WorkloadPartDetails)
  (S : gset (ExternalName * SinglePlacement)) (s : setBinder) : Prop :=
  (∀ a i, sb_xyv s !! a = Some i → i ≠ ∅) ∧ flatten PairFactorer id (sb_xyv s) = m ∧
  map_wf (sb_xz s) ∧ map_abs (sb_xz s) = S.

Definition upsync_tables (S1 : gset (ExternalName * UpsyncSet))
  (S : gset (ExternalName * SinglePlacement)) (s : setBinder) : Prop :=
  hash_wf HashExternalName HashUpsyncSet (sb_uxy s) ∧ hash_abs (sb_uxy s) = S1 ∧
  hash_wf HashExternalName HashSinglePlacement (sb_uxz s) ∧ hash_abs (sb_uxz s) = S.

(** The joins hold the given inputs, the single binder their results, and the
    rest of the set binder's state is [pc]. *)
Definition joins_in_step pc m S1 Sd Su (w : W) : Prop :=
  sb_perCluster (cget sbCell w) = pc ∧ downsync_tables m Sd (cget sbCell w) ∧
  upsync_tables S1 Su (cget sbCell w) ∧
  ∃ t tu, is_joinV m Sd t ∧ is_join S1 Su tu ∧ B t tu w.

(** What the downsync join leaves alone. *)
Definition downsync_rest pc S1 Su (t : gmap NamespacedWhatWhereFullKey WorkloadPartDetails) (w : W) :=
  sb_perCluster (cget sbCell w) = pc ∧ upsync_tables S1 Su (cget sbCell w) ∧
  ∃ tu, is_join S1 Su tu ∧ B t tu w.

Abbreviation down_receiver := (NewMappingReceiverFuncs
  (λ tup workloadPartDetails w, mr_Put ops tup workloadPartDetails w) (λ tup w, mr_Delete ops tup w)).

#[local] Instance down_receiver_quiet {X} (f : W → X) :
  QuietMR ops f → QuietMR down_receiver f.
Proof. intros Hq. split; intros; apply Hq. Qed.

#[local] Instance sub_quiet {R} (d : Cell setBinder R) : QuietMR ops (cget (compose_cell sbCell d)).
Proof. destruct Hops as [_ _ _ Hq _]. by apply quiet_mr_compose. Qed.

Lemma downsync_rest_sim pc S1 Su : MappingReceiverSim down_receiver (downsync_rest pc S1 Su).
Proof.
  destruct Hops as [Hs _ _ Hq _]. split.
  - intros k v t w (? & ? & tu & ? & ?). cbn. unfold downsync_rest. rw quiet_put.
    split_and!; [done..|]. exists tu. split; [done|]. by apply (sim_put (MappingReceiverSim:=Hs tu)).
  - intros k t w (? & ? & tu & ? & ?). cbn. unfold downsync_rest. rw quiet_delete.
    split_and!; [done..|]. exists tu. split; [done|]. by apply (sim_delete (MappingReceiverSim:=Hs tu)).
Qed.

(** Changing one of the fields of the set binder. *)
Lemma B_updated {R} (d : Cell setBinder R) r w w' :
  Updated (compose_cell sbCell d) r w w' → ∀ M U, B M U w' = B M U w.
Proof.
  clear Hops. intros Hu M U.
  assert ((λ M U, B M U w') = (λ M U, B M U w)) as Heq.
  { apply (Updated_indep (compose_cell sbCell d) (λ w M U, B M U w) r w w' Hu). apply _. }
  exact (f_equal (λ f, f M U) Heq).
Qed.

Lemma field_updated {R X} (d : Cell setBinder R) (e : Cell setBinder X) `{!Indep d (cget e)} r w w' :
  Updated (compose_cell sbCell d) r w w' → cget e (cget sbCell w') = cget e (cget sbCell w).
Proof.
  clear Hops Hframe. intros Hu.
  apply (Updated_indep (compose_cell sbCell d) (cget (compose_cell sbCell e)) r w w' Hu). apply _.
Qed.

Lemma downsync_rest_updated {R} (d : Cell setBinder R)
  `{!Indep d (cget perCluster_cell), !Indep d (cget uxy_cell), !Indep d (cget uxz_cell)}
  pc S1 Su t r w w' :
  Updated (compose_cell sbCell d) r w w' →
  downsync_rest pc S1 Su t w → downsync_rest pc S1 Su t w'.
Proof.
  clear Hops. intros Hu. unfold downsync_rest, upsync_tables.
  change (sb_perCluster (cget sbCell ?w)) with (cget perCluster_cell (cget sbCell w)).
  change (sb_uxy (cget sbCell ?w)) with (cget uxy_cell (cget sbCell w)).
  change (sb_uxz (cget sbCell ?w)) with (cget uxz_cell (cget sbCell w)).
  rw !(field_updated d _ r w w' Hu). intros (? & (? & ? & ? & ?) & tu & ? & ?). split_and!; [done..|].
  exists tu. by rw (B_updated d r w w' Hu).
Qed.

Lemma downsync_left_sim pc S1 Sd Su :
  MappingReceiverSim (downsyncJoin sbCell ops).1 (λ m, joins_in_step pc m S1 Sd Su).
Proof.
  eapply MappingReceiverSim_iff; [|apply (joinV_left_sim (compose_cell sbCell xyv_cell)
    (compose_cell sbCell xz_cell) down_receiver (downsync_rest pc S1 Su) (Hsim:=downsync_rest_sim _ _ _))].
  - intros m w. unfold joinV_in_step, joins_in_step, downsync_tables, downsync_rest. cbn.
    split; intros; destruct_and!; repeat case_match; naive_solver.
  - intros t s w. apply (downsync_rest_updated xyv_cell _ _ _ _ s). apply (Updated_cset (compose_cell sbCell xyv_cell)).
Qed.

Lemma downsync_right_sim pc m S1 Su :
  SetWriterSim (downsyncJoin sbCell ops).2 (λ Sd, joins_in_step pc m S1 Sd Su).
Proof.
  eapply SetWriterSim_iff; [|apply (joinV_right_sim (compose_cell sbCell xyv_cell)
    (compose_cell sbCell xz_cell) down_receiver (downsync_rest pc S1 Su) (Hsim:=downsync_rest_sim _ _ _))].
  - intros Sd w. unfold joinV_in_step, joins_in_step, downsync_tables, downsync_rest. cbn.
    split; intros; destruct_and!; repeat case_match; naive_solver.
  - intros t r w w' Hu. by apply (downsync_rest_updated xz_cell _ _ _ _ r w).
Qed.

(** What the upsync join leaves alone. *)
Definition upsync_rest (pc : gmap string (gmap ObjectName setBindingForPlacement))
  (m : gmap (ExternalName * WorkloadPartID) WorkloadPartDetails) (Sd : gset (ExternalName * SinglePlacement))
  (tu : gset (Triple ExternalName UpsyncSet SinglePlacement)) (w : W) :=
  sb_perCluster (cget sbCell w) = pc ∧ downsync_tables m Sd (cget sbCell w) ∧
  ∃ t, is_joinV m Sd t ∧ B t tu w.

Abbreviation up_receiver := (NewSetWriterFuncs (λ tup w, (true, upsyncOps true tup w))
  (λ tup w, (true, upsyncOps false tup w))).

#[local] Instance up_receiver_quiet {R} (d : Cell setBinder R) :
  QuietSW up_receiver (cget (compose_cell sbCell d)).
Proof. destruct Hops as [_ _ _ _ Hq]. split; intros; cbn; by rw Hq. Qed.

Lemma upsync_rest_add pc m Sd e tu w :
  e ∉ tu → upsync_rest pc m Sd tu w →
  upsync_rest pc m Sd ({[e]} ∪ tu) (sw_Add up_receiver e w).2.
Proof.
  destruct Hops as [_ Ha _ _ Hq]. intros _ (Hpc & Hd & t & Ht & HB). cbn. unfold upsync_rest. rw Hq.
  split; [done|]. split; [done|]. exists t. split; [done|]. by apply Ha.
Qed.

Lemma upsync_rest_remove pc m Sd e tu w :
  e ∈ tu → upsync_rest pc m Sd tu w →
  upsync_rest pc m Sd (tu ∖ {[e]}) (sw_Remove up_receiver e w).2.
Proof.
  destruct Hops as [_ _ Hr _ Hq]. intros _ (Hpc & Hd & t & Ht & HB). cbn. unfold upsync_rest. rw Hq.
  split; [done|]. split; [done|]. exists t. split; [done|]. by apply Hr.
Qed.

Lemma upsync_rest_updated {R} (d : Cell setBinder R)
  `{!Indep d (cget perCluster_cell), !Indep d (cget xyv_cell), !Indep d (cget xz_cell)}
  pc m Sd tu r w w' :
  Updated (compose_cell sbCell d) r w w' →
  upsync_rest pc m Sd tu w → upsync_rest pc m Sd tu w'.
Proof.
  clear Hops. intros Hu. unfold upsync_rest, downsync_tables.
  change (sb_perCluster (cget sbCell ?w)) with (cget perCluster_cell (cget sbCell w)).
  change (sb_xyv (cget sbCell ?w)) with (cget xyv_cell (cget sbCell w)).
  change (sb_xz (cget sbCell ?w)) with (cget xz_cell (cget sbCell w)).
  rw !(field_updated d _ r w w' Hu). intros (? & (? & ? & ? & ?) & t & ? & ?). split_and!; [done..|].
  exists t. by rw (B_updated d r w w' Hu).
Qed.

Lemma upsync_left_sim pc m Sd Su :
  SetWriterSim (upsyncJoin sbCell upsyncOps).1 (λ S1, joins_in_step pc m S1 Sd Su).
Proof.
  eapply SetWriterSim_iff; [|apply (join_left_sim
    (NewHashRelation2 HashExternalName HashUpsyncSet (compose_cell sbCell uxy_cell))
    (compose_cell sbCell uxy_cell) _ _
    (NewHashRelation2 HashExternalName HashSinglePlacement (compose_cell sbCell uxz_cell))
    (compose_cell sbCell uxz_cell) _ _ up_receiver (upsync_rest pc m Sd))].
  - intros S1 w. unfold join_in_step, joins_in_step, upsync_tables, upsync_rest. cbn.
    split; intros; destruct_and!; repeat case_match; naive_solver.
  - intros t r w w' Hu. by apply (upsync_rest_updated uxy_cell _ _ _ _ r w).
  - apply upsync_rest_add.
  - apply upsync_rest_remove.
Qed.

Lemma upsync_right_sim pc m S1 Sd :
  SetWriterSim (upsyncJoin sbCell upsyncOps).2 (λ Su, joins_in_step pc m S1 Sd Su).
Proof.
  eapply SetWriterSim_iff; [|apply (join_right_sim
    (NewHashRelation2 HashExternalName HashUpsyncSet (compose_cell sbCell uxy_cell))
    (compose_cell sbCell uxy_cell) _ _
    (NewHashRelation2 HashExternalName HashSinglePlacement (compose_cell sbCell uxz_cell))
    (compose_cell sbCell uxz_cell) _ _ up_receiver (upsync_rest pc m Sd))].
  - intros Su w. unfold join_in_step, joins_in_step, upsync_tables, upsync_rest. cbn.
    split; intros; destruct_and!; repeat case_match; naive_solver.
  - intros t r w w' Hu. by apply (upsync_rest_updated uxz_cell _ _ _ _ r w).
  - apply upsync_rest_add.
  - apply upsync_rest_remove.
Qed.

Lemma both_right_sim pc m S1 :
  SetWriterSim (bothJoinRightInput sbCell ops upsyncOps) (λ S, joins_in_step pc m S1 S S).
Proof.
  apply (SetWriterFork2_sim true _ _ (λ Sd Su, joins_in_step pc m S1 Sd Su)).
  - intros Su. apply downsync_right_sim.
  - intros Sd. apply upsync_right_sim.
Qed.

(** * The differencers of one EdgePlacement *)

(** [upd ep x F] is the function [F] changed at [ep]. *)
Definition upd {A} (ep : ExternalName) (x : A) (F : ExternalName → A) : ExternalName → A :=
  λ ep', if decide (ep' = ep) then x else F ep'.

Implicit Types (Ps : ExternalName → gmap WorkloadPartID WorkloadPartDetails)
  (Us : ExternalName → gset UpsyncSet) (Ws : ExternalName → gset SinglePlacement)
  (ep : ExternalName).

Definition inputs_are Ps Us Ws (m : gmap (ExternalName * WorkloadPartID) WorkloadPartDetails)
  (S1 : gset (ExternalName * UpsyncSet)) (S : gset (ExternalName * SinglePlacement)) : Prop :=
  (∀ ep p, m !! (ep, p) = Ps ep !! p) ∧ (∀ ep u, (ep, u) ∈ S1 ↔ u ∈ Us ep) ∧
  (∀ ep sp, (ep, sp) ∈ S ↔ sp ∈ Ws ep).

(** The joins are in step for the given inputs per EdgePlacement. *)
Definition joins_for pc Ps Us Ws (w : W) : Prop :=
  ∃ m S1 S, inputs_are Ps Us Ws m S1 S ∧ joins_in_step pc m S1 S S w.

Lemma joins_put pc Ps Us Ws ep X k v w :
  joins_for pc (upd ep X Ps) Us Ws w →
  joins_for pc (upd ep (<[k:=v]> X) Ps) Us Ws (mr_Put (downsyncJoin sbCell ops).1 (ep, k) v w).
Proof.
  intros (m & S1 & S & (Hm & ? & ?) & HJ). exists (<[(ep, k):=v]> m), S1, S. split.
  - split_and!; [|done..]. intros ep' p. specialize (Hm ep' p). unfold upd in *.
    destruct (decide (ep' = ep)) as [->|Hne].
    + destruct (decide (p = k)) as [->|]; [by rw !lookup_insert_eq|].
      rw !lookup_insert_ne //; congruence.
    + rw lookup_insert_ne //. congruence.
  - by apply (sim_put (MappingReceiverSim:=downsync_left_sim _ _ _ _)).
Qed.

Lemma joins_delete pc Ps Us Ws ep X k w :
  joins_for pc (upd ep X Ps) Us Ws w →
  joins_for pc (upd ep (delete k X) Ps) Us Ws (mr_Delete (downsyncJoin sbCell ops).1 (ep, k) w).
Proof.
  intros (m & S1 & S & (Hm & ? & ?) & HJ). exists (delete (ep, k) m), S1, S. split.
  - split_and!; [|done..]. intros ep' p. specialize (Hm ep' p). unfold upd in *.
    destruct (decide (ep' = ep)) as [->|Hne].
    + destruct (decide (p = k)) as [->|]; [by rw !lookup_delete_eq|].
      rw !lookup_delete_ne //; congruence.
    + rw lookup_delete_ne //. congruence.
  - by apply (sim_delete (MappingReceiverSim:=downsync_left_sim _ _ _ _)).
Qed.

Lemma joins_upsync pc Ps Us Ws ep X u (add : bool) w :
  joins_for pc Ps (upd ep X Us) Ws w →
  joins_for pc Ps (upd ep (if add then {[u]} ∪ X else X ∖ {[u]}) Us) Ws
    (if add then (sw_Add (upsyncJoin sbCell upsyncOps).1 (ep, u) w).2
     else (sw_Remove (upsyncJoin sbCell upsyncOps).1 (ep, u) w).2).
Proof.
  intros (m & S1 & S & (? & Hs & ?) & HJ).
  exists m, (if add then {[(ep, u)]} ∪ S1 else S1 ∖ {[(ep, u)]}), S. split.
  - split_and!; [done| |done]. intros ep' u'. specialize (Hs ep' u'). unfold upd in *.
    destruct add, (decide (ep' = ep)) as [->|Hne]; set_solver.
  - destruct add; [by apply (sim_add (SetWriterSim:=upsync_left_sim _ _ _ _))|
      by apply (sim_remove (SetWriterSim:=upsync_left_sim _ _ _ _))].
Qed.

Lemma joins_where_add pc Ps Us Ws ep X sp w :
  joins_for pc Ps Us (upd ep X Ws) w →
  joins_for pc Ps Us (upd ep ({[sp]} ∪ X) Ws)
    (sw_Add (bothJoinRightInput sbCell ops upsyncOps) (ep, sp) w).2.
Proof.
  intros (m & S1 & S & (? & ? & Hs) & HJ). exists m, S1, ({[(ep, sp)]} ∪ S). split.
  - split_and!; [done..|]. intros ep' u'. specialize (Hs ep' u'). unfold upd in *.
    destruct (decide (ep' = ep)) as [->|Hne]; set_solver.
  - by apply (sim_add (SetWriterSim:=both_right_sim _ _ _)).
Qed.

Lemma joins_where_remove pc Ps Us Ws ep X sp w :
  joins_for pc Ps Us (upd ep X Ws) w →
  joins_for pc Ps Us (upd ep (X ∖ {[sp]}) Ws)
    (sw_Remove (bothJoinRightInput sbCell ops upsyncOps) (ep, sp) w).2.
Proof.
  intros (m & S1 & S & (? & ? & Hs) & HJ). exists m, S1, (S ∖ {[(ep, sp)]}). split.
  - split_and!; [done..|]. intros ep' u'. specialize (Hs ep' u'). unfold upd in *.
    destruct (decide (ep' = ep)) as [->|Hne]; set_solver.
  - by apply (sim_remove (SetWriterSim:=both_right_sim _ _ _)).
Qed.

(** The differencers' own state may change under the joins. *)
Lemma joins_set_pc pc pc' Ps Us Ws w :
  joins_for pc Ps Us Ws w →
  joins_for pc' Ps Us Ws (cset (compose_cell sbCell perCluster_cell) pc' w).
Proof.
  clear Hops. intros (m & S1 & S & Hin & (_ & Hd & Hu & t & tu & ? & ? & HB)).
  exists m, S1, S. split; [done|]. unfold joins_in_step. cbn. rw cget_cset. cbn.
  split_and!; try apply Hd; try apply Hu; [done|]. exists t, tu. split_and!; [done..|].
  assert (Updated (compose_cell sbCell perCluster_cell) pc' w
    (cset (compose_cell sbCell perCluster_cell) pc' w)) as Hup by apply (Updated_cset _).
  by rw (B_updated perCluster_cell _ _ _ Hup).
Qed.

Abbreviation pcCell := (compose_cell sbCell perCluster_cell).

Lemma joins_for_pc pc Ps Us Ws w : joins_for pc Ps Us Ws w → cget pcCell w = pc.
Proof. clear Hops Hframe. by intros (m & S1 & S & _ & ? & _). Qed.

Lemma placement_other ep ep' x pc :
  ep' ≠ ep → cget (placement_cell ep') (cset (placement_cell ep) x pc) = cget (placement_cell ep') pc.
Proof.
  clear Hops Hframe. intros Hne. cbn. destruct ep as [c n], ep' as [c' n']. cbn.
  destruct (decide (c' = c)) as [->|].
  - rw lookup_insert_eq /=. assert (n' ≠ n) by congruence. rw lookup_insert_ne //.
    by destruct (pc !! c).
  - by rw lookup_insert_ne.
Qed.

(** What the joins do not touch. *)
Section quiet_inputs.
Context {R} (d : Cell (gmap string (gmap ObjectName setBindingForPlacement)) R).

Lemma down_quiet :
  QuietMR (downsyncJoin sbCell ops).1 (cget (compose_cell pcCell d)) ∧
  QuietSW (downsyncJoin sbCell ops).2 (cget (compose_cell pcCell d)).
Proof.
  apply dynamicJoinV_quiet; [apply _..|]. destruct Hops as [_ _ _ Hq _].
  apply down_receiver_quiet. by do 2 apply quiet_mr_compose.
Qed.

Lemma up_quiet :
  QuietSW (upsyncJoin sbCell upsyncOps).1 (cget (compose_cell pcCell d)) ∧
  QuietSW (upsyncJoin sbCell upsyncOps).2 (cget (compose_cell pcCell d)).
Proof.
  apply dynamicJoin_quiet; [apply _..|]. destruct Hops as [_ _ _ _ Hq].
  split; intros; cbn; by rw Hq.
Qed.

Lemma both_quiet :
  QuietSW (bothJoinRightInput sbCell ops upsyncOps) (cget (compose_cell pcCell d)).
Proof.
  destruct down_quiet as [_ Hd], up_quiet as [_ Hu].
  split; intros e w; unfold bothJoinRightInput, SetWriterFork; cbn [sw_Add sw_Remove].
  - unfold setChangeReceiverFork_Add. rw (fork_loop true (λ r, sw_Add r e)) !for_each_cons.
    change (for_each [] ?f ?s) with s. rw (quiet_add (QuietSW:=Hu)). apply (quiet_add (QuietSW:=Hd)).
  - unfold setChangeReceiverFork_Remove. rw (fork_loop true (λ r, sw_Remove r e)) !for_each_cons.
    change (for_each [] ?f ?s) with s. rw (quiet_remove (QuietSW:=Hu)).
    apply (quiet_remove (QuietSW:=Hd)).
Qed.
End quiet_inputs.

(** Everything is in step with what was received for each EdgePlacement. *)
Definition binder_state Ps Us Ws (w : W) : Prop :=
  joins_for (cget pcCell w) Ps Us Ws w ∧
  ∀ ep, let sbp := cget (placement_cell ep) (cget pcCell w) in
    sbp_parts sbp = Ps ep ∧ list_to_set (sbp_upsyncs sbp) = Us ep ∧ sbp_where sbp = Ws ep.

(** The differencers' frame: the state of other EdgePlacements, and of this one
    but for one field. *)
Definition same_but {X Y} ep (f : setBindingForPlacement → X) (g : setBindingForPlacement → Y)
  (pc0 pc : gmap string (gmap ObjectName setBindingForPlacement)) : Prop :=
  (∀ ep', ep' ≠ ep → cget (placement_cell ep') pc = cget (placement_cell ep') pc0) ∧
  f (cget (placement_cell ep) pc) = f (cget (placement_cell ep) pc0) ∧
  g (cget (placement_cell ep) pc) = g (cget (placement_cell ep) pc0).

Lemma same_but_set {X Y R} ep (f : setBindingForPlacement → X) (g : setBindingForPlacement → Y)
  (d : Cell setBindingForPlacement R) r pc0 pc :
  Indep d f → Indep d g → same_but ep f g pc0 pc →
  same_but ep f g pc0 (cset (compose_cell (placement_cell ep) d) r pc).
Proof.
  clear Hops Hframe. intros Hf Hg (Ho & Hf' & Hg').
  change (cset (compose_cell (placement_cell ep) d) r pc)
    with (cset (placement_cell ep) (cset d r (cget (placement_cell ep) pc)) pc).
  split_and!; [intros ep' Hne; rw placement_other //; by apply Ho|..];
    by rw cget_cset ?Hf ?Hg.
Qed.

Lemma parts_differencer Ps Us Ws ep parts w
  (dj : MappingReceiver W (ExternalName * WorkloadPartID) WorkloadPartDetails) :
  QuietMR dj (cget (compose_cell pcCell (compose_cell (placement_cell ep) parts_cell))) →
  (∀ pc X k v w, joins_for pc (upd ep X Ps) Us Ws w →
     joins_for pc (upd ep (<[k:=v]> X) Ps) Us Ws (mr_Put dj (ep, k) v w)) →
  (∀ pc X k w, joins_for pc (upd ep X Ps) Us Ws w →
     joins_for pc (upd ep (delete k X) Ps) Us Ws (mr_Delete dj (ep, k) w)) →
  binder_state Ps Us Ws w →
  binder_state (upd ep (default ∅ parts) Ps) Us Ws
    (NewWorkloadPartsDifferencer
      (MappingReceiverFuncs_AsMapChangeReceiver
        (Some (λ partID partDetails w, mr_Put dj (NewPair ep partID) partDetails w))
        (Some (λ partID w, mr_Delete dj (NewPair ep partID) w)))
      (compose_cell (placementCell sbCell ep) parts_cell) parts w).
Proof.
  clear Hops. intros Hq Hput Hdel [HJ Hst]. set (pc0 := cget pcCell w).
  set (c := compose_cell (placementCell sbCell ep) parts_cell).
  set (T := λ (X : gmap WorkloadPartID WorkloadPartDetails) w,
    joins_for (cget pcCell w) (upd ep X Ps) Us Ws w ∧ same_but ep sbp_upsyncs sbp_where pc0 (cget pcCell w)).
  set (o := MappingReceiverFuncs_AsMapChangeReceiver _ _).
  assert (QuietMR dj (cget c)) as Hqc by exact Hq.
  assert (QuietMCR o (cget c)) as Hqo.
  { split; [exact (λ k v, quiet_put (QuietMR:=Hqc) (ep, k) v)|exact (λ k _ v, quiet_put (QuietMR:=Hqc) (ep, k) v)|
            exact (λ k _, quiet_delete (QuietMR:=Hqc) (ep, k))]. }
  assert (∀ k v X w, T X w → T (<[k:=v]> X) (mr_Put dj (ep, k) v w)) as HTput.
  { intros k v X w1 [HJ1 HF]. pose proof (Hput _ _ k v _ HJ1) as HJ2. unfold T.
    by rw (joins_for_pc _ _ _ _ _ HJ2). }
  assert (∀ k X w, T X w → T (delete k X) (mr_Delete dj (ep, k) w)) as HTdel.
  { intros k X w1 [HJ1 HF]. pose proof (Hdel _ _ k _ HJ1) as HJ2. unfold T.
    by rw (joins_for_pc _ _ _ _ _ HJ2). }
  assert (∀ X s w, T X w → T X (cset c s w)) as HTc.
  { intros X s w1 [HJ1 HF].
    change (cset c s w1) with (cset pcCell
      (cset (compose_cell (placement_cell ep) parts_cell) s (cget pcCell w1)) w1).
    unfold T. rw cget_cset. split; [by eapply joins_set_pc|]. by apply same_but_set. }
  destruct (mapDifferencer_spec c o T HTc) with (MapType:=WorkloadParts)
    (visitablize:=ResolvedWhatAsVisitable) (whole:=parts) (m:=cget c w) (w:=w) as [Hc [HJ' (Hoth & Hu' & Hw')]].
  - intros k v m w1 _ HT. by apply HTput.
  - intros k v v' m w1 _ HT. by apply HTput.
  - intros k v m w1 _ HT. by apply HTdel.
  - done.
  - split; [|done]. destruct (Hst ep) as [Hp _].
    destruct HJ as (m & S1 & S & (Hm & ? & ?) & HJ). exists m, S1, S. split; [|done].
    split_and!; [|done..]. intros ep' p. rw Hm. unfold upd.
    destruct (decide (ep' = ep)) as [->|]; [|done]. by rw -Hp.
  - unfold ResolvedWhatAsVisitable in *. rw puts_NoDup in Hc HJ'. split; [exact HJ'|].
    intros ep'. cbv zeta. unfold upd. destruct (decide (ep' = ep)) as [->|Hne].
    + split_and!; [exact Hc|by rw Hu'; apply Hst|by rw Hw'; apply Hst].
    + rw (Hoth ep' Hne). apply Hst.
Qed.

Lemma parts_step Ps Us Ws ep parts w :
  binder_state Ps Us Ws w →
  binder_state (upd ep (default ∅ parts) Ps) Us Ws (downsyncPartsReceiver sbCell ops ep parts w).
Proof.
  apply parts_differencer; [apply down_quiet|..]; intros; [by apply joins_put|by apply joins_delete].
Qed.

Lemma UpsyncSetEqual_spec x y : UpsyncSetEqual x y = bool_decide (x = y).
Proof.
  clear Hops Hframe. apply (hd_Equal_ok (d:=HashUpsyncSet)).
Qed.

Lemma upsyncs_differencer Ps Us Ws ep ups w (uj : SetWriter W (ExternalName * UpsyncSet)) :
  QuietSW uj (cget (compose_cell pcCell (compose_cell (placement_cell ep) sbp_upsyncs_cell))) →
  (∀ pc X u (add : bool) w, joins_for pc Ps (upd ep X Us) Ws w →
     joins_for pc Ps (upd ep (if add then {[u]} ∪ X else X ∖ {[u]}) Us) Ws
       (if add then (sw_Add uj (ep, u) w).2 else (sw_Remove uj (ep, u) w).2)) →
  binder_state Ps Us Ws w →
  binder_state Ps (upd ep (list_to_set ups) Us) Ws
    (NewUpsyncDifferencer
      (λ add upTerm w, if add : bool then (sw_Add uj (NewPair ep upTerm) w).2
                       else (sw_Remove uj (NewPair ep upTerm) w).2)
      (compose_cell (placementCell sbCell ep) sbp_upsyncs_cell) ups w).
Proof.
  clear Hops. intros Hq Hchg [HJ Hst]. set (pc0 := cget pcCell w).
  set (c := compose_cell (placementCell sbCell ep) sbp_upsyncs_cell).
  set (T := λ (X : gset UpsyncSet) w,
    joins_for (cget pcCell w) Ps (upd ep X Us) Ws w ∧ same_but ep sbp_parts sbp_where pc0 (cget pcCell w)).
  set (rc := λ (add : bool) upTerm w, _).
  assert (QuietSW uj (cget c)) as Hqc by exact Hq.
  assert (∀ add e w, cget c (rc add e w) = cget c w) as Hqo.
  { intros [] e; [exact (quiet_add (QuietSW:=Hqc) (ep, e))|exact (quiet_remove (QuietSW:=Hqc) (ep, e))]. }
  assert (∀ (add : bool) u X w, T X w → T (if add then {[u]} ∪ X else X ∖ {[u]}) (rc add u w)) as HTchg.
  { intros add u X w1 [HJ1 HF]. pose proof (Hchg _ _ u add _ HJ1) as HJ2. unfold T.
    unfold rc, NewPair. by rw (joins_for_pc _ _ _ _ _ HJ2). }
  assert (∀ X s w, T X w → T X (cset c s w)) as HTc.
  { intros X s w1 [HJ1 HF].
    change (cset c s w1) with (cset pcCell
      (cset (compose_cell (placement_cell ep) sbp_upsyncs_cell) s (cget pcCell w1)) w1).
    unfold T. rw cget_cset. split; [by eapply joins_set_pc|]. by apply same_but_set. }
  destruct (sliceDifferencer_spec UpsyncSetEqual UpsyncSetEqual_spec rc c Hqo T HTc) with
    (newWhole:=ups) (w:=w) as [Hc [HJ' (Hoth & Hp' & Hw')]].
  - intros e X w1. apply (HTchg true).
  - intros e X w1. apply (HTchg false).
  - split; [|done]. destruct (Hst ep) as (_ & Hp & _).
    destruct HJ as (m & S1 & S & (? & Hm & ?) & HJ). exists m, S1, S. split; [|done].
    split_and!; [done| |done]. intros ep' p. rw Hm. unfold upd.
    destruct (decide (ep' = ep)) as [->|]; [|done]. by rw -Hp.
  - split; [exact HJ'|]. intros ep'. cbv zeta. unfold upd. destruct (decide (ep' = ep)) as [->|Hne].
    + split_and!; [by rw Hp'; apply Hst|exact (f_equal list_to_set Hc)|by rw Hw'; apply Hst].
    + rw (Hoth ep' Hne). apply Hst.
Qed.

Lemma upsyncs_step Ps Us Ws ep ups w :
  binder_state Ps Us Ws w →
  binder_state Ps (upd ep (list_to_set ups) Us) Ws (upsyncReceiver sbCell upsyncOps ep ups w).
Proof.
  apply upsyncs_differencer; [apply up_quiet|]. intros pc X u add w1 HJ.
  by apply (joins_upsync _ _ _ _ _ _ u add).
Qed.

Lemma joins_updated {R} (d : Cell (gmap string (gmap ObjectName setBindingForPlacement)) R)
  pc Ps Us Ws r w w' :
  Updated (compose_cell pcCell d) r w w' →
  joins_for pc Ps Us Ws w → joins_for (cget pcCell w') Ps Us Ws w'.
Proof.
  clear Hops. intros Hu (m & S1 & S & Hin & (_ & Hd & Hup & t & tu & ? & ? & HB)).
  assert (∀ X (e : Cell setBinder X), Indep perCluster_cell (cget e) →
    cget e (cget sbCell w') = cget e (cget sbCell w)) as Hsame.
  { intros X e He. apply (Updated_indep _ (cget (compose_cell sbCell e)) r w w' Hu).
    apply compose_indep_l. apply _. }
  pose proof (Hsame _ xyv_cell _) as He1. pose proof (Hsame _ xz_cell _) as He2.
  pose proof (Hsame _ uxy_cell _) as He3. pose proof (Hsame _ uxz_cell _) as He4.
  assert ((λ M U, B M U w') = (λ M U, B M U w)) as HBeq.
  { apply (Updated_indep _ (λ w M U, B M U w) r w w' Hu). apply _. }
  exists m, S1, S. split; [done|]. unfold joins_in_step, downsync_tables, upsync_tables in *.
  cbn in *. rw He1 He2 He3 He4. split_and!; try apply Hd; try apply Hup; [done|]. exists t, tu.
  split_and!; [done..|]. by rw (f_equal (λ f, f t tu) HBeq : B t tu w' = B t tu w).
Qed.

Lemma same_but_updated {X Y R} ep (f : Cell setBindingForPlacement X) (g : Cell setBindingForPlacement Y)
  (d : Cell setBindingForPlacement R) r pc0 w w' :
  Indep d (cget f) → Indep d (cget g) →
  Updated (compose_cell (placementCell sbCell ep) d) r w w' →
  same_but ep (cget f) (cget g) pc0 (cget pcCell w) → same_but ep (cget f) (cget g) pc0 (cget pcCell w').
Proof.
  clear Hops Hframe. intros Hf Hg Hu (Ho & Hf' & Hg'). split_and!.
  - intros ep' Hne. rw -(Ho ep' Hne).
    apply (Updated_indep _ (cget (compose_cell pcCell (placement_cell ep'))) r w w' Hu).
    apply compose_indep_l, compose_indep_same; [apply _|]. intros x pc. by apply placement_other.
  - rw -Hf'. apply (Updated_indep _ (cget (compose_cell (placementCell sbCell ep) f)) r w w' Hu).
    apply compose_indep_same; [|done]. unfold placementCell. apply _.
  - rw -Hg'. apply (Updated_indep _ (cget (compose_cell (placementCell sbCell ep) g)) r w w' Hu).
    apply compose_indep_same; [|done]. unfold placementCell. apply _.
Qed.

Lemma where_differencer Ps Us Ws ep rwh w (bj : SetWriter W (ExternalName * SinglePlacement)) :
  QuietSW bj (cget (compose_cell pcCell (compose_cell (placement_cell ep) where_cell))) →
  (∀ pc X sp w, joins_for pc Ps Us (upd ep X Ws) w →
     joins_for pc Ps Us (upd ep ({[sp]} ∪ X) Ws) (sw_Add bj (ep, sp) w).2) →
  (∀ pc X sp w, joins_for pc Ps Us (upd ep X Ws) w →
     joins_for pc Ps Us (upd ep (X ∖ {[sp]}) Ws) (sw_Remove bj (ep, sp) w).2) →
  binder_state Ps Us Ws w →
  binder_state Ps Us (upd ep (list_to_set (ResolvedWhere_Visit rwh)) Ws)
    (NewResolvedWhereDifferencer (TransformSetWriter (NewPair1Then2 ep) bj)
      (compose_cell (placementCell sbCell ep) where_cell) rwh w).
Proof.
  clear Hops. intros Hq Hadd Hrem [HJ Hst]. set (pc0 := cget pcCell w).
  set (c := compose_cell (placementCell sbCell ep) where_cell).
  set (T := λ (X : gset SinglePlacement) w,
    joins_for (cget pcCell w) Ps Us (upd ep X Ws) w ∧ same_but ep sbp_parts sbp_upsyncs pc0 (cget pcCell w)).
  set (rc := TransformSetWriter (NewPair1Then2 ep) bj).
  assert (QuietSW bj (cget c)) as Hqc by exact Hq.
  assert (QuietSW rc (cget c)) as Hqo.
  { split; intros e; [exact (quiet_add (QuietSW:=Hqc) (ep, e))|exact (quiet_remove (QuietSW:=Hqc) (ep, e))]. }
  assert (∀ e X w, e ∉ X → T X w → T ({[e]} ∪ X) (sw_Add rc e w).2) as HTadd.
  { intros e X w1 _ [HJ1 HF]. pose proof (Hadd _ _ e _ HJ1) as HJ2. unfold T.
    change (sw_Add rc e w1) with (sw_Add bj (ep, e) w1). by rw (joins_for_pc _ _ _ _ _ HJ2). }
  assert (∀ e X w, e ∈ X → T X w → T (X ∖ {[e]}) (sw_Remove rc e w).2) as HTrem.
  { intros e X w1 _ [HJ1 HF]. pose proof (Hrem _ _ e _ HJ1) as HJ2. unfold T.
    change (sw_Remove rc e w1) with (sw_Remove bj (ep, e) w1). by rw (joins_for_pc _ _ _ _ _ HJ2). }
  assert (∀ X r w w', Updated c r w w' → T X w → T X w') as HTc.
  { intros X r w1 w2 Hu [HJ1 HF]. split; [by apply (joins_updated (compose_cell (placement_cell ep) where_cell) _ _ _ _ r w1 w2 Hu HJ1)|].
    by apply (same_but_updated ep parts_cell sbp_upsyncs_cell where_cell r pc0 w1 w2). }
  destruct (SetUpdateToMatch_spec (MapSet_AsMutableSet c) c (λ _, True) id rc T HTc HTadd HTrem
    (ResolvedWhereAsVisitable rwh) (cget c w) w) as (_ & Hc & HJ' & Hoth & Hp' & Hu').
  - split; [done|]. split; [done|]. split; [|done]. destruct (Hst ep) as (_ & _ & Hp).
    destruct HJ as (m & S1 & S & (? & ? & Hm) & HJ). exists m, S1, S. split; [|done].
    split_and!; [done..|]. intros ep' p. rw Hm. unfold upd.
    destruct (decide (ep' = ep)) as [->|]; [|done]. by rw -Hp.
  - split; [exact HJ'|]. intros ep'. cbv zeta. unfold upd. destruct (decide (ep' = ep)) as [->|Hne].
    + split_and!; [by rw Hp'; apply Hst|by rw Hu'; apply Hst|exact Hc].
    + rw (Hoth ep' Hne). apply Hst.
Qed.

Lemma where_step Ps Us Ws ep rwh w :
  binder_state Ps Us Ws w →
  binder_state Ps Us (upd ep (list_to_set (ResolvedWhere_Visit rwh)) Ws)
    (resolvedWhereReceiver sbCell ops upsyncOps ep rwh w).
Proof.
  apply where_differencer; [apply both_quiet|..]; intros;
    [by apply joins_where_add|by apply joins_where_remove].
Qed.
End binder_joins.

(** * The handlers *)

Inductive BinderOp : Type :=
| WhatPut (epName : ExternalName) (resolvedWhat : ResolvedWhat)
| WhatDelete (epName : ExternalName)
| WherePut (epName : ExternalName) (resolvedWhere : ResolvedWhere)
| WhereDelete (epName : ExternalName).

Definition run_binder_op `{MapRange} {W} (sbCell : Cell W setBinder) (singleBinder : SingleBinder W)
  (op : BinderOp) : W → W :=
  match op with
  | WhatPut epName resolvedWhat => sbAsResolvedWhatReceiver_Put sbCell singleBinder epName resolvedWhat
  | WhatDelete epName => sbAsResolvedWhatReceiver_Delete sbCell singleBinder epName
  | WherePut epName resolvedWhere =>
      sbAsResolvedWhereReceiver_Put sbCell singleBinder epName resolvedWhere
  | WhereDelete epName => sbAsResolvedWhereReceiver_Delete sbCell singleBinder epName
  end.

(** What was last received for each EdgePlacement. *)
Record BinderInputs : Type := MkBinderInputs {
  bi_parts : ExternalName → gmap WorkloadPartID WorkloadPartDetails;
  bi_upsyncs : ExternalName → gset UpsyncSet;
  bi_where : ExternalName → gset SinglePlacement
}.

Definition no_inputs : BinderInputs := MkBinderInputs (λ _, ∅) (λ _, ∅) (λ _, ∅).

Definition spec_binder_op (op : BinderOp) (i : BinderInputs) : BinderInputs :=
  match op with
  | WhatPut ep rw =>
      MkBinderInputs (upd ep (default ∅ (rwDownsync rw)) (bi_parts i))
        (upd ep (list_to_set (rwUpsync rw)) (bi_upsyncs i)) (bi_where i)
  | WhatDelete ep =>
      MkBinderInputs (upd ep ∅ (bi_parts i)) (upd ep ∅ (bi_upsyncs i)) (bi_where i)
  | WherePut ep rwh =>
      MkBinderInputs (bi_parts i) (bi_upsyncs i)
        (upd ep (list_to_set (ResolvedWhere_Visit rwh)) (bi_where i))
  | WhereDelete ep => MkBinderInputs (bi_parts i) (bi_upsyncs i) (upd ep ∅ (bi_where i))
  end.

Section handlers.
Context `{MapRange} {W : Type} (sbCell : Cell W setBinder) `{!CellOk sbCell}.
Context (B : gmap NamespacedWhatWhereFullKey WorkloadPartDetails →
  gset (Triple ExternalName UpsyncSet SinglePlacement) → W → Prop).
Context (singleBinder : SingleBinder W) `{Hsb : !SingleBinderSim sbCell B singleBinder}.

Abbreviation pcCell := (compose_cell sbCell perCluster_cell).
Abbreviation in_state i := (binder_state sbCell B (bi_parts i) (bi_upsyncs i) (bi_where i)).

(** The part of the invariant that is about the set binder's own state. *)
Definition inputs_ok (i : BinderInputs) (M : gmap NamespacedWhatWhereFullKey WorkloadPartDetails)
  (U : gset (Triple ExternalName UpsyncSet SinglePlacement)) (s : setBinder) : Prop :=
  (∃ m S1 S, inputs_are (bi_parts i) (bi_upsyncs i) (bi_where i) m S1 S ∧ downsync_tables m S s ∧
     upsync_tables S1 S s ∧ is_joinV m S M ∧ is_join S1 S U) ∧
  ∀ ep, let sbp := cget (placement_cell ep) (sb_perCluster s) in
    sbp_parts sbp = bi_parts i ep ∧ list_to_set (sbp_upsyncs sbp) = bi_upsyncs i ep ∧
    sbp_where sbp = bi_where i ep.

Lemma in_state_iff i w : in_state i w ↔ ∃ M U, B M U w ∧ inputs_ok i M U (cget sbCell w).
Proof.
  clear Hsb. split.
  - intros [(m & S1 & S & Hin & _ & Hd & Hu & t & tu & Ht & Htu & HB) Hst].
    exists t, tu. split; [done|]. split; [|done]. by exists m, S1, S.
  - intros (M & U & HB & (m & S1 & S & Hin & Hd & Hu & Ht & Htu) & Hst). split; [|done].
    exists m, S1, S. split; [done|]. split; [done|]. split; [done|]. split; [done|]. by exists M, U.
Qed.

Lemma Transact_binder i i' xn w :
  (∀ ops upsyncOps w, OpsSim sbCell B ops upsyncOps →
     in_state i w → sb_perCluster (cget sbCell w) = cget pcCell w → in_state i' (xn ops upsyncOps w)) →
  in_state i w → in_state i' (singleBinder xn w).
Proof.
  intros Hxn (M & U & HB & Hok)%in_state_iff. apply in_state_iff.
  apply (transact_ok sbCell B (λ M U s, inputs_ok i' M U s) xn M U w HB).
  intros ops upsyncOps w' Hops HB' Hsame. apply in_state_iff, Hxn; [done| |done].
  apply in_state_iff. exists M, U. by rw Hsame.
Qed.

(** Changing the objects kept per cluster without changing what they stand for. *)
Lemma set_perCluster_state i pc w :
  (∀ ep, cget (placement_cell ep) pc = cget (placement_cell ep) (cget pcCell w)) →
  in_state i w → in_state i (cset pcCell pc w).
Proof.
  intros Hpc [HJ Hst]. destruct Hsb as [Hframe _]. unfold binder_state. rw cget_cset. split.
  - by eapply joins_set_pc.
  - intros ep. cbv zeta. rw Hpc. apply Hst.
Qed.

Lemma getCluster_state cluster i w :
  in_state i w →
  let '(_, w') := getCluster sbCell cluster true w in in_state i w'.
Proof.
  intros Hw. unfold getCluster. destruct (cget pcCell w !! cluster) eqn:Hc; [done|].
  apply set_perCluster_state; [|done]. intros [c n]. cbn -[pcCell].
  destruct (decide (c = cluster)) as [->|]; [|by rw lookup_insert_ne].
  by rw lookup_insert_eq Hc /= lookup_empty.
Qed.

Lemma ensurePlacement_state ep i w : in_state i w → in_state i (ensurePlacement sbCell ep w).
Proof.
  intros Hw. unfold ensurePlacement. cbv zeta.
  destruct (cget pcCell w !! enCluster ep ≫= (.!! enName ep)) eqn:Hp; [done|].
  change (cset (placementCell sbCell ep) empty_placement w)
    with (cset pcCell (cset (placement_cell ep) empty_placement (cget pcCell w)) w).
  apply set_perCluster_state; [|done]. intros ep'. destruct (decide (ep' = ep)) as [->|Hne].
  - rw cget_cset. cbn -[pcCell]. by rw Hp.
  - by apply placement_other.
Qed.

(** Nothing is known of the EdgePlacements of an unknown cluster. *)
Lemma unknown_cluster i ep w :
  in_state i w → cget pcCell w !! enCluster ep = None →
  bi_parts i ep = ∅ ∧ bi_upsyncs i ep = ∅ ∧ bi_where i ep = ∅.
Proof.
  clear Hsb. intros [_ Hst] Hc. specialize (Hst ep). cbv zeta in Hst.
  assert (cget (placement_cell ep) (cget pcCell w) = empty_placement) as He.
  { cbn -[pcCell]. by rw Hc. }
  rw He in Hst. destruct Hst as (<- & <- & <-). done.
Qed.

Lemma in_state_ext i i' w :
  (∀ ep, bi_parts i' ep = bi_parts i ep) → (∀ ep, bi_upsyncs i' ep = bi_upsyncs i ep) →
  (∀ ep, bi_where i' ep = bi_where i ep) → in_state i w → in_state i' w.
Proof.
  clear Hsb. intros Hp Hu Hw [(m & S1 & S & (Hm & H1 & H2) & HJ) Hst]. split.
  - exists m, S1, S. split; [|done].
    split_and!; [intros; by rw Hp|intros; by rw Hu|intros; by rw Hw].
  - intros ep. cbv zeta. rw Hp Hu Hw. apply Hst.
Qed.

Lemma upd_same {A} ep (x : A) F ep' : F ep = x → upd ep x F ep' = F ep'.
Proof. clear Hsb. intros <-. unfold upd. by destruct (decide (ep' = ep)) as [->|]. Qed.

Lemma getCluster_false cluster w :
  getCluster sbCell cluster false w = (bool_decide (is_Some (cget pcCell w !! cluster)), w).
Proof. clear Hsb. unfold getCluster. by destruct (cget pcCell w !! cluster). Qed.

Lemma what_body ops upsyncOps ep parts ups i w `{!OpsSim sbCell B ops upsyncOps} :
  in_state i w →
  in_state (MkBinderInputs (upd ep (default ∅ parts) (bi_parts i))
              (upd ep (list_to_set ups) (bi_upsyncs i)) (bi_where i))
    (upsyncReceiver sbCell upsyncOps ep ups
      (downsyncPartsReceiver sbCell ops ep parts (ensurePlacement sbCell ep w))).
Proof.
  intros Hw. pose proof (binder_frame sbCell B (SingleBinderSim:=Hsb)) as Hframe.
  cbn [bi_parts bi_upsyncs bi_where]. apply (upsyncs_step sbCell B Hframe ops upsyncOps).
  apply (parts_step sbCell B Hframe ops upsyncOps). by apply ensurePlacement_state.
Qed.

Lemma where_body ops upsyncOps ep rwh i w `{!OpsSim sbCell B ops upsyncOps} :
  in_state i w →
  in_state (MkBinderInputs (bi_parts i) (bi_upsyncs i)
              (upd ep (list_to_set (ResolvedWhere_Visit rwh)) (bi_where i)))
    (resolvedWhereReceiver sbCell ops upsyncOps ep rwh (ensurePlacement sbCell ep w)).
Proof.
  intros Hw. pose proof (binder_frame sbCell B (SingleBinderSim:=Hsb)) as Hframe.
  cbn [bi_parts bi_upsyncs bi_where]. apply (where_step sbCell B Hframe ops upsyncOps).
  by apply ensurePlacement_state.
Qed.

Lemma binder_op_step op i w :
  in_state i w → in_state (spec_binder_op op i) (run_binder_op sbCell singleBinder op w).
Proof.
  intros Hw. destruct op as [ep [parts ups]|ep|ep rwh|ep]; cbn [run_binder_op spec_binder_op].
  - unfold sbAsResolvedWhatReceiver_Put. pose proof (getCluster_state (enCluster ep) i w Hw) as Hw1.
    destruct (getCluster sbCell (enCluster ep) true w) as [sbc w1].
    apply (Transact_binder i); [|done]. intros ops uops w2 Hops Hw2 _. by apply what_body.
  - unfold sbAsResolvedWhatReceiver_Delete. rw getCluster_false. case_bool_decide as Hc; cbn [negb].
    + apply (Transact_binder i); [|done]. intros ops uops w2 Hops Hw2 _.
      by apply (what_body ops uops ep None []).
    + apply eq_None_not_Some in Hc. destruct (unknown_cluster i ep w Hw Hc) as (? & ? & ?).
      apply (in_state_ext i); [intros; by apply upd_same..|done|done].
  - unfold sbAsResolvedWhereReceiver_Put. pose proof (getCluster_state (enCluster ep) i w Hw) as Hw1.
    destruct (getCluster sbCell (enCluster ep) true w) as [sbc w1].
    apply (Transact_binder i); [|done]. intros ops uops w2 Hops Hw2 _. by apply where_body.
  - unfold sbAsResolvedWhereReceiver_Delete. rw getCluster_false. case_bool_decide as Hc; cbn [negb].
    + apply (Transact_binder i); [|done]. intros ops uops w2 Hops Hw2 _.
      by apply (where_body ops uops ep []).
    + apply eq_None_not_Some in Hc. destruct (unknown_cluster i ep w Hw Hc) as (? & ? & ?).
      apply (in_state_ext i); [done|done|intros; by apply upd_same|done].
Qed.

Lemma empty_binder_state w :
  cget sbCell w = empty_binder → B ∅ ∅ w → in_state no_inputs w.
Proof.
  clear Hsb. intros Hs HB. apply in_state_iff. exists ∅, ∅. split; [done|]. rw Hs. split.
  - exists ∅, ∅, ∅. split_and!; try done; try set_solver.
    + split_and!; [by apply (hashRelation_empty_wf HashExternalName HashUpsyncSet)|done|
        by apply (hashRelation_empty_wf HashExternalName HashSinglePlacement)|done].
    + intros x y z. set_solver.
  - by intros ep.
Qed.

(** C1: the set binder binds what to where: whatever the order in which the what
    and the where of any number of EdgePlacements arrive, change and go away, the
    single binder has been told of exactly the bindings of each workload part,
    with its details, in the latest what of an EdgePlacement to each destination
    in the latest where of the same EdgePlacement, and likewise of the upsyncs. *)
Theorem setBinder_binds_what_to_where ops w :
  cget sbCell w = empty_binder → B ∅ ∅ w →
  let w' := for_each ops (run_binder_op sbCell singleBinder) w in
  let inputs := for_each ops spec_binder_op no_inputs in
  ∃ M U, B M U w' ∧
    (∀ ep part sp, M !! NewTriple ep part sp
       = if decide (sp ∈ bi_where inputs ep) then bi_parts inputs ep !! part else None) ∧
    (∀ ep upsync sp, NewTriple ep upsync sp ∈ U
       ↔ upsync ∈ bi_upsyncs inputs ep ∧ sp ∈ bi_where inputs ep).
Proof.
  intros Hs HB. cbv zeta.
  assert (∀ i w, in_state i w → in_state (for_each ops spec_binder_op i)
    (for_each ops (run_binder_op sbCell singleBinder) w)) as Hrun.
  { induction ops as [|op ops IH]; intros i w0 Hw; [done|]. rw !for_each_cons.
    by apply IH, binder_op_step. }
  specialize (Hrun _ _ (empty_binder_state w Hs HB)).
  apply in_state_iff in Hrun as (M & U & HB' & (m & S1 & S & (Hm & H1 & H2) & _ & _ & HjV & Hj) & _).
  exists M, U. split_and!; [done|..].
  - intros ep part sp. rw HjV Hm. apply decide_ext, H2.
  - intros ep u sp. by rw Hj H1 H2.
Qed.
End handlers.
