(* ===== verification/WorkloadProjector.v ===== *)
(** The workload projector (workload-projector.go): the tables that it is given in
    transactions, in the two indices that it keeps of each, and what a transaction makes
    it do: start informers and queue references to the SyncerConfigs and objects that have
    to be reconsidered.

    The state is the record [workloadProjector].  The distributions are kept in the
    records of the sources and of the destinations; the factored maps of the source have
    wrappers of pointers to those records as inner maps, so the model gives them an outer
    map that refers to the records ([shared_outer]).

    Clients and informers are not modelled: an informer is the fact that there is one, and
    what is in its store is a parameter, as is whether the creation of clients works. *)

From S2P Require Import Prelude Tuples Interfaces Slices Sets Maps Types HashDomains HashMap.
From S2P Require Import Relations FactoredMap Receivers Joins Organizer KbUser.

(** * Factorers *)

Definition GroupResourceNamespacedName : Type := Pair GroupResource NamespacedName.
Definition GroupResourceObjectName : Type := Pair GroupResource ObjectName.

#[export] Instance GroupResourceNamespacedName_eq_dec : EqDecision GroupResourceNamespacedName :=
  prod_eq_dec.
#[export] Instance GroupResourceNamespacedName_countable : Countable GroupResourceNamespacedName :=
  prod_countable.
#[export] Instance GroupResourceObjectName_eq_dec : EqDecision GroupResourceObjectName := prod_eq_dec.
#[export] Instance GroupResourceObjectName_countable : Countable GroupResourceObjectName :=
  prod_countable.

Definition factorNamespacedDistributionTupleForSync1
  : Factorer NamespacedDistributionTuple SinglePlacement (Pair GroupResourceNamespacedName string) :=
  NewFactorer
    (λ whole,
       let grni := NewPair (pmkGroupResource whole.1) (NewPair (tSecond whole.2) (tThird whole.2)) in
       NewPair (pmkDestination whole.1) (NewPair grni (tFirst whole.2)))
    (λ parts,
       NewPair (MkProjectionModeKey parts.2.1.1 parts.1)
         (NewTriple parts.2.2 parts.2.1.2.1 parts.2.1.2.2)).

Definition factorNamespacedDistributionTupleForProj1
  : Factorer NamespacedDistributionTuple string (Pair GroupResourceNamespacedName SinglePlacement) :=
  NewFactorer
    (λ whole,
       let grni := NewPair (pmkGroupResource whole.1) (NewPair (tSecond whole.2) (tThird whole.2)) in
       NewPair (tFirst whole.2) (NewPair grni (pmkDestination whole.1)))
    (λ parts,
       NewPair (MkProjectionModeKey parts.2.1.1 parts.2.2)
         (NewTriple parts.1 parts.2.1.2.1 parts.2.1.2.2)).

Definition factorNamespacedDistributionTupleForProj1and234
  : Factorer NamespacedDistributionTuple string
      (Triple GroupResource NamespacedName SinglePlacement) :=
  NewFactorer
    (λ whole,
       NewPair (tFirst whole.2)
         (NewTriple (pmkGroupResource whole.1) (NewPair (tSecond whole.2) (tThird whole.2))
            (pmkDestination whole.1)))
    (λ parts,
       NewPair (MkProjectionModeKey (tFirst parts.2) (tThird parts.2))
         (NewTriple parts.1 (tSecond parts.2).1 (tSecond parts.2).2)).

Definition factorNonNamespacedDistributionTupleForSync1
  : Factorer NonNamespacedDistributionTuple SinglePlacement (Pair GroupResourceObjectName string) :=
  NewFactorer
    (λ whole,
       NewPair (pmkDestination whole.1)
         (NewPair (NewPair (pmkGroupResource whole.1) (enName whole.2)) (enCluster whole.2)))
    (λ parts,
       NewPair (MkProjectionModeKey parts.2.1.1 parts.1) (MkExternalName parts.2.2 parts.2.1.2)).

Definition factorNonNamespacedDistributionTupleForProj1
  : Factorer NonNamespacedDistributionTuple string (Pair GroupResourceObjectName SinglePlacement) :=
  NewFactorer
    (λ whole,
       NewPair (enCluster whole.2)
         (NewPair (NewPair (pmkGroupResource whole.1) (enName whole.2)) (pmkDestination whole.1)))
    (λ parts,
       NewPair (MkProjectionModeKey parts.2.1.1 parts.2.2) (MkExternalName parts.1 parts.2.1.2)).

Definition factorNonNamespacedDistributionTupleForProj1and234
  : Factorer NonNamespacedDistributionTuple string (Triple GroupResource ObjectName SinglePlacement) :=
  NewFactorer
    (λ whole,
       NewPair (enCluster whole.2)
         (NewTriple (pmkGroupResource whole.1) (enName whole.2) (pmkDestination whole.1)))
    (λ parts,
       NewPair (MkProjectionModeKey (tFirst parts.2) (tThird parts.2))
         (MkExternalName parts.1 (tSecond parts.2))).

Definition factorProjectionModeKeyForSyncer
  : Factorer ProjectionModeKey SinglePlacement GroupResource :=
  NewFactorer (λ pmk, NewPair (pmkDestination pmk) (pmkGroupResource pmk))
    (λ tup, MkProjectionModeKey tup.2 tup.1).

Definition factorProjectionModeKeyForProj
  : Factorer ProjectionModeKey GroupResource SinglePlacement :=
  NewFactorer (λ pmk, NewPair (pmkGroupResource pmk) (pmkDestination pmk))
    (λ tup, MkProjectionModeKey tup.1 tup.2).

#[export] Instance factorNamespacedForSync1_ok : RotatorOk factorNamespacedDistributionTupleForSync1.
Proof. split; [by intros [[] []]|by intros [? [[? []] ?]]]. Qed.
#[export] Instance factorNamespacedForProj1_ok : RotatorOk factorNamespacedDistributionTupleForProj1.
Proof. split; [by intros [[] []]|by intros [? [[? []] ?]]]. Qed.
#[export] Instance factorNamespacedForProj1and234_ok :
  RotatorOk factorNamespacedDistributionTupleForProj1and234.
Proof. split; [by intros [[] []]|by intros [? [? [] ?]]]. Qed.
#[export] Instance factorNonNamespacedForSync1_ok : RotatorOk factorNonNamespacedDistributionTupleForSync1.
Proof. split; [by intros [[] []]|by intros [? [[] ?]]]. Qed.
#[export] Instance factorNonNamespacedForProj1_ok : RotatorOk factorNonNamespacedDistributionTupleForProj1.
Proof. split; [by intros [[] []]|by intros [? [[] ?]]]. Qed.
#[export] Instance factorNonNamespacedForProj1and234_ok :
  RotatorOk factorNonNamespacedDistributionTupleForProj1and234.
Proof. split; [by intros [[] []]|by intros [? []]]. Qed.
#[export] Instance factorProjectionModeKeyForSyncer_ok : RotatorOk factorProjectionModeKeyForSyncer.
Proof. split; [by intros []|by intros []]. Qed.
#[export] Instance factorProjectionModeKeyForProj_ok : RotatorOk factorProjectionModeKeyForProj.
Proof. split; [by intros []|by intros []]. Qed.

(** * State *)

(** The part of a [dynamicDuo] that is data; there is one exactly if there is an informer. *)
Record dynamicDuo : Set := MkDynamicDuo { duo_apiVersion : string; duo_namespaced : bool }.

Record wpPerSource : Type := MkWpPerSource {
  wps_nsdDistributions : gmap GroupResource (gmap NamespacedName (gmap SinglePlacement DistributionBits));
  wps_nnsDistributions : gmap GroupResource (gmap ObjectName (gmap SinglePlacement DistributionBits));
  wps_preInformers : gmap GroupResource dynamicDuo
}.

Record wpPerDestination : Type := MkWpPerDestination {
  wpd_nsdDistributions : gmap GroupResourceNamespacedName (gmap string DistributionBits);
  wpd_nnsDistributions : gmap GroupResourceObjectName (gmap string DistributionBits);
  (** whether [dynamicClient] is there *)
  wpd_dynamicClient : bool;
  wpd_preInformers : gmap GroupResource dynamicDuo
}.

Definition noNamespace : string := "no NS".
Definition SyncerConfigName : string := "the-one".
Definition nsGR : GroupResource := MkGroupResource "" "namespaces".

(** The references in the work queue. *)
Inductive wpRef : Type :=
| singlePlacementRef (destination : SinglePlacement)
| syncerConfigRef (mbwsName : string) (name : ObjectName)
| syncerConfigProjectionRef (kbID : string) (name : ObjectName)
| sourceObjectRef (cluster : string) (groupResource : GroupResource) (namespace name : string)
| destinationObjectRef (destination : SinglePlacement) (groupResource : GroupResource)
    (namespace : string) (name : ObjectName).

Record workloadProjector : Type := MkWP {
  wp_mbwsNameToSP : gmap string SinglePlacement;
  wp_perSource : gmap string wpPerSource;
  wp_perDestination : gmap SinglePlacement wpPerDestination;
  wp_changedDestinations : MapSet SinglePlacement;
  (** a local variable of [Transact] *)
  wp_changedSources : MapSet string;
  (** the keys of the outer maps of the four indices of distributions *)
  wp_nsdForProj : gset string;
  wp_nnsForProj : gset string;
  wp_nsdForSync : gset SinglePlacement;
  wp_nnsForSync : gset SinglePlacement;
  wp_nsModesForSync : gmap SinglePlacement (gmap GroupResource ProjectionModeVal);
  wp_nnsModesForSync : gmap SinglePlacement (gmap GroupResource ProjectionModeVal);
  wp_nsModesForProj : gmap GroupResource (gmap SinglePlacement ProjectionModeVal);
  wp_nnsModesForProj : gmap GroupResource (gmap SinglePlacement ProjectionModeVal);
  wp_upsyncs : HashRelation2Rep SinglePlacement UpsyncSet;
  (** what has been added to the work queue *)
  wp_queue : list wpRef
}.

(** ** References to the fields *)

Definition mbwsNameToSP_cell : Cell workloadProjector _ :=
  MkCell wp_mbwsNameToSP (λ x '(MkWP _ b c d e f g h i j k l m n o), MkWP x b c d e f g h i j k l m n o).
Definition perSource_cell : Cell workloadProjector _ :=
  MkCell wp_perSource (λ x '(MkWP a _ c d e f g h i j k l m n o), MkWP a x c d e f g h i j k l m n o).
Definition perDestination_cell : Cell workloadProjector _ :=
  MkCell wp_perDestination (λ x '(MkWP a b _ d e f g h i j k l m n o), MkWP a b x d e f g h i j k l m n o).
Definition changedDestinations_cell : Cell workloadProjector _ :=
  MkCell wp_changedDestinations (λ x '(MkWP a b c _ e f g h i j k l m n o), MkWP a b c x e f g h i j k l m n o).
Definition changedSources_cell : Cell workloadProjector _ :=
  MkCell wp_changedSources (λ x '(MkWP a b c d _ f g h i j k l m n o), MkWP a b c d x f g h i j k l m n o).
Definition nsdForProj_cell : Cell workloadProjector _ :=
  MkCell wp_nsdForProj (λ x '(MkWP a b c d e _ g h i j k l m n o), MkWP a b c d e x g h i j k l m n o).
Definition nnsForProj_cell : Cell workloadProjector _ :=
  MkCell wp_nnsForProj (λ x '(MkWP a b c d e f _ h i j k l m n o), MkWP a b c d e f x h i j k l m n o).
Definition nsdForSync_cell : Cell workloadProjector _ :=
  MkCell wp_nsdForSync (λ x '(MkWP a b c d e f g _ i j k l m n o), MkWP a b c d e f g x i j k l m n o).
Definition nnsForSync_cell : Cell workloadProjector _ :=
  MkCell wp_nnsForSync (λ x '(MkWP a b c d e f g h _ j k l m n o), MkWP a b c d e f g h x j k l m n o).
Definition nsModesForSync_cell : Cell workloadProjector _ :=
  MkCell wp_nsModesForSync (λ x '(MkWP a b c d e f g h i _ k l m n o), MkWP a b c d e f g h i x k l m n o).
Definition nnsModesForSync_cell : Cell workloadProjector _ :=
  MkCell wp_nnsModesForSync (λ x '(MkWP a b c d e f g h i j _ l m n o), MkWP a b c d e f g h i j x l m n o).
Definition nsModesForProj_cell : Cell workloadProjector _ :=
  MkCell wp_nsModesForProj (λ x '(MkWP a b c d e f g h i j k _ m n o), MkWP a b c d e f g h i j k x m n o).
Definition nnsModesForProj_cell : Cell workloadProjector _ :=
  MkCell wp_nnsModesForProj (λ x '(MkWP a b c d e f g h i j k l _ n o), MkWP a b c d e f g h i j k l x n o).
Definition upsyncs_cell : Cell workloadProjector _ :=
  MkCell wp_upsyncs (λ x '(MkWP a b c d e f g h i j k l m _ o), MkWP a b c d e f g h i j k l m x o).
Definition queue_cell : Cell workloadProjector _ :=
  MkCell wp_queue (λ x '(MkWP a b c d e f g h i j k l m n _), MkWP a b c d e f g h i j k l m n x).

Definition wps_nsd_cell : Cell wpPerSource _ :=
  MkCell wps_nsdDistributions (λ x '(MkWpPerSource _ b c), MkWpPerSource x b c).
Definition wps_nns_cell : Cell wpPerSource _ :=
  MkCell wps_nnsDistributions (λ x '(MkWpPerSource a _ c), MkWpPerSource a x c).
Definition wpd_nsd_cell : Cell wpPerDestination _ :=
  MkCell wpd_nsdDistributions (λ x '(MkWpPerDestination _ b c d), MkWpPerDestination x b c d).
Definition wpd_nns_cell : Cell wpPerDestination _ :=
  MkCell wpd_nnsDistributions (λ x '(MkWpPerDestination a _ c d), MkWpPerDestination a x c d).

(** [sourceConfig] tells whether the space client gives a config for the source. Its error is
    only logged, and making a client from the nil config panics: [None]. *)
Definition newPerSourceLocked (sourceConfig : string → bool) (source : string) : option wpPerSource :=
  if sourceConfig source then Some (MkWpPerSource ∅ ∅ ∅) else None.

(** The record that [newPerSourceLocked] returns when it returns; [Transact] accounts for the
    calls that do not. *)
Definition freshPerSource (source : string) : wpPerSource := MkWpPerSource ∅ ∅ ∅.
Definition newPerDestinationLocked (destination : SinglePlacement) : wpPerDestination :=
  MkWpPerDestination ∅ ∅ false ∅.

Definition emptyProjector : workloadProjector :=
  MkWP ∅ ∅ ∅ ∅ ∅ ∅ ∅ ∅ ∅ ∅ ∅ ∅ ∅ emptyBuckets [].

(** * Factored maps over shared records *)

Section shared.
Context `{MapRange} {W K Rec Inner : Type} `{Countable K}.
Context (present : Cell W (gset K)) (records : Cell W (gmap K Rec)) (field : Cell Rec Inner)
  (newRec : K → Rec).

(** The record under [k], which is made when it is needed. *)
Definition shared_record (k : K) (w : W) : Rec := default (newRec k) (cget records w !! k).

Definition set_inner (k : K) (inner : Inner) (w : W) : W :=
  cset records (<[k := cset field inner (shared_record k w)]> (cget records w)) w.

(** The outer map: its keys are in [present], and the inner map under a key is a field
    of the record. *)
Definition shared_outer : MutableMap W K Inner :=
  MkMutableMap
    (MkGoMap (λ w, (size (cget present w) =? 0)%nat) (λ w, size (cget present w)) (λ _, true)
       (λ k w, if decide (k ∈ cget present w) then Some (cget field (shared_record k w)) else None)
       (λ w, (λ k, (k, cget field (shared_record k w))) <$> set_range (cget present w)))
    (MkMappingReceiver
       (λ k inner w, set_inner k inner (cset present ({[k]} ∪ cget present w) w))
       (λ k w, cset present (cget present w ∖ {[k]}) w))
    set_inner.

(** The constructor of inner maps: the field of the record, which is added if absent. *)
Definition shared_constructor (k : K) (w : W) : Inner * W :=
  let '(rec, w) := MapGetAdd (newRec k) (MapMap_AsMutableMap None records) k true newRec w in
  (cget field rec, w).

Definition NewSharedFactoredMap {Whole B V} (kd : Factorer Whole K B) (inner : MutableMap Inner B V)
  : MutableMap W Whole V :=
  NewGenericFactoredMap kd shared_constructor inner shared_outer None None.
End shared.

(** * The tables *)

Section projector.
Context `{MapRange}.
Abbreviation W := workloadProjector.

Definition nsdDistributionsForProj : MutableMap W NamespacedDistributionTuple DistributionBits :=
  NewSharedFactoredMap nsdForProj_cell perSource_cell wps_nsd_cell freshPerSource
    factorNamespacedDistributionTupleForProj1and234 (NewSingleIndexedMapMap3 id_cell).

Definition nnsDistributionsForProj : MutableMap W NonNamespacedDistributionTuple DistributionBits :=
  NewSharedFactoredMap nnsForProj_cell perSource_cell wps_nns_cell freshPerSource
    factorNonNamespacedDistributionTupleForProj1and234 (NewSingleIndexedMapMap3 id_cell).

Definition nsdDistributionsForSync : MutableMap W NamespacedDistributionTuple DistributionBits :=
  NewSharedFactoredMap nsdForSync_cell perDestination_cell wpd_nsd_cell newPerDestinationLocked
    factorNamespacedDistributionTupleForSync1 (NewSingleIndexedMapMap2 id_cell).

Definition nnsDistributionsForSync : MutableMap W NonNamespacedDistributionTuple DistributionBits :=
  NewSharedFactoredMap nnsForSync_cell perDestination_cell wpd_nns_cell newPerDestinationLocked
    factorNonNamespacedDistributionTupleForSync1 (NewSingleIndexedMapMap2 id_cell).

Definition changedDestinations : MutableSet W SinglePlacement :=
  WrapSetWithMutex (MapSet_AsMutableSet changedDestinations_cell).
Definition changedSources : MutableSet W string :=
  WrapSetWithMutex (MapSet_AsMutableSet changedSources_cell).

Definition noteModeWrite : SetChangeReceiver W SinglePlacement :=
  λ add destination w,
    if add then (sw_Add changedDestinations destination w).2
    else (sw_Remove changedDestinations destination w).2.

Definition nsModesForSync : MutableMap W ProjectionModeKey ProjectionModeVal :=
  NewFactoredMapMap factorProjectionModeKeyForSyncer None (Some noteModeWrite) None nsModesForSync_cell.
Definition nnsModesForSync : MutableMap W ProjectionModeKey ProjectionModeVal :=
  NewFactoredMapMap factorProjectionModeKeyForSyncer None (Some noteModeWrite) None nnsModesForSync_cell.
Definition nsModesForProj : MutableMap W ProjectionModeKey ProjectionModeVal :=
  NewFactoredMapMap factorProjectionModeKeyForProj None None None nsModesForProj_cell.
Definition nnsModesForProj : MutableMap W ProjectionModeKey ProjectionModeVal :=
  NewFactoredMapMap factorProjectionModeKeyForProj None None None nnsModesForProj_cell.

Definition upsyncs : MutableRelation2 W SinglePlacement UpsyncSet :=
  NewHashRelation2 HashSinglePlacement HashUpsyncSet upsyncs_cell.

(** * Transactions *)

Definition recordPart {Whole Part Rest} (record : MutableSet W Part) (factorer : Factorer Whole Part Rest)
  : SetWriter W Whole :=
  SetWriterFuncs
    (Some (λ whole w, let parts := rotFirst factorer whole in (true, (sw_Add record parts.1 w).2)))
    (Some (λ whole w, let parts := rotFirst factorer whole in (true, (sw_Add record parts.1 w).2))).

Definition nsod : MappingReceiver W NamespacedDistributionTuple DistributionBits :=
  MappingReceiverFork [
    MapKeySetReceiverLossy (SetWriterFork false [
      recordPart changedDestinations factorNamespacedDistributionTupleForSync1;
      recordPart changedSources factorNamespacedDistributionTupleForProj1]);
    nsdDistributionsForSync : MappingReceiver _ _ _; nsdDistributionsForProj : MappingReceiver _ _ _].

Definition nnsod : MappingReceiver W NonNamespacedDistributionTuple DistributionBits :=
  MappingReceiverFork [
    MapKeySetReceiverLossy (SetWriterFork false [
      recordPart changedDestinations factorNonNamespacedDistributionTupleForSync1;
      recordPart changedSources factorNonNamespacedDistributionTupleForProj1]);
    nnsDistributionsForSync : MappingReceiver _ _ _; nnsDistributionsForProj : MappingReceiver _ _ _].

(** A receiver that only logs does not change the state. *)
Definition NewLoggingMappingReceiver {Key Val} : MappingReceiver W Key Val :=
  loggingMappingReceiver (λ _ _ _ w, w).

Definition nsModes : MappingReceiver W ProjectionModeKey ProjectionModeVal :=
  MappingReceiverFork [nsModesForSync : MappingReceiver _ _ _; nsModesForProj : MappingReceiver _ _ _;
    NewLoggingMappingReceiver].
Definition nnsModes : MappingReceiver W ProjectionModeKey ProjectionModeVal :=
  MappingReceiverFork [nnsModesForSync : MappingReceiver _ _ _; nnsModesForProj : MappingReceiver _ _ _;
    NewLoggingMappingReceiver].

Definition sections : WorkloadProjectionSections W :=
  MkWorkloadProjectionSections nsod nsModes nnsod nnsModes upsyncs.

Definition Transact_begin (w : W) : W :=
  cset changedSources_cell ∅ (cset changedDestinations_cell ∅ w).

(** ** The end of a transaction *)

(** The stores of the informers, and whether the clients of a destination can be made:
    [None] if so, else whether the dynamic client is made before the failure. *)
Context (sourceStore : string → GroupResource → list ObjectMeta).
Context (destinationStore : SinglePlacement → GroupResource → list ObjectMeta).
Context (clientFailure : SinglePlacement → option bool).

Definition queue_Add (ref : wpRef) (w : W) : W := cset queue_cell (wp_queue w ++ [ref]) w.

(** The namespace in a reference to an object. *)
Definition refNamespace (namespaced : bool) (objm : ObjectMeta) : string :=
  if namespaced then omNamespace objm else noNamespace.

Definition enqueueSourceObject (source : string) (gr : GroupResource) (namespaced : bool)
  (objm : ObjectMeta) (w : W) : W :=
  queue_Add (sourceObjectRef source gr (refNamespace namespaced objm) (omName objm)) w.
Definition enqueueDestinationObject (destination : SinglePlacement) (gr : GroupResource)
  (namespaced : bool) (objm : ObjectMeta) (w : W) : W :=
  queue_Add (destinationObjectRef destination gr (refNamespace namespaced objm) (omName objm)) w.

Definition wps_resyncGroupResource (source : string) (gr : GroupResource) (namespaced : bool) (w : W) : W :=
  for_each (sourceStore source gr) (enqueueSourceObject source gr namespaced) w.
Definition wpd_resyncGroupResource (destination : SinglePlacement) (gr : GroupResource) (duo : dynamicDuo)
  (w : W) : W :=
  for_each (destinationStore destination gr)
    (enqueueDestinationObject destination gr (duo_namespaced duo)) w.

Definition wps_getDynamicDuoLocked (gr : GroupResource) (apiVersion : string) (namespaced : bool)
  (wps : wpPerSource) : wpPerSource :=
  match wps_preInformers wps !! gr with
  | Some _ => wps
  | None =>
      MkWpPerSource (wps_nsdDistributions wps) (wps_nnsDistributions wps)
        (<[gr := MkDynamicDuo apiVersion namespaced]> (wps_preInformers wps))
  end.

(** [inl] for an error *)
Definition wpd_getDynamicDuoLocked (destination : SinglePlacement) (gr : GroupResource)
  (apiVersion : string) (namespaced : bool) (wpd : wpPerDestination)
  : (unit + dynamicDuo) * wpPerDestination :=
  let withClient := MkWpPerDestination (wpd_nsdDistributions wpd) (wpd_nnsDistributions wpd) true
                      (wpd_preInformers wpd) in
  let duo wpd :=
    match wpd_preInformers wpd !! gr with
    | Some duo => (inr duo, wpd)
    | None =>
        let duo := MkDynamicDuo apiVersion namespaced in
        (inr duo,
         MkWpPerDestination (wpd_nsdDistributions wpd) (wpd_nnsDistributions wpd)
           (wpd_dynamicClient wpd) (<[gr:=duo]> (wpd_preInformers wpd)))
    end in
  if wpd_dynamicClient wpd then duo wpd
  else
    match clientFailure destination with
    | Some false => (inl (), wpd)
    | Some true => (inl (), withClient)
    | None => duo withClient
    end.

(** The loop over an index of distributions of a source. *)
Definition startSourceInformers {M} (modes : gmap GroupResource (gmap SinglePlacement ProjectionModeVal))
  (namespaced : bool) (index : gmap GroupResource M) (wps : wpPerSource) : wpPerSource :=
  for_each (map_range index) (λ '(gr, _) wps,
    match modes !! gr with
    | None => wps
    | Some problem =>
        let pmv := pickThe1 gr problem in
        wps_getDynamicDuoLocked gr (pmvAPIVersion pmv) namespaced wps
    end) wps.

Definition finishSource (source : string) (w : W) : W :=
  match wp_perSource w !! source with
  | None => w
  | Some wps =>
      let w := for_each (map_range (wps_preInformers wps)) (λ '(gr, duo) w,
                 wps_resyncGroupResource source gr (duo_namespaced duo) w) w in
      let wps := startSourceInformers (wp_nsModesForProj w) true (wps_nsdDistributions wps) wps in
      let wps := startSourceInformers (wp_nnsModesForProj w) false (wps_nnsDistributions wps) wps in
      cset perSource_cell (<[source:=wps]> (wp_perSource w)) w
  end.

(** The loops over the distributions of a destination; [modes] is nil ([None]) when there
    are none for the destination, and then its use panics. *)
Definition startInformers {Name} (destination : SinglePlacement)
  (modes : option (gmap GroupResource ProjectionModeVal)) (namespaced : bool)
  (index : list (Pair (Pair GroupResource Name) (gmap string DistributionBits))) (wpd : wpPerDestination)
  : option wpPerDestination :=
  for_each index (λ tup wpd,
    wpd ← wpd;
    if (size tup.2 =? 0)%nat then Some wpd
    else
      modes ← modes;
      match modes !! tup.1.1 with
      | None => Some wpd
      | Some pmv =>
          Some (wpd_getDynamicDuoLocked destination tup.1.1 (pmvAPIVersion pmv) namespaced wpd).2
      end) (Some wpd).

Definition finishDestination (destination : SinglePlacement) (w : W) : option W :=
  let mbwsName := SPMailboxWorkspaceName destination in
  let w := cset mbwsNameToSP_cell (<[mbwsName:=destination]> (wp_mbwsNameToSP w)) w in
  match wp_perDestination w !! destination with
  | None => Some w
  | Some wpd =>
      let nsms := wp_nsModesForSync w !! destination in
      let nnsms := wp_nnsModesForSync w !! destination in
      let w := for_each (map_range (wpd_preInformers wpd)) (λ '(gr, duo) w,
                 if bool_decide (gr = nsGR) then w else wpd_resyncGroupResource destination gr duo w) w in
      let w := queue_Add (syncerConfigRef mbwsName SyncerConfigName) w in
      wpd ← startInformers destination nsms true (map_range (wpd_nsdDistributions wpd)) wpd;
      wpd ← startInformers destination nnsms false (map_range (wpd_nnsDistributions wpd)) wpd;
      Some (cset perDestination_cell (<[destination:=wpd]> (wp_perDestination w)) w)
  end.

(** [None] for a panic *)
Definition Transact_end (w : W) : option W :=
  let w := for_each (set_range (wp_changedSources w)) finishSource w in
  for_each (set_range (wp_changedDestinations w))
    (λ destination w, w ← w; finishDestination destination w) (Some w).

Context (sourceConfig : string → bool).

(** The sections call [newPerSourceLocked] for the sources that get a record, and no record
    is ever removed: the transaction panics there if one of those calls does. *)
Definition Transact (xn : WorkloadProjectionSections W → W → W) (w : W) : option W :=
  let w := Transact_begin w in
  let w1 := xn sections w in
  let newSources := dom (wp_perSource w1) ∖ dom (wp_perSource w) in
  _ ← mapM (newPerSourceLocked sourceConfig) (set_range newSources);
  Transact_end w1.

(** The projector behind the interface that the binding organizer uses; the state that a
    panic leaves is the one before the end. *)
Definition AsWorkloadProjector : WorkloadProjector W :=
  MkWorkloadProjector (λ w, (sections, Transact_begin w)) (λ w, default w (Transact_end w)).
End projector.
