(* ===== verification/WorkloadProjectorFacts.v ===== *)
(** The workload projector keeps both indices of each table in step with the changes it is
    told of in transactions, so it is what the binding organizer expects of it; and the end
    of a transaction reconsiders each destination whose objects or modes changed. *)

From S2P Require Import Prelude Tuples Interfaces Slices Sets Maps Types HashDomains HashMap.
From S2P Require Import Relations FactoredMap Receivers Joins Organizer KbUser WorkloadProjector.

(** * Factored maps over shared records *)

Section shared_facts.
Context `{MapRange} {W K Rec Inner Whole B V : Type} `{Countable K, Countable Whole, Countable B}.
Context (present : Cell W (gset K)) (records : Cell W (gmap K Rec)) (field : Cell Rec Inner)
  (newRec : K → Rec).
Context `{!CellOk present, !CellOk records, !CellOk field}.
Context `{Hpr : !Indep present (cget records), Hrp : !Indep records (cget present)}.
Context (kd : Factorer Whole K B) `{!RotatorOk kd}.
Context (inner : MutableMap Inner B V) (wfI : Inner → Prop) (absI : Inner → gmap B V)
  `{HI : !MutableMapOk inner None id_cell wfI absI}.

Abbreviation record := (shared_record records newRec).
Abbreviation fm := (NewSharedFactoredMap present records field newRec kd inner).

Definition inner_at (k : K) (w : W) : Inner := cget field (record k w).

(** A key is present exactly if its inner map is not empty; the table is [m]. *)
Definition shared_holds (m : gmap Whole V) (w : W) : Prop :=
  (∀ k, wfI (inner_at k w) ∧ (k ∈ cget present w ↔ absI (inner_at k w) ≠ ∅)) ∧
  ∀ x, m !! x = absI (inner_at (rotFirst kd x).1 w) !! (rotFirst kd x).2.

#[local] Instance inner_is_map : GoMapOk inner wfI absI := mm_map_ok (MutableMapOk:=HI).

Lemma record_set_inner k a i w :
  record k (set_inner records field newRec a i w)
  = if decide (k = a) then cset field i (record a w) else record k w.
Proof.
  unfold set_inner, shared_record. rw cget_cset. destruct (decide (k = a)) as [-> |Hne].
  - by rw lookup_insert_eq.
  - by rw lookup_insert_ne.
Qed.

Lemma record_set_present k p w : record k (cset present p w) = record k w.
Proof. unfold shared_record. by rw Hpr. Qed.

Lemma constructor_spec a w :
  (shared_constructor records field newRec a w).1 = inner_at a w ∧
  (∀ k, record k (shared_constructor records field newRec a w).2 = record k w) ∧
  ∀ (X : Type) (f : W → X), Indep records f → f (shared_constructor records field newRec a w).2 = f w.
Proof.
  unfold shared_constructor, MapGetAdd, inner_at, shared_record. cbn. unfold MapMap_Get.
  destruct (cget records w !! a) as [r|] eqn:Ha; cbn; [done|]. unfold MapMap_Put. cbn.
  split; [done|]. split; [|by intros X f Hf]. intros k. rw cget_cset.
  destruct (decide (k = a)) as [-> |Hne]; [by rw lookup_insert_eq Ha|by rw lookup_insert_ne].
Qed.

(** What a change of the table does to the records and to the keys. *)
Definition only_field (w w' : W) : Prop :=
  (∀ k, record k w' = record k w ∨ ∃ i, record k w' = cset field i (record k w)) ∧
  ∀ (X : Type) (f : W → X), Indep present f → Indep records f → f w' = f w.

Lemma only_field_other {X} w w' (g : Rec → X) :
  only_field w w' → (∀ i r, g (cset field i r) = g r) → ∀ k, g (record k w') = g (record k w).
Proof. intros [Hrec _] Hg k. by destruct (Hrec k) as [-> |[i ->]]. Qed.

Lemma shared_put_spec x v w :
  let a := (rotFirst kd x).1 in
  let w' := mr_Put fm x v w in
  only_field w w' ∧ cget present w' = {[a]} ∪ cget present w ∧
  ∀ k, inner_at k w' = if decide (k = a) then mr_Put inner (rotFirst kd x).2 v (inner_at a w) else inner_at k w.
Proof.
  cbn. unfold genericFactoredMap_Put. cbn. set (a := (rotFirst kd x).1). set (b := (rotFirst kd x).2).
  fold (inner_at a w). destruct (decide (a ∈ cget present w)) as [Hin|Hin].
  - split_and!.
    + split; [|intros X f ? Hf; apply Hf]. intros k. rw record_set_inner.
      destruct (decide (k = a)) as [-> |]; [right; by eexists|by left].
    + unfold set_inner. rw Hrp. set_solver.
    + intros k. unfold inner_at at 1. rw record_set_inner. by destruct (decide (k = a)); [rw cget_cset|].
  - destruct (constructor_spec a w) as (Hi & Hrec & Hf).
    destruct (shared_constructor records field newRec a w) as [i w1]. cbn [fst snd] in *. subst i.
    split_and!.
    + split; [|intros X f Hp Hr; unfold set_inner; by rw Hr Hp Hf]. intros k. rw record_set_inner !record_set_present !Hrec.
      destruct (decide (k = a)) as [-> |]; [right; by eexists|by left].
    + unfold set_inner. by rw Hrp cget_cset (Hf _ (cget present)).
    + intros k. unfold inner_at at 1. rw record_set_inner !record_set_present.
      destruct (decide (k = a)); [by rw cget_cset|]. by rw Hrec.
Qed.

Lemma inner_put b v i : wfI i → wfI (mr_Put inner b v i) ∧ absI (mr_Put inner b v i) = <[b:=v]> (absI i).
Proof. intros Hi. by destruct (mm_put_ok b v i Hi) as (r & i' & -> & [<- _] & ? & ?). Qed.

Lemma inner_delete b i : wfI i → wfI (mr_Delete inner b i) ∧ absI (mr_Delete inner b i) = delete b (absI i).
Proof. intros Hi. by destruct (mm_delete_ok b i Hi) as (r & i' & -> & [<- _] & ? & ?). Qed.

(** The keys in which two wholes differ. *)
Lemma parts_ne (x y : Whole) :
  x ≠ y → (rotFirst kd y).1 = (rotFirst kd x).1 → (rotFirst kd y).2 ≠ (rotFirst kd x).2.
Proof.
  intros Hne H1' H2'. apply Hne, (rotFirst_inj kd).
  by rw (surjective_pairing (rotFirst kd x)) -H1' -H2' -surjective_pairing.
Qed.

Lemma shared_put_holds x v m w : shared_holds m w → shared_holds (<[x:=v]> m) (mr_Put fm x v w).
Proof.
  intros [Hwf Hm]. destruct (shared_put_spec x v w) as (_ & Hp & Hin). cbv zeta in Hp, Hin.
  set (w' := mr_Put fm x v w) in *. clearbody w'.
  destruct (inner_put (rotFirst kd x).2 v (inner_at (rotFirst kd x).1 w)) as [Hwi Hai]; [apply Hwf|].
  split.
  - intros k. rw Hin Hp. destruct (decide (k = (rotFirst kd x).1)) as [-> |Hne].
    + split; [done|]. rw Hai. split; [intros _; apply insert_non_empty|set_solver].
    + rw -(proj2 (Hwf k)). split; [apply Hwf|set_solver].
  - intros y. destruct (decide (x = y)) as [<-|Hne].
    + by rw lookup_insert_eq Hin decide_True // Hai lookup_insert_eq.
    + rw lookup_insert_ne // Hm Hin. destruct (decide _) as [Heq|]; [|done].
      rw Hai lookup_insert_ne ?Heq //. by apply not_eq_sym, parts_ne.
Qed.

Lemma shared_delete_spec x w :
  (∀ k, wfI (inner_at k w)) →
  let a := (rotFirst kd x).1 in
  let i := inner_at a w in
  let w' := mr_Delete fm x w in
  only_field w w' ∧
  (w' = w ∧ (a ∉ cget present w ∨ absI i !! (rotFirst kd x).2 = None) ∨
   (a ∈ cget present w ∧
    cget present w' = (if decide (absI (mr_Delete inner (rotFirst kd x).2 i) = ∅)
                       then cget present w ∖ {[a]} else cget present w) ∧
    ∀ k, inner_at k w' = if decide (k = a) then mr_Delete inner (rotFirst kd x).2 i else inner_at k w)).
Proof.
  intros Hwf. cbn. unfold genericFactoredMap_Delete. cbn. set (a := (rotFirst kd x).1). set (b := (rotFirst kd x).2).
  fold (inner_at a w). assert (only_field w w) as Hrefl by (split; [by left|done]).
  destruct (decide (a ∈ cget present w)) as [Hin|Hin]; [|naive_solver].
  rw (map_Get_ok (m:=inner) b (inner_at a w) (Hwf a)).
  destruct (absI (inner_at a w) !! b) as [old|] eqn:Hb; [|naive_solver].
  destruct (inner_delete b (inner_at a w) (Hwf a)) as [Hwd _].
  rw (map_IsEmpty_ok (m:=inner) _ Hwd).
  set (i' := mr_Delete inner b (inner_at a w)) in *.
  assert (∀ k, inner_at k (set_inner records field newRec a i' w) = if decide (k = a) then i' else inner_at k w) as Hi'.
  { intros k. unfold inner_at at 1. rw record_set_inner. by destruct (decide (k = a)); [rw cget_cset|]. }
  assert (∀ k, record k (set_inner records field newRec a i' w) = record k w ∨
    ∃ i, record k (set_inner records field newRec a i' w) = cset field i (record k w)) as Hrec.
  { intros k. rw record_set_inner. destruct (decide (k = a)) as [-> |]; [right; by eexists|by left]. }
  assert (cget present (set_inner records field newRec a i' w) = cget present w) as Hpres.
  { unfold set_inner. by rw Hrp. }
  case_bool_decide as He.
  - apply dom_empty_iff_L in He. split.
    + split; [intros k; rw record_set_present; apply Hrec|].
      intros X f Hp Hr. rw Hp. apply Hr.
    + right. split; [done|]. rw decide_True // cget_cset Hpres. split; [done|].
      intros k. unfold inner_at at 1. rw record_set_present. apply Hi'.
  - rw dom_empty_iff_L in He. split; [split; [done|intros X f _ Hr; apply Hr]|].
    right. split; [done|]. by rw decide_False.
Qed.

Lemma shared_delete_holds x m w : shared_holds m w → shared_holds (delete x m) (mr_Delete fm x w).
Proof.
  intros [Hwf Hm]. destruct (shared_delete_spec x w) as (_ & [[Hw' Hnone]|(Ha & Hp & Hin)]); [apply Hwf|..].
  - rw Hw'. split; [done|]. intros y. destruct (decide (x = y)) as [<-|]; [|by rw lookup_delete_ne].
    rw lookup_delete_eq. destruct Hnone as [Hout|Hb]; [|done].
    rw (proj2 (Hwf _)) in Hout. assert (absI (inner_at (rotFirst kd x).1 w) = ∅) as ->; [|done].
    by apply dec_stable.
  - set (w' := mr_Delete fm x w) in *. clearbody w'.
    destruct (inner_delete (rotFirst kd x).2 (inner_at (rotFirst kd x).1 w)) as [Hwi Hai]; [apply Hwf|]. split.
    + intros k. rw Hin. destruct (decide (k = (rotFirst kd x).1)) as [-> |Hne].
      * split; [done|]. rw Hp. destruct (decide _) as [He|He]; set_solver.
      * rw -(proj2 (Hwf k)). split; [apply Hwf|]. rw Hp. destruct (decide _); set_solver.
    + intros y. destruct (decide (x = y)) as [<-|Hne].
      * by rw lookup_delete_eq Hin decide_True // Hai lookup_delete_eq.
      * rw lookup_delete_ne // Hm Hin.
        destruct (decide ((rotFirst kd y).1 = (rotFirst kd x).1)) as [Heq|]; [|done].
        rw Hai lookup_delete_ne ?Heq //. by apply not_eq_sym, parts_ne.
Qed.

Lemma shared_holds_ext m w w' :
  cget present w' = cget present w → (∀ k, inner_at k w' = inner_at k w) →
  shared_holds m w → shared_holds m w'.
Proof.
  intros Hp Hi [Hwf Hm]. split; [intros k; rw Hi Hp; apply Hwf|]. intros x. by rw Hi.
Qed.

(** The records that a change makes. *)
Lemma set_inner_dom a i w :
  dom (cget records (set_inner records field newRec a i w)) = {[a]} ∪ dom (cget records w).
Proof. unfold set_inner. by rw cget_cset dom_insert_L. Qed.

Lemma shared_put_dom x v w :
  dom (cget records (mr_Put fm x v w)) = {[(rotFirst kd x).1]} ∪ dom (cget records w).
Proof.
  cbn. unfold genericFactoredMap_Put. cbn. set (a := (rotFirst kd x).1).
  destruct (decide (a ∈ cget present w)) as [Hin|Hin]; [apply set_inner_dom|].
  unfold shared_constructor, MapGetAdd. cbn. unfold MapMap_Get, MapMap_Put. cbn.
  destruct (cget records w !! a) as [r|]; rw set_inner_dom !Hpr //. rw cget_cset dom_insert_L. set_solver.
Qed.

Lemma shared_delete_dom x w :
  dom (cget records w) ⊆ dom (cget records (mr_Delete fm x w)) ∧
  dom (cget records (mr_Delete fm x w)) ⊆ {[(rotFirst kd x).1]} ∪ dom (cget records w).
Proof.
  cbn. unfold genericFactoredMap_Delete. cbn. set (a := (rotFirst kd x).1).
  destruct (decide (a ∈ cget present w)); [|set_solver].
  destruct (map_Get inner (rotFirst kd x).2 _); [|set_solver].
  destruct (map_IsEmpty inner _); rw ?Hpr set_inner_dom; set_solver.
Qed.

Lemma shared_put_frame x v w : only_field w (mr_Put fm x v w).
Proof. by destruct (shared_put_spec x v w). Qed.

Lemma shared_delete_frame m x w : shared_holds m w → only_field w (mr_Delete fm x w).
Proof. intros [Hwf _]. destruct (shared_delete_spec x w); [apply Hwf|done]. Qed.
End shared_facts.

(** * The tables are in step *)

(** The fields of the records are different variables. *)
#[export] Hint Extern 1 (CellOk _) => (split; [intros ? []; reflexivity|intros ? ? []; reflexivity])
  : typeclass_instances.
#[export] Hint Extern 2 (Indep _ _) => (intros ? []; reflexivity) : typeclass_instances.

Abbreviation sync2_wf := (factored_wf (λ _, True) id (λ _, True) id).
Abbreviation sync2_abs := (factored_abs PairFactorer id id).
Abbreviation proj3_wf := (factored_wf (factored_wf (λ _, True) id (λ _, True) id)
  (factored_abs PairFactorer id id) (λ _, True) id).
Abbreviation proj3_abs := (factored_abs TripleFactorerTo1and23 (factored_abs PairFactorer id id) id).

Definition nsdSync_holds : gmap NamespacedDistributionTuple DistributionBits → workloadProjector → Prop :=
  shared_holds nsdForSync_cell perDestination_cell wpd_nsd_cell newPerDestinationLocked
    factorNamespacedDistributionTupleForSync1 sync2_wf sync2_abs.
Definition nnsSync_holds : gmap NonNamespacedDistributionTuple DistributionBits → workloadProjector → Prop :=
  shared_holds nnsForSync_cell perDestination_cell wpd_nns_cell newPerDestinationLocked
    factorNonNamespacedDistributionTupleForSync1 sync2_wf sync2_abs.
Definition nsdProj_holds : gmap NamespacedDistributionTuple DistributionBits → workloadProjector → Prop :=
  shared_holds nsdForProj_cell perSource_cell wps_nsd_cell freshPerSource
    factorNamespacedDistributionTupleForProj1and234 proj3_wf proj3_abs.
Definition nnsProj_holds : gmap NonNamespacedDistributionTuple DistributionBits → workloadProjector → Prop :=
  shared_holds nnsForProj_cell perSource_cell wps_nns_cell freshPerSource
    factorNonNamespacedDistributionTupleForProj1and234 proj3_wf proj3_abs.

Definition modes_hold {A B} `{Countable A, Countable B} (kd : Factorer ProjectionModeKey A B)
  (modes : gmap A (gmap B ProjectionModeVal)) (m : gmap ProjectionModeKey ProjectionModeVal) : Prop :=
  (∀ a i, modes !! a = Some i → i ≠ ∅) ∧ flatten kd id modes = m.

Definition all_modes_hold (nm cm : gmap ProjectionModeKey ProjectionModeVal) (w : workloadProjector) : Prop :=
  modes_hold factorProjectionModeKeyForSyncer (wp_nsModesForSync w) nm ∧
  modes_hold factorProjectionModeKeyForProj (wp_nsModesForProj w) nm ∧
  modes_hold factorProjectionModeKeyForSyncer (wp_nnsModesForSync w) cm ∧
  modes_hold factorProjectionModeKeyForProj (wp_nnsModesForProj w) cm.

Definition upsyncs_hold (us : gset (SinglePlacement * UpsyncSet)) (w : workloadProjector) : Prop :=
  indexed_wf (hashMap_wf HashUpsyncSet) (λ hm, dom (hashMap_abs hm)) (hashMap_wf HashSinglePlacement)
    hashMap_abs (wp_upsyncs w) ∧
  indexed_abs PairFactorer (λ hm, dom (hashMap_abs hm)) hashMap_abs (wp_upsyncs w) = us.

(** The projector knows the distributions, modes and upsyncs, in all its indices. *)
Definition wp_in_step nd nm cd cm us (w : workloadProjector) : Prop :=
  nsdSync_holds nd w ∧ nsdProj_holds nd w ∧ nnsSync_holds cd w ∧ nnsProj_holds cd w ∧
  all_modes_hold nm cm w ∧ upsyncs_hold us w.

(** ** What an operation leaves alone *)

(** [w'] has the same contents as [w] in each of the tables. *)
Definition same_nsdSync (w w' : workloadProjector) : Prop :=
  wp_nsdForSync w' = wp_nsdForSync w ∧
  ∀ k, inner_at perDestination_cell wpd_nsd_cell newPerDestinationLocked k w'
     = inner_at perDestination_cell wpd_nsd_cell newPerDestinationLocked k w.
Definition same_nnsSync (w w' : workloadProjector) : Prop :=
  wp_nnsForSync w' = wp_nnsForSync w ∧
  ∀ k, inner_at perDestination_cell wpd_nns_cell newPerDestinationLocked k w'
     = inner_at perDestination_cell wpd_nns_cell newPerDestinationLocked k w.
Definition same_nsdProj (w w' : workloadProjector) : Prop :=
  wp_nsdForProj w' = wp_nsdForProj w ∧
  ∀ k, inner_at perSource_cell wps_nsd_cell freshPerSource k w'
     = inner_at perSource_cell wps_nsd_cell freshPerSource k w.
Definition same_nnsProj (w w' : workloadProjector) : Prop :=
  wp_nnsForProj w' = wp_nnsForProj w ∧
  ∀ k, inner_at perSource_cell wps_nns_cell freshPerSource k w'
     = inner_at perSource_cell wps_nns_cell freshPerSource k w.
Definition same_modes (w w' : workloadProjector) : Prop :=
  wp_nsModesForSync w' = wp_nsModesForSync w ∧ wp_nsModesForProj w' = wp_nsModesForProj w ∧
  wp_nnsModesForSync w' = wp_nnsModesForSync w ∧ wp_nnsModesForProj w' = wp_nnsModesForProj w.
Definition same_upsyncs (w w' : workloadProjector) : Prop := wp_upsyncs w' = wp_upsyncs w.

Lemma nsdSync_ext nd w w' : same_nsdSync w w' → nsdSync_holds nd w → nsdSync_holds nd w'.
Proof. intros []. by apply shared_holds_ext. Qed.
Lemma nnsSync_ext cd w w' : same_nnsSync w w' → nnsSync_holds cd w → nnsSync_holds cd w'.
Proof. intros []. by apply shared_holds_ext. Qed.
Lemma nsdProj_ext nd w w' : same_nsdProj w w' → nsdProj_holds nd w → nsdProj_holds nd w'.
Proof. intros []. by apply shared_holds_ext. Qed.
Lemma nnsProj_ext cd w w' : same_nnsProj w w' → nnsProj_holds cd w → nnsProj_holds cd w'.
Proof. intros []. by apply shared_holds_ext. Qed.
Lemma modes_ext nm cm w w' : same_modes w w' → all_modes_hold nm cm w → all_modes_hold nm cm w'.
Proof. unfold all_modes_hold. by intros (-> & -> & -> & ->). Qed.
Lemma upsyncs_ext us w w' : same_upsyncs w w' → upsyncs_hold us w → upsyncs_hold us w'.
Proof. unfold upsyncs_hold. by intros ->. Qed.

#[export] Hint Resolve nsdSync_ext nnsSync_ext nsdProj_ext nnsProj_ext modes_ext upsyncs_ext : placement.

(** Solves the parts of a frame: fields that the operation does not refer to. *)
Ltac other_fields Hf :=
  repeat split; intros; unfold inner_at, shared_record, same_modes, same_upsyncs; cbn;
  repeat first [rw (Hf _ wp_nsdForSync)|rw (Hf _ wp_nnsForSync)|rw (Hf _ wp_nsdForProj)
    |rw (Hf _ wp_nnsForProj)|rw (Hf _ wp_perSource)|rw (Hf _ wp_perDestination)
    |rw (Hf _ wp_nsModesForSync)|rw (Hf _ wp_nsModesForProj)|rw (Hf _ wp_nnsModesForSync)
    |rw (Hf _ wp_nnsModesForProj)|rw (Hf _ wp_upsyncs)]; try done.

Lemma nsdSync_only w w' :
  only_field nsdForSync_cell perDestination_cell wpd_nsd_cell newPerDestinationLocked w w' →
  same_nsdProj w w' ∧ same_nnsSync w w' ∧ same_nnsProj w w' ∧ same_modes w w' ∧ same_upsyncs w w'.
Proof.
  intros Hof. pose proof (proj2 Hof) as Hf. other_fields Hf.
  exact (only_field_other _ _ _ _ _ _ wpd_nnsDistributions Hof ltac:(by intros ? []) k).
Qed.

Lemma nnsSync_only w w' :
  only_field nnsForSync_cell perDestination_cell wpd_nns_cell newPerDestinationLocked w w' →
  same_nsdProj w w' ∧ same_nsdSync w w' ∧ same_nnsProj w w' ∧ same_modes w w' ∧ same_upsyncs w w'.
Proof.
  intros Hof. pose proof (proj2 Hof) as Hf. other_fields Hf.
  exact (only_field_other _ _ _ _ _ _ wpd_nsdDistributions Hof ltac:(by intros ? []) k).
Qed.

Lemma nsdProj_only w w' :
  only_field nsdForProj_cell perSource_cell wps_nsd_cell freshPerSource w w' →
  same_nsdSync w w' ∧ same_nnsSync w w' ∧ same_nnsProj w w' ∧ same_modes w w' ∧ same_upsyncs w w'.
Proof.
  intros Hof. pose proof (proj2 Hof) as Hf. other_fields Hf.
  exact (only_field_other _ _ _ _ _ _ wps_nnsDistributions Hof ltac:(by intros ? []) k).
Qed.

Lemma nnsProj_only w w' :
  only_field nnsForProj_cell perSource_cell wps_nns_cell freshPerSource w w' →
  same_nsdSync w w' ∧ same_nnsSync w w' ∧ same_nsdProj w w' ∧ same_modes w w' ∧ same_upsyncs w w'.
Proof.
  intros Hof. pose proof (proj2 Hof) as Hf. other_fields Hf.
  exact (only_field_other _ _ _ _ _ _ wps_nsdDistributions Hof ltac:(by intros ? []) k).
Qed.

Definition same_tables (w w' : workloadProjector) : Prop :=
  same_nsdSync w w' ∧ same_nsdProj w w' ∧ same_nnsSync w w' ∧ same_nnsProj w w' ∧ same_modes w w' ∧
  same_upsyncs w w'.

Lemma wp_in_step_ext nd nm cd cm us w w' :
  same_tables w w' → wp_in_step nd nm cd cm us w → wp_in_step nd nm cd cm us w'.
Proof. intros (? & ? & ? & ? & ? & ?) (? & ? & ? & ? & ? & ?). split_and!; eauto with placement. Qed.

(** An update of variables that are not part of the tables. *)
Lemma same_tables_intro w w' :
  (∀ (X : Type) (f : workloadProjector → X), Indep mbwsNameToSP_cell f → Indep changedDestinations_cell f →
     Indep changedSources_cell f → Indep queue_cell f → f w' = f w) → same_tables w w'.
Proof. intros Hf. other_fields Hf. Qed.

Section sims.
Context `{MapRange}.

(** Removing from the wrapped set adds to it, too. *)
Lemma changedDestinations_writes e w :
  (sw_Add changedDestinations e w).2 = cset changedDestinations_cell ({[e]} ∪ wp_changedDestinations w) w ∧
  (sw_Remove changedDestinations e w).2 = cset changedDestinations_cell ({[e]} ∪ wp_changedDestinations w) w.
Proof. cbn. unfold setMutex_Add, setMutex_Remove. cbn. by rw MapSet_Add_spec. Qed.

Lemma changedSources_writes e w :
  (sw_Add changedSources e w).2 = cset changedSources_cell ({[e]} ∪ wp_changedSources w) w.
Proof. cbn. unfold setMutex_Add. cbn. by rw MapSet_Add_spec. Qed.

(** The first receiver of a fork of distributions. *)
Definition recorder {Whole RestD RestS} (fd : Factorer Whole SinglePlacement RestD)
  (fs : Factorer Whole string RestS) : MappingReceiver workloadProjector Whole DistributionBits :=
  MapKeySetReceiverLossy (SetWriterFork false [recordPart changedDestinations fd; recordPart changedSources fs]).

Lemma recorder_writes {Whole RestD RestS} (fd : Factorer Whole SinglePlacement RestD)
  (fs : Factorer Whole string RestS) x v w :
  let w' := cset changedSources_cell ({[(rotFirst fs x).1]} ∪ wp_changedSources w)
              (cset changedDestinations_cell ({[(rotFirst fd x).1]} ∪ wp_changedDestinations w) w) in
  mr_Put (recorder fd fs) x v w = w' ∧ mr_Delete (recorder fd fs) x w = w'.
Proof.
  cbv zeta. unfold recorder. cbn [mr_Put mr_Delete MapKeySetReceiverLossy MappingReceiverFuncs].
  cbn [sw_Add sw_Remove SetWriterFork]. unfold setChangeReceiverFork_Add, setChangeReceiverFork_Remove.
  rw !for_each_cons. unfold recordPart. cbn [sw_Add sw_Remove SetWriterFuncs].
  rw !(proj1 (changedDestinations_writes _ _)) !changedSources_writes. cbn [for_each foldl snd].
  by destruct w.
Qed.

Lemma recorder_same_tables {Whole RestD RestS} (fd : Factorer Whole SinglePlacement RestD)
  (fs : Factorer Whole string RestS) x v w :
  same_tables w (mr_Put (recorder fd fs) x v w) ∧ same_tables w (mr_Delete (recorder fd fs) x w).
Proof.
  destruct (recorder_writes fd fs x v w) as [-> ->].
  split; apply same_tables_intro; intros X f _ Hd Hs _; by rw Hs Hd.
Qed.

(** One table changes and the others stay. *)
Ltac put_step only :=
  intros Hh; split; [eapply shared_put_holds; [apply _..|exact Hh]|apply only; eapply shared_put_frame; apply _].
Ltac delete_step only :=
  intros Hh; split; [eapply shared_delete_holds; [apply _..|exact Hh]
    |apply only; eapply shared_delete_frame; [apply _..|exact Hh]].

Lemma nsdSync_put x v nd w (w' := mr_Put nsdDistributionsForSync x v w) :
  nsdSync_holds nd w → nsdSync_holds (<[x:=v]> nd) w' ∧
  same_nsdProj w w' ∧ same_nnsSync w w' ∧ same_nnsProj w w' ∧ same_modes w w' ∧ same_upsyncs w w'.
Proof. put_step nsdSync_only. Qed.
Lemma nsdSync_delete x nd w (w' := mr_Delete nsdDistributionsForSync x w) :
  nsdSync_holds nd w → nsdSync_holds (delete x nd) w' ∧
  same_nsdProj w w' ∧ same_nnsSync w w' ∧ same_nnsProj w w' ∧ same_modes w w' ∧ same_upsyncs w w'.
Proof. delete_step nsdSync_only. Qed.

Lemma nsdProj_put x v nd w (w' := mr_Put nsdDistributionsForProj x v w) :
  nsdProj_holds nd w → nsdProj_holds (<[x:=v]> nd) w' ∧
  same_nsdSync w w' ∧ same_nnsSync w w' ∧ same_nnsProj w w' ∧ same_modes w w' ∧ same_upsyncs w w'.
Proof. put_step nsdProj_only. Qed.
Lemma nsdProj_delete x nd w (w' := mr_Delete nsdDistributionsForProj x w) :
  nsdProj_holds nd w → nsdProj_holds (delete x nd) w' ∧
  same_nsdSync w w' ∧ same_nnsSync w w' ∧ same_nnsProj w w' ∧ same_modes w w' ∧ same_upsyncs w w'.
Proof. delete_step nsdProj_only. Qed.

Lemma nnsSync_put x v cd w (w' := mr_Put nnsDistributionsForSync x v w) :
  nnsSync_holds cd w → nnsSync_holds (<[x:=v]> cd) w' ∧
  same_nsdProj w w' ∧ same_nsdSync w w' ∧ same_nnsProj w w' ∧ same_modes w w' ∧ same_upsyncs w w'.
Proof. put_step nnsSync_only. Qed.
Lemma nnsSync_delete x cd w (w' := mr_Delete nnsDistributionsForSync x w) :
  nnsSync_holds cd w → nnsSync_holds (delete x cd) w' ∧
  same_nsdProj w w' ∧ same_nsdSync w w' ∧ same_nnsProj w w' ∧ same_modes w w' ∧ same_upsyncs w w'.
Proof. delete_step nnsSync_only. Qed.

Lemma nnsProj_put x v cd w (w' := mr_Put nnsDistributionsForProj x v w) :
  nnsProj_holds cd w → nnsProj_holds (<[x:=v]> cd) w' ∧
  same_nsdSync w w' ∧ same_nnsSync w w' ∧ same_nsdProj w w' ∧ same_modes w w' ∧ same_upsyncs w w'.
Proof. put_step nnsProj_only. Qed.
Lemma nnsProj_delete x cd w (w' := mr_Delete nnsDistributionsForProj x w) :
  nnsProj_holds cd w → nnsProj_holds (delete x cd) w' ∧
  same_nsdSync w w' ∧ same_nnsSync w w' ∧ same_nsdProj w w' ∧ same_modes w w' ∧ same_upsyncs w w'.
Proof. delete_step nnsProj_only. Qed.

Lemma nsod_sim nm cd cm us : MappingReceiverSim nsod (λ nd, wp_in_step nd nm cd cm us).
Proof.
  split; [intros x v nd w Hw|intros x nd w Hw].
  - change (mr_Put nsod x v w) with
      (mr_Put nsdDistributionsForProj x v (mr_Put nsdDistributionsForSync x v
        (mr_Put (recorder factorNamespacedDistributionTupleForSync1 factorNamespacedDistributionTupleForProj1) x v w))).
    destruct (wp_in_step_ext _ _ _ _ _ _ _ (proj1 (recorder_same_tables factorNamespacedDistributionTupleForSync1
      factorNamespacedDistributionTupleForProj1 x v w)) Hw) as (? & ? & ? & ? & ? & ?).
    edestruct nsdSync_put as (? & ? & ? & ? & ? & ?); [eassumption|].
    edestruct nsdProj_put as (? & ? & ? & ? & ? & ?); [|split_and!; eauto 6 with placement].
    eauto with placement.
  - change (mr_Delete nsod x w) with
      (mr_Delete nsdDistributionsForProj x (mr_Delete nsdDistributionsForSync x
        (mr_Delete (recorder factorNamespacedDistributionTupleForSync1 factorNamespacedDistributionTupleForProj1) x w))).
    destruct (wp_in_step_ext _ _ _ _ _ _ _ (proj2 (recorder_same_tables factorNamespacedDistributionTupleForSync1
      factorNamespacedDistributionTupleForProj1 x (MkDistributionBits false false) w)) Hw) as (? & ? & ? & ? & ? & ?).
    edestruct nsdSync_delete as (? & ? & ? & ? & ? & ?); [eassumption|].
    edestruct nsdProj_delete as (? & ? & ? & ? & ? & ?); [|split_and!; eauto 6 with placement].
    eauto with placement.
Qed.

Lemma nnsod_sim nd nm cm us : MappingReceiverSim nnsod (λ cd, wp_in_step nd nm cd cm us).
Proof.
  split; [intros x v cd w Hw|intros x cd w Hw].
  - change (mr_Put nnsod x v w) with
      (mr_Put nnsDistributionsForProj x v (mr_Put nnsDistributionsForSync x v
        (mr_Put (recorder factorNonNamespacedDistributionTupleForSync1 factorNonNamespacedDistributionTupleForProj1) x v w))).
    destruct (wp_in_step_ext _ _ _ _ _ _ _ (proj1 (recorder_same_tables factorNonNamespacedDistributionTupleForSync1
      factorNonNamespacedDistributionTupleForProj1 x v w)) Hw) as (? & ? & ? & ? & ? & ?).
    edestruct nnsSync_put as (? & ? & ? & ? & ? & ?); [eassumption|].
    edestruct nnsProj_put as (? & ? & ? & ? & ? & ?); [|split_and!; eauto 6 with placement].
    eauto with placement.
  - change (mr_Delete nnsod x w) with
      (mr_Delete nnsDistributionsForProj x (mr_Delete nnsDistributionsForSync x
        (mr_Delete (recorder factorNonNamespacedDistributionTupleForSync1 factorNonNamespacedDistributionTupleForProj1) x w))).
    destruct (wp_in_step_ext _ _ _ _ _ _ _ (proj2 (recorder_same_tables factorNonNamespacedDistributionTupleForSync1
      factorNonNamespacedDistributionTupleForProj1 x (MkDistributionBits false false) w)) Hw) as (? & ? & ? & ? & ? & ?).
    edestruct nnsSync_delete as (? & ? & ? & ? & ? & ?); [eassumption|].
    edestruct nnsProj_delete as (? & ? & ? & ? & ? & ?); [|split_and!; eauto 6 with placement].
    eauto with placement.
Qed.

Lemma noteModeWrite_adds add destination w :
  noteModeWrite add destination w
  = cset changedDestinations_cell ({[destination]} ∪ wp_changedDestinations w) w.
Proof. unfold noteModeWrite. destruct (changedDestinations_writes destination w). by destruct add. Qed.

(** A table of modes, with what else holds of the projector. *)
Lemma modes_table_sim {A B} `{Countable A, Countable B} (kd : Factorer ProjectionModeKey A B) `{!RotatorOk kd}
  (c : Cell workloadProjector (gmap A (gmap B ProjectionModeVal))) `{!CellOk c}
  (ko : option (SetChangeReceiver workloadProjector A)) (rest : workloadProjector → Prop) :
  (∀ s w, rest w → rest (cset c s w)) →
  (∀ f, ko = Some f → ∀ add a w, cget c (f add a w) = cget c w ∧ (rest w → rest (f add a w))) →
  MappingReceiverSim (NewFactoredMapMap kd None ko None c) (λ m w, modes_hold kd (cget c w) m ∧ rest w).
Proof.
  intros Hc Hko.
  assert (MappingReceiverSim (NewFactoredMapMap kd None ko None c)
    (factored_in_step kd c (λ _ _ _, rest))) as Hsim.
  { apply factored_map_sim; [apply _..|by intros u o k s w; apply Hc|by intros u u' o k w| |by intros u o o' k w].
    destruct ko as [f|]; [|by intros u o k k' w]. specialize (Hko f eq_refl).
    split_and!; [apply Hko|intros a u o k w _; apply Hko..]. }
  split.
  - intros k v m w [[? ?] ?]. destruct (sim_put (MappingReceiverSim:=Hsim) k v m w) as (? & ? & ?);
      [by split_and!|by split_and!].
  - intros k m w [[? ?] ?]. destruct (sim_delete (MappingReceiverSim:=Hsim) k m w) as (? & ? & ?);
      [by split_and!|by split_and!].
Qed.

(** Both tables of a kind of modes. *)
Lemma modes_fork_sim (cs : Cell workloadProjector (gmap SinglePlacement (gmap GroupResource ProjectionModeVal)))
  (cp : Cell workloadProjector (gmap GroupResource (gmap SinglePlacement ProjectionModeVal)))
  (rest : workloadProjector → Prop) `{!CellOk cs, !CellOk cp} :
  (∀ s w, cget cp (cset cs s w) = cget cp w) → (∀ s w, cget cs (cset cp s w) = cget cs w) →
  (∀ s w, cget cs (cset changedDestinations_cell s w) = cget cs w) →
  (∀ s w, cget cp (cset changedDestinations_cell s w) = cget cp w) →
  (∀ s w, rest w → rest (cset cs s w)) → (∀ s w, rest w → rest (cset cp s w)) →
  (∀ d w, rest w → rest (cset changedDestinations_cell ({[d]} ∪ wp_changedDestinations w) w)) →
  MappingReceiverSim
    (MappingReceiverFork [
       NewFactoredMapMap factorProjectionModeKeyForSyncer None (Some noteModeWrite) None cs : MappingReceiver _ _ _;
       NewFactoredMapMap factorProjectionModeKeyForProj None None None cp : MappingReceiver _ _ _;
       NewLoggingMappingReceiver])
    (λ m w, (modes_hold factorProjectionModeKeyForSyncer (cget cs w) m ∧
             modes_hold factorProjectionModeKeyForProj (cget cp w) m) ∧ rest w).
Proof.
  intros Hsp Hps Hsd Hpd Hrs Hrp Hrd.
  assert (∀ m, MappingReceiverSim (NewFactoredMapMap factorProjectionModeKeyForSyncer None (Some noteModeWrite) None cs)
    (λ m' w, modes_hold factorProjectionModeKeyForSyncer (cget cs w) m' ∧
       modes_hold factorProjectionModeKeyForProj (cget cp w) m ∧ rest w)) as H1.
  { intros m. apply modes_table_sim; [apply _..| |].
    - intros s w [? ?]. rw Hsp. by split; [|apply Hrs].
    - intros f [= <-] add a w. rw noteModeWrite_adds. split; [apply Hsd|]. intros [? ?]. rw Hpd. by split; [|apply Hrd]. }
  assert (∀ m, MappingReceiverSim (NewFactoredMapMap factorProjectionModeKeyForProj None None None cp)
    (λ m' w, modes_hold factorProjectionModeKeyForProj (cget cp w) m' ∧
       modes_hold factorProjectionModeKeyForSyncer (cget cs w) m ∧ rest w)) as H2.
  { intros m. apply modes_table_sim; [apply _..| |done].
    intros s w [? ?]. rw Hps. by split; [|apply Hrp]. }
  split.
  - intros k v m w [[Hs Hp] Hr]. cbn [mr_Put MappingReceiverFork]. rw !for_each_cons.
    destruct (sim_put (MappingReceiverSim:=H1 m) k v m w) as (Hs1 & Hp1 & Hr1); [by split_and!|].
    edestruct (sim_put (MappingReceiverSim:=H2 (<[k:=v]> m)) k v m) as (Hp2 & Hs2 & Hr2); [by split_and!|].
    by split_and!.
  - intros k m w [[Hs Hp] Hr]. cbn [mr_Delete MappingReceiverFork]. rw !for_each_cons.
    destruct (sim_delete (MappingReceiverSim:=H1 m) k m w) as (Hs1 & Hp1 & Hr1); [by split_and!|].
    edestruct (sim_delete (MappingReceiverSim:=H2 (delete k m)) k m) as (Hp2 & Hs2 & Hr2); [by split_and!|].
    by split_and!.
Qed.

Lemma nsModes_sim nd cd cm us : MappingReceiverSim nsModes (λ nm, wp_in_step nd nm cd cm us).
Proof.
  pose proof (modes_fork_sim nsModesForSync_cell nsModesForProj_cell (λ w,
    nsdSync_holds nd w ∧ nsdProj_holds nd w ∧ nnsSync_holds cd w ∧ nnsProj_holds cd w ∧ upsyncs_hold us w ∧
    modes_hold factorProjectionModeKeyForSyncer (wp_nnsModesForSync w) cm ∧
    modes_hold factorProjectionModeKeyForProj (wp_nnsModesForProj w) cm)) as Hsim.
  destruct Hsim as [Hput Hdel]; [by intros ? []..|].
  split.
  - intros k v m w (? & ? & ? & ? & (? & ? & ? & ?) & ?).
    destruct (Hput k v m w) as ((? & ?) & ? & ? & ? & ? & ? & ? & ?); [by split_and!|by split_and!].
  - intros k m w (? & ? & ? & ? & (? & ? & ? & ?) & ?).
    destruct (Hdel k m w) as ((? & ?) & ? & ? & ? & ? & ? & ? & ?); [by split_and!|by split_and!].
Qed.

Lemma nnsModes_sim nd nm cd us : MappingReceiverSim nnsModes (λ cm, wp_in_step nd nm cd cm us).
Proof.
  pose proof (modes_fork_sim nnsModesForSync_cell nnsModesForProj_cell (λ w,
    nsdSync_holds nd w ∧ nsdProj_holds nd w ∧ nnsSync_holds cd w ∧ nnsProj_holds cd w ∧ upsyncs_hold us w ∧
    modes_hold factorProjectionModeKeyForSyncer (wp_nsModesForSync w) nm ∧
    modes_hold factorProjectionModeKeyForProj (wp_nsModesForProj w) nm)) as Hsim.
  destruct Hsim as [Hput Hdel]; [by intros ? []..|].
  split.
  - intros k v m w (? & ? & ? & ? & (? & ? & ? & ?) & ?).
    destruct (Hput k v m w) as ((? & ?) & ? & ? & ? & ? & ? & ? & ?); [by split_and!|by split_and!].
  - intros k m w (? & ? & ? & ? & (? & ? & ? & ?) & ?).
    destruct (Hdel k m w) as ((? & ?) & ? & ? & ? & ? & ? & ? & ?); [by split_and!|by split_and!].
Qed.

Lemma wp_upsyncs_sim nd nm cd cm : SetWriterSim upsyncs (λ us, wp_in_step nd nm cd cm us).
Proof.
  assert (∀ us us' r w w', Updated upsyncs_cell r w w' →
    indexed_wf (hashMap_wf HashUpsyncSet) (λ hm, dom (hashMap_abs hm)) (hashMap_wf HashSinglePlacement) hashMap_abs r →
    indexed_abs PairFactorer (λ hm, dom (hashMap_abs hm)) hashMap_abs r = us' →
    wp_in_step nd nm cd cm us w → wp_in_step nd nm cd cm us' w') as Hupd.
  { intros us us' r w w' [<- Hf] Hwf Habs (? & ? & ? & ? & ? & _).
    assert (same_nsdSync w w' ∧ same_nsdProj w w' ∧ same_nnsSync w w' ∧ same_nnsProj w w' ∧ same_modes w w')
      as (? & ? & ? & ? & ?) by other_fields Hf.
    split_and!; eauto with placement; done. }
  pose proof (NewHashRelation2_ok HashSinglePlacement HashUpsyncSet upsyncs_cell) as Hok.
  split; intros e us w Hw; pose proof (proj2 (proj2 (proj2 (proj2 (proj2 Hw))))) as [Hwf <-].
  - destruct (ms_add_ok (MutableSetOk:=rel_set_ok (MutableRelation2Ok:=Hok)) e w Hwf) as (r & w' & Heq & Hu & Hwf' & Habs).
    unfold upsyncs. rw Heq. by eapply Hupd.
  - destruct (ms_remove_ok (MutableSetOk:=rel_set_ok (MutableRelation2Ok:=Hok)) e w Hwf) as (r & w' & Heq & Hu & Hwf' & Habs).
    unfold upsyncs. rw Heq. by eapply Hupd.
Qed.

#[export] Instance sections_sim : SectionsSim wp_in_step sections.
Proof.
  split; intros; [apply nsod_sim|apply nsModes_sim|apply nnsod_sim|apply nnsModes_sim|apply wp_upsyncs_sim].
Qed.
End sims.

(** * The end of a transaction *)

(** [w'] differs from [w] in informers, the queue and the names of mailboxes; the queue
    and the set of records of destinations have not lost anything. *)
Definition finishing (w w' : workloadProjector) : Prop :=
  same_tables w w' ∧ (∀ ref, ref ∈ wp_queue w → ref ∈ wp_queue w') ∧
  dom (wp_perDestination w') = dom (wp_perDestination w) ∧
  dom (wp_mbwsNameToSP w) ⊆ dom (wp_mbwsNameToSP w') ∧
  wp_changedDestinations w' = wp_changedDestinations w.

Lemma same_tables_refl w : same_tables w w.
Proof. by repeat split. Qed.

Lemma same_tables_trans w1 w2 w3 : same_tables w1 w2 → same_tables w2 w3 → same_tables w1 w3.
Proof.
  unfold same_tables, same_nsdSync, same_nsdProj, same_nnsSync, same_nnsProj, same_modes, same_upsyncs.
  intros ([? HA] & [? HB] & [? HC] & [? HD] & (? & ? & ? & ?) & ?)
    ([? HA'] & [? HB'] & [? HC'] & [? HD'] & (? & ? & ? & ?) & ?).
  split_and!; try congruence; intros k; by rw ?HA' ?HB' ?HC' ?HD' ?HA ?HB ?HC ?HD.
Qed.

#[export] Instance finishing_preorder : PreOrder finishing.
Proof.
  split.
  - intros w. split; [apply same_tables_refl|done].
  - intros w1 w2 w3 (Ht1 & Hq1 & Hd1 & Hm1 & Hc1) (Ht2 & Hq2 & Hd2 & Hm2 & Hc2).
    split_and!; [by eapply same_tables_trans|eauto|congruence|set_solver|congruence].
Qed.

Section finish_facts.
Context `{MapRange}.
Context (sourceStore : string → GroupResource → list ObjectMeta).
Context (destinationStore : SinglePlacement → GroupResource → list ObjectMeta).
Context (clientFailure : SinglePlacement → option bool).

Lemma queue_Add_finishing ref w : finishing w (queue_Add ref w) ∧ ref ∈ wp_queue (queue_Add ref w).
Proof.
  split; [|destruct w; cbn; set_solver]. split_and!.
  - apply same_tables_intro. intros X f _ _ _ Hf. apply Hf.
  - destruct w. cbn. set_solver.
  - by destruct w.
  - by destruct w.
  - by destruct w.
Qed.

Lemma for_each_finishing {E} (l : list E) f w : (∀ e w, finishing w (f e w)) → finishing w (for_each l f w).
Proof.
  intros Hf. revert w. induction l as [|e l IH]; intros w; [reflexivity|]. rw for_each_cons.
  etrans; [apply Hf|apply IH].
Qed.

(** Informers are added to a record and nothing else. *)
Lemma set_perSource_finishing source wps wps' w :
  wp_perSource w !! source = Some wps → wps_nsdDistributions wps' = wps_nsdDistributions wps →
  wps_nnsDistributions wps' = wps_nnsDistributions wps →
  finishing w (cset perSource_cell (<[source:=wps']> (wp_perSource w)) w).
Proof.
  intros Hs Hn Hc. destruct w. cbn in Hs. split; [|by split_and!]. repeat split; intros k;
    unfold inner_at, shared_record; cbn; destruct (decide (source = k)) as [<-|];
    rw ?lookup_insert_eq ?lookup_insert_ne // Hs /=; congruence.
Qed.

Lemma set_perDestination_finishing destination wpd wpd' w :
  wp_perDestination w !! destination = Some wpd → wpd_nsdDistributions wpd' = wpd_nsdDistributions wpd →
  wpd_nnsDistributions wpd' = wpd_nnsDistributions wpd →
  finishing w (cset perDestination_cell (<[destination:=wpd']> (wp_perDestination w)) w).
Proof.
  intros Hs Hn Hc. destruct w. cbn in Hs. split_and!; try done; [|cbn; rw dom_insert_lookup_L //; by eexists].
  repeat split; intros k; unfold inner_at, shared_record; cbn; destruct (decide (destination = k)) as [<-|];
    rw ?lookup_insert_eq ?lookup_insert_ne // Hs /=; congruence.
Qed.

Lemma startSourceInformers_frame {M} modes namespaced (index : gmap GroupResource M) wps :
  wps_nsdDistributions (startSourceInformers modes namespaced index wps) = wps_nsdDistributions wps ∧
  wps_nnsDistributions (startSourceInformers modes namespaced index wps) = wps_nnsDistributions wps.
Proof.
  split; apply for_each_frame; intros [gr m] wps'; destruct (modes !! gr); [|done| |done];
    unfold wps_getDynamicDuoLocked; by destruct (_ !! gr).
Qed.

Lemma finishSource_finishing source w : finishing w (finishSource sourceStore source w).
Proof.
  unfold finishSource. destruct (wp_perSource w !! source) as [wps|] eqn:Hs; [|reflexivity]. cbv zeta.
  set (w1 := for_each (map_range (wps_preInformers wps)) _ w).
  assert (finishing w w1 ∧ wp_perSource w1 = wp_perSource w) as [Hw1 Hsrc].
  { split.
    - apply for_each_finishing. intros [gr duo] w'. apply for_each_finishing. intros objm w''.
      apply queue_Add_finishing.
    - apply for_each_frame. intros [gr duo] w'. apply for_each_frame. intros objm []. done. }
  etrans; [exact Hw1|].
  eapply set_perSource_finishing; [by rw Hsrc|..];
    (etrans; apply startSourceInformers_frame).
Qed.



(** The loops over the distributions of a destination: their effect ... *)
Lemma startInformers_frame {Name} destination modes namespaced
  (index : list (Pair (Pair GroupResource Name) (gmap string DistributionBits))) wpd wpd' :
  startInformers clientFailure destination modes namespaced index wpd = Some wpd' →
  wpd_nsdDistributions wpd' = wpd_nsdDistributions wpd ∧ wpd_nnsDistributions wpd' = wpd_nnsDistributions wpd.
Proof.
  unfold startInformers.
  apply (for_each_ind (λ _ o, ∀ wpd', o = Some wpd' → wpd_nsdDistributions wpd' = wpd_nsdDistributions wpd ∧
    wpd_nnsDistributions wpd' = wpd_nnsDistributions wpd)); [by intros ? [= ->]|].
  intros _ tup _ [wpd1|] _ IH wpd2; [|done]. cbn [mbind option_bind]. destruct (IH wpd1 eq_refl) as [<- <-].
  destruct (Nat.eqb _ _); [by intros [= ->]|]. destruct modes as [modes|]; [|done]. cbn [mbind option_bind].
  destruct (modes !! tup.1.1) as [pmv|]; [|by intros [= ->]]. intros [= <-].
  unfold wpd_getDynamicDuoLocked. destruct wpd1 as [n c []]; cbn; [by destruct (_ !! _)|].
  destruct (clientFailure destination) as [[]|]; cbn; try done. by destruct (_ !! _).
Qed.




(** What the end of a transaction does for a destination. *)
Definition reconsidered (destination : SinglePlacement) (w : workloadProjector) : Prop :=
  is_Some (wp_mbwsNameToSP w !! SPMailboxWorkspaceName destination) ∧
  (is_Some (wp_perDestination w !! destination) →
   syncerConfigRef (SPMailboxWorkspaceName destination) SyncerConfigName ∈ wp_queue w).

Lemma finishing_reconsidered destination w w' :
  finishing w w' → reconsidered destination w → reconsidered destination w'.
Proof.
  intros (_ & Hq & Hd & Hm & _) [Hn Hr]. split.
  - apply elem_of_dom, Hm, elem_of_dom, Hn.
  - rw -elem_of_dom Hd elem_of_dom. eauto.
Qed.

Lemma finishDestination_Some destination w w' :
  finishDestination destinationStore clientFailure destination w = Some w' →
  finishing w w' ∧ reconsidered destination w'.
Proof.
  unfold finishDestination. cbv zeta. set (name := SPMailboxWorkspaceName destination).
  set (w1 := cset mbwsNameToSP_cell _ w).
  assert (finishing w w1 ∧ is_Some (wp_mbwsNameToSP w1 !! name)) as [Hf1 Hname].
  { split; [|destruct w; cbn; by rw lookup_insert_eq].
    split_and!; [apply same_tables_intro; intros X f Hf _ _ _; apply Hf|by destruct w..| |by destruct w].
    destruct w. cbn. set_solver. }
  clearbody w1.
  destruct (wp_perDestination w1 !! destination) as [wpd|] eqn:Hd; last first.
  { intros [= <-]. split; [done|]. split; [done|]. rw Hd. by intros []. }
  set (w2 := for_each (map_range (wpd_preInformers wpd)) _ w1).
  assert (finishing w1 w2 ∧ wp_perDestination w2 = wp_perDestination w1) as [Hf2 Hd2].
  { split.
    - apply for_each_finishing. intros [gr duo] w''. case_bool_decide; [reflexivity|].
      apply for_each_finishing. intros objm w3. apply queue_Add_finishing.
    - apply for_each_frame. intros [gr duo] w''. case_bool_decide; [done|]. apply for_each_frame. by intros objm []. }
  destruct (queue_Add_finishing (syncerConfigRef name SyncerConfigName) w2) as [Hf3 Hq3].
  set (w3 := queue_Add _ w2) in *.
  assert (wp_perDestination w3 = wp_perDestination w1) as Hd3 by (unfold w3; by destruct w2).
  clearbody w2 w3.
  intros (wpd1 & Hs1 & (wpd2 & Hs2 & [= <-])%bind_Some)%bind_Some.
  apply startInformers_frame in Hs1 as [Hn1 Hc1], Hs2 as [Hn2 Hc2].
  assert (finishing w3 (cset perDestination_cell (<[destination:=wpd2]> (wp_perDestination w3)) w3)) as Hf4.
  { apply (set_perDestination_finishing destination wpd); [by rw Hd3|congruence..]. }
  split; [by etrans; [|etrans; [|etrans]]|]. eapply finishing_reconsidered; [exact Hf4|].
  split; [|done]. apply elem_of_dom. destruct Hf2 as (_ & _ & _ & Hm2 & _), Hf3 as (_ & _ & _ & Hm3 & _).
  apply Hm3, Hm2, elem_of_dom, Hname.
Qed.


(** The end of a transaction, if it returns ... *)
Lemma Transact_end_Some w w' :
  Transact_end sourceStore destinationStore clientFailure w = Some w' →
  finishing w w' ∧ ∀ destination, destination ∈ wp_changedDestinations w → reconsidered destination w'.
Proof.
  unfold Transact_end. cbv zeta. set (w1 := for_each (set_range (wp_changedSources w)) _ w).
  assert (finishing w w1) as Hf1 by (apply for_each_finishing; intros; apply finishSource_finishing).
  clearbody w1. pose proof Hf1 as (_ & _ & _ & _ & <-). setoid_rewrite <-elem_of_set_range.
  intros Hend. enough (finishing w1 w' ∧ ∀ d, d ∈ set_range (wp_changedDestinations w1) → reconsidered d w') as [Hf Hr].
  { split; [by etrans|done]. }
  revert w' Hend. apply (for_each_ind (λ done o, ∀ w', o = Some w' → finishing w1 w' ∧
    ∀ d, d ∈ done → reconsidered d w')).
  { intros w' [= <-]. split; [reflexivity|]. intros d Hin. by apply not_elem_of_nil in Hin. }
  intros prev d _ [w2|] _ IH w'; [|done]. cbn [mbind option_bind]. intros [Hf2 Hr2]%finishDestination_Some.
  destruct (IH w2 eq_refl) as [Hf Hr]. split; [by etrans|].
  intros d' [Hin| ->%list_elem_of_singleton]%elem_of_app; [|done]. by eapply finishing_reconsidered, Hr.
Qed.

End finish_facts.

(** * Transactions *)

(** The operations on the sections that a transaction is given. *)
Inductive SectionOp : Type :=
| PutNamespaced (x : NamespacedDistributionTuple) (bits : DistributionBits)
| DeleteNamespaced (x : NamespacedDistributionTuple)
| PutNamespacedMode (pmk : ProjectionModeKey) (pmv : ProjectionModeVal)
| DeleteNamespacedMode (pmk : ProjectionModeKey)
| PutNonNamespaced (x : NonNamespacedDistributionTuple) (bits : DistributionBits)
| DeleteNonNamespaced (x : NonNamespacedDistributionTuple)
| PutNonNamespacedMode (pmk : ProjectionModeKey) (pmv : ProjectionModeVal)
| DeleteNonNamespacedMode (pmk : ProjectionModeKey)
| AddUpsync (x : SinglePlacement * UpsyncSet)
| RemoveUpsync (x : SinglePlacement * UpsyncSet).

Definition run_section_op {P} (wps : WorkloadProjectionSections P) (op : SectionOp) (p : P) : P :=
  match op with
  | PutNamespaced x bits => mr_Put (wps_NamespacedObjectDistributions wps) x bits p
  | DeleteNamespaced x => mr_Delete (wps_NamespacedObjectDistributions wps) x p
  | PutNamespacedMode k v => mr_Put (wps_NamespacedModes wps) k v p
  | DeleteNamespacedMode k => mr_Delete (wps_NamespacedModes wps) k p
  | PutNonNamespaced x bits => mr_Put (wps_NonNamespacedObjectDistributions wps) x bits p
  | DeleteNonNamespaced x => mr_Delete (wps_NonNamespacedObjectDistributions wps) x p
  | PutNonNamespacedMode k v => mr_Put (wps_NonNamespacedModes wps) k v p
  | DeleteNonNamespacedMode k => mr_Delete (wps_NonNamespacedModes wps) k p
  | AddUpsync x => (sw_Add (wps_Upsyncs wps) x p).2
  | RemoveUpsync x => (sw_Remove (wps_Upsyncs wps) x p).2
  end.

(** The five tables, abstractly. *)
Record Tables : Type := MkTables {
  tNamespaced : gmap NamespacedDistributionTuple DistributionBits;
  tNamespacedModes : gmap ProjectionModeKey ProjectionModeVal;
  tNonNamespaced : gmap NonNamespacedDistributionTuple DistributionBits;
  tNonNamespacedModes : gmap ProjectionModeKey ProjectionModeVal;
  tUpsyncs : gset (SinglePlacement * UpsyncSet)
}.

Definition tables_hold (t : Tables) : workloadProjector → Prop :=
  wp_in_step (tNamespaced t) (tNamespacedModes t) (tNonNamespaced t) (tNonNamespacedModes t) (tUpsyncs t).

Definition spec_section_op (op : SectionOp) '(MkTables nd nm cd cm us) : Tables :=
  match op with
  | PutNamespaced x bits => MkTables (<[x:=bits]> nd) nm cd cm us
  | DeleteNamespaced x => MkTables (delete x nd) nm cd cm us
  | PutNamespacedMode k v => MkTables nd (<[k:=v]> nm) cd cm us
  | DeleteNamespacedMode k => MkTables nd (delete k nm) cd cm us
  | PutNonNamespaced x bits => MkTables nd nm (<[x:=bits]> cd) cm us
  | DeleteNonNamespaced x => MkTables nd nm (delete x cd) cm us
  | PutNonNamespacedMode k v => MkTables nd nm cd (<[k:=v]> cm) us
  | DeleteNonNamespacedMode k => MkTables nd nm cd (delete k cm) us
  | AddUpsync x => MkTables nd nm cd cm ({[x]} ∪ us)
  | RemoveUpsync x => MkTables nd nm cd cm (us ∖ {[x]})
  end.

(** The destination of a distribution that the operation changes. *)
Definition op_destination (op : SectionOp) : option SinglePlacement :=
  match op with
  | PutNamespaced x _ | DeleteNamespaced x => Some (pmkDestination x.1)
  | PutNonNamespaced x _ | DeleteNonNamespaced x => Some (pmkDestination x.1)
  | _ => None
  end.

Section transactions.
Context `{MapRange}.

Lemma section_op_ok op t w : tables_hold t w → tables_hold (spec_section_op op t) (run_section_op sections op w).
Proof.
  destruct t as [nd nm cd cm us]. unfold tables_hold.
  destruct op as [x v|x|x v|x|x v|x|x v|x|x|x]; cbn [run_section_op spec_section_op tNamespaced tNamespacedModes
    tNonNamespaced tNonNamespacedModes tUpsyncs]; intros Hw.
  - exact (sim_put (MappingReceiverSim:=nsod_sim nm cd cm us) x v nd w Hw).
  - exact (sim_delete (MappingReceiverSim:=nsod_sim nm cd cm us) x nd w Hw).
  - exact (sim_put (MappingReceiverSim:=nsModes_sim nd cd cm us) x v nm w Hw).
  - exact (sim_delete (MappingReceiverSim:=nsModes_sim nd cd cm us) x nm w Hw).
  - exact (sim_put (MappingReceiverSim:=nnsod_sim nd nm cm us) x v cd w Hw).
  - exact (sim_delete (MappingReceiverSim:=nnsod_sim nd nm cm us) x cd w Hw).
  - exact (sim_put (MappingReceiverSim:=nnsModes_sim nd nm cd us) x v cm w Hw).
  - exact (sim_delete (MappingReceiverSim:=nnsModes_sim nd nm cd us) x cm w Hw).
  - exact (sim_add (SetWriterSim:=wp_upsyncs_sim nd nm cd cm) x us w Hw).
  - exact (sim_remove (SetWriterSim:=wp_upsyncs_sim nd nm cd cm) x us w Hw).
Qed.

(** ** Changed destinations *)

(** Each operation on distributions notes its destination, and none is forgotten. *)
Lemma shared_put_changed {K Rec Inner Whole B V} `{Countable K, Countable Whole, Countable B}
  (present : Cell workloadProjector (gset K)) records (field : Cell Rec Inner) newRec (kd : Factorer Whole K B)
  (inner : MutableMap Inner B V) wfI absI
  `{!CellOk present, !CellOk records, !CellOk field, !Indep present (cget records), !Indep records (cget present),
    !RotatorOk kd, !MutableMapOk inner None id_cell wfI absI, !Indep present wp_changedDestinations,
    !Indep records wp_changedDestinations} x v w :
  wp_changedDestinations (mr_Put (NewSharedFactoredMap present records field newRec kd inner) x v w)
  = wp_changedDestinations w.
Proof. eapply shared_put_frame; apply _. Qed.

Lemma shared_delete_changed {K Rec Inner Whole B V} `{Countable K, Countable Whole, Countable B}
  (present : Cell workloadProjector (gset K)) records (field : Cell Rec Inner) newRec (kd : Factorer Whole K B)
  (inner : MutableMap Inner B V) wfI absI
  `{!CellOk present, !CellOk records, !CellOk field, !Indep present (cget records), !Indep records (cget present),
    !RotatorOk kd, !MutableMapOk inner None id_cell wfI absI, !Indep present wp_changedDestinations,
    !Indep records wp_changedDestinations} m x w :
  shared_holds present records field newRec kd wfI absI m w →
  wp_changedDestinations (mr_Delete (NewSharedFactoredMap present records field newRec kd inner) x w)
  = wp_changedDestinations w.
Proof. intros Hh. eapply shared_delete_frame; [apply _..|exact Hh|apply _|apply _]. Qed.

Lemma nsod_changed x v nd nm cd cm us w :
  wp_in_step nd nm cd cm us w →
  wp_changedDestinations (mr_Put nsod x v w) = {[pmkDestination x.1]} ∪ wp_changedDestinations w ∧
  wp_changedDestinations (mr_Delete nsod x w) = {[pmkDestination x.1]} ∪ wp_changedDestinations w.
Proof.
  intros Hw. set (fd := factorNamespacedDistributionTupleForSync1). set (fs := factorNamespacedDistributionTupleForProj1).
  destruct (recorder_writes fd fs x v w) as [Hrp Hrd]. destruct (recorder_same_tables fd fs x v w) as [Htp Htd]. split.
  - change (mr_Put nsod x v w) with (mr_Put nsdDistributionsForProj x v (mr_Put nsdDistributionsForSync x v
      (mr_Put (recorder fd fs) x v w))).
    etrans; [eapply shared_put_changed; apply _|]. etrans; [eapply shared_put_changed; apply _|].
    rw Hrp. by destruct w.
  - change (mr_Delete nsod x w) with (mr_Delete nsdDistributionsForProj x (mr_Delete nsdDistributionsForSync x
      (mr_Delete (recorder fd fs) x w))).
    destruct (wp_in_step_ext _ _ _ _ _ _ _ Htd Hw) as (Hs & Hp & _).
    destruct (nsdSync_delete x _ _ Hs) as (_ & Hsame & _).
    etrans; [eapply shared_delete_changed; [apply _..|exact (nsdProj_ext _ _ _ Hsame Hp)]|].
    etrans; [eapply shared_delete_changed; [apply _..|exact Hs]|]. rw Hrd. by destruct w.
Qed.

Lemma nnsod_changed x v nd nm cd cm us w :
  wp_in_step nd nm cd cm us w →
  wp_changedDestinations (mr_Put nnsod x v w) = {[pmkDestination x.1]} ∪ wp_changedDestinations w ∧
  wp_changedDestinations (mr_Delete nnsod x w) = {[pmkDestination x.1]} ∪ wp_changedDestinations w.
Proof.
  intros Hw. set (fd := factorNonNamespacedDistributionTupleForSync1).
  set (fs := factorNonNamespacedDistributionTupleForProj1).
  destruct (recorder_writes fd fs x v w) as [Hrp Hrd]. destruct (recorder_same_tables fd fs x v w) as [Htp Htd]. split.
  - change (mr_Put nnsod x v w) with (mr_Put nnsDistributionsForProj x v (mr_Put nnsDistributionsForSync x v
      (mr_Put (recorder fd fs) x v w))).
    etrans; [eapply shared_put_changed; apply _|]. etrans; [eapply shared_put_changed; apply _|].
    rw Hrp. by destruct w.
  - change (mr_Delete nnsod x w) with (mr_Delete nnsDistributionsForProj x (mr_Delete nnsDistributionsForSync x
      (mr_Delete (recorder fd fs) x w))).
    destruct (wp_in_step_ext _ _ _ _ _ _ _ Htd Hw) as (_ & _ & Hs & Hp & _).
    destruct (nnsSync_delete x _ _ Hs) as (_ & _ & _ & Hsame & _).
    etrans; [eapply shared_delete_changed; [apply _..|exact (nnsProj_ext _ _ _ Hsame Hp)]|].
    etrans; [eapply shared_delete_changed; [apply _..|exact Hs]|]. rw Hrd. by destruct w.
Qed.

Lemma modes_changed X :
  MappingReceiverSim nsModes (λ m w, (modes_hold factorProjectionModeKeyForSyncer (wp_nsModesForSync w) m ∧
    modes_hold factorProjectionModeKeyForProj (wp_nsModesForProj w) m) ∧ X ⊆ wp_changedDestinations w) ∧
  MappingReceiverSim nnsModes (λ m w, (modes_hold factorProjectionModeKeyForSyncer (wp_nnsModesForSync w) m ∧
    modes_hold factorProjectionModeKeyForProj (wp_nnsModesForProj w) m) ∧ X ⊆ wp_changedDestinations w).
Proof.
  split; [apply (modes_fork_sim nsModesForSync_cell nsModesForProj_cell (λ w, X ⊆ wp_changedDestinations w))
         |apply (modes_fork_sim nnsModesForSync_cell nnsModesForProj_cell (λ w, X ⊆ wp_changedDestinations w))];
    intros d []; cbn; set_solver.
Qed.

Lemma upsyncs_changed x w :
  wp_changedDestinations (sw_Add upsyncs x w).2 = wp_changedDestinations w ∧
  wp_changedDestinations (sw_Remove upsyncs x w).2 = wp_changedDestinations w.
Proof.
  pose proof (NewHashRelation2_quiet wp_changedDestinations HashSinglePlacement HashUpsyncSet upsyncs_cell _) as Hq.
  split; [apply (quiet_add (QuietSW:=Hq))|apply (quiet_remove (QuietSW:=Hq))].
Qed.

Lemma noted (d : SinglePlacement) (X Y : gset SinglePlacement) :
  Y = {[d]} ∪ X → X ⊆ Y ∧ ∀ d', Some d = Some d' → d' ∈ Y.
Proof. intros ->. split; [set_solver|]. intros d' [= <-]. set_solver. Qed.

Lemma section_op_changed op t w :
  tables_hold t w →
  wp_changedDestinations w ⊆ wp_changedDestinations (run_section_op sections op w) ∧
  ∀ d, op_destination op = Some d → d ∈ wp_changedDestinations (run_section_op sections op w).
Proof.
  destruct t as [nd nm cd cm us]. unfold tables_hold. cbn [tNamespaced tNamespacedModes tNonNamespaced
    tNonNamespacedModes tUpsyncs]. intros Hw. pose proof Hw as (_ & _ & _ & _ & (Hm1 & Hm2 & Hm3 & Hm4) & _).
  destruct (modes_changed (wp_changedDestinations w)) as [Hsm Hsc].
  destruct op as [x v|x|x v|x|x v|x|x v|x|x|x]; cbn [run_section_op op_destination].
  - apply noted. exact (proj1 (nsod_changed x v _ _ _ _ _ w Hw)).
  - apply noted. exact (proj2 (nsod_changed x (MkDistributionBits false false) _ _ _ _ _ w Hw)).
  - split; [|done]. exact (proj2 (sim_put (MappingReceiverSim:=Hsm) x v nm w (conj (conj Hm1 Hm2) (reflexivity _)))).
  - split; [|done]. exact (proj2 (sim_delete (MappingReceiverSim:=Hsm) x nm w (conj (conj Hm1 Hm2) (reflexivity _)))).
  - apply noted. exact (proj1 (nnsod_changed x v _ _ _ _ _ w Hw)).
  - apply noted. exact (proj2 (nnsod_changed x (MkDistributionBits false false) _ _ _ _ _ w Hw)).
  - split; [|done]. exact (proj2 (sim_put (MappingReceiverSim:=Hsc) x v cm w (conj (conj Hm3 Hm4) (reflexivity _)))).
  - split; [|done]. exact (proj2 (sim_delete (MappingReceiverSim:=Hsc) x cm w (conj (conj Hm3 Hm4) (reflexivity _)))).
  - split; [|done]. destruct (upsyncs_changed x w) as [Heq _]. cbn [sections wps_Upsyncs]. by rw Heq.
  - split; [|done]. destruct (upsyncs_changed x w) as [_ Heq]. cbn [sections wps_Upsyncs]. by rw Heq.
Qed.

(** ** Records of sources *)

(** The source of a distribution that the operation changes. *)
Definition op_source (op : SectionOp) : option string :=
  match op with
  | PutNamespaced x _ | DeleteNamespaced x => Some (tFirst x.2)
  | PutNonNamespaced x _ | DeleteNonNamespaced x => Some (enCluster x.2)
  | _ => None
  end.

Definition is_put (op : SectionOp) : bool :=
  match op with PutNamespaced _ _ | PutNonNamespaced _ _ => true | _ => false end.

(** [S'] has the sources in [S] and at most one more, which it has for certain after a [put]. *)
Definition sources_grow (put : bool) (source : option string) (S S' : gset string) : Prop :=
  S ⊆ S' ∧ (∀ s, s ∈ S' → s ∈ S ∨ source = Some s) ∧ (put = true → ∀ s, source = Some s → s ∈ S').

Lemma sources_grow_put put s S : sources_grow put (Some s) S ({[s]} ∪ S).
Proof.
  split_and!; [set_solver|intros x Hx|intros _ x [= <-]; set_solver].
  apply elem_of_union in Hx as [->%elem_of_singleton|?]; auto.
Qed.

Lemma sources_grow_delete s S S' : S ⊆ S' → S' ⊆ {[s]} ∪ S → sources_grow false (Some s) S S'.
Proof.
  intros Hsub Hsup. split_and!; [done|intros x Hx%Hsup|done].
  apply elem_of_union in Hx as [->%elem_of_singleton|?]; auto.
Qed.

Lemma sources_grow_same S S' : S' = S → sources_grow false None S S'.
Proof. intros ->. split_and!; [done|by left|done]. Qed.

Lemma nsod_sources x v nd nm cd cm us w :
  wp_in_step nd nm cd cm us w →
  sources_grow true (Some (tFirst x.2)) (dom (wp_perSource w)) (dom (wp_perSource (mr_Put nsod x v w))) ∧
  sources_grow false (Some (tFirst x.2)) (dom (wp_perSource w)) (dom (wp_perSource (mr_Delete nsod x w))).
Proof.
  intros Hw. set (fd := factorNamespacedDistributionTupleForSync1). set (fs := factorNamespacedDistributionTupleForProj1).
  destruct (recorder_writes fd fs x v w) as [Hrp Hrd]. destruct (recorder_same_tables fd fs x v w) as [_ Htd].
  assert (∀ a b, wp_perSource (cset changedSources_cell a (cset changedDestinations_cell b w)) = wp_perSource w)
    as Hrec by (by destruct w). split.
  - change (mr_Put nsod x v w) with (mr_Put nsdDistributionsForProj x v (mr_Put nsdDistributionsForSync x v
      (mr_Put (recorder fd fs) x v w))).
    pose proof (shared_put_dom nsdForProj_cell perSource_cell wps_nsd_cell freshPerSource
      factorNamespacedDistributionTupleForProj1and234 (NewSingleIndexedMapMap3 id_cell) proj3_wf proj3_abs x v
      (mr_Put nsdDistributionsForSync x v (mr_Put (recorder fd fs) x v w))) as Hdom.
    assert (wp_perSource (mr_Put nsdDistributionsForSync x v (mr_Put (recorder fd fs) x v w)) = wp_perSource w) as Heq.
    { etrans; [eapply shared_put_frame; apply _|]. by rw Hrp. }
    cbn [cget perSource_cell] in Hdom. rw Heq in Hdom. rw (Hdom : dom (wp_perSource _) = _). apply sources_grow_put.
  - change (mr_Delete nsod x w) with (mr_Delete nsdDistributionsForProj x (mr_Delete nsdDistributionsForSync x
      (mr_Delete (recorder fd fs) x w))).
    destruct (wp_in_step_ext _ _ _ _ _ _ _ Htd Hw) as (Hs & _).
    assert (wp_perSource (mr_Delete nsdDistributionsForSync x (mr_Delete (recorder fd fs) x w)) = wp_perSource w) as Heq.
    { etrans; [eapply shared_delete_frame; [apply _..|exact Hs|apply _|apply _]|]. by rw Hrd. }
    destruct (shared_delete_dom nsdForProj_cell perSource_cell wps_nsd_cell freshPerSource
      factorNamespacedDistributionTupleForProj1and234 (NewSingleIndexedMapMap3 id_cell) proj3_wf proj3_abs x
      (mr_Delete nsdDistributionsForSync x (mr_Delete (recorder fd fs) x w))) as [H1 H2].
    cbn [cget perSource_cell] in H1, H2. rw Heq in H1, H2. by apply sources_grow_delete.
Qed.

Lemma nnsod_sources x v nd nm cd cm us w :
  wp_in_step nd nm cd cm us w →
  sources_grow true (Some (enCluster x.2)) (dom (wp_perSource w)) (dom (wp_perSource (mr_Put nnsod x v w))) ∧
  sources_grow false (Some (enCluster x.2)) (dom (wp_perSource w)) (dom (wp_perSource (mr_Delete nnsod x w))).
Proof.
  intros Hw. set (fd := factorNonNamespacedDistributionTupleForSync1). set (fs := factorNonNamespacedDistributionTupleForProj1).
  destruct (recorder_writes fd fs x v w) as [Hrp Hrd]. destruct (recorder_same_tables fd fs x v w) as [_ Htd].
  assert (∀ a b, wp_perSource (cset changedSources_cell a (cset changedDestinations_cell b w)) = wp_perSource w)
    as Hrec by (by destruct w). split.
  - change (mr_Put nnsod x v w) with (mr_Put nnsDistributionsForProj x v (mr_Put nnsDistributionsForSync x v
      (mr_Put (recorder fd fs) x v w))).
    pose proof (shared_put_dom nnsForProj_cell perSource_cell wps_nns_cell freshPerSource
      factorNonNamespacedDistributionTupleForProj1and234 (NewSingleIndexedMapMap3 id_cell) proj3_wf proj3_abs x v
      (mr_Put nnsDistributionsForSync x v (mr_Put (recorder fd fs) x v w))) as Hdom.
    assert (wp_perSource (mr_Put nnsDistributionsForSync x v (mr_Put (recorder fd fs) x v w)) = wp_perSource w) as Heq.
    { etrans; [eapply shared_put_frame; apply _|]. by rw Hrp. }
    cbn [cget perSource_cell] in Hdom. rw Heq in Hdom. rw (Hdom : dom (wp_perSource _) = _). apply sources_grow_put.
  - change (mr_Delete nnsod x w) with (mr_Delete nnsDistributionsForProj x (mr_Delete nnsDistributionsForSync x
      (mr_Delete (recorder fd fs) x w))).
    destruct (wp_in_step_ext _ _ _ _ _ _ _ Htd Hw) as (_ & _ & Hs & _).
    assert (wp_perSource (mr_Delete nnsDistributionsForSync x (mr_Delete (recorder fd fs) x w)) = wp_perSource w) as Heq.
    { etrans; [eapply shared_delete_frame; [apply _..|exact Hs|apply _|apply _]|]. by rw Hrd. }
    destruct (shared_delete_dom nnsForProj_cell perSource_cell wps_nns_cell freshPerSource
      factorNonNamespacedDistributionTupleForProj1and234 (NewSingleIndexedMapMap3 id_cell) proj3_wf proj3_abs x
      (mr_Delete nnsDistributionsForSync x (mr_Delete (recorder fd fs) x w))) as [H1 H2].
    cbn [cget perSource_cell] in H1, H2. rw Heq in H1, H2. by apply sources_grow_delete.
Qed.

Lemma modes_sources X :
  MappingReceiverSim nsModes (λ m w, (modes_hold factorProjectionModeKeyForSyncer (wp_nsModesForSync w) m ∧
    modes_hold factorProjectionModeKeyForProj (wp_nsModesForProj w) m) ∧ dom (wp_perSource w) = X) ∧
  MappingReceiverSim nnsModes (λ m w, (modes_hold factorProjectionModeKeyForSyncer (wp_nnsModesForSync w) m ∧
    modes_hold factorProjectionModeKeyForProj (wp_nnsModesForProj w) m) ∧ dom (wp_perSource w) = X).
Proof.
  split; [apply (modes_fork_sim nsModesForSync_cell nsModesForProj_cell (λ w, dom (wp_perSource w) = X))
         |apply (modes_fork_sim nnsModesForSync_cell nnsModesForProj_cell (λ w, dom (wp_perSource w) = X))];
    by intros ? [].
Qed.

Lemma upsyncs_sources x w :
  wp_perSource (sw_Add upsyncs x w).2 = wp_perSource w ∧
  wp_perSource (sw_Remove upsyncs x w).2 = wp_perSource w.
Proof.
  pose proof (NewHashRelation2_quiet wp_perSource HashSinglePlacement HashUpsyncSet upsyncs_cell _) as Hq.
  split; [apply (quiet_add (QuietSW:=Hq))|apply (quiet_remove (QuietSW:=Hq))].
Qed.

Lemma section_op_sources op t w :
  tables_hold t w →
  sources_grow (is_put op) (op_source op) (dom (wp_perSource w)) (dom (wp_perSource (run_section_op sections op w))).
Proof.
  destruct t as [nd nm cd cm us]. unfold tables_hold. cbn [tNamespaced tNamespacedModes tNonNamespaced
    tNonNamespacedModes tUpsyncs]. intros Hw. pose proof Hw as (_ & _ & _ & _ & (Hm1 & Hm2 & Hm3 & Hm4) & _).
  destruct (modes_sources (dom (wp_perSource w))) as [Hsm Hsc].
  destruct op as [x v|x|x v|x|x v|x|x v|x|x|x]; cbn [run_section_op op_source is_put].
  - exact (proj1 (nsod_sources x v _ _ _ _ _ w Hw)).
  - exact (proj2 (nsod_sources x (MkDistributionBits false false) _ _ _ _ _ w Hw)).
  - apply sources_grow_same. exact (proj2 (sim_put (MappingReceiverSim:=Hsm) x v nm w (conj (conj Hm1 Hm2) eq_refl))).
  - apply sources_grow_same. exact (proj2 (sim_delete (MappingReceiverSim:=Hsm) x nm w (conj (conj Hm1 Hm2) eq_refl))).
  - exact (proj1 (nnsod_sources x v _ _ _ _ _ w Hw)).
  - exact (proj2 (nnsod_sources x (MkDistributionBits false false) _ _ _ _ _ w Hw)).
  - apply sources_grow_same. exact (proj2 (sim_put (MappingReceiverSim:=Hsc) x v cm w (conj (conj Hm3 Hm4) eq_refl))).
  - apply sources_grow_same. exact (proj2 (sim_delete (MappingReceiverSim:=Hsc) x cm w (conj (conj Hm3 Hm4) eq_refl))).
  - apply sources_grow_same. cbn [sections wps_Upsyncs]. by rw (proj1 (upsyncs_sources x w)).
  - apply sources_grow_same. cbn [sections wps_Upsyncs]. by rw (proj2 (upsyncs_sources x w)).
Qed.

Lemma section_ops_sources ops t w :
  tables_hold t w →
  let S := dom (wp_perSource w) in
  let S' := dom (wp_perSource (for_each ops (run_section_op sections) w)) in
  S ⊆ S' ∧ (∀ s, s ∈ S' → s ∈ S ∨ ∃ op, op ∈ ops ∧ op_source op = Some s) ∧
  (∀ op s, op ∈ ops → is_put op = true → op_source op = Some s → s ∈ S').
Proof.
  revert t w. induction ops as [|op ops IH]; intros t w Hw; cbv zeta.
  { split_and!; [done|by left|]. intros op s Hin. by apply not_elem_of_nil in Hin. }
  rw !for_each_cons. destruct (section_op_sources op t w Hw) as (Hsub & Hnew & Hput).
  destruct (IH (spec_section_op op t) (run_section_op sections op w)) as (Hsub' & Hnew' & Hput');
    [by apply section_op_ok|]. split_and!; [by etrans| |].
  - intros s [Hs|(op' & Hin & Hop)]%Hnew'.
    + destruct (Hnew s Hs); [by left|right]. exists op. split; [by apply elem_of_cons; left|done].
    + right. exists op'. split; [by apply elem_of_cons; right|done].
  - intros op' s [-> |Hin]%elem_of_cons Hp Hop; [|by eapply Hput']. by apply Hsub', Hput.
Qed.

Lemma section_ops_ok ops t w :
  tables_hold t w →
  let w' := for_each ops (run_section_op sections) w in
  tables_hold (for_each ops spec_section_op t) w' ∧
  wp_changedDestinations w ⊆ wp_changedDestinations w' ∧
  ∀ op d, op ∈ ops → op_destination op = Some d → d ∈ wp_changedDestinations w'.
Proof.
  revert t w. induction ops as [|op ops IH]; intros t w Hw; cbv zeta.
  { split_and!; [done..|]. intros op d Hin. by apply not_elem_of_nil in Hin. }
  rw !for_each_cons. destruct (section_op_changed op t w Hw) as [Hsub Hd].
  destruct (IH (spec_section_op op t) (run_section_op sections op w)) as (Ht & Hsub' & Hd'); [by apply section_op_ok|].
  split_and!; [done|by etrans|]. intros op' d [-> |Hin]%elem_of_cons Hop; [|by eapply Hd'].
  by apply Hsub', Hd.
Qed.

Lemma begin_ok t w : tables_hold t w → tables_hold t (Transact_begin w).
Proof.
  apply wp_in_step_ext, same_tables_intro. intros X f _ Hd Hs _. unfold Transact_begin. by rw Hs Hd.
Qed.

Lemma tables_hold_empty : tables_hold (MkTables ∅ ∅ ∅ ∅ ∅) emptyProjector.
Proof.
  assert (∀ (A B : Type) `{Countable A, Countable B} (kd : Factorer ProjectionModeKey A B) `{!RotatorOk kd},
    modes_hold kd ∅ ∅) as Hmodes.
  { intros. split; [intros a i; by rw lookup_empty|apply flatten_empty]. }
  split_and!; [..|split; [|]].
  1-4: split; [intros k; split; [|cbn; set_solver]|intros x; by rw lookup_empty].
  1-2: split; [done|intros a i; by rw lookup_empty].
  1-2: split; [done|intros a i; by rw lookup_empty].
  - split_and!; apply Hmodes; apply _.
  - split; [apply (hashMap_wf_empty HashSinglePlacement)|]. intros k vs. by rw hashMap_abs_empty lookup_empty.
  - cbn. unfold indexed_abs, index_tuples. by rw hashMap_abs_empty map_to_list_empty.
Qed.

(** ** Transactions of upsyncs *)

Definition is_upsync (op : SectionOp) : bool :=
  match op with AddUpsync _ | RemoveUpsync _ => true | _ => false end.

(** What an operation on the upsyncs does not touch. *)
Lemma upsync_op_quiet {X} (f : workloadProjector → X) `{!Indep upsyncs_cell f} op w :
  is_upsync op = true → f (run_section_op sections op w) = f w.
Proof.
  pose proof (NewHashRelation2_quiet f HashSinglePlacement HashUpsyncSet upsyncs_cell _) as Hq.
  destruct op; try done; intros _; cbn [run_section_op sections wps_Upsyncs];
    [apply (quiet_add (QuietSW:=Hq))|apply (quiet_remove (QuietSW:=Hq))].
Qed.

Lemma upsync_ops_quiet {X} (f : workloadProjector → X) `{!Indep upsyncs_cell f} ops w :
  forallb is_upsync ops = true → f (for_each ops (run_section_op sections) w) = f w.
Proof.
  revert w. induction ops as [|op ops IH]; [done|]. intros w [Hop Hops]%andb_true_iff.
  rw for_each_cons IH; [|done]. by apply upsync_op_quiet.
Qed.

Lemma set_range_empty {E} `{Countable E} : set_range (∅ : gset E) = [].
Proof. apply nil_length_inv. by rw length_set_range size_empty. Qed.

Section finishing.
Context (sourceStore : string → GroupResource → list ObjectMeta).
Context (destinationStore : SinglePlacement → GroupResource → list ObjectMeta).
Context (clientFailure : SinglePlacement → option bool).

Context (sourceConfig : string → bool).

Abbreviation run_transaction ops :=
  (Transact sourceStore destinationStore clientFailure sourceConfig (λ wps, for_each ops (run_section_op wps))).

(** The transaction does not fail for want of the config of a source. *)
Definition sources_reachable (ops : list SectionOp) (w : workloadProjector) : Prop :=
  ∀ op s, op ∈ ops → op_source op = Some s → s ∈ dom (wp_perSource w) ∨ sourceConfig s = true.

Lemma newSources_made (l : list string) :
  (∀ s, s ∈ l → sourceConfig s = true) → is_Some (mapM (newPerSourceLocked sourceConfig) l).
Proof.
  intros Hl. apply mapM_is_Some. apply Forall_forall. intros s Hs. cbn. unfold newPerSourceLocked. by rw (Hl s Hs).
Qed.

Lemma Transact_Some ops w w' :
  run_transaction ops w = Some w' →
  Transact_end sourceStore destinationStore clientFailure
    (for_each ops (run_section_op sections) (Transact_begin w)) = Some w'.
Proof. unfold Transact. by intros (? & _ & ?)%bind_Some. Qed.

Lemma begin_perSource w : wp_perSource (Transact_begin w) = wp_perSource w.
Proof. by destruct w. Qed.

Lemma Transact_reachable ops t w :
  tables_hold t w → sources_reachable ops w →
  run_transaction ops w = Transact_end sourceStore destinationStore clientFailure
    (for_each ops (run_section_op sections) (Transact_begin w)).
Proof.
  intros Hw Hr. unfold Transact. cbv zeta.
  destruct (section_ops_sources ops t (Transact_begin w)) as (_ & Hnew & _); [by apply begin_ok|].
  destruct (newSources_made (set_range (dom (wp_perSource (for_each ops (run_section_op sections)
    (Transact_begin w))) ∖ dom (wp_perSource (Transact_begin w))))) as [l ->]; [|done].
  intros s [Hs Hn]%elem_of_set_range%elem_of_difference.
  destruct (Hnew s Hs) as [?|(op & Hin & Hop)]; [done|]. rw begin_perSource in Hn.
  by destruct (Hr op s Hin Hop).
Qed.

(** A transaction that returns leaves the tables that its operations specify. *)
Lemma Transact_tables ops t w w' :
  tables_hold t w → run_transaction ops w = Some w' → tables_hold (for_each ops spec_section_op t) w'.
Proof.
  intros Hw [Hf _]%Transact_Some%Transact_end_Some.
  eapply wp_in_step_ext; [apply Hf|]. apply section_ops_ok. by apply begin_ok.
Qed.


(** A transaction that distributes something from a new source whose config is not to be had
    panics: the error of the space client is only logged. *)
Theorem unreachable_source_panics ops t w op s :
  tables_hold t w → op ∈ ops → is_put op = true → op_source op = Some s →
  s ∉ dom (wp_perSource w) → sourceConfig s = false → run_transaction ops w = None.
Proof.
  intros Hw Hin Hp Hop Hnew Hc.
  destruct (run_transaction ops w) as [w'|] eqn:Hrun; [|done]. exfalso.
  unfold Transact in Hrun. apply bind_Some in Hrun as (l & Hl & _).
  destruct (section_ops_sources ops t (Transact_begin w)) as (_ & _ & Hput); [by apply begin_ok|].
  assert (is_Some (newPerSourceLocked sourceConfig s)) as [r Hr].
  { assert (Forall (is_Some ∘ newPerSourceLocked sourceConfig) (set_range (dom (wp_perSource (for_each ops
      (run_section_op sections) (Transact_begin w))) ∖ dom (wp_perSource (Transact_begin w))))) as Hall
      by (apply mapM_is_Some; by eexists).
    rw Forall_forall in Hall. apply Hall. apply elem_of_set_range, elem_of_difference.
    rw begin_perSource. split; [by eapply Hput|done]. }
  unfold newPerSourceLocked in Hr. by rw Hc in Hr.
Qed.

(** A transaction whose operations only add and remove upsyncs takes effect in the
    relation of upsyncs but is not acted upon: it records no changed destination, so no
    reference to a SyncerConfig is put in the work queue, and the SyncerConfigs of its
    destinations keep the old upsyncs until something else brings them up. *)
Theorem upsync_transaction_unnoticed ops t w :
  forallb is_upsync ops = true → tables_hold t w →
  ∃ w', run_transaction ops w = Some w' ∧
    tables_hold (for_each ops spec_section_op t) w' ∧
    wp_queue w' = wp_queue w ∧ wp_mbwsNameToSP w' = wp_mbwsNameToSP w.
Proof.
  intros Hops Hw. set (w' := for_each ops (run_section_op sections) (Transact_begin w)).
  assert (Transact_end sourceStore destinationStore clientFailure w' = Some w') as Hend.
  { unfold Transact_end. pose proof (upsync_ops_quiet wp_changedSources ops (Transact_begin w) Hops) as Hs.
    pose proof (upsync_ops_quiet wp_changedDestinations ops (Transact_begin w) Hops) as Hd.
    fold w' in Hs, Hd. destruct w. cbn in Hs, Hd. rw Hs. rw (set_range_empty (E:=string)). cbn [for_each foldl].
    rw Hd. by rw (set_range_empty (E:=SinglePlacement)). }
  assert (sources_reachable ops w) as Hreach.
  { intros op s Hin Hop. assert (is_upsync op = true) as Hu; [|by destruct op].
    apply (proj1 (forallb_forall _ _) Hops). by apply list_elem_of_In. }
  exists w'. rw (Transact_reachable ops t w Hw Hreach). split_and!; [exact Hend| | |].
  - apply section_ops_ok. by apply begin_ok.
  - unfold w'. rw upsync_ops_quiet; [by destruct w|done].
  - unfold w'. rw upsync_ops_quiet; [by destruct w|done].
Qed.

(** C4: the workload projector is what the binding organizer is verified against: its
    sections keep it in step with the five tables that it has been told of, and so do the
    beginning and the end of its transactions; initially the tables are empty. *)
Theorem workloadProjector_meets_organizer :
  WorkloadProjectorSim wp_in_step (AsWorkloadProjector sourceStore destinationStore clientFailure) ∧
  wp_in_step ∅ ∅ ∅ ∅ ∅ emptyProjector.
Proof.
  split; [|exact tables_hold_empty]. split.
  - intros nd nm cd cm us p Hp. cbn [wp_begin AsWorkloadProjector fst snd]. refine (conj sections_sim _).
    pose proof (begin_ok (MkTables nd nm cd cm us) p Hp) as Hb. exact Hb.
  - intros nd nm cd cm us p Hp. cbn [wp_end AsWorkloadProjector].
    destruct (Transact_end sourceStore destinationStore clientFailure p) as [w'|] eqn:He; [|done]. cbn.
    apply Transact_end_Some in He as [Hf _]. by eapply wp_in_step_ext; [apply Hf|].
Qed.
End finishing.
End transactions.
