(* ===== verification/SyncerConfig.v ===== *)
(** The SyncerConfig objects that the workload projector maintains in the mailbox spaces
    (workload-projector.go): what a SyncerConfig should say, in its relational form and as
    the spec of the object; the test whether an object says it; the handlers of the
    informers on spaces and SyncerConfigs, and the work on references to SyncerConfigs.

    The API servers of the mailbox spaces are behind the interface [EdgeClient]. *)

From S2P Require Import Prelude Tuples Interfaces Slices Sets Maps GoStrings Types KbUser HashDomains HashMap.
From S2P Require Import Relations FactoredMap Receivers Joins Organizer WorkloadProjector.

(** * Strings *)

(** strings.Cut: what is before and after the first [sep] *)
Fixpoint str_Cut (s sep : string) : option (string * string) :=
  if HasPrefix s sep then Some (EmptyString, str_drop (String.length sep) s)
  else
    match s with
    | EmptyString => None
    | String a s' =>
        match str_Cut s' sep with
        | Some (before, after) => Some (String a before, after)
        | None => None
        end
    end.

(** strings.SplitN for a positive [n] and a non-empty [sep] *)
Fixpoint str_SplitN (n : nat) (s sep : string) : list string :=
  match n with
  | O => []
  | S O => [s]
  | S n =>
      match str_Cut s sep with
      | Some (before, after) => before :: str_SplitN n after sep
      | None => [s]
      end
  end.

(** strings.Split for a non-empty [sep]: there cannot be more parts than this *)
Definition str_Split (s sep : string) : list string := str_SplitN (S (String.length s)) s sep.

Definition looksLikeMBWSName (spaceName : string) : bool :=
  let mbsNameParts := str_Split spaceName MBspaceNameSep in
  (length mbsNameParts =? 2)%nat.

(** * The API object *)

Record NamespaceScopeDownsyncResource : Set := MkNamespaceScopeDownsyncResource {
  nsdrGroupResource : GroupResource;
  nsdrAPIVersion : string
}.

Record NamespaceScopeDownsyncs : Set := MkNamespaceScopeDownsyncs {
  nsdNamespaces : list string;
  nsdResources : list NamespaceScopeDownsyncResource
}.

Record NamespaceAndNames : Set := MkNamespaceAndNames {
  nanNamespace : string;
  nanNames : list string
}.

Record NamespaceScopeDownsyncObjects : Set := MkNamespaceScopeDownsyncObjects {
  nsoGroupResource : GroupResource;
  nsoAPIVersion : string;
  nsoObjectsByNamespace : list NamespaceAndNames
}.

Record ClusterScopeDownsyncResource : Set := MkClusterScopeDownsyncResource {
  csrGroupResource : GroupResource;
  csrAPIVersion : string;
  csrObjects : list string
}.

Record SyncerConfigSpec : Set := MkSyncerConfigSpec {
  scsNamespaceScope : NamespaceScopeDownsyncs;
  scsNamespacedObjects : list NamespaceScopeDownsyncObjects;
  scsClusterScope : list ClusterScopeDownsyncResource;
  scsUpsync : list UpsyncSet
}.

Record SyncerConfig : Set := MkSyncerConfig {
  scName : string;
  scResourceVersion : string;
  scSpec : SyncerConfigSpec
}.

(** Go's zero values *)
Definition zeroSyncerConfigSpec : SyncerConfigSpec :=
  MkSyncerConfigSpec (MkNamespaceScopeDownsyncs [] []) [] [] [].
Definition zeroSyncerConfig : SyncerConfig := MkSyncerConfig "" "" zeroSyncerConfigSpec.

(** * The relational form *)

Record syncerConfigSpecRelations : Type := MkSyncerConfigSpecRelations {
  NamespacedObjects : gmap GroupResource (Pair ProjectionModeVal (MapSet NamespacedName));
  ClusterScopedObjects : gmap GroupResource (Pair ProjectionModeVal (MapSet ObjectName));
  Upsyncs : buckets UpsyncSet Empty
}.

Definition ObjectName_String (objName : ObjectName) : string := objName.
Definition NewObjectName (name : string) : ObjectName := name.

(** ObjectMeta of a SyncerConfig and the objects that an informer on them delivers *)
Inductive SyncerConfigObject : Type :=
| ASyncerConfig (syncfg : ObjectMeta)
| SyncerConfigFinalStateUnknown (obj : SyncerConfigObject)
| NotASyncerConfig.

(** The fields of a Space that are looked at. *)
Record Space : Set := MkSpace { spaceName : string; spacePhase : string }.
Definition SpacePhaseReady : string := "Ready".

(** What is asked of the API server of a mailbox space: whether a client can be had, in
    two steps, and what the client does. *)
Record EdgeClient (S : Type) : Type := MkEdgeClient {
  ec_ConfigForSpace : string → S → bool;
  ec_NewForConfig : string → S → bool;
  ec_Get : string → ObjectName → S → Lookup SyncerConfig;
  ec_Create : string → SyncerConfig → S → bool * S;
  ec_Update : string → SyncerConfig → S → bool * S
}.
Arguments MkEdgeClient {_} _ _ _ _ _.
Arguments ec_ConfigForSpace {_} _ _ _.
Arguments ec_NewForConfig {_} _ _ _.
Arguments ec_Get {_} _ _ _ _.
Arguments ec_Create {_} _ _ _ _.
Arguments ec_Update {_} _ _ _ _.

(** A hash set of upsyncs that is only read, as a [Set]. *)
Definition read_upsyncs {W} (hs : buckets UpsyncSet Empty) : GoSet W UpsyncSet :=
  let set := hashSet_AsMutableSet HashUpsyncSet id_cell in
  MkGoSet (λ _, set_IsEmpty set hs) (λ _, set_Len set hs) (λ _, set_LenIsCheap set hs)
    (λ elt _, set_Has set elt hs) (λ _, set_Visit set hs).

Section syncer_configs.
Context `{MapRange}.
Context (resourceModes : GroupResource → ResourceMode).
Abbreviation W := workloadProjector.

(** The loop over the objects of one scope that go to the destination; [nsms] holds the
    modes.  [None] is a panic of [GoesToEdge]. *)
Definition relateObjects {Name} `{Countable Name} (nsms : gmap GroupResource ProjectionModeVal)
  (objs : list (Pair GroupResource Name))
  : option (gmap GroupResource (Pair ProjectionModeVal (MapSet Name))) :=
  for_each objs (λ gri ans,
    ans ← ans;
    let gr := gri.1 in
    let rscMode := resourceModes gr in
    goes ← ResourceMode_GoesToEdge rscMode;
    if negb goes then Some ans
    else
      let pmv := default (MkProjectionModeVal "") (nsms !! gr) in
      let '(nso, ans) := MapGetAdd (pmv, NewEmptyMapSet) (MapMap_AsMutableMap None id_cell) gr true
                           (λ _, NewPair pmv NewEmptyMapSet) ans in
      Some (mm_Mutate (MapMap_AsMutableMap None id_cell) gr
              (NewPair nso.1 (MapSet_Add gri.2 nso.2).2) ans)) (Some ∅).

Definition syncerConfigRelations (destination : SinglePlacement) (w : W)
  : option syncerConfigSpecRelations :=
  namespacedObjects ←
    match map_Get (shared_outer nsdForSync_cell perDestination_cell wpd_nsd_cell newPerDestinationLocked)
            destination w with
    | Some nsds =>
        let nsms := default ∅ (wp_nsModesForSync w !! destination) in
        let objs := MapKeySet (W:=W) (read_map nsds) in
        relateObjects nsms (set_Visit objs w)
    | None => Some ∅
    end;
  clusterScopedObjects ←
    match map_Get (shared_outer nnsForSync_cell perDestination_cell wpd_nns_cell newPerDestinationLocked)
            destination w with
    | Some nnsds =>
        let nnsms := default ∅ (wp_nnsModesForSync w !! destination) in
        let objs := MapKeySet (W:=W) (read_map nnsds) in
        relateObjects nnsms (set_Visit objs w)
    | None => Some ∅
    end;
  let upsyncs := rel_Visit1to2 upsyncs destination w in
  Some (MkSyncerConfigSpecRelations namespacedObjects clusterScopedObjects
          (HashSetCopy HashUpsyncSet id_cell upsyncs emptyBuckets)).

(** * The spec from the relations *)

Definition namespacedObjectsOf (key : GroupResource) (val : Pair ProjectionModeVal (MapSet NamespacedName))
  : NamespaceScopeDownsyncObjects :=
  let indexedNNs := (SetAddAll (NewMapRelation2 id_cell) (MapSet_Visit val.2) ∅).2 in
  let nans := VisitableTransformToSlice
                (genericIndexedSetIndex_Visit id (MapMap_AsMutableMap None id_cell) indexedNNs)
                (λ perNS, MkNamespaceAndNames perNS.1
                            (VisitableTransformToSlice (MapSet_Visit perNS.2) ObjectName_String)) in
  MkNamespaceScopeDownsyncObjects key (pmvAPIVersion val.1) nans.

Definition clusterScopedObjectsOf (key : GroupResource) (val : Pair ProjectionModeVal (MapSet ObjectName))
  : ClusterScopeDownsyncResource :=
  MkClusterScopeDownsyncResource key (pmvAPIVersion val.1)
    (VisitableToSlice (TransformVisitable (MapSet_Visit val.2) ObjectName_String)).

Definition syncerConfigSpecFromRelations (specRelations : syncerConfigSpecRelations) : SyncerConfigSpec :=
  MkSyncerConfigSpec (scsNamespaceScope zeroSyncerConfigSpec)
    (MapTransformToSlice (map_range (NamespacedObjects specRelations)) namespacedObjectsOf)
    (MapTransformToSlice (map_range (ClusterScopedObjects specRelations)) clusterScopedObjectsOf)
    (VisitableToSlice (set_Visit (read_upsyncs (W:=unit) (Upsyncs specRelations)) ())).

(** * Whether a SyncerConfig is good *)

Definition NANToSet (nan : NamespaceAndNames) : MapSet NamespacedName :=
  let nsName := nanNamespace nan in
  let nns := VisitableMap (nanNames nan) (λ objName, NewPair nsName objName : NamespacedName) in
  let reducer := StatefulReducer (λ _, NewEmptyMapSet)
                   (λ set elt, MutableSetUnion1Elt (MapSet_AsMutableSet id_cell) elt set) Identity1 in
  reducer nns.

Definition nsoEqual (a b : Pair ProjectionModeVal (MapSet NamespacedName)) : bool :=
  bool_decide (a.1 = b.1) && SetEqual (W:=unit) (read_set a.2) (read_set b.2) ().
Definition csrEqual (a b : Pair ProjectionModeVal (MapSet ObjectName)) : bool :=
  bool_decide (a.1 = b.1) && SetEqual (W:=unit) (read_set a.2) (read_set b.2) ().

(** The first loop: what the spec says of namespaced objects. *)
Definition haveNamespacedObjects (spec : SyncerConfigSpec)
  : gmap GroupResource (Pair ProjectionModeVal (MapSet NamespacedName)) :=
  for_each (scsNamespacedObjects spec) (λ cr have,
    let nansList := VisitableMap (nsoObjectsByNamespace cr) NANToSet in
    let reducer := StatefulReducer (λ _, NewEmptyMapSet)
                     (λ set other, MutableSetUnion1Set (MapSet_AsMutableSet id_cell) (read_set other) set)
                     Identity1 in
    let nans := reducer nansList in
    let mapping :=
      match MapMap_Get id_cell (nsoGroupResource cr) have with
      | Some mapping =>
          NewPair mapping.1 (SetAddAll (MapSet_AsMutableSet id_cell) (MapSet_Visit nans) mapping.2).2
      | None => NewPair (MkProjectionModeVal (nsoAPIVersion cr)) nans
      end in
    MapMap_Put None id_cell (nsoGroupResource cr) mapping have) ∅.

(** The second loop: what the spec says of cluster-scoped objects. *)
Definition haveClusterScopedResources (spec : SyncerConfigSpec)
  : gmap GroupResource (Pair ProjectionModeVal (MapSet ObjectName)) :=
  for_each (scsClusterScope spec) (λ cr have,
    let objects := MapSetCopy (TransformVisitable (csrObjects cr) NewObjectName) in
    MapMap_Put None id_cell (csrGroupResource cr)
      (NewPair (MkProjectionModeVal (csrAPIVersion cr)) objects) have) ∅.

(** Receivers that set the variable [good] to false. *)
Definition notGood {Key Val} : MapChangeReceiver bool Key Val :=
  MapChangeReceiverFuncs (Some (λ _ _ _, false)) (Some (λ _ _ _ _, false)) (Some (λ _ _ _, false)).

Definition syncerConfigIsGood (syncfg : SyncerConfig) (goodSpecRelations : syncerConfigSpecRelations)
  : bool :=
  let spec := scSpec syncfg in
  let good := true in
  let good := MapEnumerateDifferencesParametric nsoEqual (read_map (NamespacedObjects goodSpecRelations))
                (read_map (haveNamespacedObjects spec)) notGood good in
  let good := MapEnumerateDifferencesParametric csrEqual (read_map (ClusterScopedObjects goodSpecRelations))
                (read_map (haveClusterScopedResources spec)) notGood good in
  let haveUpsyncs := NewHashSet HashUpsyncSet id_cell (scsUpsync spec) emptyBuckets in
  SetEnumerateDifferences (read_upsyncs (Upsyncs goodSpecRelations)) (read_upsyncs haveUpsyncs)
    (SetWriterFuncs (Some (λ _ _, (false, false))) (Some (λ _ _, (false, false)))) good.

(** * The handlers of informers *)

(** [AddFunc] and [UpdateFunc] of the informer on spaces do the same. *)
Definition onSpace (space : Space) (w : W) : W :=
  if negb (looksLikeMBWSName (spaceName space)) then w
  else if negb (bool_decide (spacePhase space = SpacePhaseReady)) then w
  else
    let scRef := syncerConfigRef (spaceName space) SyncerConfigName in
    queue_Add scRef w.

(** [None] for a panic of the type assertion *)
Definition enqueueSCRef (obj : SyncerConfigObject) (w : W) : option W :=
  let obj := match obj with SyncerConfigFinalStateUnknown obj => obj | _ => obj end in
  match obj with
  | ASyncerConfig syncfg =>
      '(sourceName, kbIDForMBS, err) ← AnalyzeClusterScopedObject (Some syncfg);
      match err with
      | Some _ => Some w
      | None =>
          if negb (bool_decide (sourceName = SyncerConfigName)) then Some w
          else
            let scRef := syncerConfigProjectionRef kbIDForMBS sourceName in
            Some (queue_Add scRef w)
      end
  | _ => None
  end.

(** * Work on references to SyncerConfigs *)

(** The results are [retry] and the new state. *)
Definition syncConfigDestination (destination : SinglePlacement) (w : W) : bool * W :=
  let mbwsName := SPMailboxWorkspaceName destination in
  let scRef := syncerConfigRef mbwsName SyncerConfigName in
  (false, queue_Add scRef w).

Definition syncConfigObjectProjection (kbsr : KubeBindSpaceRelation) (KBIDForMBS : string)
  (SourceName : ObjectName) (w : W) : bool * W :=
  let mbsName := SpaceIDFromKubeBind kbsr KBIDForMBS in
  if bool_decide (mbsName = "") then (true, w)
  else (false, queue_Add (syncerConfigRef mbsName SourceName) w).

(** [None] is a panic.  [Get] of the generated client returns an empty object beside an
    error. *)
Definition syncConfigObject {S} (ec : EdgeClient S) (Cluster : string) (Name : ObjectName) (w : W) (s : S)
  : option (bool * S) :=
  if bool_decide (Cluster = "") then Some (false, s)
  else
    let mbwsName := Cluster in
    match wp_mbwsNameToSP w !! mbwsName with
    | None => Some (true, s)
    | Some sp =>
        if negb (ec_ConfigForSpace ec mbwsName s) then Some (true, s)
        else if negb (ec_NewForConfig ec mbwsName s) then Some (false, s)
        else
          let revise syncfg :=
            goodConfigSpecRelations ← syncerConfigRelations sp w;
            if syncerConfigIsGood syncfg goodConfigSpecRelations then Some (false, s)
            else
              let syncfg := MkSyncerConfig (scName syncfg) (scResourceVersion syncfg)
                              (syncerConfigSpecFromRelations goodConfigSpecRelations) in
              let '(ok, s) := ec_Update ec mbwsName syncfg s in
              Some (negb ok, s) in
          match ec_Get ec mbwsName Name s with
          | NotFound =>
              goodConfigSpecRelations ← syncerConfigRelations sp w;
              let syncfg := MkSyncerConfig Name "" (syncerConfigSpecFromRelations goodConfigSpecRelations) in
              let '(ok, s) := ec_Create ec mbwsName syncfg s in
              Some (negb ok, s)
          | LookupError _ => revise zeroSyncerConfig
          | Found syncfg => revise syncfg
          end
    end.
End syncer_configs.
