(* ===== verification/SyncerConfigFacts.v ===== *)
(** A SyncerConfig made from the relations is good, and what the projector leaves in a
    mailbox space lists exactly the objects of the tables that go to its destination and
    from there to the edge, with their API versions, and exactly the upsyncs. *)

From S2P Require Import Prelude Tuples Interfaces Slices Sets Maps GoStrings Types KbUser HashDomains HashMap.
From S2P Require Import Relations FactoredMap Receivers Joins Organizer WorkloadProjector WorkloadProjectorFacts.
From S2P Require Import SyncerConfig.

(** * Flags and differences *)

Lemma flag_loop {A} (bad : A → bool) l good :
  for_each l (λ x good, if bad x then false else good) good = good && forallb (λ x, negb (bad x)) l.
Proof.
  revert good. induction l as [|x l IH]; intros good; [by rw andb_true_r|]. rw for_each_cons IH.
  cbn. by destruct (bad x), good.
Qed.

Section comparing.
Context `{MapRange}.

Lemma enumerate_notGood {K V} `{Countable K, EqDecision V} (isEqual : V → V → bool) (L R : gmap K V) good :
  (∀ a b, isEqual a b = bool_decide (a = b)) →
  MapEnumerateDifferencesParametric isEqual (read_map L) (read_map R) notGood good = good && bool_decide (L = R).
Proof.
  intros Heq. unfold MapEnumerateDifferencesParametric. cbn [map_Visit map_Get read_map].
  set (badL := λ tup : Pair K V, match R !! tup.1 with Some v => negb (isEqual v tup.2) | None => true end).
  set (badR := λ tup : Pair K V, match L !! tup.1 with Some _ => false | None => true end).
  transitivity (for_each (map_range R) (λ x good, if badR x then false else good)
    (for_each (map_range L) (λ x good, if badL x then false else good) good)).
  { apply for_each_proper; [done|intros [k v] g|apply for_each_proper; [done|intros [k v] g|done]]; cbn.
    - unfold badR. cbn. by destruct (L !! k).
    - unfold badL. cbn. destruct (R !! k); [by destruct (isEqual _ _)|done]. }
  rw !flag_loop -andb_assoc. f_equal. apply eq_bool_prop_intro. rw !Is_true_true andb_true_iff !forallb_forall.
  rw bool_decide_eq_true. split.
  - intros [HL HR]. apply map_eq. intros k. destruct (L !! k) as [v|] eqn:Hl.
    + assert (badL (k, v) = false) as Hb.
      { apply negb_true_iff, HL, list_elem_of_In, elem_of_map_range, Hl. }
      unfold badL in Hb. cbn in Hb. destruct (R !! k) as [v'|]; [|done]. rw Heq in Hb.
      apply negb_false_iff, bool_decide_eq_true in Hb. by subst.
    + destruct (R !! k) as [v|] eqn:Hr; [|done].
      assert (badR (k, v) = false) as Hb.
      { apply negb_true_iff, HR, list_elem_of_In, elem_of_map_range, Hr. }
      unfold badR in Hb. cbn in Hb. by rw Hl in Hb.
  - intros ->. split; intros [k v] Hin%list_elem_of_In%elem_of_map_range.
    + unfold badL. cbn. rw Hin Heq. by rw bool_decide_eq_true_2.
    + unfold badR. cbn. by rw Hin.
Qed.

Lemma MapSets_equal {E} `{Countable E} (a b : Pair ProjectionModeVal (MapSet E)) :
  bool_decide (a.1 = b.1) && SetEqual (W:=unit) (read_set a.2) (read_set b.2) () = bool_decide (a = b).
Proof.
  rw (SetEqual_spec _ _ (λ _, True) (λ _, True) (λ _, a.2) (λ _, b.2)) //. destruct a as [m X], b as [m' X']. cbn.
  apply eq_bool_prop_intro. rw !Is_true_true andb_true_iff !bool_decide_eq_true.
  split; [by intros [-> ->]|by intros [= -> ->]].
Qed.

Lemma read_upsyncs_ok {W} hs (inv : W → Prop) :
  hashMap_wf HashUpsyncSet hs → GoSetOk (W:=W) (read_upsyncs hs) inv (λ _, dom (hashMap_abs hs)).
Proof.
  intros Hwf. pose proof (ms_set_ok (MutableSetOk:=hashSet_ok HashUpsyncSet id_cell)) as Hs.
  split; cbn; intros.
  - by apply (set_IsEmpty_ok (GoSetOk:=Hs)).
  - by apply (set_Len_ok (GoSetOk:=Hs)).
  - by apply (set_Has_ok (GoSetOk:=Hs)).
  - by apply (set_Visit_ok (GoSetOk:=Hs)).
Qed.

Lemma for_each_false {A} (l : list A) good : for_each l (λ _ _, false) good = good && bool_decide (l = []).
Proof.
  destruct l as [|x l]; [by rw andb_true_r|]. rw andb_false_r for_each_cons.
  by induction l as [|y l IH]; [|rw for_each_cons].
Qed.

Lemma enumerate_upsyncs a b good :
  hashMap_wf HashUpsyncSet a → hashMap_wf HashUpsyncSet b →
  SetEnumerateDifferences (read_upsyncs a) (read_upsyncs b)
    (SetWriterFuncs (Some (λ _ _, (false, false))) (Some (λ _ _, (false, false)))) good
  = good && bool_decide (dom (hashMap_abs a) = dom (hashMap_abs b)).
Proof.
  intros Ha Hb. pose proof (read_upsyncs_ok (W:=bool) a (λ _, True) Ha) as Hl.
  pose proof (read_upsyncs_ok (W:=bool) b (λ _, True) Hb) as Hr.
  edestruct (SetEnumerateDifferences_calls (λ _ : bool, True) _ _ _ _ (Hl:=Hl) (Hr:=Hr)
    (SetWriterFuncs (Some (λ _ _, (false, false))) (Some (λ _ _, (false, false)))) good)
    as (removes & adds & Hrem & Hadd & -> & _); [done..|]. cbn.
  rw !for_each_false -andb_assoc. f_equal.
  set (X := dom (hashMap_abs a)) in *. set (Y := dom (hashMap_abs b)) in *.
  apply eq_bool_prop_intro. rw !Is_true_true andb_true_iff !bool_decide_eq_true. split.
  - intros [-> ->]. symmetry in Hrem, Hadd. apply Permutation_nil_r in Hrem, Hadd.
    apply elements_empty_inv in Hrem, Hadd. clearbody X Y. clear -Hrem Hadd.
    by apply (anti_symm (⊆)); apply empty_difference_subseteq.
  - intros Heq. split; apply Permutation_nil_r; [rw Hrem|rw Hadd]; rw Heq difference_diag_L elements_empty //.
Qed.
End comparing.

(** * What a spec says *)

(** The namespaced objects that an entry names. *)
Definition named (cr : NamespaceScopeDownsyncObjects) : gset NamespacedName :=
  list_to_set (nsoObjectsByNamespace cr ≫= λ nan, pair (nanNamespace nan) <$> nanNames nan).

(** No resource has two entries. *)
Definition well_indexed (spec : SyncerConfigSpec) : Prop :=
  NoDup (nsoGroupResource <$> scsNamespacedObjects spec) ∧ NoDup (csrGroupResource <$> scsClusterScope spec).

Section contents.
Context `{MapRange}.

Lemma list_to_set_Visit {E} `{Countable E} (X : MapSet E) : list_to_set (MapSet_Visit X) = X.
Proof. apply set_eq. intros e. by rw elem_of_list_to_set elem_of_set_range. Qed.

Lemma NANToSet_spec nan : NANToSet nan = list_to_set (pair (nanNamespace nan) <$> nanNames nan).
Proof.
  unfold NANToSet, StatefulReducer, Identity1, VisitableMap, MutableSetUnion1Elt.
  rewrite -[RHS](union_empty_r_L (list_to_set _)). rewrite -(for_each_MapSet_Add _ NewEmptyMapSet).
  apply for_each_proper; [done|intros e X|done]. cbn. by destruct (MapSet_Add e X).
Qed.

(** The sets of an entry are put together. *)
Lemma nans_union (l : list NamespaceAndNames) (X : gset NamespacedName) :
  for_each (NANToSet <$> l)
    (λ other set, MutableSetUnion1Set (MapSet_AsMutableSet id_cell) (read_set other) set) X
  = list_to_set (l ≫= λ nan, pair (nanNamespace nan) <$> nanNames nan) ∪ X.
Proof.
  revert X. induction l as [|nan l IH]; intros X; cbn [fmap list_fmap mbind list_bind]; [symmetry; apply union_empty_l_L|].
  rw for_each_cons IH. unfold MutableSetUnion1Set. rw SetAddAll_MapSet. cbn [set_Visit read_set].
  rw NANToSet_spec list_to_set_app_L. set (Y := list_to_set (pair _ <$> _)).
  rw list_to_set_Visit. clearbody Y. rw union_assoc_L (union_comm_L Y) //.
Qed.

Lemma insert_each {A K V} `{Countable K} (key : A → K) (f : A → option V → V) l (m : gmap K V) :
  NoDup (key <$> l) → (∀ x, x ∈ l → m !! key x = None) →
  for_each l (λ x m, <[key x := f x (m !! key x)]> m) m
  = list_to_map ((λ x, (key x, f x None)) <$> l) ∪ m.
Proof.
  revert m. induction l as [|x l IH]; intros m Hnd Hm; cbn; [by rw map_empty_union|].
  cbn in Hnd. apply NoDup_cons in Hnd as [Hx Hnd]. change (foldl _ _ l) with
    (for_each l (λ x m, <[key x := f x (m !! key x)]> m) (<[key x := f x (m !! key x)]> m)).
  assert (m !! key x = None) as Hnone by (apply Hm; left).
  rw IH; [|done|].
  - rw Hnone. rw -insert_union_r; [by rw insert_union_l|]. apply not_elem_of_list_to_map. rw -list_fmap_compose. done.
  - intros y Hy. rw lookup_insert_ne; [apply Hm; by right|]. intros Heq. apply Hx. rw Heq. by apply list_elem_of_fmap_2.
Qed.

(** What is put under a key that is put again does not matter. *)
Lemma overwritten {A K V} `{Countable K} (key : A → K) (f : A → V) l (m m' : gmap K V) :
  (∀ k, k ∉ key <$> l → m !! k = m' !! k) →
  for_each l (λ x m, <[key x := f x]> m) m = for_each l (λ x m, <[key x := f x]> m) m'.
Proof.
  revert m m'. induction l as [|x l IH]; intros m m' Hm.
  { apply map_eq. intros k. apply Hm, not_elem_of_nil. }
  rw !for_each_cons. apply IH. intros k Hk. destruct (decide (k = key x)) as [-> |Hne].
  - by rw !lookup_insert_eq.
  - rw !lookup_insert_ne //. apply Hm. cbn. by apply not_elem_of_cons.
Qed.

Lemma haveNamespacedObjects_spec spec :
  NoDup (nsoGroupResource <$> scsNamespacedObjects spec) →
  haveNamespacedObjects spec
  = list_to_map ((λ cr, (nsoGroupResource cr, (MkProjectionModeVal (nsoAPIVersion cr), named cr)))
      <$> scsNamespacedObjects spec).
Proof.
  intros Hnd. rewrite -[RHS](map_union_empty (list_to_map _)).
  rewrite -(insert_each nsoGroupResource (λ cr old,
    match old with
    | Some mapping => (mapping.1, named cr ∪ mapping.2)
    | None => (MkProjectionModeVal (nsoAPIVersion cr), named cr)
    end)); [|done|done].
  apply for_each_proper; [done|intros cr m|done]. cbn -[SetAddAll]. unfold MapMap_Get, MapMap_Put. cbn -[SetAddAll].
  unfold StatefulReducer, VisitableMap, Identity1. rw nans_union union_empty_r_L. fold (named cr).
  apply (f_equal (λ v, <[nsoGroupResource cr := v]> m)).
  assert (∀ old : option (Pair ProjectionModeVal (MapSet NamespacedName)),
    match old with
    | Some mapping =>
        NewPair mapping.1 (SetAddAll (MapSet_AsMutableSet id_cell) (MapSet_Visit (named cr)) mapping.2).2
    | None => NewPair (MkProjectionModeVal (nsoAPIVersion cr)) (named cr)
    end = match old with
          | Some mapping => (mapping.1, named cr ∪ mapping.2)
          | None => (MkProjectionModeVal (nsoAPIVersion cr), named cr)
          end) as Hold.
  { intros [mapping|]; [|done]. rw SetAddAll_MapSet list_to_set_Visit. done. }
  exact (Hold _).
Qed.

Lemma haveClusterScoped_spec spec :
  NoDup (csrGroupResource <$> scsClusterScope spec) →
  haveClusterScopedResources spec
  = list_to_map ((λ cr, (csrGroupResource cr, (MkProjectionModeVal (csrAPIVersion cr),
        list_to_set (csrObjects cr) : gset ObjectName))) <$> scsClusterScope spec).
Proof.
  intros Hnd. rewrite -[RHS](map_union_empty (list_to_map _)).
  rewrite -(insert_each csrGroupResource (λ cr _, (MkProjectionModeVal (csrAPIVersion cr),
    list_to_set (csrObjects cr) : gset ObjectName))); [|done|done].
  apply for_each_proper; [done|intros cr m|done]. unfold MapMap_Put, MapSetCopy. cbn -[SetAddAll].
  rw SetAddAll_MapSet union_empty_r_L. unfold TransformVisitable, NewObjectName. by rw list_fmap_id.
Qed.
End contents.

(** * From the relations and back *)

Section roundtrip.
Context `{MapRange}.

Lemma named_objects_of gr val : named (namespacedObjectsOf gr val) = val.2.
Proof.
  apply set_eq. intros [ns n]. unfold named, namespacedObjectsOf. cbn [nsoObjectsByNamespace].
  pose proof (NewMapRelation2_ok (A:=NamespaceName) (B:=ObjectName) id_cell) as Hrel.
  destruct (SetAddAll_loop (NewMapRelation2 id_cell) id_cell _ _ (Hs:=rel_set_ok (MutableRelation2Ok:=Hrel))
    (MapSet_Visit val.2) false true ∅) as (r & w' & Heq & Hup & _ & Habs).
  { split; [done|]. intros k vs. by rw lookup_empty. }
  unfold SetAddAll. rw Heq. cbn [snd]. apply Updated_id in Hup. subst w'.
  assert ((ns, n) ∈ indexed_abs PairFactorer id id r ↔ (ns, n) ∈ val.2) as <-.
  { rw Habs elem_of_union elem_of_list_to_set elem_of_set_range elem_of_indexed_abs. cbn.
    split; [intros [?|(vs & Hvs & _)]; [done|by rw lookup_empty in Hvs]|by left]. }
  rw elem_of_indexed_abs elem_of_list_to_set list_elem_of_bind VisitableTransformToSlice_spec.
  cbn [rotFirst PairFactorer fst snd]. split.
  - intros (nan & Hn & ([ns' vs] & -> & Hk)%list_elem_of_fmap). cbn in Hn.
    rw VisitableTransformToSlice_spec in Hn. apply list_elem_of_fmap in Hn as (n' & [= -> ->] & Hn).
    unfold ObjectName_String in Hn. rw list_fmap_id in Hn. apply elem_of_set_range in Hn.
    apply list_elem_of_fmap in Hk as ([k v] & [= -> ->] & Hk). apply elem_of_map_range in Hk. by exists v.
  - intros (vs & Hvs & Hn). eexists. split; [|apply list_elem_of_fmap; exists (ns, vs); split; [done|]].
    + cbn. rw VisitableTransformToSlice_spec. apply list_elem_of_fmap. exists n. split; [done|].
      unfold ObjectName_String. rw list_fmap_id. by apply elem_of_set_range.
    + apply list_elem_of_fmap. exists (ns, vs). split; [done|]. by apply elem_of_map_range.
Qed.

Lemma MapTransformToSlice_spec {K V T} (l : list (Pair K V)) (xform : K → V → T) :
  MapTransformToSlice l xform = (λ tup, xform tup.1 tup.2) <$> l.
Proof. apply (for_each_append (λ tup, xform tup.1 tup.2) l []). Qed.

Lemma list_to_map_range {K V} `{Countable K} (m : gmap K V) : list_to_map (map_range m) = m.
Proof. rw -{2}(list_to_map_to_list m). apply list_to_map_proper; [auto with placement|apply map_range_perm]. Qed.

Lemma specFromRelations_indexed rel : well_indexed (syncerConfigSpecFromRelations rel).
Proof.
  split; cbn; rw MapTransformToSlice_spec -list_fmap_compose; apply (NoDup_map_range_fst (V:=_)).
Qed.

Lemma specFromRelations_have rel :
  haveNamespacedObjects (syncerConfigSpecFromRelations rel) = NamespacedObjects rel ∧
  haveClusterScopedResources (syncerConfigSpecFromRelations rel) = ClusterScopedObjects rel.
Proof.
  destruct (specFromRelations_indexed rel) as [Hn Hc].
  rw haveNamespacedObjects_spec // haveClusterScoped_spec //. cbn [scsNamespacedObjects scsClusterScope
    syncerConfigSpecFromRelations]. rw !MapTransformToSlice_spec -!list_fmap_compose. split.
  - rewrite -[RHS]list_to_map_range. f_equal. rewrite -[RHS]list_fmap_id. apply list_fmap_ext. intros _ [gr [[v] X]] _.
    cbn -[namespacedObjectsOf]. by rw named_objects_of.
  - rewrite -[RHS]list_to_map_range. f_equal. rewrite -[RHS]list_fmap_id. apply list_fmap_ext. intros _ [gr [[v] X]] _.
    cbn. rw VisitableToSlice_spec. unfold TransformVisitable, ObjectName_String. by rw list_fmap_id list_to_set_Visit.
Qed.

Lemma NewHashSet_upsyncs l :
  let hs := NewHashSet HashUpsyncSet id_cell l emptyBuckets in
  hashMap_wf HashUpsyncSet hs ∧ dom (hashMap_abs hs) = list_to_set l.
Proof.
  pose proof (MutableSetOk_writer _ _ _ _ (hashSet_ok HashUpsyncSet id_cell)) as Hsw.
  destruct (sw_add_all _ _ _ (SetWriterOk0:=Hsw) l emptyBuckets (hashMap_wf_empty HashUpsyncSet)) as [Hwf Habs].
  split; [exact Hwf|]. etrans; [exact Habs|]. by rw hashMap_abs_empty dom_empty_L union_empty_r_L.
Qed.

Lemma syncerConfigIsGood_spec syncfg rel :
  hashMap_wf HashUpsyncSet (Upsyncs rel) →
  syncerConfigIsGood syncfg rel = true ↔
    haveNamespacedObjects (scSpec syncfg) = NamespacedObjects rel ∧
    haveClusterScopedResources (scSpec syncfg) = ClusterScopedObjects rel ∧
    (list_to_set (scsUpsync (scSpec syncfg)) : gset UpsyncSet) = dom (hashMap_abs (Upsyncs rel)).
Proof.
  intros Hwf. unfold syncerConfigIsGood. cbv zeta.
  destruct (NewHashSet_upsyncs (scsUpsync (scSpec syncfg))) as [Hwf' <-].
  rw enumerate_notGood; [|intros; apply MapSets_equal]. rw enumerate_notGood; [|intros; apply MapSets_equal].
  rw enumerate_upsyncs // !andb_true_iff !bool_decide_eq_true. split; [intros [[[_ ?] ?] ?]|intros (? & ? & ?)]; done.
Qed.

Lemma made_good name version rel :
  hashMap_wf HashUpsyncSet (Upsyncs rel) →
  let spec := syncerConfigSpecFromRelations rel in
  well_indexed spec ∧ syncerConfigIsGood (MkSyncerConfig name version spec) rel = true.
Proof.
  intros Hwf spec. split; [apply specFromRelations_indexed|]. apply syncerConfigIsGood_spec; [done|].
  destruct (specFromRelations_have rel) as [Hn Hc]. split_and!; [done..|].
  cbn [scSpec scsUpsync spec syncerConfigSpecFromRelations]. unfold spec, syncerConfigSpecFromRelations. cbn [scsUpsync].
  rw VisitableToSlice_spec.
  apply set_eq. intros u. rw elem_of_list_to_set.
  pose proof (read_upsyncs_ok (W:=unit) (Upsyncs rel) (λ _, True) Hwf) as Hr.
  by rw (set_Visit_ok (GoSetOk:=Hr) () I) elem_of_elements.
Qed.

(** C29: a SyncerConfig whose spec was made from a relational description is good with
    respect to that description, and its spec has one entry per resource. *)
Theorem syncerConfig_roundtrip name version rel :
  hashMap_wf HashUpsyncSet (Upsyncs rel) →
  let spec := syncerConfigSpecFromRelations rel in
  syncerConfigIsGood (MkSyncerConfig name version spec) rel = true ∧ well_indexed spec.
Proof. intros Hwf. destruct (made_good name version rel Hwf). done. Qed.

(** An entry for cluster-scoped objects whose resource has a later entry is overlooked:
    whatever objects and API version it has, a good SyncerConfig stays good with it, though
    a syncer is to downsync the objects of every entry. *)
Theorem syncerConfigIsGood_overlooks extra name version ns nos cso us rel :
  hashMap_wf HashUpsyncSet (Upsyncs rel) →
  csrGroupResource extra ∈ csrGroupResource <$> cso →
  syncerConfigIsGood (MkSyncerConfig name version (MkSyncerConfigSpec ns nos (extra :: cso) us)) rel
  = syncerConfigIsGood (MkSyncerConfig name version (MkSyncerConfigSpec ns nos cso us)) rel.
Proof.
  intros Hwf Hin. apply eq_bool_prop_intro. rw !Is_true_true !syncerConfigIsGood_spec //.
  cbn [scSpec scsUpsync scsClusterScope].
  assert (haveClusterScopedResources (MkSyncerConfigSpec ns nos (extra :: cso) us)
          = haveClusterScopedResources (MkSyncerConfigSpec ns nos cso us)) as ->; [|done].
  unfold haveClusterScopedResources. cbn [scsClusterScope]. rw for_each_cons. 
  refine (overwritten csrGroupResource (λ cr, (MkProjectionModeVal (csrAPIVersion cr),
    MapSetCopy (TransformVisitable (csrObjects cr) NewObjectName))) _ _ _ _).
  intros k Hk. unfold MapMap_Put. cbn. apply lookup_insert_ne. intros Heq. apply Hk. by rw -Heq.
Qed.
End roundtrip.

(** * The relations of a destination *)

Section relations.
Context `{MapRange}.
Context (resourceModes : GroupResource → ResourceMode).
Context (Hmodes : ∀ gr, is_Some (ResourceMode_GoesToEdge (resourceModes gr))).

Definition goes_to_edge (gr : GroupResource) : Prop := ResourceMode_GoesToEdge (resourceModes gr) = Some true.

(** [ans] relates each resource that goes to the edge to its mode and the objects in [objs]. *)
Definition relates {Name} `{Countable Name} (nsms : gmap GroupResource ProjectionModeVal)
  (objs : list (Pair GroupResource Name)) (ans : gmap GroupResource (Pair ProjectionModeVal (MapSet Name))) : Prop :=
  ∀ gr, match ans !! gr with
        | Some (pmv, X) =>
            goes_to_edge gr ∧ pmv = default (MkProjectionModeVal "") (nsms !! gr) ∧
            ∀ n, n ∈ X ↔ (gr, n) ∈ objs
        | None => goes_to_edge gr → ∀ n, (gr, n) ∉ objs
        end.

Lemma relates_step {Name} `{Countable Name} nsms (objs : list (Pair GroupResource Name)) ans gr n :
  relates nsms objs ans → goes_to_edge gr →
  let nso := default (default (MkProjectionModeVal "") (nsms !! gr), ∅) (ans !! gr) in
  relates nsms (objs ++ [(gr, n)]) (<[gr := (nso.1, {[n]} ∪ nso.2)]> ans).
Proof.
  intros Hans Hgoes nso gr'. destruct (decide (gr' = gr)) as [-> |Hne].
  - rw lookup_insert_eq. specialize (Hans gr). unfold nso. destruct (ans !! gr) as [[pmv X]|]; cbn.
    + destruct Hans as (_ & -> & HX). split_and!; [done..|]. intros n'.
      rw elem_of_union elem_of_singleton HX elem_of_app list_elem_of_singleton. naive_solver.
    + split_and!; [done..|]. intros n'. rw elem_of_union elem_of_singleton elem_of_app list_elem_of_singleton.
      split; [intros [-> |[]%not_elem_of_empty]; by right|intros [?|[= ->]]; [by edestruct Hans|by left]].
  - rw lookup_insert_ne //. specialize (Hans gr'). destruct (ans !! gr') as [[pmv X]|].
    + destruct Hans as (? & ? & HX). split_and!; [done..|]. intros n'.
      rw HX elem_of_app list_elem_of_singleton. naive_solver.
    + intros Hg n'. rw elem_of_app list_elem_of_singleton. intros [?|[= -> _]]; [by eapply Hans|done].
Qed.

Lemma relateObjects_spec {Name} `{Countable Name} nsms (objs : list (Pair GroupResource Name)) :
  ∃ ans, relateObjects resourceModes nsms objs = Some ans ∧ relates nsms objs ans.
Proof.
  apply (for_each_ind (λ objs res, ∃ ans, res = Some ans ∧ relates nsms objs ans)).
  { exists ∅. split; [done|]. intros gr. rw lookup_empty. intros _ n. apply not_elem_of_nil. }
  intros seen [gr n] todo s _ (ans & -> & Hans). cbn [mbind option_bind fst snd].
  destruct (Hmodes gr) as [goes Hgoes]. rw Hgoes. cbn [mbind option_bind].
  destruct goes; cbn [negb].
  - pose proof (relates_step nsms seen ans gr n Hans Hgoes) as Hstep. cbv zeta in Hstep.
    eexists. split; [|exact Hstep]. unfold MapGetAdd. cbn. unfold MapMap_Get, MapMap_Put. cbn.
    destruct (ans !! gr) as [[pmv X]|]; cbn; rw MapSet_Add_spec //=. by rw insert_insert_eq.
  - exists ans. split; [done|]. intros gr'. specialize (Hans gr').
    destruct (ans !! gr') as [[pmv X]|].
    + destruct Hans as (Hg & ? & HX). split_and!; [done..|]. intros n'. rw HX elem_of_app list_elem_of_singleton.
      split; [by left|]. intros [?|[= -> ->]]; [done|]. unfold goes_to_edge in Hg. by rw Hgoes in Hg.
    + intros Hg n'. rw elem_of_app list_elem_of_singleton. intros [?|[= -> ->]]; [by eapply Hans|].
      unfold goes_to_edge in Hg. by rw Hgoes in Hg.
Qed.
Lemma shared_lookup {Whole Name V} `{Countable Whole, Countable Name}
  (present : Cell workloadProjector (gset SinglePlacement))
  (field : Cell wpPerDestination (gmap (Pair GroupResource Name) (gmap string V)))
  (kd : Factorer Whole SinglePlacement (Pair (Pair GroupResource Name) string)) `{!RotatorOk kd}
  (m : gmap Whole V) w destination g source :
  shared_holds present perDestination_cell field newPerDestinationLocked kd
    (factored_wf (λ _, True) id (λ _, True) id) (factored_abs PairFactorer id id) m w →
  m !! rotSecond kd (destination, (g, source))
  = inner_at perDestination_cell field newPerDestinationLocked destination w !! g ≫= λ i, i !! source.
Proof. intros [_ Hm]. rw Hm rot_first_second. cbn [fst snd]. unfold factored_abs. by rw lookup_flatten. Qed.

(** The objects in the index of a destination are those of the table. *)
Lemma shared_objects {Whole Name V} `{Countable Whole, Countable Name}
  (present : Cell workloadProjector (gset SinglePlacement))
  (field : Cell wpPerDestination (gmap (Pair GroupResource Name) (gmap string V)))
  (kd : Factorer Whole SinglePlacement (Pair (Pair GroupResource Name) string)) `{!RotatorOk kd}
  (m : gmap Whole V) w destination :
  shared_holds present perDestination_cell field newPerDestinationLocked kd
    (factored_wf (λ _, True) id (λ _, True) id) (factored_abs PairFactorer id id) m w →
  match map_Get (shared_outer present perDestination_cell field newPerDestinationLocked) destination w with
  | Some nsds => ∀ g, g ∈ set_Visit (MapKeySet (W:=workloadProjector) (read_map nsds)) w ↔
                      ∃ source, is_Some (m !! rotSecond kd (destination, (g, source)))
  | None => ∀ g source, m !! rotSecond kd (destination, (g, source)) = None
  end.
Proof.
  intros [Hk Hm]. cbn. destruct (Hk destination) as [[_ Hwf] Hpresent].
  fold (inner_at perDestination_cell field newPerDestinationLocked destination w) in *.
  set (nsds := inner_at perDestination_cell field newPerDestinationLocked destination w) in *.
  assert (∀ g source, m !! rotSecond kd (destination, (g, source)) = nsds !! g ≫= λ i, i !! source) as Hlook.
  { intros g source. exact (shared_lookup _ _ _ _ w destination g source (conj Hk Hm)). }
  case_decide as Hp.
  - intros g. rw list_elem_of_fmap. setoid_rewrite Hlook. split.
    + intros ([g' i] & -> & Hg%elem_of_map_range). cbn. destruct (Hwf g' i Hg) as [_ Hne].
      apply map_choose in Hne as (source & v & Hv). exists source. rw Hg. cbn. by exists v.
    + intros (source & v & Hv). apply bind_Some in Hv as (i & Hi & _). exists (g, i). split; [done|].
      by apply elem_of_map_range.
  - intros g source. rw Hlook. destruct (nsds !! g) as [i|] eqn:Hg; [|done]. exfalso. apply Hp, Hpresent.
    destruct (Hwf g i Hg) as [_ Hne]. apply map_choose in Hne as (s & v & Hv).
    intros He. specialize (Hlook g s). rw Hm rot_first_second in Hlook. cbn [fst snd] in Hlook. fold nsds in Hlook.
    rw He lookup_empty Hg in Hlook. cbn in Hlook. unfold id in Hv. by rw Hv in Hlook.
Qed.

Lemma modes_lookup (modes : gmap SinglePlacement (gmap GroupResource ProjectionModeVal)) m destination gr :
  modes_hold factorProjectionModeKeyForSyncer modes m →
  default ∅ (modes !! destination) !! gr = m !! MkProjectionModeKey gr destination.
Proof.
  intros [_ <-]. rw lookup_flatten. cbn. destruct (modes !! destination); [done|]. cbn. apply lookup_empty.
Qed.
(** ** What a SyncerConfig has to list *)

(** The API version in the tables, empty if there is none. *)
Definition version_for (modes : gmap ProjectionModeKey ProjectionModeVal) gr destination : string :=
  pmvAPIVersion (default (MkProjectionModeVal "") (modes !! MkProjectionModeKey gr destination)).

(** Some source distributes the object to the destination. *)
Definition namespaced_goes t destination gr (nn : NamespacedName) : Prop :=
  ∃ source, is_Some (tNamespaced t !! (MkProjectionModeKey gr destination, NewTriple source nn.1 nn.2)).
Definition cluster_scoped_goes t destination gr (n : ObjectName) : Prop :=
  ∃ source, is_Some (tNonNamespaced t !! (MkProjectionModeKey gr destination, MkExternalName source n)).

(** The spec lists the object with the version. *)
Definition lists_namespaced (spec : SyncerConfigSpec) gr v (nn : NamespacedName) : Prop :=
  ∃ cr nan, cr ∈ scsNamespacedObjects spec ∧ nsoGroupResource cr = gr ∧ nsoAPIVersion cr = v ∧
    nan ∈ nsoObjectsByNamespace cr ∧ nanNamespace nan = nn.1 ∧ nn.2 ∈ nanNames nan.
Definition lists_cluster_scoped (spec : SyncerConfigSpec) gr v (n : ObjectName) : Prop :=
  ∃ cr, cr ∈ scsClusterScope spec ∧ csrGroupResource cr = gr ∧ csrAPIVersion cr = v ∧ n ∈ csrObjects cr.

(** The spec lists what the tables say, and nothing else. *)
Definition spec_right (t : Tables) (destination : SinglePlacement) (spec : SyncerConfigSpec) : Prop :=
  (∀ gr v nn, lists_namespaced spec gr v nn ↔
     goes_to_edge gr ∧ namespaced_goes t destination gr nn ∧ v = version_for (tNamespacedModes t) gr destination) ∧
  (∀ gr v n, lists_cluster_scoped spec gr v n ↔
     goes_to_edge gr ∧ cluster_scoped_goes t destination gr n ∧
     v = version_for (tNonNamespacedModes t) gr destination) ∧
  ∀ u, u ∈ scsUpsync spec ↔ (destination, u) ∈ tUpsyncs t.

Lemma relates_wanted {Name} `{Countable Name} nsms (objs : list (Pair GroupResource Name)) ans
  (goes : GroupResource → Name → Prop) gr v n :
  relates nsms objs ans → (∀ gr n, (gr, n) ∈ objs ↔ goes gr n) →
  (∃ X, ans !! gr = Some (MkProjectionModeVal v, X) ∧ n ∈ X) ↔
  goes_to_edge gr ∧ goes gr n ∧ v = pmvAPIVersion (default (MkProjectionModeVal "") (nsms !! gr)).
Proof.
  intros Hans Hgoes. rw -Hgoes. specialize (Hans gr). destruct (ans !! gr) as [[pmv X]|].
  - destruct Hans as (Hg & Hpmv & HX). rw -HX -Hpmv. split.
    + by intros (? & [= -> ->] & Hn).
    + intros (_ & Hn & ->). exists X. by destruct pmv.
  - split; [by intros (? & ? & _)|]. intros (Hg & Hn & _). by destruct (Hans Hg n).
Qed.

Lemma scope_right {Whole Name V} `{Countable Whole, Countable Name}
  (present : Cell workloadProjector (gset SinglePlacement))
  (field : Cell wpPerDestination (gmap (Pair GroupResource Name) (gmap string V)))
  (kd : Factorer Whole SinglePlacement (Pair (Pair GroupResource Name) string)) `{!RotatorOk kd}
  (m : gmap Whole V) (modes : gmap SinglePlacement (gmap GroupResource ProjectionModeVal)) nm w destination :
  shared_holds present perDestination_cell field newPerDestinationLocked kd
    (factored_wf (λ _, True) id (λ _, True) id) (factored_abs PairFactorer id id) m w →
  modes_hold factorProjectionModeKeyForSyncer modes nm →
  ∃ ans,
    match map_Get (shared_outer present perDestination_cell field newPerDestinationLocked) destination w with
    | Some nsds => relateObjects resourceModes (default ∅ (modes !! destination))
                     (set_Visit (MapKeySet (W:=workloadProjector) (read_map nsds)) w)
    | None => Some ∅
    end = Some ans ∧
    ∀ gr v n, (∃ X, ans !! gr = Some (MkProjectionModeVal v, X) ∧ n ∈ X) ↔
      goes_to_edge gr ∧ (∃ source, is_Some (m !! rotSecond kd (destination, ((gr, n), source)))) ∧
      v = version_for nm gr destination.
Proof.
  intros Hs Hm. pose proof (shared_objects _ _ _ _ w destination Hs) as Ho.
  destruct (map_Get _ _ _) as [nsds|].
  - destruct (relateObjects_spec (default ∅ (modes !! destination))
      (set_Visit (MapKeySet (W:=workloadProjector) (read_map nsds)) w)) as (ans & Hans & Hr).
    exists ans. split; [done|]. intros gr v n. unfold version_for. rw -(modes_lookup modes nm destination gr Hm).
    exact (relates_wanted _ _ _ _ gr v n Hr (λ gr n, Ho (gr, n))).
  - exists ∅. split; [done|]. intros gr v n. split; [by intros (X & He & _); rw lookup_empty in He|].
    intros (_ & (source & Hsome) & _). rw Ho in Hsome. by destruct Hsome.
Qed.

Lemma relations_right t w destination :
  tables_hold t w →
  ∃ rel, syncerConfigRelations resourceModes destination w = Some rel ∧
    hashMap_wf HashUpsyncSet (Upsyncs rel) ∧
    (∀ gr v nn, (∃ X, NamespacedObjects rel !! gr = Some (MkProjectionModeVal v, X) ∧ nn ∈ X) ↔
       goes_to_edge gr ∧ namespaced_goes t destination gr nn ∧ v = version_for (tNamespacedModes t) gr destination) ∧
    (∀ gr v n, (∃ X, ClusterScopedObjects rel !! gr = Some (MkProjectionModeVal v, X) ∧ n ∈ X) ↔
       goes_to_edge gr ∧ cluster_scoped_goes t destination gr n ∧
       v = version_for (tNonNamespacedModes t) gr destination) ∧
    ∀ u, u ∈ dom (hashMap_abs (Upsyncs rel)) ↔ (destination, u) ∈ tUpsyncs t.
Proof.
  intros (Hns & _ & Hcs & _ & (Hnm & _ & Hcm & _) & [Huwf Hus]).
  destruct (scope_right _ _ _ _ _ _ w destination Hns Hnm) as (ns & Hns1 & Hns2).
  destruct (scope_right _ _ _ _ _ _ w destination Hcs Hcm) as (cs & Hcs1 & Hcs2).
  unfold syncerConfigRelations. rw Hns1. cbn [mbind option_bind]. rw Hcs1. cbn [mbind option_bind].
  eexists. split; [done|]. cbn [Upsyncs NamespacedObjects ClusterScopedObjects].
  destruct (NewHashSet_upsyncs (rel_Visit1to2 upsyncs destination w)) as [Hwf Hdom].
  split_and!; [exact Hwf|by intros gr v [ns' n]|done|].
  intros u. etrans; [rewrite /HashSetCopy /=; rewrite [X in u ∈ X]Hdom; apply elem_of_list_to_set|].
  rw -Hus. apply (rel_visit_ok (MutableRelation2Ok:=NewHashRelation2_ok HashSinglePlacement HashUpsyncSet upsyncs_cell)).
  exact Huwf.
Qed.
Lemma have_namespaced spec gr v nn :
  well_indexed spec →
  lists_namespaced spec gr v nn ↔ ∃ X, haveNamespacedObjects spec !! gr = Some (MkProjectionModeVal v, X) ∧ nn ∈ X.
Proof.
  intros [Hnd _]. rw haveNamespacedObjects_spec //. setoid_rewrite <- elem_of_list_to_map; [|by rw -list_fmap_compose].
  setoid_rewrite list_elem_of_fmap. split.
  - intros (cr & nan & Hcr & <- & <- & Hnan & Hns & Hn). exists (named cr). split; [by exists cr|].
    unfold named. rw elem_of_list_to_set list_elem_of_bind. exists nan. split; [|done].
    apply list_elem_of_fmap. exists nn.2. split; [|done]. rw Hns. by destruct nn.
  - intros (X & (cr & [= -> -> ->] & Hcr) & Hn). unfold named in Hn.
    rw elem_of_list_to_set list_elem_of_bind in Hn. destruct Hn as (nan & (n & -> & Hn)%list_elem_of_fmap & Hnan).
    by exists cr, nan.
Qed.

Lemma have_cluster_scoped spec gr v n :
  well_indexed spec →
  lists_cluster_scoped spec gr v n ↔
  ∃ X, haveClusterScopedResources spec !! gr = Some (MkProjectionModeVal v, X) ∧ n ∈ X.
Proof.
  intros [_ Hnd]. rw haveClusterScoped_spec //. setoid_rewrite <- elem_of_list_to_map; [|by rw -list_fmap_compose].
  setoid_rewrite list_elem_of_fmap. split.
  - intros (cr & Hcr & <- & <- & Hn). eexists. split; [by exists cr|]. by apply elem_of_list_to_set.
  - intros (X & (cr & [= -> -> ->] & Hcr) & Hn). apply elem_of_list_to_set in Hn. by exists cr.
Qed.

(** A good SyncerConfig with one entry per resource lists what the tables say. *)
Lemma good_is_right t w destination :
  tables_hold t w →
  ∃ rel, syncerConfigRelations resourceModes destination w = Some rel ∧
    hashMap_wf HashUpsyncSet (Upsyncs rel) ∧
    ∀ syncfg, well_indexed (scSpec syncfg) → syncerConfigIsGood syncfg rel = true →
      spec_right t destination (scSpec syncfg).
Proof.
  intros Hw. destruct (relations_right t w destination Hw) as (rel & Hrel & Hwf & Hn & Hc & Hu).
  exists rel. split_and!; [done..|]. intros syncfg Hidx Hgood.
  apply syncerConfigIsGood_spec in Hgood as (Hgn & Hgc & Hgu); [|done]. split_and!.
  - intros gr v nn. rw have_namespaced // Hgn. apply Hn.
  - intros gr v n. rw have_cluster_scoped // Hgc. apply Hc.
  - intros u. rw -Hu -Hgu. by rw elem_of_list_to_set.
Qed.
End relations.

(** * The work on a SyncerConfig *)

(** What an API server promises: an object that it accepted is there. *)
Class EdgeClientOk {S} (ec : EdgeClient S) : Prop := {
  ec_get_name : ∀ space name s syncfg, ec_Get ec space name s = Found syncfg → scName syncfg = name;
  ec_create_ok : ∀ space syncfg s s', ec_Create ec space syncfg s = (true, s') →
    ∃ syncfg', ec_Get ec space (scName syncfg) s' = Found syncfg' ∧ scSpec syncfg' = scSpec syncfg;
  ec_update_ok : ∀ space syncfg s s', ec_Update ec space syncfg s = (true, s') →
    ∃ syncfg', ec_Get ec space (scName syncfg) s' = Found syncfg' ∧ scSpec syncfg' = scSpec syncfg
}.

Section syncing.
Context `{MapRange}.
Context (resourceModes : GroupResource → ResourceMode).
Context {S : Type} (ec : EdgeClient S) `{!EdgeClientOk ec}.

(** A spec like the ones that the projector makes: one entry per resource, and no whole
    namespaces. The test of an existing SyncerConfig takes the former for granted and does
    not look at the latter. *)
Definition as_made (spec : SyncerConfigSpec) : Prop :=
  well_indexed spec ∧ scsNamespaceScope spec = MkNamespaceScopeDownsyncs [] [].

Lemma made_as_made rel : hashMap_wf HashUpsyncSet (Upsyncs rel) → as_made (syncerConfigSpecFromRelations rel).
Proof. intros Hwf. split; [|done]. by destruct (made_good "" "" rel Hwf). Qed.

(** C5: work on a reference to a SyncerConfig whose mailbox name is known, in a space that
    can be reached and answers the query, when every resource has a known propagation mode,
    does not panic. Suppose that the SyncerConfig, if there is one already, is like those
    that the projector makes: it has at most one entry per resource in each scope and asks
    for no whole namespace. Then if the work is not to be retried the space holds a
    SyncerConfig of that name that is again like that and lists exactly the objects which
    the tables distribute to the destination and whose resource goes to the edge, each with
    the API version in the tables, and exactly the upsyncs of the destination; if it is to
    be retried then a request to create or update the object has failed. *)
Theorem syncConfigObject_right t w s Cluster Name sp :
  (∀ gr, is_Some (ResourceMode_GoesToEdge (resourceModes gr))) → tables_hold t w →
  Cluster ≠ "" → wp_mbwsNameToSP w !! Cluster = Some sp →
  ec_ConfigForSpace ec Cluster s = true → ec_NewForConfig ec Cluster s = true →
  match ec_Get ec Cluster Name s with
  | Found syncfg => as_made (scSpec syncfg)
  | NotFound => True
  | LookupError _ => False
  end →
  ∃ retry s', syncConfigObject resourceModes ec Cluster Name w s = Some (retry, s') ∧
    if retry
    then ∃ syncfg, ec_Create ec Cluster syncfg s = (false, s') ∨ ec_Update ec Cluster syncfg s = (false, s')
    else ∃ syncfg, ec_Get ec Cluster Name s' = Found syncfg ∧
           as_made (scSpec syncfg) ∧ spec_right resourceModes t sp (scSpec syncfg).
Proof.
  intros Hmodes Hw Hne Hsp Hcfg Hnew Hget. unfold syncConfigObject. rw bool_decide_eq_false_2 // Hsp Hcfg Hnew. cbn [negb].
  destruct (good_is_right resourceModes Hmodes t w sp Hw) as (rel & Hrel & Hwf & Hright).
  assert (∀ syncfg, scSpec syncfg = syncerConfigSpecFromRelations rel →
    as_made (scSpec syncfg) ∧ spec_right resourceModes t sp (scSpec syncfg)) as Hmade.
  { intros [name version spec]. cbn. intros ->. split; [by apply made_as_made|].
    apply (Hright (MkSyncerConfig name version _)); by apply made_good. }
  destruct (ec_Get ec Cluster Name s) as [syncfg| |] eqn:Hg; [|clear Hget|done]; rw Hrel; cbn [mbind option_bind].
  - destruct (syncerConfigIsGood syncfg rel) eqn:Hgood.
    { exists false, s. split; [done|]. exists syncfg. split_and!; [done..|]. by apply Hright; [apply Hget|]. }
    destruct (ec_Update _ _ _ s) as [ok s'] eqn:Hup. eexists _, s'. split; [done|]. destruct ok; cbn.
    + destruct (ec_update_ok _ _ _ _ Hup) as (syncfg' & Hg' & Hs'). cbn in Hg', Hs'.
      rw (ec_get_name _ _ _ _ Hg) in Hg'. eexists. split; [done|]. by apply Hmade.
    + eexists. by right.
  - destruct (ec_Create _ _ _ s) as [ok s'] eqn:Hup. eexists _, s'. split; [done|]. destruct ok; cbn.
    + destruct (ec_create_ok _ _ _ _ Hup) as (syncfg' & Hg' & Hs'). eexists. split; [done|]. by apply Hmade.
    + eexists. by left.
Qed.

(** When the query for the SyncerConfig fails, other than by not finding it, the work goes
    on with an empty object: if nothing goes to the destination it counts as good and the
    work is done, without a retry; else the update is requested of an object without a name. *)
Theorem syncConfigObject_failed_query w s Cluster Name sp e rel :
  Cluster ≠ "" → wp_mbwsNameToSP w !! Cluster = Some sp →
  ec_ConfigForSpace ec Cluster s = true → ec_NewForConfig ec Cluster s = true →
  ec_Get ec Cluster Name s = LookupError e →
  syncerConfigRelations resourceModes sp w = Some rel → hashMap_wf HashUpsyncSet (Upsyncs rel) →
  (NamespacedObjects rel = ∅ ∧ ClusterScopedObjects rel = ∅ ∧ hashMap_abs (Upsyncs rel) = ∅ ∧
     syncConfigObject resourceModes ec Cluster Name w s = Some (false, s)) ∨
  ∃ spec, syncConfigObject resourceModes ec Cluster Name w s
          = Some (let '(ok, s) := ec_Update ec Cluster (MkSyncerConfig "" "" spec) s in (negb ok, s)).
Proof.
  intros Hne Hsp Hcfg Hnew Hget Hrel Hwf. unfold syncConfigObject.
  rw bool_decide_eq_false_2 // Hsp Hcfg Hnew Hget Hrel. cbn [negb mbind option_bind].
  destruct (syncerConfigIsGood zeroSyncerConfig rel) eqn:Hgood; [left|right].
  - apply syncerConfigIsGood_spec in Hgood as (<- & <- & Hu); [|done]. split_and!; [done..| |done].
    apply dom_empty_inv_L. by rw -Hu.
  - exists (syncerConfigSpecFromRelations rel). unfold zeroSyncerConfig. cbn [scName scResourceVersion].
    by destruct (ec_Update _ _ _ s).
Qed.
End syncing.
