(* ===== verification/WhatResolver.v ===== *)
(** The what resolver (what-resolver.go): it watches, in each workload description space
    (WDS), the EdgePlacements, the API resources and the objects of those resources, and
    tells a receiver, per EdgePlacement, which objects its "what predicate" selects for
    downsync and which upsyncs it asks for.

    Each operation that handles an item of the work queue holds the mutex of the resolver
    from its first access to the state to its end, so it is a function from the state and
    the world of the receiver to new ones, given the contents of the caches and the
    outcome of the client calls at that time ([WhatEnv]).  The result is [None] for a nil
    dereference, and otherwise holds the boolean result, which is [false] to retry.

    Parameters: label selectors and the splitting of an apiVersion (apimachinery), deep
    equality, the caches of informers, the creation of clients and informers.  Stopping
    an informer or a space has no effect on the state. *)

From Stdlib Require Import Ascii.
From Stdlib Require String.
From S2P Require Import Prelude Tuples Interfaces Slices Sets Maps GoStrings Types KbUser.
From S2P Require Import Receivers Differencers SetBinder.

(** * Data *)

(** schema.GroupKind, schema.GroupResource, schema.GroupVersionResource *)
Record GroupKind : Set := MkGroupKind { gkGroup : string; gkKind : string }.
Record SchemaGroupResource : Set := MkSchemaGroupResource { sgrGroup : string; sgrResource : string }.
Record GroupVersionResource : Set := MkGroupVersionResource {
  gvrGroup : string;
  gvrVersion : string;
  gvrResource : string
}.

(** The API types of pkg/apis/meta/v1alpha1 and pkg/apis/edge/v2alpha1, with the fields
    that are read. *)
Record Definer : Set := MkDefiner { dfKind : string; dfName : string }.

Record APIResourceSpec : Set := MkAPIResourceSpec {
  arsName : string;
  arsNamespaced : bool;
  arsGroup : string;
  arsVersion : string;
  arsKind : string;
  arsDefiners : list Definer
}.

Record DownsyncObjectTest (LabelSelector : Type) : Type := MkDownsyncObjectTest {
  dotAPIGroup : option string;
  dotResources : list string;
  dotNamespaces : list string;
  dotNamespaceSelectors : list LabelSelector;
  dotObjectNames : list string;
  dotLabelSelectors : list LabelSelector
}.
Arguments MkDownsyncObjectTest {_} _ _ _ _ _ _.
Arguments dotAPIGroup {_} _.
Arguments dotResources {_} _.
Arguments dotNamespaces {_} _.
Arguments dotNamespaceSelectors {_} _.
Arguments dotObjectNames {_} _.
Arguments dotLabelSelectors {_} _.

Record EdgePlacementSpec (LabelSelector : Type) : Type := MkEdgePlacementSpec {
  epsDownsync : list (DownsyncObjectTest LabelSelector);
  epsWantSingletonReportedState : bool;
  epsUpsync : list UpsyncSet
}.
Arguments MkEdgePlacementSpec {_} _ _ _.
Arguments epsDownsync {_} _.
Arguments epsWantSingletonReportedState {_} _.
Arguments epsUpsync {_} _.

(** The EdgePlacement, here with the part of its spec that says "what". *)
Record WhatEdgePlacement (LabelSelector : Type) : Type := MkWhatEdgePlacement {
  wepMeta : ObjectMeta;
  wepSpec : EdgePlacementSpec LabelSelector
}.
Arguments MkWhatEdgePlacement {_} _ _.
Arguments wepMeta {_} _.
Arguments wepSpec {_} _.

(** An object of the workload: its metadata, its type and, for a Secret, the content of
    its field [type] when that is a string. *)
Record mrObject : Type := MkMrObject {
  moMeta : ObjectMeta;
  moAPIVersion : string;
  moKind : string;
  moType : option string
}.

#[export] Instance GroupKind_eq_dec : EqDecision GroupKind.
Proof. solve_decision. Defined.
#[export] Instance GroupKind_countable : Countable GroupKind.
Proof.
  refine (inj_countable' (λ g, (gkGroup g, gkKind g)) (λ p, MkGroupKind p.1 p.2) _). by intros [].
Defined.
#[export] Instance SchemaGroupResource_eq_dec : EqDecision SchemaGroupResource.
Proof. solve_decision. Defined.
#[export] Instance SchemaGroupResource_countable : Countable SchemaGroupResource.
Proof.
  refine (inj_countable' (λ g, (sgrGroup g, sgrResource g)) (λ p, MkSchemaGroupResource p.1 p.2) _).
  by intros [].
Defined.
#[export] Instance Definer_eq_dec : EqDecision Definer.
Proof. solve_decision. Defined.
#[export] Instance Definer_countable : Countable Definer.
Proof. refine (inj_countable' (λ d, (dfKind d, dfName d)) (λ p, MkDefiner p.1 p.2) _). by intros []. Defined.

(** An [*objectDetails] is its [PlacementBits]. *)
Abbreviation objectDetails := (gmap ObjectName DistributionBits).

Record resourceResolver : Type := MkResourceResolver {
  rrGvr : GroupVersionResource;
  rrByObjName : gmap NamespacedName objectDetails;
  rrDefiners : list Definer
}.

Record workspaceDetails (LabelSelector : Type) : Type := MkWorkspaceDetails {
  wsPlacements : gmap ObjectName (WhatEdgePlacement LabelSelector);
  wsResources : gmap string resourceResolver;
  wsGkToARName : gmap GroupKind string
}.
Arguments MkWorkspaceDetails {_} _ _ _.
Arguments wsPlacements {_} _.
Arguments wsResources {_} _.
Arguments wsGkToARName {_} _.

Record namespacedQueueItem : Type := MkNamespacedQueueItem {
  qGK : GroupKind;
  qCluster : string;
  qNN : NamespacedName
}.

(** * Which resources go to the edge *)

Definition mkgk (group kind : string) : GroupKind := MkGroupKind group kind.
Definition mkgr (group resource : string) : SchemaGroupResource := MkSchemaGroupResource group resource.

Definition GRsForciblyDenatured : MapSet SchemaGroupResource := NewMapSet [
  mkgr "admissionregistration.k8s.io" "mutatingwebhookconfigurations";
  mkgr "admissionregistration.k8s.io" "validatingwebhookconfigurations";
  mkgr "apiregistration.k8s.io" "apiservices";
  mkgr "flowcontrol.apiserver.k8s.io" "flowschemas";
  mkgr "flowcontrol.apiserver.k8s.io" "prioritylevelconfigurations";
  mkgr "rbac.authorization.k8s.io" "clusterroles";
  mkgr "rbac.authorization.k8s.io" "clusterrolebindingss";
  mkgr "rbac.authorization.k8s.io" "roles";
  mkgr "rbac.authorization.k8s.io" "rolebindings";
  mkgr "" "limitranges";
  mkgr "" "resourcequotas";
  mkgr "" "serviceaccounts"].

Definition GRsNaturedInBoth : MapSet SchemaGroupResource := NewMapSet [
  mkgr "apiextensions.k8s.io" "customresourcedefinitions";
  mkgr "" "namespaces"].

Definition GRsNotSupported : MapSet SchemaGroupResource := NewMapSet [
  mkgr "apiresource.kcp.io" "apiresourceimports";
  mkgr "apiresource.kcp.io" "negotiatedapiresources";
  mkgr "apis.kcp.io" "apiconversions"].

Definition GroupsNotForEdge : gset string := list_to_set [
  "edge.kubestellar.io";
  "scheduling.kcp.io";
  "tenancy.kcp.io";
  "topology.kcp.io";
  "workload.kcp.io"].

Definition GRsNotForEdge : MapSet SchemaGroupResource := NewMapSet [
  mkgr "apis.kcp.io" "apiexports";
  mkgr "apis.kcp.io" "apiexportendpointslices";
  mkgr "apis.kcp.io" "apiresourceschemas";
  mkgr "apps" "controllerrevisions";
  mkgr "authentication.k8s.io" "tokenreviews";
  mkgr "authorization.k8s.io" "localsubjectaccessreviews";
  mkgr "authorization.k8s.io" "selfsubjectaccessreviews";
  mkgr "authorization.k8s.io" "selfsubjectrulesreviews";
  mkgr "authorization.k8s.io" "subjectaccessreviews";
  mkgr "certificates.k8s.io" "certificatesigningrequests";
  mkgr "core.kcp.io" "logicalclusters";
  mkgr "core.kcp.io" "shards";
  mkgr "events.k8s.io" "events";
  mkgr "" "bindings";
  mkgr "" "componentstatuses";
  mkgr "" "events";
  mkgr "" "nodes"].

(** strings.Contains *)
Fixpoint str_Contains (s substr : string) : bool :=
  if HasPrefix s substr then true
  else match s with EmptyString => false | String _ s => str_Contains s substr end.

(** strings.HasSuffix *)
Definition HasSuffix (s suffix : string) : bool :=
  (String.length suffix <=? String.length s)%nat
  && bool_decide (str_drop (String.length s - String.length suffix) s = suffix).

Definition MetaGroupResourceToSchema (gr : GroupResource) : SchemaGroupResource :=
  MkSchemaGroupResource (grGroup gr) (grResource gr).
Definition SchemaGroupResourceToMeta (sgr : SchemaGroupResource) : GroupResource :=
  MkGroupResource (sgrGroup sgr) (sgrResource sgr).

Definition DefaultResourceModes (mgr : GroupResource) : ResourceMode :=
  let sgr := MetaGroupResourceToSchema mgr in
  let builtin := HasSuffix (sgrGroup sgr) ".k8s.io" || negb (str_Contains (sgrGroup sgr) ".") in
  if MapSet_Has sgr GRsForciblyDenatured then MkResourceMode GoesToEdge ForciblyDenatured builtin
  else if MapSet_Has sgr GRsNaturedInBoth then MkResourceMode GoesToEdge NaturallyNatured builtin
  else if MapSet_Has sgr GRsNotSupported then MkResourceMode ErrorInCenter NaturallyNatured builtin
  else if bool_decide (sgrGroup sgr ∈ GroupsNotForEdge) || MapSet_Has sgr GRsNotForEdge
  then MkResourceMode TolerateInCenter NaturallyNatured builtin
  else MkResourceMode GoesToEdge NaturalyDenatured builtin.

(** * Matching *)

Definition ObjectIsSystem (obj : mrObject) : bool :=
  if negb (bool_decide (moAPIVersion obj = "v1")) then false
  else if bool_decide (moKind obj = "Secret") then
    let secretType := moType obj in
    bool_decide (secretType = Some "kubernetes.io/service-account-token")
    || bool_decide (secretType = Some "bootstrap.kubernetes.io/token")
  else if bool_decide (moKind obj = "ConfigMap") then
    bool_decide (omName (moMeta obj) = "kube-root-ca.crt")
  else if bool_decide (moKind obj = "ServiceAccount") then
    bool_decide (omName (moMeta obj) = "default")
  else false.

Definition DownsyncOverwriteKey : string := "edge.kubestellar.io/downsync-overwrite".

Definition isCreateOnly (whatObj : mrObject) : bool :=
  bool_decide (get_string (omAnnotations (moMeta whatObj)) DownsyncOverwriteKey = "false").

Definition newObjectDetails : objectDetails := ∅.

(** The contents of the caches and the outcome of creating clients, at one time. *)
Record WhatEnv (LabelSelector Config : Type) : Type := MkWhatEnv {
  edgePlacementLister_Get : string → Lookup (WhatEdgePlacement LabelSelector);
  (** per space *)
  ConfigForSpace : string → string + Config;
  NewDiscoveryClientForConfig : Config → option string;
  dynamic_NewForConfig : Config → option string;
  apiInformer_HasSynced : string → bool;
  apiLister_Get : string → string → Lookup APIResourceSpec;
  (** per space and resource, the lister of a [resourceResolver] *)
  lister_Get : string → GroupVersionResource → NamespaceName → ObjectName → Lookup mrObject;
  (** with its error, which is only logged *)
  lister_List : string → GroupVersionResource → option string * list mrObject
}.
Arguments MkWhatEnv {_ _} _ _ _ _ _ _ _ _.
Arguments edgePlacementLister_Get {_ _} _ _.
Arguments ConfigForSpace {_ _} _ _.
Arguments NewDiscoveryClientForConfig {_ _} _ _.
Arguments dynamic_NewForConfig {_ _} _ _.
Arguments apiInformer_HasSynced {_ _} _ _.
Arguments apiLister_Get {_ _} _ _ _.
Arguments lister_Get {_ _} _ _ _ _ _.
Arguments lister_List {_ _} _ _ _.

Section matching.
Context {LabelSelector Config : Type}.
Context (LabelSelectorAsSelector : LabelSelector → string + (gmap string string → bool)).
(** the group of an apiVersion, as in schema.ParseGroupVersion *)
Context (groupOf : string → string).
Abbreviation WhatEnv := (WhatEnv LabelSelector Config).
Abbreviation workspaceDetails := (workspaceDetails LabelSelector).
Abbreviation EdgePlacement := (WhatEdgePlacement LabelSelector).
Abbreviation EdgePlacementSpec := (EdgePlacementSpec LabelSelector).
Abbreviation DownsyncObjectTest := (DownsyncObjectTest LabelSelector).

Fixpoint labelsMatchAny (labelSet : gmap string string) (selectors : list LabelSelector) : bool :=
  match selectors with
  | [] => false
  | ls :: selectors =>
      match LabelSelectorAsSelector ls with
      | inl _ => labelsMatchAny labelSet selectors
      | inr sel => if sel labelSet then true else labelsMatchAny labelSet selectors
      end
  end.

(** The result is [(match, ok, retry)]. *)
Definition namespaceLabelsMatch (env : WhatEnv) (cluster : string) (wsd : workspaceDetails)
  (objTest : DownsyncObjectTest) (objNS : string) : bool * bool * bool :=
  if (length (dotNamespaceSelectors objTest) =? 0)%nat then (true, true, false)
  else if bool_decide (objNS = "") then
    (labelsMatchAny ∅ (dotNamespaceSelectors objTest), true, false)
  else
    let nsARName := default "" (wsGkToARName wsd !! mkgk "" "Namespace") in
    match wsResources wsd !! nsARName with
    | None => (false, false, false)
    | Some nsRR =>
        match lister_Get env cluster (rrGvr nsRR) "" objNS with
        | LookupError _ => (false, true, false)
        | NotFound => (false, false, true)
        | Found objNSM =>
            (labelsMatchAny (omLabels (moMeta objNSM)) (dotNamespaceSelectors objTest), true, false)
        end
    end.

(** [SliceContains(list, "*") || SliceContains(list, seek)] *)
Definition listMatches (list : list string) (seek : string) : bool :=
  SliceContains list "*" || SliceContains list seek.

Fixpoint downsyncMatches (env : WhatEnv) (cluster : string) (wsd : workspaceDetails)
  (downsync : list DownsyncObjectTest) (whatResource gvkGroup objNS objName : string)
  (objLabels : gmap string string) : bool * bool :=
  match downsync with
  | [] => (false, true)
  | objTest :: downsync =>
      let continue := downsyncMatches env cluster wsd downsync whatResource gvkGroup objNS objName objLabels in
      if match dotAPIGroup objTest with
         | Some group => negb (bool_decide (group = gvkGroup))
         | None => false
         end then continue
      else if (0 <? length (dotResources objTest))%nat && negb (listMatches (dotResources objTest) whatResource)
      then continue
      else if (0 <? length (dotNamespaces objTest))%nat && negb (listMatches (dotNamespaces objTest) objNS)
      then continue
      else
        let '(nsMatch, ok, retry) := namespaceLabelsMatch env cluster wsd objTest objNS in
        if negb ok then (retry, retry)
        else if negb nsMatch then continue
        else if (0 <? length (dotObjectNames objTest))%nat && negb (listMatches (dotObjectNames objTest) objName)
        then continue
        else if (0 <? length (dotLabelSelectors objTest))%nat
                && negb (labelsMatchAny objLabels (dotLabelSelectors objTest))
        then continue
        else (true, true)
  end.

Fixpoint upsyncMatches (upsync : list UpsyncSet) (whatResource gvkGroup objNS objName : string) : bool :=
  match upsync with
  | [] => false
  | objTest :: upsync =>
      let continue := upsyncMatches upsync whatResource gvkGroup objNS objName in
      if negb (bool_decide (usAPIGroup objTest = gvkGroup)) then continue
      else if negb (SliceContains (usResources objTest) "*"
                    || SliceContains (usResources objTest) whatResource) then continue
      else if negb (bool_decide (objNS = ""))
              && negb (SliceContains (usNamespaces objTest) "*"
                       || SliceContains (usResources objTest) objNS) then continue
      else if negb (SliceContains (usNames objTest) "*"
                    || SliceContains (usResources objTest) objName) then continue
      else true
  end.

Definition whatMatches (env : WhatEnv) (cluster : string) (wsd : workspaceDetails)
  (spec : EdgePlacementSpec) (whatResource : string) (whatObj : mrObject) : bool * bool :=
  if ObjectIsSystem whatObj then (false, true)
  else
    let gvkGroup := groupOf (moAPIVersion whatObj) in
    let objNS := omNamespace (moMeta whatObj) in
    let objName := omName (moMeta whatObj) in
    let '(mtch, ok) := downsyncMatches env cluster wsd (epsDownsync spec) whatResource gvkGroup
                         objNS objName (omLabels (moMeta whatObj)) in
    if negb (mtch && ok) then (mtch, ok)
    else (negb (upsyncMatches (epsUpsync spec) whatResource gvkGroup objNS objName), true).

(** The result is [(changed, success)] and the modified [od]. *)
Definition setByMatch (env : WhatEnv) (cluster : string) (wsd : workspaceDetails)
  (spec : EdgePlacementSpec) (epName : ObjectName) (whatResource : string) (whatObj : mrObject)
  (od : objectDetails) : bool * bool * objectDetails :=
  let old := od !! epName in
  let found := bool_decide (is_Some old) in
  let oldDistrBits := default (MkDistributionBits false false) old in
  let newDistrBits := MkDistributionBits (epsWantSingletonReportedState spec) (isCreateOnly whatObj) in
  let '(objMatch, success) := whatMatches env cluster wsd spec whatResource whatObj in
  if negb success then (false, false, od)
  else if eqb objMatch found && (bool_decide (oldDistrBits = newDistrBits) || negb found)
  then (false, true, od)
  else if objMatch then (true, true, <[epName:=newDistrBits]> od)
  else (true, true, delete epName od).

(** [None] for a nil result *)
Definition whatMatchingPlacements `{MapRange} (env : WhatEnv) (cluster : string) (wsd : workspaceDetails)
  (candidates : gmap ObjectName EdgePlacement) (whatResource : string) (whatObj : mrObject)
  : option objectDetails :=
  for_each (map_range candidates) (λ '(epName, ep) ans,
    ans ← ans;
    let '(_, success, ans) := setByMatch env cluster wsd (wepSpec ep) epName whatResource whatObj ans in
    if success : bool then Some ans else None) (Some newObjectDetails).
End matching.

(** * The resolver *)

Definition definerKindToPieces (kind : string) : GroupResource * WorkloadPartDetails :=
  if bool_decide (kind = "CustomResourceDefinition") then
    (MkGroupResource "apiextensions.k8s.io" "customresourcedefinitions",
     MkWorkloadPartDetails "v1" false false)
  else (MkGroupResource "" "", MkWorkloadPartDetails "" false false).

Definition gvr_GroupResource (gvr : GroupVersionResource) : SchemaGroupResource :=
  MkSchemaGroupResource (gvrGroup gvr) (gvrResource gvr).

(** The part that an object of a resource is. *)
Definition part_of (gvr : GroupVersionResource) (objName : NamespacedName) : WorkloadPartID :=
  NewTriple (SchemaGroupResourceToMeta (gvr_GroupResource gvr)) objName.1 objName.2.

Definition definerID (definer : Definer) : WorkloadPartID :=
  NewTriple (definerKindToPieces (dfKind definer)).1 "" (dfName definer).

Section resolver.
Context `{MapRange} {LabelSelector Config : Type}.
Context (LabelSelectorAsSelector : LabelSelector → string + (gmap string string → bool)).
Context (groupOf : string → string).
(** apiequality.Semantic.DeepEqual on lists of tests *)
Context (DeepEqual : list (DownsyncObjectTest LabelSelector) → list (DownsyncObjectTest LabelSelector) → bool).
Context (kbSpaceRelation : KubeBindSpaceRelation).
Context {R : Type} (receiver : MappingReceiver R ExternalName ResolvedWhat).
Abbreviation WhatEnv := (WhatEnv LabelSelector Config).
Abbreviation workspaceDetails := (workspaceDetails LabelSelector).
Abbreviation EdgePlacement := (WhatEdgePlacement LabelSelector).
(** the field [workspaceDetails] *)
Abbreviation whatResolver := (gmap string workspaceDetails).

(** The two loops of [getPartsLocked]. *)
Definition gather_objects (epName : ObjectName) (rr : resourceResolver)
  (parts : gmap WorkloadPartID WorkloadPartDetails) : gmap WorkloadPartID WorkloadPartDetails * bool :=
  for_each (map_range (rrByObjName rr)) (λ '(objName, objDetails) '(parts, gotSome),
    match objDetails !! epName with
    | None => (parts, gotSome)
    | Some distrBits =>
        let partDetails := WorkloadPartDetails_setDistributionBits
                             (MkWorkloadPartDetails (gvrVersion (rrGvr rr)) false false) distrBits in
        (<[part_of (rrGvr rr) objName:=partDetails]> parts, true)
    end) (parts, false).

Definition gather_resources (epName : ObjectName) (resources : gmap string resourceResolver)
  : gmap WorkloadPartID WorkloadPartDetails * MapSet Definer :=
  for_each (map_range resources) (λ '(_, rr) '(parts, definers),
    let '(parts, gotSome) := gather_objects epName rr parts in
    (parts, if gotSome then (SetAddAll (MapSet_AsMutableSet id_cell) (rrDefiners rr) definers).2
            else definers)) (∅, NewEmptyMapSet).

(** The details of an absent part, which [otherDetails] is, are zero. *)
Definition add_definer (definer : Definer) (parts : gmap WorkloadPartID WorkloadPartDetails)
  : gmap WorkloadPartID WorkloadPartDetails :=
  let details := (definerKindToPieces (dfKind definer)).2 in
  match parts !! definerID definer with
  | Some _ => parts
  | None =>
      <[definerID definer :=
          MkWorkloadPartDetails (wpdAPIVersion details)
            (wpdReturnSingletonState details || false) (wpdCreateOnly details)]> parts
  end.

Definition getPartsLocked (wldCluster : string) (epName : ObjectName) (wr : whatResolver) : ResolvedWhat :=
  match wr !! wldCluster with
  | None => MkResolvedWhat (Some ∅) []
  | Some wsDetails =>
      let upsyncs := match wsPlacements wsDetails !! epName with
                     | Some ep => epsUpsync (wepSpec ep)
                     | None => []
                     end in
      let '(parts, definers) := gather_resources epName (wsResources wsDetails) in
      MkResolvedWhat (Some (for_each (set_range definers) add_definer parts)) upsyncs
  end.

Definition notifyReceivers (wldCluster : string) (epName : ObjectName) (wr : whatResolver) (r : R) : R :=
  mr_Put receiver (MkExternalName wldCluster epName) (getPartsLocked wldCluster epName wr) r.

Definition notifyReceiversOfPlacements (cluster : string) (placements : list ObjectName)
  (wr : whatResolver) (r : R) : R :=
  for_each placements (λ epName r, notifyReceivers cluster epName wr r) r.

(** Filled by two enumerations of differences. *)
Definition changed_placements (newDetails oldDetails : objectDetails) : objectDetails :=
  let changed := MappingReceiverDiscardsPrevious (MapMap_AsMutableMap None id_cell) in
  let w := MapEnumerateDifferences (read_map newDetails) (read_map oldDetails) changed
             (NewMapMap id_cell ∅) in
  MapEnumerateDifferences (read_map oldDetails) (read_map newDetails) changed w.

Definition set_resource (arName : string) (rr : resourceResolver) (wsd : workspaceDetails)
  : workspaceDetails :=
  MkWorkspaceDetails (wsPlacements wsd) (<[arName:=rr]> (wsResources wsd)) (wsGkToARName wsd).

Definition set_byObjName (byObjName : gmap NamespacedName objectDetails) (rr : resourceResolver)
  : resourceResolver := MkResourceResolver (rrGvr rr) byObjName (rrDefiners rr).

Definition processCenterObject (env : WhatEnv) (cluster : string) (gk : GroupKind)
  (objName : NamespacedName) (wr : whatResolver) (r : R) : bool * (whatResolver * R) :=
  match wr !! cluster with
  | None => (true, (wr, r))
  | Some wsDetails =>
      match wsGkToARName wsDetails !! gk with
      | None => (true, (wr, r))
      | Some arName =>
          match wsResources wsDetails !! arName with
          | None => (true, (wr, r))
          | Some rr =>
              let store byObjName :=
                <[cluster := set_resource arName (set_byObjName byObjName rr) wsDetails]> wr in
              let oldDetails := default newObjectDetails (rrByObjName rr !! objName) in
              match lister_Get env cluster (rrGvr rr) objName.1 objName.2 with
              | LookupError _ => (true, (wr, r))
              | NotFound =>
                  let wr := store (delete objName (rrByObjName rr)) in
                  let changedPlacements := changed_placements newObjectDetails oldDetails in
                  if (size changedPlacements =? 0)%nat then (true, (wr, r))
                  else (true, (wr, notifyReceiversOfPlacements cluster (map_range changedPlacements).*1 wr r))
              | Found mrObj =>
                  match whatMatchingPlacements LabelSelectorAsSelector groupOf env cluster wsDetails
                          (wsPlacements wsDetails) (gvrResource (rrGvr rr)) mrObj with
                  | None => (false, (wr, r))
                  | Some newDetails =>
                      let changedPlacements := changed_placements newDetails oldDetails in
                      if (size changedPlacements =? 0)%nat then (true, (wr, r))
                      else
                        let wr := store (<[objName:=newDetails]> (rrByObjName rr)) in
                        (true, (wr, notifyReceiversOfPlacements cluster (map_range changedPlacements).*1 wr r))
                  end
              end
          end
      end
  end.

(** The placements that have some object of the resource. *)
Definition placements_of (rr : resourceResolver) : MapSet ObjectName :=
  for_each (map_range (rrByObjName rr)) (λ '(_, objDetails) changedPlacements,
    (SetAddAll (MapSet_AsMutableSet id_cell)
       (set_Visit (MapKeySet (read_map objDetails)) changedPlacements) changedPlacements).2) NewEmptyMapSet.

Definition processResource (env : WhatEnv) (cluster : string) (arName : string)
  (wr : whatResolver) (r : R) : bool * (whatResolver * R) :=
  match wr !! cluster with
  | None => (true, (wr, r))
  | Some wsDetails =>
      let rr := wsResources wsDetails !! arName in
      match apiLister_Get env cluster arName with
      | LookupError _ => (true, (wr, r))
      | NotFound =>
          match rr with
          | None => (true, (wr, r))
          | Some rr =>
              let wr := <[cluster := MkWorkspaceDetails (wsPlacements wsDetails)
                                       (delete arName (wsResources wsDetails)) (wsGkToARName wsDetails)]> wr in
              (true, (wr, notifyReceiversOfPlacements cluster (set_range (placements_of rr)) wr r))
          end
      | Found ar =>
          let gvr := MkGroupVersionResource (arsGroup ar) (arsVersion ar) (arsName ar) in
          let gr := MkSchemaGroupResource (arsGroup ar) (arsName ar) in
          if MapSet_Has gr GRsNotSupported then (true, (wr, r))
          else if MapSet_Has gr GRsNotForEdge || bool_decide (sgrGroup gr ∈ GroupsNotForEdge)
          then (true, (wr, r))
          else
            let gk := MkGroupKind (arsGroup ar) (arsKind ar) in
            match rr with
            | None =>
                let rr := MkResourceResolver gvr ∅ (arsDefiners ar) in
                let wsDetails := MkWorkspaceDetails (wsPlacements wsDetails)
                                   (<[arName:=rr]> (wsResources wsDetails))
                                   (<[gk:=arName]> (wsGkToARName wsDetails)) in
                (true, (<[cluster:=wsDetails]> wr, r))
            | Some rr =>
                let changed := negb (SetEqual (NewSliceSet (rrDefiners rr)) (NewSliceSet (arsDefiners ar)) ()) in
                if changed then
                  let rr := MkResourceResolver (rrGvr rr) (rrByObjName rr) (arsDefiners ar) in
                  let wr := <[cluster := set_resource arName rr wsDetails]> wr in
                  (true, (wr, notifyReceiversOfPlacements cluster (set_range (placements_of rr)) wr r))
                else (true, (wr, r))
            end
      end
  end.

(** The branch for an EdgePlacement that is gone. *)
Definition dropPlacement (epName : ObjectName) (rr : resourceResolver) : resourceResolver :=
  set_byObjName
    (for_each (map_range (rrByObjName rr)) (λ '(objName, objDetails) byObjName,
       let objDetails := delete epName objDetails in
       if (size objDetails =? 0)%nat then delete objName byObjName
       else <[objName:=objDetails]> byObjName) (rrByObjName rr)) rr.

Definition removeEdgePlacement (spaceID : string) (epName : ObjectName) (wsDetails : workspaceDetails)
  (wr : whatResolver) (r : R) : bool * (whatResolver * R) :=
  match wsPlacements wsDetails !! epName with
  | None => (true, (wr, r))
  | Some _ =>
      let wsDetails := MkWorkspaceDetails (delete epName (wsPlacements wsDetails))
                         (dropPlacement epName <$> wsResources wsDetails) (wsGkToARName wsDetails) in
      if (size (wsPlacements wsDetails) =? 0)%nat then
        let wr := delete spaceID wr in
        (true, (wr, notifyReceivers spaceID epName wr r))
      else
        let wr := <[spaceID:=wsDetails]> wr in
        let r := notifyReceivers spaceID epName wr r in
        (true, (wr, notifyReceivers spaceID epName wr r))
  end.

Definition object_NN (mrObj : mrObject) : NamespacedName :=
  NewPair (omNamespace (moMeta mrObj)) (omName (moMeta mrObj)).

(** The loop over the objects of a resource; its state is [byObjName] and the two flags.
    The matching reads of [wsDetails] only what the loops do not change. *)
Definition rematch_object (env : WhatEnv) (spaceID : string) (wsDetails : workspaceDetails)
  (ep : EdgePlacement) (epName : ObjectName) (rr : resourceResolver) (mrObj : mrObject)
  (s : gmap NamespacedName objectDetails * bool * bool) : gmap NamespacedName objectDetails * bool * bool :=
  let '(byObjName, anyChange, completeSuccess) := s in
  let objNN := object_NN mrObj in
  let old := byObjName !! objNN in
  let found := bool_decide (is_Some old) in
  let objDetails := default newObjectDetails old in
  let '(objChange, success, objDetails) :=
    setByMatch LabelSelectorAsSelector groupOf env spaceID wsDetails (wepSpec ep) epName
      (gvrResource (rrGvr rr)) mrObj objDetails in
  if negb success then (byObjName, anyChange, false)
  else (if objChange || found then <[objNN:=objDetails]> byObjName else byObjName,
        anyChange || objChange, completeSuccess).

Definition rematch_resource (env : WhatEnv) (spaceID : string) (wsDetails : workspaceDetails)
  (ep : EdgePlacement) (epName : ObjectName) (rr : resourceResolver) (anyChange completeSuccess : bool)
  : resourceResolver * bool * bool :=
  let '(_, rObjs) := lister_List env spaceID (rrGvr rr) in
  let '(byObjName, anyChange, completeSuccess) :=
    for_each rObjs (rematch_object env spaceID wsDetails ep epName rr)
      (rrByObjName rr, anyChange, completeSuccess) in
  (set_byObjName byObjName rr, anyChange, completeSuccess).

Definition updateEdgePlacement (env : WhatEnv) (spaceID : string) (epName : ObjectName)
  (ep : EdgePlacement) (wsDetails : workspaceDetails) (wr : whatResolver) (r : R)
  : bool * (whatResolver * R) :=
  let prevEp := wsPlacements wsDetails !! epName in
  let wsDetails := MkWorkspaceDetails (<[epName:=ep]> (wsPlacements wsDetails)) (wsResources wsDetails)
                     (wsGkToARName wsDetails) in
  let whatPredicateUnChanged :=
    match prevEp with
    | None => false
    | Some prevEp => DeepEqual (epsDownsync (wepSpec prevEp)) (epsDownsync (wepSpec ep))
    end in
  if whatPredicateUnChanged then (true, (<[spaceID:=wsDetails]> wr, r))
  else
    let '(resources, anyChange, completeSuccess) :=
      for_each (map_range (wsResources wsDetails)) (λ '(arName, rr) '(resources, anyChange, completeSuccess),
        let '(rr, anyChange, completeSuccess) :=
          rematch_resource env spaceID wsDetails ep epName rr anyChange completeSuccess in
        (<[arName:=rr]> resources, anyChange, completeSuccess)) (wsResources wsDetails, false, true) in
    let wr := <[spaceID := MkWorkspaceDetails (wsPlacements wsDetails) resources (wsGkToARName wsDetails)]> wr in
    (completeSuccess, (wr, if anyChange : bool then notifyReceivers spaceID epName wr r else r)).

Definition emptyWorkspace : workspaceDetails := MkWorkspaceDetails ∅ ∅ ∅.

(** [processEdgePlacement] after the analysis of the names. *)
Definition processKnownEdgePlacement (env : WhatEnv) (spaceID : string) (epName : ObjectName)
  (ep : option EdgePlacement) (wr : whatResolver) (r : R) : bool * (whatResolver * R) :=
  match wr !! spaceID, ep with
  | None, None => (true, (wr, r))
  | None, Some ep =>
      match ConfigForSpace env spaceID with
      | inl _ => (true, (wr, r))
      | inr config =>
          if bool_decide (is_Some (NewDiscoveryClientForConfig env config)) then (true, (wr, r))
          else if bool_decide (is_Some (dynamic_NewForConfig env config)) then (true, (wr, r))
          else
            let wr := <[spaceID:=emptyWorkspace]> wr in
            if negb (apiInformer_HasSynced env spaceID) then (true, (wr, r))
            else updateEdgePlacement env spaceID epName ep emptyWorkspace wr r
      end
  | Some wsDetails, None => removeEdgePlacement spaceID epName wsDetails wr r
  | Some wsDetails, Some ep => updateEdgePlacement env spaceID epName ep wsDetails wr r
  end.

Definition processEdgePlacement (env : WhatEnv) (epName : ObjectName) (wr : whatResolver) (r : R)
  : option (bool * (whatResolver * R)) :=
  let go (ep : option EdgePlacement) :=
    '(epOriginalName, kbSpaceID, err) ← AnalyzeClusterScopedObject (wepMeta <$> ep);
    match err with
    | Some _ => Some (true, (wr, r))
    | None =>
        let spaceID := SpaceIDFromKubeBind kbSpaceRelation kbSpaceID in
        if bool_decide (spaceID = "") then Some (false, (wr, r))
        else Some (processKnownEdgePlacement env spaceID epOriginalName ep wr r)
    end in
  match edgePlacementLister_Get env epName with
  | LookupError _ => Some (true, (wr, r))
  | NotFound => go None
  | Found ep => go (Some ep)
  end.

Definition process (env : WhatEnv) (item : namespacedQueueItem) (wr : whatResolver) (r : R)
  : option (bool * (whatResolver * R)) :=
  let gk := qGK item in
  if bool_decide (gkGroup gk = "edge.kubestellar.io") && bool_decide (gkKind gk = "EdgePlacement") then
    processEdgePlacement env (qNN item).2 wr r
  else if bool_decide (gkGroup gk = "meta.kubestellar.io") && bool_decide (gkKind gk = "APIResource") then
    Some (processResource env (qCluster item) (qNN item).2 wr r)
  else Some (processCenterObject env (qCluster item) gk (qNN item) wr r).

(** What becomes of the item that a worker took from the queue. *)
Inductive QueueAction : Set := Forget | AddRateLimited.

Definition processNextWorkItem (env : WhatEnv) (got : option namespacedQueueItem)
  (wr : whatResolver) (r : R) : option (bool * option QueueAction * (whatResolver * R)) :=
  match got with
  | None => Some (false, None, (wr, r))
  | Some item =>
      '(ok, w) ← process env item wr r;
      Some (true, Some (if ok : bool then Forget else AddRateLimited), w)
  end.
End resolver.

(** * Queueing *)

(** The key of an object, [inl] for an error, as computed by client-go.  [None] is a
    panic; [Some None] when nothing is enqueued. *)
Definition enqueue (SplitMetaNamespaceKey : string → string * string) (gk : GroupKind)
  (key : string + string) : option (option namespacedQueueItem) :=
  match key with
  | inl _ => Some None
  | inr key =>
      let '(namespace, name) := SplitMetaNamespaceKey key in
      if negb (bool_decide (namespace = "")) then None
      else Some (Some (MkNamespacedQueueItem gk "" (NewPair "" name)))
  end.

Definition enqueueScoped (SplitMetaNamespaceKey : string → string * string) (gk : GroupKind)
  (cluster : string) (key : string + string) : option namespacedQueueItem :=
  match key with
  | inl _ => None
  | inr key =>
      let '(namespace, name) := SplitMetaNamespaceKey key in
      Some (MkNamespacedQueueItem gk cluster (NewPair namespace name))
  end.
