(* ===== verification/WhatResolverFacts.v ===== *)
(** The what resolver: which parts it reports, that whatever it has recorded has been
    told to its receiver, what it records about an object and an EdgePlacement, and the
    changes that it misses. *)

From S2P Require Import Prelude Tuples Interfaces Slices Sets Maps GoStrings Types KbUser.
From S2P Require Import Receivers Differencers SetBinder WhatResolver.

(** * Loops over the entries of a map *)

(** * Differences of placement bits *)

Lemma enumerate_read_maps `{MapRange} (L Rt m : objectDetails) k :
  MapEnumerateDifferences (read_map L) (read_map Rt)
    (MappingReceiverDiscardsPrevious (MapMap_AsMutableMap None id_cell)) m !! k
  = match L !! k, Rt !! k with
    | Some _, None => None
    | Some l, Some r => if bool_decide (r = l) then m !! k else Some r
    | None, Some r => Some r
    | None, None => m !! k
    end.
Proof.
  unfold MapEnumerateDifferences, MapEnumerateDifferencesParametric. cbv zeta.
  rw (for_each_entries (λ k v o, if L !! k then o else Some v)).
  2:{ intros k' v w. cbn. destruct (L !! k'); [|done]. symmetry. by apply partial_alter_id. }
  rw (for_each_entries (λ k v o,
    match Rt !! k with None => None | Some r => if bool_decide (r = v) then o else Some r end)).
  2:{ intros k' v w. cbn. destruct (Rt !! k') as [r|].
    - case_bool_decide; [|done]. symmetry. by apply partial_alter_id.
    - unfold MapMap_Delete. cbn. destruct (w !! k') eqn:Hw; [done|]. symmetry.
      apply map_eq. intros j. destruct (decide (j = k')) as [-> |]; [by rw lookup_partial_alter_eq|].
      by rw lookup_partial_alter_ne. }
  destruct (L !! k), (Rt !! k); done.
Qed.

(** The placements that gain the object or have other bits for it; those that lose it
    are not among them. *)
Lemma changed_placements_spec `{MapRange} newDetails oldDetails k :
  changed_placements newDetails oldDetails !! k
  = match newDetails !! k with
    | Some b => if bool_decide (oldDetails !! k = Some b) then None else Some b
    | None => None
    end.
Proof.
  unfold changed_placements. rw !enumerate_read_maps. cbn. rw lookup_empty.
  destruct (newDetails !! k) as [n|], (oldDetails !! k) as [o|]; try done.
  repeat case_bool_decide; naive_solver.
Qed.

Lemma changed_placements_empty `{MapRange} newDetails oldDetails :
  (size (changed_placements newDetails oldDetails) =? 0)%nat = true ↔ newDetails ⊆ oldDetails.
Proof.
  rw Nat.eqb_eq map_size_empty_iff map_empty map_subseteq_spec. split; intros Hc k.
  - intros b Hb. specialize (Hc k). rw changed_placements_spec Hb in Hc. by case_bool_decide.
  - rw changed_placements_spec. destruct (newDetails !! k) as [b|] eqn:Hb; [|done].
    by rw bool_decide_true; [|apply Hc].
Qed.

(** * The parts of an EdgePlacement *)

(** The bits of an object for a placement. *)
Definition bits_of (byObjName : gmap NamespacedName objectDetails) (objName : NamespacedName)
  (epName : ObjectName) : option DistributionBits := byObjName !! objName ≫= (.!! epName).

(** [id] is a part of the placement: an object that is recorded to match it, or the
    definer of the resource of such an object. *)
Definition part_in (resources : gmap string resourceResolver) (epName : ObjectName) (id : WorkloadPartID)
  : Prop :=
  ∃ arName rr objName, resources !! arName = Some rr ∧ is_Some (bits_of (rrByObjName rr) objName epName) ∧
    (id = part_of (rrGvr rr) objName ∨ ∃ definer, definer ∈ rrDefiners rr ∧ id = definerID definer).

Section parts.
Context `{MapRange}.

Lemma bits_of_Some byObjName objName epName b :
  bits_of byObjName objName epName = Some b ↔
  ∃ od, byObjName !! objName = Some od ∧ od !! epName = Some b.
Proof. unfold bits_of. rw bind_Some. done. Qed.

Lemma bits_of_default byObjName objName epName :
  default newObjectDetails (byObjName !! objName) !! epName = bits_of byObjName objName epName.
Proof. unfold bits_of, newObjectDetails. by destruct (byObjName !! objName). Qed.

Lemma gather_objects_spec epName rr parts :
  (∀ id, is_Some ((gather_objects epName rr parts).1 !! id) ↔
     is_Some (parts !! id) ∨
     ∃ objName, is_Some (bits_of (rrByObjName rr) objName epName) ∧ id = part_of (rrGvr rr) objName) ∧
  ((gather_objects epName rr parts).2 = true ↔ ∃ objName, is_Some (bits_of (rrByObjName rr) objName epName)).
Proof.
  unfold gather_objects.
  set (has := λ (done : list (NamespacedName * objectDetails)) objName,
    ∃ od : objectDetails, (objName, od) ∈ done ∧ is_Some (od !! epName)).
  assert (∀ objName, is_Some (bits_of (rrByObjName rr) objName epName) ↔ has (map_range (rrByObjName rr)) objName)
    as Hhas.
  { intros objName. unfold has. setoid_rewrite elem_of_map_range. unfold bits_of.
    destruct (rrByObjName rr !! objName) as [od|]; cbn; [|split; [by intros []|by intros (? & ? & _)]].
    split; [by exists od|by intros (? & [= <-] & ?)]. }
  setoid_rewrite Hhas. clear Hhas.
  apply (for_each_ind (λ done s,
    (∀ id, is_Some (s.1 !! id) ↔ is_Some (parts !! id) ∨
       ∃ objName, has done objName ∧ id = part_of (rrGvr rr) objName) ∧
    (s.2 = true ↔ ∃ objName, has done objName))).
  { unfold has. split; [intros id|]; split; try naive_solver;
      [intros [?|(? & (? & Hin & _) & _)]|intros (? & ? & Hin & _)]; try done; by apply not_elem_of_nil in Hin. }
  intros done [objName od] todo [parts' gotSome] _ [Hparts Hgot]. cbn [fst snd] in *.
  assert (∀ on, has (done ++ [(objName, od)]) on ↔ has done on ∨ on = objName ∧ is_Some (od !! epName)) as Hstep.
  { intros on. unfold has. setoid_rewrite elem_of_app. setoid_rewrite list_elem_of_singleton.
    split; [intros (od' & [?|[= -> ->]] & ?); eauto|intros [(od' & ? & ?)|[-> ?]]; eauto]. }
  setoid_rewrite Hstep. clearbody has. clear Hstep.
  destruct (od !! epName) as [b|] eqn:Hod.
  - split.
    + intros id. rw lookup_insert_is_Some Hparts.
      destruct (decide (part_of (rrGvr rr) objName = id)) as [<-|Hne]; [naive_solver|].
      split; [intros [?|[_ [?|(on & ? & ?)]]]; naive_solver|].
      intros [?|(on & [?|[-> _]] & ?)]; naive_solver.
    + split; [intros _; exists objName; naive_solver|done].
  - split.
    + intros id. rw Hparts. split; [naive_solver|]. intros [?|(on & [?|[_ []]] & ?)]; [naive_solver..|done].
    + rw Hgot. split; [intros [on ?]; eauto|]. intros (on & [?|[_ []]]); [eauto|done].
Qed.

Lemma gather_resources_spec epName resources :
  (∀ id, is_Some ((gather_resources epName resources).1 !! id) ↔ ∃ arName rr objName, resources !! arName = Some rr ∧
     is_Some (bits_of (rrByObjName rr) objName epName) ∧ id = part_of (rrGvr rr) objName) ∧
  (∀ definer, definer ∈ (gather_resources epName resources).2 ↔ ∃ arName rr objName, resources !! arName = Some rr ∧
     is_Some (bits_of (rrByObjName rr) objName epName) ∧ definer ∈ rrDefiners rr).
Proof.
  unfold gather_resources. setoid_rewrite <-(elem_of_map_range resources).
  apply (for_each_ind (λ done s,
    (∀ id, is_Some (s.1 !! id) ↔ ∃ arName rr objName, (arName, rr) ∈ done ∧
       is_Some (bits_of (rrByObjName rr) objName epName) ∧ id = part_of (rrGvr rr) objName) ∧
    (∀ definer, definer ∈ s.2 ↔ ∃ arName rr objName, (arName, rr) ∈ done ∧
       is_Some (bits_of (rrByObjName rr) objName epName) ∧ definer ∈ rrDefiners rr))).
  { split; [intros id; rw lookup_empty|intros d]; split; try (by intros []); try set_solver;
      intros (? & ? & ? & Hin & _); by apply not_elem_of_nil in Hin. }
  intros done [arName rr] todo [parts definers] _ [Hparts Hdef]. cbn [fst snd] in *.
  pose proof (gather_objects_spec epName rr parts) as Hg.
  destruct (gather_objects epName rr parts) as [parts' gotSome]. destruct Hg as [Hg Hgot]. cbn [fst snd] in *.
  setoid_rewrite elem_of_app. setoid_rewrite list_elem_of_singleton. split.
  - intros id. rw Hg Hparts. split.
    + intros [(a & r' & on & ? & ?)|(on & ? & ?)]; [by exists a, r', on; eauto|by exists arName, rr, on; eauto].
    + intros (a & r' & on & [?|[= -> ->]] & ? & ?); [left; by exists a, r', on|right; by exists on].
  - intros d. destruct gotSome.
    + rw SetAddAll_MapSet elem_of_union elem_of_list_to_set Hdef. split.
      * intros [?|(a & r' & on & ? & ?)]; [|by exists a, r', on; eauto].
        destruct (proj1 Hgot eq_refl) as [on ?]. exists arName, rr, on. eauto.
      * intros (a & r' & on & [?|[= -> ->]] & ? & ?); [right; by exists a, r', on|by left].
    + rw Hdef. split; intros (a & r' & on & Hin & Hb & ?); [by exists a, r', on; eauto|].
      destruct Hin as [?|[= -> ->]]; [by exists a, r', on|].
      assert (false = true) by (apply Hgot; eauto). done.
Qed.

Lemma add_definers_dom l parts id :
  is_Some (for_each l add_definer parts !! id) ↔
  is_Some (parts !! id) ∨ ∃ definer, definer ∈ l ∧ id = definerID definer.
Proof.
  revert parts. induction l as [|d l IH]; intros parts.
  { split; [by left|]. intros [?|(? & Hin & _)]; [done|by apply not_elem_of_nil in Hin]. }
  rw for_each_cons IH. setoid_rewrite elem_of_cons. unfold add_definer.
  destruct (parts !! definerID d) as [x|] eqn:Hd.
  - split; [naive_solver|]. intros [?|(d' & [-> |?] & ->)]; [by left| |naive_solver]. left. by eexists.
  - rw lookup_insert_is_Some. destruct (decide (definerID d = id)) as [<-|Hne]; [naive_solver|].
    split; [naive_solver|]. intros [?|(d' & [-> |?] & ->)]; naive_solver.
Qed.
End parts.

(** What a receiver was last told. *)
Abbreviation Told := (gmap ExternalName ResolvedWhat).

Section getParts.
Context `{MapRange} {LabelSelector : Type}.
Implicit Types wr : gmap string (workspaceDetails LabelSelector).

Definition resources_of (wr : gmap string (workspaceDetails LabelSelector)) (cluster : string)
  : gmap string resourceResolver := from_option wsResources ∅ (wr !! cluster).

(** The identifiers of the downsynced parts. *)
Definition downsync_ids (what : ResolvedWhat) : gset WorkloadPartID := from_option dom ∅ (rwDownsync what).

Lemma getParts_ids cluster epName wr id :
  id ∈ downsync_ids (getPartsLocked cluster epName wr) ↔ part_in (resources_of wr cluster) epName id.
Proof.
  unfold getPartsLocked, resources_of, downsync_ids.
  destruct (wr !! cluster) as [wsd|]; cbn [from_option].
  - pose proof (gather_resources_spec epName (wsResources wsd)) as [Hparts Hdef].
    destruct (gather_resources epName (wsResources wsd)) as [parts definers]. cbn [fst snd rwDownsync from_option] in *.
    rw elem_of_dom add_definers_dom Hparts. setoid_rewrite elem_of_set_range. setoid_rewrite Hdef. unfold part_in.
    split.
    + intros [(a & rr & on & ? & ? & ?)|(d & (a & rr & on & ? & ? & ?) & ?)]; exists a, rr, on; eauto 6.
    + intros (a & rr & on & ? & ? & [?|(d & ? & ?)]); [left; by exists a, rr, on|].
      right. exists d. split; [by exists a, rr, on|done].
  - cbn. rw dom_empty elem_of_empty. split; [done|]. by intros (? & ? & ? & Hl & _).
Qed.

(** * The receiver *)

(** A receiver that remembers the last value it was given for each EdgePlacement. *)
Definition recorder : MappingReceiver Told ExternalName ResolvedWhat := MapMap_AsMutableMap None id_cell.

Definition told_ids (told : Told) (cluster : string) (epName : ObjectName) : gset WorkloadPartID :=
  from_option downsync_ids ∅ (told !! MkExternalName cluster epName).

(** Everything that the resolver has on record has been told. *)
Definition Informed (wr : gmap string (workspaceDetails LabelSelector)) (told : Told) : Prop :=
  ∀ cluster epName id, part_in (resources_of wr cluster) epName id → id ∈ told_ids told cluster epName.

Lemma notify_told cluster epName wr told cluster' epName' :
  told_ids (notifyReceivers recorder cluster epName wr told) cluster' epName'
  = if decide (cluster = cluster' ∧ epName = epName') then downsync_ids (getPartsLocked cluster epName wr)
    else told_ids told cluster' epName'.
Proof.
  unfold told_ids, notifyReceivers. cbn. destruct (decide _) as [[-> ->]|Hne].
  - by rw lookup_insert_eq.
  - rw lookup_insert_ne //. intros [= -> ->]. by apply Hne.
Qed.

Lemma notify_Informed cluster epName wr told :
  Informed wr told → Informed wr (notifyReceivers recorder cluster epName wr told).
Proof.
  intros Hi c e id Hid. rw notify_told. destruct (decide _) as [[-> ->]|]; [by apply getParts_ids|by apply Hi].
Qed.

Lemma notifies_told cluster l wr told c e :
  told_ids (notifyReceiversOfPlacements recorder cluster l wr told) c e
  = if decide (cluster = c ∧ e ∈ l) then downsync_ids (getPartsLocked c e wr) else told_ids told c e.
Proof.
  unfold notifyReceiversOfPlacements. revert told. induction l as [|x l IH]; intros told.
  { rw decide_False //. by intros [_ ?%not_elem_of_nil]. }
  rw for_each_cons IH notify_told.
  destruct (decide (cluster = c)) as [-> |Hc].
  - destruct (decide (e ∈ l)) as [Hin|Hin].
    + rw !decide_True //; [split; [done|]; by apply elem_of_cons; right].
    + rw decide_False; [|naive_solver]. destruct (decide (x = e)) as [-> |Hx].
      * rw !decide_True //. split; [done|]. apply elem_of_cons. by left.
      * rw !decide_False //; [|naive_solver]. intros [_ [?|?]%elem_of_cons]; naive_solver.
  - rw !decide_False //; naive_solver.
Qed.

(** A change of the state after which the placements that gained something are told. *)
Lemma notifies_Informed cluster l wr wr' told :
  Informed wr told →
  (∀ c e id, part_in (resources_of wr' c) e id → part_in (resources_of wr c) e id ∨ cluster = c ∧ e ∈ l) →
  Informed wr' (notifyReceiversOfPlacements recorder cluster l wr' told).
Proof.
  intros Hi Hgain c e id Hid. rw notifies_told. destruct (decide _) as [[-> ?]|Hne].
  - by apply getParts_ids.
  - destruct (Hgain c e id Hid) as [?|?]; [by apply Hi|done].
Qed.

Lemma resources_of_insert cluster wsd wr c :
  resources_of (<[cluster:=wsd]> wr) c = if decide (cluster = c) then wsResources wsd else resources_of wr c.
Proof.
  unfold resources_of. destruct (decide _) as [-> |]; [by rw lookup_insert_eq|by rw lookup_insert_ne].
Qed.
End getParts.

(** * What is recorded *)

Section operations.
Context `{MapRange} {LabelSelector Config : Type}.
Context (LabelSelectorAsSelector : LabelSelector → string + (gmap string string → bool)).
Context (groupOf : string → string).
Context (DeepEqual : list (DownsyncObjectTest LabelSelector) → list (DownsyncObjectTest LabelSelector) → bool).
Context (kbSpaceRelation : KubeBindSpaceRelation).
Abbreviation WhatEnv := (WhatEnv LabelSelector Config).
Abbreviation workspaceDetails := (workspaceDetails LabelSelector).
Abbreviation whatResolver := (gmap string workspaceDetails).
Abbreviation whatMatches := (whatMatches LabelSelectorAsSelector groupOf).
Abbreviation setByMatch := (setByMatch LabelSelectorAsSelector groupOf).
Abbreviation whatMatchingPlacements := (whatMatchingPlacements LabelSelectorAsSelector groupOf).
Implicit Types (env : WhatEnv) (wr : whatResolver) (wsd : workspaceDetails).

(** The bits that an object should have for a placement. *)
Definition wanted_bits env (cluster : string) wsd (spec : EdgePlacementSpec LabelSelector)
  (whatResource : string) (whatObj : mrObject) : option DistributionBits :=
  if (whatMatches env cluster wsd spec whatResource whatObj).1
  then Some (MkDistributionBits (epsWantSingletonReportedState spec) (isCreateOnly whatObj))
  else None.

Lemma setByMatch_spec env cluster wsd spec epName rsc obj od :
  setByMatch env cluster wsd spec epName rsc obj od
  = if (whatMatches env cluster wsd spec rsc obj).2
    then (negb (bool_decide (od !! epName = wanted_bits env cluster wsd spec rsc obj)), true,
          partial_alter (λ _, wanted_bits env cluster wsd spec rsc obj) epName od)
    else (false, false, od).
Proof.
  unfold WhatResolver.setByMatch, wanted_bits.
  destruct (whatMatches env cluster wsd spec rsc obj) as [objMatch []]; cbn [fst snd negb]; [|done].
  set (b := MkDistributionBits (epsWantSingletonReportedState spec) (isCreateOnly obj)).
  destruct objMatch; cbn [eqb].
  - destruct (od !! epName) as [o|] eqn:Ho.
    + rw (bool_decide_true (is_Some (Some o))); [|done]. cbn.
      case_bool_decide as Hb; cbn.
      * subst o. rw bool_decide_true //. cbn. f_equal. symmetry. by apply partial_alter_id.
      * rw bool_decide_false; [done|naive_solver].
    + rw (bool_decide_false (is_Some None)); [done|by intros []].
  - destruct (od !! epName) as [o|] eqn:Ho.
    + rw (bool_decide_true (is_Some (Some o))); [|done]. done.
    + rw (bool_decide_false (is_Some None)); [|by intros []]. cbn. rw orb_true_r. f_equal. symmetry. by apply partial_alter_id.
Qed.

Lemma whatMatchingPlacements_Some env cluster wsd candidates rsc obj m :
  whatMatchingPlacements env cluster wsd candidates rsc obj = Some m →
  ∀ epName, m !! epName = candidates !! epName ≫= λ ep, wanted_bits env cluster wsd (wepSpec ep) rsc obj.
Proof.
  unfold WhatResolver.whatMatchingPlacements. intros Hm epName.
  set (f := λ (e : ObjectName * WhatEdgePlacement LabelSelector) (ans : objectDetails),
    partial_alter (λ _, wanted_bits env cluster wsd (wepSpec e.2) rsc obj) e.1 ans).
  assert (∀ l (od : objectDetails), for_each l (λ '(epName, ep) ans, ans ← ans;
      let '(_, success, ans) := setByMatch env cluster wsd (wepSpec ep) epName rsc obj ans in
      if success : bool then Some ans else None) (Some od) = Some m → m = for_each l f od) as Hloop.
  { assert (∀ l, for_each l (λ '(epName, ep) ans, ans ← ans;
      let '(_, success, ans) := setByMatch env cluster wsd (wepSpec ep) epName rsc obj ans in
      if success : bool then Some ans else None) None = None) as Hnone.
    { induction l as [|[] l IH]; [done|]. by rw for_each_cons. }
    induction l as [|[n ep] l IH]; intros od; [by intros [= ->]|].
    rw !for_each_cons. cbn [mbind option_bind]. rw setByMatch_spec.
    destruct (whatMatches env cluster wsd (wepSpec ep) rsc obj).2; [apply IH|by rw Hnone]. }
  rw (Hloop _ _ Hm) (for_each_entries (λ _ ep _, wanted_bits env cluster wsd (wepSpec ep) rsc obj)); [|done].
  unfold newObjectDetails. rw lookup_empty. by destruct (candidates !! epName).
Qed.

Lemma whatMatchingPlacements_is_Some env cluster wsd candidates rsc obj :
  is_Some (whatMatchingPlacements env cluster wsd candidates rsc obj) ↔
  ∀ epName ep, candidates !! epName = Some ep → (whatMatches env cluster wsd (wepSpec ep) rsc obj).2 = true.
Proof.
  unfold WhatResolver.whatMatchingPlacements. setoid_rewrite <-elem_of_map_range.
  generalize newObjectDetails. induction (map_range candidates) as [|[n ep] l IH]; intros od.
  { split; [intros _ ? ? Hin; by apply not_elem_of_nil in Hin|done]. }
  rw for_each_cons. cbn [mbind option_bind]. rw setByMatch_spec. setoid_rewrite elem_of_cons.
  destruct (whatMatches env cluster wsd (wepSpec ep) rsc obj).2 eqn:Hs.
  - rw IH. split; [intros Hall a b [[= -> ->]|?]; [done|eauto]|eauto].
  - split; [|intros Hall; specialize (Hall n ep); rw Hs in Hall; naive_solver].
    intros Hsome. exfalso. clear -Hsome. induction l as [|[] l IH]; [by destruct Hsome|].
    by rw for_each_cons in Hsome.
Qed.

(** * Whatever is recorded has been told *)

Abbreviation processCenterObject := (processCenterObject LabelSelectorAsSelector groupOf recorder).
Abbreviation updateEdgePlacement := (updateEdgePlacement LabelSelectorAsSelector groupOf DeepEqual recorder).
Abbreviation rematch_object := (rematch_object LabelSelectorAsSelector groupOf).
Abbreviation rematch_resource := (rematch_resource LabelSelectorAsSelector groupOf).

(** The record of one resource changes. *)
Lemma part_in_set_resource resources arName rr rr' epName id :
  resources !! arName = Some rr → rrGvr rr' = rrGvr rr →
  part_in (<[arName:=rr']> resources) epName id →
  part_in resources epName id ∨
  ∃ objName, is_Some (bits_of (rrByObjName rr') objName epName) ∧
    (bits_of (rrByObjName rr) objName epName = None ∨ rrDefiners rr' ≠ rrDefiners rr).
Proof.
  intros Hrr Hgvr (ar & r & on & Hl & Hb & Hid).
  apply lookup_insert_Some in Hl as [[<- <-]|[_ Hl]]; [|left; by exists ar, r, on].
  destruct (bits_of (rrByObjName rr) on epName) eqn:Hold; [|right; exists on; eauto].
  destruct (decide (rrDefiners rr' = rrDefiners rr)) as [Hd|]; [|right; exists on; eauto].
  left. exists arName, rr, on. rw Hold -Hgvr -Hd. eauto.
Qed.

Lemma center_Informed env cluster gk objName wr told :
  Informed wr told →
  Informed (processCenterObject env cluster gk objName wr told).2.1
    (processCenterObject env cluster gk objName wr told).2.2.
Proof.
  intros Hi. unfold WhatResolver.processCenterObject.
  destruct (wr !! cluster) as [wsd|] eqn:Hwsd; [|done].
  destruct (wsGkToARName wsd !! gk) as [arName|]; [|done].
  destruct (wsResources wsd !! arName) as [rr|] eqn:Hrr; [|done]. cbv zeta.
  assert (∀ by' l,
    (∀ on e, is_Some (bits_of by' on e) → bits_of (rrByObjName rr) on e = None → e ∈ l) →
    let wr' := <[cluster := set_resource arName (set_byObjName by' rr) wsd]> wr in
    Informed wr' (notifyReceiversOfPlacements recorder cluster l wr' told)) as Hstore.
  { intros by' l Hl wr'. apply (notifies_Informed _ _ wr); [done|]. intros c e id. unfold wr'.
    rw resources_of_insert. destruct (decide (cluster = c)) as [<-|]; [|by left].
    cbn [wsResources set_resource]. intros Hid.
    destruct (part_in_set_resource _ _ _ (set_byObjName by' rr) _ _ Hrr eq_refl Hid) as [Hp|(on & Hb & [Hold|Hd])].
    - left. unfold resources_of. by rw Hwsd.
    - right. split; [done|]. by eapply Hl.
    - by destruct Hd. }
  assert (∀ od on e, is_Some (bits_of (<[objName:=od]> (rrByObjName rr)) on e) →
    bits_of (rrByObjName rr) on e = None → is_Some (od !! e) ∧ default newObjectDetails (rrByObjName rr !! objName) !! e = None)
    as Hins.
  { intros od on e. unfold bits_of. destruct (decide (objName = on)) as [<-|Hne].
    - rw lookup_insert_eq. cbn. intros ? Ho. split; [done|]. by destruct (rrByObjName rr !! objName).
    - rw lookup_insert_ne //. by intros [? ->]. }
  destruct (lister_Get env cluster (rrGvr rr) objName.1 objName.2) as [obj| |]; [| |done].
  - destruct (whatMatchingPlacements _ _ _ _ _ _) as [new|]; [|done].
    destruct (Nat.eqb _ _); [done|]. apply Hstore. intros on e Hb Ho.
    destruct (Hins _ _ _ Hb Ho) as [[b Hnew] Hold]. apply list_elem_of_fmap.
    exists (e, b). split; [done|]. apply elem_of_map_range. rw changed_placements_spec Hnew Hold. done.
  - assert (∀ on e, is_Some (bits_of (delete objName (rrByObjName rr)) on e) →
      bits_of (rrByObjName rr) on e = None → e ∈ @nil ObjectName) as Hdel.
    { intros on e. unfold bits_of. destruct (decide (objName = on)) as [<-|Hne].
      - rw lookup_delete_eq. by intros [].
      - rw lookup_delete_ne //. by intros [? ->]. }
    destruct (Nat.eqb _ _); [exact (Hstore _ [] Hdel)|].
    apply Hstore. intros on e Hb Ho. destruct (not_elem_of_nil e). exact (Hdel on e Hb Ho).
Qed.

Lemma placements_of_spec rr e : e ∈ placements_of rr ↔ ∃ on, is_Some (bits_of (rrByObjName rr) on e).
Proof.
  unfold placements_of, bits_of.
  assert (∀ (l : list (NamespacedName * objectDetails)) (X : MapSet ObjectName),
    e ∈ for_each l (λ '(_, od) X,
      (SetAddAll (MapSet_AsMutableSet id_cell) (set_Visit (MapKeySet (read_map od)) X) X).2) X ↔
    e ∈ X ∨ ∃ (on : NamespacedName) (od : objectDetails), (on, od) ∈ l ∧ is_Some (od !! e)) as Hloop.
  { induction l as [|[on od] l IH]; intros X.
    { split; [by left|]. intros [?|(? & ? & Hin & _)]; [done|by apply not_elem_of_nil in Hin]. }
    rw for_each_cons IH SetAddAll_MapSet elem_of_union elem_of_list_to_set.
    assert (e ∈ set_Visit (MapKeySet (read_map od)) X ↔ is_Some (od !! e)) as ->.
    { cbn. rw list_elem_of_fmap. split.
      - intros ([k v] & -> & Hin%elem_of_map_range). by exists v.
      - intros [v Hv]. exists (e, v). split; [done|]. by apply elem_of_map_range. }
    setoid_rewrite elem_of_cons. split.
    - intros [[?|?]|(on' & od' & ? & ?)]; [|by left|]; right; [by exists on, od; eauto|by exists on', od'; eauto].
    - intros [?|(on' & od' & [[= -> ->]|?] & ?)]; [by left; right|by left; left|right; by exists on', od']. }
  rw Hloop. unfold NewEmptyMapSet. setoid_rewrite elem_of_map_range. split.
  - intros [?|(on & od & Hod & ?)]; [set_solver|]. exists on. by rw Hod.
  - intros [on [b (od & Hod & ?)%bind_Some]]. right. exists on, od. split; [done|by eexists].
Qed.

Lemma resource_Informed env cluster arName wr told :
  Informed wr told →
  Informed (processResource recorder env cluster arName wr told).2.1
    (processResource recorder env cluster arName wr told).2.2.
Proof.
  intros Hi. unfold processResource. destruct (wr !! cluster) as [wsd|] eqn:Hwsd; [|done]. cbv zeta.
  assert (resources_of wr cluster = wsResources wsd) as Hres by (unfold resources_of; by rw Hwsd).
  destruct (apiLister_Get env cluster arName) as [ar| |]; [| |done].
  - destruct (MapSet_Has _ _); [done|]. destruct (_ || _); [done|].
    destruct (wsResources wsd !! arName) as [rr|] eqn:Hrr.
    + destruct (negb _); [|done]. cbn [snd fst]. apply (notifies_Informed _ _ wr); [done|]. intros c e id.
      rw resources_of_insert. destruct (decide (cluster = c)) as [<-|]; [|by left].
      cbn [wsResources set_resource]. rw Hres. intros Hid. pose proof Hid as (ar' & r & on & Hl & Hb & Hid').
      destruct (part_in_set_resource _ _ _ (MkResourceResolver (rrGvr rr) (rrByObjName rr) (arsDefiners ar)) _ _
                  Hrr eq_refl Hid) as [?|(on' & Hb' & _)]; [by left|].
      right. split; [done|]. apply elem_of_set_range, placements_of_spec. by exists on'.
    + cbn [snd fst]. intros c e id. rw resources_of_insert.
      destruct (decide (cluster = c)) as [<-|]; [|by apply Hi]. cbn [wsResources].
      intros (a & r & on & Hl & Hb & Hid). apply Hi. rw Hres. exists a, r, on.
      apply lookup_insert_Some in Hl as [[<- <-]|[_ Hl]]; [by destruct Hb|done].
  - destruct (wsResources wsd !! arName) as [rr|] eqn:Hrr; [|done]. cbn [snd fst].
    apply (notifies_Informed _ _ wr); [done|]. intros c e id. rw resources_of_insert.
    destruct (decide (cluster = c)) as [<-|]; [|by left]. cbn [wsResources]. rw Hres.
    intros (a & r & on & [_ Hl]%lookup_delete_Some & Hb & Hid). left. by exists a, r, on.
Qed.

(** ** EdgePlacements *)

(** The bits of the other placements stay, and those of this one too if no change is noted. *)
Lemma rematch_object_frame env spaceID wsd ep epName rr obj byObjName anyChange completeSuccess :
  let s := rematch_object env spaceID wsd ep epName rr obj (byObjName, anyChange, completeSuccess) in
  (s.1.2 = false → anyChange = false) ∧
  ∀ on e, e ≠ epName ∨ s.1.2 = false → bits_of s.1.1 on e = bits_of byObjName on e.
Proof.
  unfold WhatResolver.rematch_object. cbv zeta. set (objNN := object_NN obj). clearbody objNN.
  rw setByMatch_spec. destruct (whatMatches _ _ _ _ _ _).2; cbn [negb]; [|done].
  set (want := wanted_bits _ _ _ _ _ _). set (od := default newObjectDetails (byObjName !! objNN)).
  destruct (bool_decide_reflect (od !! epName = want)) as [Hod|Hod]; cbn [negb orb fst snd].
  - rw orb_false_r. split; [done|]. intros on e _. case_bool_decide as Hf; [|done].
    unfold bits_of. destruct (decide (objNN = on)) as [<-|]; [|by rw lookup_insert_ne].
    rw lookup_insert_eq -Hod. destruct Hf as [od' Hod']. unfold od. rw Hod'. cbn.
    by rw partial_alter_id.
  - rw orb_true_r. split; [done|]. intros on e [Hne|]; [|done]. unfold bits_of.
    destruct (decide (objNN = on)) as [<-|]; [|by rw lookup_insert_ne].
    rw lookup_insert_eq. cbn. rw lookup_partial_alter_ne; [|done]. unfold od. by destruct (byObjName !! objNN).
Qed.

Lemma rematch_resource_frame env spaceID wsd ep epName rr anyChange completeSuccess :
  let s := rematch_resource env spaceID wsd ep epName rr anyChange completeSuccess in
  (s.1.2 = false → anyChange = false) ∧ rrGvr s.1.1 = rrGvr rr ∧ rrDefiners s.1.1 = rrDefiners rr ∧
  ∀ on e, e ≠ epName ∨ s.1.2 = false → bits_of (rrByObjName s.1.1) on e = bits_of (rrByObjName rr) on e.
Proof.
  unfold WhatResolver.rematch_resource. destruct (lister_List env spaceID (rrGvr rr)) as [err rObjs].
  assert (∀ s0, let s := for_each rObjs (rematch_object env spaceID wsd ep epName rr) s0 in
    (s.1.2 = false → s0.1.2 = false) ∧
    ∀ on e, e ≠ epName ∨ s.1.2 = false → bits_of s.1.1 on e = bits_of s0.1.1 on e) as Hloop.
  { induction rObjs as [|obj rObjs IH]; intros s0; [done|]. cbv zeta. rw for_each_cons. destruct s0 as [[by0 a0] c0].
    pose proof (rematch_object_frame env spaceID wsd ep epName rr obj by0 a0 c0) as [Ha1 Hb1].
    specialize (IH (rematch_object env spaceID wsd ep epName rr obj (by0, a0, c0))) as [Ha2 Hb2].
    split; [by intros ?%Ha2%Ha1|]. intros on e He. rw Hb2 //. apply Hb1. destruct He; eauto. }
  specialize (Hloop (rrByObjName rr, anyChange, completeSuccess)). cbv zeta in Hloop |- *.
  destruct (for_each rObjs _ _) as [[by' a'] c']. cbn [fst snd set_byObjName rrGvr rrDefiners rrByObjName] in *.
  naive_solver.
Qed.

(** The loop over the resources. *)
Definition rematch_resources env spaceID wsd ep epName
  : gmap string resourceResolver * bool * bool :=
  for_each (map_range (wsResources wsd)) (λ '(arName, rr) '(resources, anyChange, completeSuccess),
    let '(rr, anyChange, completeSuccess) :=
      rematch_resource env spaceID wsd ep epName rr anyChange completeSuccess in
    (<[arName:=rr]> resources, anyChange, completeSuccess)) (wsResources wsd, false, true).

Lemma rematch_resources_frame env spaceID wsd ep epName :
  let s := rematch_resources env spaceID wsd ep epName in
  ∀ arName rr', s.1.1 !! arName = Some rr' →
    ∃ rr, wsResources wsd !! arName = Some rr ∧ rrGvr rr' = rrGvr rr ∧ rrDefiners rr' = rrDefiners rr ∧
    ∀ on e, e ≠ epName ∨ s.1.2 = false → bits_of (rrByObjName rr') on e = bits_of (rrByObjName rr) on e.
Proof.
  unfold rematch_resources. cbv zeta.
  apply (for_each_ind (λ _ s, ∀ arName rr', s.1.1 !! arName = Some rr' →
    ∃ rr, wsResources wsd !! arName = Some rr ∧ rrGvr rr' = rrGvr rr ∧ rrDefiners rr' = rrDefiners rr ∧
    ∀ on e, e ≠ epName ∨ s.1.2 = false → bits_of (rrByObjName rr') on e = bits_of (rrByObjName rr) on e)).
  { intros arName rr' Hl. by exists rr'. }
  intros done [arName rr] todo [[resources a] c] Hl IH. cbn [fst snd] in *.
  pose proof (rematch_resource_frame env spaceID wsd ep epName rr a c) as (Ha & Hg & Hd & Hb).
  destruct (rematch_resource env spaceID wsd ep epName rr a c) as [[rr1 a1] c1]. cbn [fst snd] in *.
  intros arName' rr' [[<- <-]|[Hne Hrr']]%lookup_insert_Some.
  - exists rr. split; [|done]. apply elem_of_map_range. rw Hl. set_solver.
  - destruct (IH _ _ Hrr') as (rr0 & ? & ? & ? & Hb0). exists rr0. split_and!; [done..|].
    intros on e [?|?]; apply Hb0; eauto.
Qed.

Lemma update_Informed env spaceID epName ep wsd wr told :
  Informed wr told → resources_of wr spaceID = wsResources wsd →
  Informed (updateEdgePlacement env spaceID epName ep wsd wr told).2.1
    (updateEdgePlacement env spaceID epName ep wsd wr told).2.2.
Proof.
  intros Hi Hres. unfold WhatResolver.updateEdgePlacement. cbv zeta.
  set (wsd' := MkWorkspaceDetails (<[epName:=ep]> (wsPlacements wsd)) _ _).
  destruct (match wsPlacements wsd !! epName with Some _ => _ | None => false end).
  { cbn [fst snd]. intros c e id. rw resources_of_insert. destruct (decide (spaceID = c)) as [<-|]; [|apply Hi].
    cbn. rw -Hres. apply Hi. }
  pose proof (rematch_resources_frame env spaceID wsd' ep epName) as Hf. cbv zeta in Hf.
  unfold rematch_resources in Hf. destruct (for_each (map_range (wsResources wsd')) _ _) as [[res any] ok].
  cbn [fst snd] in *. set (wr' := <[spaceID:=_]> wr).
  assert (∀ c e id, part_in (resources_of wr' c) e id →
    part_in (resources_of wr c) e id ∨ spaceID = c ∧ e ∈ (if any then [epName] else [])) as Hgain.
  { intros c e id. unfold wr'. rw resources_of_insert. destruct (decide (spaceID = c)) as [<-|]; [|by left].
    cbn [wsResources]. intros (ar & rr' & on & Hl & Hb & Hid). destruct (Hf _ _ Hl) as (rr & Hrr & Hg & Hd & Hbits).
    destruct (decide (e = epName ∧ any = true)) as [[-> ->]|Hne].
    { right. split; [done|]. by apply list_elem_of_singleton. }
    left. rw Hres. exists ar, rr, on. rw -Hg -Hd -Hbits //. destruct (decide (e = epName)); [|by left].
    right. destruct any; naive_solver. }
  destruct any; [|exact (notifies_Informed spaceID [] wr wr' told Hi Hgain)].
  exact (notifies_Informed spaceID [epName] wr wr' told Hi Hgain).
Qed.

Lemma dropPlacement_bits epName rr on e :
  bits_of (rrByObjName (dropPlacement epName rr)) on e
  = if decide (e = epName) then None else bits_of (rrByObjName rr) on e.
Proof.
  unfold dropPlacement, bits_of. cbn [rrByObjName set_byObjName].
  rw (for_each_entries (λ _ od _, if (size (delete epName od) =? 0)%nat then None else Some (delete epName od))).
  2:{ intros k od w. by destruct (Nat.eqb _ _). }
  destruct (rrByObjName rr !! on) as [od|]; cbn; [|by destruct (decide _)].
  destruct (Nat.eqb_spec (size (delete epName od)) 0) as [Hz|_]; cbn.
  - destruct (decide (e = epName)) as [|Hne]; [done|]. apply map_size_empty_iff in Hz.
    by rw -(lookup_delete_ne od epName) // Hz.
  - destruct (decide (e = epName)) as [-> |Hne]; [by rw lookup_delete_eq|by rw lookup_delete_ne].
Qed.

Lemma remove_Informed spaceID epName wsd wr told :
  Informed wr told → resources_of wr spaceID = wsResources wsd →
  Informed (removeEdgePlacement recorder spaceID epName wsd wr told).2.1
    (removeEdgePlacement recorder spaceID epName wsd wr told).2.2.
Proof.
  intros Hi Hres. unfold removeEdgePlacement. destruct (wsPlacements wsd !! epName); [|done]. cbv zeta.
  destruct (Nat.eqb _ _); cbn [fst snd]; repeat apply notify_Informed; intros c e id Hid; apply Hi.
  - unfold resources_of in *. destruct (decide (spaceID = c)) as [<-|Hne].
    + rw lookup_delete_eq in Hid. by destruct Hid as (? & ? & ? & Hl & _).
    + by rw lookup_delete_ne in Hid.
  - rw resources_of_insert in Hid. destruct (decide (spaceID = c)) as [<-|]; [|done]. rw Hres.
    destruct Hid as (ar & rr' & on & Hl & Hb & Hid). cbn [wsResources] in Hl.
    rw lookup_fmap in Hl. apply fmap_Some in Hl as (rr & Hrr & ->). exists ar, rr, on.
    rw dropPlacement_bits in Hb. split; [done|]. destruct (decide (e = epName)); [by destruct Hb|done].
Qed.

Abbreviation processKnownEdgePlacement :=
  (processKnownEdgePlacement LabelSelectorAsSelector groupOf DeepEqual recorder).
Abbreviation process := (process LabelSelectorAsSelector groupOf DeepEqual kbSpaceRelation recorder).

Lemma known_Informed env spaceID epName ep wr told :
  Informed wr told →
  Informed (processKnownEdgePlacement env spaceID epName ep wr told).2.1
    (processKnownEdgePlacement env spaceID epName ep wr told).2.2.
Proof.
  intros Hi. unfold WhatResolver.processKnownEdgePlacement.
  destruct (wr !! spaceID) as [wsd|] eqn:Hwsd, ep as [ep|]; [| |cbv zeta|done].
  - apply update_Informed; [done|]. unfold resources_of. by rw Hwsd.
  - apply remove_Informed; [done|]. unfold resources_of. by rw Hwsd.
  - destruct (ConfigForSpace env spaceID) as [|config]; [done|]. do 2 (case_bool_decide; [done|]).
    assert (Informed (<[spaceID:=emptyWorkspace]> wr) told) as Hi'.
    { intros c e id. rw resources_of_insert. destruct (decide (spaceID = c)); [|apply Hi].
      by intros (? & ? & ? & ? & _). }
    destruct (apiInformer_HasSynced env spaceID); cbn [negb]; [|done].
    apply update_Informed; [done|]. rw resources_of_insert. by rw decide_True.
Qed.

Lemma process_Informed env item wr told res :
  Informed wr told → process env item wr told = Some res → Informed res.2.1 res.2.2.
Proof.
  intros Hi. unfold WhatResolver.process. cbv zeta. destruct (_ && _).
  - unfold processEdgePlacement. cbv zeta. destruct (edgePlacementLister_Get env (qNN item).2) as [ep| |];
      [|done|by intros [= <-]].
    cbn. destruct (AnalyzeObject (wepMeta ep)) as [[n kb] err]. cbn. destruct err; [by intros [= <-]|].
    case_bool_decide; [by intros [= <-]|]. intros [= <-]. by apply known_Informed.
  - destruct (_ && _); intros [= <-]; [by apply resource_Informed|by apply center_Informed].
Qed.

(** * Runs *)

(** The items that the workers take from the queue, one after the other, each with the
    environment at that time.  The workers' operations exclude each other. *)
Fixpoint run (steps : list (WhatEnv * namespacedQueueItem)) (wr : whatResolver) (told : Told)
  : option (whatResolver * Told) :=
  match steps with
  | [] => Some (wr, told)
  | (env, item) :: steps => '(_, (wr, told)) ← process env item wr told; run steps wr told
  end.

Lemma run_Informed steps wr told wr' told' :
  Informed wr told → run steps wr told = Some (wr', told') → Informed wr' told'.
Proof.
  revert wr told. induction steps as [|[env item] steps IH]; intros wr told Hi; cbn [run]; [by intros [= <- <-]|].
  destruct (process env item wr told) as [[b [wr1 told1]]|] eqn:Hp; [|done]. cbn [mbind option_bind].
  apply IH. exact (process_Informed _ _ _ _ _ Hi Hp).
Qed.

Lemma empty_Informed : Informed (∅ : whatResolver) ∅.
Proof. by intros c e i (? & ? & ? & ? & _). Qed.

(** C24: whatever the workers have processed, in whatever environment, each part that the
    resolver would report for an EdgePlacement now (an object that it has on record as
    matching, or the definer of such an object's resource) is a part that it told its
    receiver the last time it told it about that EdgePlacement: nothing that matches is
    forgotten. *)
Theorem what_resolver_tells_all steps wr told cluster epName id :
  run steps ∅ ∅ = Some (wr, told) →
  id ∈ downsync_ids (getPartsLocked cluster epName wr) →
  id ∈ told_ids told cluster epName.
Proof. intros Hr Hid%getParts_ids. exact (run_Informed _ _ _ _ _ empty_Informed Hr _ _ _ Hid). Qed.

(** * What is recorded about an object *)

(** The state in which an object of a known resource is handled. *)
Definition KnownResource wr (cluster : string) (gk : GroupKind) wsd (arName : string) (rr : resourceResolver)
  : Prop :=
  wr !! cluster = Some wsd ∧ wsGkToARName wsd !! gk = Some arName ∧ wsResources wsd !! arName = Some rr.

(** The bits on record for an object. *)
Definition recorded wr (cluster arName : string) (objName : NamespacedName) (epName : ObjectName)
  : option DistributionBits :=
  rr ← resources_of wr cluster !! arName; bits_of (rrByObjName rr) objName epName.

Lemma recorded_set_resource wr cluster arName rr wsd objName epName :
  recorded (<[cluster := set_resource arName rr wsd]> wr) cluster arName objName epName
  = bits_of (rrByObjName rr) objName epName.
Proof. unfold recorded. rw resources_of_insert decide_True //. cbn. by rw lookup_insert_eq. Qed.

Lemma recorded_part wr cluster arName rr objName epName :
  resources_of wr cluster !! arName = Some rr → is_Some (recorded wr cluster arName objName epName) →
  part_in (resources_of wr cluster) epName (part_of (rrGvr rr) objName).
Proof. unfold recorded. intros Hrr. rw Hrr. cbn. intros Hb. exists arName, rr, objName. eauto. Qed.

(** After an object that exists has been handled without a need to retry, each
    EdgePlacement of its space whose predicate matches the object has the object on
    record, with the bits that the placement and the object ask for, and has it among
    the parts last told to the receiver. *)
Theorem center_object_matches_told env cluster gk objName wr told wsd arName rr obj epName ep :
  Informed wr told → KnownResource wr cluster gk wsd arName rr →
  lister_Get env cluster (rrGvr rr) objName.1 objName.2 = Found obj →
  wsPlacements wsd !! epName = Some ep →
  whatMatches env cluster wsd (wepSpec ep) (gvrResource (rrGvr rr)) obj = (true, true) →
  let '(ok, (wr', told')) := processCenterObject env cluster gk objName wr told in
  ok = true →
  recorded wr' cluster arName objName epName
    = Some (MkDistributionBits (epsWantSingletonReportedState (wepSpec ep)) (isCreateOnly obj)) ∧
  part_of (rrGvr rr) objName ∈ told_ids told' cluster epName.
Proof.
  intros Hi (Hwsd & Hgk & Hrr) Hobj Hep Hm.
  pose proof (center_Informed env cluster gk objName wr told Hi) as Hi'.
  assert (resources_of wr cluster = wsResources wsd) as Hres by (unfold resources_of; by rw Hwsd).
  unfold WhatResolver.processCenterObject in *. rw Hwsd Hgk Hrr Hobj in Hi' |- *.
  destruct (whatMatchingPlacements _ _ _ _ _ _) as [new|] eqn:Hnew; [|done]. cbv zeta in *.
  assert (new !! epName = Some (MkDistributionBits (epsWantSingletonReportedState (wepSpec ep)) (isCreateOnly obj)))
    as Hbits.
  { rw (whatMatchingPlacements_Some _ _ _ _ _ _ _ Hnew) Hep. cbn. unfold wanted_bits. by rw Hm. }
  destruct (Nat.eqb _ _) eqn:Hz; cbn [fst snd] in Hi'; intros _.
  - apply changed_placements_empty in Hz. pose proof (lookup_weaken _ _ _ _ Hbits Hz) as Hold.
    assert (recorded wr cluster arName objName epName
      = Some (MkDistributionBits (epsWantSingletonReportedState (wepSpec ep)) (isCreateOnly obj))) as Hrec.
    { unfold recorded. rw Hres Hrr. cbn. by rw -bits_of_default. }
    split; [done|]. apply Hi', (recorded_part _ _ arName); [by rw Hres|by rw Hrec].
  - assert (recorded (<[cluster:=set_resource arName (set_byObjName (<[objName:=new]> (rrByObjName rr)) rr) wsd]> wr)
      cluster arName objName epName
      = Some (MkDistributionBits (epsWantSingletonReportedState (wepSpec ep)) (isCreateOnly obj))) as Hrec.
    { rw recorded_set_resource. cbn [rrByObjName set_byObjName]. unfold bits_of. by rw lookup_insert_eq. }
    split; [done|]. apply Hi'.
    apply (recorded_part _ _ arName (set_byObjName (<[objName:=new]> (rrByObjName rr)) rr)); [|by rw Hrec].
    rw resources_of_insert decide_True //. cbn. by rw lookup_insert_eq.
Qed.

(** ** What is missed *)

Section any_receiver.
Context {R : Type} (receiver : MappingReceiver R ExternalName ResolvedWhat).

(** When an object of the workload has been deleted, its record is removed but the
    receiver is told nothing, whatever placements the object was downsynced for: the
    second enumeration of differences removes from [changedPlacements] the placements
    that the first one put there. *)
Theorem center_object_deletion_untold env cluster gk objName wr r wsd arName rr :
  KnownResource wr cluster gk wsd arName rr →
  lister_Get env cluster (rrGvr rr) objName.1 objName.2 = NotFound →
  WhatResolver.processCenterObject LabelSelectorAsSelector groupOf receiver env cluster gk objName wr r
  = (true, (<[cluster := set_resource arName (set_byObjName (delete objName (rrByObjName rr)) rr) wsd]> wr, r)).
Proof.
  intros (Hwsd & Hgk & Hrr) Hobj. unfold WhatResolver.processCenterObject. rw Hwsd Hgk Hrr Hobj. cbv zeta.
  rw (proj2 (changed_placements_empty newObjectDetails _)) //. apply map_empty_subseteq.
Qed.

(** Likewise when an object stops matching some placements and does not start to match
    any: then even the record stays. *)
Theorem center_object_loss_unnoticed env cluster gk objName wr r wsd arName rr obj :
  KnownResource wr cluster gk wsd arName rr →
  lister_Get env cluster (rrGvr rr) objName.1 objName.2 = Found obj →
  (∀ epName ep, wsPlacements wsd !! epName = Some ep →
     (whatMatches env cluster wsd (wepSpec ep) (gvrResource (rrGvr rr)) obj).2 = true) →
  (∀ epName ep b, wsPlacements wsd !! epName = Some ep →
     wanted_bits env cluster wsd (wepSpec ep) (gvrResource (rrGvr rr)) obj = Some b →
     bits_of (rrByObjName rr) objName epName = Some b) →
  WhatResolver.processCenterObject LabelSelectorAsSelector groupOf receiver env cluster gk objName wr r
  = (true, (wr, r)).
Proof.
  intros (Hwsd & Hgk & Hrr) Hobj Hok Hhad. unfold WhatResolver.processCenterObject. rw Hwsd Hgk Hrr Hobj. cbv zeta.
  apply whatMatchingPlacements_is_Some in Hok as [new Hnew]. rw Hnew.
  rw (proj2 (changed_placements_empty new _)) //. apply map_subseteq_spec. intros epName b Hb.
  rw (whatMatchingPlacements_Some _ _ _ _ _ _ _ Hnew) in Hb. apply bind_Some in Hb as (ep & Hep & Hb).
  rw bits_of_default. exact (Hhad _ _ _ Hep Hb).
Qed.
End any_receiver.

(** * What is recorded about an EdgePlacement *)

Lemma rematch_object_exact env spaceID wsd ep epName rr obj s :
  let s' := rematch_object env spaceID wsd ep epName rr obj s in
  (s'.2 = true → s.2 = true ∧ bits_of s'.1.1 (object_NN obj) epName
      = wanted_bits env spaceID wsd (wepSpec ep) (gvrResource (rrGvr rr)) obj) ∧
  ∀ on, on ≠ object_NN obj → s'.1.1 !! on = s.1.1 !! on.
Proof.
  destruct s as [[by0 a0] c0]. unfold WhatResolver.rematch_object. cbv zeta. set (nn := object_NN obj). clearbody nn.
  rw setByMatch_spec. destruct (whatMatches _ _ _ _ _ _).2; cbn [negb fst snd]; [|done].
  set (want := wanted_bits _ _ _ _ _ _). set (od := default newObjectDetails (by0 !! nn)).
  destruct (_ || _) eqn:Hc; (split; [intros ->; split; [done|]|intros on Hon]).
  - unfold bits_of. rw lookup_insert_eq. cbn. by rw lookup_partial_alter_eq.
  - by rw lookup_insert_ne.
  - apply orb_false_iff in Hc as [Hod _]. apply negb_false_iff, bool_decide_eq_true in Hod.
    by rw -bits_of_default.
  - done.
Qed.

Lemma rematch_resource_exact env spaceID wsd ep epName rr a c :
  NoDup (object_NN <$> (lister_List env spaceID (rrGvr rr)).2) →
  let s := rematch_resource env spaceID wsd ep epName rr a c in
  s.2 = true → c = true ∧ ∀ obj, obj ∈ (lister_List env spaceID (rrGvr rr)).2 →
    bits_of (rrByObjName s.1.1) (object_NN obj) epName
    = wanted_bits env spaceID wsd (wepSpec ep) (gvrResource (rrGvr rr)) obj.
Proof.
  unfold WhatResolver.rematch_resource. destruct (lister_List env spaceID (rrGvr rr)) as [err rObjs]. cbn [snd].
  intros Hnd.
  assert (∀ s0, let s := for_each rObjs (rematch_object env spaceID wsd ep epName rr) s0 in
    (s.2 = true → s0.2 = true ∧ ∀ obj, obj ∈ rObjs → bits_of s.1.1 (object_NN obj) epName
      = wanted_bits env spaceID wsd (wepSpec ep) (gvrResource (rrGvr rr)) obj) ∧
    ∀ on, on ∉ object_NN <$> rObjs → s.1.1 !! on = s0.1.1 !! on) as Hloop.
  { induction rObjs as [|obj rObjs IH]; intros s0.
    { split; [|done]. split; [done|]. intros obj Hin. by apply not_elem_of_nil in Hin. }
    apply NoDup_cons in Hnd as [Hnotin Hnd]. cbv zeta. rw for_each_cons.
    pose proof (rematch_object_exact env spaceID wsd ep epName rr obj s0) as [H1 Hf1].
    specialize (IH Hnd (rematch_object env spaceID wsd ep epName rr obj s0)) as [H2 Hf2]. split.
    - intros Hs. destruct (H2 Hs) as [Hs1 Hbits]. destruct (H1 Hs1) as [Hs0 Hb0]. split; [done|].
      intros o [-> |Ho]%elem_of_cons; [|by apply Hbits]. rw -Hb0. unfold bits_of. by rw (Hf2 _ Hnotin).
    - intros on Hon. rw Hf2; [|set_solver]. apply Hf1. set_solver. }
  specialize (Hloop (rrByObjName rr, a, c)) as [Hloop _]. cbv zeta in *.
  destruct (for_each rObjs _ _) as [[by' a'] c']. cbn [fst snd set_byObjName rrByObjName] in *. done.
Qed.

Lemma rematch_resources_exact env spaceID wsd ep epName :
  let s := rematch_resources env spaceID wsd ep epName in
  s.2 = true →
  ∀ arName rr, wsResources wsd !! arName = Some rr →
    NoDup (object_NN <$> (lister_List env spaceID (rrGvr rr)).2) →
    ∃ rr', s.1.1 !! arName = Some rr' ∧
      ∀ obj, obj ∈ (lister_List env spaceID (rrGvr rr)).2 →
        bits_of (rrByObjName rr') (object_NN obj) epName
        = wanted_bits env spaceID wsd (wepSpec ep) (gvrResource (rrGvr rr)) obj.
Proof.
  unfold rematch_resources. cbv zeta. setoid_rewrite <-(elem_of_map_range (wsResources wsd)).
  pose proof (NoDup_map_range_fst (wsResources wsd)) as Hkeys.
  apply (for_each_ind (λ done s, s.2 = true → ∀ arName rr, (arName, rr) ∈ done →
    NoDup (object_NN <$> (lister_List env spaceID (rrGvr rr)).2) →
    ∃ rr', s.1.1 !! arName = Some rr' ∧ ∀ obj, obj ∈ (lister_List env spaceID (rrGvr rr)).2 →
        bits_of (rrByObjName rr') (object_NN obj) epName
        = wanted_bits env spaceID wsd (wepSpec ep) (gvrResource (rrGvr rr)) obj)).
  { intros _ arName rr Hin. by apply not_elem_of_nil in Hin. }
  intros done [arName rr] todo [[res a] c] Hl IH. cbn [fst snd] in *.
  pose proof (rematch_resource_exact env spaceID wsd ep epName rr a c) as Hex.
  assert (c = false → (rematch_resource env spaceID wsd ep epName rr a c).2 = false) as Hmono.
  { intros ->. unfold WhatResolver.rematch_resource. destruct (lister_List _ _ _) as [e rObjs]. clear.
    generalize (rrByObjName rr) as by0. revert a. induction rObjs as [|o rObjs IH]; intros a by0; [done|].
    rw for_each_cons. unfold WhatResolver.rematch_object at 2. cbv zeta.
    destruct (setByMatch _ _ _ _ _ _ _ _) as [[ch []] od]; apply IH. }
  destruct (rematch_resource env spaceID wsd ep epName rr a c) as [[rr1 a1] c1]. cbn [fst snd] in *.
  intros -> ar' rr' [Hin|[= -> ->]%list_elem_of_singleton]%elem_of_app Hnd.
  - destruct (IH ltac:(by destruct c; [|specialize (Hmono eq_refl)]) _ _ Hin Hnd) as (rr2 & Hrr2 & Hb).
    exists rr2. split; [|done]. rw lookup_insert_ne //. intros <-.
    rw Hl fmap_app NoDup_app in Hkeys. destruct Hkeys as (_ & Hdisj & _).
    apply (Hdisj arName); [by apply list_elem_of_fmap; exists (arName, rr')|]. set_solver.
  - exists rr1. rw lookup_insert_eq. split; [done|]. by apply Hex.
Qed.

(** The matching does not look at the other placements. *)
Lemma whatMatches_placements env cluster wsd placements spec rsc obj :
  whatMatches env cluster (MkWorkspaceDetails placements (wsResources wsd) (wsGkToARName wsd)) spec rsc obj
  = whatMatches env cluster wsd spec rsc obj.
Proof.
  unfold WhatResolver.whatMatches. destruct (ObjectIsSystem obj); [done|]. cbv zeta.
  assert (∀ tests g ns n ls, downsyncMatches LabelSelectorAsSelector env cluster
      (MkWorkspaceDetails placements (wsResources wsd) (wsGkToARName wsd)) tests rsc g ns n ls
    = downsyncMatches LabelSelectorAsSelector env cluster wsd tests rsc g ns n ls) as Heq.
  { induction tests as [|t tests IH]; intros; [done|]. cbn [downsyncMatches]. by rw IH. }
  by rw Heq.
Qed.

(** ** What the predicate means *)

(** What the comments on [DownsyncObjectTest] say of its lists: an empty one matches everything,
    and so does one with a star; only a star matches the namespace of a cluster-scoped object. *)
Definition listed (l : list string) (x : string) : Prop := l = [] ∨ "*" ∈ l ∨ x ∈ l.
Definition listed_namespace (l : list string) (ns : string) : Prop := l = [] ∨ "*" ∈ l ∨ ns ≠ "" ∧ ns ∈ l.
Definition selected (selectors : list LabelSelector) (labels : gmap string string) : Prop :=
  selectors = [] ∨ ∃ ls sel, ls ∈ selectors ∧ LabelSelectorAsSelector ls = inr sel ∧ sel labels = true.

(** The test admits an object of the resource and the group whose namespace has the labels,
    none for a cluster-scoped object. *)
Record admits (t : DownsyncObjectTest LabelSelector) (resource group : string) (nsLabels : gmap string string)
  (obj : mrObject) : Prop := MkAdmits {
  admits_group g : dotAPIGroup t = Some g → g = group;
  admits_resource : listed (dotResources t) resource;
  admits_namespace : listed_namespace (dotNamespaces t) (omNamespace (moMeta obj));
  admits_namespace_labels : selected (dotNamespaceSelectors t) nsLabels;
  admits_name : listed (dotObjectNames t) (omName (moMeta obj));
  admits_labels : selected (dotLabelSelectors t) (omLabels (moMeta obj))
}.

(** An EdgePlacement is to have an object downsynced if one of its tests admits it, and it is
    not an object of the system. *)
Definition to_downsync (spec : EdgePlacementSpec LabelSelector) (resource : string) (nsLabels : gmap string string)
  (obj : mrObject) : Prop :=
  ObjectIsSystem obj = false ∧ ∃ t, t ∈ epsDownsync spec ∧ admits t resource (groupOf (moAPIVersion obj)) nsLabels obj.

(** The labels of the namespace of an object, if they are known. *)
Definition namespace_labels env (cluster : string) wsd (ns : string) : option (gmap string string) :=
  if decide (ns = "") then Some ∅
  else
    nsRR ← wsResources wsd !! default "" (wsGkToARName wsd !! mkgk "" "Namespace");
    match lister_Get env cluster (rrGvr nsRR) "" ns with Found o => Some (omLabels (moMeta o)) | _ => None end.

Lemma labelsMatchAny_spec labels selectors :
  labelsMatchAny LabelSelectorAsSelector labels selectors = true ↔
  ∃ ls sel, ls ∈ selectors ∧ LabelSelectorAsSelector ls = inr sel ∧ sel labels = true.
Proof.
  induction selectors as [|ls selectors IH]; cbn [labelsMatchAny].
  { split; [done|]. by intros (? & ? & []%not_elem_of_nil & _). }
  assert ((∃ x sel, x ∈ ls :: selectors ∧ LabelSelectorAsSelector x = inr sel ∧ sel labels = true) ↔
    (∃ sel, LabelSelectorAsSelector ls = inr sel ∧ sel labels = true) ∨
    labelsMatchAny LabelSelectorAsSelector labels selectors = true) as ->.
  { rw IH. split.
    - intros (x & sel & [-> |Hx]%elem_of_cons & ? & ?); [left; by exists sel|right; by exists x, sel].
    - intros [(sel & ? & ?)|(x & sel & Hx & ? & ?)]; [exists ls, sel|exists x, sel];
        (split; [by apply elem_of_cons; auto|done]). }
  destruct (LabelSelectorAsSelector ls) as [err|sel]; [split; [by right|by intros [(? & ? & _)|?]]|].
  destruct (sel labels) eqn:Hsel; [split; [|done]; intros _; left; by exists sel|]. split; [by right|].
  by intros [(? & [= <-] & ?)|?]; [congruence|].
Qed.

Lemma selected_spec selectors labels :
  selected selectors labels ↔
  (0 <? length selectors)%nat && negb (labelsMatchAny LabelSelectorAsSelector labels selectors) = false.
Proof.
  unfold selected. rw -labelsMatchAny_spec. destruct selectors as [|ls selectors]; cbn [length andb Nat.ltb Nat.leb]; [naive_solver|].
  rw negb_false_iff. naive_solver.
Qed.

Lemma listed_spec l x : listed l x ↔ (0 <? length l)%nat && negb (listMatches l x) = false.
Proof.
  unfold listed, listMatches. rw !SliceContains_spec. destruct l as [|y l]; cbn [length andb Nat.ltb Nat.leb]; [naive_solver|].
  rw negb_false_iff orb_true_iff !bool_decide_eq_true. naive_solver.
Qed.

Lemma listed_namespace_spec l ns : "" ∉ l → listed_namespace l ns ↔ listed l ns.
Proof. intros Hl. unfold listed_namespace, listed. split; [naive_solver|]. intros [?|[?|Hin]]; [naive_solver..|]. right. right. by split; [intros ->|]. Qed.

(** The namespace of the object is known as far as the test looks at it. *)
Definition namespace_settled env cluster wsd (nsLabels : gmap string string) (ns : string)
  (t : DownsyncObjectTest LabelSelector) : Prop :=
  dotNamespaceSelectors t = [] ∨ namespace_labels env cluster wsd ns = Some nsLabels.

Lemma namespaceLabelsMatch_spec env cluster wsd nsLabels ns t :
  namespace_settled env cluster wsd nsLabels ns t →
  ∃ b, namespaceLabelsMatch LabelSelectorAsSelector env cluster wsd t ns = (b, true, false) ∧
    (b = true ↔ selected (dotNamespaceSelectors t) nsLabels).
Proof.
  intros Hns. assert (∀ labels, dotNamespaceSelectors t ≠ [] →
    labelsMatchAny LabelSelectorAsSelector labels (dotNamespaceSelectors t) = true ↔
    selected (dotNamespaceSelectors t) labels) as Hany.
  { intros labels Hne. unfold selected. rw labelsMatchAny_spec. split; [by right|]. by intros [?|?]. }
  unfold namespaceLabelsMatch. destruct (decide (dotNamespaceSelectors t = [])) as [Hsel|Hsel].
  { rw Hsel. exists true. split; [done|]. split; [by left|done]. }
  destruct (length _ =? 0)%nat eqn:Hlen; [by apply Nat.eqb_eq, length_zero_iff_nil in Hlen|].
  destruct Hns as [He|Hns]; [done|]. unfold namespace_labels in Hns. destruct (decide (ns = "")) as [-> |Hne].
  - injection Hns as <-. rw bool_decide_eq_true_2 //. eexists. split; [reflexivity|]. by apply Hany.
  - rw bool_decide_eq_false_2 //. cbv zeta.
    destruct (wsResources wsd !! _) as [nsRR|]; [|done]. cbn in Hns.
    destruct (lister_Get _ _ _ _ _) as [o| |]; [|done..]. injection Hns as <-. eexists. split; [reflexivity|]. by apply Hany.
Qed.

(** The tests are made as the comments say. *)
Lemma downsyncMatches_spec env cluster wsd nsLabels resource group obj tests :
  (∀ t, t ∈ tests → namespace_settled env cluster wsd nsLabels (omNamespace (moMeta obj)) t ∧ "" ∉ dotNamespaces t) →
  ∃ b, downsyncMatches LabelSelectorAsSelector env cluster wsd tests resource group (omNamespace (moMeta obj))
         (omName (moMeta obj)) (omLabels (moMeta obj)) = (b, true) ∧
    (b = true ↔ ∃ t, t ∈ tests ∧ admits t resource group nsLabels obj).
Proof.
  induction tests as [|t tests IH]; intros Ht; cbn [downsyncMatches].
  { exists false. split; [done|]. split; [done|]. by intros (? & []%not_elem_of_nil & _). }
  destruct IH as (b & -> & Hb); [intros; apply Ht; by apply elem_of_cons; right|].
  destruct (Ht t) as [Hset Hplain]; [by left|]. clear Ht.
  assert (∀ c, (c = true ↔ admits t resource group nsLabels obj ∨ b = true) →
    c = true ↔ ∃ t', t' ∈ t :: tests ∧ admits t' resource group nsLabels obj) as Hcons.
  { intros c ->. rw Hb. setoid_rewrite elem_of_cons. naive_solver. }
  assert (¬ admits t resource group nsLabels obj → ∃ b0, (b, true) = (b0, true) ∧
    (b0 = true ↔ ∃ t', t' ∈ t :: tests ∧ admits t' resource group nsLabels obj)) as Hnext.
  { intros Hno. exists b. split; [done|]. apply Hcons. naive_solver. }
  destruct (match dotAPIGroup t with Some g => _ | None => _ end) eqn:Hg.
  { apply Hnext. intros [Hgr _ _ _ _ _]. destruct (dotAPIGroup t) as [g|]; [|done].
    rw (Hgr g eq_refl) bool_decide_eq_true_2 // in Hg. }
  destruct (_ && negb (listMatches (dotResources t) resource)) eqn:Hr.
  { apply Hnext. intros [_ Hx%listed_spec _ _ _ _]. by rw Hr in Hx. }
  destruct (_ && negb (listMatches (dotNamespaces t) _)) eqn:Hn.
  { apply Hnext. intros [_ _ Hx _ _ _]. apply listed_namespace_spec, listed_spec in Hx; [|done]. by rw Hn in Hx. }
  destruct (namespaceLabelsMatch_spec env cluster wsd nsLabels (omNamespace (moMeta obj)) t Hset) as (nsMatch & -> & Hns).
  cbn [negb]. destruct nsMatch; cbn [negb]; cycle 1.
  { apply Hnext. intros [_ _ _ Hx%Hns _ _]. done. }
  destruct (_ && negb (listMatches (dotObjectNames t) _)) eqn:Ho.
  { apply Hnext. intros [_ _ _ _ Hx%listed_spec _]. by rw Ho in Hx. }
  destruct (_ && negb (labelsMatchAny _ _ (dotLabelSelectors t))) eqn:Hl.
  { apply Hnext. intros [_ _ _ _ _ Hx%selected_spec]. by rw Hl in Hx. }
  exists true. split; [done|]. apply Hcons. split; [|done]. intros _. left. split.
  - intros g Hgr. rw Hgr in Hg. by apply negb_false_iff, bool_decide_eq_true in Hg.
  - by apply listed_spec.
  - by apply listed_namespace_spec, listed_spec.
  - by apply Hns.
  - by apply listed_spec.
  - by apply selected_spec.
Qed.

(** No upsync set of the EdgePlacement is about the group and the resource. *)
Definition not_upsynced (spec : EdgePlacementSpec LabelSelector) (resource group : string) : Prop :=
  ∀ u, u ∈ epsUpsync spec → usAPIGroup u ≠ group ∨ "*" ∉ usResources u ∧ resource ∉ usResources u.

Lemma whatMatches_spec env cluster wsd nsLabels spec resource obj :
  (∀ t, t ∈ epsDownsync spec →
     namespace_settled env cluster wsd nsLabels (omNamespace (moMeta obj)) t ∧ "" ∉ dotNamespaces t) →
  not_upsynced spec resource (groupOf (moAPIVersion obj)) →
  (whatMatches env cluster wsd spec resource obj).1 = true ↔ to_downsync spec resource nsLabels obj.
Proof.
  intros Ht Hup. unfold WhatResolver.whatMatches, to_downsync.
  destruct (ObjectIsSystem obj); [naive_solver|]. cbv zeta.
  destruct (downsyncMatches_spec env cluster wsd nsLabels resource (groupOf (moAPIVersion obj)) obj (epsDownsync spec) Ht)
    as (b & -> & Hb).
  assert (∀ ns n, upsyncMatches (epsUpsync spec) resource (groupOf (moAPIVersion obj)) ns n = false) as Hnone.
  { intros ns n. unfold not_upsynced in Hup. induction (epsUpsync spec) as [|u us IH]; [done|]. cbn [upsyncMatches].
    rw IH; [|intros; apply Hup; by apply elem_of_cons; right]. destruct (Hup u) as [Hg|[Hs Hr]]; [by left|..].
    - by rw bool_decide_eq_false_2.
    - rw !SliceContains_spec (bool_decide_eq_false_2 ("*" ∈ usResources u)) // (bool_decide_eq_false_2 (resource ∈ usResources u)) //.
      by destruct (negb (bool_decide _)). }
  rw Hnone. rw -Hb. destruct b; cbn; naive_solver.
Qed.

(** C28: when a new EdgePlacement, or one whose downsync predicate has changed, has been
    handled without a need to retry, every object in the caches of its space, where objects
    have different names, is on record for it exactly if it is to be downsynced, and then with
    the bits of the EdgePlacement and of the annotation of the object. What is to be downsynced
    is as the comments on the API say, except that for a cluster-scoped object the namespace
    selectors are tried on no labels: what one of the object tests admits by group, resource,
    namespace, labels of the namespace, name and labels, and is not an object of the system.
    This holds of objects whose namespace, if a test selects by its labels, is watched and known,
    and for whose group and resource the EdgePlacement has no upsync set; and no test lists an
    empty string as a namespace. *)
Theorem edge_placement_recorded_exactly env spaceID epName ep wr told wsd arName rr obj nsLabels :
  wr !! spaceID = Some wsd → wsResources wsd !! arName = Some rr →
  (∀ prevEp, wsPlacements wsd !! epName = Some prevEp →
     DeepEqual (epsDownsync (wepSpec prevEp)) (epsDownsync (wepSpec ep)) = false) →
  NoDup (object_NN <$> (lister_List env spaceID (rrGvr rr)).2) →
  obj ∈ (lister_List env spaceID (rrGvr rr)).2 →
  (∀ t, t ∈ epsDownsync (wepSpec ep) →
     namespace_settled env spaceID wsd nsLabels (omNamespace (moMeta obj)) t ∧ "" ∉ dotNamespaces t) →
  not_upsynced (wepSpec ep) (gvrResource (rrGvr rr)) (groupOf (moAPIVersion obj)) →
  let '(ok, (wr', _)) := processKnownEdgePlacement env spaceID epName (Some ep) wr told in
  ok = true →
  let record := recorded wr' spaceID arName (object_NN obj) epName in
  (to_downsync (wepSpec ep) (gvrResource (rrGvr rr)) nsLabels obj →
   ∃ bits, record = Some bits ∧ dbReturnSingletonState bits = epsWantSingletonReportedState (wepSpec ep) ∧
     (dbCreateOnly bits = true ↔ omAnnotations (moMeta obj) !! DownsyncOverwriteKey = Some "false")) ∧
  (¬ to_downsync (wepSpec ep) (gvrResource (rrGvr rr)) nsLabels obj → record = None).
Proof.
  intros Hwsd Hrr Hchanged Hnd Hobj Htests Hup.
  pose proof (whatMatches_spec env spaceID wsd nsLabels (wepSpec ep) (gvrResource (rrGvr rr)) obj Htests Hup) as Hspec.
  unfold WhatResolver.processKnownEdgePlacement. rw Hwsd.
  unfold WhatResolver.updateEdgePlacement. cbv zeta.
  set (wsd' := MkWorkspaceDetails (<[epName:=ep]> (wsPlacements wsd)) _ _).
  rw (_ : match wsPlacements wsd !! epName with Some p => _ | None => false end = false).
  2:{ destruct (wsPlacements wsd !! epName) as [p|]; [by apply Hchanged|done]. }
  pose proof (rematch_resources_exact env spaceID wsd' ep epName) as Hex. cbv zeta in Hex.
  unfold rematch_resources in Hex. destruct (for_each (map_range (wsResources wsd')) _ _) as [[res any] ok].
  cbn [fst snd] in *. intros ->. destruct (Hex eq_refl arName rr Hrr Hnd) as (rr' & Hrr' & Hb).
  unfold recorded. rw resources_of_insert decide_True //. cbn. rw Hrr'. cbn. rw (Hb _ Hobj).
  unfold wanted_bits, wsd'. rw whatMatches_placements.
  destruct (whatMatches env spaceID wsd (wepSpec ep) (gvrResource (rrGvr rr)) obj).1; [|naive_solver].
  split; [|naive_solver]. intros _. eexists. split_and!; [reflexivity..|]. cbn. unfold isCreateOnly, get_string.
  rw bool_decide_eq_true. by destruct (omAnnotations (moMeta obj) !! DownsyncOverwriteKey); naive_solver.
Qed.
End operations.

(** * Which resources are watched *)

(** The exceptions to going to the edge do not overlap with the two kinds of resources
    that [DefaultResourceModes] tests for first. *)
Definition not_for_edge (sgr : SchemaGroupResource) : bool :=
  MapSet_Has sgr GRsNotSupported
  || (MapSet_Has sgr GRsNotForEdge || bool_decide (sgrGroup sgr ∈ GroupsNotForEdge)).

Lemma natured_for_edge :
  set_Forall (λ sgr, not_for_edge sgr = false) (GRsForciblyDenatured ∪ GRsNaturedInBoth).
Proof. apply (bool_decide_eq_true_1 _). vm_compute. reflexivity. Qed.

Lemma GoesToEdge_default gr :
  ResourceMode_GoesToEdge (DefaultResourceModes gr) = Some (negb (not_for_edge (MetaGroupResourceToSchema gr))).
Proof.
  pose proof (natured_for_edge (MetaGroupResourceToSchema gr)) as Hdisj. rewrite elem_of_union in Hdisj.
  unfold DefaultResourceModes. cbv zeta. generalize dependent (MetaGroupResourceToSchema gr). intros sgr Hdisj.
  generalize (HasSuffix (sgrGroup sgr) ".k8s.io" || negb (str_Contains (sgrGroup sgr) ".")). intros builtin.
  unfold MapSet_Has at 1 2. case_bool_decide as H1; [by rw Hdisj; [|left]|].
  case_bool_decide as H2; [by rw Hdisj; [|right]|]. unfold not_for_edge. clear.
  by destruct (MapSet_Has sgr GRsNotSupported), (MapSet_Has sgr GRsNotForEdge),
    (bool_decide (sgrGroup sgr ∈ GroupsNotForEdge)).
Qed.

(** The resolver starts to watch a resource exactly if the resource goes to the edge
    by the mode that the rest of the placement translator has for it. *)
Theorem watched_iff_goes_to_edge `{MapRange} {LabelSelector Config R}
  (receiver : MappingReceiver R ExternalName ResolvedWhat) (env : WhatEnv LabelSelector Config)
  cluster arName ar (wr : gmap string (workspaceDetails LabelSelector)) r wsd :
  wr !! cluster = Some wsd → wsResources wsd !! arName = None →
  apiLister_Get env cluster arName = Found ar →
  let '(ok, (wr', r')) := processResource receiver env cluster arName wr r in
  ok = true ∧ r' = r ∧
  (is_Some (resources_of wr' cluster !! arName) ↔
   ResourceMode_GoesToEdge (DefaultResourceModes (MkGroupResource (arsGroup ar) (arsName ar))) = Some true).
Proof.
  intros Hwsd Hrr Har. rw GoesToEdge_default. unfold not_for_edge. cbn [MetaGroupResourceToSchema grGroup grResource sgrGroup].
  assert (is_Some (resources_of wr cluster !! arName) ↔ False) as Hno.
  { unfold resources_of. rw Hwsd. cbn. rw Hrr. split; [by intros []|done]. }
  unfold processResource. rw Hwsd Har Hrr. cbv zeta. cbn [sgrGroup].
  destruct (MapSet_Has _ GRsNotSupported); cbn [orb negb]; [rw Hno; naive_solver|].
  destruct (_ || _); cbn [negb]; [rw Hno; naive_solver|].
  rw resources_of_insert decide_True //. cbn [wsResources]. rw lookup_insert_eq. by split_and!.
Qed.

(** * Peculiarities of the matching *)

Section peculiar.
Context {LabelSelector Config : Type}.
Context (LabelSelectorAsSelector : LabelSelector → string + (gmap string string → bool)).

(** While the namespace of an object is not in the cache, a test with namespace
    selectors that admits the group, the resource and the name of the namespace is taken
    to match the object, and the answer to be accurate, whatever the selectors, the object
    names and the label selectors of the test are, although the code means to go around
    again. *)
Theorem unknown_namespace_matches (env : WhatEnv LabelSelector Config) cluster wsd objTest downsync
  whatResource gvkGroup objNS objName objLabels nsAR nsRR :
  dotAPIGroup objTest = None ∨ dotAPIGroup objTest = Some gvkGroup →
  dotResources objTest = [] ∨ "*" ∈ dotResources objTest ∨ whatResource ∈ dotResources objTest →
  dotNamespaces objTest = [] ∨ "*" ∈ dotNamespaces objTest ∨ objNS ∈ dotNamespaces objTest →
  dotNamespaceSelectors objTest ≠ [] → objNS ≠ "" →
  wsGkToARName wsd !! mkgk "" "Namespace" = Some nsAR →
  wsResources wsd !! nsAR = Some nsRR → lister_Get env cluster (rrGvr nsRR) "" objNS = NotFound →
  downsyncMatches LabelSelectorAsSelector env cluster wsd (objTest :: downsync) whatResource gvkGroup
    objNS objName objLabels = (true, true).
Proof.
  intros Hg Hr Hn Hsel Hns Hgk Hres Hget. cbn [downsyncMatches].
  assert (∀ l x, l = [] ∨ "*" ∈ l ∨ x ∈ l → (0 <? length l)%nat && negb (listMatches l x) = false) as Hlist.
  { intros l x Hl. unfold listMatches. rw !SliceContains_spec. destruct Hl as [-> |[Hin|Hin]]; [done|..];
      rw (bool_decide_true _ Hin) ?orb_true_r; cbn [orb negb]; apply andb_false_r. }
  rw (Hlist _ _ Hr) (Hlist _ _ Hn).
  assert (match dotAPIGroup objTest with Some group => negb (bool_decide (group = gvkGroup)) | None => false end
    = false) as ->.
  { destruct Hg as [-> | ->]; [done|]. by rw bool_decide_true. }
  unfold namespaceLabelsMatch. rw Hgk. cbn [from_option id].
  destruct (Nat.eqb_spec (length (dotNamespaceSelectors objTest)) 0) as [Hz|_]; [by destruct Hsel; apply nil_length_inv|].
  by rw bool_decide_false // Hres Hget.
Qed.

(** The objects of an [UpsyncSet] according to its description in the API. *)
Definition in_UpsyncSet (us : UpsyncSet) (resource group ns name : string) : Prop :=
  usAPIGroup us = group ∧ ("*" ∈ usResources us ∨ resource ∈ usResources us) ∧
  (ns = "" ∨ "*" ∈ usNamespaces us ∨ ns ∈ usNamespaces us) ∧ ("*" ∈ usNames us ∨ name ∈ usNames us).

(** An [UpsyncSet] withholds from downsync the objects that it describes provided that
    it describes their names, and the names of their namespaces, by ["*"]; an object that
    it lists by name is withheld only if that name is also listed as a resource. *)
Theorem upsyncMatches_listed_names upsync whatResource gvkGroup objNS objName :
  (∀ us, us ∈ upsync → "*" ∉ usNames us ∧ objName ∉ usResources us) →
  upsyncMatches upsync whatResource gvkGroup objNS objName = false.
Proof.
  induction upsync as [|us upsync IH]; intros Hus; [done|]. cbn [upsyncMatches].
  rw IH; [|by intros us' ?; apply Hus, elem_of_cons; right].
  destruct (Hus us) as [Hstar Hname]; [by apply elem_of_cons; left|].
  rw !SliceContains_spec (bool_decide_false ("*" ∈ usNames us)) // (bool_decide_false (objName ∈ usResources us)) //.
  cbn [orb negb]. by repeat case_match.
Qed.

Lemma upsyncMatches_stars upsync whatResource gvkGroup objNS objName us :
  us ∈ upsync → in_UpsyncSet us whatResource gvkGroup objNS objName →
  "*" ∈ usNamespaces us → "*" ∈ usNames us →
  upsyncMatches upsync whatResource gvkGroup objNS objName = true.
Proof.
  intros Hin (Hg & Hr & _ & _) Hns Hn. induction upsync as [|us' upsync IH]; [by apply not_elem_of_nil in Hin|].
  apply elem_of_cons in Hin as [<-|Hin]; cbn [upsyncMatches].
  - rw Hg bool_decide_true // !SliceContains_spec (bool_decide_true ("*" ∈ usNamespaces us)) //
      (bool_decide_true ("*" ∈ usNames us)) //. cbn [negb orb andb]. rw andb_false_r.
    destruct Hr as [Hr|Hr]; rw (bool_decide_true _ Hr) ?orb_true_r //.
  - rw IH //. by repeat case_match.
Qed.
End peculiar.
