(* ===== verification/WhereFeed.v ===== *)
(** The where-resolver of the placement translator (where-resolver.go of pkg/placement): it
    reads the SinglePlacementSlices that the where-resolver of pkg/where-resolver writes and
    relays each, under the name of its EdgePlacement in the space of the consumer, to the
    receivers of resolutions, of which the set binder is one.

    The store of the informer and the functions on its keys are parameters. *)

From S2P Require Import Prelude Tuples Interfaces Maps Types KbUser WhatResolver RelayMap.

(** queueItem *)
Record WhereItem : Set := MkWhereItem {
  wiGK : GroupKind;
  wiCluster : string;
  wiName : string
}.

Definition toExternalName (qi : WhereItem) : ExternalName := MkExternalName (wiCluster qi) (wiName qi).

(** The handlers of the informer, which all enqueue the object; [None] if it has no key. *)
Definition whereResolver_enqueue {Obj} (DeletionHandlingMetaNamespaceKeyFunc : Obj → option string)
  (SplitMetaNamespaceKey : string → option (string * string)) (gk : GroupKind) (objAny : Obj) : option WhereItem :=
  key ← DeletionHandlingMetaNamespaceKeyFunc objAny;
  let name := match SplitMetaNamespaceKey key with Some (_, name) => name | None => "" end in
  Some (MkWhereItem gk "" name).

Section where_resolver.
Context `{MapRange} {W Id : Type} `{EqDecision Id}.
Context (receiver_of : Id → MappingReceiver W ExternalName ResolvedWhere).
Context (c : Cell W (relayMap ExternalName ResolvedWhere Id)).

(** The receiver is added before any slice is known. *)
Definition NewWhereResolver (receiver : Id) (w : W) : W :=
  relayMap_AddReceiver false id receiver_of c receiver false (cset c NewRelayAndProjectMap w).

Definition whereResolver_AddReceiver (receiver : Id) (notifyCurrent : bool) (w : W) : W :=
  relayMap_AddReceiver false id receiver_of c receiver notifyCurrent w.

Definition whereResolver_Get {A} (placement : ExternalName) (kont : ResolvedWhere → W → A) (w : W) : A :=
  relayMap_Get id [] c placement kont w.

(** Whether the item is done with; [None] is a panic.  A slice comes with its metadata. *)
Definition whereResolver_process (spsLister_Get : string → Lookup (ObjectMeta * SinglePlacementSlice))
  (kbSpaceRelation : KubeBindSpaceRelation) (item : WhereItem) (w : W) : option (bool * W) :=
  let epName := wiName item in
  let got := spsLister_Get epName in
  match got with
  | LookupError _ => Some (true, w)
  | Found _ | NotFound =>
      let sps := match got with Found sps => Some sps | _ => None end in
      '(spsOriginalName, kbSpaceID, err) ← AnalyzeClusterScopedObject (fst <$> sps);
      match err with
      | Some _ => Some (true, w)
      | None =>
          let spaceID := SpaceIDFromKubeBind kbSpaceRelation kbSpaceID in
          if bool_decide (spaceID = "") then Some (false, w)
          else
            let item := MkWhereItem (wiGK item) spaceID spsOriginalName in
            let objName := toExternalName item in
            (* here [err] is that of the analysis, so it is nil *)
            Some (true, match err with
                        | None => relayMap_Put id receiver_of c objName (option_list (snd <$> sps)) w
                        | Some _ => relayMap_Delete receiver_of c objName w
                        end)
      end
  end.

(** * What the receivers are told *)

Context (known : Id → W → gmap ExternalName ResolvedWhere).
Context `{!CellOk c} (Hind : ∀ i, Indep c (known i)).
Context (Hquiet : ∀ i, QuietMR (receiver_of i) (cget c)).
Context (Hput : ∀ i k v w, known i (mr_Put (receiver_of i) k v w) = <[k:=v]> (known i w)).
Context (Hother : ∀ i j, i ≠ j → QuietMR (receiver_of i) (known j)).

(** The inputs of one step: the store of the informer, the relation of spaces, and the item. *)
Record WhereInput : Type := MkWhereInput {
  inLister : string → Lookup (ObjectMeta * SinglePlacementSlice);
  inRelation : KubeBindSpaceRelation;
  inItem : WhereItem
}.

Definition process_inputs (inputs : list WhereInput) (w : W) : option W :=
  for_each inputs (λ i w, w ← w; snd <$> whereResolver_process (inLister i) (inRelation i) (inItem i) w) (Some w).

(** What an input says: the slice of which EdgePlacement, in which space. *)
Definition input_resolution (i : WhereInput) : option (ExternalName * ResolvedWhere) :=
  match inLister i (wiName (inItem i)) with
  | Found (meta, sps) =>
      let '(name, kbSpaceID, err) := AnalyzeObject meta in
      let spaceID := SpaceIDFromKubeBind (inRelation i) kbSpaceID in
      if bool_decide (err = None) && negb (bool_decide (spaceID = ""))
      then Some (MkExternalName spaceID name, [sps]) else None
  | NotFound | LookupError _ => None
  end.
Definition resolutions_of (inputs : list WhereInput) : gmap ExternalName ResolvedWhere :=
  for_each inputs (λ i m, match input_resolution i with Some (name, rw) => <[name := rw]> m | None => m end) ∅.

Lemma process_step i w :
  match whereResolver_process (inLister i) (inRelation i) (inItem i) w with
  | None => inLister i (wiName (inItem i)) = NotFound
  | Some (_, w') => w' = match input_resolution i with
                         | Some (name, rw) => relayMap_Put id receiver_of c name rw w
                         | None => w
                         end
  end.
Proof using Type.
  unfold whereResolver_process, input_resolution. destruct (inLister i (wiName (inItem i))) as [[meta sps]| |e]; [|done..].
  cbn. destruct (AnalyzeObject meta) as [[name kb] [err|]]; [done|]. cbn.
  by destruct (bool_decide (SpaceIDFromKubeBind (inRelation i) kb = "")).
Qed.

(** Whatever slices are processed, as long as none has been deleted, each receiver that was
    there from the beginning knows for every EdgePlacement the last of its slices. *)
Theorem where_feed_tracks receiver inputs w0 w :
  (∀ i, known i w0 = ∅) → process_inputs inputs (NewWhereResolver receiver w0) = Some w →
  known receiver w = resolutions_of inputs.
Proof using CellOk0 Hind Hquiet Hput Hother.
  intros Hk0. unfold process_inputs.
  enough (∀ w, for_each inputs (λ i w, w ← w; snd <$> whereResolver_process (inLister i) (inRelation i) (inItem i) w)
      (Some (NewWhereResolver receiver w0)) = Some w →
    cget c w = MkRelayMap (resolutions_of inputs) [receiver] ∧ relay_in_step id c known w) as Hall.
  { intros [Hc Hstep]%Hall. rw (Hstep receiver) Hc /= decide_True; [apply map_fmap_id|by left]. }
  clear w. apply (for_each_ind (λ seen res, ∀ w, res = Some w →
    cget c w = MkRelayMap (resolutions_of seen) [receiver] ∧ relay_in_step id c known w)).
  - intros w [= <-]. assert (cget c (NewWhereResolver receiver w0) = MkRelayMap ∅ [receiver]) as Hc.
    { unfold NewWhereResolver, relayMap_AddReceiver. cbn. by rw !cget_cset. }
    split; [done|]. intros i. rw Hc /= fmap_empty. unfold NewWhereResolver, relayMap_AddReceiver. cbn.
    rw !indep Hk0. by destruct (decide _).
  - intros seen i todo res _ IH w. destruct res as [w1|]; [|done]. cbn. destruct (IH w1 eq_refl) as [Hc Hstep].
    pose proof (process_step i w1) as Hp. destruct (whereResolver_process _ _ _ _) as [[b w2]|]; [|done].
    intros [= <-]. subst w2. unfold resolutions_of. rw for_each_app. cbn. fold (resolutions_of seen).
    destruct (input_resolution i) as [[name rw]|]; [|done].
    destruct (relay_put_step id [] receiver_of c known Hind Hquiet Hput Hother name rw w1 Hstep) as [Hin Hc'].
    split; [|exact Hin]. by rewrite Hc' Hc.
Qed.

(** A slice that has been deleted makes the step panic, whatever the relation knows; so the
    resolution of its EdgePlacement is never deleted. *)
Theorem deleted_slice_panics spsLister_Get reln item w :
  spsLister_Get (wiName item) = NotFound → whereResolver_process spsLister_Get reln item w = None.
Proof using Type. unfold whereResolver_process. by intros ->. Qed.
End where_resolver.
