(* ===== verification/ObjectSync.v ===== *)
(** The copying of workload objects (workload-projector.go): from a source space to the
    mailbox spaces of the destinations, their removal from there, and the return of the
    reported state of singletons; and the dispatch of the work queue.

    An unstructured object is its metadata, with the fields that are read or written, and
    its other top-level fields; the values of those are a parameter.  The API servers are
    behind the interface [ObjectClient]; the stores of the informers, the Customizers and
    Locations that can be fetched, and customization (whose own model is in Customize.v,
    over a store of shared values) are parameters. *)

From stdpp Require Import pretty.
From S2P Require Import Prelude Tuples Interfaces Slices Sets Maps GoStrings Types KbUser HashDomains HashMap.
From S2P Require Import Relations FactoredMap Receivers Joins Organizer WorkloadProjector SyncerConfig.
From S2P Require Import Customize WhatResolver.

(** * Objects *)

Record UMeta (Value : Type) : Type := MkUMeta {
  umName : string;
  umNamespace : string;
  umUID : string;
  umResourceVersion : string;
  umSelfLink : string;
  umClusterName : string;
  umDeletionTimestamp : option string;
  (** [None] if the field is absent *)
  umLabels : option (gmap string string);
  umAnnotations : option (gmap string string);
  umManagedFields : list Value;
  umOwnerReferences : list Value
}.
Arguments MkUMeta {_} _ _ _ _ _ _ _ _ _ _ _.
Arguments umName {_} _.
Arguments umNamespace {_} _.
Arguments umUID {_} _.
Arguments umResourceVersion {_} _.
Arguments umSelfLink {_} _.
Arguments umClusterName {_} _.
Arguments umDeletionTimestamp {_} _.
Arguments umLabels {_} _.
Arguments umAnnotations {_} _.
Arguments umManagedFields {_} _.
Arguments umOwnerReferences {_} _.

Record Unstructured (Value : Type) : Type := MkUnstructured {
  uMeta : UMeta Value;
  (** the top-level fields other than [metadata] *)
  uContent : gmap string Value
}.
Arguments MkUnstructured {_} _ _.
Arguments uMeta {_} _.
Arguments uContent {_} _.

(** A field that is absent reads as a nil map, which has no entries. *)
Definition GetLabels {Value} (u : Unstructured Value) : gmap string string := default ∅ (umLabels (uMeta u)).
Definition GetAnnotations {Value} (u : Unstructured Value) : gmap string string :=
  default ∅ (umAnnotations (uMeta u)).

Definition SetLabels {Value} (labels : gmap string string) (u : Unstructured Value) : Unstructured Value :=
  let '(MkUMeta a b c d e f g _ i j k) := uMeta u in
  MkUnstructured (MkUMeta a b c d e f g (Some labels) i j k) (uContent u).
Definition SetAnnotations {Value} (annotations : gmap string string) (u : Unstructured Value) : Unstructured Value :=
  let '(MkUMeta a b c d e f g h _ j k) := uMeta u in
  MkUnstructured (MkUMeta a b c d e f g h (Some annotations) j k) (uContent u).
Definition SetContent {Value} (content : gmap string Value) (u : Unstructured Value) : Unstructured Value :=
  MkUnstructured (uMeta u) content.

(** * Clients *)

Inductive SpaceRef : Type :=
| AtSource (cluster : string)
| AtDestination (destination : SinglePlacement).

(** A [dynamic.ResourceInterface]: the space, the resource and its version, the namespace. *)
Record ClientRef : Type := MkClientRef {
  crSpace : SpaceRef;
  crGroupResource : GroupResource;
  crAPIVersion : string;
  crNamespace : option string
}.

Inductive DeleteOutcome : Set := Deleted | AlreadyGone | DeleteFailed.
Inductive NsCreateOutcome : Set := NsCreated | NsAlreadyExists | NsCreateFailed.

(** The requests to the API servers, whose state is [S]. *)
Record ObjectClient (Value S : Type) : Type := MkObjectClient {
  oc_Get : ClientRef → string → S → Lookup (Unstructured Value);
  oc_Create : ClientRef → Unstructured Value → S → bool * S;
  oc_Update : ClientRef → Unstructured Value → S → bool * S;
  oc_UpdateStatus : ClientRef → Unstructured Value → S → bool * S;
  (** with the resource version of the preconditions, if any *)
  oc_Delete : ClientRef → string → option string → S → DeleteOutcome * S;
  (** the informer on the namespaces of a destination, and their creation *)
  ns_Lookup : SinglePlacement → string → S → Lookup unit;
  ns_Create : SinglePlacement → string → gmap string string → S → NsCreateOutcome * S
}.
Arguments MkObjectClient {_ _} _ _ _ _ _ _ _.
Arguments oc_Get {_ _} _ _ _ _.
Arguments oc_Create {_ _} _ _ _ _.
Arguments oc_Update {_ _} _ _ _ _.
Arguments oc_UpdateStatus {_ _} _ _ _ _.
Arguments oc_Delete {_ _} _ _ _ _ _.
Arguments ns_Lookup {_ _} _ _ _ _.
Arguments ns_Create {_ _} _ _ _ _ _.

Definition clientForMaybeNamespace (space : SpaceRef) (gr : GroupResource) (duo : dynamicDuo)
  (namespaced : bool) (namespace : string) : ClientRef :=
  MkClientRef space gr (duo_apiVersion duo) (if namespaced then Some namespace else None).

(** * Constants *)

Definition ProjectedLabelKey : string := "edge.kubestellar.io/projected".
Definition ProjectedLabelVal : string := "yes".
Definition ExecutingCountKey : string := "kubestellar.io/executing-count".
Definition CustomizerAnnotationKey : string := "edge.kubestellar.io/customizer".
Definition crdGR : GroupResource := MkGroupResource "apiextensions.k8s.io" "customresourcedefinitions".

Definition kvIsSystem (which key : string) : bool :=
  str_Contains key ".kcp.io/" || HasPrefix key "kcp.io/".

(** [namespacedName] of a [destinationObjectRef] *)
Definition doRef_namespacedName (Namespace : string) (Name : ObjectName) : NamespacedName := NewPair Namespace Name.

(** A trier runs outside the mutex, may panic, and says whether to retry. *)
Definition trier (S : Type) : Type := S → option (bool * S).
Definition returnFalse {S} : trier S := λ s, Some (false, s).
Definition returnTrue {S} : trier S := λ s, Some (true, s).

Definition triers_try {S} (ts : list (trier S)) : trier S := λ s,
  for_each ts (λ trier res,
    '(retry, s) ← res;
    '(again, s) ← trier s;
    Some (retry || again, s)) (Some (false, s)).

Section syncing_objects.
Context `{MapRange} {Value S : Type}.
Abbreviation U := (Unstructured Value).
Abbreviation W := workloadProjector.
Context (oc : ObjectClient Value S).
(** apiequality.Semantic.DeepEqual, on objects and on fields, where [None] is nil *)
Context (DeepEqual : U → U → bool) (DeepEqualValue : option Value → option Value → bool).
(** The stores of the informers, by resource, namespace if any, and name. *)
Context (sourceCache : string → GroupResource → option string → string → Lookup U).
Context (destinationCache : SinglePlacement → GroupResource → option string → string → Lookup U).
Context (clientFailure : SinglePlacement → option bool).
(** Whether a client for a space can be had (else a nil pointer is used, a panic); the
    objects that it fetches, which are empty beside an error. *)
Context (edgeClientFor : string → bool).
Context (Customizers_Get : string → string → string → Lookup Customizer).
Context (Locations_Get : string → string → Lookup Location).
(** customize.Customize; [None] for a panic *)
Context (customize_Customize : U → option Customizer → option Location → option U).

(** * Merging *)

Definition emptyCustomizer : Customizer := MkCustomizer ∅ [].
Definition emptyLocation : Location := MkLocation ∅ ∅.

(** The object that [Get] of a generated client returns, and whether it worked. *)
Definition fetched {A} (empty : A) (l : Lookup A) : A * bool :=
  match l with Found a => (a, true) | _ => (empty, false) end.

(** A copy is as good as the object, since neither is modified. *)
Definition customizeOrCopy (srcCluster : string) (srcObjU : U) (destSP : SinglePlacement) (insistCopy : bool)
  : option U :=
  let srcAnnotations := GetAnnotations srcObjU in
  let expandParameters := bool_decide (get_string srcAnnotations ParameterExpansionAnnotationKey = "true") in
  let customizerRef := get_string srcAnnotations CustomizerAnnotationKey in
  let hasRef := negb (bool_decide (customizerRef = "")) in
  '(customizer, expandParameters) ←
    (if hasRef then
       let refParts := str_SplitN 2 customizerRef "/" in
       let custName := default "" (last refParts) in
       let custNS := if (length refParts =? 1)%nat then umNamespace (uMeta srcObjU)
                     else default "" (head refParts) in
       if negb (edgeClientFor srcCluster) then None
       else
         let '(customizer, ok) := fetched emptyCustomizer (Customizers_Get srcCluster custNS custName) in
         Some (Some customizer,
               if ok : bool then
                 expandParameters
                 || bool_decide (get_string (cuAnnotations customizer) ParameterExpansionAnnotationKey = "true")
               else expandParameters)
     else Some (None, expandParameters));
  location ←
    (if expandParameters : bool then
       if negb (edgeClientFor (spCluster destSP)) then None
       else Some (Some (fetched emptyLocation (Locations_Get (spCluster destSP) (spLocationName destSP))).1)
     else Some None);
  if (hasRef || expandParameters) && (bool_decide (is_Some customizer) || negb hasRef)
     && (bool_decide (is_Some location) || negb expandParameters)
  then customize_Customize srcObjU customizer location
  else Some srcObjU.

Definition xformForDestination (sourceCluster : string) (destSP : SinglePlacement) (srcObj : U) : option U :=
  srcObjU ← customizeOrCopy sourceCluster srcObj destSP true;
  let '(MkUMeta name namespace _ _ _ _ deletion labels annotations _ _) := uMeta srcObjU in
  let destObj := MkUnstructured (MkUMeta name namespace "" "" "" "" deletion labels annotations [] [])
                   (uContent srcObjU) in
  let labels := GetLabels destObj in
  Some (SetLabels (<[ProjectedLabelKey := ProjectedLabelVal]> labels) destObj).

Definition kvMerge (which : string) (src inputDest : gmap string string) : gmap string string :=
  let outputDest := for_each (map_range inputDest) (λ '(key, val) outputDest, <[key:=val]> outputDest) ∅ in
  for_each (map_range src) (λ '(key, val) outputDest,
    if kvIsSystem which key then outputDest else <[key:=val]> outputDest) outputDest.

(** The top-level fields that a merge does not take from the source. *)
Definition keptKeys : list string := ["apiVersion"; "kind"; "metadata"; "status"].

Definition genericObjectMerge (sourceCluster : string) (destSP : SinglePlacement) (srcObj inputDest : U)
  : option U :=
  srcObjU ← customizeOrCopy sourceCluster srcObj destSP false;
  let outputDestU := inputDest in
  let outputDestU :=
    if negb (size (GetAnnotations srcObjU) =? 0)%nat
    then SetAnnotations (kvMerge "annotations" (GetAnnotations srcObjU) (GetAnnotations inputDest)) outputDestU
    else outputDestU in
  let mergedLabels := kvMerge "labels" (GetLabels srcObjU) (GetLabels inputDest) in
  let mergedLabels := <[ProjectedLabelKey := ProjectedLabelVal]> mergedLabels in
  let outputDestU := SetLabels mergedLabels outputDestU in
  let destContent := for_each (map_range (uContent srcObjU)) (λ '(topKey, srcTopVal) destContent,
                       if SliceContains keptKeys topKey then destContent
                       else <[topKey:=srcTopVal]> destContent) (uContent outputDestU) in
  Some (SetContent destContent outputDestU).

(** * Between a source and a destination *)

(** The results are whether it went well, and the state. *)
Definition ensureDestCount (srcClient : ClientRef) (srcMRObject : U) (numDestinations : nat) (s : S) : bool * S :=
  let annotations := GetAnnotations srcMRObject in
  let have := get_string annotations ExecutingCountKey in
  let want := pretty numDestinations in
  if bool_decide (have = want) then (true, s)
  else
    let srcUnstr := SetAnnotations (<[ExecutingCountKey := want]> annotations) srcMRObject in
    oc_Update oc srcClient srcUnstr s.

Definition reportSingletonState (srcClient : ClientRef) (srcU dstU : U) (s : S) : bool * S :=
  let srcStatusU := uContent srcU !! "status" in
  let dstStatusU := uContent dstU !! "status" in
  if DeepEqualValue srcStatusU dstStatusU then (true, s)
  else
    let srcCopyU := SetContent (partial_alter (λ _, dstStatusU) "status" (uContent srcU)) srcU in
    oc_UpdateStatus oc srcClient srcCopyU s.

(** The function that [syncSourceToDestLocked] returns, to be run without the mutex. *)
Definition syncSourceToDest (sourceCluster : string) (srcClient rscClient : ClientRef)
  (Namespace Name : string) (srcMRObject : option U) (namespaced : bool)
  (destination : SinglePlacement) (distributionBits : DistributionBits) (numDestinations : nat) : trier S :=
  λ s,
    match srcMRObject with
    | None =>
        let '(res, s) := oc_Delete oc rscClient Name None s in
        match res with
        | Deleted | AlreadyGone => Some (false, s)
        | DeleteFailed => Some (true, s)
        end
    | Some srcMRObject =>
        let '(ok, s) := if dbReturnSingletonState distributionBits
                        then ensureDestCount srcClient srcMRObject numDestinations s else (true, s) in
        if negb ok then Some (false, s)
        else
          let '(nsOk, s) :=
            if namespaced then
              match ns_Lookup oc destination Namespace s with
              | LookupError _ => (false, s)
              | Found _ => (true, s)
              | NotFound =>
                  let '(res, s) := ns_Create oc destination Namespace
                                     {[ProjectedLabelKey := ProjectedLabelVal]} s in
                  (match res with NsCreated | NsAlreadyExists => true | NsCreateFailed => false end, s)
              end
            else (true, s) in
          if negb nsOk then Some (true, s)
          else
            match oc_Get oc rscClient Name s with
            | LookupError _ => Some (true, s)
            | Found destObj =>
                let '(ok, s) :=
                  if dbReturnSingletonState distributionBits && (numDestinations =? 1)%nat
                  then reportSingletonState srcClient srcMRObject destObj s else (true, s) in
                if negb ok then Some (false, s)
                else if dbCreateOnly distributionBits then Some (false, s)
                else
                  revisedDestObj ← genericObjectMerge sourceCluster destination srcMRObject destObj;
                  if DeepEqual destObj revisedDestObj then Some (false, s)
                  else
                    let '(ok, s) := oc_Update oc rscClient revisedDestObj s in
                    Some (negb ok, s)
            | NotFound =>
                destObj ← xformForDestination sourceCluster destination srcMRObject;
                let '(ok, s) := oc_Create oc rscClient destObj s in
                Some (negb ok, s)
            end
    end.

Definition syncSourceToDestLocked (Cluster : string) (srcClient : ClientRef) (gr : GroupResource)
  (Namespace Name : string) (srcMRObject : option U) (namespaced : bool)
  (modesForSync : MutableMap W ProjectionModeKey ProjectionModeVal)
  (destination : SinglePlacement) (distributionBits : DistributionBits) (numDestinations : nat) (w : W)
  : bool * option (trier S) * W :=
  match wp_perDestination w !! destination with
  | None => (true, None, w)
  | Some wpd =>
      match map_Get modesForSync (MkProjectionModeKey gr destination) w with
      | None => (true, None, w)
      | Some pmv =>
          let '(res, wpd) :=
            wpd_getDynamicDuoLocked clientFailure destination gr (pmvAPIVersion pmv) namespaced wpd in
          let w := cset perDestination_cell (<[destination:=wpd]> (wp_perDestination w)) w in
          match res with
          | inl _ => (true, None, w)
          | inr destDuo =>
              let rscClient := clientForMaybeNamespace (AtDestination destination) gr destDuo namespaced Namespace in
              (false,
               Some (syncSourceToDest Cluster srcClient rscClient Namespace Name srcMRObject namespaced
                       destination distributionBits numDestinations), w)
          end
      end
  end.

(** The part under the mutex: the work to do after releasing it. *)
Definition syncSourceObject_locked (Cluster : string) (gr : GroupResource) (Namespace Name : string) (w : W)
  : list (trier S) * W :=
  let namespaced := negb (bool_decide (Namespace = noNamespace)) in
  let maybeNS := if namespaced then Some Namespace else None in
  match wp_perSource w !! Cluster with
  | None => ([returnFalse], w)
  | Some wps =>
      match wps_preInformers wps !! gr with
      | None => ([returnFalse], w)
      | Some srcDuo =>
          let srcClient := clientForMaybeNamespace (AtSource Cluster) gr srcDuo namespaced Namespace in
          let go (srcMRObject : option U) :=
            let objectDestinations :=
              if namespaced then byNN ← wps_nsdDistributions wps !! gr; byNN !! (NewPair Namespace Name : NamespacedName)
              else byName ← wps_nnsDistributions wps !! gr; byName !! (Name : ObjectName) in
            match objectDestinations with
            | None => ([returnFalse], w)
            | Some objectDestinations =>
                let numDestinations := size objectDestinations in
                let modesForSync := if namespaced then nsModesForSync else nnsModesForSync in
                let '(tryAgain, remWork, w) :=
                  for_each (map_range objectDestinations) (λ tup '(tryAgain, remWork, w),
                    let '(retryThis, rem, w) :=
                      syncSourceToDestLocked Cluster srcClient gr Namespace Name srcMRObject namespaced
                        modesForSync tup.1 tup.2 numDestinations w in
                    (tryAgain || retryThis, match rem with Some rem => remWork ++ [rem] | None => remWork end, w))
                    (false, [], w) in
                (if tryAgain : bool then remWork ++ [returnTrue] else remWork, w)
            end in
          match sourceCache Cluster gr maybeNS Name with
          | LookupError _ => ([returnFalse], w)
          | NotFound => go None
          | Found srcObj => go (match umDeletionTimestamp (uMeta srcObj) with Some _ => None | None => Some srcObj end)
          end
      end
  end.

Definition syncSourceObject (Cluster : string) (gr : GroupResource) (Namespace Name : string) (w : W) (s : S)
  : option (bool * (W * S)) :=
  let '(finish, w) := syncSourceObject_locked Cluster gr Namespace Name w in
  '(retry, s) ← triers_try finish s;
  Some (retry, (w, s)).

(** * The object at a destination *)

(** A source that wants the reported state: a trier, or the need to try again later. *)
Definition returnState (gr : GroupResource) (namespaced : bool) (Namespace : string) (Name : ObjectName) (objM : U)
  (sourceWant : Pair string DistributionBits) (w : W) (st : list (trier S) * bool) : list (trier S) * bool :=
  let '(tryem, addRetry) := st in
  if negb (dbReturnSingletonState sourceWant.2) then (tryem, addRetry)
  else
    match wp_perSource w !! sourceWant.1 with
    | None => (tryem, addRetry)
    | Some wps =>
        let destWants :=
          if namespaced
          then rem ← wps_nsdDistributions wps !! gr; rem !! doRef_namespacedName Namespace Name
          else rem ← wps_nnsDistributions wps !! gr; rem !! Name in
        match destWants with
        | None => (tryem, addRetry)
        | Some destWants =>
            if negb (size destWants =? 1)%nat then (tryem, addRetry)
            else
              match wps_preInformers wps !! gr with
              | None => (tryem, addRetry)
              | Some srcDuo =>
                  let srcClient := clientForMaybeNamespace (AtSource sourceWant.1) gr srcDuo namespaced Namespace in
                  match sourceCache sourceWant.1 gr (if namespaced then Some Namespace else None) Name with
                  | Found srcU => (tryem ++ [λ s, Some (reportSingletonState srcClient srcU objM s)], addRetry)
                  | NotFound | LookupError _ => (tryem, true)
                  end
              end
        end
    end.

Definition syncDestinationObject_locked (destination : SinglePlacement) (gr : GroupResource)
  (Namespace : string) (Name : ObjectName) (w : W) : trier S :=
  let namespaced := negb (bool_decide (Namespace = noNamespace)) in
  let maybeNS := if namespaced then Some Namespace else None in
  match wp_perDestination w !! destination with
  | None => returnFalse
  | Some wpd =>
      match wpd_preInformers wpd !! gr with
      | None => returnFalse
      | Some duo =>
          let present :=
            match destinationCache destination gr maybeNS Name with
            | Found objM => match umDeletionTimestamp (uMeta objM) with Some _ => None | None => Some objM end
            | _ => None
            end in
          let sourcesWants :=
            if namespaced then wpd_nsdDistributions wpd !! NewPair gr (doRef_namespacedName Namespace Name)
            else wpd_nnsDistributions wpd !! NewPair gr Name in
          let wanted := match sourcesWants with Some m => negb (size m =? 0)%nat | None => false end in
          if wanted then
            match present with
            | None => returnFalse
            | Some objM =>
                if bool_decide (gr = crdGR) then returnFalse
                else
                  let '(tryem, addRetry) :=
                    for_each (map_range (default ∅ sourcesWants))
                      (λ sourceWant st, returnState gr namespaced Namespace Name objM sourceWant w st) ([], false) in
                  triers_try (if addRetry : bool then tryem ++ [returnTrue] else tryem)
            end
          else
            match present with
            | None => returnFalse
            | Some objM =>
                let resourceVersion := umResourceVersion (uMeta objM) in
                let rscClient := clientForMaybeNamespace (AtDestination destination) gr duo namespaced Namespace in
                λ s,
                  let '(res, s) := oc_Delete oc rscClient Name (Some resourceVersion) s in
                  Some (match res with Deleted | AlreadyGone => false | DeleteFailed => true end, s)
            end
      end
  end.

Definition syncDestinationObject (destination : SinglePlacement) (gr : GroupResource)
  (Namespace : string) (Name : ObjectName) (w : W) (s : S) : option (bool * S) :=
  if bool_decide (gr = nsGR) then Some (false, s)
  else syncDestinationObject_locked destination gr Namespace Name w s.

(** * The work queue *)

(** Work on one reference; a reference to be retried is added to the queue again. *)
Definition sync1Config (resourceModes : GroupResource → ResourceMode) (ec : EdgeClient S)
  (kbsr : KubeBindSpaceRelation) (ref : wpRef) (w : W) (s : S) : option (W * S) :=
  '(retry, (w, s)) ←
    match ref with
    | singlePlacementRef destination =>
        let '(retry, w) := syncConfigDestination destination w in Some (retry, (w, s))
    | syncerConfigRef Cluster Name =>
        '(retry, s) ← syncConfigObject resourceModes ec Cluster Name w s; Some (retry, (w, s))
    | syncerConfigProjectionRef KBIDForMBS SourceName =>
        let '(retry, w) := syncConfigObjectProjection kbsr KBIDForMBS SourceName w in Some (retry, (w, s))
    | sourceObjectRef Cluster gr Namespace Name => syncSourceObject Cluster gr Namespace Name w s
    | destinationObjectRef destination gr Namespace Name =>
        '(retry, s) ← syncDestinationObject destination gr Namespace Name w s; Some (retry, (w, s))
    end;
  Some (if retry : bool then queue_Add ref w else w, s).
End syncing_objects.
