(* ===== verification/ObjectSyncFacts.v ===== *)
(** Merging a source object into the one at the destination takes over exactly the fields
    that it should and is stable; the work on a source object leaves its content at the
    destination; the work on a destination object deletes it exactly if the tables do not
    distribute it there. *)

From stdpp Require Import pretty.
From S2P Require Import Prelude Tuples Interfaces Slices Sets Maps GoStrings Types KbUser HashDomains HashMap.
From S2P Require Import Relations FactoredMap Receivers Joins Organizer WorkloadProjector WorkloadProjectorFacts.
From S2P Require Import SyncerConfig SyncerConfigFacts Customize WhatResolver ObjectSync.

(** * Merging *)

(** [m] over [acc], except for some keys. *)
Definition overlaid {V} (skip : string → bool) (m acc : gmap string V) (k : string) : option V :=
  if skip k then acc !! k else match m !! k with Some v => Some v | None => acc !! k end.

Section overlay.
Context `{MapRange}.

Lemma overlay_lookup {V} (skip : string → bool) (m acc : gmap string V) k :
  for_each (map_range m) (λ '(key, val) acc, if skip key then acc else <[key:=val]> acc) acc !! k
  = overlaid skip m acc k.
Proof.
  rw (for_each_entries (λ k v o, if skip k then o else Some v)).
  - unfold overlaid. by destruct (m !! k), (skip k).
  - intros key val acc'. destruct (skip key); [|done]. symmetry. by apply partial_alter_id.
Qed.

Lemma kvMerge_lookup which src inputDest k :
  kvMerge which src inputDest !! k = overlaid (kvIsSystem which) src inputDest k.
Proof.
  unfold kvMerge. rw overlay_lookup. unfold overlaid.
  assert (for_each (map_range inputDest) (λ '(key, val) outputDest, <[key:=val]> outputDest) ∅ = inputDest) as ->.
  { apply map_eq. intros k'. etrans; [apply (overlay_lookup (λ _, false))|]. unfold overlaid. rw lookup_empty.
    by destruct (inputDest !! k'). }
  done.
Qed.

Lemma kvMerge_stable which src inputDest (out : gmap string string) :
  (∀ k, out !! k = overlaid (kvIsSystem which) src inputDest k) → kvMerge which src out = out.
Proof.
  intros Hout. apply map_eq. intros k. rw kvMerge_lookup. unfold overlaid. rw Hout. unfold overlaid.
  destruct (kvIsSystem which k); [done|]. by destruct (src !! k).
Qed.
End overlay.

Section merging.
Context `{MapRange} {Value : Type}.
Context (edgeClientFor : string → bool).
Context (Customizers_Get : string → string → string → Lookup Customizer).
Context (Locations_Get : string → string → Lookup Location).
Context (customize_Customize :
  Unstructured Value → option Customizer → option Location → option (Unstructured Value)).
Abbreviation customized := (customizeOrCopy edgeClientFor Customizers_Get Locations_Get customize_Customize).
Abbreviation merge := (genericObjectMerge edgeClientFor Customizers_Get Locations_Get customize_Customize).
Abbreviation xform := (xformForDestination edgeClientFor Customizers_Get Locations_Get customize_Customize).

(** Everything in the metadata but labels and annotations. *)
Definition other_metadata (u : Unstructured Value) : UMeta Value :=
  let '(MkUMeta a b c d e f g _ _ j k) := uMeta u in MkUMeta a b c d e f g None None j k.

(** [out] is the object [srcU] merged into [dst]. *)
Definition is_merge (srcU dst out : Unstructured Value) : Prop :=
  other_metadata out = other_metadata dst ∧
  (∀ k, uContent out !! k = overlaid (SliceContains keptKeys) (uContent srcU) (uContent dst) k) ∧
  (∃ labels, umLabels (uMeta out) = Some labels ∧
     ∀ k, labels !! k = if decide (k = ProjectedLabelKey) then Some ProjectedLabelVal
                        else overlaid (kvIsSystem "labels") (GetLabels srcU) (GetLabels dst) k) ∧
  if decide (GetAnnotations srcU = ∅) then umAnnotations (uMeta out) = umAnnotations (uMeta dst)
  else ∃ annotations, umAnnotations (uMeta out) = Some annotations ∧
    ∀ k, annotations !! k = overlaid (kvIsSystem "annotations") (GetAnnotations srcU) (GetAnnotations dst) k.

Lemma merge_Some cluster destSP src srcU dst :
  customized cluster src destSP false = Some srcU →
  ∃ out, merge cluster destSP src dst = Some out ∧ is_merge srcU dst out.
Proof.
  intros Hc. unfold genericObjectMerge. rw Hc. cbn [mbind option_bind]. eexists. split; [reflexivity|].
  destruct dst as [[a b c d e f g labels annotations j k] content].
  assert (negb (size (GetAnnotations srcU) =? 0)%nat = negb (bool_decide (GetAnnotations srcU = ∅))) as ->.
  { f_equal. apply eq_bool_prop_intro. rw !Is_true_true Nat.eqb_eq map_size_empty_iff bool_decide_eq_true //. }
  split_and!.
  - unfold other_metadata. destruct (negb _); done.
  - intros key. unfold SetContent. cbn [uContent]. rw overlay_lookup. by destruct (negb _).
  - eexists. split; [by destruct (negb _)|]. intros key.
    destruct (decide (key = ProjectedLabelKey)) as [-> |Hne]; [by rw lookup_insert_eq|].
    by rw lookup_insert_ne // kvMerge_lookup.
  - case_decide as Ha; [rw bool_decide_eq_true_2 //|rw bool_decide_eq_false_2 //]. cbn.
    eexists. split; [reflexivity|]. intros key. by rw kvMerge_lookup.
Qed.

(** [overlaid] after [overlaid] with the same source *)
Lemma overlaid_twice {V} skip (src dst out : gmap string V) k :
  out !! k = overlaid skip src dst k → overlaid skip src out k = out !! k.
Proof. unfold overlaid. intros ->. destruct (skip k); [done|]. by destruct (src !! k). Qed.

Lemma is_merge_stable srcU dst out out' : is_merge srcU dst out → is_merge srcU out out' → out' = out.
Proof.
  intros (Hm & Hc & (labels & Hl & Hlk) & Ha) (Hm' & Hc' & (labels' & Hl' & Hlk') & Ha').
  destruct out as [[a b c d e f g lo ao j k] content]. destruct out' as [[a' b' c' d' e' f' g' lo' ao' j' k'] content'].
  cbn [uMeta uContent umLabels umAnnotations] in *. subst lo lo'. clear Hm. unfold other_metadata in Hm'.
  cbn in Hm'. injection Hm' as -> -> -> -> -> -> -> -> ->. f_equal.
  - f_equal.
    + f_equal. apply map_eq. intros key. rw Hlk'. cbn. destruct (decide (key = ProjectedLabelKey)) as [-> |Hne].
      * by rw Hlk.
      * apply overlaid_twice with (GetLabels dst). rw Hlk. by rw decide_False.
    + case_decide; [done|]. destruct Ha as (an & -> & Han). destruct Ha' as (an' & -> & Han'). f_equal.
      apply map_eq. intros key. rw Han'. by apply overlaid_twice with (GetAnnotations dst).
  - apply map_eq. intros key. rw Hc'. by apply overlaid_twice with (uContent dst).
Qed.

(** C9: merging a source object, as customized for the destination, into the object there
    takes every top-level field from the source that it has, except apiVersion, kind,
    metadata and status, and keeps the others; labels and annotations of the source are
    added, except those of the system, the label of projected objects is set, and the other
    metadata stay; and merging the same source again changes nothing, so an object that has
    been updated once is not updated again until something changes. *)
Theorem genericObjectMerge_right cluster destSP src srcU dst :
  customized cluster src destSP false = Some srcU →
  ∃ out, merge cluster destSP src dst = Some out ∧ is_merge srcU dst out ∧
    merge cluster destSP src out = Some out.
Proof.
  intros Hc. destruct (merge_Some cluster destSP src srcU dst Hc) as (out & Hout & Hm).
  exists out. split_and!; [done..|]. destruct (merge_Some cluster destSP src srcU out Hc) as (out' & -> & Hm').
  f_equal. by eapply is_merge_stable.
Qed.
End merging.

(** * From a source to a destination *)

(** The object [v] carries what is to be projected of [srcU]: [kept x y] says that the value
    [y] of a top-level field is [x], maybe with fields in it that a server has added. *)
Record carried {Value} (kept : Value → Value → Prop) (srcU v : Unstructured Value) : Prop := MkCarried {
  carried_content k x :
    SliceContains keptKeys k = false → uContent srcU !! k = Some x → ∃ y, uContent v !! k = Some y ∧ kept x y;
  carried_labels k x :
    kvIsSystem "labels" k = false → k ≠ ProjectedLabelKey →
    GetLabels srcU !! k = Some x → GetLabels v !! k = Some x;
  carried_projected : GetLabels v !! ProjectedLabelKey = Some ProjectedLabelVal;
  carried_annotations k x :
    kvIsSystem "annotations" k = false → GetAnnotations srcU !! k = Some x → GetAnnotations v !! k = Some x
}.

(** An API server keeps what the client sent: it may add defaults to the top-level fields,
    and top-level fields, labels and annotations of its own, but not drop or change any but
    those that a merge does not take over (a status, for example, is not written by a plain
    update). *)
Record stored {Value} (kept : Value → Value → Prop) (u v : Unstructured Value) : Prop := MkStored {
  stored_content k x :
    SliceContains keptKeys k = false → uContent u !! k = Some x → ∃ y, uContent v !! k = Some y ∧ kept x y;
  stored_labels k x : GetLabels u !! k = Some x → GetLabels v !! k = Some x;
  stored_annotations k x : GetAnnotations u !! k = Some x → GetAnnotations v !! k = Some x
}.

(** What the projector relies on of the API servers of the destinations. *)
Class ObjectClientOk {Value S} (kept : Value → Value → Prop) (oc : ObjectClient Value S) : Prop := {
  oc_get_named c name s u : oc_Get oc c name s = Found u → umName (uMeta u) = name;
  oc_create_ok c u s s' :
    oc_Create oc c u s = (true, s') → ∃ v, oc_Get oc c (umName (uMeta u)) s' = Found v ∧ stored kept u v;
  oc_update_ok c u s s' :
    oc_Update oc c u s = (true, s') → ∃ v, oc_Get oc c (umName (uMeta u)) s' = Found v ∧ stored kept u v
}.

Lemma carried_stored {Value} kept (srcU u v : Unstructured Value) :
  carried eq srcU u → stored kept u v → carried kept srcU v.
Proof.
  intros [Hc Hl Hp Ha] [Hc' Hl' Ha']. split; [intros k x Hk Hx|eauto..].
  destruct (Hc k x Hk Hx) as (y & Hy & <-). by apply Hc'.
Qed.

Lemma overlaid_carries {V} skip (src dst : gmap string V) k x :
  skip k = false → src !! k = Some x → overlaid skip src dst k = Some x.
Proof. unfold overlaid. by intros -> ->. Qed.

Lemma is_merge_carried {Value} (srcU dst out : Unstructured Value) : is_merge srcU dst out → carried eq srcU out.
Proof.
  intros (_ & Hc & (labels & Hl & Hlk) & Ha).
  assert (∀ k, GetLabels out !! k = labels !! k) as Hg by (intros k; unfold GetLabels; by rw Hl). split.
  - intros k x Hk Hx. exists x. split; [|done]. rw Hc. by apply overlaid_carries.
  - intros k x Hk Hne Hx. rw Hg Hlk decide_False //. by apply overlaid_carries.
  - by rw Hg Hlk.
  - intros k x Hk Hx. rewrite decide_False in Ha; [|intros He; by rewrite He in Hx].
    destruct Ha as (an & Han & Hank). unfold GetAnnotations at 1. rw Han Hank. by apply overlaid_carries.
Qed.

(** Whether some annotation is not one of the system, if there is any annotation. *)
Definition annotated {Value} (srcU : Unstructured Value) : Prop :=
  GetAnnotations srcU = ∅ ∨ ∃ k, kvIsSystem "annotations" k = false ∧ is_Some (GetAnnotations srcU !! k).

Lemma overlaid_carried {V} skip (src dst : gmap string V) k :
  (∀ x, skip k = false → src !! k = Some x → dst !! k = Some x) → overlaid skip src dst k = dst !! k.
Proof.
  intros Hx. unfold overlaid. destruct (skip k); [done|]. destruct (src !! k) as [x|]; [|done]. by rw (Hx x).
Qed.

Lemma carried_merge_same {Value} (srcU v out : Unstructured Value) :
  annotated srcU → carried eq srcU v → is_merge srcU v out → out = v.
Proof.
  intros Han [Hc Hl Hp Ha] (Hm' & Hc' & (labels' & Hl' & Hlk') & Ha').
  destruct v as [[a b c d e f g lo ao j k] content]. destruct out as [[a' b' c' d' e' f' g' lo' ao' j' k'] content'].
  unfold other_metadata in Hm'. cbn in *. subst lo'. injection Hm' as -> -> -> -> -> -> -> -> ->. f_equal.
  - f_equal.
    + destruct lo as [labels|]; [|done]. f_equal. apply map_eq. intros key. rw Hlk'.
      destruct (decide (key = ProjectedLabelKey)) as [-> |Hk]; [by symmetry|]. apply overlaid_carried. intros x Hs Hx. by apply Hl.
    + case_decide as He; [done|]. destruct Ha' as (an & -> & Hank). destruct Han as [?|(key & Hs & x & Hx)]; [done|].
      pose proof (Ha key x Hs Hx) as Hv. destruct ao as [annotations|]; [|done]. f_equal. apply map_eq. intros key'.
      rw Hank. apply overlaid_carried. intros y Hy Hsrc. by apply Ha.
  - apply map_eq. intros key. rw Hc'. apply overlaid_carried.
    intros x Hk Hx. by destruct (Hc key x Hk Hx) as (y & Hy & <-).
Qed.

Section to_destination.
Context `{MapRange} {Value S : Type}.
Context (kept : Value → Value → Prop) (oc : ObjectClient Value S) `{!ObjectClientOk kept oc}.
Context (DeepEqual : Unstructured Value → Unstructured Value → bool).
Context (DeepEqualValue : option Value → option Value → bool).
Context (edgeClientFor : string → bool).
Context (Customizers_Get : string → string → string → Lookup Customizer).
Context (Locations_Get : string → string → Lookup Location).
Context (customize_Customize :
  Unstructured Value → option Customizer → option Location → option (Unstructured Value)).
Abbreviation customized := (customizeOrCopy edgeClientFor Customizers_Get Locations_Get customize_Customize).
Abbreviation merge := (genericObjectMerge edgeClientFor Customizers_Get Locations_Get customize_Customize).
Abbreviation xform := (xformForDestination edgeClientFor Customizers_Get Locations_Get customize_Customize).
Abbreviation copy := (syncSourceToDest oc DeepEqual DeepEqualValue edgeClientFor Customizers_Get Locations_Get
                        customize_Customize).

Lemma xform_carried cluster destSP src srcU :
  customized cluster src destSP false = Some srcU →
  ∃ u, xform cluster destSP src = Some u ∧ umName (uMeta u) = umName (uMeta srcU) ∧ carried eq srcU u.
Proof.
  intros Hc. unfold xformForDestination. change (customized cluster src destSP true) with
    (customized cluster src destSP false). rw Hc. cbn [mbind option_bind].
  destruct srcU as [[a b c d e f g labels annotations j k] content]. eexists. split; [reflexivity|]. split; [done|].
  split; cbn; [by eauto| |apply lookup_insert_eq|done]. intros key x _ Hne Hx. by rw lookup_insert_ne.
Qed.

(** The part of a copy that comes after the namespace, if no state is to be returned. *)
Definition copy_object (cluster : string) (rscClient : ClientRef) (Name : string) (src : Unstructured Value)
  (destination : SinglePlacement) (createOnly : bool) : trier S := λ s,
  match oc_Get oc rscClient Name s with
  | LookupError _ => Some (true, s)
  | Found destObj =>
      if createOnly then Some (false, s)
      else
        revisedDestObj ← merge cluster destination src destObj;
        if DeepEqual destObj revisedDestObj then Some (false, s)
        else let '(ok, s) := oc_Update oc rscClient revisedDestObj s in Some (negb ok, s)
  | NotFound =>
      destObj ← xform cluster destination src;
      let '(ok, s) := oc_Create oc rscClient destObj s in Some (negb ok, s)
  end.

Lemma copy_object_done cluster rscClient Name src srcU destination createOnly s :
  (∀ a b, DeepEqual a b = true → stored kept b a) →
  customized cluster src destination false = Some srcU → umName (uMeta srcU) = Name →
  ∃ retry s',
    copy_object cluster rscClient Name src destination createOnly s = Some (retry, s') ∧
    (retry = false → ∃ v, oc_Get oc rscClient Name s' = Found v ∧ (createOnly = false → carried kept srcU v)).
Proof.
  intros Hdeep Hc Hn. unfold copy_object. destruct (oc_Get oc rscClient Name s) as [destObj| |] eqn:Hget.
  - destruct createOnly; [exists false, s; split; [done|]; intros _; by exists destObj|].
    destruct (merge_Some _ _ _ _ cluster destination src srcU destObj Hc) as (out & -> & Hm). cbn [mbind option_bind].
    pose proof (is_merge_carried _ _ _ Hm) as Hcar.
    destruct (DeepEqual destObj out) eqn:Heq.
    + exists false, s. split; [done|]. intros _. exists destObj. split; [done|]. intros _.
      by eapply carried_stored, Hdeep.
    + destruct (oc_Update oc rscClient out s) as [ok s'] eqn:Hu. exists (negb ok), s'. split; [done|].
      intros Hok. destruct ok; [|done]. apply oc_update_ok in Hu as (v & Hv & Hst).
      assert (umName (uMeta out) = Name) as Hname.
      { rw -(oc_get_named _ _ _ _ Hget). destruct Hm as [Hm _]. unfold other_metadata in Hm.
        destruct out as [[] ?], destObj as [[] ?]. by injection Hm. }
      rewrite Hname in Hv. exists v. split; [done|]. intros _. by eapply carried_stored.
  - destruct (xform_carried cluster destination src srcU Hc) as (u & -> & Hun & Hcar). cbn [mbind option_bind].
    destruct (oc_Create oc rscClient u s) as [ok s'] eqn:Hu. exists (negb ok), s'. split; [done|].
    intros Hok. destruct ok; [|done]. apply oc_create_ok in Hu as (v & Hv & Hst). rewrite Hun Hn in Hv.
    exists v. split; [done|]. intros _. by eapply carried_stored.
  - exists true, s. by split.
Qed.

(** C6: the work to copy a source object to a destination, when the reported state is not to
    be returned and the customization of the object for the destination does not panic and
    keeps its name, returns. Suppose that an API server that accepts an object stores it under
    its name with what was sent, where it may add defaults, and that objects that compare as
    equal do not differ otherwise. Then if the work does not ask for a retry the object is at
    the destination, and unless it is create-only it carries there the top-level fields, with
    the defaults of the server, the labels and the annotations of the source object as
    customized, except for those that are not to be projected, and the label of projected
    objects. Doing the work again is then done without a request that changes anything, if
    the namespace of a namespaced object is in the cache by then, the server has added no
    defaults to the fields sent, and the annotations of the source, if any, are not all
    annotations of the system. *)
Theorem syncSourceToDest_projects cluster srcClient rscClient Namespace Name src srcU namespaced destination bits n s :
  (∀ a b, DeepEqual a b = true → stored kept b a) → (∀ a, DeepEqual a a = true) →
  dbReturnSingletonState bits = false →
  customized cluster src destination false = Some srcU → umName (uMeta srcU) = Name →
  let work := copy cluster srcClient rscClient Namespace Name (Some src) namespaced destination bits n in
  ∃ retry s', work s = Some (retry, s') ∧
    (retry = false → ∃ v, oc_Get oc rscClient Name s' = Found v ∧
       (dbCreateOnly bits = false → carried kept srcU v) ∧
       (annotated srcU → (dbCreateOnly bits = false → carried eq srcU v) →
        (namespaced = true → ns_Lookup oc destination Namespace s' = Found tt) →
        work s' = Some (false, s'))).
Proof.
  intros Hdeep Hrefl Hbits Hc Hn work.
  assert (∀ s', ∃ nsOk s1, work s' = (if negb nsOk then Some (true, s1) else
    copy_object cluster rscClient Name src destination (dbCreateOnly bits) s1)
    ∧ ((namespaced = true → ns_Lookup oc destination Namespace s' = Found tt) → nsOk = true ∧ s1 = s')) as Hwork.
  { intros s'. unfold work, syncSourceToDest, copy_object. rw Hbits. cbn [andb negb].
    destruct namespaced; [|by exists true, s'].
    destruct (ns_Lookup oc destination Namespace s') as [[]| |].
    - by exists true, s'.
    - destruct (ns_Create _ _ _ _ _) as [res s1].
      exists (match res with NsCreateFailed => false | _ => true end), s1. split; [by destruct res|].
      intros Hf. by specialize (Hf eq_refl).
    - exists false, s'. split; [done|]. intros Hf. by specialize (Hf eq_refl). }
  destruct (Hwork s) as (nsOk & s1 & -> & _). destruct nsOk; cbn [negb]; [|by exists true, s1].
  destruct (copy_object_done cluster rscClient Name src srcU destination (dbCreateOnly bits) s1 Hdeep Hc Hn)
    as (retry & s' & -> & Hdone).
  exists retry, s'. split; [done|]. intros Hr. destruct (Hdone Hr) as (v & Hv & Hcar). exists v. split_and!; [done..|].
  intros Han Hexact Hns. destruct (Hwork s') as (nsOk & s2 & -> & Hs2). destruct (Hs2 Hns) as [-> ->]. cbn [negb]. unfold copy_object. rw Hv.
  destruct (dbCreateOnly bits); [done|].
  destruct (merge_Some _ _ _ _ cluster destination src srcU v Hc) as (out & -> & Hm). cbn [mbind option_bind].
  rw (carried_merge_same srcU v out); [by rw Hrefl|done|by apply Hexact|done].
Qed.
End to_destination.

(** * Objects at a destination *)

(** Whether the tables distribute the object to the destination. *)
Definition object_goes (t : Tables) (destination : SinglePlacement) (gr : GroupResource)
  (Namespace : string) (Name : ObjectName) : Prop :=
  if decide (Namespace = noNamespace) then cluster_scoped_goes t destination gr Name
  else namespaced_goes t destination gr (Namespace, Name).

(** How the tables distribute the object of the source to the destination. *)
Definition object_bits (t : Tables) (source : string) (gr : GroupResource) (Namespace : string) (Name : ObjectName)
  (destination : SinglePlacement) : option DistributionBits :=
  if decide (Namespace = noNamespace)
  then tNonNamespaced t !! (MkProjectionModeKey gr destination, MkExternalName source Name)
  else tNamespaced t !! (MkProjectionModeKey gr destination, NewTriple source Namespace Name).

Section at_destination.
Context `{MapRange} {Value S : Type}.
Context (oc : ObjectClient Value S).
Context (DeepEqualValue : option Value → option Value → bool).
Context (sourceCache : string → GroupResource → option string → string → Lookup (Unstructured Value)).
Context (destinationCache : SinglePlacement → GroupResource → option string → string → Lookup (Unstructured Value)).
Abbreviation sync := (syncDestinationObject oc DeepEqualValue sourceCache destinationCache).

(** An entry of the index of a destination that is there and not empty. *)
Definition has_sources {A} (m : option (gmap string A)) : bool :=
  match m with Some m => negb (size m =? 0)%nat | None => false end.

Lemma has_sources_spec {A} (m : option (gmap string A)) :
  has_sources m = true ↔ ∃ source, is_Some (m ≫= λ i, i !! source).
Proof.
  destruct m as [m|]; cbn; [|split; [done|by intros (? & ? & ?)]]. rw negb_true_iff Nat.eqb_neq map_size_empty_iff. split.
  - intros (source & v & Hv)%map_choose. exists source. by eexists.
  - intros (source & v & Hv) ->. by rw lookup_empty in Hv.
Qed.

Lemma wanted_spec t w destination wpd gr Namespace Name :
  tables_hold t w → wp_perDestination w !! destination = Some wpd →
  has_sources (if negb (bool_decide (Namespace = noNamespace))
               then wpd_nsdDistributions wpd !! NewPair gr (doRef_namespacedName Namespace Name)
               else wpd_nnsDistributions wpd !! NewPair gr Name) = true ↔
  object_goes t destination gr Namespace Name.
Proof.
  intros (Hns & _ & Hcs & _) Hd. unfold object_goes. case_decide as Hn.
  - rw bool_decide_eq_true_2 // has_sources_spec. unfold cluster_scoped_goes.
    pose proof (λ source, shared_lookup _ _ _ _ w destination (gr, Name) source Hcs) as Hl.
    setoid_rewrite Hl. unfold inner_at, shared_record. cbn [cget perDestination_cell wpd_nns_cell]. by rw Hd.
  - rw bool_decide_eq_false_2 // has_sources_spec. unfold namespaced_goes.
    pose proof (λ source, shared_lookup _ _ _ _ w destination (gr, (Namespace, Name)) source Hns) as Hl.
    setoid_rewrite Hl. unfold inner_at, shared_record. cbn [cget perDestination_cell wpd_nsd_cell]. by rw Hd.
Qed.
Lemma sources_bits t w destination wpd gr Namespace Name source :
  tables_hold t w → wp_perDestination w !! destination = Some wpd →
  object_bits t source gr Namespace Name destination
  = (if negb (bool_decide (Namespace = noNamespace))
     then wpd_nsdDistributions wpd !! NewPair gr (doRef_namespacedName Namespace Name)
     else wpd_nnsDistributions wpd !! NewPair gr Name) ≫= λ m, m !! source.
Proof.
  intros (Hns & _ & Hcs & _) Hd. unfold object_bits. case_decide as Hn.
  - rw bool_decide_eq_true_2 //.
    pose proof (shared_lookup _ _ _ _ w destination (gr, Name) source Hcs) as Hl.
    etrans; [exact Hl|]. unfold inner_at, shared_record. cbn [cget perDestination_cell wpd_nns_cell]. by rw Hd.
  - rw bool_decide_eq_false_2 //.
    pose proof (shared_lookup _ _ _ _ w destination (gr, (Namespace, Name)) source Hns) as Hl.
    etrans; [exact Hl|]. unfold inner_at, shared_record. cbn [cget perDestination_cell wpd_nsd_cell]. by rw Hd.
Qed.

(** A trier that returns and keeps [P]. *)
Definition keeps (P : S → Prop) (tr : trier S) : Prop := ∀ s, P s → ∃ retry s', tr s = Some (retry, s') ∧ P s'.

Lemma triers_keep P (ts : list (trier S)) : (∀ tr, tr ∈ ts → keeps P tr) → keeps P (triers_try ts).
Proof.
  intros Hts s HP. unfold triers_try.
  apply (for_each_ind (λ _ res, ∃ retry s', res = Some (retry, s') ∧ P s')); [by exists false, s|].
  intros seen tr todo res Heq (retry & s1 & -> & HP1). cbn [mbind option_bind].
  destruct (Hts tr) with s1 as (again & s2 & -> & HP2); [|done|cbn; by eexists _, _].
  rw Heq. apply elem_of_app. right. by left.
Qed.

(** The request of [returnState]: to the client of the source for the resource and the
    namespace, the object in the cache with the status of the object at the destination. *)
Definition reports_state (gr : GroupResource) (namespaced : bool) (Namespace : string) (Name : ObjectName)
  (objM : Unstructured Value) (source : string) (s s' : S) : Prop :=
  ∃ version srcU,
    let maybeNS := if namespaced then Some Namespace else None in
    sourceCache source gr maybeNS Name = Found srcU ∧
    s' = (oc_UpdateStatus oc (MkClientRef (AtSource source) gr version maybeNS)
            (SetContent (partial_alter (λ _, uContent objM !! "status") "status" (uContent srcU)) srcU) s).2.

Lemma returnState_keeps P gr namespaced Namespace Name objM sourceWant w tryem addRetry :
  (dbReturnSingletonState sourceWant.2 = true →
   ∀ s s', reports_state gr namespaced Namespace Name objM sourceWant.1 s s' → P s → P s') →
  (∀ tr, tr ∈ tryem → keeps P tr) →
  ∀ tr, tr ∈ (returnState oc DeepEqualValue sourceCache gr namespaced Namespace Name objM sourceWant w
                (tryem, addRetry)).1 → keeps P tr.
Proof.
  intros HP Htry tr. unfold returnState.
  destruct (dbReturnSingletonState sourceWant.2); cbn [negb]; [|by apply Htry]. specialize (HP eq_refl).
  destruct (wp_perSource w !! _) as [wps|]; [|by apply Htry].
  destruct (if namespaced then _ else _) as [destWants|]; [|by apply Htry].
  destruct (negb _); [by apply Htry|]. destruct (wps_preInformers wps !! gr) as [duo|]; [|by apply Htry].
  destruct (sourceCache _ _ _ _) as [srcU| |] eqn:Hsrc; [|by apply Htry..]. cbn [fst].
  intros [Hin|Hin]%elem_of_app; [by apply Htry|]. apply list_elem_of_singleton in Hin as ->. intros s Hs.
  unfold reportSingletonState. destruct (DeepEqualValue _ _); [by exists true, s|].
  destruct (oc_UpdateStatus _ _ _ s) as [ok s'] eqn:Hu. exists ok, s'. split; [done|].
  apply (HP s); [|done]. exists (duo_apiVersion duo), srcU. split; [done|].
  unfold clientForMaybeNamespace in Hu. by rw Hu.
Qed.

Lemma returnStates_keep P gr namespaced Namespace Name objM w (l : list (Pair string DistributionBits)) :
  (∀ source bits, (source, bits) ∈ l → dbReturnSingletonState bits = true →
   ∀ s s', reports_state gr namespaced Namespace Name objM source s s' → P s → P s') →
  ∀ tr, tr ∈ (for_each l (λ sourceWant st, returnState oc DeepEqualValue sourceCache gr namespaced Namespace Name
                objM sourceWant w st) ([], false)).1 → keeps P tr.
Proof.
  intros HP. apply (for_each_ind (λ _ st, ∀ tr, tr ∈ st.1 → keeps P tr)); [intros tr Hin; by apply not_elem_of_nil in Hin|].
  intros seen [source bits] todo [tryem addRetry] Heq Htry. apply returnState_keeps; [|done].
  apply HP. rw Heq. apply elem_of_app. right. by left.
Qed.

(** C8: work on an object at a destination. If the tables distribute it there, the only
    requests that are made are updates of the status of the object of the same resource,
    namespace and name at sources for which the tables ask for the return of the reported
    state from this destination, each with the status of the object at the destination; so
    the object is never deleted. If the tables do not distribute it there, the resource is
    not the one of Namespaces (those are left alone) and is watched at the destination, and
    the object is in the cache and is not being deleted yet, its deletion is requested, on
    condition that it is still the one in the cache, and the work is to be retried exactly
    if the request fails. *)
Theorem syncDestinationObject_right t w s destination gr Namespace Name :
  tables_hold t w →
  let namespaced := negb (bool_decide (Namespace = noNamespace)) in
  let cached := destinationCache destination gr (if namespaced then Some Namespace else None) Name in
  (gr = nsGR → sync destination gr Namespace Name w s = Some (false, s)) ∧
  (object_goes t destination gr Namespace Name →
   ∃ retry s', sync destination gr Namespace Name w s = Some (retry, s') ∧
     rtc (λ s s', ∃ source bits objM, cached = Found objM ∧
            object_bits t source gr Namespace Name destination = Some bits ∧ dbReturnSingletonState bits = true ∧
            reports_state gr namespaced Namespace Name objM source s s') s s') ∧
  (¬ object_goes t destination gr Namespace Name → gr ≠ nsGR →
   ∀ wpd duo objM, wp_perDestination w !! destination = Some wpd → wpd_preInformers wpd !! gr = Some duo →
     cached = Found objM → umDeletionTimestamp (uMeta objM) = None →
     let rscClient := clientForMaybeNamespace (AtDestination destination) gr duo namespaced Namespace in
     sync destination gr Namespace Name w s
     = let '(res, s') := oc_Delete oc rscClient Name (Some (umResourceVersion (uMeta objM))) s in
       Some (match res with DeleteFailed => true | _ => false end, s')).
Proof.
  intros Hw namespaced cached. unfold syncDestinationObject, syncDestinationObject_locked. split_and!.
  - intros ->. by rw bool_decide_eq_true_2.
  - intros Hgoes. case_bool_decide; [by exists false, s|].
    destruct (wp_perDestination w !! destination) as [wpd|] eqn:Hd; [|by exists false, s].
    destruct (wpd_preInformers wpd !! gr) as [duo|]; [|by exists false, s].
    pose proof (wanted_spec t w destination wpd gr Namespace Name Hw Hd) as Hwant. unfold has_sources in Hwant.
    pose proof (λ source, sources_bits t w destination wpd gr Namespace Name source Hw Hd) as Hbits.
    fold namespaced in Hwant, Hbits |- *. rw (proj2 Hwant Hgoes). fold cached.
    destruct cached as [objM| |]; [|by exists false, s..].
    destruct (umDeletionTimestamp (uMeta objM)); [by exists false, s|].
    destruct (bool_decide (gr = crdGR)); [by exists false, s|].
    match goal with |- context [map_range (default ∅ ?m)] => set (wants := m) in * end.
    destruct (for_each _ _ _) as [tryem addRetry] eqn:Hf. apply triers_keep; [|done].
    match goal with |- ∀ tr, _ → keeps ?P0 tr => set (P := P0) end.
    assert (∀ tr, tr ∈ tryem → keeps P tr) as Htry.
    { change tryem with (tryem, addRetry).1. rw -Hf. apply returnStates_keep.
      intros source bits Hin%elem_of_map_range Hret s1 s2 Hrep Hs1. eapply rtc_r; [exact Hs1|].
      exists source, bits, objM. split_and!; [done| |done..]. rw Hbits. by destruct wants. }
    destruct addRetry; [|done]. intros tr [Hin|Hin]%elem_of_app; [by apply Htry|].
    apply list_elem_of_singleton in Hin as ->. intros s1 Hs1. by exists true, s1.
  - intros Hgoes Hne wpd duo objM Hd Hduo Hcache Hdel. rw bool_decide_eq_false_2 // Hd Hduo.
    pose proof (wanted_spec t w destination wpd gr Namespace Name Hw Hd) as Hwant. unfold has_sources in Hwant.
    fold namespaced in Hwant |- *. fold cached.
    match type of Hwant with ?b = true ↔ _ => destruct b end; [by destruct Hgoes; apply Hwant|].
    rw Hcache Hdel. by destruct (oc_Delete _ _ _ _ _) as [[] s'].
Qed.

(** An object at a destination that is there for one source, which wants its reported
    state back and distributes it nowhere else: the work is to be retried exactly if the
    report went well.  So a report that fails is lost, and one that works is repeated. *)
Theorem singleton_retry_inverted w s destination wpd gr duo Namespace Name objM source bits wps destWants srcDuo srcU :
  gr ≠ nsGR → gr ≠ crdGR → Namespace ≠ noNamespace →
  wp_perDestination w !! destination = Some wpd → wpd_preInformers wpd !! gr = Some duo →
  destinationCache destination gr (Some Namespace) Name = Found objM → umDeletionTimestamp (uMeta objM) = None →
  wpd_nsdDistributions wpd !! (gr, (Namespace, Name)) = Some {[source := bits]} →
  dbReturnSingletonState bits = true → wp_perSource w !! source = Some wps →
  (wps_nsdDistributions wps !! gr ≫= λ byNN, byNN !! (Namespace, Name)) = Some destWants → size destWants = 1 →
  wps_preInformers wps !! gr = Some srcDuo → sourceCache source gr (Some Namespace) Name = Found srcU →
  let srcClient := clientForMaybeNamespace (AtSource source) gr srcDuo true Namespace in
  let '(ok, s') := reportSingletonState oc DeepEqualValue srcClient srcU objM s in
  sync destination gr Namespace Name w s = Some (ok, s').
Proof.
  intros Hns Hcrd Hnn Hd Hduo Hobj Hdel Hwant Hbits Hs Hdw Hsize Hsd Hsrc.
  unfold syncDestinationObject, syncDestinationObject_locked.
  rw bool_decide_eq_false_2 // Hd Hduo (bool_decide_eq_false_2 (Namespace = noNamespace)) //. cbn [negb].
  unfold doRef_namespacedName, NewPair. rw Hobj Hdel Hwant map_size_singleton. cbn [Nat.eqb negb default].
  rw bool_decide_eq_false_2 //. cbn [default from_option id].
  assert (map_range ({[source := bits]} : gmap string DistributionBits) = [(source, bits)]) as ->.
  { apply Permutation_singleton_r. rw map_range_perm. by rw map_to_list_singleton. }
  unfold for_each, returnState, doRef_namespacedName, NewPair. cbn [foldl fst snd]. rw Hbits Hs. cbn [negb].
  rw Hdw Hsize Hsd Hsrc. cbn. by destruct (reportSingletonState _ _ _ _ _ s) as [ok s'].
Qed.
End at_destination.

(** * Objects at a source *)

(** The object that a cache has, if it is not being deleted. *)
Definition live {Value} (l : Lookup (Unstructured Value)) : option (Unstructured Value) :=
  match l with
  | Found obj => match umDeletionTimestamp (uMeta obj) with Some _ => None | None => Some obj end
  | _ => None
  end.

(** Whether the cache could answer. *)
Definition answered {A} (l : Lookup A) : Prop := match l with LookupError _ => False | _ => True end.

(** The index of a source says where each of its objects goes. *)
Definition source_destinations (wps : wpPerSource) (gr : GroupResource) (Namespace : string) (Name : ObjectName)
  : option (gmap SinglePlacement DistributionBits) :=
  if negb (bool_decide (Namespace = noNamespace))
  then byNN ← wps_nsdDistributions wps !! gr; byNN !! (NewPair Namespace Name : NamespacedName)
  else byName ← wps_nnsDistributions wps !! gr; byName !! Name.

Lemma proj3_lookup {Name} `{Countable Name}
  (f : gmap GroupResource (gmap Name (gmap SinglePlacement DistributionBits))) gr (n : Name) d :
  proj3_abs f !! NewTriple gr n d = (i ← f !! gr; i !! n) ≫= λ m, m !! d.
Proof.
  unfold factored_abs at 1. rw lookup_flatten. cbn. destruct (f !! gr) as [i|]; [|done]. cbn.
  unfold factored_abs. by rw lookup_flatten.
Qed.

Lemma source_destinations_bits `{MapRange} t w source wps gr Namespace Name destination :
  tables_hold t w → wp_perSource w !! source = Some wps →
  object_bits t source gr Namespace Name destination
  = source_destinations wps gr Namespace Name ≫= λ m, m !! destination.
Proof.
  intros (_ & [_ Hns] & _ & [_ Hcs] & _) Hs. unfold object_bits, source_destinations. case_decide as Hn.
  - rw bool_decide_eq_true_2 // Hcs. unfold inner_at, shared_record. cbn [cget perSource_cell wps_nns_cell].
    cbn. rw Hs. apply proj3_lookup.
  - rw bool_decide_eq_false_2 // Hns. unfold inner_at, shared_record. cbn. rw Hs. apply proj3_lookup.
Qed.

(** The triers are run one after the other, and none asks for a retry. *)
Fixpoint run_in_turn {S} (ts : list (trier S)) (s s' : S) : Prop :=
  match ts with
  | [] => s' = s
  | tr :: ts => ∃ s1, tr s = Some (false, s1) ∧ run_in_turn ts s1 s'
  end.

(** If no retry is asked for then no trier asked for one. *)
Lemma triers_try_false {S} (ts : list (trier S)) s s' :
  triers_try ts s = Some (false, s') → run_in_turn ts s s'.
Proof.
  unfold triers_try. assert (∀ retry, for_each ts (λ trier res, '(retry, s) ← res; '(again, s) ← trier s;
    Some (retry || again, s)) (Some (retry, s)) = Some (false, s') → retry = false ∧ run_in_turn ts s s') as Hgen.
  { revert s. induction ts as [|tr ts IH]; intros s retry; [by intros [= -> ->]|]. rw for_each_cons.
    cbn [mbind option_bind run_in_turn]. destruct (tr s) as [[again s1]|]; cbn [mbind option_bind].
    - intros [[-> ->]%orb_false_iff Hrun]%IH. eauto.
    - intros He. exfalso. revert He. clear. induction ts as [|tr ts IH]; [done|]. by rw for_each_cons. }
  by intros [_ ?]%Hgen.
Qed.

Section at_source.
Context `{MapRange} {Value S : Type}.
Context (oc : ObjectClient Value S).
Context (DeepEqual : Unstructured Value → Unstructured Value → bool).
Context (DeepEqualValue : option Value → option Value → bool).
Context (sourceCache : string → GroupResource → option string → string → Lookup (Unstructured Value)).
Context (clientFailure : SinglePlacement → option bool).
Context (edgeClientFor : string → bool).
Context (Customizers_Get : string → string → string → Lookup Customizer).
Context (Locations_Get : string → string → Lookup Location).
Context (customize_Customize :
  Unstructured Value → option Customizer → option Location → option (Unstructured Value)).
Abbreviation copy := (syncSourceToDest oc DeepEqual DeepEqualValue edgeClientFor Customizers_Get Locations_Get
                        customize_Customize).
Abbreviation copyLocked := (syncSourceToDestLocked oc DeepEqual DeepEqualValue clientFailure edgeClientFor
                              Customizers_Get Locations_Get customize_Customize).
Abbreviation sync := (syncSourceObject oc DeepEqual DeepEqualValue sourceCache clientFailure edgeClientFor
                        Customizers_Get Locations_Get customize_Customize).

(** The informer and client that the projector has for the resource at the destination. *)
Definition duo_at (w : workloadProjector) (destination : SinglePlacement) (gr : GroupResource) : option dynamicDuo :=
  wpd ← wp_perDestination w !! destination; wpd_preInformers wpd !! gr.

(** The trier copies to the destination, with the client there for the resource and namespace. *)
Definition copies w Cluster srcClient gr Namespace Name src namespaced n
  (tup : SinglePlacement * DistributionBits) (tr : trier S) : Prop :=
  ∃ duo, duo_at w tup.1 gr = Some duo ∧
    tr = copy Cluster srcClient (clientForMaybeNamespace (AtDestination tup.1) gr duo namespaced Namespace)
           Namespace Name src namespaced tup.1 tup.2 n.

Lemma getDynamicDuo_keeps destination gr apiVersion namespaced wpd gr' duo :
  wpd_preInformers wpd !! gr' = Some duo →
  wpd_preInformers (wpd_getDynamicDuoLocked clientFailure destination gr apiVersion namespaced wpd).2 !! gr' = Some duo.
Proof.
  intros Hduo. unfold wpd_getDynamicDuoLocked. cbv zeta.
  assert (wpd_preInformers wpd !! gr = None → ∀ duo',
    <[gr:=duo']> (wpd_preInformers wpd) !! gr' = Some duo) as Hgo.
  { intros Hg duo'. rw lookup_insert_ne //. by intros ->; rw Hg in Hduo. }
  destruct (wpd_dynamicClient wpd); [|destruct (clientFailure destination) as [[]|]; [done..|]]; cbn;
    destruct (wpd_preInformers wpd !! gr); cbn; auto.
Qed.

Lemma getDynamicDuo_there destination gr apiVersion namespaced wpd duo wpd' :
  wpd_getDynamicDuoLocked clientFailure destination gr apiVersion namespaced wpd = (inr duo, wpd') →
  wpd_preInformers wpd' !! gr = Some duo.
Proof.
  unfold wpd_getDynamicDuoLocked. cbv zeta.
  destruct (wpd_dynamicClient wpd); [|destruct (clientFailure destination) as [[]|]]; [|done|done|]; cbn;
    (destruct (wpd_preInformers wpd !! gr) eqn:Hg; intros [= <- <-]; cbn; [done|apply lookup_insert_eq]).
Qed.

(** Either there is a trier for each destination seen, or a retry is due. *)
Lemma visit_destinations Cluster srcClient gr Namespace Name src namespaced modes n w
  (l : list (SinglePlacement * DistributionBits)) :
  let '(tryAgain, remWork, w') :=
    for_each l (λ tup '(tryAgain, remWork, w),
      let '(retryThis, rem, w) :=
        copyLocked Cluster srcClient gr Namespace Name src namespaced modes tup.1 tup.2 n w in
      (tryAgain || retryThis, match rem with Some rem => remWork ++ [rem] | None => remWork end, w))
      (false, [], w) in
  tryAgain = true ∨ Forall2 (copies w' Cluster srcClient gr Namespace Name src namespaced n) l remWork.
Proof.
  apply (for_each_ind (λ seen '(tryAgain, remWork, w'), tryAgain = true ∨
    Forall2 (copies w' Cluster srcClient gr Namespace Name src namespaced n) seen remWork)); [by right|].
  intros seen [d bits] todo [[tryAgain remWork] w1] _ [-> |IH]; cbn [fst snd].
  - destruct (copyLocked _ _ _ _ _ _ _ _ _ _ _ _) as [[retryThis rem] w2]. by left.
  - unfold syncSourceToDestLocked. destruct (wp_perDestination w1 !! d) as [wpd|] eqn:Hd; [|left; apply orb_true_r].
    destruct (map_Get modes _ w1) as [pmv|]; [|left; apply orb_true_r].
    pose proof (getDynamicDuo_keeps d gr (pmvAPIVersion pmv) namespaced wpd) as Hkeep.
    pose proof (getDynamicDuo_there d gr (pmvAPIVersion pmv) namespaced wpd) as Hthere.
    destruct (wpd_getDynamicDuoLocked _ _ _ _ _ _) as [[[]|duo] wpd']; [left; apply orb_true_r|]. right.
    assert (∀ w d', duo_at (cset perDestination_cell (<[d:=wpd']> (wp_perDestination w1)) w) d' gr
      = if decide (d' = d) then wpd_preInformers wpd' !! gr else wpd ← wp_perDestination w1 !! d'; wpd_preInformers wpd !! gr)
      as Hat.
    { intros [] d'. unfold duo_at. cbn. destruct (decide (d' = d)) as [-> |]; [by rw lookup_insert_eq|].
      by rw lookup_insert_ne. }
    apply Forall2_app.
    + eapply Forall2_impl; [exact IH|]. intros tup tr (duo' & Hduo & ->). exists duo'. split; [|done]. rw Hat.
      case_decide as He; [|done]. apply (Hkeep gr). unfold duo_at in Hduo. rewrite He Hd in Hduo. exact Hduo.
    + apply Forall2_cons_2; [|apply Forall2_nil_2]. exists duo. split; [|done]. rw Hat decide_True //. by apply Hthere.
Qed.

(** C7: work on an object at a source that returns without asking for a retry, for a resource
    that is watched at the source and an object that the cache could answer for, has changed
    the state of the API servers exactly by works of copying the object, or if it is gone or
    being deleted of deleting it, one for each destination that the tables distribute it to,
    in turn and each with no need for a retry; each with the bits of the tables, the number
    of destinations in them, and the client at its destination for the resource and the
    namespace of the object. *)
Theorem syncSourceObject_reaches t w s w' s' Cluster wps gr srcDuo Namespace Name :
  tables_hold t w → wp_perSource w !! Cluster = Some wps → wps_preInformers wps !! gr = Some srcDuo →
  let namespaced := negb (bool_decide (Namespace = noNamespace)) in
  let srcObj := sourceCache Cluster gr (if namespaced then Some Namespace else None) Name in
  answered srcObj → sync Cluster gr Namespace Name w s = Some (false, (w', s')) →
  let srcClient := clientForMaybeNamespace (AtSource Cluster) gr srcDuo namespaced Namespace in
  ∃ (dests : gmap SinglePlacement DistributionBits) works,
    (∀ d, dests !! d = object_bits t Cluster gr Namespace Name d) ∧
    Forall2 (λ '(d, bits) work, ∃ duo, duo_at w' d gr = Some duo ∧
      work = copy Cluster srcClient (clientForMaybeNamespace (AtDestination d) gr duo namespaced Namespace)
               Namespace Name (live srcObj) namespaced d bits (size dests)) (map_range dests) works ∧
    run_in_turn works s s'.
Proof.
  intros Hw Hs Hduo namespaced srcObj Hans Hsync srcClient.
  pose proof (λ d, source_destinations_bits t w Cluster wps gr Namespace Name d Hw Hs) as Hbits.
  unfold syncSourceObject in Hsync. destruct (syncSourceObject_locked _ _ _ _ _ _ _ _ _ _ _ _ _) as [finish w1] eqn:Hfin.
  destruct (triers_try finish s) as [[retry s3]|] eqn:Htry; [|done]. cbn in Hsync. injection Hsync as -> -> ->.
  destruct (source_destinations wps gr Namespace Name) as [dests|] eqn:Hdest; cycle 1.
  { exists ∅, []. split_and!; [intros d; by rw Hbits lookup_empty|by rw map_range_empty|].
    revert Hfin. unfold syncSourceObject_locked. rw Hs Hduo. unfold source_destinations in Hdest. rw Hdest.
    destruct (sourceCache _ _ _ _); intros [= <- _]; by injection Htry. }
  exists dests.
  assert (∃ modes, (let '(tryAgain, remWork, w) :=
      for_each (map_range dests) (λ tup '(tryAgain, remWork, w),
        let '(retryThis, rem, w) := copyLocked Cluster srcClient gr Namespace Name (live srcObj) namespaced modes
                                      tup.1 tup.2 (size dests) w in
        (tryAgain || retryThis, match rem with Some rem => remWork ++ [rem] | None => remWork end, w))
        (false, [], w) in
      (if tryAgain : bool then remWork ++ [returnTrue] else remWork, w)) = (finish, w')) as [modes Hgo].
  { revert Hfin. unfold syncSourceObject_locked. rw Hs Hduo. unfold source_destinations in Hdest. rw Hdest.
    fold namespaced srcClient. fold srcObj. unfold live.
    destruct srcObj as [obj| |]; [|eauto|done]. destruct (umDeletionTimestamp (uMeta obj)); eauto. }
  pose proof (visit_destinations Cluster srcClient gr Namespace Name (live srcObj) namespaced modes
    (size dests) w (map_range dests)) as Hv.
  destruct (for_each _ _ _) as [[tryAgain remWork] w2]. injection Hgo as <- ->.
  apply triers_try_false in Htry. destruct tryAgain.
  { exfalso. clear -Htry. revert s Htry. induction remWork as [|tr ts IH]; intros s; [by intros (? & ? & _)|].
    intros (s1 & _ & Hrun). by eapply IH. }
  destruct Hv as [?|Hv]; [done|]. exists remWork. split_and!; [by intros d; rw Hbits| |done].
  eapply Forall2_impl; [exact Hv|]. by intros [d bits] tr.
Qed.
End at_source.
