(* ===== verification/SyncerManagers.v ===== *)
(** The syncer's record of what to sync (pkg/syncer/controller): the SyncConfigManager keeps
    the EdgeSyncConfigs and derives the resources to sync, and to stop syncing, in each
    direction (syncconfigmanager.go); the SyncerConfigManager turns the SyncerConfigs, which
    the workload projector writes, into EdgeSyncConfigs (syncerconfigmanager.go).

    The resources that an API server offers (restmapper.APIGroupResources) are inputs. *)

From stdpp Require Import sorting.
From S2P Require Import Prelude Tuples Interfaces Slices Sets Maps GoStrings Types KbUser HashDomains HashMap.
From S2P Require Import Relations FactoredMap Receivers Joins Organizer WorkloadProjector SyncerConfig.

(** * Data *)

Record EdgeSyncConfigResource : Set := MkEdgeSyncConfigResource {
  rKind : string;
  rGroup : string;
  rVersion : string;
  rName : string;
  rNamespace : string
}.

#[export] Instance EdgeSyncConfigResource_eq_dec : EqDecision EdgeSyncConfigResource.
Proof. solve_decision. Defined.
#[export] Instance EdgeSyncConfigResource_countable : Countable EdgeSyncConfigResource.
Proof.
  refine (inj_countable' (λ r, (rKind r, rGroup r, rVersion r, rName r, rNamespace r))
    (λ '(k, g, v, n, ns), MkEdgeSyncConfigResource k g v n ns) _). by intros [].
Defined.

Record EdgeSynConversion : Set := MkEdgeSynConversion {
  cUpstream : EdgeSyncConfigResource;
  cDownstream : EdgeSyncConfigResource
}.

Record EdgeSyncConfigSpec : Set := MkEdgeSyncConfigSpec {
  DownSyncedResources : list EdgeSyncConfigResource;
  UpSyncedResources : list EdgeSyncConfigResource;
  Conversions : list EdgeSynConversion
}.

Record EdgeSyncConfig : Set := MkEdgeSyncConfig {
  escName : string;
  escSpec : EdgeSyncConfigSpec
}.

Record indexedSyncedResources : Type := MkIndexedSyncedResources {
  syncedResources : list EdgeSyncConfigResource;
  isr_index : gmap EdgeSyncConfigResource bool
}.

(** The zero value of the struct, with a nil slice and a nil map. *)
Definition zeroIndexed : indexedSyncedResources := MkIndexedSyncedResources [] ∅.

Record SyncConfigManager : Type := MkSyncConfigManager {
  syncConfigMap : gmap string EdgeSyncConfig;
  indexedDownSyncedResources : indexedSyncedResources;
  indexedUpSyncedResources : indexedSyncedResources;
  indexedDownUnsyncedResources : indexedSyncedResources;
  indexedUpUnsyncedResources : indexedSyncedResources;
  conversions : list EdgeSynConversion
}.

(** * SyncConfigManager *)

Section sync_config_manager.
Context `{MapRange}.

Definition createIndexedSyncedResources (resources : list EdgeSyncConfigResource) : indexedSyncedResources :=
  let index := for_each resources (λ resource index,
                 match index !! resource with Some _ => index | None => <[resource:=true]> index end) ∅ in
  MkIndexedSyncedResources (for_each (map_range index) (λ '(key, _) l, l ++ [key]) []) index.

Definition NewSyncConfigManager : SyncConfigManager :=
  MkSyncConfigManager ∅ (createIndexedSyncedResources []) (createIndexedSyncedResources [])
    zeroIndexed zeroIndexed [].

Definition createIndexedDownAndUpSyncedResources (syncConfigMap : gmap string EdgeSyncConfig)
  : indexedSyncedResources * indexedSyncedResources :=
  let '(down, up) :=
    for_each (map_range syncConfigMap) (λ '(_, syncConfig) '(down, up),
      (down ++ DownSyncedResources (escSpec syncConfig), up ++ UpSyncedResources (escSpec syncConfig))) ([], []) in
  (createIndexedSyncedResources down, createIndexedSyncedResources up).

Definition updateUnsyncedResources (currentUnsynced currentSynced newSynced : indexedSyncedResources)
  : indexedSyncedResources :=
  let notNew '(key, _) unsynced :=
    match isr_index newSynced !! key with Some _ => unsynced | None => unsynced ++ [key] end in
  let unsynced := for_each (map_range (isr_index currentUnsynced)) notNew [] in
  let unsynced := for_each (map_range (isr_index currentSynced)) notNew unsynced in
  createIndexedSyncedResources unsynced.

Definition copySyncConfigMap (m : gmap string EdgeSyncConfig) : gmap string EdgeSyncConfig :=
  for_each (map_range m) (λ '(key, value) copy, <[key:=value]> copy) ∅.

Definition refresh (newSyncConfig : gmap string EdgeSyncConfig) (s : SyncConfigManager) : SyncConfigManager :=
  let conversions := for_each (map_range (syncConfigMap s)) (λ '(_, syncConfig) l,
                       l ++ Conversions (escSpec syncConfig)) [] in
  let '(currentDown, currentUp) := createIndexedDownAndUpSyncedResources (syncConfigMap s) in
  let '(newDown, newUp) := createIndexedDownAndUpSyncedResources newSyncConfig in
  MkSyncConfigManager (syncConfigMap s) newDown newUp
    (updateUnsyncedResources (indexedDownUnsyncedResources s) currentDown newDown)
    (updateUnsyncedResources (indexedUpUnsyncedResources s) currentUp newUp) conversions.

Definition set_syncConfigMap (m : gmap string EdgeSyncConfig) (s : SyncConfigManager) : SyncConfigManager :=
  MkSyncConfigManager m (indexedDownSyncedResources s) (indexedUpSyncedResources s)
    (indexedDownUnsyncedResources s) (indexedUpUnsyncedResources s) (conversions s).

Definition SyncConfigManager_upsert (syncConfig : EdgeSyncConfig) (s : SyncConfigManager) : SyncConfigManager :=
  let key := escName syncConfig in
  let newSyncConfig := copySyncConfigMap (syncConfigMap s) in
  let newSyncConfig := <[key:=syncConfig]> newSyncConfig in
  set_syncConfigMap newSyncConfig (refresh newSyncConfig s).

Definition SyncConfigManager_delete (key : string) (s : SyncConfigManager) : SyncConfigManager :=
  let newSyncConfig := copySyncConfigMap (syncConfigMap s) in
  let newSyncConfig := delete key newSyncConfig in
  set_syncConfigMap newSyncConfig (refresh newSyncConfig s).

Definition GetDownSyncedResources (s : SyncConfigManager) : list EdgeSyncConfigResource :=
  syncedResources (indexedDownSyncedResources s).
Definition GetUpSyncedResources (s : SyncConfigManager) : list EdgeSyncConfigResource :=
  syncedResources (indexedUpSyncedResources s).
Definition GetDownUnsyncedResources (s : SyncConfigManager) : list EdgeSyncConfigResource :=
  syncedResources (indexedDownUnsyncedResources s).
Definition GetUpUnsyncedResources (s : SyncConfigManager) : list EdgeSyncConfigResource :=
  syncedResources (indexedUpUnsyncedResources s).
Definition GetConversions (s : SyncConfigManager) : list EdgeSynConversion := conversions s.
End sync_config_manager.

(** * API resources *)

(** metav1.APIResource, with the fields that are read *)
Record APIResource : Set := MkAPIResource {
  arName : string;
  arKind : string;
  arVersion : string;
  arNamespaced : bool
}.

(** restmapper.APIGroupResources *)
Record APIGroupResources : Type := MkAPIGroupResources {
  agrGroup : string;
  VersionedResources : gmap string (list APIResource)
}.

Definition find_group (group : string) (l : list APIGroupResources) : option APIGroupResources :=
  List.find (λ groupResources, bool_decide (agrGroup groupResources = group)) l.

Definition findVersionedResourcesByGVR (group version resource : string) (l : list APIGroupResources)
  : list APIResource :=
  match find_group group l with
  | Some apiGroupResources =>
      for_each (default [] (VersionedResources apiGroupResources !! version)) (λ versionedResource found,
        if bool_decide (resource = arName versionedResource) then found ++ [versionedResource]
        else if bool_decide (resource = "*") then found ++ [versionedResource]
        else found) []
  | None => []
  end.

Definition findVersionedResourcesByGV `{MapRange} (group resource : string) (l : list APIGroupResources)
  : list APIResource :=
  match find_group group l with
  | None => []
  | Some apiGroupResources =>
      for_each (map_range (VersionedResources apiGroupResources)) (λ '(version, versionedResources) found,
        for_each versionedResources (λ r found,
          let r := if bool_decide (arVersion r = "") then MkAPIResource (arName r) (arKind r) version (arNamespaced r)
                   else r in
          if bool_decide (resource = arName r) then found ++ [r]
          else if bool_decide (resource = "*") then found ++ [r]
          else found) found) []
  end.

(** * SyncerConfigManager *)

(** A SyncerConfig as the syncer receives it: in an entry of [clusterScope] a nil list of
    objects ([None]) is not an empty one. *)
Record ReceivedClusterScope : Set := MkReceivedClusterScope {
  rcsGroupResource : GroupResource;
  rcsAPIVersion : string;
  rcsObjects : option (list string)
}.

Record ReceivedSyncerConfig : Set := MkReceivedSyncerConfig {
  rscName : string;
  rscNamespaceScope : NamespaceScopeDownsyncs;
  rscNamespacedObjects : list NamespaceScopeDownsyncObjects;
  rscClusterScope : list ReceivedClusterScope;
  rscUpsync : list UpsyncSet
}.

(** The tag [omitempty] of [objects]: an empty list is not transmitted, and arrives as nil. *)
Definition received_objects (objects : list string) : option (list string) :=
  match objects with [] => None | _ => Some objects end.

(** What arrives at the syncer when a SyncerConfig has been written. *)
Definition received (syncfg : SyncerConfig) : ReceivedSyncerConfig :=
  let spec := scSpec syncfg in
  MkReceivedSyncerConfig (scName syncfg) (scsNamespaceScope spec) (scsNamespacedObjects spec)
    ((λ csr, MkReceivedClusterScope (csrGroupResource csr) (csrAPIVersion csr) (received_objects (csrObjects csr)))
       <$> scsClusterScope spec)
    (scsUpsync spec).

Definition DOWNSYNC_NAMESPACED_SUFFIX : string := "_downsync_namespaced".
Definition DOWNSYNC_NAMESPACED_OBJECTS_SUFFIX : string := "_downsync_namespaced_objects".
Definition DOWNSYNC_CLUSTERSCOPED_SUFFIX : string := "_downsync_clusterscoped".
Definition UPSYNC_SUFFIX : string := "_upsync".

Record SyncerConfigManager : Type := MkSyncerConfigManager {
  syncConfigManager : SyncConfigManager;
  syncerConfigMap : gmap string ReceivedSyncerConfig
}.

Record flatNamespacedObject : Set := MkFlatNamespacedObject {
  fnoAPIVersion : string;
  fnoGroupResource : GroupResource;
  fnoNamespace : string;
  fnoNames : list string
}.

Definition tableOfFlatNamespacedObject_filter (predicate : flatNamespacedObject → bool)
  (t : list flatNamespacedObject) : list flatNamespacedObject :=
  for_each t (λ obj l, if predicate obj then l ++ [obj] else l) [].

(** [List] of a [sets.String]: in order *)
Definition sets_List (s : gset string) : list string := merge_sort String.le (elements s).

Definition getAllNamespaces (t : list flatNamespacedObject) : list string :=
  sets_List (for_each t (λ obj namespaces, {[fnoNamespace obj]} ∪ namespaces) ∅).

Definition namespaceResource (namespace : string) : EdgeSyncConfigResource :=
  MkEdgeSyncConfigResource "Namespace" "" "v1" namespace "".

Section syncer_config_manager.
Context `{MapRange}.
Abbreviation R := EdgeSyncConfigResource.
Abbreviation APIs := (list APIGroupResources).

Definition SyncerConfigManager_upsert (syncerConfig : ReceivedSyncerConfig) (s : SyncerConfigManager)
  : SyncerConfigManager :=
  MkSyncerConfigManager (syncConfigManager s) (<[rscName syncerConfig := syncerConfig]> (syncerConfigMap s)).

Definition upsertNamespaceScoped (syncerConfig : ReceivedSyncerConfig) (upstream : APIs) (m : SyncConfigManager)
  : SyncConfigManager :=
  let resources := for_each (nsdNamespaces (rscNamespaceScope syncerConfig)) (λ namespace resources,
    for_each (nsdResources (rscNamespaceScope syncerConfig)) (λ r resources,
      let group := grGroup (nsdrGroupResource r) in
      let version := nsdrAPIVersion r in
      let versionedResources := findVersionedResourcesByGVR group version (grResource (nsdrGroupResource r)) upstream in
      for_each versionedResources (λ versionedResource resources,
        resources ++ [MkEdgeSyncConfigResource (arKind versionedResource) group version "*" namespace]) resources)
      (resources ++ [namespaceResource namespace])) ([] : list R) in
  SyncConfigManager_upsert
    (MkEdgeSyncConfig (rscName syncerConfig +:+ DOWNSYNC_NAMESPACED_SUFFIX) (MkEdgeSyncConfigSpec resources [] [])) m.

Definition upsertNamespacedObjects (syncerConfig : ReceivedSyncerConfig) (upstream : APIs) (m : SyncConfigManager)
  : SyncConfigManager :=
  let table := for_each (rscNamespacedObjects syncerConfig) (λ nsObject table,
    for_each (nsoObjectsByNamespace nsObject) (λ obj table,
      table ++ [MkFlatNamespacedObject (nsoAPIVersion nsObject) (nsoGroupResource nsObject) (nanNamespace obj)
                  (nanNames obj)]) table) [] in
  let requiredNamespaces :=
    getAllNamespaces (tableOfFlatNamespacedObject_filter (λ row, (0 <? length (fnoNames row))%nat) table) in
  let resources := for_each requiredNamespaces (λ namespace resources,
                     resources ++ [namespaceResource namespace]) ([] : list R) in
  let resources := for_each table (λ object resources,
    let group := grGroup (fnoGroupResource object) in
    let version := fnoAPIVersion object in
    let versionedResources := findVersionedResourcesByGVR group version (grResource (fnoGroupResource object)) upstream in
    for_each versionedResources (λ versionedResource resources,
      for_each (fnoNames object) (λ name resources,
        resources ++ [MkEdgeSyncConfigResource (arKind versionedResource) group version name (fnoNamespace object)])
        resources) resources) resources in
  SyncConfigManager_upsert
    (MkEdgeSyncConfig (rscName syncerConfig +:+ DOWNSYNC_NAMESPACED_OBJECTS_SUFFIX)
       (MkEdgeSyncConfigSpec resources [] [])) m.

Definition upsertClusterScoped (syncerConfig : ReceivedSyncerConfig) (upstream : APIs) (m : SyncConfigManager)
  : SyncConfigManager :=
  let resources := for_each (rscClusterScope syncerConfig) (λ clusterScope resources,
    let group := grGroup (rcsGroupResource clusterScope) in
    let version := rcsAPIVersion clusterScope in
    let objects := rcsObjects clusterScope in
    if bool_decide (objects = Some []) then resources
    else
      let versionedResources :=
        findVersionedResourcesByGVR group version (grResource (rcsGroupResource clusterScope)) upstream in
      for_each versionedResources (λ versionedResource resources,
        match objects with
        | None => resources ++ [MkEdgeSyncConfigResource (arKind versionedResource) group version "*" ""]
        | Some objects =>
            for_each objects (λ object resources,
              resources ++ [MkEdgeSyncConfigResource (arKind versionedResource) group version object ""]) resources
        end) resources) ([] : list R) in
  SyncConfigManager_upsert
    (MkEdgeSyncConfig (rscName syncerConfig +:+ DOWNSYNC_CLUSTERSCOPED_SUFFIX)
       (MkEdgeSyncConfigSpec resources [] [])) m.

Definition upsertUpsync (syncerConfig : ReceivedSyncerConfig) (downstream : APIs) (m : SyncConfigManager)
  : SyncConfigManager :=
  let upsyncedNamespaces : gset string :=
    for_each (rscUpsync syncerConfig) (λ upsync s, list_to_set (usNamespaces upsync) ∪ s) ∅ in
  let resources := for_each (sets_List upsyncedNamespaces) (λ namespace resources,
                     resources ++ [namespaceResource namespace]) ([] : list R) in
  let resources := for_each (rscUpsync syncerConfig) (λ upsync resources,
    for_each (usResources upsync) (λ resource resources,
      for_each (findVersionedResourcesByGV (usAPIGroup upsync) resource downstream) (λ r resources,
        let edgeSyncConfigResource := MkEdgeSyncConfigResource (arKind r) (usAPIGroup upsync) (arVersion r) in
        if arNamespaced r then
          for_each (usNamespaces upsync) (λ namespace resources,
            for_each (usNames upsync) (λ name resources,
              resources ++ [edgeSyncConfigResource name namespace]) resources) resources
        else
          for_each (usNames upsync) (λ name resources, resources ++ [edgeSyncConfigResource name ""]) resources)
        resources) resources) resources in
  SyncConfigManager_upsert
    (MkEdgeSyncConfig (rscName syncerConfig +:+ UPSYNC_SUFFIX) (MkEdgeSyncConfigSpec [] resources [])) m.

(** What the API servers offer when a SyncerConfig is looked at, if they answer. *)
Context (upstreamAPIs downstreamAPIs : string → option APIs).

(** The loop ends at the first failure. *)
Definition Refresh (s : SyncerConfigManager) : SyncerConfigManager :=
  let '(_, m) := for_each (map_range (syncerConfigMap s)) (λ '(_, syncerConfig) '(returned, m),
    if returned : bool then (true, m)
    else
      match upstreamAPIs (rscName syncerConfig) with
      | None => (true, m)
      | Some upstream =>
          match downstreamAPIs (rscName syncerConfig) with
          | None => (true, m)
          | Some downstream =>
              let m := upsertNamespacedObjects syncerConfig upstream m in
              let m := upsertNamespaceScoped syncerConfig upstream m in
              let m := upsertClusterScoped syncerConfig upstream m in
              (false, upsertUpsync syncerConfig downstream m)
          end
      end) (false, syncConfigManager s) in
  MkSyncerConfigManager m (syncerConfigMap s).

Definition SyncerConfigManager_delete (key : string) (s : SyncerConfigManager) : SyncerConfigManager :=
  let m := syncConfigManager s in
  let m := SyncConfigManager_delete (key +:+ DOWNSYNC_NAMESPACED_SUFFIX) m in
  let m := SyncConfigManager_delete (key +:+ DOWNSYNC_NAMESPACED_OBJECTS_SUFFIX) m in
  let m := SyncConfigManager_delete (key +:+ DOWNSYNC_CLUSTERSCOPED_SUFFIX) m in
  let m := SyncConfigManager_delete (key +:+ UPSYNC_SUFFIX) m in
  MkSyncerConfigManager m (delete key (syncerConfigMap s)).

Definition NewSyncerConfigManager (m : SyncConfigManager) : SyncerConfigManager := MkSyncerConfigManager m ∅.

(** [process] of the controller of SyncerConfigs; [None] from [SplitMetaNamespaceKey] is an
    error, and the result is whether to try again. *)
Definition syncerConfigController_process (SplitMetaNamespaceKey : string → option (string * string))
  (syncerConfigLister : string → Lookup ReceivedSyncerConfig) (key : string) (s : SyncerConfigManager)
  : option error * SyncerConfigManager :=
  match SplitMetaNamespaceKey key with
  | None => (None, s)
  | Some (_, name) =>
      match syncerConfigLister name with
      | NotFound => (None, SyncerConfigManager_delete name s)
      | LookupError e => (Some (Err e), s)
      | Found syncerConfig => (None, SyncerConfigManager_upsert syncerConfig s)
      end
  end.
End syncer_config_manager.
