(* ===== verification/SyncerManagersFacts.v ===== *)
(** The managers of the syncer: the lists of resources to sync are those of the
    EdgeSyncConfigs, the lists of resources to stop syncing are those that used to be synced;
    and a SyncerConfig is turned into exactly the resources that it lists. *)

From stdpp Require Import sorting.
From S2P Require Import Prelude Tuples Interfaces Slices Sets Maps GoStrings Types KbUser HashDomains HashMap.
From S2P Require Import Relations FactoredMap Receivers Joins Organizer WorkloadProjector WorkloadProjectorFacts.
From S2P Require Import SyncerConfig SyncerConfigFacts SyncerManagers.

(** * Loops that collect *)

(** * Indexed resources *)

Section indexed.
Context `{MapRange}.
Implicit Types (r : EdgeSyncConfigResource) (l : list EdgeSyncConfigResource) (i : indexedSyncedResources).

(** The list has the keys of the index, each once. *)
Definition isr_ok i : Prop :=
  NoDup (syncedResources i) ∧ ∀ r, r ∈ syncedResources i ↔ r ∈ dom (isr_index i).


Lemma range_keys (m : gmap EdgeSyncConfigResource bool) l :
  for_each (map_range m) (λ '(key, _) l, l ++ [key]) l = l ++ (map_range m).*1.
Proof.
  generalize (map_range m) as e. intros e. revert l. induction e as [|[k v] e IH]; intros l; [by rw app_nil_r|].
  change (for_each ((k, v) :: e) _ l) with (for_each e (λ '(key, _) l, l ++ [key]) (l ++ [k])).
  rw IH. by rw -app_assoc.
Qed.

Lemma created_index l : dom (isr_index (createIndexedSyncedResources l)) = list_to_set l.
Proof.
  cbn. apply (for_each_ind (λ seen index, dom index = (list_to_set seen : gset _))); [by rw dom_empty_L|].
  intros seen r todo index _ Hi. destruct (index !! r) as [v|] eqn:Hr.
  - rw list_to_set_app_L -Hi. assert (r ∈ dom index) by by apply elem_of_dom. set_solver.
  - rw dom_insert_L list_to_set_app_L Hi. set_solver.
Qed.

Lemma created_ok l : isr_ok (createIndexedSyncedResources l).
Proof.
  split; cbn; rw range_keys app_nil_l.
  - rw (map_range_perm _). apply NoDup_fst_map_to_list.
  - intros r. rw (map_range_perm _) elem_of_dom list_elem_of_fmap. split.
    + intros ([? v] & -> & Hv). exists v. by apply elem_of_map_to_list.
    + intros [v Hv]. exists (r, v). by rw elem_of_map_to_list.
Qed.

Lemma elem_of_created l r : r ∈ syncedResources (createIndexedSyncedResources l) ↔ r ∈ l.
Proof. rw (proj2 (created_ok l)) created_index. apply elem_of_list_to_set. Qed.

(** Some config has the resource, in the given list of it. *)
Definition synced (which : EdgeSyncConfigSpec → list EdgeSyncConfigResource) (m : gmap string EdgeSyncConfig) r : Prop :=
  ∃ key c, m !! key = Some c ∧ r ∈ which (escSpec c).

#[export] Instance synced_dec which m r : Decision (synced which m r).
Proof.
  destruct (decide (Exists (λ kc, r ∈ which (escSpec kc.2)) (map_to_list m))) as [He|He]; [left|right].
  - apply Exists_exists in He as ([key c] & Hkc%elem_of_map_to_list & Hr). by exists key, c.
  - intros (key & c & Hkc & Hr). apply He, Exists_exists. exists (key, c). by rw elem_of_map_to_list.
Defined.

Lemma collected_lists m r :
  let lists := for_each (map_range m) (λ '(_, syncConfig) '(down, up),
    (down ++ DownSyncedResources (escSpec syncConfig), up ++ UpSyncedResources (escSpec syncConfig))) ([], []) in
  (r ∈ lists.1 ↔ synced DownSyncedResources m r) ∧ (r ∈ lists.2 ↔ synced UpSyncedResources m r).
Proof.
  cbv zeta. unfold synced. setoid_rewrite <-elem_of_map_range.
  apply (for_each_ind (λ seen lists,
    (r ∈ lists.1 ↔ ∃ key c, (key, c) ∈ seen ∧ r ∈ DownSyncedResources (escSpec c)) ∧
    (r ∈ lists.2 ↔ ∃ key c, (key, c) ∈ seen ∧ r ∈ UpSyncedResources (escSpec c)))).
  - split; (split; [by intros ?%not_elem_of_nil|]); intros (? & ? & Hn & _); by apply not_elem_of_nil in Hn.
  - intros seen [key c] todo [d u] _ [IHd IHu]. cbn [fst snd] in *. rw !elem_of_app IHd IHu.
    setoid_rewrite elem_of_snoc. naive_solver.
Qed.

Lemma down_and_up m :
  let res := createIndexedDownAndUpSyncedResources m in
  isr_ok res.1 ∧ isr_ok res.2 ∧
  (∀ r, r ∈ dom (isr_index res.1) ↔ synced DownSyncedResources m r) ∧
  (∀ r, r ∈ dom (isr_index res.2) ↔ synced UpSyncedResources m r).
Proof.
  unfold createIndexedDownAndUpSyncedResources. pose proof (collected_lists m) as Hl. cbv zeta in Hl.
  destruct (for_each _ _ _) as [down up].
  split_and!; [apply created_ok..| |]; intros r; cbn [fst snd]; rw created_index elem_of_list_to_set; apply Hl.
Qed.

Lemma copied m : copySyncConfigMap m = m.
Proof.
  apply map_eq. intros k. unfold copySyncConfigMap.
  rw (for_each_entries (λ _ v _, Some v)); [by destruct (m !! k)|done].
Qed.

Lemma unsynced_index unsynced current new r :
  r ∈ dom (isr_index (updateUnsyncedResources unsynced current new)) ↔
  (r ∈ dom (isr_index unsynced) ∨ r ∈ dom (isr_index current)) ∧ r ∉ dom (isr_index new).
Proof.
  unfold updateUnsyncedResources. rw created_index elem_of_list_to_set.
  assert (∀ (m : gmap EdgeSyncConfigResource bool) acc,
    r ∈ for_each (map_range m) (λ '(key, _) unsynced,
      match isr_index new !! key with Some _ => unsynced | None => unsynced ++ [key] end) acc ↔
    r ∈ acc ∨ r ∈ dom m ∧ r ∉ dom (isr_index new)) as Hloop.
  { intros m acc. rw (for_each_collects _ (λ kv r, isr_index new !! kv.1 = None ∧ r = kv.1)).
    - rw not_elem_of_dom elem_of_dom. split.
      + intros [?|([k v] & Hk%elem_of_map_range & Hn & ->)]; [by left|]. right. split; [by eexists|done].
      + intros [?|[[v Hv] Hn]]; [by left|]. right. exists (r, v). by rw elem_of_map_range.
    - intros [k v] acc' r'. cbn. destruct (isr_index new !! k); [naive_solver|]. rw elem_of_snoc. naive_solver. }
  rw !Hloop. set_solver.
Qed.

(** ** The manager *)

Inductive ConfigOp : Type :=
| UpsertConfig (c : EdgeSyncConfig)
| DeleteConfig (key : string).

Definition run_config_op (op : ConfigOp) : SyncConfigManager → SyncConfigManager :=
  match op with UpsertConfig c => SyncConfigManager_upsert c | DeleteConfig key => SyncConfigManager_delete key end.

Definition spec_config_op (op : ConfigOp) (m : gmap string EdgeSyncConfig) : gmap string EdgeSyncConfig :=
  match op with UpsertConfig c => <[escName c:=c]> m | DeleteConfig key => delete key m end.

(** The configs after the first operations. *)
Definition configs_after (ops : list ConfigOp) : gmap string EdgeSyncConfig := for_each ops spec_config_op ∅.

(** Synced at some time, but not now. *)
Definition stopped which (ops : list ConfigOp) r : Prop :=
  ¬ synced which (configs_after ops) r ∧ ∃ n, synced which (configs_after (take n ops)) r.

(** The four lists after the operations. *)
Definition manager_holds (ops : list ConfigOp) (s : SyncConfigManager) : Prop :=
  syncConfigMap s = configs_after ops ∧
  (isr_ok (indexedDownSyncedResources s) ∧
   ∀ r, r ∈ dom (isr_index (indexedDownSyncedResources s)) ↔ synced DownSyncedResources (configs_after ops) r) ∧
  (isr_ok (indexedUpSyncedResources s) ∧
   ∀ r, r ∈ dom (isr_index (indexedUpSyncedResources s)) ↔ synced UpSyncedResources (configs_after ops) r) ∧
  (isr_ok (indexedDownUnsyncedResources s) ∧
   ∀ r, r ∈ dom (isr_index (indexedDownUnsyncedResources s)) ↔ stopped DownSyncedResources ops r) ∧
  (isr_ok (indexedUpUnsyncedResources s) ∧
   ∀ r, r ∈ dom (isr_index (indexedUpUnsyncedResources s)) ↔ stopped UpSyncedResources ops r).

Lemma stopped_snoc which ops op r :
  stopped which (ops ++ [op]) r ↔
  (stopped which ops r ∨ synced which (configs_after ops) r) ∧ ¬ synced which (configs_after (ops ++ [op])) r.
Proof.
  assert (∀ n, take (n `min` length ops) (ops ++ [op]) = take n ops) as Htake.
  { intros n. rw take_app_le; [|lia]. destruct (decide (n ≤ length ops)) as [Hn|Hn]; [by rw Nat.min_l|].
    rw Nat.min_r; [|lia]. rw firstn_all (take_ge ops n) //. lia. }
  split.
  - intros [Hnow [n Hn]]. split; [|done]. destruct (decide (n ≤ length ops)) as [Hle|Hgt].
    + rewrite take_app_le // in Hn. destruct (decide (synced which (configs_after ops) r)); [by right|].
      left. split; [done|]. by exists n.
    + rewrite take_ge in Hn; [done|]. rw length_app /=. lia.
  - intros [[[_ [n Hn]]|Hcur] Hnow]; (split; [done|]).
    + exists (n `min` length ops). by rw Htake.
    + exists (length ops). by rw take_app_le // firstn_all.
Qed.

(** What [refresh] does with the configs. *)
Lemma refresh_holds ops op s :
  manager_holds ops s →
  let m := configs_after (ops ++ [op]) in manager_holds (ops ++ [op]) (set_syncConfigMap m (refresh m s)).
Proof.
  intros (Hm & _ & _ & (_ & Hdu) & (_ & Huu)) m. unfold refresh. rw Hm.
  destruct (down_and_up (configs_after ops)) as (_ & _ & Hd & Hu).
  destruct (down_and_up m) as (Hokd & Hoku & Hd' & Hu').
  destruct (createIndexedDownAndUpSyncedResources (configs_after ops)) as [curDown curUp].
  destruct (createIndexedDownAndUpSyncedResources m) as [newDown newUp]. cbn [fst snd] in *.
  split_and!; cbn; [done|done|done|done|done|apply created_ok| |apply created_ok|].
  - intros r. rw unsynced_index Hdu Hd Hd' stopped_snoc //.
  - intros r. rw unsynced_index Huu Hu Hu' stopped_snoc //.
Qed.

Lemma run_config_op_holds ops op s :
  manager_holds ops s → manager_holds (ops ++ [op]) (run_config_op op s).
Proof.
  intros Hs. pose proof (refresh_holds ops op s Hs) as Hr. pose proof Hs as (Hm & _).
  assert (configs_after (ops ++ [op]) = spec_config_op op (configs_after ops)) as Heq.
  { unfold configs_after. by rw for_each_app. }
  cbv zeta in Hr. rewrite Heq in Hr. destruct op as [c|key]; cbn [run_config_op spec_config_op] in *;
    unfold SyncConfigManager_upsert, SyncConfigManager_delete; by rw copied Hm.
Qed.

Lemma new_holds : manager_holds [] NewSyncConfigManager.
Proof.
  assert (∀ which r, ¬ synced which (configs_after []) r) as Hno by (intros which r (k & c & Hkc & _); by rewrite lookup_empty in Hkc).
  assert (∀ which r, ¬ stopped which [] r) as Hst.
  { intros which r [_ [n Hn]]. rewrite take_nil in Hn. by apply Hno in Hn. }
  assert (isr_ok zeroIndexed) as Hz by (split; [apply NoDup_nil_2|intros r; cbn; set_solver]).
  split_and!; [done|apply created_ok| |apply created_ok| |done| |done|]; intros r;
    rw ?created_index; cbn [isr_index zeroIndexed]; (split; [set_solver|]); intros Hr; by first [apply Hno in Hr|apply Hst in Hr].
Qed.

(** C14: after any sequence of upserts and deletes of EdgeSyncConfigs, the resources to sync
    down, and up, are exactly those that some present config lists, each once; the resources
    to stop syncing are exactly those that were listed at some time and are not now. *)
Theorem SyncConfigManager_tracks ops :
  let s := for_each ops run_config_op NewSyncConfigManager in
  let now := configs_after ops in
  (NoDup (GetDownSyncedResources s) ∧ ∀ r, r ∈ GetDownSyncedResources s ↔ synced DownSyncedResources now r) ∧
  (NoDup (GetUpSyncedResources s) ∧ ∀ r, r ∈ GetUpSyncedResources s ↔ synced UpSyncedResources now r) ∧
  (NoDup (GetDownUnsyncedResources s) ∧
   ∀ r, r ∈ GetDownUnsyncedResources s ↔
        ¬ synced DownSyncedResources now r ∧ ∃ n, synced DownSyncedResources (configs_after (take n ops)) r) ∧
  (NoDup (GetUpUnsyncedResources s) ∧
   ∀ r, r ∈ GetUpUnsyncedResources s ↔
        ¬ synced UpSyncedResources now r ∧ ∃ n, synced UpSyncedResources (configs_after (take n ops)) r).
Proof.
  assert (manager_holds ops (for_each ops run_config_op NewSyncConfigManager)) as (_ & H1 & H2 & H3 & H4).
  { apply (for_each_ind manager_holds); [apply new_holds|]. intros seen op todo s _. apply run_config_op_holds. }
  destruct H1 as [[? E1] D1], H2 as [[? E2] D2], H3 as [[? E3] D3], H4 as [[? E4] D4].
  split_and!; try done; intros r; [by rw E1 D1|by rw E2 D2|by rw E3 D3|by rw E4 D4].
Qed.

(** The conversions after an upsert are those of the configs before it: the conversions
    of the config that is upserted are missing, and those of the config that it replaces are
    still there, until the next operation. *)
Theorem conversions_lag c s conv :
  conv ∈ GetConversions (SyncConfigManager_upsert c s) ↔
  ∃ key old, syncConfigMap s !! key = Some old ∧ conv ∈ Conversions (escSpec old).
Proof.
  unfold SyncConfigManager_upsert, refresh. destruct (createIndexedDownAndUpSyncedResources (syncConfigMap s)).
  destruct (createIndexedDownAndUpSyncedResources _). cbn.
  rw (for_each_collects _ (λ kc conv, conv ∈ Conversions (escSpec kc.2))).
  - setoid_rewrite <-elem_of_map_range. split.
    + intros [?%not_elem_of_nil|([key old] & Hin & Hc)]; [done|]. by exists key, old.
    + intros (key & old & Hin & Hc). right. by exists (key, old).
  - intros [key old] acc conv'. apply elem_of_app.
Qed.
End indexed.

(** * SyncerConfigs *)

(** The API server offers the resource in the version, for objects of the kind. *)
Definition offers (apis : list APIGroupResources) (gr : GroupResource) (version kind : string) : Prop :=
  ∃ agr r, find_group (grGroup gr) apis = Some agr ∧ r ∈ default [] (VersionedResources agr !! version) ∧
    (arName r = grResource gr ∨ grResource gr = "*") ∧ arKind r = kind.

Lemma elem_of_by_gvr apis gr version r :
  r ∈ findVersionedResourcesByGVR (grGroup gr) version (grResource gr) apis ↔
  ∃ agr, find_group (grGroup gr) apis = Some agr ∧ r ∈ default [] (VersionedResources agr !! version) ∧
    (arName r = grResource gr ∨ grResource gr = "*").
Proof.
  unfold findVersionedResourcesByGVR. destruct (find_group (grGroup gr) apis) as [agr|]; [|split; [by intros ?%not_elem_of_nil|by intros (? & ? & _)]].
  rw (for_each_collects _ (λ x r, r = x ∧ (arName r = grResource gr ∨ grResource gr = "*"))).
  - split.
    + intros [?%not_elem_of_nil|(x & Hx & -> & Hn)]; [done|]. by exists agr.
    + intros (? & [= <-] & Hx & Hn). right. by exists r.
  - intros x acc r'. destruct (bool_decide_reflect (grResource gr = arName x)); [rw elem_of_snoc; naive_solver|].
    destruct (bool_decide_reflect (grResource gr = "*")); [rw elem_of_snoc; naive_solver|]. naive_solver.
Qed.

(** A loop over the offered resources that depends on the kind only. *)
Lemma over_kinds apis gr version (P : string → Prop) :
  (∃ x, x ∈ findVersionedResourcesByGVR (grGroup gr) version (grResource gr) apis ∧ P (arKind x)) ↔
  ∃ kind, offers apis gr version kind ∧ P kind.
Proof.
  unfold offers. setoid_rewrite elem_of_by_gvr. split.
  - intros (x & (agr & ? & ? & ?) & HP). exists (arKind x). split; [by exists agr, x|done].
  - intros (kind & (agr & x & ? & ? & ? & <-) & HP). exists x. split; [by exists agr|done].
Qed.

Lemma elem_of_sets_List (s : gset string) x : x ∈ sets_List s ↔ x ∈ s.
Proof. unfold sets_List. rw merge_sort_Permutation. apply elem_of_elements. Qed.

Section syncer_configs.
Context `{MapRange}.
Abbreviation R := EdgeSyncConfigResource.
Implicit Types (sc : ReceivedSyncerConfig) (apis up down : list APIGroupResources) (r : R).

(** What a SyncerConfig asks to sync down. *)
Definition asks_whole_namespaces sc up r : Prop :=
  ∃ ns, ns ∈ nsdNamespaces (rscNamespaceScope sc) ∧
    (r = namespaceResource ns ∨
     ∃ row kind, row ∈ nsdResources (rscNamespaceScope sc) ∧
       offers up (nsdrGroupResource row) (nsdrAPIVersion row) kind ∧
       r = MkEdgeSyncConfigResource kind (grGroup (nsdrGroupResource row)) (nsdrAPIVersion row) "*" ns).

Definition asks_objects sc up r : Prop :=
  ∃ o nan, o ∈ rscNamespacedObjects sc ∧ nan ∈ nsoObjectsByNamespace o ∧
    (nanNames nan ≠ [] ∧ r = namespaceResource (nanNamespace nan) ∨
     ∃ kind name, offers up (nsoGroupResource o) (nsoAPIVersion o) kind ∧ name ∈ nanNames nan ∧
       r = MkEdgeSyncConfigResource kind (grGroup (nsoGroupResource o)) (nsoAPIVersion o) name (nanNamespace nan)).

Definition asks_cluster_scoped sc up r : Prop :=
  ∃ row kind name, row ∈ rscClusterScope sc ∧ offers up (rcsGroupResource row) (rcsAPIVersion row) kind ∧
    name ∈ default ["*"] (rcsObjects row) ∧
    r = MkEdgeSyncConfigResource kind (grGroup (rcsGroupResource row)) (rcsAPIVersion row) name "".

(** An upsert of the config with the name and the resources that satisfy the predicates. *)
Definition upserts (f : SyncConfigManager → SyncConfigManager) (name : string) (Pdown Pup : R → Prop) : Prop :=
  ∃ ldown lup, (∀ m, f m = run_config_op (UpsertConfig (MkEdgeSyncConfig name (MkEdgeSyncConfigSpec ldown lup []))) m) ∧
    (∀ r, r ∈ ldown ↔ Pdown r) ∧ ∀ r, r ∈ lup ↔ Pup r.

Lemma none_in_nil r : r ∈ ([] : list R) ↔ False.
Proof. split; [apply not_elem_of_nil|done]. Qed.

Lemma upsertNamespaceScoped_upserts sc up :
  upserts (upsertNamespaceScoped sc up) (rscName sc +:+ DOWNSYNC_NAMESPACED_SUFFIX) (asks_whole_namespaces sc up) (λ _, False).
Proof.
  eexists _, _. split; [reflexivity|]. split; [|apply none_in_nil]. intros r.
  rw (for_each_collects _ (λ ns r, r = namespaceResource ns ∨ ∃ row kind, row ∈ nsdResources (rscNamespaceScope sc) ∧
       offers up (nsdrGroupResource row) (nsdrAPIVersion row) kind ∧
       r = MkEdgeSyncConfigResource kind (grGroup (nsdrGroupResource row)) (nsdrAPIVersion row) "*" ns)).
  - rw none_in_nil. unfold asks_whole_namespaces. naive_solver.
  - intros ns acc r'. rw (for_each_collects _ (λ row r, ∃ kind, offers up (nsdrGroupResource row) (nsdrAPIVersion row) kind ∧
       r = MkEdgeSyncConfigResource kind (grGroup (nsdrGroupResource row)) (nsdrAPIVersion row) "*" ns)).
    + rw elem_of_snoc. naive_solver.
    + intros row acc' r''. rw for_each_adds. by rw (over_kinds up (nsdrGroupResource row) (nsdrAPIVersion row) (λ kind,
        r'' = MkEdgeSyncConfigResource kind (grGroup (nsdrGroupResource row)) (nsdrAPIVersion row) "*" ns)).
Qed.

Lemma upsertClusterScoped_upserts sc up :
  upserts (upsertClusterScoped sc up) (rscName sc +:+ DOWNSYNC_CLUSTERSCOPED_SUFFIX) (asks_cluster_scoped sc up) (λ _, False).
Proof.
  eexists _, _. split; [reflexivity|]. split; [|apply none_in_nil]. intros r.
  rw (for_each_collects _ (λ row r, ∃ kind, offers up (rcsGroupResource row) (rcsAPIVersion row) kind ∧
    ∃ name, name ∈ default ["*"] (rcsObjects row) ∧
    r = MkEdgeSyncConfigResource kind (grGroup (rcsGroupResource row)) (rcsAPIVersion row) name "")).
  - rw none_in_nil. unfold asks_cluster_scoped. naive_solver.
  - intros row acc r'. cbv zeta. destruct (bool_decide_reflect (rcsObjects row = Some [])) as [Ho|Ho].
    + rw Ho. cbn. split; [by left|]. intros [?|(? & _ & ? & []%not_elem_of_nil & _)]; done.
    + rw -(over_kinds up (rcsGroupResource row) (rcsAPIVersion row) (λ kind, ∃ name, name ∈ default ["*"] (rcsObjects row) ∧
        r' = MkEdgeSyncConfigResource kind (grGroup (rcsGroupResource row)) (rcsAPIVersion row) name "")).
      apply (for_each_collects _ (λ x r, ∃ name, name ∈ default ["*"] (rcsObjects row) ∧
        r = MkEdgeSyncConfigResource (arKind x) (grGroup (rcsGroupResource row)) (rcsAPIVersion row) name "")).
      intros x acc' r''. destruct (rcsObjects row) as [objects|]; cbn; [apply for_each_adds|].
      rw elem_of_snoc. setoid_rewrite list_elem_of_singleton. naive_solver.
Qed.

(** The rows of the flat table. *)
Lemma elem_of_table sc row :
  row ∈ for_each (rscNamespacedObjects sc) (λ nsObject table,
    for_each (nsoObjectsByNamespace nsObject) (λ obj table,
      table ++ [MkFlatNamespacedObject (nsoAPIVersion nsObject) (nsoGroupResource nsObject) (nanNamespace obj)
                  (nanNames obj)]) table) [] ↔
  ∃ o nan, o ∈ rscNamespacedObjects sc ∧ nan ∈ nsoObjectsByNamespace o ∧
    row = MkFlatNamespacedObject (nsoAPIVersion o) (nsoGroupResource o) (nanNamespace nan) (nanNames nan).
Proof.
  rw (for_each_collects _ (λ o row, ∃ nan, nan ∈ nsoObjectsByNamespace o ∧
    row = MkFlatNamespacedObject (nsoAPIVersion o) (nsoGroupResource o) (nanNamespace nan) (nanNames nan))).
  - split; [intros [?%not_elem_of_nil|?]; naive_solver|naive_solver].
  - intros o acc row'. apply for_each_adds.
Qed.

Lemma elem_of_getAllNamespaces t ns : ns ∈ getAllNamespaces t ↔ ∃ row, row ∈ t ∧ fnoNamespace row = ns.
Proof.
  unfold getAllNamespaces. rw elem_of_sets_List.
  apply (for_each_ind (λ seen namespaces, ns ∈ namespaces ↔ ∃ row, row ∈ seen ∧ fnoNamespace row = ns)).
  - split; [set_solver|]. intros (row & []%not_elem_of_nil & _).
  - intros seen row todo namespaces _ IH. rw elem_of_union elem_of_singleton IH. setoid_rewrite elem_of_snoc. naive_solver.
Qed.

Lemma elem_of_filter (predicate : flatNamespacedObject → bool) t row :
  row ∈ tableOfFlatNamespacedObject_filter predicate t ↔ row ∈ t ∧ predicate row = true.
Proof.
  unfold tableOfFlatNamespacedObject_filter. rw (for_each_collects _ (λ x row, row = x ∧ predicate row = true)).
  - split; [intros [?%not_elem_of_nil|?]; naive_solver|naive_solver].
  - intros x acc row'. destruct (predicate x) eqn:Hp.
    + rw elem_of_snoc. split; [intros [?| ->]; auto|]. intros [?|[-> _]]; auto.
    + split; [by left|]. intros [?|[-> Ht]]; [done|]. by rewrite Hp in Ht.
Qed.

Lemma upsertNamespacedObjects_upserts sc up :
  upserts (upsertNamespacedObjects sc up) (rscName sc +:+ DOWNSYNC_NAMESPACED_OBJECTS_SUFFIX) (asks_objects sc up) (λ _, False).
Proof.
  eexists _, _. split; [reflexivity|]. split; [|apply none_in_nil]. intros r.
  pose proof (elem_of_table sc) as Htable. set (table := for_each (rscNamespacedObjects sc) _ _) in *.
  rw (for_each_collects _ (λ row r, ∃ kind name, offers up (fnoGroupResource row) (fnoAPIVersion row) kind ∧
    name ∈ fnoNames row ∧
    r = MkEdgeSyncConfigResource kind (grGroup (fnoGroupResource row)) (fnoAPIVersion row) name (fnoNamespace row))).
  - rw for_each_adds none_in_nil. setoid_rewrite elem_of_getAllNamespaces. setoid_rewrite elem_of_filter.
    setoid_rewrite Htable. unfold asks_objects. split.
    + intros [[[]|(ns & (row & [(o & nan & Ho & Hnan & ->) Hlen] & <-) & ->)]|(row & (o & nan & Ho & Hnan & ->) & Hr)].
      * exists o, nan. split_and!; [done..|]. left. split; [|done]. cbn in Hlen. by destruct (nanNames nan).
      * exists o, nan. split_and!; [done..|]. by right.
    + intros (o & nan & Ho & Hnan & [[Hne ->]|Hr]).
      * left. right. exists (nanNamespace nan). split; [|done].
        exists (MkFlatNamespacedObject (nsoAPIVersion o) (nsoGroupResource o) (nanNamespace nan) (nanNames nan)).
        split_and!; [by exists o, nan| |done]. cbn. by destruct (nanNames nan).
      * right. exists (MkFlatNamespacedObject (nsoAPIVersion o) (nsoGroupResource o) (nanNamespace nan) (nanNames nan)).
        split; [by exists o, nan|done].
  - intros row acc r'. rw (for_each_collects _ (λ x r, ∃ name, name ∈ fnoNames row ∧
      r = MkEdgeSyncConfigResource (arKind x) (grGroup (fnoGroupResource row)) (fnoAPIVersion row) name (fnoNamespace row))).
    + rw (over_kinds up (fnoGroupResource row) (fnoAPIVersion row) (λ kind, ∃ name, name ∈ fnoNames row ∧
        r' = MkEdgeSyncConfigResource kind (grGroup (fnoGroupResource row)) (fnoAPIVersion row) name (fnoNamespace row))).
      naive_solver.
    + intros x acc' r''. apply for_each_adds.
Qed.
(** The API server offers the resource in some version; an APIResource without a version has
    that of the list that it is in. *)
Definition offers_some apis (group resource kind version : string) (namespaced : bool) : Prop :=
  ∃ agr v l x, find_group group apis = Some agr ∧ VersionedResources agr !! v = Some l ∧ x ∈ l ∧
    (arName x = resource ∨ resource = "*") ∧ arKind x = kind ∧ arNamespaced x = namespaced ∧
    version = (if decide (arVersion x = "") then v else arVersion x).

Lemma over_some apis group resource (P : string → string → bool → Prop) :
  (∃ x, x ∈ findVersionedResourcesByGV group resource apis ∧ P (arKind x) (arVersion x) (arNamespaced x)) ↔
  ∃ kind version namespaced, offers_some apis group resource kind version namespaced ∧ P kind version namespaced.
Proof.
  unfold findVersionedResourcesByGV, offers_some.
  destruct (find_group group apis) as [agr|]; [|split; [by intros (? & []%not_elem_of_nil & _)|naive_solver]].
  set (filled v x := MkAPIResource (arName x) (arKind x) (if decide (arVersion x = "") then v else arVersion x)
                       (arNamespaced x)).
  assert (∀ acc (y : APIResource), y ∈ for_each (map_range (VersionedResources agr)) (λ '(version, versionedResources) found,
        for_each versionedResources (λ (r : APIResource) found,
          let r := if bool_decide (arVersion r = "") then MkAPIResource (arName r) (arKind r) version (arNamespaced r)
                   else r in
          if bool_decide (resource = arName r) then found ++ [r]
          else if bool_decide (resource = "*") then found ++ [r]
          else found) found) acc ↔
    y ∈ acc ∨ ∃ vl, vl ∈ map_range (VersionedResources agr) ∧ ∃ x, x ∈ vl.2 ∧ y = filled vl.1 x ∧
      (arName x = resource ∨ resource = "*")) as Hloop.
  { intros acc y. apply (for_each_collects _ (λ vl (y : APIResource), ∃ x, x ∈ vl.2 ∧ y = filled vl.1 x ∧ (arName x = resource ∨ resource = "*"))).
    intros [v l] acc' r'. apply (for_each_collects _ (λ x (y : APIResource), y = filled v x ∧ (arName x = resource ∨ resource = "*"))).
    intros x acc'' r''. cbv zeta. assert ((if bool_decide (arVersion x = "") then MkAPIResource (arName x) (arKind x) v
      (arNamespaced x) else x) = filled v x) as ->.
    { unfold filled. case_bool_decide; [by rw decide_True|]. rw decide_False //. by destruct x. }
    cbn [filled arName]. destruct (bool_decide_reflect (resource = arName x)); [rw elem_of_snoc; naive_solver|].
    destruct (bool_decide_reflect (resource = "*")); [rw elem_of_snoc; naive_solver|naive_solver]. }
  setoid_rewrite Hloop. split.
  - intros (r & [?%not_elem_of_nil|([v l] & Hvl%elem_of_map_range & x & Hx & -> & Hn)] & HP); [done|].
    eexists _, _, _. split; [|exact HP]. by exists agr, v, l, x.
  - intros (kind & version & namespaced & (? & v & l & x & [= <-] & Hvl & Hx & Hn & <- & <- & ->) & HP).
    exists (filled v x). split; [|done]. right. exists (v, l). rw elem_of_map_range. split; [done|]. by exists x.
Qed.

(** The objects of an upsync set with a kind. *)
Definition upsync_of (u : UpsyncSet) (kind version : string) (namespaced : bool) r : Prop :=
  if namespaced
  then ∃ ns, ns ∈ usNamespaces u ∧ ∃ name, name ∈ usNames u ∧
         r = MkEdgeSyncConfigResource kind (usAPIGroup u) version name ns
  else ∃ name, name ∈ usNames u ∧ r = MkEdgeSyncConfigResource kind (usAPIGroup u) version name "".

(** The objects of an upsync set with one of its resources. *)
Definition upsync_with down (u : UpsyncSet) (resource : string) r : Prop :=
  ∃ kind version namespaced, offers_some down (usAPIGroup u) resource kind version namespaced ∧
    upsync_of u kind version namespaced r.

(** What a SyncerConfig asks to sync up. *)
Definition asks_up sc down r : Prop :=
  ∃ u, u ∈ rscUpsync sc ∧
    ((∃ ns, ns ∈ usNamespaces u ∧ r = namespaceResource ns) ∨
     ∃ resource, resource ∈ usResources u ∧ upsync_with down u resource r).

Lemma elem_of_upsynced_namespaces (l : list UpsyncSet) ns :
  ns ∈ for_each l (λ upsync s, list_to_set (usNamespaces upsync) ∪ s) (∅ : gset string) ↔
  ∃ u, u ∈ l ∧ ns ∈ usNamespaces u.
Proof.
  apply (for_each_ind (λ seen (s : gset string), ns ∈ s ↔ ∃ u, u ∈ seen ∧ ns ∈ usNamespaces u)).
  - split; [set_solver|]. intros (u & []%not_elem_of_nil & _).
  - intros seen u todo s _ IH. rw elem_of_union elem_of_list_to_set IH. setoid_rewrite elem_of_snoc. naive_solver.
Qed.

Lemma upsertUpsync_upserts sc down :
  upserts (upsertUpsync sc down) (rscName sc +:+ UPSYNC_SUFFIX) (λ _, False) (asks_up sc down).
Proof.
  eexists _, _. split; [reflexivity|]. split; [apply none_in_nil|]. intros r.
  rw (for_each_collects _ (λ u r, ∃ resource, resource ∈ usResources u ∧ upsync_with down u resource r)).
  - rw for_each_adds none_in_nil. setoid_rewrite elem_of_sets_List. setoid_rewrite elem_of_upsynced_namespaces.
    unfold asks_up. split.
    + intros [[[]|(ns & (u & Hu & Hns) & ->)]|(u & Hu & Hr)]; exists u; (split; [done|]); [left; by exists ns|by right].
    + intros (u & Hu & [(ns & Hns & ->)|Hr]); [left; right; exists ns; split; [by exists u|done]|right; by exists u].
  - intros u acc r'. apply (for_each_collects _ (upsync_with down u)). intros resource acc' r''. unfold upsync_with.
    rw -(over_some down (usAPIGroup u) resource (λ kind version namespaced, upsync_of u kind version namespaced r'')).
    apply (for_each_collects _ (λ x, upsync_of u (arKind x) (arVersion x) (arNamespaced x))).
    intros x acc'' r3. cbv zeta. unfold upsync_of. destruct (arNamespaced x); [|apply for_each_adds].
    apply (for_each_collects _ (λ ns r, ∃ name, name ∈ usNames u ∧
      r = MkEdgeSyncConfigResource (arKind x) (usAPIGroup u) (arVersion x) name ns)).
    intros ns acc3 r4. apply for_each_adds.
Qed.

(** The manager once a SyncerConfig has arrived and been looked at, with the two API
    servers answering. *)
Definition after_Refresh sc up down : SyncConfigManager :=
  syncConfigManager (Refresh (λ _, Some up) (λ _, Some down)
    (SyncerConfigManager_upsert sc (NewSyncerConfigManager NewSyncConfigManager))).

(** The lists after upserts of four configs with different names. *)
Lemma upserts_synced (f1 f2 f3 f4 : SyncConfigManager → SyncConfigManager) n1 n2 n3 n4 D1 D2 D3 D4 U1 U2 U3 U4 :
  NoDup [n1; n2; n3; n4] →
  upserts f1 n1 D1 U1 → upserts f2 n2 D2 U2 → upserts f3 n3 D3 U3 → upserts f4 n4 D4 U4 →
  let m := f4 (f3 (f2 (f1 NewSyncConfigManager))) in
  (∀ r, r ∈ GetDownSyncedResources m ↔ D1 r ∨ D2 r ∨ D3 r ∨ D4 r) ∧
  (∀ r, r ∈ GetUpSyncedResources m ↔ U1 r ∨ U2 r ∨ U3 r ∨ U4 r).
Proof.
  intros Hnd (d1 & u1 & Hf1 & Hd1 & Hu1) (d2 & u2 & Hf2 & Hd2 & Hu2) (d3 & u3 & Hf3 & Hd3 & Hu3) (d4 & u4 & Hf4 & Hd4 & Hu4) m.
  set (c n d u := UpsertConfig (MkEdgeSyncConfig n (MkEdgeSyncConfigSpec d u []))).
  set (ops := [c n1 d1 u1; c n2 d2 u2; c n3 d3 u3; c n4 d4 u4]).
  assert (m = for_each ops run_config_op NewSyncConfigManager) as Hm by (unfold m; by rw Hf4 Hf3 Hf2 Hf1).
  assert (manager_holds ops m) as (_ & [[_ Ed] Dd] & [[_ Eu] Du] & _).
  { rw Hm. apply (for_each_ind manager_holds); [apply new_holds|]. intros seen op todo s _. apply run_config_op_holds. }
  repeat setoid_rewrite NoDup_cons in Hnd. repeat setoid_rewrite elem_of_cons in Hnd.
  assert (∀ which r, synced which (configs_after ops) r ↔
    r ∈ which (MkEdgeSyncConfigSpec d1 u1 []) ∨ r ∈ which (MkEdgeSyncConfigSpec d2 u2 []) ∨
    r ∈ which (MkEdgeSyncConfigSpec d3 u3 []) ∨ r ∈ which (MkEdgeSyncConfigSpec d4 u4 [])) as Hs.
  { intros which r. unfold synced, configs_after, ops, c. cbn [for_each foldl spec_config_op escName].
    unfold for_each. cbn [foldl spec_config_op escName]. split.
    - intros (key & x & Hx & Hr). repeat (apply lookup_insert_Some in Hx as [[_ <-]|[_ Hx]]; [naive_solver|]).
      by rewrite lookup_empty in Hx.
    - intros [Hr|[Hr|[Hr|Hr]]];
        [exists n1, (MkEdgeSyncConfig n1 (MkEdgeSyncConfigSpec d1 u1 []))|exists n2, (MkEdgeSyncConfig n2 (MkEdgeSyncConfigSpec d2 u2 []))
        |exists n3, (MkEdgeSyncConfig n3 (MkEdgeSyncConfigSpec d3 u3 []))|exists n4, (MkEdgeSyncConfig n4 (MkEdgeSyncConfigSpec d4 u4 []))];
        (split; [|exact Hr]); repeat (rw lookup_insert_eq || (rw lookup_insert_ne; [|naive_solver])); done. }
  split; intros r; unfold GetDownSyncedResources, GetUpSyncedResources; [rw Ed Dd Hs|rw Eu Du Hs]; cbn; naive_solver.
Qed.

Lemma config_names_differ name :
  NoDup [name +:+ DOWNSYNC_NAMESPACED_OBJECTS_SUFFIX; name +:+ DOWNSYNC_NAMESPACED_SUFFIX;
         name +:+ DOWNSYNC_CLUSTERSCOPED_SUFFIX; name +:+ UPSYNC_SUFFIX].
Proof.
  change (NoDup (String.append name <$> [DOWNSYNC_NAMESPACED_OBJECTS_SUFFIX; DOWNSYNC_NAMESPACED_SUFFIX;
    DOWNSYNC_CLUSTERSCOPED_SUFFIX; UPSYNC_SUFFIX])). apply NoDup_fmap_2; [apply _|].
  apply (bool_decide_unpack _). vm_compute. exact I.
Qed.

Lemma after_Refresh_lists sc up down :
  (∀ r, r ∈ GetDownSyncedResources (after_Refresh sc up down) ↔
     asks_objects sc up r ∨ asks_whole_namespaces sc up r ∨ asks_cluster_scoped sc up r ∨ False) ∧
  (∀ r, r ∈ GetUpSyncedResources (after_Refresh sc up down) ↔ False ∨ False ∨ False ∨ asks_up sc down r).
Proof.
  assert (after_Refresh sc up down = upsertUpsync sc down (upsertClusterScoped sc up (upsertNamespaceScoped sc up
    (upsertNamespacedObjects sc up NewSyncConfigManager)))) as ->.
  { unfold after_Refresh, Refresh. cbn [syncerConfigMap SyncerConfigManager_upsert NewSyncerConfigManager].
    assert (map_range (<[rscName sc:=sc]> (∅ : gmap string ReceivedSyncerConfig)) = [(rscName sc, sc)]) as ->; [|done].
    apply Permutation_singleton_r. rw map_range_perm. by rw insert_empty map_to_list_singleton. }
  apply (upserts_synced _ _ _ _ _ _ _ _ _ _ _ _ _ _ _ _ (config_names_differ (rscName sc))
    (upsertNamespacedObjects_upserts sc up) (upsertNamespaceScoped_upserts sc up)
    (upsertClusterScoped_upserts sc up) (upsertUpsync_upserts sc down)).
Qed.

(** ** Any number of SyncerConfigs over time *)

Definition suffixes : list string :=
  [DOWNSYNC_NAMESPACED_OBJECTS_SUFFIX; DOWNSYNC_NAMESPACED_SUFFIX; DOWNSYNC_CLUSTERSCOPED_SUFFIX; UPSYNC_SUFFIX].

Lemma chars_app (x y : string) :
  String.list_ascii_of_string (x +:+ y) = String.list_ascii_of_string x ++ String.list_ascii_of_string y.
Proof.
  induction x as [|c x IH]; [done|]. change (String c x +:+ y) with (String c (x +:+ y)). cbn. by rw IH.
Qed.

(** The name of a config tells its SyncerConfig: the suffixes differ in their last three letters. *)
Lemma suffixed_inj key suffix key' suffix' :
  suffix ∈ suffixes → suffix' ∈ suffixes → key +:+ suffix = key' +:+ suffix' → key = key' ∧ suffix = suffix'.
Proof.
  intros Hs Hs' Heq. pose proof chars_app as Happ. set (chars := String.list_ascii_of_string) in *.
  assert (chars key ++ chars suffix = chars key' ++ chars suffix') as Hc by by rw -!Happ Heq.
  assert (∀ k x, x ∈ suffixes → take 3 (reverse (chars k ++ chars x)) = take 3 (reverse (chars x))) as Htake.
  { intros k x Hx. rw reverse_app take_app_le //. rw length_reverse.
    repeat (apply elem_of_cons in Hx as [-> |Hx]; [cbn; lia|]). by apply not_elem_of_nil in Hx. }
  assert (suffix = suffix') as <-.
  { pose proof (Htake (key) suffix Hs) as H1. rewrite Hc Htake // in H1. clear -Hs Hs' H1.
    repeat (apply elem_of_cons in Hs as [-> |Hs]; [repeat (apply elem_of_cons in Hs' as [-> |Hs']; [done|]);
      by apply not_elem_of_nil in Hs'|]). by apply not_elem_of_nil in Hs. }
  split; [|done]. apply (inj (λ l, l ++ chars suffix)) in Hc.
  by rewrite -(String.string_of_list_ascii_of_string key) -(String.string_of_list_ascii_of_string key') -/chars Hc.
Qed.

(** What the config of a SyncerConfig with the suffix lists. *)
Definition fits sc up down (suffix : string) (c : EdgeSyncConfig) : Prop :=
  (∀ r, r ∈ DownSyncedResources (escSpec c) ↔
     suffix = DOWNSYNC_NAMESPACED_OBJECTS_SUFFIX ∧ asks_objects sc up r ∨
     suffix = DOWNSYNC_NAMESPACED_SUFFIX ∧ asks_whole_namespaces sc up r ∨
     suffix = DOWNSYNC_CLUSTERSCOPED_SUFFIX ∧ asks_cluster_scoped sc up r) ∧
  (∀ r, r ∈ UpSyncedResources (escSpec c) ↔ suffix = UPSYNC_SUFFIX ∧ asks_up sc down r).

(** The lists are those of the configs. *)
Definition manager_good (m : SyncConfigManager) : Prop := ∃ ops, manager_holds ops m.

Lemma manager_good_lists m :
  manager_good m →
  (∀ r, r ∈ GetDownSyncedResources m ↔ synced DownSyncedResources (syncConfigMap m) r) ∧
  ∀ r, r ∈ GetUpSyncedResources m ↔ synced UpSyncedResources (syncConfigMap m) r.
Proof.
  intros (ops & -> & [[_ Ed] Dd] & [[_ Eu] Du] & _). split; intros r; [by rw Ed Dd|by rw Eu Du].
Qed.

Lemma run_config_op_good op m :
  manager_good m →
  manager_good (run_config_op op m) ∧ syncConfigMap (run_config_op op m) = spec_config_op op (syncConfigMap m).
Proof.
  intros [ops Hm]. pose proof (run_config_op_holds ops op m Hm) as Hm'. split; [by eexists|].
  destruct Hm' as [-> _], Hm as [-> _]. unfold configs_after. by rw for_each_app.
Qed.

(** The names in use are those of configs of the given SyncerConfigs. *)
Definition configs_of (keys : gset string) (m : SyncConfigManager) : Prop :=
  ∀ n, is_Some (syncConfigMap m !! n) → ∃ key suffix, key ∈ keys ∧ suffix ∈ suffixes ∧ n = key +:+ suffix.

Lemma upserts_step keys key suffix f Pdown Pup m :
  suffix ∈ suffixes → key ∈ keys → upserts f (key +:+ suffix) Pdown Pup → manager_good m ∧ configs_of keys m →
  (manager_good (f m) ∧ configs_of keys (f m)) ∧
  (∃ c, syncConfigMap (f m) !! (key +:+ suffix) = Some c ∧
     (∀ r, r ∈ DownSyncedResources (escSpec c) ↔ Pdown r) ∧ ∀ r, r ∈ UpSyncedResources (escSpec c) ↔ Pup r) ∧
  ∀ n, n ≠ key +:+ suffix → syncConfigMap (f m) !! n = syncConfigMap m !! n.
Proof.
  intros Hs Hk (ldown & lup & Hf & Hd & Hu) [Hm Hn].
  destruct (run_config_op_good (UpsertConfig (MkEdgeSyncConfig (key +:+ suffix) (MkEdgeSyncConfigSpec ldown lup []))) m Hm)
    as [Hm' Heq]. rewrite -Hf in Hm', Heq. cbn in Heq. split_and!; [done| | |].
  - intros n. rw Heq. intros [c [[<- _]|[_ Hc]]%lookup_insert_Some]; [by exists key, suffix|]. apply Hn. by eexists.
  - rw Heq lookup_insert_eq. eexists. split; [done|]. by split.
  - intros n Hne. rw Heq lookup_insert_ne //.
Qed.

(** What [Refresh] does with one SyncerConfig. *)
Definition upsert_all sc up down (m : SyncConfigManager) : SyncConfigManager :=
  upsertUpsync sc down (upsertClusterScoped sc up (upsertNamespaceScoped sc up (upsertNamespacedObjects sc up m))).

Lemma upsert_all_step keys sc up down m :
  rscName sc ∈ keys → manager_good m ∧ configs_of keys m →
  (manager_good (upsert_all sc up down m) ∧ configs_of keys (upsert_all sc up down m)) ∧
  (∀ suffix, suffix ∈ suffixes →
     ∃ c, syncConfigMap (upsert_all sc up down m) !! (rscName sc +:+ suffix) = Some c ∧ fits sc up down suffix c) ∧
  ∀ n, (∀ suffix, suffix ∈ suffixes → n ≠ rscName sc +:+ suffix) →
    syncConfigMap (upsert_all sc up down m) !! n = syncConfigMap m !! n.
Proof.
  intros Hk Hm. unfold upsert_all.
  assert (∀ x y, x ∈ suffixes → y ∈ suffixes → x ≠ y → rscName sc +:+ x ≠ rscName sc +:+ y) as Hne.
  { intros x y Hx Hy Hxy He. by destruct (suffixed_inj _ _ _ _ Hx Hy He). }
  assert (Forall (λ x, x ∈ suffixes) suffixes) as Hall by by apply Forall_forall.
  apply Forall_cons in Hall as [S1 Hall]. apply Forall_cons in Hall as [S2 Hall].
  apply Forall_cons in Hall as [S3 Hall]. apply Forall_cons in Hall as [S4 _].
  destruct (upserts_step keys _ _ _ _ _ m S1 Hk (upsertNamespacedObjects_upserts sc up) Hm) as (Hm1 & C1 & O1).
  destruct (upserts_step keys _ _ _ _ _ _ S2 Hk (upsertNamespaceScoped_upserts sc up) Hm1) as (Hm2 & C2 & O2).
  destruct (upserts_step keys _ _ _ _ _ _ S3 Hk (upsertClusterScoped_upserts sc up) Hm2) as (Hm3 & C3 & O3).
  destruct (upserts_step keys _ _ _ _ _ _ S4 Hk (upsertUpsync_upserts sc down) Hm3) as (Hm4 & C4 & O4).
  split; [done|]. split; cycle 1.
  { intros n Hn. rw O4; [|by apply Hn]. rw O3; [|by apply Hn]. rw O2; [|by apply Hn]. apply O1. by apply Hn. }
  intros suffix Hs. unfold fits. apply elem_of_cons in Hs as [-> |Hs]; [|apply elem_of_cons in Hs as [-> |Hs];
    [|apply elem_of_cons in Hs as [-> |Hs]; [|apply list_elem_of_singleton in Hs as ->]]].
  - rw O4; [|by apply Hne]. rw O3; [|by apply Hne]. rw O2; [|by apply Hne]. destruct C1 as (c & Hc & Hd & Hu).
    exists c. split; [done|]. split; intros r; [rw Hd|rw Hu]; naive_solver.
  - rw O4; [|by apply Hne]. rw O3; [|by apply Hne]. destruct C2 as (c & Hc & Hd & Hu).
    exists c. split; [done|]. split; intros r; [rw Hd|rw Hu]; naive_solver.
  - rw O4; [|by apply Hne]. destruct C3 as (c & Hc & Hd & Hu).
    exists c. split; [done|]. split; intros r; [rw Hd|rw Hu]; naive_solver.
  - destruct C4 as (c & Hc & Hd & Hu). exists c. split; [done|]. split; intros r; [rw Hd|rw Hu]; naive_solver.
Qed.

(** The manager of SyncerConfigs is in order: each is under its name, and the configs are theirs. *)
Definition in_order (s : SyncerConfigManager) : Prop :=
  (∀ key sc, syncerConfigMap s !! key = Some sc → rscName sc = key) ∧
  manager_good (syncConfigManager s) ∧ configs_of (dom (syncerConfigMap s)) (syncConfigManager s).

(** The loop of [Refresh], which ends at the first failure. *)
Definition refresh_step (upstream downstream : string → option (list APIGroupResources))
  '((_, sc) : string * ReceivedSyncerConfig) '((returned, m) : bool * SyncConfigManager) : bool * SyncConfigManager :=
  if returned : bool then (true, m)
  else match upstream (rscName sc), downstream (rscName sc) with
       | Some up, Some down => (false, upsert_all sc up down m)
       | _, _ => (true, m)
       end.

Lemma Refresh_eq upstream downstream s :
  Refresh upstream downstream s = MkSyncerConfigManager
    (for_each (map_range (syncerConfigMap s)) (refresh_step upstream downstream) (false, syncConfigManager s)).2
    (syncerConfigMap s).
Proof.
  unfold Refresh. change (for_each (map_range (syncerConfigMap s)) (refresh_step upstream downstream)) with
    (for_each (map_range (syncerConfigMap s)) (λ '(_, sc) '(returned, m),
       if returned : bool then (true, m)
       else match upstream (rscName sc), downstream (rscName sc) with
            | Some up, Some down => (false, upsert_all sc up down m)
            | _, _ => (true, m)
            end)). by destruct (for_each _ _ _).
Qed.

Lemma Refresh_in_order upstream downstream s : in_order s → in_order (Refresh upstream downstream s).
Proof.
  intros (Hname & Hm). rw Refresh_eq. split; [done|]. cbn [syncConfigManager syncerConfigMap].
  apply (for_each_ind (λ _ st, manager_good st.2 ∧ configs_of (dom (syncerConfigMap s)) st.2)); [done|].
  intros seen [key sc] todo [[] m] Heq IH; [done|]. cbn [refresh_step].
  assert (rscName sc ∈ dom (syncerConfigMap s)) as Hin.
  { apply elem_of_dom. exists sc. assert (syncerConfigMap s !! key = Some sc) as Hk.
    { apply elem_of_map_range. rw Heq. apply elem_of_app. right. by left. }
    by rw (Hname key sc Hk). }
  destruct (upstream (rscName sc)) as [up|]; [|done]. destruct (downstream (rscName sc)) as [down|]; [|done].
  by apply upsert_all_step.
Qed.

(** What happens to the manager. *)
Inductive ManagerOp : Type :=
| Arrives sc
| Gone (key : string)
| Refreshed (upstream downstream : string → option (list APIGroupResources)).

Definition run_manager_op (op : ManagerOp) : SyncerConfigManager → SyncerConfigManager :=
  match op with
  | Arrives sc => SyncerConfigManager_upsert sc
  | Gone key => SyncerConfigManager_delete key
  | Refreshed upstream downstream => Refresh upstream downstream
  end.

(** The SyncerConfigs that have arrived and are not gone. *)
Definition present_after (ops : list ManagerOp) : gmap string ReceivedSyncerConfig :=
  for_each ops (λ op m,
    match op with Arrives sc => <[rscName sc:=sc]> m | Gone key => delete key m | Refreshed _ _ => m end) ∅.

Lemma delete_in_order key s : in_order s → in_order (SyncerConfigManager_delete key s).
Proof.
  intros (Hname & Hm & Hn).
  destruct (run_config_op_good (DeleteConfig (key +:+ DOWNSYNC_NAMESPACED_SUFFIX)) _ Hm) as [H1 E1].
  destruct (run_config_op_good (DeleteConfig (key +:+ DOWNSYNC_NAMESPACED_OBJECTS_SUFFIX)) _ H1) as [H2 E2].
  destruct (run_config_op_good (DeleteConfig (key +:+ DOWNSYNC_CLUSTERSCOPED_SUFFIX)) _ H2) as [H3 E3].
  destruct (run_config_op_good (DeleteConfig (key +:+ UPSYNC_SUFFIX)) _ H3) as [H4 E4].
  unfold SyncerConfigManager_delete. cbn [run_config_op spec_config_op] in *.
  split_and!; cbn [syncConfigManager syncerConfigMap]; [|done|].
  - intros k sc [_ Hk]%lookup_delete_Some. by apply Hname.
  - intros n. rw E4 E3 E2 E1. rw -!elem_of_dom !dom_delete_L !elem_of_difference !elem_of_singleton.
    intros ((((Hin & N1) & N2) & N3) & N4). apply elem_of_dom, Hn in Hin as (k & suffix & Hk & Hs & ->).
    exists k, suffix. split_and!; [|done..]. rw elem_of_difference elem_of_singleton. split; [done|]. intros ->. repeat (apply elem_of_cons in Hs as [-> |Hs]; [done|]). by apply not_elem_of_nil in Hs.
Qed.

Lemma run_manager_op_in_order op s : in_order s → in_order (run_manager_op op s).
Proof.
  destruct op as [sc|key|up down]; cbn [run_manager_op]; [|apply delete_in_order|apply Refresh_in_order].
  intros (Hname & Hm & Hn). split_and!; cbn; [|done|].
  - intros k c [[<- <-]|[_ Hk]]%lookup_insert_Some; [done|by apply Hname].
  - intros n (k & suffix & Hk & ? & ?)%Hn. exists k, suffix. split_and!; [|done..]. rw dom_insert_L. set_solver.
Qed.

Lemma run_manager_ops ops :
  let s := for_each ops run_manager_op (NewSyncerConfigManager NewSyncConfigManager) in
  in_order s ∧ syncerConfigMap s = present_after ops.
Proof.
  cbv zeta. apply (for_each_ind (λ seen s, in_order s ∧ syncerConfigMap s = present_after seen)).
  - split; [|done]. split_and!; cbn; [by intros k sc; rw lookup_empty|by exists []; apply new_holds|].
    intros n. cbn. rw lookup_empty. by intros [].
  - intros seen op todo s _ [Hs Heq]. split; [by apply run_manager_op_in_order|].
    unfold present_after. rw for_each_app -/(present_after seen) -Heq. destruct op; [done..|]. cbn [run_manager_op].
    by rw Refresh_eq.
Qed.

(** A refresh for which all API servers answer. *)
Lemma Refresh_answered upstream downstream (up down : string → list APIGroupResources) s :
  in_order s →
  (∀ key, is_Some (syncerConfigMap s !! key) → upstream key = Some (up key) ∧ downstream key = Some (down key)) →
  ∀ key sc suffix, syncerConfigMap s !! key = Some sc → suffix ∈ suffixes →
    ∃ c, syncConfigMap (syncConfigManager (Refresh upstream downstream s)) !! (key +:+ suffix) = Some c ∧
      fits sc (up key) (down key) suffix c.
Proof.
  intros (Hname & Hm) Hans key sc suffix Hsc Hs. rw Refresh_eq. cbn [syncConfigManager].
  enough (let st := for_each (map_range (syncerConfigMap s)) (refresh_step upstream downstream) (false, syncConfigManager s) in
    st.1 = false ∧ (manager_good st.2 ∧ configs_of (dom (syncerConfigMap s)) st.2) ∧
    ∀ key sc suffix, (key, sc) ∈ map_range (syncerConfigMap s) → suffix ∈ suffixes →
      ∃ c, syncConfigMap st.2 !! (key +:+ suffix) = Some c ∧ fits sc (up key) (down key) suffix c) as (_ & _ & Hrun).
  { apply Hrun; [|done]. by apply elem_of_map_range. }
  apply (for_each_ind (λ seen st, st.1 = false ∧
    (manager_good st.2 ∧ configs_of (dom (syncerConfigMap s)) st.2) ∧ ∀ key sc suffix, (key, sc) ∈ seen → suffix ∈ suffixes →
      ∃ c, syncConfigMap st.2 !! (key +:+ suffix) = Some c ∧ fits sc (up key) (down key) suffix c)).
  { split_and!; [done|apply Hm..|]. intros ? ? ? []%not_elem_of_nil. }
  intros seen [k c] todo [returned m] Heq (Hret & Hgood & IH). cbn in Hret, Hgood, IH. subst returned. cbn [refresh_step].
  assert (syncerConfigMap s !! k = Some c) as Hk.
  { apply elem_of_map_range. rw Heq. apply elem_of_app. right. by left. }
  rw (Hname k c Hk). destruct (Hans k) as [-> ->]; [by eexists|]. cbn [fst snd].
  pose proof (Hname k c Hk) as Hn. destruct (upsert_all_step (dom (syncerConfigMap s)) c (up k) (down k) m) as (Hgood' & Hnew & Hold);
    [rw Hn; apply elem_of_dom; by eexists|done|]. split_and!; [done|apply Hgood'..|].
  intros key' sc' suffix' [Hin|Hin]%elem_of_app Hs'; cycle 1.
  { apply list_elem_of_singleton in Hin as [= -> ->]. rewrite -{1}Hn. by apply Hnew. }
  rw Hold; [by apply IH|]. intros x Hx [He _]%suffixed_inj; [|done..].
  pose proof (NoDup_map_range_fst (syncerConfigMap s)) as Hnd. rewrite Heq fmap_app in Hnd.
  apply NoDup_app in Hnd as (_ & Hnd & _). apply (Hnd key'); [by apply (list_elem_of_fmap_2 fst) in Hin|].
  rewrite He Hn. by left.
Qed.

(** C15: after any history of SyncerConfigs that arrive, change and go away, and of refreshes
    that may fail half way, followed by a refresh for which both API servers answer for each
    SyncerConfig, in a manager to which no other EdgeSyncConfigs are given: the resources to
    sync down are exactly those that the present SyncerConfigs ask for, namely the namespaces
    that they name, as objects and with everything of the listed resources in them, the
    objects that they list and their namespaces, and the cluster-scoped objects that they
    list, or all of a resource if the list is nil, each with the kinds that the upstream
    server offers in the version asked for; and the resources to sync up are exactly those
    of their upsync sets, in each version that the downstream server offers, with the
    namespaces of those sets. (The comments on the API promise less in two points: only
    the preferred version for upsync, and namespaces that are merely ensured to exist.) *)
Theorem Refresh_syncs_what_is_asked ops upstream downstream (up down : string → list APIGroupResources) :
  let present := present_after ops in
  let m := syncConfigManager (Refresh upstream downstream
             (for_each ops run_manager_op (NewSyncerConfigManager NewSyncConfigManager))) in
  (∀ key, is_Some (present !! key) → upstream key = Some (up key) ∧ downstream key = Some (down key)) →
  (∀ r, r ∈ GetDownSyncedResources m ↔ ∃ key sc, present !! key = Some sc ∧
     (asks_whole_namespaces sc (up key) r ∨ asks_objects sc (up key) r ∨ asks_cluster_scoped sc (up key) r)) ∧
  (∀ r, r ∈ GetUpSyncedResources m ↔ ∃ key sc, present !! key = Some sc ∧ asks_up sc (down key) r).
Proof.
  intros present m Hans. destruct (run_manager_ops ops) as [Hs Heq].
  set (s := for_each ops run_manager_op _) in *. fold present in Heq.
  destruct (Refresh_in_order upstream downstream s Hs) as (_ & Hgood & Hnames).
  assert (syncerConfigMap (Refresh upstream downstream s) = present) as Hmap.
  { by rw Refresh_eq. }
  rewrite Hmap in Hnames. fold m in Hgood, Hnames.
  assert (∀ key sc suffix, present !! key = Some sc → suffix ∈ suffixes →
    ∃ c, syncConfigMap m !! (key +:+ suffix) = Some c ∧ fits sc (up key) (down key) suffix c) as Hfits.
  { intros key sc suffix. rewrite -Heq. apply Refresh_answered; [done|]. by rw Heq. }
  assert (∀ n c, syncConfigMap m !! n = Some c → ∃ key sc suffix, present !! key = Some sc ∧ suffix ∈ suffixes ∧
    fits sc (up key) (down key) suffix c) as Honly.
  { intros n c Hc. destruct (Hnames n) as (key & suffix & [sc Hsc]%elem_of_dom & Hsuf & ->); [by eexists|].
    exists key, sc, suffix. split_and!; [done..|]. by destruct (Hfits key sc suffix Hsc Hsuf) as (c' & [= <-]%(eq_trans (eq_sym Hc)) & ?). }
  assert (Forall (λ x, x ∈ suffixes) suffixes) as Hall by by apply Forall_forall.
  apply Forall_cons in Hall as [S1 Hall]. apply Forall_cons in Hall as [S2 Hall].
  apply Forall_cons in Hall as [S3 Hall]. apply Forall_cons in Hall as [S4 _].
  destruct (manager_good_lists m Hgood) as [Hd Hu]. unfold synced in Hd, Hu. split; intros r; [rw Hd|rw Hu]; split.
  - intros (n & c & (key & sc & suffix & Hsc & _ & [Hf _])%Honly & Hr%Hf). exists key, sc. naive_solver.
  - intros (key & sc & Hsc & Hr).
    destruct (Hfits key sc _ Hsc S1) as (c1 & E1 & [F1 _]), (Hfits key sc _ Hsc S2) as (c2 & E2 & [F2 _]),
      (Hfits key sc _ Hsc S3) as (c3 & E3 & [F3 _]).
    destruct Hr as [Hr|[Hr|Hr]]; [eexists _, c2|eexists _, c1|eexists _, c3]; (split; [eassumption|]); [apply F2|apply F1|apply F3]; auto.
  - intros (n & c & (key & sc & suffix & Hsc & _ & [_ Hf])%Honly & Hr%Hf). exists key, sc. naive_solver.
  - intros (key & sc & Hsc & Hr). destruct (Hfits key sc _ Hsc S4) as (c & Hc & [_ Hf]). eexists _, _.
    split; [exact Hc|]. apply Hf. auto.
Qed.

(** C10: the syncer and the workload projector: when the SyncerConfig at a mailbox space says
    what the tables distribute to the destination, as the projector sees to, the syncer that
    has looked at it syncs down every object that goes there and whose resource goes to the
    edge, with its namespace, in each kind that the mailbox space offers for it; and, if the
    SyncerConfig names no whole namespaces and no empty list of objects, it syncs down
    nothing else. *)
Theorem syncer_follows_projector resourceModes t destination syncfg up down :
  spec_right resourceModes t destination (scSpec syncfg) →
  let resources := GetDownSyncedResources (after_Refresh (received syncfg) up down) in
  let nsVersion gr := version_for (tNamespacedModes t) gr destination in
  let csVersion gr := version_for (tNonNamespacedModes t) gr destination in
  let namespaced gr ns n := goes_to_edge resourceModes gr ∧ namespaced_goes t destination gr (ns, n) in
  let cluster_scoped gr n := goes_to_edge resourceModes gr ∧ cluster_scoped_goes t destination gr n in
  (∀ gr ns n, namespaced gr ns n → namespaceResource ns ∈ resources ∧
     ∀ kind, offers up gr (nsVersion gr) kind → MkEdgeSyncConfigResource kind (grGroup gr) (nsVersion gr) n ns ∈ resources) ∧
  (∀ gr n, cluster_scoped gr n →
     ∀ kind, offers up gr (csVersion gr) kind → MkEdgeSyncConfigResource kind (grGroup gr) (csVersion gr) n "" ∈ resources) ∧
  (nsdNamespaces (scsNamespaceScope (scSpec syncfg)) = [] →
   (∀ cr, cr ∈ scsClusterScope (scSpec syncfg) → csrObjects cr ≠ []) →
   ∀ r, r ∈ resources →
     (∃ gr ns n, namespaced gr ns n ∧ (r = namespaceResource ns ∨
        r = MkEdgeSyncConfigResource (rKind r) (grGroup gr) (nsVersion gr) n ns)) ∨
     ∃ gr n, cluster_scoped gr n ∧ r = MkEdgeSyncConfigResource (rKind r) (grGroup gr) (csVersion gr) n "").
Proof.
  intros (Hns & Hcs & _) resources nsVersion csVersion namespaced cluster_scoped.
  destruct (after_Refresh_lists (received syncfg) up down) as [Hd _]. fold resources in Hd.
  assert (∀ gr ns n, namespaced gr ns n → lists_namespaced (scSpec syncfg) gr (nsVersion gr) (ns, n)) as Hlist.
  { intros gr ns n [Hg Hn]. by apply Hns. }
  split_and!.
  - intros gr ns n Hn%Hlist. destruct Hn as (o & nan & Ho & <- & Hv & Hnan & Hnsn & Hname).
    cbn [fst snd] in Hnsn, Hname. subst ns. rewrite -Hv. split.
    + apply Hd. left. exists o, nan. split_and!; [done..|]. left. split; [|done]. intros He. rewrite He in Hname. set_solver.
    + intros kind Hoff. apply Hd. left. exists o, nan. split_and!; [done..|]. right. by exists kind, n.
  - intros gr n [Hg Hgo] kind Hoff. apply Hd. right. right. left.
    destruct (proj2 (Hcs gr (csVersion gr) n)) as (cr & Hcr & <- & Hv & Hname); [done|]. rewrite -Hv in Hoff. rewrite -Hv.
    exists (MkReceivedClusterScope (csrGroupResource cr) (csrAPIVersion cr) (received_objects (csrObjects cr))), kind, n.
    split_and!; [apply list_elem_of_fmap; by exists cr|done| |done]. cbn. destruct (csrObjects cr); [by apply not_elem_of_nil in Hname|done].
  - intros Hwhole Hnil r [Hr|[Hr|[Hr|[]]]]%Hd.
    + destruct Hr as (o & nan & Ho & Hnan & Hr). left.
      assert (∀ name, name ∈ nanNames nan → nsoAPIVersion o = nsVersion (nsoGroupResource o) ∧
        namespaced (nsoGroupResource o) (nanNamespace nan) name) as Hgo.
      { intros name Hname. destruct (proj1 (Hns (nsoGroupResource o) (nsoAPIVersion o) (nanNamespace nan, name))) as (? & ? & ?); [by exists o, nan|done]. }
      destruct Hr as [[Hne ->]|(kind & name & Hoff & Hname & ->)].
      * destruct (nanNames nan) as [|name l] eqn:Hl; [done|]. destruct (Hgo name) as [_ Hn]; [by left|].
        eexists _, _, _. split; [exact Hn|]. by left.
      * destruct (Hgo name Hname) as [Hv Hn]. eexists _, _, _. split; [exact Hn|]. right. cbn. by rw Hv.
    + destruct Hr as (ns & Hin & _). cbn in Hin. rewrite Hwhole in Hin. by apply not_elem_of_nil in Hin.
    + destruct Hr as (row & kind & name & Hrow & Hoff & Hname & ->). right.
      apply list_elem_of_fmap in Hrow as (cr & -> & Hcr). cbn in *. specialize (Hnil cr Hcr).
      assert (name ∈ csrObjects cr) as Hin by (by destruct (csrObjects cr)).
      destruct (proj1 (Hcs (csrGroupResource cr) (csrAPIVersion cr) name)) as (? & ? & Hv); [by exists cr|].
      exists (csrGroupResource cr), name. split; [done|]. by rw Hv.
Qed.

(** An empty list of objects in the SyncerConfig makes the syncer sync down every object of
    the resource. *)
Lemma empty_objects_sync_all syncfg cr up down kind :
  cr ∈ scsClusterScope (scSpec syncfg) → csrObjects cr = [] →
  offers up (csrGroupResource cr) (csrAPIVersion cr) kind →
  MkEdgeSyncConfigResource kind (grGroup (csrGroupResource cr)) (csrAPIVersion cr) "*" ""
    ∈ GetDownSyncedResources (after_Refresh (received syncfg) up down).
Proof.
  intros Hcr Hnil Hoff. apply (after_Refresh_lists (received syncfg) up down). right. right. left.
  exists (MkReceivedClusterScope (csrGroupResource cr) (csrAPIVersion cr) None), kind, "*".
  split_and!; [|done|by left|done]. apply list_elem_of_fmap. exists cr. by rw Hnil.
Qed.
End syncer_configs.
