(* ===== verification/Effects.v ===== *)
(** Code that reads and writes a state, and may return an error or panic: the monad [SM], in
    which the syncer and the space framework are written. *)

From S2P Require Import Prelude.

(** * Errors and panics *)

Inductive SResult (A : Type) : Type :=
| Done (a : A)
| Failed (err : string)
| Panicked.
Arguments Done {_} _.
Arguments Failed {_} _.
Arguments Panicked {_}.

Definition SM (S A : Type) : Type := S → SResult A * S.

#[export] Instance SM_ret {S} : MRet (SM S) := λ A a s, (Done a, s).
#[export] Instance SM_bind {S} : MBind (SM S) := λ A B f m s,
  match m s with
  | (Done a, s) => f a s
  | (Failed err, s) => (Failed err, s)
  | (Panicked, s) => (Panicked, s)
  end.
Definition sfail {S A} (err : string) : SM S A := λ s, (Failed err, s).
Definition spanic {S A} : SM S A := λ s, (Panicked, s).

(** A loop that ends at the first error. *)
Fixpoint sfor {S E} (l : list E) (f : E → SM S unit) : SM S unit :=
  match l with
  | [] => mret ()
  | e :: l => _ ← f e; sfor l f
  end.

(** An error that is logged and otherwise ignored. *)
Definition signore {S} (m : SM S unit) : SM S unit := λ s,
  match m s with (Failed _, s) => (Done (), s) | res => res end.

(** Reading the state, and changing it. *)
Definition sget {S A} (f : S → A) : SM S A := λ s, (Done (f s), s).
Definition sput {S} (f : S → S) : SM S unit := λ s, (Done (), f s).

Lemma SM_bind_eq {S A B} (m : SM S A) (f : A → SM S B) s :
  (m ≫= f) s = match m s with
               | (Done a, s) => f a s | (Failed err, s) => (Failed err, s) | (Panicked, s) => (Panicked, s)
               end.
Proof. done. Qed.

Lemma SM_ret_eq {S A} (a : A) s : (mret a : SM S A) s = (Done a, s).
Proof. done. Qed.
