(* ===== verification/Syncers.v ===== *)
(** The syncer (pkg/syncer): it copies objects from the mailbox space (upstream) to the edge
    cluster (downstream), their reported state back, and upsynced objects from downstream to
    upstream (syncers/common.go, downsyncer.go, upsyncer.go, clientfactory, syncer.go).

    The two API servers are behind the interface [DynamicClient].  A call may fail with an
    error or panic: the monad [SM] over the state of the servers.  Discovery, the REST mapper
    and the environment variable that enables denaturing are inputs.  A call that returns
    no error returns an object that is not nil. *)

From S2P Require Import Prelude Tuples Interfaces Slices Sets Maps GoStrings Types KbUser HashDomains HashMap.
From S2P Require Import Relations FactoredMap Receivers Joins Organizer WorkloadProjector SyncerConfig.
From S2P Require Import Effects WhatResolver ObjectSync SyncerManagers.

(** * Objects *)

(** [unstructured.NestedMap(obj, "status")] finds nothing, a map, or fails. *)
Inductive StatusField (Value : Type) : Type :=
| NoStatus
| StatusMap (v : Value)
| OddStatus (v : Value).
Arguments NoStatus {_}.
Arguments StatusMap {_} _.
Arguments OddStatus {_} _.

(** An unstructured object: the top-level fields that are looked at, and the others. *)
Record SObject (Value : Type) : Type := MkSObject {
  soAPIVersion : string;
  soKind : string;
  soMeta : UMeta Value;
  soStatus : StatusField Value;
  soContent : gmap string Value
}.
Arguments MkSObject {_} _ _ _ _ _.
Arguments soAPIVersion {_} _.
Arguments soKind {_} _.
Arguments soMeta {_} _.
Arguments soStatus {_} _.
Arguments soContent {_} _.

Section objects.
Context {Value : Type}.
Abbreviation U := (SObject Value).
Abbreviation Meta := (UMeta Value).

Definition soName (o : U) : string := umName (soMeta o).
Definition soNamespace (o : U) : string := umNamespace (soMeta o).
(** The map is nil if the field is absent. *)
Definition soAnnotations (o : U) : option (gmap string string) := umAnnotations (soMeta o).

Definition set_meta (f : Meta → Meta) (o : U) : U :=
  MkSObject (soAPIVersion o) (soKind o) (f (soMeta o)) (soStatus o) (soContent o).
Definition soSetName (name : string) : U → U :=
  set_meta (λ '(MkUMeta _ b c d e f g h i j k), MkUMeta name b c d e f g h i j k).
Definition soSetUID (uid : string) : U → U :=
  set_meta (λ '(MkUMeta a b _ d e f g h i j k), MkUMeta a b uid d e f g h i j k).
Definition soSetResourceVersion (rv : string) : U → U :=
  set_meta (λ '(MkUMeta a b c _ e f g h i j k), MkUMeta a b c rv e f g h i j k).
Definition soSetAnnotations (annotations : gmap string string) : U → U :=
  set_meta (λ '(MkUMeta a b c d e f g h _ j k), MkUMeta a b c d e f g h (Some annotations) j k).
Definition soSetManagedFields (managedFields : list Value) : U → U :=
  set_meta (λ '(MkUMeta a b c d e f g h i _ k), MkUMeta a b c d e f g h i managedFields k).
Definition soSetStatus (status : StatusField Value) (o : U) : U :=
  MkSObject (soAPIVersion o) (soKind o) (soMeta o) status (soContent o).

(** The kind in the GroupVersionKind, which is empty if the API version has two slashes. *)
Definition soGVKKind (o : U) : string :=
  if (length (str_Split (soAPIVersion o) "/") <=? 2)%nat then soKind o else "".

(** ** Annotations *)

Definition downsyncKey : string := "edge.kubestellar.io/downsynced".
Definition upsyncKey : string := "edge.kubestellar.io/upsynced".
Definition DownsyncOverwriteKey : string := "edge.kubestellar.io/downsync-overwrite".

Definition setAnnotation (resource : U) (key value : string) : U :=
  let annotations := match soAnnotations resource with
                     | Some annotations => <[key:=value]> annotations
                     | None => {[key:=value]}
                     end in
  soSetAnnotations annotations resource.

Definition getAnnotation (resource : U) (key : string) : string :=
  get_string (default ∅ (soAnnotations resource)) key.

Definition makeOwnedValue (object : U) : string :=
  soGVKKind object +:+ "/" +:+ soNamespace object +:+ "/" +:+ soName object.

Definition setDownsyncAnnotation (resource : U) : U := setAnnotation resource downsyncKey (makeOwnedValue resource).
Definition hasDownsyncAnnotation (resource : U) : bool :=
  bool_decide (getAnnotation resource downsyncKey = makeOwnedValue resource).
Definition setUpsyncAnnotation (resource : U) : U := setAnnotation resource upsyncKey (makeOwnedValue resource).
Definition hasUpsyncAnnotation (resource : U) : bool :=
  bool_decide (getAnnotation resource upsyncKey = makeOwnedValue resource).
Definition isDownsyncOverwrite (resource : U) : bool :=
  negb (bool_decide (getAnnotation resource DownsyncOverwriteKey = "false")).

(** ** Lists of objects *)

Definition findWithObject (target : U) (resourceList : list U) : option U :=
  List.find (λ resource, bool_decide (soName target = soName resource)
                         && bool_decide (soNamespace target = soNamespace resource)) resourceList.

Definition setStatusFieldToDestinationStatus (srcResource destResource : U) : U :=
  match soStatus destResource with
  | StatusMap status => soSetStatus (StatusMap status) srcResource
  | NoStatus | OddStatus _ => srcResource
  end.

(** The new, updated and deleted resources.  The objects of the source list are modified in
    place, but only the names and namespaces of the list are read again. *)
Definition diff (srcResourceList destResourceList : list U) (setAnnotation : U → U) (hasAnnotation : U → bool)
  : list U * list U * list U :=
  let '(newResources, updatedResources) :=
    for_each srcResourceList (λ srcResource '(newResources, updatedResources),
      match findWithObject srcResource destResourceList with
      | Some destResource =>
          let srcResource := soSetResourceVersion (umResourceVersion (soMeta destResource)) srcResource in
          let srcResource := soSetUID (umUID (soMeta destResource)) srcResource in
          let srcResource := soSetManagedFields (umManagedFields (soMeta destResource)) srcResource in
          let srcResource := setStatusFieldToDestinationStatus srcResource destResource in
          let srcResource := setAnnotation srcResource in
          (newResources, updatedResources ++ [srcResource])
      | None =>
          let srcResource := soSetResourceVersion "" srcResource in
          let srcResource := soSetUID "" srcResource in
          let srcResource := setAnnotation srcResource in
          (newResources ++ [srcResource], updatedResources)
      end) ([], []) in
  let deletedResources :=
    for_each destResourceList (λ destResource deletedResources,
      match findWithObject destResource srcResourceList with
      | Some _ => deletedResources
      | None => if hasAnnotation destResource then deletedResources ++ [destResource] else deletedResources
      end) [] in
  (newResources, updatedResources, deletedResources).

(** The object to push, and whether it makes no difference.  [None] is a panic: the
    assignment to an entry of the nil map of an object that has no annotations. *)
Definition computeUpdatedResource (upstreamResource downstreamResource : U) : option (U * bool) :=
  if negb (isDownsyncOverwrite upstreamResource) then
    let annotations := soAnnotations downstreamResource in
    let value := default ∅ annotations !! DownsyncOverwriteKey in
    if bool_decide (value = Some "false") then Some (downstreamResource, true)
    else
      annotations ← annotations;
      Some (soSetAnnotations (<[DownsyncOverwriteKey:="false"]> annotations) downstreamResource, false)
  else Some (upstreamResource, false).

Definition checkDeletable (downstreamResource : U) : bool := isDownsyncOverwrite downstreamResource.

(** [None] is a panic; the object that is looked for is there when the list comes from
    [diff], and a nil object is used otherwise. *)
Definition computeUpdatedResources (downstreamResourceList updatedResources : list U) : option (list U) :=
  for_each updatedResources (λ updatedResource filtered,
    filtered ← filtered;
    downstreamResource ← findWithObject updatedResource downstreamResourceList;
    '(updated, noDiff) ← computeUpdatedResource updatedResource downstreamResource;
    Some (if negb noDiff then filtered ++ [updated] else filtered)) (Some []).

Definition computeDeletedResources (downstreamResourceList deletedResources : list U) : list U :=
  for_each deletedResources (λ resource filtered,
    if checkDeletable resource then filtered ++ [resource] else filtered) [].
End objects.

(** * Conversions *)

Section conversions.
Context (isDenaturingEnabled : bool).

Definition convertToUpstream (resource : EdgeSyncConfigResource) (conversions : list EdgeSynConversion)
  : EdgeSyncConfigResource :=
  if negb isDenaturingEnabled then resource
  else
    match List.find (λ c, bool_decide (rGroup (cDownstream c) = rGroup resource)
                          && bool_decide (rKind (cDownstream c) = rKind resource)
                          && bool_decide (rName (cDownstream c) = rName resource)) conversions with
    | Some c => MkEdgeSyncConfigResource (rKind (cUpstream c)) (rGroup (cUpstream c)) (rVersion resource)
                  (rName (cUpstream c)) (rNamespace resource)
    | None => resource
    end.

Definition convertToDownstream (resource : EdgeSyncConfigResource) (conversions : list EdgeSynConversion)
  : EdgeSyncConfigResource :=
  if negb isDenaturingEnabled then resource
  else
    match List.find (λ c, bool_decide (rGroup (cUpstream c) = rGroup resource)
                          && bool_decide (rKind (cUpstream c) = rKind resource)
                          && bool_decide (rName (cUpstream c) = rName resource)) conversions with
    | Some c => MkEdgeSyncConfigResource (rKind (cDownstream c)) (rGroup (cDownstream c)) (rVersion resource)
                  (rName (cDownstream c)) (rNamespace resource)
    | None => resource
    end.

(** [unstructured.SetNestedField(obj, group, "spec", "group")] *)
Context {Value : Type} (setSpecGroup : string → gmap string Value → gmap string Value).

Definition applyConversion (source : SObject Value) (target : EdgeSyncConfigResource) : SObject Value :=
  if negb isDenaturingEnabled then source
  else
    let source := MkSObject (rGroup target +:+ "/" +:+ rVersion target) (rKind target) (soMeta source)
                    (soStatus source) (soContent source) in
    let source := soSetName (rName target) source in
    if bool_decide (rKind target = "CustomResourceDefinition") then
      let names := drop 1 (str_Split (rName target) ".") in
      MkSObject (soAPIVersion source) (soKind source) (soMeta source) (soStatus source)
        (setSpecGroup (String.concat "." names) (soContent source))
    else source.
End conversions.

(** * Clients *)

(** A [dynamic.NamespaceableResourceInterface] is a handle; with the namespace, if any. *)
Record DynamicClient (RC Value S : Type) : Type := MkDynamicClient {
  dc_Get : RC → option string → string → S → Lookup (SObject Value);
  dc_List : RC → option string → S → Lookup (list (SObject Value));
  (** an error, or none *)
  dc_Create : RC → option string → SObject Value → S → option string * S;
  dc_Update : RC → option string → SObject Value → S → option string * S;
  dc_UpdateStatus : RC → option string → SObject Value → S → option string * S;
  dc_Delete : RC → option string → string → S → option string * S
}.
Arguments MkDynamicClient {_ _ _} _ _ _ _ _ _.
Arguments dc_Get {_ _ _} _ _ _ _ _.
Arguments dc_List {_ _ _} _ _ _ _.
Arguments dc_Create {_ _ _} _ _ _ _ _.
Arguments dc_Update {_ _ _} _ _ _ _ _.
Arguments dc_UpdateStatus {_ _ _} _ _ _ _ _.
Arguments dc_Delete {_ _ _} _ _ _ _ _.

Record Client (RC : Type) : Type := MkClient {
  (** [None] for nil *)
  ResourceClient : option RC;
  cl_namespaced : bool;
  hasStatusInSubresources : bool
}.
Arguments MkClient {_} _ _ _.
Arguments ResourceClient {_} _.
Arguments cl_namespaced {_} _.
Arguments hasStatusInSubresources {_} _.

(** meta.RESTMapping, with the fields that are read *)
Record RESTMapping : Set := MkRESTMapping {
  rmResource : GroupVersionResource;
  rmNamespaceScope : bool
}.

(** Discovery and the REST mapper; [None] is an error. *)
Record ClientFactory (RC : Type) : Type := MkClientFactory {
  cf_GetAPIGroupResources : option (list APIGroupResources);
  cf_RESTMappings : list APIGroupResources → GroupKind → option (list RESTMapping);
  cf_Resource : GroupVersionResource → RC
}.
Arguments MkClientFactory {_} _ _ _.
Arguments cf_GetAPIGroupResources {_} _.
Arguments cf_RESTMappings {_} _ _ _.
Arguments cf_Resource {_} _ _.

Definition hasStatus (groupResources : list APIGroupResources) (gvr : GroupVersionResource) : bool :=
  existsb (λ grs, bool_decide (agrGroup grs = gvrGroup gvr)
                  && existsb (λ r, bool_decide (arName r = gvrResource gvr +:+ "/status"))
                       (default [] (VersionedResources grs !! gvrVersion gvr))) groupResources.

(** [None] is an error; without a mapping the zero client is returned, and no error. *)
Definition GetResourceClient {RC} (cf : ClientFactory RC) (group kind : string) : option (Client RC) :=
  let gk := MkGroupKind group kind in
  groupResources ← cf_GetAPIGroupResources cf;
  mappings ← cf_RESTMappings cf groupResources gk;
  match mappings with
  | [] => Some (MkClient None false false)
  | mapping :: _ =>
      Some (MkClient (Some (cf_Resource cf (rmResource mapping))) (rmNamespaceScope mapping)
              (hasStatus groupResources (rmResource mapping)))
  end.

Section client_calls.
Context {RC Value S : Type} (dc : DynamicClient RC Value S).
Abbreviation U := (SObject Value).

Definition IsNamespaced (c : Client RC) : bool := cl_namespaced c.
Definition HasStatusInSubresources (c : Client RC) : bool := hasStatusInSubresources c.

(** The calls go to the namespace of the resource if the client is for namespaced objects. *)
Definition with_client {A} (c : Client RC) (resource : EdgeSyncConfigResource)
  (call : RC → option string → SM S A) : SM S A :=
  match ResourceClient c with
  | None => spanic
  | Some rc => if IsNamespaced c then call rc (Some (rNamespace resource)) else call rc None
  end.

Definition checked (res : option string * S) : SResult unit * S :=
  match res with (None, s) => (Done (), s) | (Some err, s) => (Failed err, s) end.

Definition Client_Create (c : Client RC) (resource : EdgeSyncConfigResource) (unstObj : U) : SM S unit :=
  with_client c resource (λ rc ns s, checked (dc_Create dc rc ns unstObj s)).
Definition Client_Get (c : Client RC) (resource : EdgeSyncConfigResource) : SM S (Lookup U) :=
  with_client c resource (λ rc ns s, (Done (dc_Get dc rc ns (rName resource) s), s)).
Definition Client_List (c : Client RC) (resource : EdgeSyncConfigResource) : SM S (Lookup (list U)) :=
  with_client c resource (λ rc ns s, (Done (dc_List dc rc ns s), s)).
Definition Client_Update (c : Client RC) (resource : EdgeSyncConfigResource) (unstObj : U) : SM S unit :=
  with_client c resource (λ rc ns s, checked (dc_Update dc rc ns unstObj s)).
Definition Client_UpdateStatus (c : Client RC) (resource : EdgeSyncConfigResource) (unstObj : U) : SM S unit :=
  with_client c resource (λ rc ns s, checked (dc_UpdateStatus dc rc ns unstObj s)).
Definition Client_Delete (c : Client RC) (resource : EdgeSyncConfigResource) (name : string) : SM S unit :=
  with_client c resource (λ rc ns s, checked (dc_Delete dc rc ns name s)).

Definition updateStatusByResource (upstreamClient : Client RC) (resourceForUp : EdgeSyncConfigResource)
  (upstreamResource : U) : SM S unit :=
  if HasStatusInSubresources upstreamClient
  then Client_UpdateStatus upstreamClient resourceForUp upstreamResource
  else Client_Update upstreamClient resourceForUp upstreamResource.
End client_calls.

(** * Syncers *)

(** A DownSyncer or an UpSyncer: the client factories and the clients made so far. *)
Record Syncer (RC : Type) : Type := MkSyncer {
  upstreamClientFactory : ClientFactory RC;
  downstreamClientFactory : ClientFactory RC;
  upstreamClients : gmap GroupKind (Client RC);
  downstreamClients : gmap GroupKind (Client RC)
}.
Arguments MkSyncer {_} _ _ _ _.
Arguments upstreamClientFactory {_} _.
Arguments downstreamClientFactory {_} _.
Arguments upstreamClients {_} _.
Arguments downstreamClients {_} _.

Section syncers.
Context {RC Value S : Type} (dc : DynamicClient RC Value S).
Context (isDenaturingEnabled : bool) (setSpecGroup : string → gmap string Value → gmap string Value).
Abbreviation U := (SObject Value).
Abbreviation Resource := EdgeSyncConfigResource.
Abbreviation Clients := (gmap GroupKind (Client RC)).
Abbreviation toUp := (convertToUpstream isDenaturingEnabled).
Abbreviation toDown := (convertToDownstream isDenaturingEnabled).
Abbreviation apply := (applyConversion isDenaturingEnabled setSpecGroup).

Definition resource_gk (resource : Resource) : GroupKind := MkGroupKind (rGroup resource) (rKind resource).

(** The clients that are missing for the resource are made, unless that fails. *)
Definition ensureClient (cf : ClientFactory RC) (gk : GroupKind) (clients : Clients) : option Clients :=
  match clients !! gk with
  | Some _ => Some clients
  | None => client ← GetResourceClient cf (gkGroup gk) (gkKind gk); Some (<[gk:=client]> clients)
  end.

(** Whether it worked; the loop ends at the first failure, and the clients made stay. *)
Fixpoint initializeClients (syncResources : list Resource) (up down : ClientFactory RC)
  (upClients downClients : Clients) (conversions : list EdgeSynConversion) : bool * (Clients * Clients) :=
  match syncResources with
  | [] => (true, (upClients, downClients))
  | syncResource :: rest =>
      let gkForUp := resource_gk (toUp syncResource conversions) in
      match ensureClient up gkForUp upClients with
      | None => (false, (upClients, downClients))
      | Some upClients =>
          let gkForDown := resource_gk (toDown syncResource conversions) in
          match ensureClient down gkForDown downClients with
          | None => (false, (upClients, downClients))
          | Some downClients => initializeClients rest up down upClients downClients conversions
          end
      end
  end.

Definition getClients (resource : Resource) (upClients downClients : Clients) (conversions : list EdgeSynConversion)
  : SM S (Client RC * Client RC) :=
  match upClients !! resource_gk (toUp resource conversions) with
  | None => sfail "upstreamClient is not registered"
  | Some upstreamClient =>
      match downClients !! resource_gk (toDown resource conversions) with
      | None => sfail "downstreamClient is not registered"
      | Some downstreamClient => mret (upstreamClient, downstreamClient)
      end
  end.

Definition NewSyncer (up down : ClientFactory RC) (syncedResources : list Resource)
  (conversions : list EdgeSynConversion) : bool * Syncer RC :=
  let '(ok, (upClients, downClients)) := initializeClients syncedResources up down ∅ ∅ conversions in
  (ok, MkSyncer up down upClients downClients).

Definition ReInitializeClients (syncedResources : list Resource) (conversions : list EdgeSynConversion)
  (y : Syncer RC) : bool * Syncer RC :=
  let '(ok, (upClients, downClients)) :=
    initializeClients syncedResources (upstreamClientFactory y) (downstreamClientFactory y)
      (upstreamClients y) (downstreamClients y) conversions in
  (ok, MkSyncer (upstreamClientFactory y) (downstreamClientFactory y) upClients downClients).

Definition Syncer_getClients (y : Syncer RC) (resource : Resource) (conversions : list EdgeSynConversion)
  : SM S (Client RC * Client RC) :=
  getClients resource (upstreamClients y) (downstreamClients y) conversions.

(** ** Down *)

Definition DownSyncer_SyncOne (ds : Syncer RC) (resource : Resource) (conversions : list EdgeSynConversion)
  : SM S unit :=
  '(upstreamClient, downstreamClient) ← Syncer_getClients ds resource conversions;
  let resourceForUp := toUp resource conversions in
  upstreamResource ← Client_Get dc upstreamClient resourceForUp;
  upstreamResource ← (match upstreamResource with
                      | Found u => mret (Some u)
                      | NotFound => mret None
                      | LookupError err => sfail err
                      end : SM S (option U));
  let resourceForDown := toDown resource conversions in
  downstreamResource ← Client_Get dc downstreamClient resourceForDown;
  match downstreamResource, upstreamResource with
  | LookupError err, _ => sfail err
  | NotFound, Some upstreamResource =>
      let upstreamResource := soSetResourceVersion "" upstreamResource in
      let upstreamResource := soSetUID "" upstreamResource in
      let upstreamResource := setDownsyncAnnotation upstreamResource in
      let upstreamResource := apply upstreamResource resourceForDown in
      Client_Create dc downstreamClient resourceForDown upstreamResource
  | NotFound, None => mret ()
  | Found downstreamResource, Some upstreamResource =>
      if true || hasDownsyncAnnotation downstreamResource then
        let upstreamResource := soSetResourceVersion (umResourceVersion (soMeta downstreamResource)) upstreamResource in
        let upstreamResource := soSetUID (umUID (soMeta downstreamResource)) upstreamResource in
        let upstreamResource := setDownsyncAnnotation upstreamResource in
        let upstreamResource := apply upstreamResource resourceForDown in
        match computeUpdatedResource upstreamResource downstreamResource with
        | None => spanic
        | Some (updatedResource, noDiff) =>
            if negb noDiff then Client_Update dc downstreamClient resourceForDown updatedResource else mret ()
        end
      else mret ()
  | Found downstreamResource, None =>
      if hasDownsyncAnnotation downstreamResource then
        if checkDeletable downstreamResource
        then Client_Delete dc downstreamClient resourceForDown (rName resourceForDown)
        else mret ()
      else mret ()
  end.

Definition DownSyncer_UnsyncOne (ds : Syncer RC) (resource : Resource) (conversions : list EdgeSynConversion)
  : SM S unit := DownSyncer_SyncOne ds resource conversions.

Definition DownSyncer_BackStatusOne (ds : Syncer RC) (resource : Resource) (conversions : list EdgeSynConversion)
  : SM S unit :=
  '(upstreamClient, downstreamClient) ← Syncer_getClients ds resource conversions;
  let resourceForDown := toDown resource conversions in
  downstreamResource ← Client_Get dc downstreamClient resourceForDown;
  match downstreamResource with
  | NotFound => mret ()
  | LookupError err => sfail err
  | Found downstreamResource =>
      match soStatus downstreamResource with
      | OddStatus _ => sfail "status is not a map"
      | NoStatus => mret ()
      | StatusMap status =>
          let resourceForUp := toUp resource conversions in
          upstreamResource ← Client_Get dc upstreamClient resourceForUp;
          match upstreamResource with
          | NotFound => mret ()
          | LookupError err => sfail err
          | Found upstreamResource =>
              match soStatus upstreamResource with
              | OddStatus _ => sfail "status is not a map"
              | NoStatus | StatusMap _ =>
                  let upstreamResource := soSetStatus (StatusMap status) upstreamResource in
                  let upstreamResource := apply upstreamResource resourceForUp in
                  updateStatusByResource dc upstreamClient resourceForUp upstreamResource
              end
          end
      end
  end.

(** The three loops at the end of a sync of many objects. *)
Definition push (client : Client RC) (target : Resource) (newResources updatedResources deletedResources : list U)
  : SM S unit :=
  _ ← sfor newResources (λ resource, Client_Create dc client target (apply resource target));
  _ ← sfor updatedResources (λ resource, Client_Update dc client target (apply resource target));
  sfor deletedResources (λ resource, Client_Delete dc client target (soName (apply resource target))).

Definition DownSyncer_SyncMany (ds : Syncer RC) (resource : Resource) (conversions : list EdgeSynConversion)
  : SM S unit :=
  '(upstreamClient, downstreamClient) ← Syncer_getClients ds resource conversions;
  let resourceForUp := toUp resource conversions in
  upstreamResourceList ← Client_List dc upstreamClient resourceForUp;
  upstreamResourceList ← (match upstreamResourceList with
                          | Found l => mret l
                          | NotFound => mret []
                          | LookupError err => sfail err
                          end : SM S (list U));
  let resourceForDown := toDown resource conversions in
  downstreamResourceList ← Client_List dc downstreamClient resourceForDown;
  downstreamResourceList ← (match downstreamResourceList with
                            | Found l => mret l
                            | NotFound => sfail "not found"
                            | LookupError err => sfail err
                            end : SM S (list U));
  let '(newResources, updatedResources, deletedResources) :=
    diff upstreamResourceList downstreamResourceList setDownsyncAnnotation hasDownsyncAnnotation in
  match computeUpdatedResources downstreamResourceList updatedResources with
  | None => spanic
  | Some updatedResources =>
      let deletedResources := computeDeletedResources downstreamResourceList deletedResources in
      push downstreamClient resourceForDown newResources updatedResources deletedResources
  end.

Definition DownSyncer_UnsyncMany (ds : Syncer RC) (resource : Resource) (conversions : list EdgeSynConversion)
  : SM S unit := DownSyncer_SyncMany ds resource conversions.

Definition DownSyncer_BackStatusMany (ds : Syncer RC) (resource : Resource) (conversions : list EdgeSynConversion)
  : SM S unit :=
  '(upstreamClient, downstreamClient) ← Syncer_getClients ds resource conversions;
  let resourceForDown := toDown resource conversions in
  let listed (l : Lookup (list U)) : SM S (list U) :=
    match l with Found l => mret l | NotFound => sfail "not found" | LookupError err => sfail err end in
  downstreamResourceList ← Client_List dc downstreamClient resourceForDown;
  downstreamResourceList ← listed downstreamResourceList;
  let resourceForUp := toUp resource conversions in
  upstreamResourceList ← Client_List dc upstreamClient resourceForUp;
  upstreamResourceList ← listed upstreamResourceList;
  sfor downstreamResourceList (λ downstreamResource,
    match soStatus downstreamResource with
    | OddStatus _ | NoStatus => mret ()
    | StatusMap status =>
        match findWithObject downstreamResource upstreamResourceList with
        | None => mret ()
        | Some upstreamResource =>
            let upstreamResource := soSetStatus (StatusMap status) upstreamResource in
            let upstreamResource := apply upstreamResource resourceForUp in
            updateStatusByResource dc upstreamClient resourceForUp upstreamResource
        end
    end).

(** ** Up *)

Definition UpSyncer_SyncOne (us : Syncer RC) (resource : Resource) (conversions : list EdgeSynConversion)
  : SM S unit :=
  '(upstreamClient, downstreamClient) ← Syncer_getClients us resource conversions;
  let resourceForDown := toDown resource conversions in
  downstreamResource ← Client_Get dc downstreamClient resourceForDown;
  downstreamResource ← (match downstreamResource with
                        | Found d => mret (Some d)
                        | NotFound => mret None
                        | LookupError err => sfail err
                        end : SM S (option U));
  let resourceForUp := toUp resource conversions in
  upstreamResource ← Client_Get dc upstreamClient resourceForUp;
  match upstreamResource, downstreamResource with
  | LookupError err, _ => sfail err
  | NotFound, Some downstreamResource =>
      let downstreamResource := soSetResourceVersion "" downstreamResource in
      let downstreamResource := soSetUID "" downstreamResource in
      let downstreamResource := setUpsyncAnnotation downstreamResource in
      let downstreamResource := apply downstreamResource resourceForUp in
      Client_Create dc upstreamClient resourceForUp downstreamResource
  | NotFound, None => mret ()
  | Found upstreamResource, Some downstreamResource =>
      if hasUpsyncAnnotation upstreamResource then
        let downstreamResource := soSetResourceVersion (umResourceVersion (soMeta upstreamResource)) downstreamResource in
        let downstreamResource := soSetUID (umUID (soMeta upstreamResource)) downstreamResource in
        let downstreamResource := setUpsyncAnnotation downstreamResource in
        let downstreamResource := apply downstreamResource resourceForUp in
        Client_Update dc upstreamClient resourceForUp downstreamResource
      else mret ()
  | Found upstreamResource, None =>
      if hasUpsyncAnnotation upstreamResource
      then Client_Delete dc upstreamClient resourceForUp (rName resourceForUp)
      else mret ()
  end.

Definition UpSyncer_UnsyncOne (us : Syncer RC) (resource : Resource) (conversions : list EdgeSynConversion)
  : SM S unit := UpSyncer_SyncOne us resource conversions.

Definition UpSyncer_syncMany (us : Syncer RC) (resource : Resource) (conversions : list EdgeSynConversion)
  : SM S unit :=
  '(upstreamClient, downstreamClient) ← Syncer_getClients us resource conversions;
  let resourceForDown := toDown resource conversions in
  downstreamResourceList ← Client_List dc downstreamClient resourceForDown;
  downstreamResourceList ← (match downstreamResourceList with
                            | Found l => mret l
                            | NotFound => mret []
                            | LookupError err => sfail err
                            end : SM S (list U));
  let resourceForUp := toUp resource conversions in
  upstreamResourceList ← Client_List dc upstreamClient resourceForUp;
  upstreamResourceList ← (match upstreamResourceList with
                          | Found l => mret l
                          | NotFound => sfail "not found"
                          | LookupError err => sfail err
                          end : SM S (list U));
  let '(newResources, updatedResources, deletedResources) :=
    diff downstreamResourceList upstreamResourceList setUpsyncAnnotation hasUpsyncAnnotation in
  push upstreamClient resourceForUp newResources updatedResources deletedResources.

Definition getNamespaces (us : Syncer RC) : SM S (list string) :=
  let nsResource := MkEdgeSyncConfigResource "Namespace" "" "v1" "" "" in
  '(_, downstreamClient) ← Syncer_getClients us nsResource [];
  nsUnstList ← Client_List dc downstreamClient nsResource;
  match nsUnstList with
  | Found nsUnstList => mret (soName <$> nsUnstList)
  | NotFound => sfail "not found"
  | LookupError err => sfail err
  end.

Definition syncAllNamespaces (us : Syncer RC) (resource : Resource) (conversions : list EdgeSynConversion)
  (syncFunc : Resource → list EdgeSynConversion → SM S unit) : SM S unit :=
  namespaces ← getNamespaces us;
  sfor namespaces (λ namespace,
    syncFunc (MkEdgeSyncConfigResource (rKind resource) (rGroup resource) (rVersion resource) (rName resource) namespace)
      conversions).

(** All objects of all namespaces: it calls itself for each of the namespaces.  [None] when
    the fuel is used up, which a namespace with the name * would do. *)
Fixpoint UpSyncer_SyncMany (fuel : nat) (us : Syncer RC) (resource : Resource) (conversions : list EdgeSynConversion)
  : SM S (option unit) :=
  match fuel with
  | O => mret None
  | Datatypes.S fuel =>
      let some (m : SM S unit) : SM S (option unit) := _ ← m; mret (Some ()) in
      if bool_decide (rName resource = "*") && negb (bool_decide (rNamespace resource = "*")) then
        some (UpSyncer_syncMany us resource conversions)
      else if negb (bool_decide (rName resource = "*")) && bool_decide (rNamespace resource = "*") then
        some (syncAllNamespaces us resource conversions (UpSyncer_SyncOne us))
      else if bool_decide (rName resource = "*") && bool_decide (rNamespace resource = "*") then
        namespaces ← getNamespaces us;
        (fix loop (namespaces : list string) : SM S (option unit) :=
           match namespaces with
           | [] => mret (Some ())
           | namespace :: rest =>
               res ← UpSyncer_SyncMany fuel us
                       (MkEdgeSyncConfigResource (rKind resource) (rGroup resource) (rVersion resource) (rName resource)
                          namespace) conversions;
               match res with None => mret None | Some _ => loop rest end
           end) namespaces
      else some (UpSyncer_syncMany us resource conversions)
  end.

Definition UpSyncer_UnsyncMany (fuel : nat) (us : Syncer RC) (resource : Resource) (conversions : list EdgeSynConversion)
  : SM S (option unit) := UpSyncer_SyncMany fuel us resource conversions.

Definition UpSyncer_BackStatusOne (us : Syncer RC) (resource : Resource) (conversions : list EdgeSynConversion)
  : SM S unit := mret ().

(** ** A round *)

(** The operations of a syncer that [sync] uses. *)
Record SyncerInterface : Type := MkSyncerInterface {
  si_SyncOne : Resource → list EdgeSynConversion → SM S unit;
  si_SyncMany : Resource → list EdgeSynConversion → SM S unit
}.

(** Errors are logged only. *)
Definition sync (syncer : SyncerInterface) (resources : list Resource) (conversions : list EdgeSynConversion)
  : SM S unit :=
  sfor resources (λ resource,
    signore (if bool_decide (rName resource = "*") || bool_decide (rNamespace resource = "*")
             then si_SyncMany syncer resource conversions
             else si_SyncOne syncer resource conversions)).

Definition syncStatus (downSyncer : Syncer RC) (resources : list Resource) (conversions : list EdgeSynConversion)
  : SM S unit :=
  sfor resources (λ resource,
    signore (if bool_decide (rName resource = "*") || bool_decide (rNamespace resource = "*")
             then DownSyncer_BackStatusMany downSyncer resource conversions
             else DownSyncer_BackStatusOne downSyncer resource conversions)).

Definition downSyncer_interface (ds : Syncer RC) : SyncerInterface :=
  MkSyncerInterface (DownSyncer_SyncOne ds) (DownSyncer_SyncMany ds).

(** Endless recursion overflows the stack, which is a panic; see [UpSyncer_SyncMany_returns]. *)
Definition upSyncer_interface (us : Syncer RC) : SyncerInterface :=
  MkSyncerInterface (UpSyncer_SyncOne us)
    (λ resource conversions,
       res ← UpSyncer_SyncMany 2 us resource conversions;
       match res with Some _ => mret () | None => spanic end).

(** The state of the syncer: the managers and the two syncers. *)
Record SyncerState : Type := MkSyncerState {
  ssManager : SyncerConfigManager;
  ssDown : Syncer RC;
  ssUp : Syncer RC
}.

(** What [runSync] does at each tick. *)
Definition runSync_tick `{MapRange} (upstreamAPIs downstreamAPIs : string → option (list APIGroupResources))
  (st : SyncerState) : SM S SyncerState :=
  let manager := Refresh upstreamAPIs downstreamAPIs (ssManager st) in
  let m := syncConfigManager manager in
  let downSyncedResources := GetDownSyncedResources m in
  let downUnsyncedResources := GetDownUnsyncedResources m in
  let upSyncedResources := GetUpSyncedResources m in
  let upUnsyncedResources := GetUpUnsyncedResources m in
  let conversions := GetConversions m in
  let '(_, ds) := ReInitializeClients downSyncedResources conversions (ssDown st) in
  let '(_, us) := ReInitializeClients upSyncedResources conversions (ssUp st) in
  _ ← sync (downSyncer_interface ds) downSyncedResources conversions;
  _ ← sync (downSyncer_interface ds) downUnsyncedResources conversions;
  _ ← syncStatus ds downSyncedResources conversions;
  _ ← sync (upSyncer_interface us) upSyncedResources conversions;
  _ ← sync (upSyncer_interface us) upUnsyncedResources conversions;
  mret (MkSyncerState manager ds us).

(** The clients of both syncers for what the manager lists; whether both could be had. *)
Definition refreshSyncers (m : SyncConfigManager) (ds us : Syncer RC) : bool * (Syncer RC * Syncer RC) :=
  let '(okDown, ds) := ReInitializeClients (GetDownSyncedResources m) (GetConversions m) ds in
  let '(okUp, us) := ReInitializeClients (GetUpSyncedResources m) (GetConversions m) us in
  (okDown && okUp, (ds, us)).

(** [process] of the controller of EdgeSyncConfigs; the first result is whether there was no
    error, else the key is put back into the queue. *)
Definition edgeSyncConfigController_process `{MapRange} (SplitMetaNamespaceKey : string → option (string * string))
  (syncConfigLister : string → Lookup EdgeSyncConfig) (key : string) (m : SyncConfigManager) (ds us : Syncer RC)
  : bool * (SyncConfigManager * (Syncer RC * Syncer RC)) :=
  let refreshed (m : SyncConfigManager) := let '(ok, syncers) := refreshSyncers m ds us in (ok, (m, syncers)) in
  match SplitMetaNamespaceKey key with
  | None => (true, (m, (ds, us)))
  | Some (_, name) =>
      match syncConfigLister name with
      | NotFound => refreshed (SyncConfigManager_delete name m)
      | LookupError _ => (false, (m, (ds, us)))
      | Found syncConfig => refreshed (SyncConfigManager_upsert syncConfig m)
      end
  end.
End syncers.
