(* ===== verification/SyncersFacts.v ===== *)
(** The syncers: after a sync that reports no error the objects downstream are those that they
    should be, and objects that are not the syncer's are not deleted; with what an upsync
    and a failure to make a client do differently. *)

From S2P Require Import Prelude Tuples Interfaces Slices Sets Maps GoStrings Types KbUser HashDomains HashMap.
From S2P Require Import Relations FactoredMap Receivers Joins Organizer WorkloadProjector SyncerConfig.
From S2P Require Import Effects WhatResolver ObjectSync SyncerManagers SyncerManagersFacts Syncers.

(** * API servers *)

Definition soLabels {Value} (o : SObject Value) : gmap string string := default ∅ (umLabels (soMeta o)).

(** The type and the name of an object, and the fields, labels and annotations (but one)
    that [u] has, are in [v]. *)
Record shows {Value} (except : option string) (u v : SObject Value) : Prop := MkShows {
  shows_apiVersion : soAPIVersion v = soAPIVersion u;
  shows_kind : soKind v = soKind u;
  shows_name : soName v = soName u;
  shows_namespace : soNamespace v = soNamespace u;
  shows_content k x : soContent u !! k = Some x → soContent v !! k = Some x;
  shows_labels k x : soLabels u !! k = Some x → soLabels v !! k = Some x;
  shows_annotations k x :
    Some k ≠ except → default ∅ (soAnnotations u) !! k = Some x → default ∅ (soAnnotations v) !! k = Some x
}.

(** What the server stores when it accepts [u]: nothing is lost, but it may add to it, and
    set the fields of the metadata that it owns and the status. *)
Definition accepted {Value} (u v : SObject Value) : Prop := shows None u v.

(** The objects that a client sees, by name. *)
Class DynamicClientOk {RC Value S} (dc : DynamicClient RC Value S)
  (store : S → RC → option string → gmap string (SObject Value)) : Prop := {
  dc_keyed s rc ns name u :
    ns ≠ Some "" →
    store s rc ns !! name = Some u → soName u = name ∧ soNamespace u = default "" ns;
  dc_get_ok s rc ns name :
    match dc_Get dc rc ns name s with
    | Found u => store s rc ns !! name = Some u
    | NotFound => store s rc ns !! name = None
    | LookupError _ => True
    end;
  (** the empty namespace stands for all of them; a resource that is unknown has no objects *)
  dc_list_ok s rc ns :
    ns ≠ Some "" →
    match dc_List dc rc ns s with
    | Found l => NoDup (soName <$> l) ∧ ∀ u, u ∈ l ↔ store s rc ns !! soName u = Some u
    | NotFound => store s rc ns = ∅
    | LookupError _ => True
    end;
  dc_create_ok s s' rc ns u :
    dc_Create dc rc ns u s = (None, s') → ∃ v, accepted u v ∧ store s' rc ns = <[soName u := v]> (store s rc ns);
  dc_update_ok s s' rc ns u :
    dc_Update dc rc ns u s = (None, s') → ∃ v, accepted u v ∧ store s' rc ns = <[soName u := v]> (store s rc ns);
  dc_delete_ok s s' rc ns name :
    dc_Delete dc rc ns name s = (None, s') → store s' rc ns = delete name (store s rc ns)
}.

(** A server that reports no error for a request that is in order: the objects to create do
    not exist and have no version and no identity, those to update have those of the object
    that they replace, and those to delete exist. *)
Record answers {RC Value S} (dc : DynamicClient RC Value S)
  (store : S → RC → option string → gmap string (SObject Value)) (rc : RC) (ns : option string) : Prop := MkAnswers {
  ans_get s name err : dc_Get dc rc ns name s ≠ LookupError err;
  ans_list s : ∃ l, dc_List dc rc ns s = Found l;
  ans_create s u :
    store s rc ns !! soName u = None → soNamespace u = default "" ns →
    umResourceVersion (soMeta u) = "" → umUID (soMeta u) = "" → (dc_Create dc rc ns u s).1 = None;
  ans_update s u d :
    store s rc ns !! soName u = Some d → soNamespace u = default "" ns →
    umResourceVersion (soMeta u) = umResourceVersion (soMeta d) → umUID (soMeta u) = umUID (soMeta d) →
    (dc_Update dc rc ns u s).1 = None;
  ans_delete s name : is_Some (store s rc ns !! name) → (dc_Delete dc rc ns name s).1 = None
}.

Section facts.
Context {RC Value S : Type} (dc : DynamicClient RC Value S).
Context (store : S → RC → option string → gmap string (SObject Value)) `{!DynamicClientOk dc store}.
Context (setSpecGroup : string → gmap string Value → gmap string Value).
Abbreviation U := (SObject Value).
Implicit Types (u v d : U) (s : S).

(** ** Objects *)

Lemma shows_refl except u : shows except u u.
Proof. by split. Qed.

Lemma shows_trans u v d e1 e2 except :
  (∀ k, e1 = Some k ∨ e2 = Some k → except = Some k) → shows e1 u v → shows e2 v d → shows except u d.
Proof.
  intros Hex [] []. split; [congruence..|by eauto|by eauto|]. intros k x Hk Hx.
  apply shows_annotations1; [intros <-; by apply Hk; rw (Hex k); auto|].
  apply shows_annotations0; [intros <-; by apply Hk; rw (Hex k); auto|done].
Qed.

Lemma shows_setAnnotation u key value : shows (Some key) u (setAnnotation u key value).
Proof.
  destruct u as [av kd [a b c d e f g h i j k] st co]. split; cbn; try done.
  intros k' x Hne. assert (k' ≠ key) by congruence. unfold setAnnotation. cbn.
  destruct i as [annotations|]; cbn; intros Hx; [by rw lookup_insert_ne|by rewrite lookup_empty in Hx].
Qed.

Lemma getAnnotation_set u key value : getAnnotation (setAnnotation u key value) key = value.
Proof.
  destruct u as [av kd [a b c d e f g h i j k] st co]. unfold getAnnotation, setAnnotation, get_string. cbn.
  destruct i; cbn; [by rw lookup_insert_eq|by rw lookup_singleton_eq].
Qed.

Lemma getAnnotation_set_ne u key value key' : key' ≠ key → getAnnotation (setAnnotation u key value) key' = getAnnotation u key'.
Proof.
  intros Hne. destruct u as [av kd [a b c d e f g h i j k] st co]. unfold getAnnotation, setAnnotation, get_string. cbn.
  destruct i; cbn; [by rw lookup_insert_ne|by rw lookup_singleton_ne].
Qed.

Lemma getAnnotation_shows except u v key :
  shows except u v → except ≠ Some key → getAnnotation u key ≠ "" → getAnnotation v key = getAnnotation u key.
Proof.
  intros Hs Hk Hne. unfold getAnnotation, get_string in *.
  match type of Hne with default "" ?o ≠ "" => destruct o as [x|] eqn:Hx; [|done] end.
  by rw (shows_annotations except u v Hs key x).
Qed.

Lemma makeOwnedValue_shows except u v : shows except u v → makeOwnedValue v = makeOwnedValue u.
Proof. intros [Ha Hk Hn Hns _ _ _]. unfold makeOwnedValue, soGVKKind. by rw Ha Hk Hn Hns. Qed.

Lemma makeOwnedValue_nonempty u : makeOwnedValue u ≠ "".
Proof. unfold makeOwnedValue. by destruct (soGVKKind u). Qed.

(** An object with its annotation of ownership, once accepted by a server, has it. *)
Lemma owned_accepted key u v :
  accepted (setAnnotation u key (makeOwnedValue u)) v →
  shows (Some key) u v ∧ getAnnotation v key = makeOwnedValue v.
Proof.
  intros Hv. pose proof (shows_setAnnotation u key (makeOwnedValue u)) as Hu. split; [refine (shows_trans _ _ _ (Some key) None _ _ Hu Hv); naive_solver|].
  rw (getAnnotation_shows _ _ _ key Hv); [|done|rw getAnnotation_set; apply makeOwnedValue_nonempty].
  rw getAnnotation_set (makeOwnedValue_shows _ _ _ Hv) (makeOwnedValue_shows _ _ _ Hu) //.
Qed.

(** ** What a sync of one name does *)

(** The object downstream after a downsync, from the objects before it.  An object that is
    marked "create-only" upstream is copied once and then marked downstream, where its
    state stays; one that is marked downstream is not deleted. *)
Definition synced_down (up down after : option U) : Prop :=
  match up, down with
  | None, None => after = None
  | None, Some d => after = if hasDownsyncAnnotation d && isDownsyncOverwrite d then None else Some d
  | Some u, None => ∃ v, after = Some v ∧ shows (Some downsyncKey) u v ∧ hasDownsyncAnnotation v = true
  | Some u, Some d =>
      if isDownsyncOverwrite u
      then ∃ v, after = Some v ∧ shows (Some downsyncKey) u v ∧ hasDownsyncAnnotation v = true
      else ∃ v, after = Some v ∧ shows (Some DownsyncOverwriteKey) d v ∧ isDownsyncOverwrite v = false
  end.

(** The object upstream after an upsync.  Only the upsync of one object cares whether an
    object upstream has the annotation before it overwrites it. *)
Definition synced_up (many : bool) (down up after : option U) : Prop :=
  match down, up with
  | None, None => after = None
  | None, Some u => after = if hasUpsyncAnnotation u then None else Some u
  | Some d, None => ∃ v, after = Some v ∧ shows (Some upsyncKey) d v ∧ hasUpsyncAnnotation v = true
  | Some d, Some u =>
      if many || hasUpsyncAnnotation u
      then ∃ v, after = Some v ∧ shows (Some upsyncKey) d v ∧ hasUpsyncAnnotation v = true
      else after = Some u
  end.

(** The downsync of a "create-only" object assigns to an entry of the annotations of the
    object downstream, which panics if it has none. *)
Definition downsync_panics (up down : option U) : bool :=
  match up, down with
  | Some u, Some d => negb (isDownsyncOverwrite u) && bool_decide (soAnnotations d = None)
  | _, _ => false
  end.

(** The version and the identity that the server compares. *)
Definition version_of u : string * string := (umResourceVersion (soMeta u), umUID (soMeta u)).

(** The setters of what the server owns leave the rest. *)
Lemma shows_prepared rv uid u : shows None u (soSetUID uid (soSetResourceVersion rv u)).
Proof. by destruct u as [av kd [] st co]. Qed.

Lemma prepared_annotations rv uid u : soAnnotations (soSetUID uid (soSetResourceVersion rv u)) = soAnnotations u.
Proof. by destruct u as [? ? [] ? ?]. Qed.
Lemma prepared_name rv uid u : soName (setDownsyncAnnotation (soSetUID uid (soSetResourceVersion rv u))) = soName u.
Proof. by destruct u as [? ? [] ? ?]. Qed.

Lemma hasDownsyncAnnotation_eq v :
  getAnnotation v downsyncKey = makeOwnedValue v → hasDownsyncAnnotation v = true.
Proof. intros Hv. by apply bool_decide_eq_true. Qed.

(** Pushing an object of the source, with the annotation. *)
Lemma pushed_accepted key u u' v :
  shows None u u' → accepted (setAnnotation u' key (makeOwnedValue u')) v →
  shows (Some key) u v ∧ getAnnotation v key = makeOwnedValue v.
Proof.
  intros Hu [Hv Ho]%owned_accepted. split; [|done].
  refine (shows_trans _ _ _ None (Some key) _ _ Hu Hv); naive_solver.
Qed.

Lemma downsynced_accepted u u' v :
  shows None u u' → accepted (setDownsyncAnnotation u') v →
  shows (Some downsyncKey) u v ∧ hasDownsyncAnnotation v = true.
Proof. intros Hu [Hv Ho]%(pushed_accepted _ u); [|done]. split; [done|by apply hasDownsyncAnnotation_eq]. Qed.

Lemma upsynced_accepted u u' v :
  shows None u u' → accepted (setUpsyncAnnotation u') v →
  shows (Some upsyncKey) u v ∧ hasUpsyncAnnotation v = true.
Proof. intros Hu [Hv Ho]%(pushed_accepted _ u); [|done]. split; [done|by apply bool_decide_eq_true]. Qed.

(** The object that replaces the one downstream. *)
Lemma updated_accepted u u' d w noDiff :
  shows None u u' → soAnnotations u' = soAnnotations u → soName u = soName d →
  computeUpdatedResource (setDownsyncAnnotation u') d = Some (w, noDiff) →
  soName w = soName d ∧
  (noDiff = true → synced_down (Some u) (Some d) (Some d)) ∧
  (noDiff = false → ∀ v, accepted w v → synced_down (Some u) (Some d) (Some v)).
Proof.
  intros Hu Han Hname. unfold computeUpdatedResource, synced_down.
  assert (isDownsyncOverwrite (setDownsyncAnnotation u') = isDownsyncOverwrite u) as ->.
  { unfold isDownsyncOverwrite, setDownsyncAnnotation. rw getAnnotation_set_ne //. unfold getAnnotation. by rw Han. }
  destruct (isDownsyncOverwrite u) eqn:Ho; cbn [negb].
  - intros [= <- <-]. split; [|split; [done|]].
    + rw (shows_name _ _ _ (shows_setAnnotation u' downsyncKey (makeOwnedValue u'))) (shows_name _ _ _ Hu) //.
    + intros _ v Hv. exists v. split; [done|]. by eapply downsynced_accepted.
  - case_bool_decide as Hval.
    + intros [= <- <-]. split; [done|]. split; [|done]. intros _. exists d. split_and!; [done|apply shows_refl|].
      apply negb_false_iff, bool_decide_eq_true. unfold getAnnotation, get_string. by rw Hval.
    + destruct (soAnnotations d) as [an|] eqn:Hd; [|done]. cbn. intros [= <- <-]. split; [by destruct d as [? ? [] ? ?]|].
      split; [done|]. intros _ v Hv.
      assert (soSetAnnotations (<[DownsyncOverwriteKey:="false"]> an) d = setAnnotation d DownsyncOverwriteKey "false") as Heq.
      { unfold setAnnotation. by rw Hd. }
      rewrite Heq in Hv. exists v. split; [done|]. split.
      * refine (shows_trans _ _ _ (Some DownsyncOverwriteKey) None _ _ (shows_setAnnotation _ _ _) Hv). naive_solver.
      * apply negb_false_iff, bool_decide_eq_true. rw (getAnnotation_shows None _ _ _ Hv) // getAnnotation_set //.
Qed.

(** ** Differences *)

(** The list has the objects of the map, each once. *)
Definition listed (l : list U) (m : gmap string U) : Prop :=
  NoDup (soName <$> l) ∧ ∀ u, u ∈ l ↔ m !! soName u = Some u.

(** The objects of the map are in the namespace, under their names. *)
Definition keyed (namespace : string) (m : gmap string U) : Prop :=
  ∀ name u, m !! name = Some u → soName u = name ∧ soNamespace u = namespace.

Lemma find_listed namespace l m u :
  listed l m → keyed namespace m → soNamespace u = namespace → findWithObject u l = m !! soName u.
Proof.
  intros [_ Hl] Hk Hns. unfold findWithObject. destruct (List.find _ l) as [d|] eqn:Hf.
  - apply List.find_some in Hf as [Hin%list_elem_of_In [Hn _]%andb_true_iff]. apply bool_decide_eq_true in Hn.
    symmetry. rw Hn. by apply Hl.
  - destruct (m !! soName u) as [d|] eqn:Hd; [|done]. destruct (Hk _ _ Hd) as [Hn Hnsd].
    assert (d ∈ l) as Hin%list_elem_of_In by (apply Hl; by rw Hn).
    pose proof (List.find_none _ _ Hf d Hin) as Hcontra. cbn in Hcontra.
    rewrite bool_decide_eq_true_2 // bool_decide_eq_true_2 in Hcontra; [done|congruence].
Qed.

(** The object of the source as it replaces that of the destination. *)
Definition for_update u d : U :=
  setStatusFieldToDestinationStatus
    (soSetManagedFields (umManagedFields (soMeta d))
       (soSetUID (umUID (soMeta d)) (soSetResourceVersion (umResourceVersion (soMeta d)) u))) d.

Lemma shows_for_update u d : shows None u (for_update u d) ∧ soAnnotations (for_update u d) = soAnnotations u.
Proof.
  unfold for_update, setStatusFieldToDestinationStatus.
  destruct (soStatus d); destruct u as [? ? [] ? ?]; split; done.
Qed.

Lemma diff_eq src dest set has :
  diff src dest set has =
  (omap (λ u, match findWithObject u dest with
              | Some _ => None | None => Some (set (soSetUID "" (soSetResourceVersion "" u))) end) src,
   omap (λ u, match findWithObject u dest with Some d => Some (set (for_update u d)) | None => None end) src,
   omap (λ d, match findWithObject d src with
              | Some _ => None | None => if has d : bool then Some d else None end) dest).
Proof.
  unfold diff. 
  assert (∀ l a b, for_each l (λ srcResource '(newResources, updatedResources),
      match findWithObject srcResource dest with
      | Some destResource =>
          (newResources, updatedResources ++ [set (for_update srcResource destResource)])
      | None => (newResources ++ [set (soSetUID "" (soSetResourceVersion "" srcResource))], updatedResources)
      end) (a, b) =
    (a ++ omap (λ u, match findWithObject u dest with
              | Some _ => None | None => Some (set (soSetUID "" (soSetResourceVersion "" u))) end) l,
     b ++ omap (λ u, match findWithObject u dest with Some d => Some (set (for_update u d)) | None => None end) l)) as H1.
  { induction l as [|u l IH]; intros a b; [by rw !app_nil_r|].
    unfold for_each in *. cbn [foldl omap list_omap]. destruct (findWithObject u dest) as [d|]; rw IH -app_assoc //. }
  assert (∀ l a, for_each l (λ destResource deletedResources,
      match findWithObject destResource src with
      | Some _ => deletedResources
      | None => if has destResource then deletedResources ++ [destResource] else deletedResources
      end) a = a ++ omap (λ d, match findWithObject d src with
              | Some _ => None | None => if has d : bool then Some d else None end) l) as H2.
  { induction l as [|d l IH]; intros a; [by rw app_nil_r|].
    unfold for_each in *. cbn [foldl omap list_omap]. destruct (findWithObject d src); [by rw IH|].
    destruct (has d); rw IH // -app_assoc //. }
  unfold for_update in *. rewrite (H1 src [] []). by rw H2.
Qed.

Lemma NoDup_omap_names (f : U → option U) l :
  (∀ u v, f u = Some v → soName v = soName u) → NoDup (soName <$> l) → NoDup (soName <$> omap f l).
Proof.
  intros Hf. induction l as [|u l IH]; [done|]. cbn. intros [Hnot Hnd]%NoDup_cons.
  destruct (f u) as [v|] eqn:Hv; [|by apply IH]. cbn. apply NoDup_cons. split; [|by apply IH].
  rw (Hf u v Hv). intros (w & Hw & (u' & Hin & Hfu)%list_elem_of_omap)%list_elem_of_fmap. apply Hnot.
  apply list_elem_of_fmap. exists u'. split; [|done]. by rw Hw (Hf _ _ Hfu).
Qed.

(** The names of the results are among those of the arguments, in order. *)
Lemma computed_updates dl ul l :
  computeUpdatedResources dl ul = Some l →
  ((∀ u d w noDiff, u ∈ ul → findWithObject u dl = Some d → computeUpdatedResource u d = Some (w, noDiff) →
      soName w = soName u) → (soName <$> l) `sublist_of` (soName <$> ul)) ∧
  (∀ w, w ∈ l ↔ ∃ u d, u ∈ ul ∧ findWithObject u dl = Some d ∧ computeUpdatedResource u d = Some (w, false)) ∧
  ∀ u, u ∈ ul → ∃ d w noDiff, findWithObject u dl = Some d ∧ computeUpdatedResource u d = Some (w, noDiff).
Proof.
  unfold computeUpdatedResources. revert l.
  apply (for_each_ind (λ seen res, ∀ l, res = Some l →
    ((∀ u d w noDiff, u ∈ seen → findWithObject u dl = Some d → computeUpdatedResource u d = Some (w, noDiff) →
       soName w = soName u) → (soName <$> l) `sublist_of` (soName <$> seen)) ∧
    (∀ w, w ∈ l ↔ ∃ u d, u ∈ seen ∧ findWithObject u dl = Some d ∧ computeUpdatedResource u d = Some (w, false)) ∧
    ∀ u, u ∈ seen → ∃ d w noDiff, findWithObject u dl = Some d ∧ computeUpdatedResource u d = Some (w, noDiff))).
  { intros l [= <-]. split_and!; [done| |intros u []%not_elem_of_nil].
    intros w. split; [intros []%not_elem_of_nil|]. intros (u & d & []%not_elem_of_nil & _). }
  intros seen u todo [filtered|] _ IH l; [|done]. cbn [mbind option_bind].
  destruct (findWithObject u dl) as [d|] eqn:Hfind; [|done]. cbn [mbind option_bind].
  destruct (computeUpdatedResource u d) as [[w noDiff]|] eqn:Hc; [|done]. cbn [mbind option_bind].
  intros [= <-]. destruct (IH filtered eq_refl) as (Hsub & Hin & Hall). split_and!.
  - intros Hname. assert (soName w = soName u) as Hw by (apply (Hname u d w noDiff); [apply elem_of_snoc; by right|done..]).
    specialize (Hsub (λ u' d' w' nd' Hu', Hname u' d' w' nd' (proj2 (elem_of_snoc _ _ _) (or_introl Hu')))).
    rw fmap_app. destruct noDiff; cbn [negb]; [by apply sublist_inserts_r|]. rw fmap_app. apply sublist_app; [done|].
    cbn. by rw Hw.
  - intros w'. setoid_rewrite elem_of_snoc. destruct noDiff; cbn [negb]; [|rw elem_of_snoc]; rw Hin; naive_solver.
  - intros u' [Hu'|Hu']%elem_of_snoc; [by apply Hall|]. subst u'. by exists d, w, noDiff.
Qed.

(** It panics exactly if one of the updates does. *)
Lemma computed_panics dl ul :
  computeUpdatedResources dl ul = None ↔ ∃ u, u ∈ ul ∧ (findWithObject u dl ≫= computeUpdatedResource u) = None.
Proof.
  unfold computeUpdatedResources.
  apply (for_each_ind (λ seen res, res = None ↔
    ∃ u, u ∈ seen ∧ (findWithObject u dl ≫= computeUpdatedResource u) = None)).
  { split; [done|]. intros (u & []%not_elem_of_nil & _). }
  intros seen u todo [filtered|] _ IH; setoid_rewrite elem_of_snoc.
  - cbn [mbind option_bind]. destruct (findWithObject u dl) as [d|] eqn:Hf; cbn [mbind option_bind].
    + destruct (computeUpdatedResource u d) as [[w noDiff]|] eqn:Hc; cbn [mbind option_bind]; split; try done.
      * intros (u' & [Hin| ->] & Hu'); [discriminate (proj2 IH (ex_intro _ u' (conj Hin Hu')))|]. rewrite Hf in Hu'. cbn in Hu'. congruence.
      * intros _. exists u. split; [by right|]. by rw Hf.
    + split; [|done]. intros _. exists u. split; [by right|]. by rw Hf.
  - split; [|done]. intros _. destruct (proj1 IH eq_refl) as (u' & Hin & Hu'). exists u'. split; [by left|done].
Qed.

Lemma computed_deletes dl l d : d ∈ computeDeletedResources dl l ↔ d ∈ l ∧ isDownsyncOverwrite d = true.
Proof.
  unfold computeDeletedResources, checkDeletable. rw (for_each_collects _ (λ x d, d = x ∧ isDownsyncOverwrite d = true)).
  - split; [intros [[]%not_elem_of_nil|(x & Hx & -> & Ho)]; done|]. intros [Hin Ho]. right. by exists d.
  - intros x acc d'. destruct (isDownsyncOverwrite x) eqn:Ho.
    + rw elem_of_snoc. split; [intros [?| ->]; auto|]. intros [?|[-> _]]; auto.
    + split; [by left|]. intros [?|[-> Ht]]; [done|]. by rewrite Ho in Ht.
Qed.

Lemma computed_deletes_sublist (dl l : list U) : (soName <$> computeDeletedResources dl l) `sublist_of` (soName <$> l).
Proof.
  unfold computeDeletedResources. apply (for_each_ind (λ seen res, (soName <$> res) `sublist_of` (soName <$> seen))); [done|].
  intros seen d todo res _ IH. rw fmap_app. destruct (checkDeletable d); [|by apply sublist_inserts_r].
  rw fmap_app. by apply sublist_app.
Qed.

(** What is sent for an update is in order. *)
Lemma updated_in_order u u' d :
  shows None u u' → soAnnotations u' = soAnnotations u → soNamespace u = soNamespace d → version_of u' = version_of d →
  match computeUpdatedResource (setDownsyncAnnotation u') d with
  | Some (w, _) => downsync_panics (Some u) (Some d) = false ∧ soNamespace w = soNamespace d ∧ version_of w = version_of d
  | None => downsync_panics (Some u) (Some d) = true
  end.
Proof.
  intros Hu Han Hns Hver. unfold computeUpdatedResource, downsync_panics.
  assert (isDownsyncOverwrite (setDownsyncAnnotation u') = isDownsyncOverwrite u) as ->.
  { unfold isDownsyncOverwrite, setDownsyncAnnotation. rw getAnnotation_set_ne //. unfold getAnnotation. by rw Han. }
  destruct (isDownsyncOverwrite u); cbn [negb andb].
  - split_and!; [done| |].
    + rw -Hns -(shows_namespace _ _ _ Hu). by destruct (shows_setAnnotation u' downsyncKey (makeOwnedValue u')).
    + rw -Hver. by destruct u' as [? ? [] ? ?].
  - destruct (soAnnotations d) as [an|] eqn:Hd; cbn.
    + case_bool_decide; cbn; (split_and!; [done| |]); by destruct d as [? ? [] ? ?].
    + by rw bool_decide_eq_false_2.
Qed.

(** ** One object *)

Section one.
Context (y : Syncer RC) (resource : EdgeSyncConfigResource) (conversions : list EdgeSynConversion).
Context (rcU rcD : RC) (namespaced statusU statusD : bool).
Hypothesis up_client : upstreamClients y !! resource_gk resource = Some (MkClient (Some rcU) namespaced statusU).
Hypothesis down_client : downstreamClients y !! resource_gk resource = Some (MkClient (Some rcD) namespaced statusD).

(** The namespace that the clients use. *)
Abbreviation ns := (if namespaced then Some (rNamespace resource) else None).
Abbreviation upstream s := (store s rcU ns).
Abbreviation downstream s := (store s rcD ns).

Lemma clients_found s :
  Syncer_getClients (S:=S) false y resource conversions s
  = (Done (MkClient (Some rcU) namespaced statusU, MkClient (Some rcD) namespaced statusD), s).
Proof.
  unfold Syncer_getClients, getClients, convertToUpstream, convertToDownstream. cbn [negb].
  by rw up_client down_client.
Qed.

Lemma with_client_eq {A} rc st (call : RC → option string → SM S A) :
  with_client (MkClient (Some rc) namespaced st) resource call = call rc ns.
Proof. unfold with_client. cbn. by destruct namespaced. Qed.

Lemma checked_Done (res : option string * S) s : checked res = (Done (), s) → res = (None, s).
Proof. destruct res as [[err|] s']; cbn; [done|]. by intros [= ->]. Qed.

Lemma Client_Get_eq rc st s :
  Client_Get dc (MkClient (Some rc) namespaced st) resource s = (Done (dc_Get dc rc ns (rName resource) s), s).
Proof. unfold Client_Get. by rw with_client_eq. Qed.

Lemma Client_List_eq rc st s :
  Client_List dc (MkClient (Some rc) namespaced st) resource s = (Done (dc_List dc rc ns s), s).
Proof. unfold Client_List. by rw with_client_eq. Qed.

Lemma Client_Create_Done rc st u s s' :
  Client_Create dc (MkClient (Some rc) namespaced st) resource u s = (Done (), s') →
  ∃ v, accepted u v ∧ store s' rc ns = <[soName u := v]> (store s rc ns).
Proof. unfold Client_Create. rw with_client_eq. intros Hc%checked_Done. by apply dc_create_ok. Qed.

Lemma Client_Update_Done rc st u s s' :
  Client_Update dc (MkClient (Some rc) namespaced st) resource u s = (Done (), s') →
  ∃ v, accepted u v ∧ store s' rc ns = <[soName u := v]> (store s rc ns).
Proof. unfold Client_Update. rw with_client_eq. intros Hc%checked_Done. by apply dc_update_ok. Qed.

Lemma Client_Delete_Done rc st name s s' :
  Client_Delete dc (MkClient (Some rc) namespaced st) resource name s = (Done (), s') →
  store s' rc ns = delete name (store s rc ns).
Proof. unfold Client_Delete. rw with_client_eq. intros Hc%checked_Done. by apply dc_delete_ok. Qed.

(** What a name is after a write of it. *)
Lemma written (m m' : gmap string U) u v name :
  soName u = name → m' = <[soName u := v]> m →
  m' !! name = Some v ∧ ∀ other, other ≠ name → m' !! other = m !! other.
Proof. intros <- ->. split; [apply lookup_insert_eq|]. intros other Hne. by rw lookup_insert_ne. Qed.

Lemma prepared_version d u : version_of (soSetUID (umUID (soMeta d)) (soSetResourceVersion (umResourceVersion (soMeta d)) u)) = version_of d.
Proof. by destruct u as [? ? [] ? ?]. Qed.

(** Calls that are in order report no error. *)
Lemma Client_Create_answers rc st u s :
  answers dc store rc ns → store s rc ns !! soName u = None → soNamespace u = default "" ns → version_of u = ("", "") →
  ∃ s', Client_Create dc (MkClient (Some rc) namespaced st) resource u s = (Done (), s').
Proof.
  intros Ha Hn Hns [= Hrv Huid]. pose proof (ans_create _ _ _ _ Ha s u Hn Hns Hrv Huid) as Hc.
  unfold Client_Create. rw with_client_eq. destruct (dc_Create dc rc ns u s) as [[err|] s']; [done|by exists s'].
Qed.

Lemma Client_Update_answers rc st u d s :
  answers dc store rc ns → store s rc ns !! soName u = Some d → soNamespace u = default "" ns → version_of u = version_of d →
  ∃ s', Client_Update dc (MkClient (Some rc) namespaced st) resource u s = (Done (), s').
Proof.
  intros Ha Hn Hns [= Hrv Huid]. pose proof (ans_update _ _ _ _ Ha s u d Hn Hns Hrv Huid) as Hc.
  unfold Client_Update. rw with_client_eq. destruct (dc_Update dc rc ns u s) as [[err|] s']; [done|by exists s'].
Qed.

Lemma Client_Delete_answers rc st name s :
  answers dc store rc ns → is_Some (store s rc ns !! name) →
  ∃ s', Client_Delete dc (MkClient (Some rc) namespaced st) resource name s = (Done (), s').
Proof.
  intros Ha Hn. pose proof (ans_delete _ _ _ _ Ha s name Hn) as Hc.
  unfold Client_Delete. rw with_client_eq. destruct (dc_Delete dc rc ns name s) as [[err|] s']; [done|by exists s'].
Qed.

(** What a query finds. *)
Lemma get_answers rc name s :
  answers dc store rc ns →
  dc_Get dc rc ns name s = match store s rc ns !! name with Some u => Found u | None => NotFound end.
Proof.
  intros Ha. pose proof (dc_get_ok s rc ns name) as Hg. pose proof (ans_get _ _ _ _ Ha s name) as Hne.
  destruct (dc_Get dc rc ns name s) as [u| |err]; [by rw Hg|by rw Hg|by destruct (Hne err)].
Qed.

(** If the servers answer, a downsync of one object reports no error, unless it panics. *)
Lemma DownSyncer_SyncOne_returns s :
  ns ≠ Some "" → answers dc store rcU ns → answers dc store rcD ns →
  ∃ s', DownSyncer_SyncOne dc false setSpecGroup y resource conversions s
        = (if downsync_panics (upstream s !! rName resource) (downstream s !! rName resource) then Panicked else Done (), s').
Proof.
  intros Hns HaU HaD. unfold DownSyncer_SyncOne. rw SM_bind_eq clients_found. cbv beta iota zeta.
  rw SM_bind_eq. unfold convertToUpstream, convertToDownstream, applyConversion. cbn [negb].
  rw Client_Get_eq get_answers //. cbv beta iota. rw SM_bind_eq.
  pose proof (λ u, dc_keyed s rcU ns (rName resource) u Hns) as Hku.
  pose proof (λ u, dc_keyed s rcD ns (rName resource) u Hns) as Hkd.
  destruct (upstream s !! rName resource) as [u|] eqn:Hup; cbv beta iota delta [mret SM_ret];
    rw SM_bind_eq Client_Get_eq get_answers //; cbv beta iota;
    destruct (downstream s !! rName resource) as [d|] eqn:Hdown; cbv beta iota.
  - destruct (Hku u eq_refl) as [Hnu Hnsu]. destruct (Hkd d eq_refl) as [Hnd Hnsd].
    pose proof (updated_in_order u _ d (shows_prepared _ _ u) (prepared_annotations _ _ u)
      (eq_trans Hnsu (eq_sym Hnsd)) (prepared_version d u)) as Ho.
    destruct (computeUpdatedResource _ d) as [[w noDiff]|] eqn:Hc; [|rw Ho; by exists s].
    destruct Ho as (-> & Hnsw & Hver). destruct noDiff; cbn [negb]; [by exists s|].
    destruct (updated_accepted u _ d w false (shows_prepared _ _ u) (prepared_annotations _ _ u)
      (eq_trans Hnu (eq_sym Hnd)) Hc) as (Hnw & _).
    eapply (Client_Update_answers rcD statusD w d); [done|by rw Hnw Hnd|by rw Hnsw|done].
  - destruct (Hku u eq_refl) as [Hnu Hnsu]. apply Client_Create_answers; [done|by rw prepared_name Hnu| |].
    + rw -Hnsu. by destruct u as [? ? [] ? ?].
    + by destruct u as [? ? [] ? ?].
  - cbn [downsync_panics]. destruct (hasDownsyncAnnotation d); [|by exists s]. destruct (checkDeletable d); [|by exists s].
    apply Client_Delete_answers; [done|by rw Hdown].
  - by exists s.
Qed.

Lemma DownSyncer_SyncOne_changes s s' :
  ns ≠ Some "" →
  DownSyncer_SyncOne dc false setSpecGroup y resource conversions s = (Done (), s') →
  synced_down (upstream s !! rName resource) (downstream s !! rName resource) (downstream s' !! rName resource) ∧
  ∀ name, name ≠ rName resource → downstream s' !! name = downstream s !! name.
Proof.
  intros Hns. unfold DownSyncer_SyncOne. rw SM_bind_eq clients_found. cbv beta iota zeta.
  rw SM_bind_eq. unfold convertToUpstream, convertToDownstream, applyConversion. cbn [negb].
  rw Client_Get_eq. cbv beta iota. rw SM_bind_eq.
  pose proof (dc_get_ok s rcU ns (rName resource)) as Hup. pose proof (dc_get_ok s rcD ns (rName resource)) as Hdown.
  pose proof (λ u, dc_keyed s rcU ns (rName resource) u Hns) as Hku.
  pose proof (λ u, dc_keyed s rcD ns (rName resource) u Hns) as Hkd.
  destruct (dc_Get dc rcU ns (rName resource) s) as [u| |]; [| |done]; cbv beta iota delta [mret SM_ret];
    rw SM_bind_eq Client_Get_eq; cbv beta iota;
    (destruct (dc_Get dc rcD ns (rName resource) s) as [d| |]; [| |done]); rw Hup Hdown.
  - destruct (Hku u Hup) as [Hnu _]. destruct (Hkd d Hdown) as [Hnd _].
    destruct (computeUpdatedResource _ d) as [[w noDiff]|] eqn:Hc; [|done].
    destruct (updated_accepted u _ d w noDiff (shows_prepared _ _ u) (prepared_annotations _ _ u)
      (eq_trans Hnu (eq_sym Hnd)) Hc) as (Hnw & Hsame & Hs).
    destruct noDiff; cbn [negb].
    + intros [= <-]. rw Hdown. split; [by apply Hsame|done].
    + intros (v & Hv & Hst)%Client_Update_Done.
      destruct (written _ _ w v (rName resource) (eq_trans Hnw Hnd) Hst) as [-> Ho]. split; [by apply Hs|done].
  - destruct (Hku u Hup) as [Hnu _]. intros (v & Hv & Hst)%Client_Create_Done.
    destruct (written _ _ _ v (rName resource) (eq_trans (prepared_name _ _ u) Hnu) Hst) as [-> Ho]. split; [|done].
    exists v. split; [done|]. eapply downsynced_accepted, Hv. apply shows_prepared.
  - unfold synced_down, checkDeletable. destruct (hasDownsyncAnnotation d); cbn [andb]; [|intros [= <-]; by rw Hdown].
    destruct (isDownsyncOverwrite d); [|intros [= <-]; by rw Hdown].
    intros Hst%Client_Delete_Done. rw Hst. split; [apply lookup_delete_eq|]. intros name Hne. by rw lookup_delete_ne.
  - intros [= <-]. by rw Hdown.
Qed.

(** C12: a downsync of one object, without denaturing, reports no error if the servers do not,
    unless it panics (see below); and if it reports none, it leaves the object downstream as it
    should be, given the objects up- and downstream before it, and all others alone; in
    particular it deletes an object only if it has the syncer's annotation. *)
Theorem DownSyncer_SyncOne_right s :
  ns ≠ Some "" →
  (∀ s', DownSyncer_SyncOne dc false setSpecGroup y resource conversions s = (Done (), s') →
     synced_down (upstream s !! rName resource) (downstream s !! rName resource) (downstream s' !! rName resource) ∧
     ∀ name, name ≠ rName resource → downstream s' !! name = downstream s !! name) ∧
  (answers dc store rcU ns → answers dc store rcD ns →
   ∃ s', DownSyncer_SyncOne dc false setSpecGroup y resource conversions s
         = (if downsync_panics (upstream s !! rName resource) (downstream s !! rName resource)
            then Panicked else Done (), s')).
Proof.
  intros Hns. split; [intros s'; by apply DownSyncer_SyncOne_changes|by apply DownSyncer_SyncOne_returns].
Qed.

(** A downsync of one object that is marked "create-only" upstream, while an object
    without any annotations has its name downstream, panics: it assigns to an entry of the
    nil map of annotations of that object. *)
Theorem create_only_update_panics s u d :
  dc_Get dc rcU ns (rName resource) s = Found u → getAnnotation u DownsyncOverwriteKey = "false" →
  dc_Get dc rcD ns (rName resource) s = Found d → soAnnotations d = None →
  DownSyncer_SyncOne dc false setSpecGroup y resource conversions s = (Panicked, s).
Proof.
  intros Hup Hu Hdown Hd. unfold DownSyncer_SyncOne. rw SM_bind_eq clients_found. cbv beta iota zeta.
  rw SM_bind_eq. unfold convertToUpstream, convertToDownstream, applyConversion. cbn [negb].
  rw Client_Get_eq. cbv beta iota. rw SM_bind_eq Hup. cbv beta iota delta [mret SM_ret].
  rw SM_bind_eq Client_Get_eq Hdown. cbv beta iota. unfold computeUpdatedResource.
  assert (isDownsyncOverwrite (setDownsyncAnnotation (soSetUID (umUID (soMeta d))
    (soSetResourceVersion (umResourceVersion (soMeta d)) u))) = false) as ->.
  { unfold isDownsyncOverwrite, setDownsyncAnnotation. rw getAnnotation_set_ne //. unfold getAnnotation.
    rw prepared_annotations. unfold getAnnotation in Hu. by rw Hu. }
  cbn [negb]. rw Hd. cbn [default from_option]. by rw bool_decide_eq_false_2.
Qed.

(** ** Many objects *)

(** The steps of a loop, each of which changes what is at the name of one element. *)
Definition changes_name (rc : RC) {E} (key : E → string) (f : E → SM S unit) (Q : E → option U → Prop) : Prop :=
  ∀ e s s', f e s = (Done (), s') →
    Q e (store s' rc ns !! key e) ∧ ∀ name, name ≠ key e → store s' rc ns !! name = store s rc ns !! name.

Lemma sfor_changes rc {E} (key : E → string) f Q (l : list E) s s' :
  changes_name rc key f Q → NoDup (key <$> l) → sfor l f s = (Done (), s') →
  (∀ e, e ∈ l → Q e (store s' rc ns !! key e)) ∧
  ∀ name, name ∉ key <$> l → store s' rc ns !! name = store s rc ns !! name.
Proof.
  intros Hf. revert s. induction l as [|e l IH]; intros s Hnd; cbn [sfor].
  - intros [= <-]. split; [|done]. intros e []%not_elem_of_nil.
  - rw SM_bind_eq. destruct (f e s) as [[[]| |] s1] eqn:He; [|done..]. intros Hl.
    cbn in Hnd. apply NoDup_cons in Hnd as [Hnot Hnd]. destruct (Hf e s s1 He) as [HQ Hothers].
    destruct (IH s1 Hnd Hl) as [HQl Hl']. split.
    + intros e' [-> |Hin]%elem_of_cons; [|by apply HQl]. by rw Hl'.
    + intros name Hname. cbn in Hname. apply not_elem_of_cons in Hname as [Hne Hnot']. by rw Hl' // Hothers.
Qed.

(** If each step reports no error as long as its own name is as at the start, the loop does. *)
Lemma sfor_answers rc {E} (key : E → string) f Q (l : list E) s :
  changes_name rc key f Q → NoDup (key <$> l) →
  (∀ e t, e ∈ l → store t rc ns !! key e = store s rc ns !! key e → ∃ t', f e t = (Done (), t')) →
  ∃ s', sfor l f s = (Done (), s').
Proof.
  intros Hf. revert s. induction l as [|e l IH]; intros s Hnd Hok; cbn [sfor]; [by exists s|].
  cbn in Hnd. apply NoDup_cons in Hnd as [Hnot Hnd]. rw SM_bind_eq.
  destruct (Hok e s) as [s1 He]; [by left|done|]. rw He. apply IH; [done|]. intros e' t Hin Ht.
  apply Hok; [by right|]. rw Ht. apply (Hf e s s1 He). intros Heq. apply Hnot. apply list_elem_of_fmap. by exists e'.
Qed.

Lemma create_changes rc st :
  changes_name rc soName (Client_Create dc (MkClient (Some rc) namespaced st) resource) (λ u o, ∃ v, o = Some v ∧ accepted u v).
Proof.
  intros u t t' (v & Hv & Hst)%Client_Create_Done. destruct (written _ _ u v (soName u) eq_refl Hst) as [-> Ho].
  split; [by exists v|done].
Qed.

Lemma update_changes rc st :
  changes_name rc soName (Client_Update dc (MkClient (Some rc) namespaced st) resource) (λ u o, ∃ v, o = Some v ∧ accepted u v).
Proof.
  intros u t t' (v & Hv & Hst)%Client_Update_Done. destruct (written _ _ u v (soName u) eq_refl Hst) as [-> Ho].
  split; [by exists v|done].
Qed.

Lemma delete_changes rc st :
  changes_name rc soName (λ u : U, Client_Delete dc (MkClient (Some rc) namespaced st) resource (soName u)) (λ _ o, o = None).
Proof.
  intros u t t' Hst%Client_Delete_Done. rw Hst. split; [apply lookup_delete_eq|]. intros name Hne. by rw lookup_delete_ne.
Qed.

(** The three loops, on lists with different names. *)
Lemma push_changes rc st (news updates deletes : list U) s s' :
  NoDup (soName <$> news ++ updates ++ deletes) →
  push dc false setSpecGroup (MkClient (Some rc) namespaced st) resource news updates deletes s = (Done (), s') →
  (∀ u, u ∈ news ++ updates → ∃ v, store s' rc ns !! soName u = Some v ∧ accepted u v) ∧
  (∀ u, u ∈ deletes → store s' rc ns !! soName u = None) ∧
  ∀ name, name ∉ soName <$> news ++ updates ++ deletes → store s' rc ns !! name = store s rc ns !! name.
Proof.
  rw !fmap_app. intros (Hn & Hdisj & (Hu & Hdisj' & Hd)%NoDup_app)%NoDup_app. unfold push, applyConversion. cbn [negb].
  rw SM_bind_eq. destruct (sfor news _ s) as [[[]| |] s1] eqn:H1; [|done..].
  rw SM_bind_eq. destruct (sfor updates _ s1) as [[[]| |] s2] eqn:H2; [|done..]. intros H3.
  eapply (sfor_changes rc soName _ (λ u o, ∃ v, o = Some v ∧ accepted u v)) in H1 as [HQ1 Hf1]; [|apply create_changes|done].
  eapply (sfor_changes rc soName _ (λ u o, ∃ v, o = Some v ∧ accepted u v)) in H2 as [HQ2 Hf2]; [|apply update_changes|done].
  eapply (sfor_changes rc soName _ (λ u o, o = None)) in H3 as [HQ3 Hf3]; [|apply delete_changes|done].
  split_and!.
  - intros u [Hin|Hin]%elem_of_app.
    + assert (soName u ∈ soName <$> news) as Hname by (apply list_elem_of_fmap; by exists u).
      specialize (Hdisj _ Hname). rewrite not_elem_of_app in Hdisj. destruct Hdisj. rw Hf3 // Hf2 //. by apply HQ1.
    + assert (soName u ∈ soName <$> updates) as Hname by (apply list_elem_of_fmap; by exists u).
      rw Hf3; [|by apply Hdisj']. by apply HQ2.
  - done.
  - intros name. rw !not_elem_of_app. intros (? & ? & ?). by rw Hf3 // Hf2 // Hf1.
Qed.

(** If all of what is pushed is in order, and the server answers, then there is no error. *)
Lemma push_answers rc st (news updates deletes : list U) s :
  answers dc store rc ns → NoDup (soName <$> news ++ updates ++ deletes) →
  (∀ u, u ∈ news → store s rc ns !! soName u = None ∧ soNamespace u = default "" ns ∧ version_of u = ("", "")) →
  (∀ u, u ∈ updates → ∃ d, store s rc ns !! soName u = Some d ∧ soNamespace u = default "" ns ∧ version_of u = version_of d) →
  (∀ u, u ∈ deletes → is_Some (store s rc ns !! soName u)) →
  ∃ s', push dc false setSpecGroup (MkClient (Some rc) namespaced st) resource news updates deletes s = (Done (), s').
Proof.
  intros Ha. rw !fmap_app. intros (Hn & Hdisj & (Hu & Hdisj' & Hd)%NoDup_app)%NoDup_app Hnews Hupdates Hdeletes.
  unfold push, applyConversion. cbn [negb]. rw SM_bind_eq.
  destruct (sfor_answers rc soName _ _ news s (create_changes rc st) Hn) as [s1 H1].
  { intros u t (Hnone & Hns & Hver)%Hnews Ht. apply Client_Create_answers; [done|by rw Ht|done..]. }
  rw H1 SM_bind_eq. apply (sfor_changes rc soName _ _ _ _ _ (create_changes rc st) Hn) in H1 as [_ Hf1].
  assert (∀ name, name ∈ soName <$> updates ++ deletes → store s1 rc ns !! name = store s rc ns !! name) as Hsame1.
  { intros name Hin. apply Hf1. intros Hin'. by apply (Hdisj name Hin'); rw -fmap_app. }
  destruct (sfor_answers rc soName _ _ updates s1 (update_changes rc st) Hu) as [s2 H2].
  { intros u t Hin Ht. destruct (Hupdates u Hin) as (d & Hd' & Hns & Hver).
    eapply (Client_Update_answers rc st u d); [done| |done..]. rw Ht Hsame1 //. apply list_elem_of_fmap_2, elem_of_app. by left. }
  rw H2. apply (sfor_changes rc soName _ _ _ _ _ (update_changes rc st) Hu) in H2 as [_ Hf2].
  apply (sfor_answers rc soName _ _ deletes s2 (delete_changes rc st) Hd). intros u t Hin Ht.
  apply Client_Delete_answers; [done|]. rw Ht Hf2; [|by intros Hin'; apply (Hdisj' _ Hin'), list_elem_of_fmap_2].
  rw Hsame1; [by apply Hdeletes|]. apply list_elem_of_fmap_2, elem_of_app. by right.
Qed.

Lemma listing s rc : ns ≠ Some "" →
  match dc_List dc rc ns s with
  | Found l => listed l (store s rc ns)
  | NotFound => store s rc ns = ∅
  | LookupError _ => True
  end.
Proof. intros Hns. apply (dc_list_ok s rc ns Hns). Qed.

Lemma store_keyed s rc : ns ≠ Some "" → keyed (default "" ns) (store s rc ns).
Proof. intros Hns name u. by apply dc_keyed. Qed.

(** What is to be pushed, for the objects of the source and of the destination. *)
Section differences.
Context (namespace : string) (src dest : list U) (ms md : gmap string U).
Context (set : U → U) (has : U → bool).
Hypothesis src_listed : listed src ms.
Hypothesis dest_listed : listed dest md.
Hypothesis src_keyed : keyed namespace ms.
Hypothesis dest_keyed : keyed namespace md.
Hypothesis set_name : ∀ u, soName (set u) = soName u.
Hypothesis set_namespace : ∀ u, soNamespace (set u) = soNamespace u.

Definition news : list U := (diff src dest set has).1.1.
Definition updates : list U := (diff src dest set has).1.2.
Definition deletes : list U := (diff src dest set has).2.

Lemma find_in_dest u : u ∈ src → findWithObject u dest = md !! soName u.
Proof. intros Hu%src_listed. eapply find_listed; [done..|]. by destruct (src_keyed _ _ Hu). Qed.

Lemma find_in_src d : d ∈ dest → findWithObject d src = ms !! soName d.
Proof. intros Hd%dest_listed. eapply find_listed; [done..|]. by destruct (dest_keyed _ _ Hd). Qed.

Lemma elem_of_news w :
  w ∈ news ↔ ∃ u, ms !! soName u = Some u ∧ md !! soName u = None ∧ w = set (soSetUID "" (soSetResourceVersion "" u)).
Proof.
  unfold news. rw diff_eq. cbn [fst]. rw list_elem_of_omap. split.
  - intros (u & Hu & Hw). rewrite find_in_dest // in Hw. exists u. split; [by apply src_listed|].
    by destruct (md !! soName u); [|injection Hw].
  - intros (u & Hu & Hd & ->). apply src_listed in Hu. exists u. split; [done|]. by rw find_in_dest // Hd.
Qed.

Lemma elem_of_updates w :
  w ∈ updates ↔ ∃ u d, ms !! soName u = Some u ∧ md !! soName u = Some d ∧ w = set (for_update u d).
Proof.
  unfold updates. rw diff_eq. cbn [fst snd]. rw list_elem_of_omap. split.
  - intros (u & Hu & Hw). rewrite find_in_dest // in Hw. destruct (md !! soName u) as [d|] eqn:Hd; [|done].
    injection Hw as <-. exists u, d. split; [by apply src_listed|done].
  - intros (u & d & Hu & Hd & ->). apply src_listed in Hu. exists u. split; [done|]. by rw find_in_dest // Hd.
Qed.

Lemma elem_of_deletes d : d ∈ deletes ↔ md !! soName d = Some d ∧ ms !! soName d = None ∧ has d = true.
Proof.
  unfold deletes. rw diff_eq. cbn [snd]. rw list_elem_of_omap. split.
  - intros (d' & Hd' & Hd). rewrite find_in_src // in Hd. apply dest_listed in Hd'.
    destruct (ms !! soName d') eqn:Hs; [done|]. destruct (has d') eqn:Hh; [|done]. by injection Hd as <-.
  - intros (Hd & Hs & Hh). apply dest_listed in Hd. exists d. split; [done|]. by rw find_in_src // Hs Hh.
Qed.

Lemma for_update_name u d : soName (for_update u d) = soName u ∧ soNamespace (for_update u d) = soNamespace u.
Proof. destruct (shows_for_update u d) as [[] _]. done. Qed.

Lemma diff_NoDup : NoDup (soName <$> news) ∧ NoDup (soName <$> updates) ∧ NoDup (soName <$> deletes).
Proof.
  unfold news, updates, deletes. rw diff_eq. cbn [fst snd].
  split_and!; (apply NoDup_omap_names; [|apply src_listed || apply dest_listed]); intros u v.
  - destruct (findWithObject u dest); [done|]. intros [= <-]. rw set_name. by destruct u as [? ? [] ? ?].
  - destruct (findWithObject u dest) as [d|]; [|done]. intros [= <-]. rw set_name. apply for_update_name.
  - destruct (findWithObject u src); [done|]. destruct (has u); [|done]. by intros [= <-].
Qed.
End differences.

(** The names of the three lists are different. *)
Lemma three_NoDup (ms md : gmap string U) (l1 l2 l3 : list U) :
  NoDup (soName <$> l1) → NoDup (soName <$> l2) → NoDup (soName <$> l3) →
  (∀ u, u ∈ l1 → is_Some (ms !! soName u) ∧ md !! soName u = None) →
  (∀ u, u ∈ l2 → is_Some (ms !! soName u) ∧ is_Some (md !! soName u)) →
  (∀ u, u ∈ l3 → ms !! soName u = None) →
  NoDup (soName <$> l1 ++ l2 ++ l3).
Proof.
  intros H1 H2 H3 Hl1 Hl2 Hl3. rw !fmap_app. apply NoDup_app. split_and!; [done| |apply NoDup_app; split_and!; [done| |done]].
  - intros name (u & -> & Hu)%list_elem_of_fmap. destruct (Hl1 u Hu) as [[x Hx] Hn].
    intros [(w & Hw & Hin)%list_elem_of_fmap|(w & Hw & Hin)%list_elem_of_fmap]%elem_of_app.
    + destruct (Hl2 w Hin) as [_ [z Hz]]. congruence.
    + specialize (Hl3 w Hin). congruence.
  - intros name (u & -> & Hu)%list_elem_of_fmap (w & Hw & Hin)%list_elem_of_fmap.
    destruct (Hl2 u Hu) as [[x Hx] _]. specialize (Hl3 w Hin). congruence.
Qed.

Lemma set_down_name u : soName (setDownsyncAnnotation u) = soName u ∧ soNamespace (setDownsyncAnnotation u) = soNamespace u.
Proof. by destruct (shows_setAnnotation u downsyncKey (makeOwnedValue u)). Qed.

Lemma for_update_version u d : version_of (for_update u d) = version_of d.
Proof. unfold for_update, setStatusFieldToDestinationStatus. destruct (soStatus d); by destruct u as [? ? [] ? ?]. Qed.

Lemma find_updated namespace dest ms md u d :
  listed dest md → keyed namespace ms → keyed namespace md → ms !! soName u = Some u →
  findWithObject (setDownsyncAnnotation (for_update u d)) dest = md !! soName u.
Proof.
  intros Hd Hks Hkd Hu. destruct (set_down_name (for_update u d)) as [Hn Hns']. destruct (for_update_name u d) as [Hn' Hns''].
  rw (find_listed namespace dest md) //; [by rw Hn Hn'|]. rw Hns' Hns''. by destruct (Hks _ _ Hu).
Qed.

(** The updates are in order, and panic exactly for some "create-only" object. *)
Lemma down_updates_in_order namespace src dest ms md :
  listed src ms → listed dest md → keyed namespace ms → keyed namespace md →
  match computeUpdatedResources dest (updates src dest setDownsyncAnnotation hasDownsyncAnnotation) with
  | Some ul => (∀ name, downsync_panics (ms !! name) (md !! name) = false) ∧
      ∀ w, w ∈ ul → ∃ d, md !! soName w = Some d ∧ soNamespace w = namespace ∧ version_of w = version_of d
  | None => ∃ name, downsync_panics (ms !! name) (md !! name) = true
  end.
Proof.
  intros Hs Hd Hks Hkd. pose proof (elem_of_updates namespace src dest ms md setDownsyncAnnotation hasDownsyncAnnotation
    Hs Hd Hks Hkd) as Hup.
  assert (∀ u d, ms !! soName u = Some u → md !! soName u = Some d →
    match computeUpdatedResource (setDownsyncAnnotation (for_update u d)) d with
    | Some (w, _) => downsync_panics (Some u) (Some d) = false ∧ soNamespace w = soNamespace d ∧ version_of w = version_of d
    | None => downsync_panics (Some u) (Some d) = true
    end) as Horder.
  { intros u d Hu Hd'. destruct (shows_for_update u d) as [Hsh Han]. apply updated_in_order; [done..| |apply for_update_version].
    destruct (Hks _ _ Hu) as [_ ->]. by destruct (Hkd _ _ Hd') as [_ ->]. }
  destruct (computeUpdatedResources dest _) as [ul|] eqn:Hc.
  - destruct (computed_updates _ _ _ Hc) as (_ & Hin & Hall). split.
    + intros name. destruct (ms !! name) as [u|] eqn:Hu; [|done]. destruct (md !! name) as [d|] eqn:Hd'; [|done].
      destruct (Hks _ _ Hu) as [<- _]. specialize (Horder u d Hu Hd').
      destruct (Hall (setDownsyncAnnotation (for_update u d))) as (d' & w & noDiff & Hf & Hw); [apply Hup; by exists u, d|].
      rewrite (find_updated namespace dest ms md u d) // Hd' in Hf. injection Hf as <-. rewrite Hw in Horder. by destruct Horder.
    + intros w (u' & d' & (u & d & Hu & Hd' & ->)%Hup & Hf & Hw)%Hin.
      rewrite (find_updated namespace dest ms md u d) // Hd' in Hf. injection Hf as <-. specialize (Horder u d Hu Hd').
      rewrite Hw in Horder. destruct Horder as (_ & Hnsw & Hver). destruct (shows_for_update u d) as [Hsh Han].
      destruct (Hkd _ _ Hd') as [Hnd Hnsd].
      destruct (updated_accepted u _ d w false Hsh Han (eq_sym Hnd) Hw) as [Hnw _]. exists d.
      split_and!; [by rw Hnw Hnd|by rw Hnsw|done].
  - apply computed_panics in Hc as (u' & (u & d & Hu & Hd' & ->)%Hup & Hf).
    rewrite (find_updated namespace dest ms md u d) // Hd' in Hf. cbn in Hf. specialize (Horder u d Hu Hd').
    rewrite Hf in Horder. exists (soName u). by rw Hu Hd'.
Qed.

(** The updates that are left, and what each of them does. *)
Lemma down_updates namespace src dest ms md ul :
  listed src ms → listed dest md → keyed namespace ms → keyed namespace md →
  computeUpdatedResources dest (updates src dest setDownsyncAnnotation hasDownsyncAnnotation) = Some ul →
  NoDup (soName <$> ul) ∧
  (∀ w, w ∈ ul → is_Some (ms !! soName w) ∧ is_Some (md !! soName w)) ∧
  ∀ name u d, ms !! name = Some u → md !! name = Some d →
    name ∉ soName <$> ul ∧ synced_down (Some u) (Some d) (Some d) ∨
    ∃ w, w ∈ ul ∧ soName w = name ∧ ∀ v, accepted w v → synced_down (Some u) (Some d) (Some v).
Proof.
  intros Hs Hd Hks Hkd Hc. pose proof (elem_of_updates namespace src dest ms md setDownsyncAnnotation hasDownsyncAnnotation
    Hs Hd Hks Hkd) as Hup.
  set (ups := updates src dest setDownsyncAnnotation hasDownsyncAnnotation) in *.
  assert (∀ u d, ms !! soName u = Some u → md !! soName u = Some d → soName u = soName d) as Hsame.
  { intros u d Hu Hd'. by destruct (Hkd _ _ Hd'). }
  assert (∀ u d, ms !! soName u = Some u → findWithObject (setDownsyncAnnotation (for_update u d)) dest = md !! soName u) as Hfind.
  { intros u d Hu. by apply (find_updated namespace dest ms md). }
  assert (∀ u d w noDiff, ms !! soName u = Some u → md !! soName u = Some d →
    computeUpdatedResource (setDownsyncAnnotation (for_update u d)) d = Some (w, noDiff) →
    soName w = soName d ∧ (noDiff = true → synced_down (Some u) (Some d) (Some d)) ∧
    (noDiff = false → ∀ v, accepted w v → synced_down (Some u) (Some d) (Some v))) as Hcomp.
  { intros u d w noDiff Hu Hd' Hw. destruct (shows_for_update u d) as [Hsh Han].
    eapply updated_accepted; [exact Hsh|exact Han|by apply Hsame|exact Hw]. }
  destruct (computed_updates dest ups ul Hc) as (Hsub & Hin & Hall).
  assert ((soName <$> ul) `sublist_of` (soName <$> ups)) as Hsub'.
  { apply Hsub. intros u' d' w noDiff (u & d & Hu & Hd' & ->)%Hup. rw (Hfind u d Hu) Hd'. intros [= <-] Hw.
    destruct (Hcomp u d w noDiff Hu Hd' Hw) as [-> _]. destruct (set_down_name (for_update u d)) as [-> _].
    destruct (for_update_name u d) as [-> _]. symmetry. by apply Hsame. }
  split_and!.
  - eapply sublist_NoDup; [|exact Hsub']. by apply (diff_NoDup src dest ms md _ hasDownsyncAnnotation Hs Hd), set_down_name.
  - intros w (u' & d' & (u & d & Hu & Hd' & ->)%Hup & Hf & Hw)%Hin. rewrite (Hfind u d Hu) Hd' in Hf. injection Hf as <-.
    destruct (Hcomp u d w false Hu Hd' Hw) as [-> _]. rw -(Hsame u d Hu Hd') Hu Hd'. split; by eexists.
  - intros name u d Hu Hd'. destruct (Hks _ _ Hu) as [<- _].
    destruct (Hall (setDownsyncAnnotation (for_update u d))) as (d' & w & noDiff & Hf & Hw); [apply Hup; by exists u, d|].
    rewrite (Hfind u d Hu) Hd' in Hf. injection Hf as <-. destruct (Hcomp u d w noDiff Hu Hd' Hw) as (Hnw & Htrue & Hfalse).
    destruct noDiff; [left|right].
    + split; [|by apply Htrue]. intros (w' & Hn & (u' & d' & (u2 & d2 & Hu2 & Hd2 & ->)%Hup & Hf & Hw')%Hin)%list_elem_of_fmap.
      rewrite (Hfind u2 d2 Hu2) Hd2 in Hf. injection Hf as <-. destruct (Hcomp u2 d2 w' false Hu2 Hd2 Hw') as [Hn2 _].
      rewrite Hn2 -(Hsame u2 d2 Hu2 Hd2) in Hn. rewrite -Hn Hu in Hu2. injection Hu2 as <-. congruence.
    + exists w. split_and!; [|rw Hnw; symmetry; by apply Hsame|by apply Hfalse]. apply Hin.
      exists (setDownsyncAnnotation (for_update u d)), d. split_and!; [apply Hup; by exists u, d|by rw (Hfind u d Hu)|done].
Qed.

(** What the downsync pushes has different names. *)
Lemma down_distinct namespace src dest ms md ul :
  listed src ms → listed dest md → keyed namespace ms → keyed namespace md →
  computeUpdatedResources dest (updates src dest setDownsyncAnnotation hasDownsyncAnnotation) = Some ul →
  NoDup (soName <$> news src dest setDownsyncAnnotation hasDownsyncAnnotation ++ ul ++
    computeDeletedResources dest (deletes src dest setDownsyncAnnotation hasDownsyncAnnotation)).
Proof.
  intros Hs Hd Hks Hkd Hc. destruct (down_updates _ src dest ms md ul Hs Hd Hks Hkd Hc) as (Hndu & Hwhere & _).
  destruct (diff_NoDup src dest ms md setDownsyncAnnotation hasDownsyncAnnotation Hs Hd (λ u, proj1 (set_down_name u)))
    as (Hndn & _ & Hndd).
  pose proof (elem_of_news _ src dest ms md setDownsyncAnnotation hasDownsyncAnnotation Hs Hd Hks Hkd) as Hnew.
  pose proof (elem_of_deletes _ src dest ms md setDownsyncAnnotation hasDownsyncAnnotation Hs Hd Hks Hkd) as Hdel.
  apply (three_NoDup ms md); [done|done| | |exact Hwhere|].
  - eapply sublist_NoDup; [exact Hndd|apply computed_deletes_sublist].
  - intros w (u & Hu & Hn & ->)%Hnew. rw prepared_name Hu Hn. split; [by eexists|done].
  - intros w [(_ & Hn & _)%Hdel _]%computed_deletes. done.
Qed.

(** What the downsync pushes makes the objects downstream right. *)
Lemma down_pushed src dest ms ul s s' :
  ns ≠ Some "" → listed src ms → keyed (default "" ns) ms → listed dest (downstream s) →
  computeUpdatedResources dest (updates src dest setDownsyncAnnotation hasDownsyncAnnotation) = Some ul →
  push dc false setSpecGroup (MkClient (Some rcD) namespaced statusD) resource
    (news src dest setDownsyncAnnotation hasDownsyncAnnotation) ul
    (computeDeletedResources dest (deletes src dest setDownsyncAnnotation hasDownsyncAnnotation)) s = (Done (), s') →
  ∀ name, synced_down (ms !! name) (downstream s !! name) (downstream s' !! name).
Proof.
  intros Hns Hs Hks Hd Hc Hpush name. pose proof (store_keyed s rcD Hns) as Hkd.
  destruct (down_updates _ src dest ms (downstream s) ul Hs Hd Hks Hkd Hc) as (_ & Hwhere & Hupd).
  pose proof (elem_of_news _ src dest ms (downstream s) setDownsyncAnnotation hasDownsyncAnnotation Hs Hd Hks Hkd) as Hnew.
  pose proof (elem_of_deletes _ src dest ms (downstream s) setDownsyncAnnotation hasDownsyncAnnotation Hs Hd Hks Hkd) as Hdel.
  set (nl := news src dest setDownsyncAnnotation hasDownsyncAnnotation) in *.
  set (dl := deletes src dest setDownsyncAnnotation hasDownsyncAnnotation) in *.
  assert (∀ w, w ∈ nl → is_Some (ms !! soName w) ∧ downstream s !! soName w = None) as Hnl.
  { intros w (u & Hu & Hn & ->)%Hnew. rw prepared_name Hu Hn. split; [by eexists|done]. }
  assert (∀ w, w ∈ computeDeletedResources dest dl → ms !! soName w = None) as Hdl.
  { intros w [(_ & Hn & _)%Hdel _]%computed_deletes. done. }
  apply push_changes in Hpush as (Hpush & Hgone & Hsame); [|by eapply down_distinct].
  destruct (ms !! name) as [u|] eqn:Hu; destruct (downstream s !! name) as [d|] eqn:Hdn.
  - destruct (Hupd name u d Hu Hdn) as [[Hnot Hsy]|(w & Hw & <- & Hsy)].
    + rw Hsame; [by rw Hdn|]. rw !fmap_app !not_elem_of_app. split_and!; [|done|];
        intros (w & -> & Hin)%list_elem_of_fmap; [destruct (Hnl w Hin); congruence|specialize (Hdl w Hin); congruence].
    + destruct (Hpush w) as (v & -> & Hv); [apply elem_of_app; by right|]. by apply Hsy.
  - destruct (Hks _ _ Hu) as [<- _].
    destruct (Hpush (setDownsyncAnnotation (soSetUID "" (soSetResourceVersion "" u)))) as (v & Hv & Hacc).
    { apply elem_of_app. left. apply Hnew. by exists u. }
    rewrite prepared_name in Hv. rw Hv. exists v. split; [done|]. eapply downsynced_accepted, Hacc. apply shows_prepared.
  - destruct (Hkd _ _ Hdn) as [<- _]. cbn [synced_down].
    destruct (hasDownsyncAnnotation d && isDownsyncOverwrite d) eqn:Hboth.
    + apply andb_true_iff in Hboth as [Hh Ho]. apply Hgone, computed_deletes. split; [|done]. by apply Hdel.
    + rw Hsame; [by rw Hdn|]. rw !fmap_app !not_elem_of_app. split_and!; intros (w & Hn & Hin)%list_elem_of_fmap.
      * destruct (Hnl w Hin). congruence.
      * destruct (Hwhere w Hin) as [[? ?] _]. congruence.
      * apply computed_deletes in Hin as [(Hw & _ & Hh)%Hdel Ho]. rewrite -Hn Hdn in Hw. injection Hw as <-.
        by rewrite Hh Ho in Hboth.
  - cbn [synced_down]. rw Hsame; [by rw Hdn|]. rw !fmap_app !not_elem_of_app. split_and!;
      intros (w & -> & Hin)%list_elem_of_fmap.
    + destruct (Hnl w Hin) as [[? ?] _]. congruence.
    + destruct (Hwhere w Hin) as [[? ?] _]. congruence.
    + apply computed_deletes in Hin as [(Hw & _ & _)%Hdel _]. congruence.
Qed.

Lemma DownSyncer_SyncMany_changes s s' :
  ns ≠ Some "" →
  DownSyncer_SyncMany dc false setSpecGroup y resource conversions s = (Done (), s') →
  ∀ name, synced_down (upstream s !! name) (downstream s !! name) (downstream s' !! name).
Proof.
  intros Hns. unfold DownSyncer_SyncMany. rw SM_bind_eq clients_found. cbv beta iota zeta.
  rw SM_bind_eq. unfold convertToUpstream, convertToDownstream. cbn [negb]. rw Client_List_eq. cbv beta iota. rw SM_bind_eq.
  pose proof (listing s rcU Hns) as Hup. pose proof (listing s rcD Hns) as Hdown.
  assert (∀ src dest, listed src (upstream s) → listed dest (downstream s) →
    (let '(newResources, updatedResources, deletedResources) :=
       diff src dest setDownsyncAnnotation hasDownsyncAnnotation in
     match computeUpdatedResources dest updatedResources with
     | None => spanic
     | Some updatedResources =>
         push dc false setSpecGroup (MkClient (Some rcD) namespaced statusD) resource newResources updatedResources
           (computeDeletedResources dest deletedResources)
     end) s = (Done (), s') →
    ∀ name, synced_down (upstream s !! name) (downstream s !! name) (downstream s' !! name)) as Hrest.
  { intros src dest Hs Hd. destruct (diff src dest _ _) as [[nl ul0] dl] eqn:Hdiff.
    destruct (computeUpdatedResources dest ul0) as [ul|] eqn:Hc; [|done]. intros Hpush.
    eapply (down_pushed src dest); [done..|by apply store_keyed|done|unfold updates; by rw Hdiff|].
    unfold news, deletes. by rw Hdiff. }
  destruct (dc_List dc rcU ns s) as [src| |]; [| |done]; cbv beta iota delta [mret SM_ret];
    rw SM_bind_eq Client_List_eq; cbv beta iota; rw SM_bind_eq; (destruct (dc_List dc rcD ns s) as [dest| |]; [|done..]);
    cbv beta iota delta [mret SM_ret]; apply Hrest; try done.
  rw Hup. split; [apply NoDup_nil_2|]. intros u. rw lookup_empty. split; [intros []%not_elem_of_nil|done].
Qed.

(** What the downsync pushes is in order. *)
Lemma down_push_answers src dest ms ul s :
  ns ≠ Some "" → answers dc store rcD ns → listed src ms → keyed (default "" ns) ms → listed dest (downstream s) →
  computeUpdatedResources dest (updates src dest setDownsyncAnnotation hasDownsyncAnnotation) = Some ul →
  ∃ s', push dc false setSpecGroup (MkClient (Some rcD) namespaced statusD) resource
    (news src dest setDownsyncAnnotation hasDownsyncAnnotation) ul
    (computeDeletedResources dest (deletes src dest setDownsyncAnnotation hasDownsyncAnnotation)) s = (Done (), s').
Proof.
  intros Hns Ha Hs Hks Hd Hc. pose proof (store_keyed s rcD Hns) as Hkd. apply push_answers; [done|by eapply down_distinct|..].
  - intros w Hw. eapply elem_of_news in Hw as (u & Hu & Hn & ->); [|done..]. rw prepared_name.
    split_and!; [done| |]; [|by destruct u as [? ? [] ? ?]]. destruct (Hks _ _ Hu) as [_ <-]. by destruct u as [? ? [] ? ?].
  - pose proof (down_updates_in_order _ src dest ms (downstream s) Hs Hd Hks Hkd) as Ho. rewrite Hc in Ho. apply Ho.
  - intros w [Hw _]%computed_deletes. eapply elem_of_deletes in Hw as (Hw & _); [|done..]. by rw Hw.
Qed.

Lemma DownSyncer_SyncMany_returns s :
  ns ≠ Some "" → answers dc store rcU ns → answers dc store rcD ns →
  ((∀ name, downsync_panics (upstream s !! name) (downstream s !! name) = false) →
   ∃ s', DownSyncer_SyncMany dc false setSpecGroup y resource conversions s = (Done (), s')) ∧
  ((∃ name, downsync_panics (upstream s !! name) (downstream s !! name) = true) →
   DownSyncer_SyncMany dc false setSpecGroup y resource conversions s = (Panicked, s)).
Proof.
  intros Hns HaU HaD. unfold DownSyncer_SyncMany. rw !SM_bind_eq !clients_found. cbv beta iota zeta.
  rw !SM_bind_eq. unfold convertToUpstream, convertToDownstream. cbn [negb]. rw !Client_List_eq. cbv beta iota. rw !SM_bind_eq.
  pose proof (listing s rcU Hns) as Hup. pose proof (listing s rcD Hns) as Hdown.
  destruct (ans_list _ _ _ _ HaU s) as [src HlU]. destruct (ans_list _ _ _ _ HaD s) as [dest HlD].
  rewrite HlU in Hup. rewrite HlD in Hdown. rw !HlU. cbv beta iota delta [mret SM_ret].
  rw !SM_bind_eq !Client_List_eq. cbv beta iota. rw !SM_bind_eq !HlD. cbv beta iota delta [mret SM_ret].
  pose proof (store_keyed s rcU Hns) as Hks. pose proof (store_keyed s rcD Hns) as Hkd.
  pose proof (down_updates_in_order _ src dest _ _ Hup Hdown Hks Hkd) as Ho.
  pose proof (λ ul, down_push_answers src dest (upstream s) ul s Hns HaD Hup Hks Hdown) as Hp.
  unfold news, updates, deletes in *. destruct (diff src dest _ _) as [[nl ul0] dl]. cbn [fst snd] in *.
  destruct (computeUpdatedResources dest ul0) as [ul|].
  - split; [by intros _; apply Hp|]. intros [name Hname]. destruct Ho as [Ho _]. congruence.
  - split; [|done]. intros Hnone. destruct Ho as [name Hname]. congruence.
Qed.

(** C11: a downsync of all objects of a resource in a namespace, without denaturing, reports
    no error if the servers do not, unless it panics, before it has done anything, because of
    a "create-only" object; and if it reports none, it leaves at every name downstream what
    should be there: the objects upstream are copied, those marked "create-only" once; the
    objects that have the syncer's annotation and are gone upstream are deleted unless they
    are marked; and all others stay. *)
Theorem DownSyncer_SyncMany_right s :
  ns ≠ Some "" →
  (∀ s', DownSyncer_SyncMany dc false setSpecGroup y resource conversions s = (Done (), s') →
     ∀ name, synced_down (upstream s !! name) (downstream s !! name) (downstream s' !! name)) ∧
  (answers dc store rcU ns → answers dc store rcD ns →
   ((∀ name, downsync_panics (upstream s !! name) (downstream s !! name) = false) →
    ∃ s', DownSyncer_SyncMany dc false setSpecGroup y resource conversions s = (Done (), s')) ∧
   ((∃ name, downsync_panics (upstream s !! name) (downstream s !! name) = true) →
    DownSyncer_SyncMany dc false setSpecGroup y resource conversions s = (Panicked, s))).
Proof.
  intros Hns. split; [intros s'; by apply DownSyncer_SyncMany_changes|by apply DownSyncer_SyncMany_returns].
Qed.

(** ** Up *)

Lemma set_up_name u : soName (setUpsyncAnnotation u) = soName u.
Proof. by destruct (shows_setAnnotation u upsyncKey (makeOwnedValue u)). Qed.

Lemma UpSyncer_SyncOne_changes s s' :
  ns ≠ Some "" →
  UpSyncer_SyncOne dc false setSpecGroup y resource conversions s = (Done (), s') →
  synced_up false (downstream s !! rName resource) (upstream s !! rName resource) (upstream s' !! rName resource) ∧
  ∀ name, name ≠ rName resource → upstream s' !! name = upstream s !! name.
Proof.
  intros Hns. unfold UpSyncer_SyncOne. rw SM_bind_eq clients_found. cbv beta iota zeta.
  rw SM_bind_eq. unfold convertToUpstream, convertToDownstream, applyConversion. cbn [negb].
  rw Client_Get_eq. cbv beta iota. rw SM_bind_eq.
  pose proof (dc_get_ok s rcU ns (rName resource)) as Hup. pose proof (dc_get_ok s rcD ns (rName resource)) as Hdown.
  pose proof (λ u, dc_keyed s rcD ns (rName resource) u Hns) as Hkd.
  destruct (dc_Get dc rcD ns (rName resource) s) as [d| |]; [| |done]; cbv beta iota delta [mret SM_ret];
    rw SM_bind_eq Client_Get_eq; cbv beta iota;
    (destruct (dc_Get dc rcU ns (rName resource) s) as [u| |]; [| |done]); rw Hup Hdown; unfold synced_up; cbn [orb].
  - destruct (Hkd d Hdown) as [Hnd _]. destruct (hasUpsyncAnnotation u); [|intros [= <-]; by rw Hup].
    intros (v & Hv & Hst)%Client_Update_Done.
    destruct (written _ _ _ v (rName resource) (eq_trans (eq_trans (set_up_name _) (shows_name _ _ _ (shows_prepared _ _ d))) Hnd) Hst) as [-> Ho].
    split; [|done]. exists v. split; [done|]. eapply upsynced_accepted, Hv. apply shows_prepared.
  - destruct (Hkd d Hdown) as [Hnd _]. intros (v & Hv & Hst)%Client_Create_Done.
    destruct (written _ _ _ v (rName resource) (eq_trans (eq_trans (set_up_name _) (shows_name _ _ _ (shows_prepared _ _ d))) Hnd) Hst) as [-> Ho].
    split; [|done]. exists v. split; [done|]. eapply upsynced_accepted, Hv. apply shows_prepared.
  - destruct (hasUpsyncAnnotation u); [|intros [= <-]; by rw Hup].
    intros Hst%Client_Delete_Done. rw Hst. split; [apply lookup_delete_eq|]. intros name Hne. by rw lookup_delete_ne.
  - intros [= <-]. by rw Hup.
Qed.

Lemma up_pushed src dest ms s s' :
  ns ≠ Some "" → listed src ms → keyed (default "" ns) ms → listed dest (upstream s) →
  push dc false setSpecGroup (MkClient (Some rcU) namespaced statusU) resource
    (news src dest setUpsyncAnnotation hasUpsyncAnnotation) (updates src dest setUpsyncAnnotation hasUpsyncAnnotation)
    (deletes src dest setUpsyncAnnotation hasUpsyncAnnotation) s = (Done (), s') →
  ∀ name, synced_up true (ms !! name) (upstream s !! name) (upstream s' !! name).
Proof.
  intros Hns Hs Hks Hd Hpush name. pose proof (store_keyed s rcU Hns) as Hkd.
  destruct (diff_NoDup src dest ms (upstream s) setUpsyncAnnotation hasUpsyncAnnotation Hs Hd set_up_name)
    as (Hndn & Hndu & Hndd).
  pose proof (elem_of_news _ src dest ms (upstream s) setUpsyncAnnotation hasUpsyncAnnotation Hs Hd Hks Hkd) as Hnew.
  pose proof (elem_of_updates _ src dest ms (upstream s) setUpsyncAnnotation hasUpsyncAnnotation Hs Hd Hks Hkd) as Hupd.
  pose proof (elem_of_deletes _ src dest ms (upstream s) setUpsyncAnnotation hasUpsyncAnnotation Hs Hd Hks Hkd) as Hdel.
  set (nl := news src dest _ _) in *. set (ul := updates src dest _ _) in *. set (dl := deletes src dest _ _) in *.
  assert (∀ u x, soName (setUpsyncAnnotation (soSetUID "" (soSetResourceVersion "" u))) = soName u ∧
    soName (setUpsyncAnnotation (for_update u x)) = soName u) as Hnames.
  { intros u x. rw !set_up_name. split; [apply (shows_name _ _ _ (shows_prepared _ _ u))|apply for_update_name]. }
  assert (∀ w, w ∈ nl → is_Some (ms !! soName w) ∧ upstream s !! soName w = None) as Hnl.
  { intros w (u & Hu & Hn & ->)%Hnew. destruct (Hnames u u) as [-> _]. rw Hu Hn. split; [by eexists|done]. }
  assert (∀ w, w ∈ ul → is_Some (ms !! soName w) ∧ is_Some (upstream s !! soName w)) as Hul.
  { intros w (u & d & Hu & Hn & ->)%Hupd. destruct (Hnames u d) as [_ ->]. rw Hu Hn. split; by eexists. }
  assert (∀ w, w ∈ dl → ms !! soName w = None) as Hdl by (by intros w (_ & Hn & _)%Hdel).
  apply push_changes in Hpush as (Hpush & Hgone & Hsame); [|by apply (three_NoDup ms (upstream s))].
  destruct (ms !! name) as [u|] eqn:Hu; destruct (upstream s !! name) as [d|] eqn:Hdn; unfold synced_up; cbn [orb].
  - destruct (Hks _ _ Hu) as [<- _]. destruct (Hpush (setUpsyncAnnotation (for_update u d))) as (v & Hv & Hacc).
    { apply elem_of_app. right. apply Hupd. by exists u, d. }
    destruct (Hnames u d) as [_ Hn]. rewrite Hn in Hv. rw Hv. exists v. split; [done|].
    eapply upsynced_accepted, Hacc. apply shows_for_update.
  - destruct (Hks _ _ Hu) as [<- _].
    destruct (Hpush (setUpsyncAnnotation (soSetUID "" (soSetResourceVersion "" u)))) as (v & Hv & Hacc).
    { apply elem_of_app. left. apply Hnew. by exists u. }
    destruct (Hnames u u) as [Hn _]. rewrite Hn in Hv. rw Hv. exists v. split; [done|].
    eapply upsynced_accepted, Hacc. apply shows_prepared.
  - destruct (Hkd _ _ Hdn) as [<- _]. destruct (hasUpsyncAnnotation d) eqn:Hh; [by apply Hgone, Hdel|].
    rw Hsame; [by rw Hdn|]. rw !fmap_app !not_elem_of_app. split_and!; intros (w & Hn & Hin)%list_elem_of_fmap.
    + destruct (Hnl w Hin). congruence.
    + destruct (Hul w Hin) as [[? ?] _]. congruence.
    + apply Hdel in Hin as (Hw & _ & Hh'). rewrite -Hn Hdn in Hw. injection Hw as <-. congruence.
  - rw Hsame; [by rw Hdn|]. rw !fmap_app !not_elem_of_app. split_and!; intros (w & -> & Hin)%list_elem_of_fmap.
    + destruct (Hnl w Hin) as [[? ?] _]. congruence.
    + destruct (Hul w Hin) as [[? ?] _]. congruence.
    + apply Hdel in Hin as (Hw & _ & _). congruence.
Qed.

Lemma UpSyncer_syncMany_changes s s' :
  ns ≠ Some "" →
  UpSyncer_syncMany dc false setSpecGroup y resource conversions s = (Done (), s') →
  ∀ name, synced_up true (downstream s !! name) (upstream s !! name) (upstream s' !! name).
Proof.
  intros Hns. unfold UpSyncer_syncMany. rw SM_bind_eq clients_found. cbv beta iota zeta.
  rw SM_bind_eq. unfold convertToUpstream, convertToDownstream. cbn [negb]. rw Client_List_eq. cbv beta iota. rw SM_bind_eq.
  pose proof (listing s rcU Hns) as Hup. pose proof (listing s rcD Hns) as Hdown.
  assert (∀ src dest, listed src (downstream s) → listed dest (upstream s) →
    (let '(newResources, updatedResources, deletedResources) := diff src dest setUpsyncAnnotation hasUpsyncAnnotation in
     push dc false setSpecGroup (MkClient (Some rcU) namespaced statusU) resource newResources updatedResources
       deletedResources) s = (Done (), s') →
    ∀ name, synced_up true (downstream s !! name) (upstream s !! name) (upstream s' !! name)) as Hrest.
  { intros src dest Hs Hd. destruct (diff src dest _ _) as [[nl ul] dl] eqn:Hdiff. intros Hpush.
    eapply (up_pushed src dest); [done..|by apply store_keyed|done|]. unfold news, updates, deletes. by rw Hdiff. }
  destruct (dc_List dc rcD ns s) as [src| |]; [| |done]; cbv beta iota delta [mret SM_ret];
    rw SM_bind_eq Client_List_eq; cbv beta iota; rw SM_bind_eq; (destruct (dc_List dc rcU ns s) as [dest| |]; [|done..]);
    cbv beta iota delta [mret SM_ret]; apply Hrest; try done.
  rw Hdown. split; [apply NoDup_nil_2|]. intros u. rw lookup_empty. split; [intros []%not_elem_of_nil|done].
Qed.

Lemma UpSyncer_SyncOne_returns s :
  ns ≠ Some "" → answers dc store rcU ns → answers dc store rcD ns →
  ∃ s', UpSyncer_SyncOne dc false setSpecGroup y resource conversions s = (Done (), s').
Proof.
  intros Hns HaU HaD. unfold UpSyncer_SyncOne. rw SM_bind_eq clients_found. cbv beta iota zeta.
  rw SM_bind_eq. unfold convertToUpstream, convertToDownstream, applyConversion. cbn [negb].
  rw Client_Get_eq get_answers //. cbv beta iota. rw SM_bind_eq.
  pose proof (λ u, dc_keyed s rcU ns (rName resource) u Hns) as Hku.
  pose proof (λ u, dc_keyed s rcD ns (rName resource) u Hns) as Hkd.
  destruct (downstream s !! rName resource) as [d|] eqn:Hdown; cbv beta iota delta [mret SM_ret];
    rw SM_bind_eq Client_Get_eq get_answers //; cbv beta iota;
    destruct (upstream s !! rName resource) as [u|] eqn:Hup; cbv beta iota; [| |destruct (hasUpsyncAnnotation u)|]; try by exists s.
  - destruct (hasUpsyncAnnotation u); [|by exists s]. destruct (Hkd d eq_refl) as [Hnd Hnsd].
    eapply (Client_Update_answers rcU statusU _ u); [done|..]; rw ?set_up_name.
    + by rw (shows_name _ _ _ (shows_prepared _ _ d)) Hnd.
    + rw -Hnsd. by destruct d as [? ? [] ? ?].
    + rw -(prepared_version u d). by destruct d as [? ? [] ? ?].
  - destruct (Hkd d eq_refl) as [Hnd Hnsd]. apply Client_Create_answers; [done|..].
    + by rw set_up_name (shows_name _ _ _ (shows_prepared _ _ d)) Hnd.
    + rw -Hnsd. by destruct d as [? ? [] ? ?].
    + by destruct d as [? ? [] ? ?].
  - apply Client_Delete_answers; [done|by rw Hup].
Qed.

Lemma set_up_same u :
  soNamespace (setUpsyncAnnotation u) = soNamespace u ∧ version_of (setUpsyncAnnotation u) = version_of u.
Proof. by destruct u as [? ? [] ? ?]. Qed.

Lemma UpSyncer_syncMany_returns s :
  ns ≠ Some "" → answers dc store rcU ns → answers dc store rcD ns →
  ∃ s', UpSyncer_syncMany dc false setSpecGroup y resource conversions s = (Done (), s').
Proof.
  intros Hns HaU HaD. unfold UpSyncer_syncMany. rw !SM_bind_eq !clients_found. cbv beta iota zeta.
  rw !SM_bind_eq. unfold convertToUpstream, convertToDownstream. cbn [negb]. rw !Client_List_eq. cbv beta iota. rw !SM_bind_eq.
  pose proof (listing s rcU Hns) as Hup. pose proof (listing s rcD Hns) as Hdown.
  destruct (ans_list _ _ _ _ HaU s) as [dest HlU]. destruct (ans_list _ _ _ _ HaD s) as [src HlD].
  rewrite HlU in Hup. rewrite HlD in Hdown. rw !HlD. cbv beta iota delta [mret SM_ret].
  rw !SM_bind_eq !Client_List_eq. cbv beta iota. rw !SM_bind_eq !HlU. cbv beta iota delta [mret SM_ret].
  pose proof (store_keyed s rcU Hns) as Hkd. pose proof (store_keyed s rcD Hns) as Hks.
  destruct (diff src dest _ _) as [[nl ul] dl] eqn:Hdiff.
  pose proof (elem_of_news _ src dest _ _ setUpsyncAnnotation hasUpsyncAnnotation Hdown Hup Hks Hkd) as Hnew.
  pose proof (elem_of_updates _ src dest _ _ setUpsyncAnnotation hasUpsyncAnnotation Hdown Hup Hks Hkd) as Hupd.
  pose proof (elem_of_deletes _ src dest _ _ setUpsyncAnnotation hasUpsyncAnnotation Hdown Hup Hks Hkd) as Hdel.
  destruct (diff_NoDup src dest _ _ setUpsyncAnnotation hasUpsyncAnnotation Hdown Hup set_up_name) as (Hndn & Hndu & Hndd).
  unfold news, updates, deletes in *. rewrite Hdiff in Hnew, Hupd, Hdel, Hndn, Hndu, Hndd. cbn [fst snd] in *.
  assert (∀ w, w ∈ nl → is_Some (downstream s !! soName w) ∧ upstream s !! soName w = None ∧
    soNamespace w = default "" ns ∧ version_of w = ("", "")) as Hnl.
  { intros w (u & Hu & Hn & ->)%Hnew. rw set_up_name (shows_name _ _ _ (shows_prepared _ _ u)).
    split_and!; [by eexists|done| |by destruct u as [? ? [] ? ?]].
    destruct (Hks _ _ Hu) as [_ <-]. by destruct u as [? ? [] ? ?]. }
  assert (∀ w, w ∈ ul → is_Some (downstream s !! soName w) ∧ ∃ d, upstream s !! soName w = Some d ∧
    soNamespace w = default "" ns ∧ version_of w = version_of d) as Hul.
  { intros w (u & d & Hu & Hd & ->)%Hupd. destruct (for_update_name u d) as [Hn Hns'].
    destruct (set_up_same (for_update u d)) as [Hns'' Hver]. rw set_up_name Hn Hns'' Hns' Hver for_update_version.
    split; [by eexists|]. exists d. split_and!; [done| |done]. by destruct (Hks _ _ Hu) as [_ <-]. }
  apply push_answers; [done| |by intros w (_ & Hw)%Hnl|by intros w (_ & Hw)%Hul|].
  - apply (three_NoDup (downstream s) (upstream s)); [done..|naive_solver| |by intros w (_ & Hn & _)%Hdel].
    intros w (? & d & Hd & _)%Hul. split; [done|by exists d].
  - intros w (Hw & _)%Hdel. by exists w.
Qed.

(** C13: an upsync, of one object or of all objects of a resource in a namespace, without
    denaturing, reports no error if the servers do not; and if it reports none, it has
    copied the objects downstream to upstream, deleted upstream those that are gone downstream
    and have the annotation of upsynced objects, and left the others; but while the upsync of
    one object leaves an object upstream that lacks the annotation alone, the upsync of many
    overwrites it. *)
Theorem UpSyncer_right s :
  ns ≠ Some "" →
  (∀ s', UpSyncer_SyncOne dc false setSpecGroup y resource conversions s = (Done (), s') →
     synced_up false (downstream s !! rName resource) (upstream s !! rName resource) (upstream s' !! rName resource) ∧
     ∀ name, name ≠ rName resource → upstream s' !! name = upstream s !! name) ∧
  (∀ s', UpSyncer_syncMany dc false setSpecGroup y resource conversions s = (Done (), s') →
     ∀ name, synced_up true (downstream s !! name) (upstream s !! name) (upstream s' !! name)) ∧
  (answers dc store rcU ns → answers dc store rcD ns →
   (∃ s', UpSyncer_SyncOne dc false setSpecGroup y resource conversions s = (Done (), s')) ∧
   (∃ s', UpSyncer_syncMany dc false setSpecGroup y resource conversions s = (Done (), s'))).
Proof.
  intros Hns. split_and!; [intros s'; by apply UpSyncer_SyncOne_changes|intros s'; by apply UpSyncer_syncMany_changes|].
  intros HaU HaD. split; [by apply UpSyncer_SyncOne_returns|by apply UpSyncer_syncMany_returns].
Qed.
End one.
End facts.

(** * Clients, recursion and conversions *)

Section others.
Context {RC Value S : Type} (dc : DynamicClient RC Value S).
Context (isDenaturingEnabled : bool) (setSpecGroup : string → gmap string Value → gmap string Value).
Abbreviation toUp := (convertToUpstream isDenaturingEnabled).
Abbreviation toDown := (convertToDownstream isDenaturingEnabled).

(** If there is no client yet for the first of the resources to sync, and none can be
    made, then no client is made for any of the other resources either, so that the syncs of
    those that have none yet fail.  The order of the resources is that of an iteration over a
    map. *)
Theorem one_unknown_resource_blocks (y : Syncer RC) resource rest conversions other s :
  upstreamClients y !! resource_gk (toUp resource conversions) = None →
  GetResourceClient (upstreamClientFactory y) (rGroup (toUp resource conversions)) (rKind (toUp resource conversions))
    = None →
  other ∈ rest → upstreamClients y !! resource_gk (toUp other conversions) = None →
  ReInitializeClients isDenaturingEnabled (resource :: rest) conversions y = (false, y) ∧
  ∃ err, DownSyncer_SyncOne dc isDenaturingEnabled setSpecGroup y other conversions s = (Failed err, s).
Proof.
  intros Hnone Hfail _ Hother. split.
  - unfold ReInitializeClients. cbn [initializeClients]. unfold ensureClient, resource_gk in *. rw Hnone. cbn [gkGroup gkKind].
    rw Hfail. by destruct y.
  - unfold DownSyncer_SyncOne, Syncer_getClients, getClients. rw SM_bind_eq Hother. by eexists.
Qed.

(** A namespace cannot have the name that stands for all. *)
Definition no_star_namespace : Prop :=
  ∀ rc ns s l u, dc_List dc rc ns s = Found l → u ∈ l → soName u ≠ "*".

Lemma getNamespaces_no_star us s l s' :
  no_star_namespace → getNamespaces dc isDenaturingEnabled us s = (Done l, s') → "*" ∉ l.
Proof.
  intros Hstar. unfold getNamespaces. rw SM_bind_eq.
  destruct (Syncer_getClients _ _ _ _ s) as [[[c1 c2]| |] s1]; [|done..]. rw SM_bind_eq.
  unfold Client_List, with_client. destruct (ResourceClient c2) as [rc|]; [|done].
  destruct (IsNamespaced c2); cbn; (destruct (dc_List dc rc _ s1) as [nsl| |] eqn:Hl; [|done..]);
    intros [= <- <-] (u & Hu & Hin)%list_elem_of_fmap; by apply (Hstar _ _ _ _ _ Hl Hin).
Qed.

(** The upsync of all objects of all namespaces calls itself once per namespace and not
    deeper, unless a namespace is named with a star: it always returns, with a nesting of
    two calls. *)
Theorem UpSyncer_SyncMany_returns fuel us resource conversions s :
  no_star_namespace →
  ∃ res s', UpSyncer_SyncMany dc isDenaturingEnabled setSpecGroup (2 + fuel) us resource conversions s = (res, s') ∧
    res ≠ Done None ∧
    UpSyncer_SyncMany dc isDenaturingEnabled setSpecGroup 2 us resource conversions s = (res, s').
Proof.
  intros Hstar. cbn [Nat.add UpSyncer_SyncMany].
  assert (∀ m : SM S unit, ∃ res s', (_ ← m; mret (Some ())) s = (res, s') ∧ res ≠ Done None ∧
    (_ ← m; mret (Some ())) s = (res, s')) as Hsome.
  { intros m. rw SM_bind_eq. destruct (m s) as [[[]| |] s']; eexists _, _; split_and!; done. }
  destruct (_ && negb _); [apply Hsome|]. destruct (negb _ && _); [apply Hsome|]. destruct (_ && _) eqn:Hboth; [|apply Hsome].
  apply andb_true_iff in Hboth as [Hname Hns]. rw !SM_bind_eq.
  destruct (getNamespaces dc isDenaturingEnabled us s) as [[l| |] s1] eqn:Hl; [|by eexists _, _; split_and!..].
  apply getNamespaces_no_star in Hl; [|done]. clear Hns. cbn [rName rNamespace]. rw !Hname. revert s1. induction l as [|namespace l IH]; intros s1.
  - eexists _, _. split_and!; done.
  - apply not_elem_of_cons in Hl as [Hne Hl]. rw !SM_bind_eq.
    rw (bool_decide_eq_false_2 (namespace = "*")) //. cbn [negb andb].
    rw !SM_bind_eq. destruct (UpSyncer_syncMany _ _ _ _ _ _ s1) as [[[]| |] s2].
    + exact (IH Hl s2).
    + by eexists _, _; split_and!.
    + by eexists _, _; split_and!.
Qed.

(** With denaturing, an object takes the name of the target of the sync: for a sync of many
    objects, whose name is a star, this is not the name of any object. *)
Lemma applyConversion_name (u : SObject Value) target :
  soName (applyConversion true setSpecGroup u target) = rName target.
Proof. unfold applyConversion. cbn [negb]. case_bool_decide; by destruct u as [? ? [] ? ?]. Qed.

(** Conversion of a resource and back, if no two conversions have the same side. *)
Lemma conversion_roundtrip (conversions : list EdgeSynConversion) resource c :
  isDenaturingEnabled = true → c ∈ conversions →
  (∀ c', c' ∈ conversions → resource_gk (cUpstream c') = resource_gk (cUpstream c) →
     rName (cUpstream c') = rName (cUpstream c) → c' = c) →
  (∀ c', c' ∈ conversions → resource_gk (cDownstream c') = resource_gk (cDownstream c) →
     rName (cDownstream c') = rName (cDownstream c) → c' = c) →
  resource_gk resource = resource_gk (cUpstream c) → rName resource = rName (cUpstream c) →
  toUp (toDown resource conversions) conversions = resource.
Proof.
  intros -> Hc Hup Hdown Hgk Hname. unfold convertToDownstream, convertToUpstream. cbn [negb].
  assert (∀ (side : EdgeSynConversion → EdgeSyncConfigResource) r,
    (∀ c', c' ∈ conversions → resource_gk (side c') = resource_gk (side c) → rName (side c') = rName (side c) → c' = c) →
    resource_gk r = resource_gk (side c) → rName r = rName (side c) →
    List.find (λ c, bool_decide (rGroup (side c) = rGroup r) && bool_decide (rKind (side c) = rKind r)
                    && bool_decide (rName (side c) = rName r)) conversions = Some c) as Hfind.
  { intros side r Huniq [= Hg Hk] Hn. destruct (List.find _ conversions) as [c'|] eqn:Hf.
    - apply List.find_some in Hf as [Hin%list_elem_of_In Heq]. rewrite !andb_true_iff !bool_decide_eq_true in Heq.
      destruct Heq as [[Hg' Hk'] Hn']. f_equal. apply Huniq; [done| |by rw Hn'].
      unfold resource_gk. by rw Hg' Hk' Hg Hk.
    - pose proof (List.find_none _ _ Hf c ltac:(by apply list_elem_of_In)) as Hcontra. cbn in Hcontra.
      by rewrite Hg Hk Hn !bool_decide_eq_true_2 in Hcontra. }
  rw (Hfind cUpstream) //. rw (Hfind cDownstream) //. destruct resource. cbn in *.
  injection Hgk as -> ->. by rw Hname.
Qed.
End others.
