(* ===== verification/Base64.v ===== *)
(** Go's encoding/base64 with the standard alphabet and padding (StdEncoding), as the space
    framework uses it for kubeconfigs in secrets: EncodeToString and DecodeString, which
    ignores line breaks, and that the one undoes the other. *)

From Stdlib Require Import Ascii ZArith Zify Lia.
From Stdlib Require String.
From S2P Require Import Prelude.

#[local] Open Scope N_scope.

Definition base64_alphabet : list ascii :=
  String.list_ascii_of_string "ABCDEFGHIJKLMNOPQRSTUVWXYZabcdefghijklmnopqrstuvwxyz0123456789+/".
Definition base64_pad : ascii := "="%char.

Definition encode_sextet (n : N) : ascii := nth (N.to_nat n) base64_alphabet base64_pad.

Fixpoint index_of (c : ascii) (l : list ascii) (n : N) : option N :=
  match l with
  | [] => None
  | c' :: l => if bool_decide (c = c') then Some n else index_of c l (n + 1)
  end.

Definition decode_sextet (c : ascii) : option N := index_of c base64_alphabet 0.

(** Three bytes are four digits of six bits; one or two bytes at the end are padded. *)
Fixpoint encode_bytes (l : list N) : list ascii :=
  match l with
  | [] => []
  | [a] => [encode_sextet (a / 4); encode_sextet (a mod 4 * 16); base64_pad; base64_pad]
  | [a; b] => [encode_sextet (a / 4); encode_sextet (a mod 4 * 16 + b / 16); encode_sextet (b mod 16 * 4); base64_pad]
  | a :: b :: c :: l =>
      encode_sextet (a / 4) :: encode_sextet (a mod 4 * 16 + b / 16) ::
      encode_sextet (b mod 16 * 4 + c / 64) :: encode_sextet (c mod 64) :: encode_bytes l
  end.

(** Padding is allowed in the last four digits only; bits that are not used are ignored. *)
Fixpoint decode_digits (l : list ascii) : option (list N) :=
  match l with
  | [] => Some []
  | d1 :: d2 :: d3 :: d4 :: l =>
      s1 ← decode_sextet d1;
      s2 ← decode_sextet d2;
      if bool_decide (d4 = base64_pad) then
        match l with
        | _ :: _ => None
        | [] =>
            if bool_decide (d3 = base64_pad) then Some [s1 * 4 + s2 / 16]
            else s3 ← decode_sextet d3; Some [s1 * 4 + s2 / 16; s2 mod 16 * 16 + s3 / 4]
        end
      else
        s3 ← decode_sextet d3;
        s4 ← decode_sextet d4;
        rest ← decode_digits l;
        Some ((s1 * 4 + s2 / 16) :: (s2 mod 16 * 16 + s3 / 4) :: (s3 mod 4 * 64 + s4) :: rest)
  | _ => None
  end.

Definition is_line_break (c : ascii) : bool :=
  bool_decide (c = ascii_of_nat 10) || bool_decide (c = ascii_of_nat 13).

Definition EncodeToString (src : string) : string :=
  String.string_of_list_ascii (encode_bytes (N_of_ascii <$> String.list_ascii_of_string src)).

(** [None] is an error. *)
Definition DecodeString (s : string) : option string :=
  bytes ← decode_digits (List.filter (λ c, negb (is_line_break c)) (String.list_ascii_of_string s));
  Some (String.string_of_list_ascii (ascii_of_N <$> bytes)).

(** * The round trip *)

Lemma sextet_roundtrip n :
  n < 64 → decode_sextet (encode_sextet n) = Some n ∧ encode_sextet n ≠ base64_pad ∧ is_line_break (encode_sextet n) = false.
Proof.
  intros Hn. assert (Forall (λ k, decode_sextet (encode_sextet (N.of_nat k)) = Some (N.of_nat k) ∧
    encode_sextet (N.of_nat k) ≠ base64_pad ∧ is_line_break (encode_sextet (N.of_nat k)) = false) (seq 0 64)) as Hall.
  { repeat (apply Forall_cons; split; [vm_compute; done|]). done. }
  rewrite Forall_forall in Hall. specialize (Hall (N.to_nat n)). rewrite N2Nat.id in Hall. apply Hall, elem_of_seq. lia.
Qed.

Lemma byte_bound c : N_of_ascii c < 256.
Proof. by destruct c as [[] [] [] [] [] [] [] []]. Qed.

(** Three elements at a time. *)
Lemma list_ind3 {A} (P : list A → Prop) :
  P [] → (∀ a, P [a]) → (∀ a b, P [a; b]) → (∀ a b c l, P l → P (a :: b :: c :: l)) → ∀ l, P l.
Proof.
  intros H0 H1 H2 H3. fix IH 1. intros [|a [|b [|c l]]]; [done|apply H1|apply H2|apply H3, IH].
Qed.

Lemma three_bytes a b c :
  a < 256 → b < 256 → c < 256 →
  a / 4 < 64 ∧ a mod 4 * 16 + b / 16 < 64 ∧ b mod 16 * 4 + c / 64 < 64 ∧ c mod 64 < 64 ∧
  a / 4 * 4 + (a mod 4 * 16 + b / 16) / 16 = a ∧
  (a mod 4 * 16 + b / 16) mod 16 * 16 + (b mod 16 * 4 + c / 64) / 4 = b ∧
  (b mod 16 * 4 + c / 64) mod 4 * 64 + c mod 64 = c.
Proof. intros Ha Hb Hc. split_and!; zify; Z.to_euclidean_division_equations; lia. Qed.

(** The digits of an encoding are no line breaks, and decode to the bytes. *)
Lemma encode_decode l :
  Forall (λ b, b < 256) l →
  Forall (λ c, is_line_break c = false) (encode_bytes l) ∧ decode_digits (encode_bytes l) = Some l.
Proof.
  assert (is_line_break base64_pad = false) as Hpad by done.
  assert (0 < 256) as H0 by done.
  induction l as [|a|a b|a b c l IH] using list_ind3; [done| | |]; rewrite !Forall_cons.
  - intros [Ha _]. destruct (three_bytes a 0 0 Ha H0 H0) as (H1 & H2 & _ & _ & E1 & _).
    rewrite N.add_0_r in H2, E1. cbn [encode_bytes].
    destruct (sextet_roundtrip _ H1) as (D1 & _ & B1). destruct (sextet_roundtrip _ H2) as (D2 & _ & B2).
    split; [by repeat constructor|]. cbn [decode_digits]. rewrite D1 D2. cbn. by rewrite E1.
  - intros (Ha & Hb & _). destruct (three_bytes a b 0 Ha Hb H0) as (H1 & H2 & H3 & _ & E1 & E2 & _).
    rewrite N.add_0_r in H3, E2. cbn [encode_bytes].
    destruct (sextet_roundtrip _ H1) as (D1 & _ & B1). destruct (sextet_roundtrip _ H2) as (D2 & _ & B2).
    destruct (sextet_roundtrip _ H3) as (D3 & P3 & B3).
    split; [by repeat constructor|]. cbn [decode_digits]. rewrite D1 D2. cbn [mbind option_bind].
    rewrite bool_decide_eq_true_2 // bool_decide_eq_false_2 // D3. cbn [mbind option_bind]. by rewrite E1 E2.
  - intros (Ha & Hb & Hc & Hl). destruct (three_bytes a b c Ha Hb Hc) as (H1 & H2 & H3 & H4 & E1 & E2 & E3).
    destruct (IH Hl) as [Hbreaks Hdec]. cbn [encode_bytes].
    destruct (sextet_roundtrip _ H1) as (D1 & _ & B1). destruct (sextet_roundtrip _ H2) as (D2 & _ & B2).
    destruct (sextet_roundtrip _ H3) as (D3 & _ & B3). destruct (sextet_roundtrip _ H4) as (D4 & P4 & B4).
    split; [by repeat constructor|]. cbn [decode_digits]. rewrite D1 D2. cbn [mbind option_bind].
    rewrite bool_decide_eq_false_2 // D3 D4 Hdec. cbn [mbind option_bind]. by rewrite E1 E2 E3.
Qed.

Lemma DecodeString_EncodeToString s : DecodeString (EncodeToString s) = Some s.
Proof.
  unfold DecodeString, EncodeToString. rewrite String.list_ascii_of_string_of_list_ascii.
  set (l := N_of_ascii <$> String.list_ascii_of_string s).
  destruct (encode_decode l) as [Hbreaks Hdec].
  { apply Forall_fmap, Forall_true. intros c. apply byte_bound. }
  assert (List.filter (λ c, negb (is_line_break c)) (encode_bytes l) = encode_bytes l) as ->.
  { clear Hdec. induction Hbreaks as [|c cs Hc _ IH]; [done|]. cbn [List.filter]. rewrite Hc. cbn [negb]. by rewrite IH. }
  rewrite Hdec. cbn [mbind option_bind]. f_equal. unfold l. rewrite -list_fmap_compose.
  rewrite -{2}(String.string_of_list_ascii_of_string s). f_equal. rewrite -{2}(list_fmap_id (String.list_ascii_of_string s)).
  apply list_fmap_ext. intros i c _. apply ascii_N_embedding.
Qed.
