(* ===== verification/ApiWatch.v ===== *)
(** The informer on API resources (pkg/apiwatch): what resources an API server offers, each
    with the objects (CustomResourceDefinitions and APIBindings) that define it.

    The list-watcher behind the informer keeps a version that grows with every invalidation
    and every list, the running watches, which end when there is something new to list, and
    a relation between resources and their definers in both directions.  The discovery
    client with its cache, and the parsing of a group and version, are parameters. *)

From stdpp Require Import pretty.
From S2P Require Import Prelude Tuples Interfaces Slices Sets Maps GoStrings Types KbUser HashDomains HashMap.
From S2P Require Import Relations FactoredMap Receivers Joins Organizer WorkloadProjector SyncerConfig WhatResolver.

(** * Data *)

(** objectID: an object that defines resources *)
Record objectID : Set := MkObjectID {
  oidAPIVersion : string;
  oidKind : string;
  oidName : string
}.
#[export] Instance objectID_eq_dec : EqDecision objectID.
Proof. solve_decision. Defined.
#[export] Instance objectID_countable : Countable objectID.
Proof.
  refine (inj_countable' (λ o, (oidAPIVersion o, oidKind o, oidName o)) (λ p, MkObjectID p.1.1 p.1.2 p.2) _).
  by intros [].
Defined.

#[export] Instance GroupVersionResource_eq_dec : EqDecision GroupVersionResource.
Proof. solve_decision. Defined.
#[export] Instance GroupVersionResource_countable : Countable GroupVersionResource.
Proof.
  refine (inj_countable' (λ o, (gvrGroup o, gvrVersion o, gvrResource o)) (λ p, MkGroupVersionResource p.1.1 p.1.2 p.2) _).
  by intros [].
Defined.

(** metav1.APIResource, as discovery reports it *)
Record DiscoveredResource : Set := MkDiscoveredResource {
  drName : string;
  drSingularName : string;
  drNamespaced : bool;
  drVersion : string;
  drKind : string;
  drVerbs : list string
}.

(** metav1.APIResourceList and metav1.APIGroup *)
Record APIResourceList : Set := MkAPIResourceList {
  arlGroupVersion : string;
  arlAPIResources : list DiscoveredResource
}.
Record APIGroup : Set := MkAPIGroup {
  agName : string;
  agPreferredVersion : string
}.

(** APIResourceSpec, with its subresources *)
Inductive ResourceSpec : Set := MkResourceSpec {
  rsName : string;
  rsSingularName : string;
  rsNamespaced : bool;
  rsGroup : string;
  rsVersion : string;
  rsKind : string;
  rsVerbs : list string;
  rsSubResources : list ResourceSpec;
  rsDefiners : list Definer
}.

Record ListedResource : Set := MkListedResource {
  lrName : string;
  lrResourceVersion : string;
  lrSpec : ResourceSpec
}.

(** * The list-watcher *)

Record resourcesListWatcher (Cache : Type) : Type := MkResourcesListWatcher {
  includeSubresources : bool;
  rlwCache : Cache;
  resourceVersionI : Z;
  needRelist : bool;
  (** in nanoseconds *)
  relistAfter : Z;
  (** a watch is a number; [cancels] has the functions that end them *)
  cancels : list nat;
  ended : gset nat;
  rscToDefiners : gmap GroupVersionResource (gset objectID);
  definerToRscs : gmap objectID (gset GroupVersionResource)
}.
Arguments MkResourcesListWatcher {_} _ _ _ _ _ _ _ _ _.
Arguments includeSubresources {_} _.
Arguments rlwCache {_} _.
Arguments resourceVersionI {_} _.
Arguments needRelist {_} _.
Arguments relistAfter {_} _.
Arguments cancels {_} _.
Arguments ended {_} _.
Arguments rscToDefiners {_} _.
Arguments definerToRscs {_} _.

Definition newResourcesListWatcher {Cache} (includeSubresources : bool) (cache : Cache) : resourcesListWatcher Cache :=
  MkResourcesListWatcher includeSubresources cache 1 false 0 [] ∅ ∅ ∅.

(** A supplier of definitions: the kind of its objects and the resources that one defines. *)
Record ResourceDefinitionSupplier (Obj : Type) : Type := MkResourceDefinitionSupplier {
  (** group, version and kind *)
  GetGVK : Obj → string * string * string;
  EnumerateDefinedResources : Obj → list GroupVersionResource
}.
Arguments MkResourceDefinitionSupplier {_} _ _.
Arguments GetGVK {_} _ _.
Arguments EnumerateDefinedResources {_} _ _.

(** GroupVersionKind.ToAPIVersionAndKind *)
Definition ToAPIVersionAndKind (gvk : string * string * string) : string * string :=
  let '(group, version, kind) := gvk in
  if bool_decide (gvk = ("", "", "")) then ("", "")
  else ((if bool_decide (group = "") then version else group +:+ "/" +:+ version), kind).

Section definers.
Context `{MapRange} {Cache : Type}.
Abbreviation RLW := (resourcesListWatcher Cache).

Definition ensureMap {K} `{Countable K} (in_ : option (gset K)) : gset K := default ∅ in_.

Definition set_definitions (r : gmap GroupVersionResource (gset objectID)) (d : gmap objectID (gset GroupVersionResource))
  (rlw : RLW) : RLW :=
  MkResourcesListWatcher (includeSubresources rlw) (rlwCache rlw) (resourceVersionI rlw) (needRelist rlw)
    (relistAfter rlw) (cancels rlw) (ended rlw) r d.

(** The resources are those that the enumerator passes to the function it is given. *)
Definition addDefinitions (oid : objectID) (oldRscs : gset GroupVersionResource) (enumr : list GroupVersionResource)
  (rscToDefiners : gmap GroupVersionResource (gset objectID))
  : gset GroupVersionResource * gmap GroupVersionResource (gset objectID) :=
  for_each enumr (λ gvr '(newRscs, rscToDefiners),
    let newRscs := {[gvr]} ∪ newRscs in
    if bool_decide (gvr ∈ oldRscs) then (newRscs, rscToDefiners)
    else
      let definers := ensureMap (rscToDefiners !! gvr) in
      (newRscs, <[gvr := {[oid]} ∪ definers]> rscToDefiners)) (∅, rscToDefiners).

Definition removeDefinitions (oid : objectID) (oldRscs newRscs : gset GroupVersionResource)
  (rscToDefiners : gmap GroupVersionResource (gset objectID)) : gmap GroupVersionResource (gset objectID) :=
  for_each (set_range oldRscs) (λ oldRsc rscToDefiners,
    if bool_decide (oldRsc ∈ newRscs) then rscToDefiners
    else
      let definers := default ∅ (rscToDefiners !! oldRsc) ∖ {[oid]} in
      if (size definers =? 0)%nat then delete oldRsc rscToDefiners
      else <[oldRsc := definers]> rscToDefiners) rscToDefiners.

Definition setDefinerLocked (oid : objectID) (enumr : list GroupVersionResource) (rlw : RLW) : RLW :=
  let oldRscs := ensureMap (definerToRscs rlw !! oid) in
  let '(newRscs, rscToDefiners) := addDefinitions oid oldRscs enumr (rscToDefiners rlw) in
  let rscToDefiners := removeDefinitions oid oldRscs newRscs rscToDefiners in
  set_definitions rscToDefiners (<[oid := newRscs]> (definerToRscs rlw)) rlw.

Context (cache_Invalidate : Cache → Cache).

(** [obj] is nil or an object with its name; [None] as a result is a panic. *)
Definition invalidateWithDefinerLocked {Obj} (now : Z) (obj : option (Obj * string))
  (supplier : option (ResourceDefinitionSupplier Obj)) (set : bool) (rlw : RLW) : option RLW :=
  let rlw := MkResourcesListWatcher (includeSubresources rlw) (cache_Invalidate (rlwCache rlw))
               (wrap_int (resourceVersionI rlw + 1)) true (now + 20 * 1000000000) (cancels rlw) (ended rlw)
               (rscToDefiners rlw) (definerToRscs rlw) in
  match obj, supplier with
  | Some (obj, name), Some supplier =>
      let '(apiVersion, kind) := ToAPIVersionAndKind (GetGVK supplier obj) in
      if bool_decide (apiVersion = "") then None
      else if bool_decide (kind = "") then None
      else
        let enumr := if set then EnumerateDefinedResources supplier obj else [] in
        Some (setDefinerLocked (MkObjectID apiVersion kind name) enumr rlw)
  | _, _ => Some rlw
  end.

Definition InvalidateWithDefiner {Obj} (now : Z) (obj : option (Obj * string))
  (supplier : option (ResourceDefinitionSupplier Obj)) (set : bool) (rlw : RLW) : option RLW :=
  invalidateWithDefinerLocked now obj supplier set rlw.

Definition Invalidate (now : Z) (rlw : RLW) : option RLW :=
  invalidateWithDefinerLocked (Obj:=unit) now None None false rlw.

(** The handlers of an invalidation notifier; a deleted object may come as a tombstone. *)
Inductive InvalidatorEvent (Obj : Type) : Type :=
| InvalidatorAdded (obj : Obj * string)
| InvalidatorUpdated (oldObj newObj : Obj * string)
| InvalidatorDeleted (obj : Obj * string).

Definition onInvalidator {Obj} (supplier : option (ResourceDefinitionSupplier Obj)) (now : Z)
  (event : InvalidatorEvent Obj) (rlw : RLW) : option RLW :=
  match event with
  | InvalidatorAdded _ obj => InvalidateWithDefiner now (Some obj) supplier true rlw
  | InvalidatorUpdated _ _ newObj => InvalidateWithDefiner now (Some newObj) supplier true rlw
  | InvalidatorDeleted _ obj => InvalidateWithDefiner now (Some obj) supplier false rlw
  end.

(** What the goroutine of the informer does when it runs; the first result is how long to
    sleep before it runs again, if at all. *)
Definition cycle (now : Z) (rlw : RLW) : option Z * RLW :=
  if needRelist rlw then
    if bool_decide (now < relistAfter rlw)%Z then (Some (relistAfter rlw - now)%Z, rlw)
    else (None, MkResourcesListWatcher (includeSubresources rlw) (rlwCache rlw) (resourceVersionI rlw) false
                  (relistAfter rlw) (cancels rlw) (list_to_set (cancels rlw) ∪ ended rlw)
                  (rscToDefiners rlw) (definerToRscs rlw))
  else (None, rlw).
End definers.
Arguments InvalidatorAdded {_} _.
Arguments InvalidatorUpdated {_} _ _.
Arguments InvalidatorDeleted {_} _.

(** ** Suppliers *)

(** A CustomResourceDefinition, with the fields that are read *)
Record CustomResourceDefinition : Set := MkCRD {
  crdGroup : string;
  crdVersions : list string;
  crdPlural : string
}.

Definition CRDAnalyzer : ResourceDefinitionSupplier CustomResourceDefinition :=
  MkResourceDefinitionSupplier
    (λ _, ("apiextensions.k8s.io", "v1", "CustomResourceDefinition"))
    (λ crd, (λ version, MkGroupVersionResource (crdGroup crd) version (crdPlural crd)) <$> crdVersions crd).

(** An APIBinding: its bound resources *)
Record BoundAPIResource : Set := MkBoundAPIResource {
  barGroup : string;
  barResource : string;
  barStorageVersions : list string
}.

(** The group and version of the API are those of the package of kcp. *)
Definition APIBindingAnalyzer (group version : string) : ResourceDefinitionSupplier (list BoundAPIResource) :=
  MkResourceDefinitionSupplier
    (λ _, (group, version, "APIBinding"))
    (λ ab, bar ← ab; (λ version, MkGroupVersionResource (barGroup bar) version (barResource bar)) <$> barStorageVersions bar).

(** ** Trees of subresources *)

(** arTuple and arMap: by the steps of the path of a resource; a pointer to a spec is nil
    until it is set. *)
Inductive arTuple : Type := MkArTuple {
  artSpec : option ResourceSpec;
  artSubresources : gmap string arTuple
}.
Abbreviation arMap := (gmap string arTuple).

(** [name] is not empty. *)
Fixpoint arMap_insert (name : list string) (spec : ResourceSpec) (am : arMap) : arMap :=
  match name with
  | [] => am
  | step :: rest =>
      let art := default (MkArTuple None ∅) (am !! step) in
      match rest with
      | [] => <[step := MkArTuple (Some spec) (artSubresources art)]> am
      | _ :: _ => <[step := MkArTuple (artSpec art) (arMap_insert rest spec (artSubresources art))]> am
      end
  end.

Definition with_name (name : string) (subs : list ResourceSpec) (s : ResourceSpec) : ResourceSpec :=
  MkResourceSpec name (rsSingularName s) (rsNamespaced s) (rsGroup s) (rsVersion s) (rsKind s) (rsVerbs s)
    (rsSubResources s ++ subs) (rsDefiners s).

(** The specs that are passed to the consumer.  The fuel bounds the depth of the map; [None]
    when it is not enough. *)
Fixpoint arMap_toList `{MapRange} (fuel : nat) (am : arMap) : option (list ResourceSpec) :=
  match fuel with
  | O => None
  | S fuel =>
      for_each (map_range am) (λ '(name, art) consumed,
        consumed ← consumed;
        match artSpec art with
        | None => Some consumed
        | Some spec =>
            subSpecs ← arMap_toList fuel (artSubresources art);
            Some (consumed ++ [with_name name subSpecs spec])
        end) (Some [])
  end.

(** ** Listing *)

Section listing.
Context `{MapRange} {Cache : Type}.
Abbreviation RLW := (resourcesListWatcher Cache).
(** Discovery, through its cache, and schema.ParseGroupVersion, which may fail *)
Context (ServerGroupsAndResources : Cache → list APIGroup * list APIResourceList * Cache).
Context (ServerPreferredResources : Cache → list APIResourceList * Cache).
Context (ParseGroupVersion : string → option (string * string)).

Definition specComplete (spec : ResourceSpec) (resourceVersionS : string) (gv : string * string) : ListedResource :=
  MkListedResource (gv.1 +:+ ":" +:+ gv.2 +:+ ":" +:+ rsName spec) resourceVersionS spec.

Definition definersToSlice (asSet : gset objectID) : list Definer :=
  for_each (set_range asSet) (λ definer ans, ans ++ [MkDefiner (oidKind definer) (oidName definer)]) [].

(** The specs that are passed to the consumer. *)
Definition enumAPIResourcesLocked (gv : string * string) (mrs : list DiscoveredResource) (rlw : RLW) : list ResourceSpec :=
  for_each mrs (λ rsc consumed,
    let rscVersion := if bool_decide (drVersion rsc = "") then gv.2 else drVersion rsc in
    let gvr := MkGroupVersionResource gv.1 rscVersion (drName rsc) in
    let definers := definersToSlice (default ∅ (rscToDefiners rlw !! gvr)) in
    consumed ++ [MkResourceSpec (drName rsc) (drSingularName rsc) (drNamespaced rsc) gv.1 rscVersion (drKind rsc)
                   (drVerbs rsc) [] definers]) [].

(** The fuel: no name of the group has more steps. *)
Definition toList_fuel (specs : list ResourceSpec) : nat :=
  S (foldr (λ s n, length (str_Split (rsName s) "/") `max` n)%nat O specs).

Definition treeOf (specs : list ResourceSpec) : arMap :=
  for_each specs (λ ar am, arMap_insert (str_Split (rsName ar) "/") ar am) ∅.

Definition set_cache (cache : Cache) (rlw : RLW) : RLW :=
  MkResourcesListWatcher (includeSubresources rlw) cache (resourceVersionI rlw) (needRelist rlw)
    (relistAfter rlw) (cancels rlw) (ended rlw) (rscToDefiners rlw) (definerToRscs rlw).

Definition listWithSubresources (resourceVersionS : string) (rlw : RLW) : option (list ListedResource) * RLW :=
  let '(groupList, resourceList, cache) := ServerGroupsAndResources (rlwCache rlw) in
  let rlw := set_cache cache rlw in
  let groupToVersion : gmap string string :=
    for_each groupList (λ ag m, <[agName ag := agPreferredVersion ag]> m) ∅ in
  let ans :=
    for_each resourceList (λ group ans,
      ans ← ans;
      match ParseGroupVersion (arlGroupVersion group) with
      | None => Some ans
      | Some gv =>
          if negb (bool_decide (get_string groupToVersion gv.1 = gv.2)) then Some ans
          else
            let specs := enumAPIResourcesLocked gv (arlAPIResources group) rlw in
            specs ← arMap_toList (toList_fuel specs) (treeOf specs);
            Some (ans ++ ((λ spec, specComplete spec resourceVersionS gv) <$> specs))
      end) (Some []) in
  (ans, rlw).

Definition listSansSubresources (resourceVersionS : string) (rlw : RLW) : list ListedResource * RLW :=
  let '(groupList, cache) := ServerPreferredResources (rlwCache rlw) in
  let rlw := set_cache cache rlw in
  let ans :=
    for_each groupList (λ group ans,
      match ParseGroupVersion (arlGroupVersion group) with
      | None => ans
      | Some gv =>
          ans ++ ((λ arSpec, specComplete arSpec resourceVersionS gv) <$> enumAPIResourcesLocked gv (arlAPIResources group) rlw)
      end) [] in
  (ans, rlw).

(** The beginning of a list, under the lock: a new version, and the watches end. *)
Definition List_begin (rlw : RLW) : Z * RLW :=
  let resourceVersionI := wrap_int (resourceVersionI rlw + 1) in
  (resourceVersionI,
   MkResourcesListWatcher (includeSubresources rlw) (rlwCache rlw) resourceVersionI (needRelist rlw) (relistAfter rlw)
     (cancels rlw) (list_to_set (cancels rlw) ∪ ended rlw) (rscToDefiners rlw) (definerToRscs rlw)).

(** The rest of it: the version of the list and its items. *)
Definition List_end (resourceVersionI : Z) (rlw : RLW) : string * option (list ListedResource) * RLW :=
  let resourceVersionS := pretty resourceVersionI in
  if includeSubresources rlw then
    let '(items, rlw) := listWithSubresources resourceVersionS rlw in (resourceVersionS, items, rlw)
  else
    let '(items, rlw) := listSansSubresources resourceVersionS rlw in (resourceVersionS, Some items, rlw).

Definition List (rlw : RLW) : string * option (list ListedResource) * RLW :=
  let '(resourceVersionI, rlw) := List_begin rlw in List_end resourceVersionI rlw.

(** ** Watching *)

Inductive WatchResult : Set :=
| Watching (id : nat)
| ResourceExpired
| WatchPanics.

(** The options of a watch: the version to start from, and a timeout, which must be there. *)
Definition Watch (ResourceVersion : string) (TimeoutSeconds : option Z) (rlw : RLW) : WatchResult * RLW :=
  let resourceVersionS := pretty (resourceVersionI rlw) in
  if negb (bool_decide (resourceVersionS = ResourceVersion)) then (ResourceExpired, rlw)
  else
    match TimeoutSeconds with
    | None => (WatchPanics, rlw)
    | Some _ =>
        let id := length (cancels rlw) in
        (Watching id,
         MkResourcesListWatcher (includeSubresources rlw) (rlwCache rlw) (resourceVersionI rlw) (needRelist rlw)
           (relistAfter rlw) (cancels rlw ++ [id]) (ended rlw) (rscToDefiners rlw) (definerToRscs rlw))
    end.

(** [Stop] of a watch, or its timeout. *)
Definition resourceWatch_Stop (id : nat) (rlw : RLW) : RLW :=
  MkResourcesListWatcher (includeSubresources rlw) (rlwCache rlw) (resourceVersionI rlw) (needRelist rlw)
    (relistAfter rlw) (cancels rlw) ({[id]} ∪ ended rlw) (rscToDefiners rlw) (definerToRscs rlw).
End listing.

(** ** The lister *)

(** The store of the informer, by name; the labels are tested by [Matches]. *)
Definition resourceLister_List (Matches : ListedResource → bool) (store : list ListedResource) : list ListedResource :=
  for_each store (λ ar ret, if Matches ar then ret ++ [ar] else ret) [].

Definition resourceLister_Get (GetByKey : string → option ListedResource) (name : string) : Lookup ListedResource :=
  match GetByKey name with
  | None => NotFound
  | Some ar => Found ar
  end.
