(* ===== verification/ApiWatchFacts.v ===== *)
(** The informer on API resources: the definers of each resource are exactly those that say
    so, a running watch is up to date or about to end, and the listed resources are those
    that discovery reports, with their subresources inside them. *)

From stdpp Require Import pretty.
From S2P Require Import Prelude Tuples Interfaces Slices Sets Maps GoStrings Types KbUser HashDomains HashMap.
From S2P Require Import Relations FactoredMap Receivers Joins Organizer WorkloadProjector SyncerConfig WhatResolver ApiWatch.

Section tracking.
Context `{MapRange} {Cache : Type}.
Abbreviation RLW := (resourcesListWatcher Cache).
Abbreviation GVR := GroupVersionResource.
Implicit Types (r : gmap GVR (gset objectID)) (d : gmap objectID (gset GVR)) (rlw : RLW).

(** * Definers *)

(** No set of definers is empty. *)
Definition no_empty r : Prop := ∀ gvr, r !! gvr ≠ Some ∅.

(** Both directions of the relation agree. *)
Definition definitions_exact r d : Prop :=
  (∀ gvr oid, oid ∈ default ∅ (r !! gvr) ↔ gvr ∈ default ∅ (d !! oid)) ∧ no_empty r.

Lemma addDefinitions_adds oid oldRscs enumr r :
  no_empty r →
  (addDefinitions oid oldRscs enumr r).1 = list_to_set enumr ∧
  (∀ gvr o, o ∈ default ∅ ((addDefinitions oid oldRscs enumr r).2 !! gvr) ↔
     o ∈ default ∅ (r !! gvr) ∨ o = oid ∧ gvr ∈ enumr ∧ gvr ∉ oldRscs) ∧
  no_empty (addDefinitions oid oldRscs enumr r).2.
Proof.
  intros Hne. unfold addDefinitions.
  apply (for_each_ind (λ seen res, res.1 = list_to_set seen ∧
    (∀ gvr o, o ∈ default ∅ (res.2 !! gvr) ↔ o ∈ default ∅ (r !! gvr) ∨ o = oid ∧ gvr ∈ seen ∧ gvr ∉ oldRscs) ∧
    no_empty res.2)).
  { split_and!; [done| |done]. intros gvr o. cbn. set_solver. }
  intros seen gvr todo [new res] _ (Hnew & Hin & Hres). cbn in *. case_bool_decide as Hold; cbn.
  - split_and!; [rw Hnew list_to_set_app_L; set_solver| |done]. intros gvr' o. rw Hin. set_solver.
  - split_and!; [rw Hnew list_to_set_app_L; set_solver| |].
    + intros gvr' o. destruct (decide (gvr' = gvr)) as [-> |Hg].
      * rw lookup_insert_eq. cbn. unfold ensureMap. rw elem_of_union Hin. set_solver.
      * rw lookup_insert_ne // Hin. set_solver.
    + intros gvr'. destruct (decide (gvr' = gvr)) as [-> |Hg]; [|by rw lookup_insert_ne].
      rw lookup_insert_eq. intros [= Heq]. set_solver.
Qed.

Lemma removeDefinitions_removes oid oldRscs newRscs r :
  no_empty r →
  (∀ gvr o, o ∈ default ∅ (removeDefinitions oid oldRscs newRscs r !! gvr) ↔
     o ∈ default ∅ (r !! gvr) ∧ ¬ (o = oid ∧ gvr ∈ oldRscs ∧ gvr ∉ newRscs)) ∧
  no_empty (removeDefinitions oid oldRscs newRscs r).
Proof.
  intros Hne. unfold removeDefinitions.
  assert (∀ gvr, gvr ∈ oldRscs ↔ gvr ∈ set_range oldRscs) as Hrange by (intros; by rw elem_of_set_range).
  setoid_rewrite Hrange.
  apply (for_each_ind (λ seen res,
    (∀ gvr o, o ∈ default ∅ (res !! gvr) ↔ o ∈ default ∅ (r !! gvr) ∧ ¬ (o = oid ∧ gvr ∈ seen ∧ gvr ∉ newRscs)) ∧
    no_empty res)).
  { split; [|done]. intros gvr o. set_solver. }
  intros seen gvr todo res _ (Hin & Hres). case_bool_decide as Hnew.
  { split; [|done]. intros gvr' o. rw Hin. set_solver. }
  destruct (Nat.eqb_spec (size (default ∅ (res !! gvr) ∖ {[oid]})) 0) as [Hz|Hz].
  - apply size_empty_inv in Hz. split.
    + intros gvr' o. destruct (decide (gvr' = gvr)) as [-> |Hg].
      * rw lookup_delete_eq. cbn. specialize (Hin gvr o). set_solver.
      * rw lookup_delete_ne // Hin. set_solver.
    + intros gvr'. destruct (decide (gvr' = gvr)) as [-> |Hg]; [by rw lookup_delete_eq|by rw lookup_delete_ne].
  - split.
    + intros gvr' o. destruct (decide (gvr' = gvr)) as [-> |Hg].
      * rw lookup_insert_eq. cbn. rw elem_of_difference Hin. set_solver.
      * rw lookup_insert_ne // Hin. set_solver.
    + intros gvr'. destruct (decide (gvr' = gvr)) as [-> |Hg]; [|by rw lookup_insert_ne].
      rw lookup_insert_eq. intros [= Heq]. apply Hz. by rw Heq.
Qed.

Lemma setDefinerLocked_exact oid enumr rlw :
  definitions_exact (rscToDefiners rlw) (definerToRscs rlw) →
  definitions_exact (rscToDefiners (setDefinerLocked oid enumr rlw)) (definerToRscs (setDefinerLocked oid enumr rlw)) ∧
  definerToRscs (setDefinerLocked oid enumr rlw) = <[oid := list_to_set enumr]> (definerToRscs rlw).
Proof.
  intros [Hin Hne]. unfold setDefinerLocked. set (oldRscs := ensureMap (definerToRscs rlw !! oid)).
  destruct (addDefinitions_adds oid oldRscs enumr (rscToDefiners rlw) Hne) as (Hnew & Hadd & Hne1).
  destruct (addDefinitions oid oldRscs enumr (rscToDefiners rlw)) as [newRscs r1]. cbn [fst snd] in *. subst newRscs.
  destruct (removeDefinitions_removes oid oldRscs (list_to_set enumr) r1 Hne1) as [Hrem Hne2]. cbn.
  split; [|done]. split; [|done]. intros gvr o. rw Hrem Hadd Hin. destruct (decide (o = oid)) as [-> |Ho].
  - rw lookup_insert_eq. cbn. rw elem_of_list_to_set. unfold oldRscs, ensureMap in *. clear.
    destruct (decide (gvr ∈ default ∅ (definerToRscs rlw !! oid))), (decide (gvr ∈ enumr)); tauto.
  - rw lookup_insert_ne //. clear -Ho. tauto.
Qed.

Lemma definersToSlice_elem (X : gset objectID) df :
  df ∈ definersToSlice X ↔ ∃ oid, df = MkDefiner (oidKind oid) (oidName oid) ∧ oid ∈ X.
Proof.
  unfold definersToSlice. setoid_rewrite <-elem_of_set_range.
  apply (for_each_ind (λ seen ans, df ∈ ans ↔ ∃ oid, df = MkDefiner (oidKind oid) (oidName oid) ∧ oid ∈ seen)).
  { split; [intros []%not_elem_of_nil|intros (oid & _ & []%not_elem_of_nil)]. }
  intros seen oid todo ans _ IH. rw elem_of_snoc IH. setoid_rewrite elem_of_snoc. naive_solver.
Qed.

Lemma enumAPIResourcesLocked_eq gv mrs rlw :
  enumAPIResourcesLocked gv mrs rlw = (λ rsc,
    let rscVersion := if bool_decide (drVersion rsc = "") then gv.2 else drVersion rsc in
    MkResourceSpec (drName rsc) (drSingularName rsc) (drNamespaced rsc) gv.1 rscVersion (drKind rsc) (drVerbs rsc) []
      (definersToSlice (default ∅ (rscToDefiners rlw !! MkGroupVersionResource gv.1 rscVersion (drName rsc))))) <$> mrs.
Proof.
  exact (for_each_map _ mrs []).
Qed.

(** * Steps *)

(** The history: what each definer said last, how often the version has grown, and when each
    watch began. *)
Record History : Type := MkHistory {
  hDefinitions : gmap objectID (gset GVR);
  hCount : Z;
  hStarts : gmap nat Z
}.

Definition definerOf {Obj} (supplier : ResourceDefinitionSupplier Obj) (obj : Obj * string) : objectID :=
  let '(apiVersion, kind) := ToAPIVersionAndKind (GetGVK supplier obj.1) in MkObjectID apiVersion kind obj.2.

Definition definitions_after {Obj} (supplier : ResourceDefinitionSupplier Obj) (event : InvalidatorEvent Obj) d
  : gmap objectID (gset GVR) :=
  match event with
  | InvalidatorAdded obj | InvalidatorUpdated _ obj =>
      <[definerOf supplier obj := list_to_set (EnumerateDefinedResources supplier obj.1)]> d
  | InvalidatorDeleted obj => <[definerOf supplier obj := ∅]> d
  end.

Context (cache_Invalidate : Cache → Cache).
Context (ServerGroupsAndResources : Cache → list APIGroup * list APIResourceList * Cache).
Context (ServerPreferredResources : Cache → list APIResourceList * Cache).
Context (ParseGroupVersion : string → option (string * string)).

Inductive rlw_step : RLW * History → RLW * History → Prop :=
| step_event Obj (supplier : ResourceDefinitionSupplier Obj) now event rlw rlw' h :
    onInvalidator cache_Invalidate (Some supplier) now event rlw = Some rlw' →
    rlw_step (rlw, h)
      (rlw', MkHistory (definitions_after supplier event (hDefinitions h)) (hCount h + 1) (hStarts h))
| step_invalidate now rlw rlw' h :
    Invalidate cache_Invalidate now rlw = Some rlw' →
    rlw_step (rlw, h) (rlw', MkHistory (hDefinitions h) (hCount h + 1) (hStarts h))
| step_list_begin v rlw rlw' h :
    List_begin rlw = (v, rlw') →
    rlw_step (rlw, h) (rlw', MkHistory (hDefinitions h) (hCount h + 1) (hStarts h))
| step_list_end v res rlw rlw' h :
    List_end ServerGroupsAndResources ServerPreferredResources ParseGroupVersion v rlw = (res, rlw') →
    rlw_step (rlw, h) (rlw', h)
| step_watch rv timeout id rlw rlw' h :
    Watch rv timeout rlw = (Watching id, rlw') →
    rlw_step (rlw, h) (rlw', MkHistory (hDefinitions h) (hCount h) (<[id := hCount h]> (hStarts h)))
| step_cycle now wait rlw rlw' h :
    cycle now rlw = (wait, rlw') → rlw_step (rlw, h) (rlw', h)
| step_stop id rlw h : rlw_step (rlw, h) (resourceWatch_Stop id rlw, h).

Definition emptyHistory : History := MkHistory ∅ 0 ∅.

(** The states that the list-watcher can be in. *)
Definition reachable (rlw : RLW) (h : History) : Prop :=
  ∃ sub cache, rtc rlw_step (newResourcesListWatcher sub cache, emptyHistory) (rlw, h).

Record rlw_inv (rlw : RLW) (h : History) : Prop := MkRlwInv {
  inv_exact : definitions_exact (rscToDefiners rlw) (definerToRscs rlw);
  inv_definitions : definerToRscs rlw = hDefinitions h;
  inv_version : resourceVersionI rlw = wrap_int (1 + hCount h);
  inv_cancels id : is_Some (hStarts h !! id) ↔ id ∈ cancels rlw;
  inv_fresh id : id ∈ cancels rlw → (id < length (cancels rlw))%nat;
  inv_current id c : hStarts h !! id = Some c → id ∉ ended rlw → c = hCount h ∨ needRelist rlw = true
}.

(** What an invalidation changes. *)
Lemma invalidated {Obj} now obj (supplier : option (ResourceDefinitionSupplier Obj)) set rlw rlw' :
  invalidateWithDefinerLocked cache_Invalidate now obj supplier set rlw = Some rlw' →
  resourceVersionI rlw' = wrap_int (resourceVersionI rlw + 1) ∧ needRelist rlw' = true ∧
  cancels rlw' = cancels rlw ∧ ended rlw' = ended rlw ∧
  (definitions_exact (rscToDefiners rlw) (definerToRscs rlw) →
   definitions_exact (rscToDefiners rlw') (definerToRscs rlw') ∧
   definerToRscs rlw' = match obj, supplier with
     | Some obj, Some supplier =>
         <[definerOf supplier obj := list_to_set (if set then EnumerateDefinedResources supplier obj.1 else [])]>
           (definerToRscs rlw)
     | _, _ => definerToRscs rlw
     end).
Proof.
  unfold invalidateWithDefinerLocked. destruct obj as [[obj name]|]; [|by intros [= <-]].
  destruct supplier as [supplier|]; [|by intros [= <-]]. unfold definerOf. cbn [fst snd].
  destruct (ToAPIVersionAndKind _) as [apiVersion kind]. case_bool_decide; [done|]. case_bool_decide; [done|].
  intros [= <-]. unfold setDefinerLocked at 1 2 3 4.
  destruct (addDefinitions _ _ _ _) as [newRscs r1]. cbn. split_and!; [done..|]. intros Hex.
  match goal with |- context [setDefinerLocked ?oid ?enumr ?r] => exact (setDefinerLocked_exact oid enumr r Hex) end.
Qed.

Lemma listed_only v res rlw rlw' :
  List_end ServerGroupsAndResources ServerPreferredResources ParseGroupVersion v rlw = (res, rlw') →
  ∃ cache, rlw' = set_cache cache rlw.
Proof.
  unfold List_end, listWithSubresources, listSansSubresources. destruct (includeSubresources rlw).
  - destruct (ServerGroupsAndResources _) as [[gl rl] cache]. intros [= _ <-]. by exists cache.
  - destruct (ServerPreferredResources _) as [gl cache]. intros [= _ <-]. by exists cache.
Qed.

Lemma wrap_int_succ n : wrap_int (wrap_int n + 1) = wrap_int (n + 1).
Proof.
  unfold wrap_int. replace ((n + 2 ^ 63) mod 2 ^ 64 - 2 ^ 63 + 1 + 2 ^ 63)%Z with ((n + 2 ^ 63) mod 2 ^ 64 + 1)%Z by lia.
  rw Zplus_mod_idemp_l. do 2 f_equal. lia.
Qed.

(** A step by which the version grows, after which no watch is overlooked. *)
Lemma inv_grows rlw rlw' h d' :
  rlw_inv rlw h → definitions_exact (rscToDefiners rlw') (definerToRscs rlw') → definerToRscs rlw' = d' →
  resourceVersionI rlw' = wrap_int (resourceVersionI rlw + 1) → cancels rlw' = cancels rlw →
  (needRelist rlw' = true ∨ ∀ id, id ∈ cancels rlw → id ∈ ended rlw') →
  rlw_inv rlw' (MkHistory d' (hCount h + 1) (hStarts h)).
Proof.
  intros [] Hex Hd Hv Hc Hend. split; cbn; [done|done| |by rw Hc|by rw Hc|].
  - rw Hv inv_version0 wrap_int_succ. f_equal. lia.
  - intros id c Hid Hrun. destruct Hend as [Hend|Hend]; [by right|]. destruct Hrun. apply Hend, inv_cancels0. by eexists.
Qed.

Lemma rlw_step_inv rlw h rlw' h' : rlw_step (rlw, h) (rlw', h') → rlw_inv rlw h → rlw_inv rlw' h'.
Proof.
  intros Hstep Hinv. inversion Hstep as [Obj supplier now event ? ? ? Hev|now ? ? ? Hev|v ? ? ? Hl|v res ? ? ? Hl|
    rv timeout id ? ? ? Hw|now wait ? ? ? Hc|id ? ?]; subst.
  - assert (∃ obj set, invalidateWithDefinerLocked cache_Invalidate now (Some obj) (Some supplier) set rlw = Some rlw' ∧
      definitions_after supplier event (hDefinitions h) =
      <[definerOf supplier obj := list_to_set (if set : bool then EnumerateDefinedResources supplier obj.1 else [])]>
        (hDefinitions h)) as (obj & set & Hinval & ->).
    { destruct event as [obj|old obj|obj]; exists obj; [exists true|exists true|exists false]; done. }
    apply invalidated in Hinval as (Hv & Hn & Hc & _ & Hd). destruct (Hd (inv_exact _ _ Hinv)) as [Hex Hd'].
    apply (inv_grows rlw); [done|done|by rw Hd' (inv_definitions _ _ Hinv)|done|done|by left].
  - unfold Invalidate in Hev. apply invalidated in Hev as (Hv & Hn & Hc & _ & Hd). destruct (Hd (inv_exact _ _ Hinv)) as [Hex Hd'].
    apply (inv_grows rlw); [done|done|by rw Hd' (inv_definitions _ _ Hinv)|done|done|by left].
  - injection Hl as _ <-. apply (inv_grows rlw); [done|apply Hinv|apply Hinv|done|done|]. right. cbn. set_solver.
  - apply listed_only in Hl as [cache ->]. by destruct Hinv.
  - unfold Watch in Hw. case_bool_decide; [|done]. cbn [negb] in Hw. destruct timeout; [|done]. injection Hw as <- <-.
    destruct Hinv. split; cbn; [done|done|done| | |].
    + intros id. rw elem_of_snoc. destruct (decide (id = length (cancels rlw))) as [-> |Hid].
      * rw lookup_insert_eq. split; [by right|by eexists].
      * rw lookup_insert_ne // inv_cancels0. split; [by left|]. by intros [?|?].
    + intros id. rw elem_of_snoc length_app. cbn. intros [Hid%inv_fresh0| ->]; lia.
    + intros id c. destruct (decide (id = length (cancels rlw))) as [-> |Hid].
      * rw lookup_insert_eq. intros [= <-] _. by left.
      * rw lookup_insert_ne //. apply inv_current0.
  - unfold cycle in Hc. destruct (needRelist rlw) eqn:Hn; [|by injection Hc as _ <-].
    case_bool_decide; [by injection Hc as _ <-|]. injection Hc as _ <-. destruct Hinv. split; cbn; try done.
    intros id c Hid Hrun. destruct Hrun. assert (id ∈ cancels rlw) by (apply inv_cancels0; by eexists). set_solver.
  - destruct Hinv. split; cbn; try done. intros id' c Hid Hrun. apply (inv_current0 id'); [done|set_solver].
Qed.

Lemma reachable_inv rlw h : reachable rlw h → rlw_inv rlw h.
Proof.
  intros (sub & cache & Hrtc).
  assert (∀ x y, rtc rlw_step x y → rlw_inv x.1 x.2 → rlw_inv y.1 y.2) as Hgen.
  { induction 1 as [|[r1 h1] [r2 h2] y Hstep _ IH]; [done|]. intros Hx. apply IH. by eapply rlw_step_inv. }
  apply (Hgen _ _ Hrtc). split; cbn; try done.
  - intros id. rw lookup_empty. split; [by intros []|]. intros []%not_elem_of_nil.
  - intros id []%not_elem_of_nil.
Qed.

(** C21: whatever the list-watcher has been told and asked, every API resource that it lists
    next carries as its definers exactly the objects whose last event said that they define
    it: an object that was deleted, or no longer defines the resource, is not among them. *)
Theorem definers_tracked rlw h gv mrs spec :
  reachable rlw h → spec ∈ enumAPIResourcesLocked gv mrs rlw →
  ∀ df, df ∈ rsDefiners spec ↔ ∃ oid, df = MkDefiner (oidKind oid) (oidName oid) ∧
    MkGroupVersionResource (rsGroup spec) (rsVersion spec) (rsName spec) ∈ default ∅ (hDefinitions h !! oid).
Proof.
  intros [[Hex _] <- _ _ _ _]%reachable_inv. rw enumAPIResourcesLocked_eq.
  intros (rsc & -> & Hrsc)%list_elem_of_fmap df. cbn [rsDefiners rsGroup rsVersion rsName]. rw definersToSlice_elem.
  by setoid_rewrite Hex.
Qed.

Lemma wrap_int_inj a b : (0 ≤ b - a < 2 ^ 64)%Z → wrap_int a = wrap_int b → a = b.
Proof.
  unfold wrap_int. intros Hab Heq. assert ((a + 2 ^ 63) mod 2 ^ 64 = (b + 2 ^ 63) mod 2 ^ 64)%Z as Hmod by lia.
  assert (((b + 2 ^ 63) - (a + 2 ^ 63)) mod 2 ^ 64 = 0)%Z as Hz by (rw Zminus_mod Hmod Z.sub_diag //).
  replace (b + 2 ^ 63 - (a + 2 ^ 63))%Z with (b - a)%Z in Hz by lia. rewrite Z.mod_small in Hz; lia.
Qed.

(** C22: a watch that is still running began with the present version, or a relist is due;
    when it is due and its time has come, all watches end; and a watch is granted only for
    the list that is the latest one, if nothing has been invalidated since. *)
Theorem watches_current rlw h :
  reachable rlw h →
  (∀ id c, hStarts h !! id = Some c → id ∉ ended rlw → c = hCount h ∨ needRelist rlw = true) ∧
  (∀ now, needRelist rlw = true → (relistAfter rlw ≤ now)%Z →
     ∀ id, is_Some (hStarts h !! id) → id ∈ ended (cycle now rlw).2) ∧
  (∀ c timeout id rlw', (0 ≤ hCount h - c < 2 ^ 64)%Z →
     Watch (pretty (wrap_int (1 + c))) timeout rlw = (Watching id, rlw') → c = hCount h).
Proof.
  intros []%reachable_inv. split_and!; [done| |].
  - intros now Hn Hnow id Hid%inv_cancels0. unfold cycle. rw Hn bool_decide_eq_false_2; [|lia]. cbn. set_solver.
  - intros c timeout id rlw' Hc. unfold Watch. case_bool_decide as Hp; [|done]. intros _.
    apply (inj pretty) in Hp. rewrite inv_version0 in Hp.
    assert (1 + c = 1 + hCount h)%Z by (apply wrap_int_inj; [lia|done]). lia.
Qed.
End tracking.

(** * Trees *)

(** The spec at a path, whether or not there is one at each step before it. *)
Fixpoint stored_at (path : list string) (am : arMap) : option ResourceSpec :=
  match path with
  | [] => None
  | step :: rest =>
      art ← am !! step;
      match rest with [] => artSpec art | _ :: _ => stored_at rest (artSubresources art) end
  end.

Lemma stored_at_empty path : stored_at path ∅ = None.
Proof. destruct path as [|step path]; [done|]. cbn. by rw lookup_empty. Qed.

Lemma stored_at_insert name spec am path :
  name ≠ [] → stored_at path (arMap_insert name spec am) = if decide (path = name) then Some spec else stored_at path am.
Proof.
  revert am path. induction name as [|step name IH]; intros am path; [done|]. intros _.
  destruct path as [|s path]; [by case_decide|]. cbn [arMap_insert].
  assert (∀ x, stored_at (s :: path) (<[step := x]> am) =
    if decide (s = step) then match path with [] => artSpec x | _ :: _ => stored_at path (artSubresources x) end
    else stored_at (s :: path) am) as Hins.
  { intros x. case_decide as Hs; [subst s; cbn; by rw lookup_insert_eq|]. cbn. by rw lookup_insert_ne. }
  destruct name as [|step' name]; rw Hins; clear Hins.
  - destruct (decide (s = step)) as [-> |Hs]; [|by rw decide_False; [|intros [= ? _]]].
    destruct path as [|s' path]; [by rw decide_True|]. rw decide_False //. cbn [artSubresources stored_at].
    destruct (am !! step) as [art|]; [done|]. exact (stored_at_empty (s' :: path)).
  - destruct (decide (s = step)) as [-> |Hs]; [|by rw decide_False; [|intros [= ? _]]].
    destruct path as [|s' path]; [rw decide_False //; cbn; by destruct (am !! step)|]. cbn [artSubresources].
    rw IH //. destruct (decide (s' :: path = step' :: name)) as [Heq|Hne].
    + by rw decide_True; [|by rw Heq].
    + rw decide_False; [|intros [= ? ?]; by subst]. cbn [stored_at]. destruct (am !! step) as [art|]; [done|].
      exact (stored_at_empty (s' :: path)).
Qed.

(** The last of the specs with the name. *)
Definition last_named (path : list string) (specs : list ResourceSpec) : option ResourceSpec :=
  List.find (λ s, bool_decide (str_Split (rsName s) "/" = path)) (rev specs).

Lemma str_Split_nonempty s sep : str_Split s sep ≠ [].
Proof. unfold str_Split. cbn. destruct (String.length s) as [|n]; [done|]. by destruct (str_Cut s sep) as [[]|]. Qed.

Lemma stored_at_treeOf path specs : stored_at path (treeOf specs) = last_named path specs.
Proof.
  unfold treeOf, last_named. apply (for_each_ind (λ seen am,
    stored_at path am = List.find (λ s, bool_decide (str_Split (rsName s) "/" = path)) (rev seen))).
  { apply stored_at_empty. }
  intros seen spec todo am _ IH. rw stored_at_insert; [|apply str_Split_nonempty].
  rw List.rev_app_distr. cbn [rev app List.find]. destruct (decide (path = str_Split (rsName spec) "/")) as [-> |Hne].
  - by rw bool_decide_eq_true_2.
  - by rw bool_decide_eq_false_2.
Qed.

(** The map is at most this deep. *)
Fixpoint depth_le (n : nat) (am : arMap) : Prop :=
  match n with
  | O => am = ∅
  | S n => ∀ step art, am !! step = Some art → depth_le n (artSubresources art)
  end.

Lemma depth_le_empty n : depth_le n ∅.
Proof. destruct n; [done|]. intros step art. by rw lookup_empty. Qed.

Lemma depth_le_insert name spec n am : (length name ≤ n)%nat → depth_le n am → depth_le n (arMap_insert name spec am).
Proof.
  revert n am. induction name as [|step name IH]; intros n am Hlen Ham; [done|]. destruct n as [|n]; [cbn in Hlen; lia|].
  cbn in Hlen. assert (depth_le n (artSubresources (default (MkArTuple None ∅) (am !! step)))) as Hsub.
  { destruct (am !! step) as [art|] eqn:Hart; [by apply (Ham step)|apply depth_le_empty]. }
  cbn [arMap_insert]. destruct name as [|step' name]; intros s art; (destruct (decide (s = step)) as [-> |Hs];
    [rw lookup_insert_eq; intros [= <-]; cbn [artSubresources]|rw lookup_insert_ne //; apply Ham]); [done|].
  apply IH; [cbn in *; lia|done].
Qed.

Lemma depth_le_mono n m am : (n ≤ m)%nat → depth_le n am → depth_le m am.
Proof.
  revert m am. induction n as [|n IH]; intros m am Hle Ham.
  - cbn in Ham. subst am. apply depth_le_empty.
  - destruct m as [|m]; [lia|]. intros step art Hart. apply IH; [lia|by apply (Ham step)].
Qed.

Lemma treeOf_depth specs n :
  (∀ s, s ∈ specs → (length (str_Split (rsName s) "/") ≤ n)%nat) → depth_le n (treeOf specs).
Proof.
  intros Hall. unfold treeOf. apply (for_each_ind (λ seen am, depth_le n am)); [apply depth_le_empty|].
  intros seen spec todo am Hl IH. apply depth_le_insert; [|done]. apply Hall. rw Hl. set_solver.
Qed.

(** The spec at a path of a list of resources with subresources. *)
Fixpoint spec_at (path : list string) (l : list ResourceSpec) : option ResourceSpec :=
  match path with
  | [] => None
  | step :: rest =>
      s ← List.find (λ s, bool_decide (rsName s = step)) l;
      match rest with [] => Some s | _ :: _ => spec_at rest (rsSubResources s) end
  end.

(** The same resource, but for its name and its subresources. *)
Record same_resource (name : string) (s t : ResourceSpec) : Prop := MkSameResource {
  same_name : rsName t = name;
  same_fields : (rsSingularName t, rsNamespaced t, rsGroup t, rsVersion t, rsKind t, rsVerbs t, rsDefiners t) =
                (rsSingularName s, rsNamespaced s, rsGroup s, rsVersion s, rsKind s, rsVerbs s, rsDefiners s)
}.

(** A list shows a map: at each path the resource that is stored there, if there is one at
    each step before it; and the names of each level are different. *)
Definition shows_tree (stored : list string → option ResourceSpec) (l : list ResourceSpec) : Prop :=
  NoDup (rsName <$> l) ∧
  (∀ path s, spec_at path l = Some s → NoDup (rsName <$> rsSubResources s)) ∧
  ∀ path step,
    match spec_at (path ++ [step]) l with
    | Some t => ∃ s, stored (path ++ [step]) = Some s ∧ same_resource step s t ∧
        ∀ p q, path = p ++ q → p ≠ [] → is_Some (stored p)
    | None => stored (path ++ [step]) = None ∨ ∃ p q, path = p ++ q ∧ p ≠ [] ∧ stored p = None
    end.

Section trees.
Context `{MapRange}.

(** What the fuel is enough for, and what comes out of the loop. *)
Lemma toList_loop fuel (am : arMap) :
  (∀ step art, am !! step = Some art → is_Some (arMap_toList fuel (artSubresources art))) →
  ∃ l, arMap_toList (S fuel) am = Some l ∧
    NoDup (rsName <$> l) ∧
    ∀ t, t ∈ l ↔ ∃ step art spec subs, am !! step = Some art ∧ artSpec art = Some spec ∧
      arMap_toList fuel (artSubresources art) = Some subs ∧ t = with_name step subs spec.
Proof.
  intros Hsub. cbn [arMap_toList].
  setoid_rewrite <-elem_of_map_range. setoid_rewrite <-elem_of_map_range in Hsub.
  pose proof (NoDup_map_range_fst am) as Hnd. revert Hsub Hnd. generalize (map_range am) as e. intros e Hsub Hnd.
  apply (for_each_ind (λ seen res, ∃ l, res = Some l ∧ NoDup (rsName <$> l) ∧
    ∀ t, t ∈ l ↔ ∃ step art spec subs, (step, art) ∈ seen ∧ artSpec art = Some spec ∧
      arMap_toList fuel (artSubresources art) = Some subs ∧ t = with_name step subs spec)).
  { exists []. split_and!; [done|apply NoDup_nil_2|]. intros t. split; [intros []%not_elem_of_nil|].
    intros (step & art & spec & subs & []%not_elem_of_nil & _). }
  intros seen [step art] todo res He (l & -> & Hl & Ht). cbn [mbind option_bind].
  assert ((step, art) ∈ e) as Hin by (rw He; apply elem_of_app; right; by left).
  destruct (artSpec art) as [spec|] eqn:Hspec.
  - destruct (Hsub step art Hin) as [subs Hs]. rw Hs. cbn. exists (l ++ [with_name step subs spec]). split_and!; [done| |].
    + rw fmap_app. apply NoDup_app. split_and!; [done| |apply NoDup_singleton].
      intros name (t & -> & (st & a & sp & su & Hseen & _ & _ & ->)%Ht)%list_elem_of_fmap Heq%list_elem_of_singleton.
      cbn in Heq. subst st. rewrite He fmap_app in Hnd. apply NoDup_app in Hnd as (_ & Hdisj & _).
      apply (Hdisj step); [apply list_elem_of_fmap; by exists (step, a)|]. by left.
    + intros t. rw elem_of_snoc Ht. setoid_rewrite elem_of_snoc. split.
      * intros [(st & a & sp & su & ? & ? & ? & ->)| ->]; [exists st, a, sp, su; by split_and!; [left|..]|].
        exists step, art, spec, subs. by split_and!; [right|..].
      * intros (st & a & sp & su & [?|[= -> ->]] & ? & ? & ->); [left; by exists st, a, sp, su|]. right. congruence.
  - exists l. split_and!; [done..|]. intros t. rw Ht. setoid_rewrite elem_of_snoc. split.
    + intros (st & a & sp & su & ? & ? & ? & ->). exists st, a, sp, su. by split_and!; [left|..].
    + intros (st & a & sp & su & [?|[= -> ->]] & Hsp & ? & ->); [by exists st, a, sp, su|congruence].
Qed.

Lemma toList_enough fuel am : depth_le fuel am → is_Some (arMap_toList (S fuel) am).
Proof.
  revert am. induction fuel as [|fuel IH]; intros am Ham.
  - cbn in Ham. subst am. cbn. rw map_range_empty. by eexists.
  - destruct (toList_loop (S fuel) am) as (l & Hl & _); [|by exists l]. intros step art Hart. by apply IH, (Ham step).
Qed.

Lemma find_named step l t :
  NoDup (rsName <$> l) → t ∈ l → rsName t = step → List.find (λ s, bool_decide (rsName s = step)) l = Some t.
Proof.
  intros Hnd Hin Hn. destruct (List.find _ l) as [t'|] eqn:Hf.
  - apply List.find_some in Hf as [Hin'%list_elem_of_In Hn'%bool_decide_eq_true]. f_equal.
    apply list_elem_of_lookup in Hin as [i Hi]. apply list_elem_of_lookup in Hin' as [j Hj].
    assert (i = j) as <-; [|congruence]. eapply NoDup_lookup; [exact Hnd| |]; rw list_lookup_fmap.
    + rw Hi. cbn. by rw Hn.
    + rw Hj. cbn. by rw Hn'.
  - apply list_elem_of_In in Hin. pose proof (List.find_none _ _ Hf t Hin) as Hc. cbn in Hc.
    by rewrite bool_decide_eq_true_2 in Hc.
Qed.

(** What is at the first step. *)
Lemma toList_first fuel am l step :
  arMap_toList (S fuel) am = Some l → NoDup (rsName <$> l) →
  (∀ t, t ∈ l ↔ ∃ step art spec subs, am !! step = Some art ∧ artSpec art = Some spec ∧
     arMap_toList fuel (artSubresources art) = Some subs ∧ t = with_name step subs spec) →
  (∀ step art, am !! step = Some art → is_Some (arMap_toList fuel (artSubresources art))) →
  match List.find (λ s, bool_decide (rsName s = step)) l with
  | Some t => ∃ art spec subs, am !! step = Some art ∧ artSpec art = Some spec ∧
      arMap_toList fuel (artSubresources art) = Some subs ∧ t = with_name step subs spec
  | None => stored_at [step] am = None
  end.
Proof.
  intros _ Hnd Ht Hsub. destruct (List.find _ l) as [t|] eqn:Hf.
  - apply List.find_some in Hf as [Hin%list_elem_of_In Hn%bool_decide_eq_true].
    apply Ht in Hin as (st & art & spec & subs & Hart & Hspec & Hs & ->). cbn in Hn. subst st. by exists art, spec, subs.
  - cbn. destruct (am !! step) as [art|] eqn:Hart; [|done]. cbn. destruct (artSpec art) as [spec|] eqn:Hspec; [|done].
    destruct (Hsub step art Hart) as [subs Hs].
    rewrite (find_named step l (with_name step subs spec)) in Hf; [done|done| |done]. apply Ht. by exists step, art, spec, subs.
Qed.

Lemma stored_at_cons step path am art :
  am !! step = Some art → path ≠ [] → stored_at (step :: path) am = stored_at path (artSubresources art).
Proof. intros Hart Hne. cbn. rw Hart. by destruct path. Qed.

Lemma stored_at_one step am art : am !! step = Some art → stored_at [step] am = artSpec art.
Proof. intros Hart. cbn. by rw Hart. Qed.

Lemma spec_at_cons step path l t :
  List.find (λ s, bool_decide (rsName s = step)) l = Some t → path ≠ [] →
  spec_at (step :: path) l = spec_at path (rsSubResources t).
Proof. intros Hf Hne. cbn. rw Hf. by destruct path. Qed.

Lemma spec_at_nil path : spec_at path [] = None.
Proof. by destruct path. Qed.

Lemma toList_shows fuel am :
  depth_le fuel am → (∀ path s, stored_at path am = Some s → rsSubResources s = []) →
  ∃ l, arMap_toList (S fuel) am = Some l ∧ shows_tree (λ path, stored_at path am) l.
Proof.
  revert am. induction fuel as [|fuel IH]; intros am Ham Hplain.
  { cbn in Ham. subst am. exists []. split; [cbn; by rw map_range_empty|].
    split_and!; [apply NoDup_nil_2| |]; intros path ?; rw spec_at_nil; [done|]. left. apply stored_at_empty. }
  assert (∀ step art, am !! step = Some art → is_Some (arMap_toList (S fuel) (artSubresources art))) as Hsub.
  { intros step art Hart. by apply toList_enough, (Ham step). }
  destruct (toList_loop (S fuel) am Hsub) as (l & Hl & Hnd & Ht). exists l. split; [done|].
  pose proof (λ step, toList_first (S fuel) am l step Hl Hnd Ht Hsub) as Hfirst.
  assert (∀ step t, List.find (λ s, bool_decide (rsName s = step)) l = Some t → ∃ art spec, am !! step = Some art ∧
    artSpec art = Some spec ∧ same_resource step spec t ∧
    shows_tree (λ path, stored_at path (artSubresources art)) (rsSubResources t)) as Hstep.
  { intros step t Hf. specialize (Hfirst step). rewrite Hf in Hfirst.
    destruct Hfirst as (art & spec & subs & Hart & Hspec & Hs & ->). exists art, spec. split_and!; [done..|].
    cbn [with_name rsSubResources]. rw (Hplain [step] spec); [|by rw (stored_at_one _ _ art)]. cbn [app].
    destruct (IH (artSubresources art)) as (subs' & Hs' & Hshow); [by apply (Ham step)| |].
    { intros path s Hp. destruct path as [|x path]; [done|]. apply (Hplain (step :: x :: path)). by rw (stored_at_cons _ _ _ art). }
    rewrite Hs in Hs'. by injection Hs' as <-. }
  clear Hl Ht Hsub IH. split_and!; [done| |].
  - intros [|step path] s; [done|]. destruct (List.find (λ s, bool_decide (rsName s = step)) l) as [t|] eqn:Hf.
    + destruct (Hstep step t Hf) as (art & spec & _ & _ & _ & Hnds & Hrec & _). destruct path as [|x path].
      * cbn. rw Hf. by intros [= <-].
      * rw (spec_at_cons _ _ _ t) //. apply Hrec.
    + cbn. by rw Hf.
  - intros [|s0 path] step; cbn [app].
    + specialize (Hfirst step). cbn [spec_at]. destruct (List.find (λ s, bool_decide (rsName s = step)) l) as [t|] eqn:Hf; [|by left].
      destruct (Hstep step t Hf) as (art & spec & Hart & Hspec & Hsame & _). cbn. exists spec.
      split_and!; [by rw Hart|done|]. intros [|x p] q Hpq Hne; [done|]. by destruct q.
    + assert (path ++ [step] ≠ []) as Hne by (by destruct path). specialize (Hfirst s0).
      destruct (List.find (λ s, bool_decide (rsName s = s0)) l) as [t|] eqn:Hf.
      * destruct (Hstep s0 t Hf) as (art & spec & Hart & Hspec & _ & _ & _ & Hrec). specialize (Hrec path step).
        rw (spec_at_cons _ _ _ t) // (stored_at_cons _ _ _ art) //. destruct (spec_at (path ++ [step]) _) as [t'|].
        -- destruct Hrec as (s & Hs & Hsame & Hpre). exists s. split_and!; [done..|]. intros [|x p] q Hpq Hpne; [done|]. injection Hpq as <- ->.
           destruct (decide (p = [])) as [-> |Hp]; [rw (stored_at_one _ _ art) // Hspec; by eexists|].
           rw (stored_at_cons _ _ _ art) //. by apply (Hpre p q).
        -- destruct Hrec as [?|(p & q & -> & Hp & Hn)]; [by left|]. right. exists (s0 :: p), q. split_and!; [done..|].
           by rw (stored_at_cons _ _ _ art).
      * assert (spec_at (s0 :: path ++ [step]) l = None) as -> by (cbn; by rw Hf). right. by exists [s0], path.
Qed.

(** * The list with subresources *)

Context {Cache : Type}.
Context (ServerGroupsAndResources : Cache → list APIGroup * list APIResourceList * Cache).
Context (ParseGroupVersion : string → option (string * string)).

(** The preferred version of a group, or the empty string: the last entry of its name counts. *)
Definition preferred_version (groups : list APIGroup) (name : string) : string :=
  from_option agPreferredVersion "" (List.find (λ ag, bool_decide (agName ag = name)) (rev groups)).

Lemma groupToVersion_eq groups name :
  get_string (for_each groups (λ ag m, <[agName ag := agPreferredVersion ag]> m) ∅) name = preferred_version groups name.
Proof.
  unfold get_string, preferred_version. apply (for_each_ind (λ seen m, default "" (m !! name) =
    from_option agPreferredVersion "" (List.find (λ ag, bool_decide (agName ag = name)) (rev seen)))); [by rw lookup_empty|].
  intros seen ag todo m _ IH. rw List.rev_app_distr. cbn [rev app List.find].
  destruct (decide (agName ag = name)) as [<- |Hne].
  - by rw lookup_insert_eq bool_decide_eq_true_2.
  - by rw lookup_insert_ne // bool_decide_eq_false_2.
Qed.

Lemma toList_fuel_enough (specs : list ResourceSpec) :
  ∃ l, arMap_toList (toList_fuel specs) (treeOf specs) = Some l ∧
    ((∀ s, s ∈ specs → rsSubResources s = []) → shows_tree (λ path, last_named path specs) l).
Proof.
  unfold toList_fuel. set (n := foldr _ O specs). assert (depth_le n (treeOf specs)) as Hd.
  { apply treeOf_depth. subst n. intros s Hs. induction specs as [|s' specs IH]; [by apply not_elem_of_nil in Hs|].
    apply elem_of_cons in Hs as [-> |Hs]; cbn [foldr]; [lia|]. specialize (IH Hs). lia. }
  destruct (toList_enough n (treeOf specs) Hd) as [l Hl]. exists l. split; [done|]. intros Hplain.
  destruct (toList_shows n (treeOf specs) Hd) as (l' & Hl' & Hshow).
  { intros path s. rw stored_at_treeOf. intros [Hin _]%List.find_some. apply Hplain. apply list_elem_of_In.
    by apply in_rev. }
  rewrite Hl in Hl'. injection Hl' as <-. destruct Hshow as (? & ? & Hs). split_and!; [done..|].
  intros path step. specialize (Hs path step). cbn in Hs.
  destruct (spec_at (path ++ [step]) l); by setoid_rewrite stored_at_treeOf in Hs.
Qed.

(** C23: a list with subresources always succeeds, with a depth that the names bound, and
    shows for each group in its preferred version, and for no others, exactly the resources
    that discovery reports, each with its subresources inside it; of several reports of a
    name the last one counts, and a subresource whose resource is missing is left out. *)
Theorem listWithSubresources_right v (rlw : resourcesListWatcher Cache) groups lists cache :
  ServerGroupsAndResources (rlwCache rlw) = (groups, lists, cache) →
  ∃ ll, (listWithSubresources ServerGroupsAndResources ParseGroupVersion v rlw).1 = Some (concat ll) ∧
    Forall2 (λ l items,
      match ParseGroupVersion (arlGroupVersion l) with
      | Some gv =>
          if bool_decide (preferred_version groups gv.1 = gv.2) then
            ∃ specs, items = ((λ spec, specComplete spec v gv) <$> specs) ∧
              shows_tree (λ path, last_named path (enumAPIResourcesLocked gv (arlAPIResources l) rlw)) specs
          else items = []
      | None => items = []
      end) lists ll.
Proof.
  intros Hd. unfold listWithSubresources. rw Hd. cbn [fst].
  apply (for_each_ind (λ seen res, ∃ ll, res = Some (concat ll) ∧ Forall2 (λ l items,
      match ParseGroupVersion (arlGroupVersion l) with
      | Some gv =>
          if bool_decide (preferred_version groups gv.1 = gv.2) then
            ∃ specs, items = ((λ spec, specComplete spec v gv) <$> specs) ∧
              shows_tree (λ path, last_named path (enumAPIResourcesLocked gv (arlAPIResources l) rlw)) specs
          else items = []
      | None => items = []
      end) seen ll)).
  { by exists []. }
  intros seen l todo res _ (ll & -> & Hall). cbn [mbind option_bind].
  assert (∀ items, concat (ll ++ [items]) = concat ll ++ items) as Hconcat.
  { intros items. rw concat_app. cbn. by rw app_nil_r. }
  destruct (ParseGroupVersion (arlGroupVersion l)) as [gv|] eqn:Hgv.
  - rw groupToVersion_eq. destruct (bool_decide (preferred_version groups gv.1 = gv.2)) eqn:Hpref; cbn [negb].
    + assert (enumAPIResourcesLocked gv (arlAPIResources l) (set_cache cache rlw) =
        enumAPIResourcesLocked gv (arlAPIResources l) rlw) as -> by done.
      destruct (toList_fuel_enough (enumAPIResourcesLocked gv (arlAPIResources l) rlw)) as (specs & Hs & Hshow).
      rw Hs. cbn. exists (ll ++ [(λ spec, specComplete spec v gv) <$> specs]). rw Hconcat. split; [done|].
      apply Forall2_app; [done|]. apply Forall2_cons. split; [|done]. rw Hgv Hpref. exists specs. split; [done|].
      apply Hshow. rw enumAPIResourcesLocked_eq. by intros s (rsc & -> & _)%list_elem_of_fmap.
    + exists (ll ++ [[]]). rw Hconcat app_nil_r. split; [done|]. apply Forall2_app; [done|]. apply Forall2_cons.
      split; [|done]. by rw Hgv Hpref.
  - exists (ll ++ [[]]). rw Hconcat app_nil_r. split; [done|]. apply Forall2_app; [done|]. apply Forall2_cons.
    split; [|done]. by rw Hgv.
Qed.
End trees.
