(* ===== verification/SpaceManager.v ===== *)
(** The space manager (space-framework/pkg/space-manager): it has a provider create and
    delete the physical spaces of managed Space objects, and keeps the objects in step with
    the spaces that the watcher of each provider reports.

    The state of the controller are its providers, the stores of the two informers, whose
    objects the code modifies in place, and the requests to providers that goroutines make.
    The API server is behind the interface [SpaceServer]; the clients of the providers, of
    which only what is asked of them matters here, are values of a type [PC]. *)

From S2P Require Import Prelude GoStrings KbUser Effects Base64.

(** * Data *)

Record SecretReference : Set := MkSecretReference { srNamespace : string; srName : string }.

(** A secret, with its data *)
Record Secret : Type := MkSecret { secName : string; secData : gmap string string }.

Record Space : Type := MkSpace {
  spNamespace : string;
  spName : string;
  spUID : string;
  (** nil or not, nothing else is looked at *)
  spDeletionTimestamp : bool;
  spAnnotations : gmap string string;
  spFinalizers : list string;
  SpaceProviderDescName : string;
  spType : string;
  spAccessScope : string;
  spPhase : string;
  InClusterSecretRef : option SecretReference;
  ExternalSecretRef : option SecretReference
}.

Definition SpaceTypeManaged : string := "managed".
Definition SpaceTypeUnmanaged : string := "unmanaged".
Definition SpaceTypeImported : string := "imported".
Definition AccessScopeInCluster : string := "InCluster".
Definition AccessScopeExternal : string := "External".
Definition AccessScopeBoth : string := "Both".
Definition SpacePhaseInitializing : string := "Initializing".
Definition SpacePhaseNotReady : string := "NotReady".
Definition SpacePhaseReady : string := "Ready".

Record SpaceProviderDesc : Type := MkSpaceProviderDesc {
  pdName : string;
  pdProviderType : string;
  pdSecretRef : option SecretReference;
  SpacePrefixForDiscovery : string;
  pdPhase : string
}.
Definition KindProviderType : string := "kind".
Definition KubeflexProviderType : string := "kubeflex".
Definition KcpProviderType : string := "kcp".
Definition SpaceProviderDescPhaseInitializing : string := "Initializing".
Definition SpaceProviderDescPhaseReady : string := "Ready".

Definition set_phase (phase : string) (s : Space) : Space :=
  MkSpace (spNamespace s) (spName s) (spUID s) (spDeletionTimestamp s) (spAnnotations s) (spFinalizers s)
    (SpaceProviderDescName s) (spType s) (spAccessScope s) phase (InClusterSecretRef s) (ExternalSecretRef s).
Definition set_finalizers (finalizers : list string) (s : Space) : Space :=
  MkSpace (spNamespace s) (spName s) (spUID s) (spDeletionTimestamp s) (spAnnotations s) finalizers
    (SpaceProviderDescName s) (spType s) (spAccessScope s) (spPhase s) (InClusterSecretRef s) (ExternalSecretRef s).
Definition set_incluster (ref : SecretReference) (s : Space) : Space :=
  MkSpace (spNamespace s) (spName s) (spUID s) (spDeletionTimestamp s) (spAnnotations s) (spFinalizers s)
    (SpaceProviderDescName s) (spType s) (spAccessScope s) (spPhase s) (Some ref) (ExternalSecretRef s).
Definition set_external (ref : SecretReference) (s : Space) : Space :=
  MkSpace (spNamespace s) (spName s) (spUID s) (spDeletionTimestamp s) (spAnnotations s) (spFinalizers s)
    (SpaceProviderDescName s) (spType s) (spAccessScope s) (spPhase s) (InClusterSecretRef s) (Some ref).
Definition set_desc_phase (phase : string) (d : SpaceProviderDesc) : SpaceProviderDesc :=
  MkSpaceProviderDesc (pdName d) (pdProviderType d) (pdSecretRef d) (SpacePrefixForDiscovery d) phase.

(** SpaceInfo and WatchEvent of the provider client *)
Record SpaceInfo : Type := MkSpaceInfo { siName : string; siConfig : gmap string string }.
Definition INCLUSTER : string := "incluster".
Definition EXTERNAL : string := "external".

Inductive EventType : Set := EventAdded | EventModified | EventDeleted | EventBookmark | EventError.
Record WatchEvent : Type := MkWatchEvent { weType : EventType; weSpaceInfo : SpaceInfo; weName : string }.

Definition spaceFinalizerName : string := "SpaceFinalizer".
Definition SpacePathAnnotationKey : string := "kubestellar.io/space-path".
Definition prefixNamespace : string := "spaceprovider-".
Definition SECRET_DATA_KEY : string := "kubeconfig".

Definition ProviderNS (name : string) : string := prefixNamespace +:+ name.

Definition spaceKeyFunc (ns name : string) : string :=
  if negb (bool_decide (ns = "")) then ns +:+ "/" +:+ name else name.

Definition containsFinalizer (space : Space) (finalizer : string) : bool :=
  existsb (λ f, bool_decide (f = finalizer)) (spFinalizers space).

Definition buildSecret (secretName conf : string) : Secret :=
  MkSecret secretName {[SECRET_DATA_KEY := EncodeToString conf]}.

(** * The API server *)

(** How a request to create or delete can end *)
Inductive Outcome : Set := OutcomeOk | OutcomeExists | OutcomeMissing | OutcomeError.

(** A boolean is whether there was no error. *)
Record SpaceServer (S : Type) : Type := MkSpaceServer {
  ss_UpdateSpace : string → Space → S → bool * S;
  ss_CreateSpace : string → Space → S → Outcome * S;
  ss_DeleteSpace : string → string → S → bool * S;
  ss_GetProviderDesc : string → S → option SpaceProviderDesc;
  ss_UpdateProviderDesc : SpaceProviderDesc → S → option SpaceProviderDesc * S;
  ss_CreateNamespace : string → S → Outcome * S;
  ss_DeleteNamespace : string → S → Outcome * S;
  ss_GetSecret : string → string → S → option Secret;
  ss_CreateSecret : string → Secret → S → Outcome * S;
  ss_UpdateSecret : string → Secret → S → bool * S;
  ss_DeleteSecret : string → string → S → bool * S
}.
Arguments MkSpaceServer {_} _ _ _ _ _ _ _ _ _ _ _.
Arguments ss_UpdateSpace {_} _ _ _ _.
Arguments ss_CreateSpace {_} _ _ _ _.
Arguments ss_DeleteSpace {_} _ _ _ _.
Arguments ss_GetProviderDesc {_} _ _ _.
Arguments ss_UpdateProviderDesc {_} _ _ _.
Arguments ss_CreateNamespace {_} _ _ _.
Arguments ss_DeleteNamespace {_} _ _ _.
Arguments ss_GetSecret {_} _ _ _ _.
Arguments ss_CreateSecret {_} _ _ _ _.
Arguments ss_UpdateSecret {_} _ _ _ _.
Arguments ss_DeleteSecret {_} _ _ _ _.

(** * The controller *)

(** A provider; its watcher is nil, running or stopped. *)
Record provider (PC : Type) : Type := MkProvider {
  prName : string;
  providerClient : PC;
  providerWatcher : option bool;
  prNameSpace : string;
  discoveryPrefix : string
}.
Arguments MkProvider {_} _ _ _ _ _.
Arguments prName {_} _.
Arguments providerClient {_} _.
Arguments providerWatcher {_} _.
Arguments prNameSpace {_} _.
Arguments discoveryPrefix {_} _.

(** The calls of provider clients that goroutines make; with the parent, if any. *)
Inductive ProviderRequest (PC : Type) : Type :=
| CreateRequest (client : PC) (name parent : string)
| DeleteRequest (client : PC) (name parent : string).
Arguments CreateRequest {_} _ _ _.
Arguments DeleteRequest {_} _ _ _.

Record controller (PC S : Type) : Type := MkController {
  providers : gmap string (provider PC);
  spaceStore : gmap string Space;
  providerStore : gmap string SpaceProviderDesc;
  requests : list (ProviderRequest PC);
  server : S
}.
Arguments MkController {_ _} _ _ _ _ _.
Arguments providers {_ _} _.
Arguments spaceStore {_ _} _.
Arguments providerStore {_ _} _.
Arguments requests {_ _} _.
Arguments server {_ _} _.

Section space_manager.
Context `{MapRange} {PC S : Type} (ss : SpaceServer S).
(** The constructors of clients, [None] for an error, and what [Watch] of one returns *)
Context (kind_New kubeflex_New kcp_New : gmap string string → option PC).
Context (client_Watch : PC → S → bool).
Abbreviation C := (controller PC S).
Abbreviation M := (SM C).

(** A call of the server. *)
Definition call {A} (f : S → A * S) : M A := λ c,
  let '(a, s) := f (server c) in (Done a, MkController (providers c) (spaceStore c) (providerStore c) (requests c) s).
(** An object of the store is modified in place. *)
Definition modify_space (key : string) (s : Space) : M unit :=
  sput (λ c : C, MkController (providers c) (<[key := s]> (spaceStore c)) (providerStore c) (requests c) (server c)).
Definition modify_desc (key : string) (d : SpaceProviderDesc) : M unit :=
  sput (λ c : C, MkController (providers c) (spaceStore c) (<[key := d]> (providerStore c)) (requests c) (server c)).
Definition set_providers (f : gmap string (provider PC) → gmap string (provider PC)) : M unit :=
  sput (λ c : C, MkController (f (providers c)) (spaceStore c) (providerStore c) (requests c) (server c)).
Definition request (r : ProviderRequest PC) : M unit :=
  sput (λ c : C, MkController (providers c) (spaceStore c) (providerStore c) (requests c ++ [r]) (server c)).
Definition check (ok : bool) : M unit := if ok then mret () else sfail "request failed".

(** [opts.Parent] is empty without the annotation. *)
Definition parentOf (space : Space) : string := get_string (spAnnotations space) SpacePathAnnotationKey.

(** ** reconcile_space.go *)

(** [key] is that of the object in the store. *)
Definition processAddOrUpdateSpace (key : string) (space : Space) : M unit :=
  if bool_decide (spType space = SpaceTypeUnmanaged) then
    if bool_decide (SpaceProviderDescName space = "") then sfail "missing SpaceProviderDesc"
    else if bool_decide (spPhase space = SpacePhaseNotReady) then
      ok ← call (ss_DeleteSpace ss (ProviderNS (SpaceProviderDescName space)) (spName space)); check ok
    else mret ()
  else if bool_decide (spType space = SpaceTypeManaged) then
    if bool_decide (SpaceProviderDescName space = "") then sfail "missing SpaceProviderDesc"
    else if bool_decide (spPhase space = "") then
      providerInfo ← sget (λ c : C, ss_GetProviderDesc ss (SpaceProviderDescName space) (server c));
      match providerInfo with
      | None => sfail "failed to get provider object"
      | Some providerInfo =>
          p ← sget (λ c : C, providers c !! pdName providerInfo);
          match p with
          | None => sfail "failed to get provider from controller"
          | Some p =>
              let space := if negb (containsFinalizer space spaceFinalizerName)
                           then set_finalizers (spFinalizers space ++ [spaceFinalizerName]) space else space in
              let space := set_phase SpacePhaseInitializing space in
              _ ← modify_space key space;
              ok ← call (ss_UpdateSpace ss (ProviderNS (pdName providerInfo)) space);
              _ ← check ok;
              request (CreateRequest (providerClient p) (spName space) (parentOf space))
          end
      end
    else mret ()
  else if bool_decide (spType space = SpaceTypeImported) then
    let space := set_phase SpacePhaseReady space in
    _ ← modify_space key space;
    ok ← call (ss_UpdateSpace ss (spNamespace space) space); check ok
  else mret ().

Definition processDeleteSpace (delSpace : Space) : M unit :=
  if bool_decide (spType delSpace = SpaceTypeManaged) then
    p ← sget (λ c : C, providers c !! SpaceProviderDescName delSpace);
    match p with
    | None => sfail "failed to get provider client"
    | Some p => request (DeleteRequest (providerClient p) (spName delSpace) (parentOf delSpace))
    end
  else mret ().

Definition reconcileSpace (key : string) : M unit :=
  space ← sget (λ c : C, spaceStore c !! key);
  match space with
  | None => mret ()
  | Some space => if spDeletionTimestamp space then processDeleteSpace space else processAddOrUpdateSpace key space
  end.

(** ** provider.go *)

Definition newProviderClient (pType : string) (configStrs : gmap string string) : option PC :=
  if bool_decide (pType = KindProviderType) then kind_New configStrs
  else if bool_decide (pType = KubeflexProviderType) then kubeflex_New configStrs
  else if bool_decide (pType = KcpProviderType) then kcp_New configStrs
  else None.

Definition getConfigFromSecret (sRef : SecretReference) (s : S) : option (gmap string string) :=
  secret ← ss_GetSecret ss (srNamespace sRef) (srName sRef) s;
  Some (for_each (map_range (secData secret)) (λ '(key, value) configStrs,
    <[key := default value (DecodeString value)]> configStrs) ∅).

(** The provider, if there is one, and whether there was no error. *)
Definition CreateProvider (providerDesc : SpaceProviderDesc) : M (option (provider PC) * bool) :=
  let providerName := pdName providerDesc in
  prov ← sget (λ c : C, providers c !! providerName);
  match prov with
  | Some prov => mret (Some prov, false)
  | None =>
      configStrs ← sget (λ c : C,
        if negb (bool_decide (pdProviderType providerDesc = KindProviderType)) then
          sRef ← pdSecretRef providerDesc; getConfigFromSecret sRef (server c)
        else Some ∅);
      match configStrs with
      | None => mret (None, false)
      | Some configStrs =>
          match newProviderClient (pdProviderType providerDesc) configStrs with
          | None => mret (None, false)
          | Some client =>
              let prefix := SpacePrefixForDiscovery providerDesc in
              let prefix := if bool_decide (prefix = "") then "*" else prefix in
              let p := MkProvider providerName client None (ProviderNS providerName) prefix in
              _ ← set_providers <[providerName := p]>;
              mret (Some p, true)
          end
      end
  end.

Definition filterOut (p : provider PC) (spaceName : string) : bool :=
  if bool_decide (discoveryPrefix p = "*") then false
  else negb (HasPrefix spaceName (discoveryPrefix p)).

Definition set_watcher (w : bool) (p : provider PC) : provider PC :=
  MkProvider (prName p) (providerClient p) (Some w) (prNameSpace p) (discoveryPrefix p).

Definition StartDiscovery (p : provider PC) : M unit :=
  match providerWatcher p with
  | Some _ => mret ()
  | None =>
      ok ← sget (λ c : C, client_Watch (providerClient p) (server c));
      _ ← check ok;
      set_providers (alter (set_watcher true) (prName p))
  end.

Definition StopDiscovery (p : provider PC) : M unit :=
  match providerWatcher p with
  | None => sfail "failed to stop provider discovery. provider watcher does not exist"
  | Some _ => set_providers (alter (set_watcher false) (prName p))
  end.

(** A secret with the config, created or else updated. *)
Definition putSecret (ns : string) (secret : Secret) : M unit :=
  outcome ← call (ss_CreateSecret ss ns secret);
  match outcome with
  | OutcomeOk => mret ()
  | OutcomeExists => ok ← call (ss_UpdateSecret ss ns secret); check ok
  | OutcomeMissing | OutcomeError => sfail "failed to create secret"
  end.

(** The space is modified in place, also when there is an error: [note] stores it if it is an
    object of the store. *)
Definition createSpaceSecrets (p : provider PC) (note : Space → M unit) (space : Space) (spInfo : SpaceInfo) : M Space :=
  let both := bool_decide (spAccessScope space = AccessScopeBoth) in
  let needInCluster := both || bool_decide (spAccessScope space = AccessScopeInCluster) in
  let needExternal := both || bool_decide (spAccessScope space = AccessScopeExternal) in
  space ← (if needInCluster then
             let conf := get_string (siConfig spInfo) INCLUSTER in
             if negb (bool_decide (conf = "")) then
               let secretName := "incluster-" +:+ spName space in
               _ ← putSecret (prNameSpace p) (buildSecret secretName conf);
               let space := set_incluster (MkSecretReference (prNameSpace p) secretName) space in
               _ ← note space;
               mret space
             else sfail "missing needed in-cluster secret for space"
           else mret space : M Space);
  if needExternal then
    let conf := get_string (siConfig spInfo) EXTERNAL in
    if negb (bool_decide (conf = "")) then
      let secretName := "external-" +:+ spName space in
      _ ← putSecret (prNameSpace p) (buildSecret secretName conf);
      let space := set_external (MkSecretReference (prNameSpace p) secretName) space in
      _ ← note space;
      mret space
    else sfail "missing needed external secret for space"
  else mret space.

Definition deleteSpaceSecrets (space : Space) : M unit :=
  let del (ref : option SecretReference) : M unit :=
    match ref with
    | None => mret ()
    | Some ref => _ ← call (ss_DeleteSecret ss (srNamespace ref) (srName ref)); mret ()
    end in
  _ ← del (InClusterSecretRef space);
  del (ExternalSecretRef space).

(** The loop that removes the finalizer.  [append] writes into the array that the loop reads,
    whose length stays, and of which the finalizers that are set are a beginning.  The
    finalizers of the object afterwards. *)
Definition removeFinalizer (finalizersList : list string) : list string :=
  let n := length finalizersList in
  let '(array, removed) :=
    for_each (seq 0 n) (λ i '(array, removed),
      if bool_decide (array !! i = Some spaceFinalizerName)
      then (take i array ++ drop (i + 1) array ++ drop (n - 1) array, true)
      else (array, removed)) (finalizersList, false) in
  if removed : bool then take (n - 1) array else finalizersList.

(** One turn of the loop over the events of the watcher of a provider. *)
Definition processProviderWatchEvent (p : provider PC) (event : WatchEvent) : M unit :=
  let spaceName := weName event in
  let key := spaceKeyFunc (prNameSpace p) spaceName in
  refspace ← sget (λ c : C, spaceStore c !! key);
  let managed := match refspace with Some s => bool_decide (spType s = SpaceTypeManaged) | None => false end in
  if negb managed && filterOut p spaceName then mret ()
  else
    match weType event, refspace with
    | EventAdded, None =>
        let space := MkSpace "" spaceName "" false ∅ [] (prName p) SpaceTypeUnmanaged "" "" None None in
        signore (space ← createSpaceSecrets p (λ _, mret ()) space (weSpaceInfo event);
                 let space := set_phase SpacePhaseReady space in
                 _ ← call (ss_CreateSpace ss (prNameSpace p) space); mret ())
    | EventAdded, Some refspace =>
        signore (refspace ← createSpaceSecrets p (modify_space key) refspace (weSpaceInfo event);
                 let refspace := if bool_decide (spType refspace = SpaceTypeManaged)
                                    && negb (containsFinalizer refspace spaceFinalizerName)
                                 then set_finalizers (spFinalizers refspace ++ [spaceFinalizerName]) refspace
                                 else refspace in
                 let refspace := set_phase SpacePhaseReady refspace in
                 _ ← modify_space key refspace;
                 _ ← call (ss_UpdateSpace ss (prNameSpace p) refspace); mret ())
    | EventDeleted, None => mret ()
    | EventDeleted, Some refspace =>
        _ ← (if managed then deleteSpaceSecrets refspace else mret () : M unit);
        let refspace := if managed then set_finalizers (removeFinalizer (spFinalizers refspace)) refspace else refspace in
        let refspace := set_phase SpacePhaseNotReady refspace in
        _ ← modify_space key refspace;
        _ ← call (ss_UpdateSpace ss (prNameSpace p) refspace); mret ()
    | EventModified, _ | EventBookmark, _ | EventError, _ => mret ()
    end.

(** ** reconcile_spaceprovider.go *)

(** The object that the server returns; [note] stores the modified object if it is one of the
    store. *)
Definition setProviderStatus (note : SpaceProviderDesc → M unit) (d : SpaceProviderDesc) (status : string)
  : M SpaceProviderDesc :=
  let d := set_desc_phase status d in
  _ ← note d;
  updated ← call (ss_UpdateProviderDesc ss d);
  match updated with
  | None => sfail "failed to update SpaceProviderDesc"
  | Some updated => mret updated
  end.

Definition handleAdd (key : string) (providerDesc : SpaceProviderDesc) : M unit :=
  let name := pdName providerDesc in
  cached ← sget (λ c : C, providers c !! name);
  if bool_decide (pdPhase providerDesc = SpaceProviderDescPhaseReady) && bool_decide (is_Some cached) then mret ()
  else
    providerDesc ← setProviderStatus (modify_desc key) providerDesc SpaceProviderDescPhaseInitializing;
    '(p, ok) ← CreateProvider providerDesc;
    match p with
    | None => sfail "failed to create provider"
    | Some p =>
        outcome ← call (ss_CreateNamespace ss (ProviderNS name));
        match outcome with
        | OutcomeOk | OutcomeExists =>
            _ ← StartDiscovery p;
            _ ← setProviderStatus (λ _, mret ()) providerDesc SpaceProviderDescPhaseReady;
            mret ()
        | OutcomeMissing | OutcomeError => sfail "failed to create namespace"
        end
    end.

(** The loop over the Spaces of the provider; whether its namespace is empty. *)
Fixpoint releaseSpaces (ns : string) (spaces : list (string * Space)) (isNsEmpty : bool) : M bool :=
  match spaces with
  | [] => mret isNsEmpty
  | (key, space) :: rest =>
      if bool_decide (spNamespace space = ns) then
        if bool_decide (spType space = SpaceTypeManaged) then
          let space := set_phase SpacePhaseNotReady space in
          _ ← modify_space key space;
          _ ← call (ss_UpdateSpace ss ns space);
          releaseSpaces ns rest false
        else
          ok ← call (ss_DeleteSpace ss ns (spName space));
          releaseSpaces ns rest (if ok : bool then isNsEmpty else false)
      else releaseSpaces ns rest isNsEmpty
  end.

Definition handleDelete (providerName : string) : M unit :=
  let ns := ProviderNS providerName in
  p ← sget (λ c : C, providers c !! providerName);
  _ ← (match p with Some p => signore (StopDiscovery p) | None => mret () end : M unit);
  spaces ← sget (λ c : C, map_range (spaceStore c));
  isNsEmpty ← releaseSpaces ns spaces true;
  if isNsEmpty : bool then
    _ ← set_providers (delete providerName);
    outcome ← call (ss_DeleteNamespace ss ns);
    match outcome with
    | OutcomeOk | OutcomeMissing => mret ()
    | OutcomeExists | OutcomeError => sfail "failed to delete namespace"
    end
  else mret ().

Definition reconcileSpaceProviderDesc (key : string) : M unit :=
  desc ← sget (λ c : C, providerStore c !! key);
  match desc with
  | None => handleDelete key
  | Some desc => handleAdd key desc
  end.

(** ** controller.go *)

Inductive queueItem : Set :=
| triggeringKindSpace (key : string)
| triggeringKindSpaceProviderDesc (key : string).

Definition process (item : queueItem) : M unit :=
  match item with
  | triggeringKindSpaceProviderDesc key => reconcileSpaceProviderDesc key
  | triggeringKindSpace key => reconcileSpace key
  end.

(** What the handlers of the informers enqueue; a key cannot always be had, and an update of
    a Space matters only if something has changed. *)
Definition enqueueSpace (key : option string) (queue : list queueItem) : list queueItem :=
  match key with None => queue | Some key => queue ++ [triggeringKindSpace key] end.
Definition onUpdateSpace (DeepEqual : Space → Space → bool) (old new : Space) (key : option string)
  (queue : list queueItem) : list queueItem :=
  if negb (DeepEqual old new) then enqueueSpace key queue else queue.
Definition enqueueSpaceProviderDesc (key : option string) (queue : list queueItem) : list queueItem :=
  match key with None => queue | Some key => queue ++ [triggeringKindSpaceProviderDesc key] end.
End space_manager.
