(* ===== verification/SpaceManagerFacts.v ===== *)
(** The space manager: the life of a managed Space, from the request to create it over its
    being ready, with its secrets, to its removal; with what goes wrong after a failed update
    and after a provider comes back. *)

From S2P Require Import Prelude GoStrings KbUser Effects Base64 SpaceManager.

(** * The API server *)

(** What the server keeps when an object is created: in the namespace, and with the default
    access scope. *)
Definition defaulted (ns : string) (s : Space) : Space :=
  MkSpace ns (spName s) (spUID s) (spDeletionTimestamp s) (spAnnotations s) (spFinalizers s) (SpaceProviderDescName s)
    (spType s) (if bool_decide (spAccessScope s = "") then AccessScopeBoth else spAccessScope s) (spPhase s)
    (InClusterSecretRef s) (ExternalSecretRef s).

(** The object that is marked for deletion goes when its last finalizer does. *)
Definition put_space (ns : string) (s : Space) (m : gmap (string * string) Space) : gmap (string * string) Space :=
  if spDeletionTimestamp s && bool_decide (spFinalizers s = []) then delete (ns, spName s) m
  else <[(ns, spName s) := s]> m.

(** The Spaces and the secrets by namespace and name. *)
Class SpaceServerOk {S} (ss : SpaceServer S) (spaces : S → gmap (string * string) Space)
  (secrets : S → gmap (string * string) Secret) : Prop := {
  update_space_ok ns sp s s' :
    ss_UpdateSpace ss ns sp s = (true, s') → spaces s' = put_space ns sp (spaces s) ∧ secrets s' = secrets s;
  update_space_fails ns sp s s' : ss_UpdateSpace ss ns sp s = (false, s') → spaces s' = spaces s ∧ secrets s' = secrets s;
  create_space_ok ns sp s s' :
    ss_CreateSpace ss ns sp s = (OutcomeOk, s') →
    spaces s' = <[(ns, spName sp) := defaulted ns sp]> (spaces s) ∧ secrets s' = secrets s;
  create_secret_ok ns sec s s' :
    ss_CreateSecret ss ns sec s = (OutcomeOk, s') →
    secrets s' = <[(ns, secName sec) := sec]> (secrets s) ∧ spaces s' = spaces s;
  create_secret_exists ns sec s s' :
    ss_CreateSecret ss ns sec s = (OutcomeExists, s') → secrets s' = secrets s ∧ spaces s' = spaces s;
  update_secret_ok ns sec s s' :
    ss_UpdateSecret ss ns sec s = (true, s') →
    secrets s' = <[(ns, secName sec) := sec]> (secrets s) ∧ spaces s' = spaces s;
  delete_secret_ok ns name s ok s' :
    ss_DeleteSecret ss ns name s = (ok, s') → spaces s' = spaces s;
  update_desc_name d s u s' : ss_UpdateProviderDesc ss d s = (Some u, s') → pdName u = pdName d;
  get_secret_ok ns name s :
    ss_GetSecret ss ns name s = secrets s !! (ns, name)
}.

(** A server that answers requests about secrets in the namespace: it creates a secret that is
    not there, reports one that is, and then takes an update of it. *)
Record writes_secrets {S} (ss : SpaceServer S) (secrets : S → gmap (string * string) Secret) (ns : string) : Prop :=
  MkWritesSecrets {
    creates_absent_secret sec s : secrets s !! (ns, secName sec) = None → (ss_CreateSecret ss ns sec s).1 = OutcomeOk;
    reports_present_secret sec s :
      is_Some (secrets s !! (ns, secName sec)) → (ss_CreateSecret ss ns sec s).1 = OutcomeExists;
    updates_present_secret sec s :
      is_Some (secrets s !! (ns, secName sec)) → (ss_UpdateSecret ss ns sec s).1 = true
  }.

(** The server takes the update of this Space as long as the Spaces are as in [s]: the Space
    is there, and the object that is sent is not outdated. *)
Definition takes_update {S} (ss : SpaceServer S) (spaces : S → gmap (string * string) Space) (ns : string) (sp : Space)
  (s : S) : Prop :=
  ∀ s', spaces s' = spaces s → (ss_UpdateSpace ss ns sp s').1 = true.

Section facts.
Context `{MapRange} {PC S : Type} (ss : SpaceServer S).
Context (spaces : S → gmap (string * string) Space) (secrets : S → gmap (string * string) Secret).
Context `{!SpaceServerOk ss spaces secrets}.
Abbreviation C := (controller PC S).
Implicit Types (c : C) (p : provider PC).

(** Only the server has changed. *)
Definition same_but_server c c' : Prop :=
  providers c' = providers c ∧ spaceStore c' = spaceStore c ∧ providerStore c' = providerStore c ∧ requests c' = requests c.

Lemma call_eq {A} (f : S → A * S) c a s :
  f (server c) = (a, s) →
  call (PC:=PC) f c = (Done a, MkController (providers c) (spaceStore c) (providerStore c) (requests c) s).
Proof. unfold call. by intros ->. Qed.

(** * Creation *)

(** The object as it is sent to the server before the physical space is asked for. *)
Definition initializing (sp : Space) : Space :=
  set_phase SpacePhaseInitializing
    (if negb (containsFinalizer sp spaceFinalizerName)
     then set_finalizers (spFinalizers sp ++ [spaceFinalizerName]) sp else sp).

Lemma initializing_finalizer sp : containsFinalizer (initializing sp) spaceFinalizerName = true.
Proof.
  unfold initializing. destruct (containsFinalizer sp spaceFinalizerName) eqn:Hf; cbn [negb]; [done|].
  unfold containsFinalizer. cbn. rw existsb_app. cbn. by rw orb_true_r.
Qed.

(** What a reconciliation does with a Space that a client has created. *)
Lemma reconcile_new_space key sp desc p c :
  spaceStore c !! key = Some sp → spDeletionTimestamp sp = false → spType sp = SpaceTypeManaged → spPhase sp = "" →
  SpaceProviderDescName sp ≠ "" →
  ss_GetProviderDesc ss (SpaceProviderDescName sp) (server c) = Some desc → providers c !! pdName desc = Some p →
  let '(ok, s') := ss_UpdateSpace ss (ProviderNS (pdName desc)) (initializing sp) (server c) in
  reconcileSpace ss key c =
    (if ok then Done () else Failed "request failed",
     MkController (providers c) (<[key := initializing sp]> (spaceStore c)) (providerStore c)
       (requests c ++ if ok then [CreateRequest (providerClient p) (spName sp) (parentOf sp)] else []) s').
Proof.
  intros Hsp Hdel Hty Hph Hpn Hdesc Hp. destruct (ss_UpdateSpace ss _ _ (server c)) as [ok s'] eqn:Hup.
  unfold reconcileSpace. rw SM_bind_eq. cbv beta iota delta [sget]. rw Hsp Hdel. unfold processAddOrUpdateSpace.
  rw Hty. cbn [bool_decide]. rw bool_decide_eq_false_2 // bool_decide_eq_true_2 // bool_decide_eq_false_2 // Hph
    bool_decide_eq_true_2 //. rw SM_bind_eq. cbv beta iota delta [sget]. rw Hdesc SM_bind_eq. cbv beta iota delta [sget].
  rw Hp. cbv zeta. fold (initializing sp). rw SM_bind_eq. cbv beta iota delta [modify_space sput].
  rw SM_bind_eq (call_eq _ _ ok s') //. cbn [providers spaceStore providerStore requests]. rw SM_bind_eq.
  destruct ok; cbn; [|by rw app_nil_r]. unfold initializing. by destruct (negb _).
Qed.

(** A managed Space whose phase is set is left alone. *)
Lemma reconcile_settled key sp d s (r : list (ProviderRequest PC)) c ps :
  spDeletionTimestamp sp = false → spType sp = SpaceTypeManaged → SpaceProviderDescName sp ≠ "" →
  reconcileSpace ss key (MkController ps (<[key := initializing sp]> (spaceStore c)) d r s)
  = (Done (), MkController ps (<[key := initializing sp]> (spaceStore c)) d r s).
Proof.
  intros Hdel Hty Hpn. unfold reconcileSpace. rw SM_bind_eq. cbv beta iota delta [sget]. cbn [spaceStore].
  rw lookup_insert_eq. unfold initializing. destruct (negb _); cbn; rw Hdel; unfold processAddOrUpdateSpace; cbn;
    rw Hty bool_decide_eq_false_2 // bool_decide_eq_true_2 // bool_decide_eq_false_2 //.
Qed.

(** The reconciliation of a managed Space that a client has created marks it as
    initializing, with the finalizer, and asks its provider, once, for the physical space; and
    reconciling it again asks for nothing. *)
Theorem new_space_requested key sp desc p c :
  spaceStore c !! key = Some sp → spDeletionTimestamp sp = false → spType sp = SpaceTypeManaged → spPhase sp = "" →
  SpaceProviderDescName sp ≠ "" →
  ss_GetProviderDesc ss (SpaceProviderDescName sp) (server c) = Some desc → providers c !! pdName desc = Some p →
  (ss_UpdateSpace ss (ProviderNS (pdName desc)) (initializing sp) (server c)).1 = true →
  ∃ c', reconcileSpace ss key c = (Done (), c') ∧
    spaces (server c') !! (ProviderNS (pdName desc), spName sp) = Some (initializing sp) ∧
    requests c' = requests c ++ [CreateRequest (providerClient p) (spName sp) (parentOf sp)] ∧
    reconcileSpace ss key c' = (Done (), c').
Proof.
  intros Hsp Hdel Hty Hph Hpn Hdesc Hp Hok.
  pose proof (reconcile_new_space key sp desc p c Hsp Hdel Hty Hph Hpn Hdesc Hp) as Hrun.
  destruct (ss_UpdateSpace ss _ _ (server c)) as [ok s'] eqn:Hup. cbn in Hok. subst ok.
  eexists. split; [exact Hrun|]. apply update_space_ok in Hup as [Hspaces _]. cbn [server requests]. split_and!.
  - rw Hspaces. unfold put_space. replace (spDeletionTimestamp (initializing sp)) with false; cbn [andb].
    + replace (spName (initializing sp)) with (spName sp); [apply lookup_insert_eq|]. unfold initializing. by destruct (negb _).
    + unfold initializing. rw -Hdel. by destruct (negb _).
  - done.
  - by apply reconcile_settled.
Qed.

(** If the update of a new Space fails, the reconciliation reports the error, but the
    object in the store of the informer has been modified: the retry finds it initializing
    and reports success although the physical space was never asked for, which it is not
    before the informer receives the object anew. *)
Theorem failed_update_stuck key sp desc p c :
  spaceStore c !! key = Some sp → spDeletionTimestamp sp = false → spType sp = SpaceTypeManaged → spPhase sp = "" →
  SpaceProviderDescName sp ≠ "" →
  ss_GetProviderDesc ss (SpaceProviderDescName sp) (server c) = Some desc → providers c !! pdName desc = Some p →
  (ss_UpdateSpace ss (ProviderNS (pdName desc)) (initializing sp) (server c)).1 = false →
  ∃ err c', reconcileSpace ss key c = (Failed err, c') ∧ spaces (server c') = spaces (server c) ∧
    reconcileSpace ss key c' = (Done (), c') ∧ requests c' = requests c.
Proof.
  intros Hsp Hdel Hty Hph Hpn Hdesc Hp Hok.
  pose proof (reconcile_new_space key sp desc p c Hsp Hdel Hty Hph Hpn Hdesc Hp) as Hrun.
  destruct (ss_UpdateSpace ss _ _ (server c)) as [ok s'] eqn:Hup. cbn in Hok. subst ok.
  eexists _, _. split; [exact Hrun|]. apply update_space_fails in Hup as [Hspaces _]. cbn [server requests]. split_and!.
  - done.
  - by apply reconcile_settled.
  - by rw app_nil_r.
Qed.

(** * The finalizer *)

Lemma removeFinalizer_once l1 l2 :
  spaceFinalizerName ∉ l1 → spaceFinalizerName ∉ l2 → removeFinalizer (l1 ++ spaceFinalizerName :: l2) = l1 ++ l2.
Proof.
  intros Hl1 Hl2. unfold removeFinalizer. rw length_app. cbn [length].
  replace (length l1 + Datatypes.S (length l2))%nat with (length l1 + (1 + length l2))%nat by lia.
  rw (seq_app (length l1)) for_each_app. cbn [plus seq].
  set (f := λ (i : nat) '(array, removed), _).
  assert (∀ ix array removed, (∀ i, i ∈ ix → array !! i ≠ Some spaceFinalizerName) →
    for_each ix f (array, removed) = (array, removed)) as Hskip.
  { induction ix as [|i ix IH]; intros array removed Hix; [done|]. rw for_each_cons. unfold f at 2.
    rw bool_decide_eq_false_2; [apply IH; set_solver|apply Hix; by left]. }
  rw (Hskip (seq 0 (length l1))).
  2:{ intros i Hi%elem_of_seq. rw lookup_app_l; [|lia]. intros Hin%list_elem_of_lookup_2. done. }
  rw for_each_cons. unfold f at 2. rw lookup_app_r // Nat.sub_diag. cbn [lookup list_lookup].
  rw bool_decide_eq_true_2 // take_app_length.
  replace (drop (length l1 + 1) (l1 ++ spaceFinalizerName :: l2)) with l2
    by (rw -drop_drop drop_app_length //).
  rw Hskip.
  - rw app_assoc take_app_length' //. rw length_app. lia.
  - intros i Hi%elem_of_seq. destruct l2 as [|x l2]; [cbn in Hi; lia|]. cbn [length] in *.
    assert (drop (length l1 + Datatypes.S (Datatypes.S (length l2)) - 1) (l1 ++ spaceFinalizerName :: x :: l2) =
      drop (length l2) (x :: l2)) as ->.
    { replace (length l1 + Datatypes.S (Datatypes.S (length l2)) - 1)%nat with (length l1 + (1 + length l2))%nat by lia.
      by rw -drop_drop drop_app_length. }
    intros Hin%list_elem_of_lookup_2. rewrite !elem_of_app in Hin. destruct Hin as [?|[?|Hin]]; [done|done|].
    apply Hl2. rw -(take_drop (length l2) (x :: l2)). apply elem_of_app. by right.
Qed.

Lemma removeFinalizer_none l : spaceFinalizerName ∉ l → removeFinalizer l = l.
Proof.
  intros Hl. unfold removeFinalizer.
  assert (∀ ix removed, for_each ix (λ i '(array, removed),
      if bool_decide (array !! i = Some spaceFinalizerName)
      then (take i array ++ drop (i + 1) array ++ drop (length l - 1) array, true)
      else (array, removed)) (l, removed) = (l, removed)) as Hskip.
  { induction ix as [|i ix IH]; intros removed; [done|]. rw for_each_cons bool_decide_eq_false_2; [apply IH|].
    by intros Hin%list_elem_of_lookup_2. }
  by rw Hskip.
Qed.

(** * Secrets *)

Lemma putSecret_done ns sec c :
  writes_secrets ss secrets ns →
  ∃ c', putSecret ss ns sec c = (Done (), c') ∧ same_but_server c c' ∧ spaces (server c') = spaces (server c) ∧
    secrets (server c') = <[(ns, secName sec) := sec]> (secrets (server c)).
Proof.
  intros Hw. unfold putSecret. rw SM_bind_eq. destruct (ss_CreateSecret ss ns sec (server c)) as [o s1] eqn:H1.
  rw (call_eq _ _ o s1) //. destruct (secrets (server c) !! (ns, secName sec)) as [old|] eqn:Hold; cycle 1.
  - pose proof (creates_absent_secret ss secrets ns Hw sec (server c) Hold) as Ho. rewrite H1 in Ho. cbn in Ho. subst o. apply create_secret_ok in H1 as [Hsec Hsp]. by eexists.
  - pose proof (reports_present_secret ss secrets ns Hw sec (server c)) as Ho. rewrite H1 in Ho.
    cbn in Ho. rewrite Ho in H1 |- *; [|by eexists]. apply create_secret_exists in H1 as [Hsec Hsp]. rw SM_bind_eq. destruct (ss_UpdateSecret ss ns sec s1) as [ok s2] eqn:H2.
    rw (call_eq _ _ ok s2) //. pose proof (updates_present_secret ss secrets ns Hw sec s1) as Hok. rewrite H2 Hsec in Hok.
    cbn in Hok. rewrite Hok in H2 |- *; [|by eexists]. apply update_secret_ok in H2 as [Hsec' Hsp']. eexists. split; [done|]. split; [done|]. cbn [server].
    split; [congruence|]. by rw Hsec' Hsec.
Qed.

(** Which of the two secrets a Space needs. *)
Definition needsInCluster (sp : Space) : bool :=
  bool_decide (spAccessScope sp = AccessScopeBoth) || bool_decide (spAccessScope sp = AccessScopeInCluster).
Definition needsExternal (sp : Space) : bool :=
  bool_decide (spAccessScope sp = AccessScopeBoth) || bool_decide (spAccessScope sp = AccessScopeExternal).

(** The Space with the references to the secrets that it needs. *)
Definition with_secrets p (sp : Space) : Space :=
  let sp := if needsInCluster sp then set_incluster (MkSecretReference (prNameSpace p) ("incluster-" +:+ spName sp)) sp else sp in
  if needsExternal sp then set_external (MkSecretReference (prNameSpace p) ("external-" +:+ spName sp)) sp else sp.

(** The secrets that it needs are there, and hold the configurations. *)
Definition has_secrets p (sp : Space) (info : SpaceInfo) (m : gmap (string * string) Secret) : Prop :=
  (needsInCluster sp = true → m !! (prNameSpace p, "incluster-" +:+ spName sp) =
     Some (buildSecret ("incluster-" +:+ spName sp) (get_string (siConfig info) INCLUSTER))) ∧
  (needsExternal sp = true → m !! (prNameSpace p, "external-" +:+ spName sp) =
     Some (buildSecret ("external-" +:+ spName sp) (get_string (siConfig info) EXTERNAL))).

(** The provider gives the configurations that are needed. *)
Definition gives_configs (sp : Space) (info : SpaceInfo) : Prop :=
  (needsInCluster sp = true → get_string (siConfig info) INCLUSTER ≠ "") ∧
  (needsExternal sp = true → get_string (siConfig info) EXTERNAL ≠ "").

(** Only the server and the store of Spaces have changed. *)
Definition same_but_spaces c c' : Prop :=
  providers c' = providers c ∧ providerStore c' = providerStore c ∧ requests c' = requests c ∧
  spaces (server c') = spaces (server c).

Lemma createSpaceSecrets_done p note sp info c :
  (∀ sp c, ∃ st, note sp c = (Done (), MkController (providers c) st (providerStore c) (requests c) (server c))) →
  writes_secrets ss secrets (prNameSpace p) → gives_configs sp info →
  ∃ c', createSpaceSecrets ss p note sp info c = (Done (with_secrets p sp), c') ∧ same_but_spaces c c' ∧
    has_secrets p sp info (secrets (server c')).
Proof.
  intros Hnote Hw [HI HE]. unfold createSpaceSecrets. fold (needsInCluster sp) (needsExternal sp). rw SM_bind_eq.
  unfold with_secrets, has_secrets, same_but_spaces. destruct (needsInCluster sp) eqn:HnI.
  - rw bool_decide_eq_false_2; [|by apply HI]. cbn [negb]. rw SM_bind_eq.
    destruct (putSecret_done (prNameSpace p) (buildSecret ("incluster-" +:+ spName sp) (get_string (siConfig info) INCLUSTER)) c Hw)
      as (c1 & H1 & (Hp1 & _ & Hd1 & Hr1) & Hsp1 & Hsec1). rw H1 SM_bind_eq.
    destruct (Hnote (set_incluster (MkSecretReference (prNameSpace p) ("incluster-" +:+ spName sp)) sp) c1) as [st1 Hn1].
    rw Hn1. cbv beta iota delta [mret SM_ret].
    rw (_ : ∀ r, needsExternal (set_incluster r sp) = needsExternal sp) //. destruct (needsExternal sp) eqn:HnE.
    + rw bool_decide_eq_false_2; [|by apply HE]. cbn [negb]. rw SM_bind_eq. cbn [set_incluster spName].
      match goal with |- context [putSecret ss ?ns ?sec ?c2] => destruct (putSecret_done ns sec c2 Hw)
        as (c3 & H3 & (Hp3 & _ & Hd3 & Hr3) & Hsp3 & Hsec3) end. rw H3 SM_bind_eq.
      match goal with |- context [note ?sp ?c] => destruct (Hnote sp c) as [st2 Hn2] end. rw Hn2.
      eexists. split; [done|]. cbn in *. split; [split_and!; congruence|]. rw Hsec3 Hsec1.
      split; intros _; [|apply lookup_insert_eq]. rw lookup_insert_ne; [apply lookup_insert_eq|]. intros [= Heq].
    + eexists. split; [done|]. cbn in *. split; [split_and!; congruence|]. split; [|done]. intros _. rw Hsec1. apply lookup_insert_eq.
  - cbv beta iota delta [mret SM_ret]. destruct (needsExternal sp) eqn:HnE.
    + rw bool_decide_eq_false_2; [|by apply HE]. cbn [negb]. rw SM_bind_eq.
      destruct (putSecret_done (prNameSpace p) (buildSecret ("external-" +:+ spName sp) (get_string (siConfig info) EXTERNAL)) c Hw)
        as (c1 & H1 & (Hp1 & _ & Hd1 & Hr1) & Hsp1 & Hsec1). rw H1 SM_bind_eq.
      match goal with |- context [note ?sp ?c] => destruct (Hnote sp c) as [st2 Hn2] end. rw Hn2.
      eexists. split; [done|]. cbn in *. split; [split_and!; congruence|]. split; [done|]. intros _. rw Hsec1. apply lookup_insert_eq.
    + eexists. split; [done|]. split; [done|]. done.
Qed.

(** * Events *)

(** The object as it is sent to the server once the physical space is there. *)
Definition ready (sp : Space) : Space :=
  set_phase SpacePhaseReady
    (if negb (containsFinalizer sp spaceFinalizerName)
     then set_finalizers (spFinalizers sp ++ [spaceFinalizerName]) sp else sp).

Lemma with_secrets_same p sp :
  spName (with_secrets p sp) = spName sp ∧ spType (with_secrets p sp) = spType sp ∧
  spDeletionTimestamp (with_secrets p sp) = spDeletionTimestamp sp ∧ spFinalizers (with_secrets p sp) = spFinalizers sp.
Proof. unfold with_secrets. destruct (needsInCluster sp), (needsExternal _); done. Qed.

Lemma ready_same sp :
  spName (ready sp) = spName sp ∧ spDeletionTimestamp (ready sp) = spDeletionTimestamp sp ∧
  spPhase (ready sp) = SpacePhaseReady ∧ containsFinalizer (ready sp) spaceFinalizerName = true ∧
  InClusterSecretRef (ready sp) = InClusterSecretRef sp ∧ ExternalSecretRef (ready sp) = ExternalSecretRef sp.
Proof.
  unfold ready. destruct (containsFinalizer sp spaceFinalizerName) eqn:Hf; cbn [negb]; [done|]. split_and!; try done.
  unfold containsFinalizer. cbn. rw existsb_app. cbn. by rw orb_true_r.
Qed.

Lemma event_added p sp info c :
  spaceStore c !! spaceKeyFunc (prNameSpace p) (spName sp) = Some sp → spType sp = SpaceTypeManaged →
  spDeletionTimestamp sp = false → gives_configs sp info →
  writes_secrets ss secrets (prNameSpace p) →
  takes_update ss spaces (prNameSpace p) (ready (with_secrets p sp)) (server c) →
  ∃ c', processProviderWatchEvent ss p (MkWatchEvent EventAdded info (spName sp)) c = (Done (), c') ∧
    spaces (server c') !! (prNameSpace p, spName sp) = Some (ready (with_secrets p sp)) ∧
    has_secrets p sp info (secrets (server c')).
Proof.
  intros Hsp Hty Hdel Hconf Hw Htakes. unfold processProviderWatchEvent. cbn [weName weType weSpaceInfo]. rw SM_bind_eq.
  cbv beta iota delta [sget]. rw Hsp Hty bool_decide_eq_true_2 //. cbn [negb andb]. unfold signore. rw SM_bind_eq.
  destruct (createSpaceSecrets_done p (modify_space (spaceKeyFunc (prNameSpace p) (spName sp))) sp info c)
    as (c1 & H1 & (Hp1 & Hd1 & Hr1 & Hsp1) & Hsec1); [by intros sp' c'; eexists|done|done|].
  destruct (with_secrets_same p sp) as (Hn & Ht & Hd & Hfin). rw H1 Ht Hty bool_decide_eq_true_2 //. cbn [andb].
  fold (ready (with_secrets p sp)). rw SM_bind_eq. cbv beta iota delta [modify_space sput]. rw SM_bind_eq.
  destruct (ss_UpdateSpace ss (prNameSpace p) (ready (with_secrets p sp)) (server c1)) as [ok s2] eqn:H2.
  rw (call_eq _ _ ok s2) //. pose proof (Htakes (server c1) Hsp1) as Ho.
  rewrite H2 in Ho. cbn in Ho. subst ok. apply update_space_ok in H2 as [Hsp2 Hsec2]. eexists. split; [done|]. cbn [server].
  destruct (ready_same (with_secrets p sp)) as (Hn' & Hd' & _). split; [|by rw Hsec2]. rw Hsp2. unfold put_space.
  rw Hd' Hd Hdel Hn' Hn. apply lookup_insert_eq.
Qed.

(** Deleting the secrets touches no Spaces. *)
Lemma deleteSpaceSecrets_done sp c :
  ∃ s', deleteSpaceSecrets ss sp c = (Done (), MkController (providers c) (spaceStore c) (providerStore c) (requests c) s') ∧
    spaces s' = spaces (server c).
Proof.
  unfold deleteSpaceSecrets. rw SM_bind_eq.
  assert (∀ (ref : option SecretReference) c, ∃ s', (match ref with
    | None => mret ()
    | Some ref => _ ← call (ss_DeleteSecret ss (srNamespace ref) (srName ref)); mret ()
    end : SM C unit) c = (Done (), MkController (providers c) (spaceStore c) (providerStore c) (requests c) s') ∧
    spaces s' = spaces (server c)) as Hdel.
  { intros [ref|] c0; [|exists (server c0); by destruct c0]. rw SM_bind_eq.
    destruct (ss_DeleteSecret ss (srNamespace ref) (srName ref) (server c0)) as [ok s'] eqn:Hd.
    rw (call_eq _ _ ok s') //. exists s'. split; [done|]. by eapply delete_secret_ok. }
  destruct (Hdel (InClusterSecretRef sp) c) as (s1 & -> & Hs1).
  destruct (Hdel (ExternalSecretRef sp) (MkController (providers c) (spaceStore c) (providerStore c) (requests c) s1))
    as (s2 & -> & Hs2). exists s2. split; [done|]. cbn in Hs2. congruence.
Qed.

Lemma event_deleted p sp info c l1 l2 :
  spaceStore c !! spaceKeyFunc (prNameSpace p) (spName sp) = Some sp → spType sp = SpaceTypeManaged →
  spFinalizers sp = l1 ++ spaceFinalizerName :: l2 → spaceFinalizerName ∉ l1 → spaceFinalizerName ∉ l2 →
  takes_update ss spaces (prNameSpace p) (set_phase SpacePhaseNotReady (set_finalizers (l1 ++ l2) sp)) (server c) →
  ∃ c', processProviderWatchEvent ss p (MkWatchEvent EventDeleted info (spName sp)) c = (Done (), c') ∧
    spaces (server c') !! (prNameSpace p, spName sp) =
      if spDeletionTimestamp sp && bool_decide (l1 ++ l2 = []) then None
      else Some (set_phase SpacePhaseNotReady (set_finalizers (l1 ++ l2) sp)).
Proof.
  intros Hsp Hty Hfin Hl1 Hl2 Htakes. unfold processProviderWatchEvent. cbn [weName weType weSpaceInfo]. rw SM_bind_eq.
  cbv beta iota delta [sget]. rw Hsp Hty bool_decide_eq_true_2 //. cbn [negb andb]. rw SM_bind_eq.
  destruct (deleteSpaceSecrets_done sp c) as (s1 & -> & Hs1). rw Hfin removeFinalizer_once //. cbv zeta.
  rw SM_bind_eq. cbv beta iota delta [modify_space sput]. rw SM_bind_eq. cbn [providers spaceStore providerStore requests server].
  set (sp' := set_phase SpacePhaseNotReady _).
  destruct (ss_UpdateSpace ss (prNameSpace p) sp' s1) as [ok s2] eqn:H2. rw (call_eq _ _ ok s2) //.
  pose proof (Htakes s1 Hs1) as Ho. fold sp' in Ho. rewrite H2 in Ho. cbn in Ho. subst ok.
  apply update_space_ok in H2 as [Hsp2 _]. eexists. split; [done|]. cbn [server]. rw Hsp2. unfold put_space, sp'.
  cbn [set_phase set_finalizers spDeletionTimestamp spFinalizers spName]. destruct (_ && _); [apply lookup_delete_eq|apply lookup_insert_eq].
Qed.

(** C18: when the watcher of its provider reports the physical space of a managed Space that
    is not being deleted, with the configurations that the access scope of the Space needs,
    the Space becomes ready, with the finalizer and with references to the secrets that its
    access scope needs, which hold the configurations that the provider gave. When it reports
    that the physical space is gone, the Space, which has the finalizer exactly once, loses it
    and, if it was being deleted and has no other ones, goes. This supposes that the server
    takes the update of the Space (it is there and the object in the store of the informer is
    not outdated) and that it answers the requests about secrets: it creates one that is not
    there, reports one that is, and takes the update of that. *)
Theorem managed_space_lifecycle p sp info c :
  spaceStore c !! spaceKeyFunc (prNameSpace p) (spName sp) = Some sp → spType sp = SpaceTypeManaged →
  (spDeletionTimestamp sp = false → gives_configs sp info → writes_secrets ss secrets (prNameSpace p) →
   takes_update ss spaces (prNameSpace p) (ready (with_secrets p sp)) (server c) →
   ∃ c', processProviderWatchEvent ss p (MkWatchEvent EventAdded info (spName sp)) c = (Done (), c') ∧
     spaces (server c') !! (prNameSpace p, spName sp) = Some (ready (with_secrets p sp)) ∧
     has_secrets p sp info (secrets (server c'))) ∧
  (∀ l1 l2, spFinalizers sp = l1 ++ spaceFinalizerName :: l2 → spaceFinalizerName ∉ l1 → spaceFinalizerName ∉ l2 →
   takes_update ss spaces (prNameSpace p) (set_phase SpacePhaseNotReady (set_finalizers (l1 ++ l2) sp)) (server c) →
   ∃ c', processProviderWatchEvent ss p (MkWatchEvent EventDeleted info (spName sp)) c = (Done (), c') ∧
     spaces (server c') !! (prNameSpace p, spName sp) =
       if spDeletionTimestamp sp && bool_decide (l1 ++ l2 = []) then None
       else Some (set_phase SpacePhaseNotReady (set_finalizers (l1 ++ l2) sp))).
Proof.
  intros Hsp Hty. split; [by apply event_added|]. intros l1 l2 Hfin Hl1 Hl2 Htakes. by apply event_deleted.
Qed.

(** A physical space that the provider reports and for which there is no Space yet gets
    one that is ready but has no references to secrets: the access scope, whose default the
    API server sets, is still empty when the secrets are made. *)
Theorem discovered_space_without_secrets p info name c :
  spaceStore c !! spaceKeyFunc (prNameSpace p) name = None → filterOut p name = false →
  (∀ sp, spName sp = name → (ss_CreateSpace ss (prNameSpace p) sp (server c)).1 = OutcomeOk) →
  ∃ c' sp, processProviderWatchEvent ss p (MkWatchEvent EventAdded info name) c = (Done (), c') ∧
    spaces (server c') !! (prNameSpace p, name) = Some sp ∧ spType sp = SpaceTypeUnmanaged ∧
    spPhase sp = SpacePhaseReady ∧ spAccessScope sp = AccessScopeBoth ∧
    InClusterSecretRef sp = None ∧ ExternalSecretRef sp = None ∧ secrets (server c') = secrets (server c).
Proof.
  intros Hnone Hfilter Hcreates. unfold processProviderWatchEvent. cbn [weName weType weSpaceInfo]. rw SM_bind_eq.
  cbv beta iota delta [sget]. rw Hnone. cbn [negb andb]. rw Hfilter. unfold signore. rw SM_bind_eq.
  unfold createSpaceSecrets. cbn [spAccessScope]. rw SM_bind_eq.
  assert (∀ scope, scope ≠ "" → bool_decide ("" = scope) = false) as Hscope by (intros; by apply bool_decide_eq_false_2).
  rw !Hscope //. cbn [orb]. cbv beta iota delta [mret SM_ret]. rw SM_bind_eq.
  match goal with |- context [call (ss_CreateSpace ss ?ns ?sp)] => set (space := sp);
    destruct (ss_CreateSpace ss ns space (server c)) as [o s1] eqn:H1;
    pose proof (Hcreates space eq_refl) as Ho end.
  rewrite H1 in Ho. cbn in Ho. subst o. rw (call_eq _ _ OutcomeOk s1) //. apply create_space_ok in H1 as [Hsp Hsec].
  eexists _, (defaulted (prNameSpace p) space). split; [done|]. cbn [server]. rw Hsp Hsec.
  split; [apply lookup_insert_eq|]. done.
Qed.

(** * Providers *)

Context (kind_New kubeflex_New kcp_New : gmap string string → option PC) (client_Watch : PC → S → bool).

Lemma setProviderStatus_providers note d status c d' c' :
  (∀ d c, providers (note d c).2 = providers c) →
  setProviderStatus ss note d status c = (Done d', c') → providers c' = providers c ∧ pdName d' = pdName d.
Proof.
  intros Hnote. unfold setProviderStatus. rw SM_bind_eq. specialize (Hnote (set_desc_phase status d) c).
  destruct (note (set_desc_phase status d) c) as [[[]| |] c1]; [|done..]. cbn in Hnote. rw SM_bind_eq.
  destruct (ss_UpdateProviderDesc ss (set_desc_phase status d) (server c1)) as [u s2] eqn:Hu.
  rw (call_eq _ _ u s2) //. destruct u; [|done]. intros [= <- <-]. split; [done|]. by apply update_desc_name in Hu.
Qed.

(** The loop over the Spaces leaves the providers, and finds the namespace not empty if there
    is a managed Space in it. *)
Lemma releaseSpaces_providers ns l b c :
  ∃ b' c', releaseSpaces ss ns l b c = (Done b', c') ∧ providers c' = providers c ∧
    (b = false ∨ (∃ key sp, (key, sp) ∈ l ∧ spNamespace sp = ns ∧ spType sp = SpaceTypeManaged) → b' = false).
Proof.
  revert b c. induction l as [|[key sp] l IH]; intros b c; cbn [releaseSpaces].
  { eexists _, _. split_and!; [done|done|]. intros [?|(? & ? & []%not_elem_of_nil & _)]; done. }
  case_bool_decide as Hns; [case_bool_decide as Hty|].
  - rw SM_bind_eq. cbv beta iota delta [modify_space sput]. rw SM_bind_eq.
    match goal with |- context [call (ss_UpdateSpace ss ns ?x) ?c1] =>
      destruct (ss_UpdateSpace ss ns x (server c1)) as [ok s2] eqn:Hu; rw (call_eq _ c1 ok s2) // end.
    match goal with |- context [releaseSpaces ss ns l false ?c2] => destruct (IH false c2) as (b' & c' & H1 & H2 & H3) end.
    exists b', c'. split_and!; [done|done|]. intros _. apply H3. by left.
  - rw SM_bind_eq. destruct (ss_DeleteSpace ss ns (spName sp) (server c)) as [ok s2] eqn:Hu. rw (call_eq _ c ok s2) //.
    match goal with |- context [releaseSpaces ss ns l ?b2 ?c2] => destruct (IH b2 c2) as (b' & c' & H1 & H2 & H3) end.
    exists b', c'. split_and!; [done|done|]. intros [-> |(k & s & [[= -> ->]|Hin]%elem_of_cons & ? & ?)]; [|done|].
    + apply H3. left. by destruct ok.
    + apply H3. right. by exists k, s.
  - destruct (IH b c) as (b' & c' & H1 & H2 & H3). exists b', c'. split_and!; [done|done|].
    intros [?|(k & s & [[= -> ->]|Hin]%elem_of_cons & ? & ?)]; [by apply H3; left|done|]. apply H3. right. by exists k, s.
Qed.

(** A provider whose watcher is not nil is not watched again. *)
Lemma handleAdd_keeps key d c c' p :
  providers c !! pdName d = Some p → is_Some (providerWatcher p) →
  handleAdd ss kind_New kubeflex_New kcp_New client_Watch key d c = (Done (), c') → providers c' = providers c.
Proof.
  intros Hp [w Hw]. unfold handleAdd. rw SM_bind_eq. cbv beta iota delta [sget]. destruct (_ && _); [by intros [= <-]|].
  rw SM_bind_eq. destruct (setProviderStatus ss _ d _ c) as [[d1| |] c1] eqn:H1; [|done..].
  apply setProviderStatus_providers in H1 as [Hp1 Hn1]; [|done]. rw SM_bind_eq. unfold CreateProvider. rw SM_bind_eq.
  cbv beta iota delta [sget]. rw Hp1 Hn1 Hp. cbv beta iota delta [mret SM_ret]. rw SM_bind_eq.
  destruct (ss_CreateNamespace ss (ProviderNS (pdName d)) (server c1)) as [o s2] eqn:H2. rw (call_eq _ _ o s2) //.
  assert (∀ c2, providers c2 = providers c → (_ ← StartDiscovery client_Watch p;
    _ ← setProviderStatus ss (λ _, mret ()) d1 SpaceProviderDescPhaseReady; mret ()) c2 = (Done (), c') →
    providers c' = providers c) as Hrest.
  { intros c2 Hc2. rw SM_bind_eq. unfold StartDiscovery. rw Hw. cbv beta iota delta [mret SM_ret]. rw SM_bind_eq.
    destruct (setProviderStatus ss _ d1 _ c2) as [[d3| |] c3] eqn:H3; [|done..].
    apply setProviderStatus_providers in H3 as [Hp3 _]; [|done]. intros [= <-]. congruence. }
  destruct o; [by apply Hrest|by apply Hrest|done..].
Qed.

(** When the description of a provider is deleted while there are managed Spaces of it,
    the provider stays, with its watcher stopped; if the description is created again, the
    provider is reported as ready, but its physical spaces are not watched any more. *)
Theorem readded_provider_unwatched name p k sp c :
  providers c !! name = Some p → prName p = name → providerWatcher p = Some true →
  spaceStore c !! k = Some sp → spNamespace sp = ProviderNS name → spType sp = SpaceTypeManaged →
  ∃ c1, handleDelete ss name c = (Done (), c1) ∧ providers c1 !! name = Some (set_watcher false p) ∧
    ∀ key d c2 c3, pdName d = name → providers c2 = providers c1 →
      handleAdd ss kind_New kubeflex_New kcp_New client_Watch key d c2 = (Done (), c3) →
      providers c3 !! name = Some (set_watcher false p).
Proof.
  intros Hp Hname Hw Hsp Hns Hty. unfold handleDelete. rw SM_bind_eq. cbv beta iota delta [sget]. rw Hp SM_bind_eq.
  unfold signore, StopDiscovery. rw Hw. cbv beta iota delta [set_providers sput]. rw SM_bind_eq.
  cbv beta iota delta [sget]. cbn [spaceStore]. rw SM_bind_eq.
  match goal with |- context [releaseSpaces ss ?ns ?l true ?c1] =>
    destruct (releaseSpaces_providers ns l true c1) as (b' & c' & -> & Hp' & Hb) end.
  rw Hb. 2:{ right. exists k, sp. split; [by apply elem_of_map_range|done]. }
  eexists. split; [done|]. cbn [providers] in Hp'.
  assert (providers c' !! name = Some (set_watcher false p)) as Hstopped.
  { rw Hp' Hname. by rw lookup_alter_eq Hp. }
  split; [done|]. intros key d c2 c3 Hd Hc2 Hadd.
  rw (handleAdd_keeps key d c2 c3 (set_watcher false p)); [by rw Hc2|by rw Hd Hc2|by eexists|done].
Qed.
End facts.
