(* ===== verification/SpaceProviders.v ===== *)
(** The space providers (space-framework/space-provider): the clients by which the space
    manager creates and deletes physical spaces and learns which there are.  The watchers of
    kind clusters and of KubeFlex control planes poll, and send the difference with what they
    saw before; the watcher of kcp workspaces follows an informer on LogicalClusters.

    The libraries of kind, KubeFlex and kcp and the parsing and printing of kubeconfigs are
    parameters.  The events that a watcher sends are those that the space manager processes
    (SpaceManager.v). *)

From S2P Require Import Prelude GoStrings Types KbUser SyncerConfig Effects Base64 SpaceManager.

Definition PROVIDER_CONFIG_KEY : string := "kubeconfig".
Definition deletedEvent (name : string) : WatchEvent := MkWatchEvent EventDeleted (MkSpaceInfo "" ∅) name.

(** * Watchers that poll *)

Section polling.
Context `{MapRange}.

(** What a watcher does when its timer fires, with the clusters that it saw before: the
    events, in order, and the clusters seen now.  [None] is an error. *)
Definition poll (names : option (list string)) (Get : string → option SpaceInfo) (setClusters : gset string)
  : list WatchEvent * gset string :=
  match names with
  | None => ([], setClusters)
  | Some list =>
      let newSetClusters : gset string := list_to_set list in
      let '(events, newSetClusters) :=
        for_each (set_range (newSetClusters ∖ setClusters)) (λ name '(events, newSetClusters),
          match Get name with
          | None => (events, newSetClusters ∖ {[name]})
          | Some spaceInfo => (events ++ [MkWatchEvent EventAdded spaceInfo name], newSetClusters)
          end) ([], newSetClusters) in
      let events :=
        for_each (set_range (setClusters ∖ newSetClusters)) (λ cl events, events ++ [deletedEvent cl]) events in
      (events, newSetClusters)
  end.

(** ** kind *)

(** The kubeconfig of a cluster, by the library of kind *)
Definition KindClusterProvider_Get (KubeConfig : string → option string) (spaceName : string) : option SpaceInfo :=
  cfg ← KubeConfig spaceName;
  Some (MkSpaceInfo spaceName {[INCLUSTER := cfg; EXTERNAL := cfg]}).

Definition KindClusterProvider_ListSpacesNames (kindList : option (list string)) : option (list string) :=
  list ← kindList; Some ([] ++ list).

(** A cluster without a kubeconfig is listed with an empty info. *)
Definition KindClusterProvider_ListSpaces (kindList : option (list string)) (KubeConfig : string → option string)
  : option (list SpaceInfo) :=
  spaceNames ← KindClusterProvider_ListSpacesNames kindList;
  Some (for_each spaceNames (λ spaceName l,
    l ++ [default (MkSpaceInfo "" ∅) (KindClusterProvider_Get KubeConfig spaceName)]) []).

Definition KindWatcher_tick (kindList : option (list string)) (KubeConfig : string → option string)
  (setClusters : gset string) : list WatchEvent * gset string :=
  poll (KindClusterProvider_ListSpacesNames kindList) (KindClusterProvider_Get KubeConfig) setClusters.

(** ** KubeFlex *)

(** The content of an unstructured object *)
Inductive UValue : Type :=
| UMap (m : gmap string UValue)
| USlice (l : list UValue)
| UString (s : string)
| UOther.

(** unstructured.NestedMap and NestedSlice with one field: found or not, or an error *)
Definition NestedMap (m : gmap string UValue) (field : string) : Lookup (gmap string UValue) :=
  match m !! field with None => NotFound | Some (UMap m) => Found m | Some _ => LookupError "not a map" end.
Definition NestedSlice (m : gmap string UValue) (field : string) : Lookup (list UValue) :=
  match m !! field with None => NotFound | Some (USlice l) => Found l | Some _ => LookupError "not a slice" end.

Definition isUString (v : UValue) (s : string) : bool :=
  match v with UString s' => bool_decide (s' = s) | _ => false end.

Definition isReadyCondition (item : UValue) : bool :=
  match item with
  | UMap cond =>
      match cond !! "reason" with
      | Some reason =>
          isUString reason "Available" &&
          match cond !! "type" with Some type1 => isUString type1 "Ready" | None => false end
      | None => false
      end
  | _ => false
  end.

Definition isSpaceReady (unspace : gmap string UValue) : bool :=
  match NestedMap unspace "status" with
  | Found status =>
      match NestedSlice status "conditions" with
      | Found conditions => existsb isReadyCondition conditions
      | NotFound | LookupError _ => false
      end
  | NotFound | LookupError _ => false
  end.

(** The names of the control planes that are ready.  [None] is a panic; inside, [None] is an
    error.  Missing metadata end the list without an error. *)
Fixpoint readyNames (items : list (gmap string UValue)) (names : list string) : option (option (list string)) :=
  match items with
  | [] => Some (Some names)
  | unspace :: items =>
      if isSpaceReady unspace then
        match NestedMap unspace "metadata" with
        | Found metadata =>
            match metadata !! "name" with
            | Some (UString name) => readyNames items (names ++ [name])
            | _ => None
            end
        | NotFound => Some (Some [])
        | LookupError _ => Some None
        end
      else readyNames items names
  end.

Definition KflexClusterProvider_ListSpacesNames (listSpaces : option (list (gmap string UValue)))
  : option (option (list string)) :=
  match listSpaces with
  | None => Some None
  | Some items => readyNames items []
  end.

(** The secret is that with the name admin-kubeconfig in the namespace that is given; data
    that cannot be decoded are taken as they are. *)
Definition KflexClusterProvider_Get (GetSecret : string → string → option Secret) (lcName : string) : option SpaceInfo :=
  secret ← GetSecret (lcName +:+ "-system") "admin-kubeconfig";
  let decoded (key : string) : string :=
    let data := get_string (secData secret) key in default data (DecodeString data) in
  Some (MkSpaceInfo lcName {[EXTERNAL := decoded "kubeconfig"; INCLUSTER := decoded "kubeconfig-incluster"]}).

Definition KflexClusterProvider_ListSpaces (listSpaces : option (list (gmap string UValue)))
  (GetSecret : string → string → option Secret) : option (list SpaceInfo) :=
  names ← KflexClusterProvider_ListSpacesNames listSpaces;
  Some (for_each (default [] names) (λ lcName l,
    match KflexClusterProvider_Get GetSecret lcName with None => l | Some spInfo => l ++ [spInfo] end) []).

Definition KflexWatcher_tick (listSpaces : option (list (gmap string UValue)))
  (GetSecret : string → string → option Secret) (setClusters : gset string) : option (list WatchEvent * gset string) :=
  names ← KflexClusterProvider_ListSpacesNames listSpaces;
  Some (poll names (KflexClusterProvider_Get GetSecret) setClusters).

(** ** What the events say *)

(** The clusters that a receiver of events has been told of. *)
Definition track (events : list WatchEvent) (known : gset string) : gset string :=
  for_each events (λ ev known,
    match weType ev with
    | EventAdded => {[weName ev]} ∪ known
    | EventDeleted => known ∖ {[weName ev]}
    | EventModified | EventBookmark | EventError => known
    end) known.

Arguments track : simpl never.

Lemma track_app l1 l2 known : track (l1 ++ l2) known = track l2 (track l1 known).
Proof. apply for_each_app. Qed.

(** The loop over the new clusters. *)
Lemma poll_new Get (new : gset string) (fresh : list string) known :
  NoDup fresh →
  let res := for_each fresh (λ name '(events, new),
      match Get name with
      | None => (events, new ∖ {[name]})
      | Some spaceInfo => (events ++ [MkWatchEvent EventAdded spaceInfo name], new)
      end) ([], new) in
  (∀ ev, ev ∈ res.1 ↔ ∃ name info, name ∈ fresh ∧ Get name = Some info ∧ ev = MkWatchEvent EventAdded info name) ∧
  NoDup (weName <$> res.1) ∧
  (∀ name, name ∈ res.2 ↔ name ∈ new ∧ (name ∈ fresh → is_Some (Get name))) ∧
  (∀ name, name ∈ track res.1 known ↔ name ∈ known ∨ name ∈ fresh ∧ is_Some (Get name)).
Proof.
  cbv zeta. apply (for_each_ind (λ (seen : list string) (res : list WatchEvent * gset string), NoDup seen →
    (∀ ev, ev ∈ res.1 ↔ ∃ name info, name ∈ seen ∧ Get name = Some info ∧ ev = MkWatchEvent EventAdded info name) ∧
    NoDup (weName <$> res.1) ∧
    (∀ name, name ∈ res.2 ↔ name ∈ new ∧ (name ∈ seen → is_Some (Get name))) ∧
    (∀ name, name ∈ track res.1 known ↔ name ∈ known ∨ name ∈ seen ∧ is_Some (Get name)))).
  - intros _. cbn. split_and!; [set_solver|constructor|set_solver|set_solver].
  - intros seen name todo [events new1] _ IH [Hnd [Hdis _]]%NoDup_app. cbn in *. destruct (IH Hnd) as (Hev & Hnd1 & Hnew & Htr).
    assert (name ∉ seen) as Hname by set_solver.
    destruct (Get name) as [info|] eqn:Hget; cbn; split_and!.
    + intros ev. rw elem_of_app list_elem_of_singleton Hev. set_solver.
    + rw fmap_app. apply NoDup_app. split_and!; [done| |apply NoDup_singleton].
      intros n (ev & -> & (name' & info' & Hin & _ & ->)%Hev)%list_elem_of_fmap. cbn. set_solver.
    + intros n. rw Hnew. set_solver.
    + intros n. rw track_app. cbv [track for_each foldl weType weName]. rw elem_of_union Htr elem_of_singleton elem_of_app list_elem_of_singleton.
      destruct (decide (n = name)) as [-> |Hne]; [|set_solver]. rw Hget. split; [|by left]. right. split; [by right|by eexists].
    + intros ev. rw Hev. set_solver.
    + done.
    + intros n. rw elem_of_difference Hnew elem_of_singleton elem_of_app list_elem_of_singleton.
      destruct (decide (n = name)) as [-> |Hne]; [|set_solver]. rw Hget. split; [set_solver|].
      intros [_ Hsome]. destruct Hsome as [? [=]]. by right.
    + intros n. rw Htr elem_of_app list_elem_of_singleton. destruct (decide (n = name)) as [-> |Hne]; [|set_solver].
      rw Hget. split; [set_solver|]. intros [?|[_ [? [=]]]]. by left.
Qed.

Lemma track_deleted l known : track (deletedEvent <$> l) known = known ∖ list_to_set l.
Proof.
  revert known. induction l as [|n l IH]; intros known; [cbn; set_solver|].
  change (deletedEvent <$> n :: l) with ([deletedEvent n] ++ (deletedEvent <$> l)). rw track_app IH.
  cbv [track for_each foldl deletedEvent weType weName]. set_solver.
Qed.

(** C19: whenever a watcher that polls can list the clusters, the clusters that it counts as
    seen are then those that are listed and were seen before or whose configuration can be
    had; its events, one per cluster, take a receiver from what was seen before to that; each
    new cluster comes with its configuration; and a failed list changes and reports nothing. *)
Theorem poll_reports_difference names Get known events known' :
  poll names Get known = (events, known') →
  track events known = known' ∧ NoDup (weName <$> events) ∧
  (∀ ev, ev ∈ events → weType ev = EventAdded ∧ weName ev ∉ known ∧ Get (weName ev) = Some (weSpaceInfo ev) ∨
     weType ev = EventDeleted ∧ weName ev ∈ known) ∧
  match names with
  | Some list => ∀ name, name ∈ known' ↔ name ∈ list ∧ (name ∈ known ∨ is_Some (Get name))
  | None => events = [] ∧ known' = known
  end.
Proof.
  destruct names as [list|]; cbn; [|by intros [= <- <-]; split_and!; [done|apply NoDup_nil_2|set_solver|done|done]].
  set (new := list_to_set list). set (fresh := set_range (new ∖ known)).
  assert (∀ name, name ∈ fresh ↔ name ∈ list ∧ name ∉ known) as Hfresh.
  { intros name. unfold fresh, new. rw elem_of_set_range elem_of_difference elem_of_list_to_set. done. }
  destruct (poll_new Get new fresh known) as (Hev & Hnd & Hnew & Htr); [apply NoDup_set_range|].
  destruct (for_each fresh _ ([], new)) as [added new']. cbn [fst snd] in *.
  set (gone := set_range (known ∖ new')). intros [= <- <-]. rw for_each_map.
  assert (∀ name, name ∈ gone ↔ name ∈ known ∧ name ∉ new') as Hgone.
  { intros name. unfold gone. by rw elem_of_set_range elem_of_difference. }
  assert (∀ name, name ∈ new' ↔ name ∈ list ∧ (name ∈ known ∨ is_Some (Get name))) as Hspec.
  { intros name. rw Hnew Hfresh. unfold new. rw elem_of_list_to_set. clear.
    destruct (decide (name ∈ known)), (decide (name ∈ list)); tauto. }
  split_and!; [| | |done].
  - rw track_app track_deleted. apply set_eq. intros name.
    rw elem_of_difference elem_of_list_to_set Htr Hgone Hspec Hfresh. clear.
    destruct (decide (name ∈ known)), (decide (name ∈ list)); tauto.
  - rw fmap_app. apply NoDup_app. split_and!; [done| |].
    + intros name (ev & -> & (n & info & Hn & _ & ->)%Hev)%list_elem_of_fmap. cbn.
      rw -list_fmap_compose list_fmap_id. apply Hfresh in Hn as [_ Hn]. by intros [Hk _]%Hgone.
    + rw -list_fmap_compose list_fmap_id. apply NoDup_set_range.
  - intros ev [(n & info & Hn & Hget & ->)%Hev|(n & -> & Hn)%list_elem_of_fmap]%elem_of_app; [left|right].
    + apply Hfresh in Hn as [_ Hn]. done.
    + apply Hgone in Hn as [Hn _]. done.
Qed.
End polling.

(** * kcp *)

(** strings.Join and strings.ReplaceAll for a non-empty [old] *)
Fixpoint str_Join (l : list string) (sep : string) : string :=
  match l with
  | [] => ""
  | [s] => s
  | s :: l => s +:+ sep +:+ str_Join l sep
  end.
Definition str_ReplaceAll (s old new : string) : string := str_Join (str_Split s old) new.

(** The parts of a kubeconfig that are touched: the server of each cluster, beside the rest
    of it; a pointer to a cluster or a context may be nil. *)
Record KubeConfig (Cl Cx Rest : Type) : Type := MkKubeConfig {
  kcClusters : gmap string (string * Cl);
  kcContexts : gmap string (option Cx);
  kcCurrentContext : string;
  kcRest : Rest
}.
Arguments MkKubeConfig {_ _ _} _ _ _ _.
Arguments kcClusters {_ _ _} _.
Arguments kcContexts {_ _ _} _.
Arguments kcCurrentContext {_ _ _} _.
Arguments kcRest {_ _ _} _.

(** The server of the space with the name, or with the full path; [None] is a panic. *)
Definition buildRawConfig {Cl Cx Rest} (baseRaw : KubeConfig Cl Cx Rest) (spaceName : string)
  : option (KubeConfig Cl Cx Rest) :=
  let main := "root" in
  let delimiter := ":" in
  '(server, cluster) ← kcClusters baseRaw !! main;
  let server := if HasPrefix spaceName (main +:+ delimiter) then str_ReplaceAll server main spaceName
                else str_ReplaceAll server main (main +:+ delimiter +:+ spaceName) in
  Some (MkKubeConfig {[main := (server, cluster)]} {[main := mjoin (kcContexts baseRaw !! main)]} main (kcRest baseRaw)).

Definition getClusterPath (parent : string) : string := if bool_decide (parent = "") then "root" else parent.

(** Errors of creation other than that there is one already *)
Definition KcpClusterProvider_Create (outcome : Outcome) : bool :=
  match outcome with OutcomeOk | OutcomeExists => true | OutcomeMissing | OutcomeError => false end.

(** What [New] takes from the secret of the provider; making the clients from the first
    configuration may fail. *)
Definition KcpClusterProvider_New (make_clients : string → bool) (configStrs : gmap string string)
  : option (string * string) :=
  let config := get_string configStrs PROVIDER_CONFIG_KEY in
  '(inConfig, externalConfig) ←
    match configStrs !! INCLUSTER with
    | Some inclusterConfig => Some (inclusterConfig, config)
    | None => externalConfig ← configStrs !! EXTERNAL; Some (config, externalConfig)
    end;
  if make_clients config then Some (inConfig, externalConfig) else None.

Record LogicalCluster : Set := MkLogicalCluster {
  lcPath : option string;
  lcOwner : option string;
  lcPhase : string
}.
Definition LogicalClusterPhaseReady : string := "Ready".

(** The key, the path, and the name of the owner *)
Record KcpItem : Set := MkKcpItem { kiKey : string; kiPath : string; kiOwner : string }.

(** An object that is not a LogicalCluster, a tombstone for one, is ignored. *)
Definition kcp_enqueue (key : option string) (obj : option LogicalCluster) : list KcpItem :=
  match key, obj with
  | Some key, Some lc =>
      match lcPath lc, lcOwner lc with Some path, Some owner => [MkKcpItem key path owner] | _, _ => [] end
  | _, _ => []
  end.

(** The cache of the provider, and the events that were sent. *)
Record KcpState : Type := MkKcpState {
  workspaces : gmap string string;
  kcpEvents : list WatchEvent
}.

(** The names of the owners of the workspaces in the cache *)
Definition cached_names (owner_of : string → string) (m : gmap string string) : gset string := set_map owner_of (dom m).

(** The events of the steps take a receiver to the names of the owners of the workspaces. *)
Definition kcp_in_step (owner_of : string → string) (k : KcpState) : Prop :=
  track (kcpEvents k) ∅ = cached_names owner_of (workspaces k).

Lemma in_step_added owner_of k path phase info :
  kcp_in_step owner_of k →
  kcp_in_step owner_of (MkKcpState (<[path := phase]> (workspaces k)) (kcpEvents k ++ [MkWatchEvent EventAdded info (owner_of path)])).
Proof.
  unfold kcp_in_step, cached_names. cbn [workspaces kcpEvents]. rw track_app. intros ->.
  cbv [track for_each foldl weType weName]. set_solver.
Qed.

Lemma in_step_deleted owner_of `{!Inj (=) (=) owner_of} k path :
  kcp_in_step owner_of k →
  kcp_in_step owner_of (MkKcpState (delete path (workspaces k)) (kcpEvents k ++ [deletedEvent (owner_of path)])).
Proof.
  unfold kcp_in_step, cached_names. cbn [workspaces kcpEvents]. rw track_app. intros ->.
  cbv [track for_each foldl deletedEvent weType weName]. rw dom_delete_L. apply set_eq. intros n.
  rw elem_of_difference !elem_of_map elem_of_singleton. split.
  - intros [(x & -> & Hx) Hne]. exists x. set_solver.
  - intros (x & -> & Hx). set_solver.
Qed.

Section kcp.
Context {Cl Cx Rest : Type}.
Context (ParseConfig : string → option (KubeConfig Cl Cx Rest)) (WriteConfig : KubeConfig Cl Cx Rest → option string).
Context (inConfig externalConfig : string).
Abbreviation M := (SM KcpState).

Definition send (ev : WatchEvent) : M unit := sput (λ k, MkKcpState (workspaces k) (kcpEvents k ++ [ev])).
Definition set_workspaces (f : gmap string string → gmap string string) : M unit :=
  sput (λ k, MkKcpState (f (workspaces k)) (kcpEvents k)).

Definition GetBasedOnConf (spaceName cfgString : string) : M string :=
  match ParseConfig cfgString with
  | None => sfail "failed to get config for workspace"
  | Some cfg =>
      match buildRawConfig cfg spaceName with
      | None => spanic
      | Some cfg => match WriteConfig cfg with None => sfail "failed to write workspace config" | Some s => mret s end
      end
  end.

Definition KcpClusterProvider_Get (spaceName : string) : M SpaceInfo :=
  inCfg ← GetBasedOnConf spaceName inConfig;
  externalCfg ← GetBasedOnConf spaceName externalConfig;
  mret (MkSpaceInfo spaceName {[INCLUSTER := inCfg; EXTERNAL := externalCfg]}).

(** The space is added when its LogicalCluster is ready, and deleted when it is not any more. *)
Definition kcp_handleAdd (lc : LogicalCluster) (item : KcpItem) : M unit :=
  ok ← sget (λ k, bool_decide (is_Some (workspaces k !! kiPath item)));
  let isReady := bool_decide (lcPhase lc = LogicalClusterPhaseReady) in
  if negb ok && isReady then
    signore (
      spaceInfo ← KcpClusterProvider_Get (kiPath item);
      _ ← set_workspaces <[kiPath item := lcPhase lc]>;
      send (MkWatchEvent EventAdded spaceInfo (kiOwner item)))
  else if ok && negb isReady then
    _ ← set_workspaces (delete (kiPath item));
    match lcOwner lc with
    | None => spanic
    | Some owner => send (deletedEvent owner)
    end
  else mret ().

Definition kcp_handleDelete (item : KcpItem) : M unit :=
  _ ← set_workspaces (delete (kiPath item));
  send (deletedEvent (kiOwner item)).

(** The store of the informer by key *)
Definition kcp_process (store : gmap string LogicalCluster) (item : KcpItem) : M unit :=
  match store !! kiKey item with
  | None => kcp_handleDelete item
  | Some lc => kcp_handleAdd lc item
  end.

(** * What kcp reports *)

Lemma GetBasedOnConf_same name cfg k : (GetBasedOnConf name cfg k).2 = k.
Proof using Type.
  unfold GetBasedOnConf. destruct (ParseConfig cfg); [|done]. destruct (buildRawConfig _ _); [|done]. by destruct (WriteConfig _).
Qed.

Lemma kcp_Get_same name k : (KcpClusterProvider_Get name k).2 = k.
Proof using Type.
  unfold KcpClusterProvider_Get. rw SM_bind_eq. pose proof (GetBasedOnConf_same name inConfig k) as H1.
  destruct (GetBasedOnConf name inConfig k) as [[a| |] k1]; [|done..]. cbn in H1. subst k1. rw SM_bind_eq.
  pose proof (GetBasedOnConf_same name externalConfig k) as H2.
  by destruct (GetBasedOnConf name externalConfig k) as [[b| |] k2].
Qed.

(** As long as no two workspaces have owners of the same name, the events of the watcher of
    kcp take a receiver, after every item that it processes, to exactly the workspaces that it
    has in its cache, which are ready. *)
Theorem kcp_watcher_in_step owner_of store item k k' res :
  Inj (=) (=) owner_of → kiOwner item = owner_of (kiPath item) →
  (∀ lc, store !! kiKey item = Some lc → lcOwner lc = Some (kiOwner item)) →
  kcp_in_step owner_of k → kcp_process store item k = (res, k') →
  kcp_in_step owner_of k' ∧
  (res = Done () → ∀ lc, store !! kiKey item = Some lc → is_Some (workspaces k' !! kiPath item) → lcPhase lc = LogicalClusterPhaseReady).
Proof using Type.
  intros Hinj Ho Hlc Hk. unfold kcp_process. destruct (store !! kiKey item) as [lc|] eqn:Hst.
  2:{ intros [= <- <-]. split; [|done]. rw Ho. by apply in_step_deleted. }
  specialize (Hlc lc eq_refl). unfold kcp_handleAdd. rw SM_bind_eq. cbv beta iota delta [sget].
  case_bool_decide as Hin; case_bool_decide as Hr; cbn [negb andb].
  - intros [= <- <-]. split; [done|]. by intros _ ? [= <-].
  - rw SM_bind_eq. cbv beta iota delta [set_workspaces sput]. rw Hlc. intros [= <- <-].
    cbn [workspaces kcpEvents]. rw Ho. split; [by apply in_step_deleted|]. intros _ lc' [= <-]. rw lookup_delete_eq. by intros [? [=]].
  - unfold signore. rw SM_bind_eq. pose proof (kcp_Get_same (kiPath item) k) as Hsame.
    destruct (KcpClusterProvider_Get (kiPath item) k) as [[info| |] k1]; cbn in Hsame; subst k1.
    + intros [= <- <-]. rw Ho. split; [by apply in_step_added|]. by intros _ ? [= <-].
    + intros [= <- <-]. split; [done|]. by intros _ ? [= <-].
    + intros [= <- <-]. split; [done|]. by intros _ ? [= <-].
  - intros [= <- <-]. split; [done|]. by intros _ lc' [= <-] ?.
Qed.

(** Two workspaces below different parents can have owners of the same name: deleting one
    reports the deletion of a space of that name, although the other one is still there. *)
Theorem kcp_same_name_deleted store item path k :
  store !! kiKey item = None → path ≠ kiPath item → is_Some (workspaces k !! path) →
  ∃ k', kcp_process store item k = (Done (), k') ∧ is_Some (workspaces k' !! path) ∧
    kiOwner item ∉ track (kcpEvents k') ∅.
Proof using Type.
  intros Hst Hne Hk. unfold kcp_process. rw Hst. eexists. split; [done|]. cbn [workspaces kcpEvents].
  split; [by rw lookup_delete_ne|]. rw track_app. cbv [track for_each foldl deletedEvent weType weName]. set_solver.
Qed.
End kcp.

(** The server of a space, if the name of the root occurs in that of the root at the end only. *)
Theorem buildRawConfig_server {Cl Cx Rest} (cfg : KubeConfig Cl Cx Rest) host cl space :
  kcClusters cfg !! "root" = Some (host +:+ "root", cl) → str_Cut (host +:+ "root") "root" = Some (host, "") →
  HasPrefix space "root:" = false →
  ∃ cfg', buildRawConfig cfg space = Some cfg' ∧ kcClusters cfg' = {["root" := (host +:+ "root:" +:+ space, cl)]} ∧
    kcCurrentContext cfg' = "root".
Proof.
  intros Hc Hcut Hp. unfold buildRawConfig. rw Hc. cbn [mbind option_bind]. rw (Hp : HasPrefix space ("root" +:+ ":") = false).
  eexists. split; [done|]. cbn [kcClusters kcCurrentContext]. split; [|done].
  assert (∀ new, str_ReplaceAll (host +:+ "root") "root" new = host +:+ new) as ->; [|done].
  intros new. unfold str_ReplaceAll, str_Split. destruct (String.length (host +:+ "root")) as [|[|n]] eqn:Hl.
  - rewrite str_length_app in Hl. cbn in Hl. lia.
  - rewrite str_length_app in Hl. cbn in Hl. lia.
  - cbn [str_SplitN]. rw Hcut. cbn [str_Join]. destruct n; cbn; by rw str_app_nil.
Qed.

(** But every occurrence is replaced, also one in the name of the host. *)
Lemma buildRawConfig_host_replaced :
  (kcClusters <$> buildRawConfig (MkKubeConfig {["root" := ("https://root.example/clusters/root", ())]} ∅ "base" ()
     : KubeConfig unit unit unit) "edge")
  = Some {["root" := ("https://root:edge.example/clusters/root:edge", ())]}.
Proof. by vm_compute. Qed.
