(* ===== verification/SpaceClient.v ===== *)
(** The client library of the space framework (space-framework/pkg/msclientlib): it gives the
    configuration by which a space is reached, from the secret to which the Space object
    refers, and keeps those of the Spaces that are ready.

    The API server of the space manager, the parsing of a kubeconfig, which ends the process
    when it fails, and the splitting of keys are parameters. *)

From S2P Require Import Prelude GoStrings KbUser Effects Base64 SpaceManager SpaceManagerFacts.

Definition defaultProviderNs : string := "spaceprovider-default".
Definition refAnnotationKey : string := "space-framework.io/service-provider-reference".
Definition CUBEKONFIG_KEY : string := "kubeconfig".

Record multiSpaceClient (Config : Type) : Type := MkMultiSpaceClient {
  configs : gmap string Config;
  refToSpace : gmap string string
}.
Arguments MkMultiSpaceClient {_} _ _.
Arguments configs {_} _.
Arguments refToSpace {_} _.

Definition NewMultiSpace {Config} : multiSpaceClient Config := MkMultiSpaceClient ∅ ∅.

Definition namespaceKey (name ns : string) : string := ns +:+ "/" +:+ name.

Section client.
Context `{MapRange} {Config : Type}.
Context (externalAccess : bool).
(** Spaces(ns).Get and Secrets(ns).Get, which may fail *)
Context (GetSpace : string → string → option Space) (GetSecret : string → string → option Secret).
Context (RESTConfigFromKubeConfig : string → option Config).
Context (SplitMetaNamespaceKey : string → option (string * string)).
Abbreviation MCC := (multiSpaceClient Config).
Abbreviation M := (SM MCC).

(** A panic stands for the end of the process. *)
Definition getRestConfigFromSecret (space : Space) : M Config :=
  match (if externalAccess then ExternalSecretRef space else InClusterSecretRef space) with
  | None => sfail "missing secret reference for space"
  | Some secretRef =>
      match GetSecret (srNamespace secretRef) (srName secretRef) with
      | None => sfail "failed to get secret"
      | Some secret =>
          match secData secret !! CUBEKONFIG_KEY with
          | None => sfail "secret doesn't have kubeconfig data"
          | Some kubeconfigData =>
              match DecodeString kubeconfigData with
              | None => sfail "illegal base64 data"
              | Some kubeconfigBytes =>
                  match RESTConfigFromKubeConfig kubeconfigBytes with
                  | None => spanic
                  | Some restConfig => mret restConfig
                  end
              end
          end
      end
  end.

Definition set_config (key : string) (config : Config) : M unit :=
  sput (λ m : MCC, MkMultiSpaceClient (<[key := config]> (configs m)) (refToSpace m)).

Definition getFromServer (name namespace : string) : M Config :=
  match GetSpace namespace name with
  | None => sfail "failed to get space"
  | Some space =>
      if negb (bool_decide (spPhase space = SpacePhaseReady)) then sfail "space is not ready"
      else
        restConfig ← getRestConfigFromSecret space;
        _ ← set_config (spName space) restConfig;
        mret restConfig
  end.

Definition ConfigForSpace (name providerNS : string) : M Config :=
  let namespace := if negb (bool_decide (providerNS = "")) then providerNS else defaultProviderNs in
  let key := namespaceKey name namespace in
  config ← sget (λ m : MCC, configs m !! key);
  match config with
  | Some config => mret config
  | None => getFromServer name namespace
  end.

(** The namespace and the name *)
Definition getSpaceNameByRef (ref : string) : M (string * string) :=
  spaceKey ← sget (λ m : MCC, refToSpace m !! ref);
  match spaceKey with
  | None => sfail "failed to retrive space name by reference"
  | Some spaceKey =>
      match SplitMetaNamespaceKey spaceKey with
      | None => sfail "unexpected key format"
      | Some res => mret res
      end
  end.

Definition ConfigForSpaceByExportRef (ref : string) : M Config :=
  '(namespace, spacename) ← getSpaceNameByRef ref;
  ConfigForSpace spacename namespace.

(** ** controller.go *)

(** The loop ends at the first reference to the Space. *)
Definition controller_handleDelete (spaceKey : string) : M unit :=
  sput (λ m : MCC,
    let refs := match List.find (λ '(_, space), bool_decide (space = spaceKey)) (map_range (refToSpace m)) with
                | Some (ref, _) => delete ref (refToSpace m)
                | None => refToSpace m
                end in
    MkMultiSpaceClient (delete spaceKey (configs m)) refs).

Definition cacheSpaceReference (space : Space) (spaceKey : string) : M unit :=
  match spAnnotations space !! refAnnotationKey with
  | None => mret ()
  | Some ref => sput (λ m : MCC, MkMultiSpaceClient (configs m) (<[ref := spaceKey]> (refToSpace m)))
  end.

Definition controller_handleAdd (space : Space) (spaceKey : string) : M unit :=
  if negb (bool_decide (spPhase space = SpacePhaseReady)) then controller_handleDelete spaceKey
  else
    _ ← cacheSpaceReference space spaceKey;
    signore (config ← getRestConfigFromSecret space; set_config spaceKey config).

(** The store of the informer by key *)
Definition controller_process (store : gmap string Space) (key : string) : M unit :=
  match store !! key with
  | None => controller_handleDelete key
  | Some space => controller_handleAdd space key
  end.

(** The handler of updates enqueues the key if the status has changed. *)
Definition statusChanged (oldInfo newInfo : Space) : bool :=
  negb (bool_decide (spPhase oldInfo = spPhase newInfo)
        && match InClusterSecretRef oldInfo, InClusterSecretRef newInfo with
           | Some a, Some b => bool_decide (srNamespace a = srNamespace b) && bool_decide (srName a = srName b)
           | None, None => true
           | _, _ => false
           end
        && match ExternalSecretRef oldInfo, ExternalSecretRef newInfo with
           | Some a, Some b => bool_decide (srNamespace a = srNamespace b) && bool_decide (srName a = srName b)
           | None, None => true
           | _, _ => false
           end).

(** * What the client keeps *)

(** The configuration that the secret of a Space gives. *)
Definition config_of (space : Space) : option Config :=
  secretRef ← (if externalAccess then ExternalSecretRef space else InClusterSecretRef space);
  secret ← GetSecret (srNamespace secretRef) (srName secretRef);
  kubeconfigData ← secData secret !! CUBEKONFIG_KEY;
  kubeconfigBytes ← DecodeString kubeconfigData;
  RESTConfigFromKubeConfig kubeconfigBytes.

Lemma getRestConfig_Done space m config m' :
  getRestConfigFromSecret space m = (Done config, m') ↔ config_of space = Some config ∧ m' = m.
Proof using Type.
  unfold getRestConfigFromSecret, config_of.
  destruct (if externalAccess then _ else _) as [ref|]; cbn; [|by split; [|intros [? _]]].
  destruct (GetSecret _ _) as [secret|]; cbn; [|by split; [|intros [? _]]].
  destruct (secData secret !! CUBEKONFIG_KEY) as [d|]; cbn; [|by split; [|intros [? _]]].
  destruct (DecodeString d) as [b|]; cbn; [|by split; [|intros [? _]]].
  destruct (RESTConfigFromKubeConfig b) as [c|]; cbn; [|by split; [|intros [? _]]].
  split; [by intros [= <- <-]|]. by intros [[= <-] ->].
Qed.

Lemma getRestConfig_same space m : (getRestConfigFromSecret space m).2 = m.
Proof using Type.
  unfold getRestConfigFromSecret. destruct (if externalAccess then _ else _) as [ref|]; [|done].
  destruct (GetSecret _ _) as [secret|]; [|done]. destruct (secData secret !! CUBEKONFIG_KEY) as [d|]; [|done].
  destruct (DecodeString d) as [b|]; [|done]. by destruct (RESTConfigFromKubeConfig b).
Qed.

Lemma cacheSpaceReference_configs space key m :
  ∃ refs, cacheSpaceReference space key m = (Done (), MkMultiSpaceClient (configs m) refs).
Proof using Type.
  unfold cacheSpaceReference. destruct (spAnnotations space !! refAnnotationKey); [by eexists|].
  exists (refToSpace m). by destruct m.
Qed.

(** Processing the key of a Space, unless the process ends, forgets the configuration of a
    Space that is gone or not ready, takes over that of a Space that is ready and whose secret
    can be read, and touches no other ones; a configuration that is kept is what a client is
    given. *)
Theorem process_keeps_ready store key m m' :
  controller_process store key m = (Done (), m') →
  (∀ other, other ≠ key → configs m' !! other = configs m !! other) ∧
  configs m' !! key = match store !! key with
    | Some space => if bool_decide (spPhase space = SpacePhaseReady)
                    then match config_of space with Some config => Some config | None => configs m !! key end
                    else None
    | None => None
    end ∧
  (∀ name ns config, ns ≠ "" → key = namespaceKey name ns → configs m' !! key = Some config →
     ConfigForSpace name ns m' = (Done config, m')).
Proof using Type.
  intros Hrun. split; [|split].
  3:{ intros name ns config Hns -> Hc. unfold ConfigForSpace. rw bool_decide_eq_false_2 //. cbn [negb]. rw SM_bind_eq.
      cbv beta iota delta [sget]. by rw Hc. }
  all: revert Hrun; unfold controller_process; destruct (store !! key) as [space|];
    [unfold controller_handleAdd; case_bool_decide as Hph; cbn [negb]| ].
  - rw SM_bind_eq. destruct (cacheSpaceReference_configs space key m) as [refs ->]. unfold signore. rw SM_bind_eq.
    pose proof (getRestConfig_same space (MkMultiSpaceClient (configs m) refs)) as Hsame.
    destruct (getRestConfigFromSecret space _) as [[config| |] m1]; cbn in Hsame; subst m1; cbn; [|by intros [= <-]|done].
    intros [= <-] other Hne. cbn. by rw lookup_insert_ne.
  - intros [= <-] other Hne. cbn. by rw lookup_delete_ne.
  - intros [= <-] other Hne. cbn. by rw lookup_delete_ne.
  - rw SM_bind_eq. destruct (cacheSpaceReference_configs space key m) as [refs ->]. unfold signore. rw SM_bind_eq.
    pose proof (getRestConfig_same space (MkMultiSpaceClient (configs m) refs)) as Hsame.
    pose proof (getRestConfig_Done space (MkMultiSpaceClient (configs m) refs)) as Hdone.
    destruct (getRestConfigFromSecret space _) as [[config|err|] m1]; cbn in Hsame; subst m1; cbn; [| |done].
    + intros [= <-]. destruct (proj1 (Hdone config _) eq_refl) as [-> _]. apply lookup_insert_eq.
    + intros [= <-]. cbn. destruct (config_of space) as [config|]; [|done].
      by pose proof (proj2 (Hdone config _) (conj eq_refl eq_refl)).
  - intros [= <-]. cbn. apply lookup_delete_eq.
  - intros [= <-]. cbn. apply lookup_delete_eq.
Qed.

(** A configuration that has to be fetched is given to the client but kept under the name
    of the Space alone, so that the next request, which looks for it under the namespace and
    the name, has to fetch it again. *)
Theorem fetched_config_not_cached name ns space config m :
  ns ≠ "" → configs m !! namespaceKey name ns = None → GetSpace ns name = Some space → spName space = name →
  spPhase space = SpacePhaseReady → config_of space = Some config →
  ∃ m', ConfigForSpace name ns m = (Done config, m') ∧ configs m' !! namespaceKey name ns = None ∧
    ConfigForSpace name ns m' = getFromServer name ns m'.
Proof using Type.
  intros Hns Hnone Hsp Hname Hph Hconf. unfold ConfigForSpace. rw bool_decide_eq_false_2 //. cbn [negb].
  rw SM_bind_eq. cbv beta iota delta [sget]. rw Hnone.
  eassert (getFromServer name ns m = (Done config, _)) as ->.
  { unfold getFromServer. rw Hsp Hph bool_decide_eq_true_2 //. cbn [negb]. rw SM_bind_eq.
    rw (proj2 (getRestConfig_Done space m config m)) //. }
  eexists. split; [done|]. cbn [configs]. rw Hname.
  assert (<[name:=config]> (configs m) !! namespaceKey name ns = None) as Hnone'.
  { rw lookup_insert_ne //. unfold namespaceKey. intros Heq%(f_equal String.length).
    rewrite !str_length_app in Heq. cbn in Heq. lia. }
  split; [done|]. rw SM_bind_eq. cbv beta iota delta [sget]. cbn [configs]. by rw Hnone'.
Qed.
End client.

(** * From the provider to the client *)

Section composition.
Context `{MapRange} {PC S Config : Type} (ss : SpaceServer S).
Context (spaces : S → gmap (string * string) Space) (secrets : S → gmap (string * string) Secret).
Context `{!SpaceServerOk ss spaces secrets}.
Context (externalAccess : bool) (RESTConfigFromKubeConfig : string → option Config).

(** The configuration that the provider gave is the one that the secrets of the Space hold. *)
Lemma config_of_ready p sp info s config :
  has_secrets (PC:=PC) p sp info (secrets s) →
  (if externalAccess then needsExternal sp else needsInCluster sp) = true →
  RESTConfigFromKubeConfig (get_string (siConfig info) (if externalAccess then EXTERNAL else INCLUSTER)) = Some config →
  config_of externalAccess (λ ns name, ss_GetSecret ss ns name s) RESTConfigFromKubeConfig (ready (with_secrets p sp))
  = Some config.
Proof.
  intros [HI HE] Hneed Hrest. destruct (ready_same (with_secrets p sp)) as (_ & _ & _ & _ & HrI & HrE).
  unfold config_of. rw HrI HrE. unfold with_secrets.
  assert (∀ r, needsExternal (set_incluster r sp) = needsExternal sp) as Hsame by done.
  assert (∀ n conf, secData (buildSecret n conf) !! CUBEKONFIG_KEY = Some (EncodeToString conf)) as Hdata
    by (intros; apply lookup_singleton_eq).
  destruct externalAccess.
  - destruct (needsInCluster sp); rw ?Hsame Hneed; cbn [ExternalSecretRef set_external set_incluster mbind option_bind srNamespace srName spName];
      rw get_secret_ok HE //; cbn [mbind option_bind]; by rw Hdata /= DecodeString_EncodeToString.
  - rw Hneed Hsame. destruct (needsExternal sp); cbn [InClusterSecretRef set_external set_incluster mbind option_bind srNamespace srName spName];
      rw get_secret_ok HI //; cbn [mbind option_bind]; by rw Hdata /= DecodeString_EncodeToString.
Qed.

(** C16: once the space manager has processed the report of the provider that the physical
    space of a managed Space is there, and the client library has processed the Space as it is
    then on the server, a client is given the configuration that the provider reported: what
    the manager writes into the secrets is what the library reads from them. The Space is not
    being deleted, and its access scope includes the kind of access that the client asks for;
    the provider reports the configurations that the scope needs, and this one makes a REST
    config; and the server takes the update of the Space, which is there and not outdated in
    the store of the informer, and answers the requests about secrets, which are created, or
    updated if they are there already. *)
Theorem config_reaches_client (p : provider PC) sp info c config :
  spaceStore c !! spaceKeyFunc (prNameSpace p) (spName sp) = Some sp → spType sp = SpaceTypeManaged →
  spDeletionTimestamp sp = false → gives_configs sp info → writes_secrets ss secrets (prNameSpace p) →
  takes_update ss spaces (prNameSpace p) (ready (with_secrets p sp)) (server c) → prNameSpace p ≠ "" →
  (if externalAccess then needsExternal sp else needsInCluster sp) = true →
  RESTConfigFromKubeConfig (get_string (siConfig info) (if externalAccess then EXTERNAL else INCLUSTER)) = Some config →
  ∃ c', processProviderWatchEvent ss p (MkWatchEvent EventAdded info (spName sp)) c = (Done (), c') ∧
    let GetSpace ns name := spaces (server c') !! (ns, name) in
    let GetSecret ns name := ss_GetSecret ss ns name (server c') in
    let key := spaceKeyFunc (prNameSpace p) (spName sp) in
    ∀ store m, store !! key = spaces (server c') !! (prNameSpace p, spName sp) →
      ∃ m', controller_process externalAccess GetSecret RESTConfigFromKubeConfig store key m = (Done (), m') ∧
        ConfigForSpace externalAccess GetSpace GetSecret RESTConfigFromKubeConfig (spName sp) (prNameSpace p) m'
        = (Done config, m').
Proof.
  intros Hsp Hty Hdel Hgives Hw Htakes Hns Hneed Hrest.
  destruct (event_added ss spaces secrets p sp info c) as (c' & Hrun & Hready & Hsec); [done..|].
  exists c'. split; [done|]. intros GetSpace GetSecret key store m Hstore. rewrite Hready in Hstore.
  pose proof (config_of_ready p sp info (server c') config Hsec Hneed Hrest) as Hconf.
  destruct (cacheSpaceReference_configs (ready (with_secrets p sp)) key m) as [refs Hrefs].
  eexists. split.
  { unfold controller_process. rw Hstore. unfold controller_handleAdd.
    destruct (ready_same (with_secrets p sp)) as (_ & _ & Hph & _). rw Hph bool_decide_eq_true_2 //. cbn [negb].
    rw SM_bind_eq Hrefs. unfold signore. rw SM_bind_eq.
    assert (∀ m0, getRestConfigFromSecret externalAccess GetSecret RESTConfigFromKubeConfig
      (ready (with_secrets p sp)) m0 = (Done config, m0)) as Hdone
      by (intros m0; refine (proj2 (getRestConfig_Done _ _ _ _ _ _ _) (conj _ _)); [exact Hconf|done]).
    by rw Hdone. }
  unfold ConfigForSpace, key, spaceKeyFunc, namespaceKey. rw bool_decide_eq_false_2 //. cbn [negb]. rw SM_bind_eq.
  cbv beta iota delta [sget]. cbn [configs]. by rw lookup_insert_eq.
Qed.
End composition.
