(* ===== verification/MailboxWatch.v ===== *)
(** The informer on objects in mailbox workspaces (pkg/mailboxwatch): a list-watcher that asks
    the list-watcher of each mailbox workspace and puts the answers together.  All workspaces
    share one progression of resource versions; the version of the whole list is that of the
    first answer, and newer items of later answers are left out.

    The list-watchers of the workspaces are a parameter.  Closing and replacing the channel
    by which watches learn of a change of the workspaces is a change of a number. *)

From S2P Require Import Prelude GoStrings Types KbUser SyncerConfig.

(** A Workspace, with the fields that are read; [None] for another object, a tombstone. *)
Record MWorkspace : Set := MkMWorkspace { mwsName : string; mwsCluster : string }.

(** An item of a list, with its resource version *)
Record MItem (V : Type) : Type := MkMItem { miValue : V; miResourceVersion : string }.
Arguments MkMItem {_} _ _.
Arguments miValue {_} _.
Arguments miResourceVersion {_} _.

(** What the list-watcher of a workspace answers: its kind, empty or not, the items, if they
    can be extracted, and the version, if the list has metadata. *)
Record SubList (V : Type) : Type := MkSubList {
  subGVK : string * string * string;
  subItems : option (list (MItem V));
  subResourceVersion : option string
}.
Arguments MkSubList {_} _ _ _.
Arguments subGVK {_} _.
Arguments subItems {_} _.
Arguments subResourceVersion {_} _.

Record crossClusterListerWatcher (Scoped : Type) : Type := MkCrossClusterListerWatcher {
  clwPerCluster : gmap string Scoped;
  clusterListFirst : string;
  reconfigChan : nat
}.
Arguments MkCrossClusterListerWatcher {_} _ _ _.
Arguments clwPerCluster {_} _.
Arguments clusterListFirst {_} _.
Arguments reconfigChan {_} _.

(** What a list has gathered so far *)
Record Gathered (V : Type) : Type := MkGathered {
  allItems : list (MItem V);
  firstListRV : option Z;
  maxRV : Z;
  clusterOfMaxRV : string
}.
Arguments MkGathered {_} _ _ _ _.
Arguments allItems {_} _.
Arguments firstListRV {_} _.
Arguments maxRV {_} _.
Arguments clusterOfMaxRV {_} _.

(** The number, if there is no error *)
Definition parseRV (s : string) : option Z := match ParseInt s with (n, None) => Some n | (_, Some _) => None end.

Section mailbox_watch.
Context `{MapRange} {Scoped V : Type}.
Context (gen_Cluster : string → Scoped) (listGVK : string * string * string).
Context (scoped_List : Scoped → Lookup (SubList V)) (scoped_Watch : Scoped → bool).
Abbreviation CLW := (crossClusterListerWatcher Scoped).

Definition newCrossClusterListerWatcher : CLW := MkCrossClusterListerWatcher ∅ "" O.

(** [None] is a panic. *)
Definition setInclusion (obj : option MWorkspace) (include : bool) (clw : CLW) : option CLW :=
  match obj with
  | None => None
  | Some ws =>
      let include := if negb (length (str_Split (mwsName ws) MBspaceNameSep) =? 2)%nat then false else include in
      let clusterName := mwsCluster ws in
      let have := bool_decide (is_Some (clwPerCluster clw !! clusterName)) in
      if Bool.eqb have include then Some clw
      else
        let perCluster := if include then <[clusterName := gen_Cluster clusterName]> (clwPerCluster clw)
                          else delete clusterName (clwPerCluster clw) in
        Some (MkCrossClusterListerWatcher perCluster (clusterListFirst clw) (S (reconfigChan clw)))
  end.

Definition clw_OnAdd (obj : option MWorkspace) : CLW → option CLW := setInclusion obj true.
Definition clw_OnUpdate (old obj : option MWorkspace) : CLW → option CLW := setInclusion obj true.
Definition clw_OnDelete (obj : option MWorkspace) : CLW → option CLW := setInclusion obj false.

(** The answer of a workspace, if it can be used: its version and its items. *)
Definition usableAnswer (scoped : Scoped) : option (Z * list (MItem V)) :=
  match scoped_List scoped with
  | NotFound | LookupError _ => None
  | Found sublist =>
      if negb (bool_decide (subGVK sublist = listGVK)) && negb (bool_decide (subGVK sublist = ("", "", ""))) then None
      else
        subItems ← subItems sublist;
        listMeta ← subResourceVersion sublist;
        rv ← parseRV listMeta;
        Some (rv, subItems)
  end.

Definition listCluster (clusterName : string) (scoped : Scoped) (g : Gathered V) : Gathered V :=
  match usableAnswer scoped with
  | None => g
  | Some (rv, subItems) =>
      let '(maxRV, clusterOfMaxRV) := if bool_decide (maxRV g < rv)%Z then (rv, clusterName) else (maxRV g, clusterOfMaxRV g) in
      match firstListRV g with
      | None => MkGathered (allItems g ++ subItems) (Some rv) maxRV clusterOfMaxRV
      | Some firstRV =>
          let allItems :=
            for_each subItems (λ item allItems,
              match parseRV (miResourceVersion item) with
              | None => allItems
              | Some itemRV => if bool_decide (itemRV ≤ firstRV)%Z then allItems ++ [item] else allItems
              end) (allItems g) in
          MkGathered allItems (Some firstRV) maxRV clusterOfMaxRV
      end
  end.

(** The version of the list and its items. *)
Definition clw_List (clw : CLW) : Z * list (MItem V) * CLW :=
  let g := MkGathered [] None (-1) "" in
  let g := if negb (bool_decide (clusterListFirst clw = "")) then
             match clwPerCluster clw !! clusterListFirst clw with
             | Some lwFirst => listCluster (clusterListFirst clw) lwFirst g
             | None => g
             end
           else g in
  let g := for_each (map_range (clwPerCluster clw)) (λ '(clusterName, lwForCluster) g,
             if bool_decide (clusterName = clusterListFirst clw) then g else listCluster clusterName lwForCluster g) g in
  (default 1%Z (firstListRV g), allItems g,
   MkCrossClusterListerWatcher (clwPerCluster clw) (clusterOfMaxRV g) (reconfigChan clw)).

(** ** Watching *)

(** A watch: the number of the channel when it started, whether it has been stopped, the
    workspaces for which a goroutine runs, and what was passed on. *)
Record myWatch (E : Type) : Type := MkMyWatch {
  mwReconfig : nat;
  mwDone : bool;
  mwRunning : gset string;
  mwFiltered : list E
}.
Arguments MkMyWatch {_} _ _ _ _.
Arguments mwReconfig {_} _.
Arguments mwDone {_} _.
Arguments mwRunning {_} _.
Arguments mwFiltered {_} _.

(** The watch, or the workspaces whose watches were started before the failure *)
Fixpoint start_watches (clusters : list (string * Scoped)) (running : gset string) : gset string + gset string :=
  match clusters with
  | [] => inr running
  | (clusterName, lwForCluster) :: clusters =>
      if scoped_Watch lwForCluster then start_watches clusters ({[clusterName]} ∪ running) else inl running
  end.
Definition clw_Watch {E} (clw : CLW) : gset string + myWatch E :=
  match start_watches (map_range (clwPerCluster clw)) ∅ with
  | inl running => inl running
  | inr running => inr (MkMyWatch (reconfigChan clw) false running [])
  end.

(** What a goroutine can do, when the channel has the number: one turn of its loop. *)
Inductive watchPerCluster_Run {E} (current : nat) : string → myWatch E → myWatch E → Prop :=
| run_done cluster w :
    mwDone w = true → cluster ∈ mwRunning w →
    watchPerCluster_Run current cluster w (MkMyWatch (mwReconfig w) true (mwRunning w ∖ {[cluster]}) (mwFiltered w))
| run_reconfig cluster w :
    mwReconfig w ≠ current → cluster ∈ mwRunning w →
    watchPerCluster_Run current cluster w (MkMyWatch (mwReconfig w) (mwDone w) (mwRunning w ∖ {[cluster]}) (mwFiltered w))
| run_closed cluster w :
    cluster ∈ mwRunning w →
    watchPerCluster_Run current cluster w (MkMyWatch (mwReconfig w) true (mwRunning w ∖ {[cluster]}) (mwFiltered w))
| run_event cluster event w :
    cluster ∈ mwRunning w →
    watchPerCluster_Run current cluster w (MkMyWatch (mwReconfig w) (mwDone w) (mwRunning w) (mwFiltered w ++ [event])).

Definition myWatch_Stop {E} (w : myWatch E) : myWatch E := MkMyWatch (mwReconfig w) true (mwRunning w) (mwFiltered w).

(** * What a list shows *)

(** The items of an answer are not newer than it. *)
Definition not_newer (l : list (MItem V)) (rv : Z) : Prop :=
  ∀ item, item ∈ l → ∃ n, parseRV (miResourceVersion item) = Some n ∧ (n ≤ rv)%Z.

Lemma gather_old (l : list (MItem V)) firstRV acc item :
  item ∈ for_each l (λ item allItems,
      match parseRV (miResourceVersion item) with
      | None => allItems
      | Some itemRV => if bool_decide (itemRV ≤ firstRV)%Z then allItems ++ [item] else allItems
      end) acc ↔
  item ∈ acc ∨ item ∈ l ∧ ∃ n, parseRV (miResourceVersion item) = Some n ∧ (n ≤ firstRV)%Z.
Proof using Type.
  clear gen_Cluster scoped_Watch. revert acc. induction l as [|x l IH]; intros acc; [set_solver|]. rw for_each_cons IH elem_of_cons.
  destruct (parseRV (miResourceVersion x)) as [n|] eqn:Hn.
  - case_bool_decide as Hle.
    + rw elem_of_app list_elem_of_singleton. naive_solver.
    + split; [naive_solver|]. intros [?|[[-> |?] (m & Hm & ?)]]; [by left| |naive_solver].
      rewrite Hn in Hm. by injection Hm as ->.
  - split; [naive_solver|]. intros [?|[[-> |?] (m & Hm & ?)]]; [by left|congruence|naive_solver].
Qed.

(** What has been gathered from the workspaces in [seen]. *)
Definition gathered_from (seen : list (string * Scoped)) (g : Gathered V) : Prop :=
  (∀ item, item ∈ allItems g ↔ ∃ name scoped rv items n, (name, scoped) ∈ seen ∧ usableAnswer scoped = Some (rv, items) ∧
     item ∈ items ∧ parseRV (miResourceVersion item) = Some n ∧ ∃ first, firstListRV g = Some first ∧ (n ≤ first)%Z) ∧
  (firstListRV g = None ↔ ∀ name scoped, (name, scoped) ∈ seen → usableAnswer scoped = None) ∧
  (∀ first, firstListRV g = Some first → ∃ name scoped items, (name, scoped) ∈ seen ∧ usableAnswer scoped = Some (first, items)).

Lemma listCluster_gathers seen g name scoped :
  (∀ rv items, usableAnswer scoped = Some (rv, items) → not_newer items rv) →
  gathered_from seen g → gathered_from (seen ++ [(name, scoped)]) (listCluster name scoped g).
Proof using Type.
  clear gen_Cluster scoped_Watch. intros Hnn (Hin & Hnone & Hfirst). unfold listCluster. destruct (usableAnswer scoped) as [[rv items]|] eqn:Hu.
  2:{ split_and!.
      - intros item. rw Hin. split; [intros (n & s & r & i & m & ? & ?); exists n, s, r, i, m; set_solver|].
        intros (n & s & r & i & m & Hs & Hus & ?). exists n, s, r, i, m.
        apply elem_of_app in Hs as [Hs|[= -> ->]%list_elem_of_singleton]; [done|congruence].
      - rw Hnone. split; [|set_solver]. intros Hno n s [Hs|[= -> ->]%list_elem_of_singleton]%elem_of_app; [by eapply Hno|done].
      - intros first (n & s & i & Hs & Hus)%Hfirst. exists n, s, i. set_solver. }
  assert (∀ first mx cl acc, (∀ item, item ∈ acc ↔ item ∈ allItems g ∨ item ∈ items ∧
      ∃ n, parseRV (miResourceVersion item) = Some n ∧ (n ≤ first)%Z) →
    (firstListRV g = Some first ∨ firstListRV g = None ∧ first = rv) →
    gathered_from (seen ++ [(name, scoped)]) (MkGathered acc (Some first) mx cl)) as Hfin.
  { intros first mx cl acc Hacc Hf. split_and!.
    2:{ cbn. split; [done|]. intros Hno. rewrite (Hno name scoped) in Hu; [done|set_solver]. }
    2:{ cbn. intros ? [= <-]. destruct Hf as [Hf|[_ ->]]; [|exists name, scoped, items; set_solver].
        destruct (Hfirst _ Hf) as (n & s & i & Hs & Hus). exists n, s, i. set_solver. }
    intros item. cbn. rw Hacc Hin. split.
    - intros [(n & s & r & i & m & Hs & Hus & Hi & Hm & fi & Hfi & Hle)|(Hi & n & Hn & Hle)].
      + exists n, s, r, i, m. destruct Hf as [Hf|[Hf _]]; [|congruence]. rewrite Hf in Hfi. injection Hfi as ->. split_and!; [set_solver|done..|].
        by exists fi.
      + exists name, scoped, rv, items, n. split_and!; [set_solver|done..|]. by exists first.
    - intros (n & s & r & i & m & Hs & Hus & Hi & Hm & fi & [= <-] & Hle).
      apply elem_of_app in Hs as [Hs|[= -> ->]%list_elem_of_singleton].
      + destruct Hf as [Hf|[Hf _]]; [left; exists n, s, r, i, m; split_and!; [done..|]; by exists first|].
        rewrite (proj1 Hnone Hf n s Hs) in Hus. done.
      + right. rewrite Hu in Hus. injection Hus as <- <-. split; [done|]. by exists m. }
  destruct (if bool_decide _ then _ else _) as [mx cl]. destruct (firstListRV g) as [first|] eqn:Hf.
  - apply Hfin; [|by left]. intros item. by rw gather_old.
  - apply Hfin; [|by right]. intros item. rw elem_of_app. split; [|set_solver].
    intros [?|Hi]; [by left|right]. split; [done|]. by apply (Hnn rv items).
Qed.

(** C20: if no workspace without a cluster is included, a list of the objects in mailbox
    workspaces has exactly the items, of all the
    workspaces whose answers can be used, that are not newer than the version of the list,
    which is that of one of the answers, or 1 if there is none; whatever the order in which
    the workspaces are asked. *)
Theorem clw_List_exact clw v items clw' :
  clwPerCluster clw !! "" = None →
  (∀ name scoped rv items, clwPerCluster clw !! name = Some scoped → usableAnswer scoped = Some (rv, items) → not_newer items rv) →
  clw_List clw = (v, items, clw') →
  (∀ item, item ∈ items ↔ ∃ name scoped rv l n, clwPerCluster clw !! name = Some scoped ∧ usableAnswer scoped = Some (rv, l) ∧
     item ∈ l ∧ parseRV (miResourceVersion item) = Some n ∧ (n ≤ v)%Z) ∧
  ((∃ name scoped l, clwPerCluster clw !! name = Some scoped ∧ usableAnswer scoped = Some (v, l)) ∨
   v = 1%Z ∧ ∀ name scoped, clwPerCluster clw !! name = Some scoped → usableAnswer scoped = None) ∧
  clwPerCluster clw' = clwPerCluster clw.
Proof using Type.
  clear gen_Cluster scoped_Watch. intros Hno Hnn. unfold clw_List.
  set (first := clusterListFirst clw). set (m := clwPerCluster clw) in *.
  set (asked := match m !! first with Some lw => if bool_decide (first = "") then [] else [(first, lw)] | None => [] end).
  match goal with |- context [for_each (map_range m) ?f ?g] => set (g1 := g); set (step := f) end.
  assert (gathered_from asked g1) as Hg1.
  { unfold g1, asked. assert (gathered_from [] (MkGathered [] None (-1) "")) as H0.
    { split_and!; [|set_solver|done]. cbn. set_solver. }
    case_bool_decide as Hf; cbn [negb]; [by destruct (m !! first)|]. destruct (m !! first) as [lw|] eqn:Hlw; [|done].
    apply (listCluster_gathers [] _ first lw); [|done]. intros rv l. by apply (Hnn first). }
  assert (gathered_from (asked ++ filter (λ p, p.1 ≠ first) (map_range m)) (for_each (map_range m) step g1)) as Hg.
  { assert (∀ l, (∀ p, p ∈ l → m !! p.1 = Some p.2) →
      gathered_from (asked ++ filter (λ p, p.1 ≠ first) l) (for_each l step g1)) as Hloop.
    2:{ apply Hloop. by intros [n s] Hin%elem_of_map_range. }
    intros l Hl. revert Hl. apply (for_each_ind (λ seen g, (∀ p, p ∈ seen → m !! p.1 = Some p.2) →
      gathered_from (asked ++ filter (λ p, p.1 ≠ first) seen) g)); [by rw app_nil_r|].
    intros seen [n s] todo g _ IH Hseen. rw filter_app. cbn [step]. unfold step. case_bool_decide as Hn.
    - rw filter_cons_False; [|cbn; tauto]. rw filter_nil app_nil_r. apply IH. set_solver.
    - rw filter_cons_True; [|done]. rw filter_nil assoc. apply listCluster_gathers; [|apply IH; set_solver].
      intros rv l'. apply (Hnn n). apply (Hseen (n, s)). set_solver. }
  assert (∀ n s, (n, s) ∈ asked ++ filter (λ p, p.1 ≠ first) (map_range m) ↔ m !! n = Some s) as Hall.
  { intros n s. rw elem_of_app list_elem_of_filter elem_of_map_range. cbn. unfold asked.
    destruct (decide (n = first)) as [-> |Hne].
    - split; [|intros Hs; left]; [|rewrite Hs bool_decide_eq_false_2; [by left|by intros Hf; rewrite Hf Hno in Hs]].
      intros [Hin|[? _]]; [|done]. destruct (m !! first) as [lw|]; [|by apply not_elem_of_nil in Hin].
      case_bool_decide; [by apply not_elem_of_nil in Hin|]. by apply list_elem_of_singleton in Hin as [= ->].
    - split; [|by right]. intros [Hin|[_ ?]]; [|done]. destruct (m !! first) as [lw|]; [|by apply not_elem_of_nil in Hin].
      case_bool_decide; [by apply not_elem_of_nil in Hin|]. by apply list_elem_of_singleton in Hin as [= -> _]. }
  destruct Hg as (Hin & Hnone & Hfirst). setoid_rewrite Hall in Hin. setoid_rewrite Hall in Hnone. setoid_rewrite Hall in Hfirst.
  intros [= <- <- <-]. split_and!; [| |done].
  - intros item. rw Hin. split.
    + intros (n & s & rv & l & k & ? & ? & ? & ? & fi & Hfi & Hle). exists n, s, rv, l, k. by rw Hfi.
    + intros (n & s & rv & l & k & Hs & Hu & Hi & Hk & Hle). exists n, s, rv, l, k. split_and!; [done..|].
      destruct (firstListRV _) as [fi|] eqn:Hfi; [by exists fi|]. by rewrite (proj1 Hnone eq_refl n s Hs) in Hu.
  - destruct (firstListRV _) as [fi|] eqn:Hfi; [left; by apply Hfirst|right; by split; [|apply Hnone]].
Qed.

(** Whether a workspace is included depends on its name; a change of the included workspaces,
    and nothing else, makes the watches that run end. *)
Theorem setInclusion_right ws include clw clw' :
  setInclusion (Some ws) include clw = Some clw' →
  (is_Some (clwPerCluster clw' !! mwsCluster ws) ↔ include = true ∧ length (str_Split (mwsName ws) MBspaceNameSep) = 2%nat) ∧
  (∀ name, name ≠ mwsCluster ws → clwPerCluster clw' !! name = clwPerCluster clw !! name) ∧
  (reconfigChan clw' = reconfigChan clw ↔ dom (clwPerCluster clw') = dom (clwPerCluster clw)).
Proof using Type.
  clear scoped_List scoped_Watch listGVK. unfold setInclusion.
  assert ((include = true ∧ length (str_Split (mwsName ws) MBspaceNameSep) = 2%nat) ↔
    (if negb (length (str_Split (mwsName ws) MBspaceNameSep) =? 2)%nat then false else include) = true) as Hinc.
  { destruct (Nat.eqb_spec (length (str_Split (mwsName ws) MBspaceNameSep)) 2); cbn; naive_solver. }
  rw Hinc. clear Hinc. destruct (if negb _ then false else include); case_bool_decide as Hhave; cbn; intros [= <-]; cbn.
  - tauto.
  - split_and!; [split; [done|by rw lookup_insert_eq; eexists]|intros name Hn; by rw lookup_insert_ne|].
    split; [lia|]. rw dom_insert_L. intros Hd. destruct Hhave. apply elem_of_dom. set_solver.
  - split_and!; [rw lookup_delete_eq; split; [by intros [? [=]]|done]|intros name Hn; by rw lookup_delete_ne|].
    split; [lia|]. rw dom_delete_L. intros Hd. apply elem_of_dom in Hhave. set_solver.
  - split_and!; [split; [tauto|done]|done|done].
Qed.

(** After a change of the included workspaces all goroutines of a watch that was running may
    return, without stopping the watch and without closing its channel: then nothing more
    arrives, and the informer that waits for it is not told to list again. *)
Theorem reconfigured_watch_stalls {E} current (w : myWatch E) :
  mwReconfig w ≠ current →
  ∃ w', rtc (λ w1 w2, ∃ cluster, watchPerCluster_Run current cluster w1 w2) w w' ∧
    mwDone w' = mwDone w ∧ mwFiltered w' = mwFiltered w ∧ ∀ cluster w2, ¬ watchPerCluster_Run current cluster w' w2.
Proof using Type.
  clear. intros Hne. destruct w as [re dn running fi]. cbn in *. revert running.
  apply (set_ind_L (λ running, ∃ w', rtc (λ w1 w2, ∃ cluster, watchPerCluster_Run current cluster w1 w2)
    (MkMyWatch re dn running fi) w' ∧ mwDone w' = dn ∧ mwFiltered w' = fi ∧
    ∀ cluster w2, ¬ watchPerCluster_Run current cluster w' w2)).
  - eexists. split; [apply rtc_refl|]. split_and!; [done|done|]. intros cluster w2 Hr. inversion Hr; subst; cbn in *; set_solver.
  - intros c X Hc (w' & Hrun & ?). exists w'. split; [|done]. eapply rtc_l; [|exact Hrun]. exists c.
    assert (X = ({[c]} ∪ X) ∖ {[c]}) as HX by set_solver. rw {2}HX. by apply run_reconfig; [|cbn; set_solver].
Qed.
End mailbox_watch.
