(* ===== verification/Mailbox.v ===== *)
(** The mailbox controller (cmd/mailbox-controller/controller.go): for each SyncTarget it has
    the space manager create a mailbox Space, binds the syncer's resources into it once it is
    ready, and deletes it when the SyncTarget is gone.

    The API server, of which only creating and deleting Spaces matters here, and the runs of
    the binding script are parameters.  The state are the contents of the two informers, with
    the index of the SyncTargets as it was made when each was stored, and the work queue. *)

From S2P Require Import Prelude GoStrings KbUser SyncerConfig Effects SpaceManager SpaceManagerFacts.

Definition mbsNameSep : string := "-mb-".
Definition SyncTargetNameAnnotationKey : string := "edge.kubestellar.io/sync-target-name".
Definition errNoSpaceId : string := "failed to retrive spaceID".

(** A SyncTarget, and whether it has a deletion timestamp *)
Record MailboxTarget : Type := MkMailboxTarget { mtMeta : ObjectMeta; mtDeleting : bool }.

(** What informers hand to the handlers; a tombstone is another object. *)
Inductive MailboxObject : Type :=
| MailboxSpace (space : Space)
| MailboxSyncTarget (st : MailboxTarget)
| AnotherMailboxObject.

(** What the queue holds: the name of a SyncTarget or that of a mailbox. *)
Inductive MailboxRef : Set :=
| refSyncTarget (stName : string)
| refMailbox (mbsName : string).

(** What [Get] of the lister of Spaces returns *)
Inductive SpaceGet : Type :=
| GotSpace (space : Space)
| SpaceNotFound
| SpaceGetError.

(** How the run of the binding script went *)
Inductive ScriptRun : Set :=
| NoStdoutPipe | NoStderrPipe | NotStarted | StdoutUnreadable | StderrUnreadable
| Exited (success : bool).

Record mbCtl (S : Type) : Type := MkMbCtl {
  (** by name, with the values of the index *)
  mbTargets : gmap string (MailboxTarget * list string);
  mbSpaceLister : string → SpaceGet;
  mbRelation : KubeBindSpaceRelation;
  mbQueue : list MailboxRef;
  mbServer : S
}.
Arguments MkMbCtl {_} _ _ _ _ _.
Arguments mbTargets {_} _.
Arguments mbSpaceLister {_} _ _.
Arguments mbRelation {_} _.
Arguments mbQueue {_} _.
Arguments mbServer {_} _.

(** The name, or the error *)
Definition mbsNameOfSynctarget (reln : KubeBindSpaceRelation) (st : MailboxTarget) : string * option string :=
  let '(_, kbSpaceID, err) := AnalyzeObject (mtMeta st) in
  match err with
  | Some err => ("", Some err)
  | None =>
      let spaceID := SpaceIDFromKubeBind reln kbSpaceID in
      if bool_decide (spaceID = "") then ("", Some errNoSpaceId)
      else (spaceID +:+ mbsNameSep +:+ omUID (mtMeta st), None)
  end.

Definition mbsNameOfObj (reln : KubeBindSpaceRelation) (obj : MailboxObject) : list string :=
  match obj with
  | MailboxSyncTarget st =>
      match mbsNameOfSynctarget reln st with
      | (mbsName, None) => [mbsName]
      | (_, Some _) => []
      end
  | MailboxSpace _ | AnotherMailboxObject => []
  end.

Section mailbox.
Context `{MapRange} {S : Type}.
Context (CreateSpace : string → Space → S → Outcome * S).
(** with the precondition on the UID *)
Context (DeleteSpace : string → string → string → S → Outcome * S).
Context (exec : string → S → ScriptRun * S).
Context (spaceProvider spaceProviderNs : string).
Abbreviation C := (mbCtl S).
Abbreviation M := (SM C).

Definition mbcall {A} (f : S → A * S) : M A := λ c,
  let '(a, s) := f (mbServer c) in
  (Done a, MkMbCtl (mbTargets c) (mbSpaceLister c) (mbRelation c) (mbQueue c) s).
Definition queue_Add (ref : MailboxRef) : M unit :=
  sput (λ c : C, MkMbCtl (mbTargets c) (mbSpaceLister c) (mbRelation c) (mbQueue c ++ [ref]) (mbServer c)).

(** The informer stores a new SyncTarget, and computes the values of the index for it. *)
Definition store_target (st : MailboxTarget) : M unit :=
  sput (λ c : C, MkMbCtl (<[omName (mtMeta st) := (st, mbsNameOfObj (mbRelation c) (MailboxSyncTarget st))]> (mbTargets c))
    (mbSpaceLister c) (mbRelation c) (mbQueue c) (mbServer c)).
(** The informer removes a SyncTarget. *)
Definition drop_target (stName : string) : M unit :=
  sput (λ c : C, MkMbCtl (delete stName (mbTargets c)) (mbSpaceLister c) (mbRelation c) (mbQueue c) (mbServer c)).

(** [ByIndex], in no particular order *)
Definition targets_by_index (c : C) (mbsName : string) : list MailboxTarget :=
  (λ '(_, (st, _)), st) <$> filter (λ '(_, (_, values)), mbsName ∈ values) (map_range (mbTargets c)).

Definition mbCtl_enqueue (obj : MailboxObject) : M unit :=
  match obj with
  | MailboxSpace space => queue_Add (refMailbox (spName space))
  | MailboxSyncTarget st => queue_Add (refSyncTarget (omName (mtMeta st)))
  | AnotherMailboxObject => mret ()
  end.

Definition mbCtl_OnAdd (obj : MailboxObject) : M unit := mbCtl_enqueue obj.
(** The objects of an update are not nil. *)
Definition mbCtl_OnUpdate (oldObj newObj : MailboxObject) : M unit := mbCtl_enqueue newObj.
Definition mbCtl_OnDelete (obj : MailboxObject) : M unit := mbCtl_enqueue obj.

(** One run of the script *)
Definition bind_cmdLine (spacename resource : string) : string :=
  "KUBECONFIG=$SM_CONFIG kubestellar-kube-bind --in-cluster " +:+ spacename +:+ " " +:+ resource.

Definition resourcesToBind : list string := ["syncerconfigs"; "edgesyncconfigs"].

(** Whether to retry *)
Fixpoint bind_resources (spacename : string) (resources : list string) : M bool :=
  match resources with
  | [] => mret false
  | resource :: resources =>
      run ← mbcall (exec (bind_cmdLine spacename resource));
      match run with
      | NoStdoutPipe | NoStderrPipe | NotStarted | StdoutUnreadable | StderrUnreadable => mret true
      | Exited success => if success then bind_resources spacename resources else mret true
      end
  end.
Definition ensureBinding (spacename : string) : M bool := bind_resources spacename resourcesToBind.

(** Whether to retry *)
Definition sync_target (stName : string) : M bool :=
  st ← sget (λ c : C, mbTargets c !! stName);
  match st with
  | None => mret false
  | Some (st, _) =>
      reln ← sget (λ c : C, mbRelation c);
      match mbsNameOfSynctarget reln st with
      | (_, Some err) => mret (bool_decide (err = errNoSpaceId))
      | (mbsName, None) => _ ← queue_Add (refMailbox mbsName); mret false
      end
  end.

(** No SyncTarget wants the mailbox. *)
Definition delete_mailbox (mbsName : string) (space : option Space) : M bool :=
  match space with
  | None => mret false
  | Some space =>
      if spDeletionTimestamp space then mret false
      else
        outcome ← mbcall (DeleteSpace spaceProviderNs mbsName (spUID space));
        mret match outcome with OutcomeOk | OutcomeMissing => false | OutcomeExists | OutcomeError => true end
  end.

Definition sync_mailbox (mbsName : string) : M bool :=
  let parts := str_Split mbsName mbsNameSep in
  if negb (length parts =? 2)%nat then mret false
  else
    byIndex ← sget (λ c : C, targets_by_index c mbsName);
    space ← sget (λ c : C, mbSpaceLister c mbsName);
    match space with
    | SpaceGetError => mret true
    | _ =>
        let space := match space with GotSpace space => Some space | _ => None end in
        match head byIndex with
        | Some syncTarget =>
            if mtDeleting syncTarget then delete_mailbox mbsName space else
            match space with
            | None =>
                let '(stOriginalName, _, err) := AnalyzeObject (mtMeta syncTarget) in
                match err with
                | Some _ => mret false
                | None =>
                    let mbspace := MkSpace "" mbsName "" false {[SyncTargetNameAnnotationKey := stOriginalName]} []
                                     spaceProvider SpaceTypeManaged "" "" None None in
                    outcome ← mbcall (CreateSpace spaceProviderNs mbspace);
                    mret match outcome with OutcomeOk | OutcomeExists => false | OutcomeMissing | OutcomeError => true end
                end
            | Some space =>
                if spDeletionTimestamp space then mret true
                else if negb (bool_decide (spPhase space = SpacePhaseReady)) then mret true
                else ensureBinding (spName space)
            end
        | None => delete_mailbox mbsName space
        end
    end.
Definition mbCtl_sync (ref : MailboxRef) : M bool :=
  match ref with
  | refSyncTarget stName => sync_target stName
  | refMailbox mbsName => sync_mailbox mbsName
  end.

(** A reference that was taken from the queue; it comes back if it is to be tried again. *)
Definition mbCtl_sync1 (ref : MailboxRef) : M unit :=
  retry ← mbCtl_sync ref;
  if retry : bool then queue_Add ref else mret ().
End mailbox.
