(* ===== verification/MailboxFacts.v ===== *)
(** The mailbox controller: how a SyncTarget gets a mailbox Space that is bound, over the space
    manager; and the SyncTargets that get none, and the mailboxes that stay. *)

From S2P Require Import Prelude GoStrings KbUser SyncerConfig Effects SpaceManager SpaceManagerFacts Mailbox.

Section facts.
Context `{MapRange} {PC S : Type} (ss : SpaceServer S).
Context (spaces : S → gmap (string * string) Space) (secrets : S → gmap (string * string) Secret).
Context `{!SpaceServerOk ss spaces secrets}.
Context (DeleteSpace : string → string → string → S → Outcome * S) (exec : string → S → ScriptRun * S).
Context (spaceProvider spaceProviderNs : string).
Abbreviation C := (mbCtl S).
Implicit Types (c : C) (st : MailboxTarget).
Abbreviation sync1 := (mbCtl_sync1 (ss_CreateSpace ss) DeleteSpace exec spaceProvider spaceProviderNs).

(** The mailbox as it is created. *)
Definition mailbox_space (mbsName stOriginalName : string) : Space :=
  MkSpace "" mbsName "" false {[SyncTargetNameAnnotationKey := stOriginalName]} []
    spaceProvider SpaceTypeManaged "" "" None None.

Definition two_parts (mbsName : string) : Prop := length (str_Split mbsName mbsNameSep) = 2%nat.

(** No stored SyncTarget is indexed under the name. *)
Definition not_indexed (m : gmap string (MailboxTarget * list string)) (mbsName : string) : Prop :=
  ∀ n st values, m !! n = Some (st, values) → mbsName ∉ values.

Lemma by_index_none c mbsName : not_indexed (mbTargets c) mbsName → targets_by_index c mbsName = [].
Proof using Type.
  intros Hnot. unfold targets_by_index.
  destruct (filter _ (map_range (mbTargets c))) as [|[n [st values]] l] eqn:Hl; [done|].
  assert ((n, (st, values)) ∈ filter (λ '(_, (_, values)), mbsName ∈ values) (map_range (mbTargets c))) as Hin
    by (rw Hl; left).
  apply list_elem_of_filter in Hin as [Hv Hin%elem_of_map_range]. by destruct (Hnot _ _ _ Hin).
Qed.

Lemma by_index_some c mbsName n st values :
  mbTargets c !! n = Some (st, values) → mbsName ∈ values → not_indexed (delete n (mbTargets c)) mbsName →
  head (targets_by_index c mbsName) = Some st.
Proof using Type.
  intros Hst Hv Hnot. unfold targets_by_index.
  assert ((n, (st, values)) ∈ filter (λ '(_, (_, values)), mbsName ∈ values) (map_range (mbTargets c))) as Hin
    by (apply list_elem_of_filter; split; [done|by apply elem_of_map_range]).
  destruct (filter _ (map_range (mbTargets c))) as [|[n' [st' values']] l] eqn:Hl; [by apply not_elem_of_nil in Hin|].
  cbn. assert ((n', (st', values')) ∈ filter (λ '(_, (_, values)), mbsName ∈ values) (map_range (mbTargets c))) as Hin'
    by (rw Hl; left).
  apply list_elem_of_filter in Hin' as [Hv' Hin'%elem_of_map_range]. destruct (decide (n' = n)) as [-> |Hne]; [congruence|].
  destruct (Hnot n' st' values'); [by rw lookup_delete_ne|done].
Qed.

Lemma mbcall_eq {A} (f : S → A * S) c a s :
  f (mbServer c) = (a, s) →
  mbcall f c = (Done a, MkMbCtl (mbTargets c) (mbSpaceLister c) (mbRelation c) (mbQueue c) s).
Proof using Type. unfold mbcall. by intros ->. Qed.

(** * The steps of the controller *)

(** The reference to a stored SyncTarget leads to the name of its mailbox. *)
Lemma sync1_target n st values c orig kb :
  mbTargets c !! n = Some (st, values) → AnalyzeObject (mtMeta st) = (orig, kb, None) →
  SpaceIDFromKubeBind (mbRelation c) kb ≠ "" →
  sync1 (refSyncTarget n) c = (Done (), MkMbCtl (mbTargets c) (mbSpaceLister c) (mbRelation c)
    (mbQueue c ++ [refMailbox (SpaceIDFromKubeBind (mbRelation c) kb +:+ mbsNameSep +:+ omUID (mtMeta st))]) (mbServer c)).
Proof using Type.
  intros Hst Han Hid. unfold mbCtl_sync1. rw SM_bind_eq. unfold mbCtl_sync, sync_target. rw SM_bind_eq.
  cbv beta iota delta [sget]. rw Hst SM_bind_eq. cbv beta iota delta [sget]. unfold mbsNameOfSynctarget.
  by rw Han bool_decide_eq_false_2.
Qed.

(** The name of a mailbox that a SyncTarget wants, and that there is not. *)
Lemma sync1_create c mbsName st orig kb :
  two_parts mbsName → head (targets_by_index c mbsName) = Some st → mtDeleting st = false →
  AnalyzeObject (mtMeta st) = (orig, kb, None) → mbSpaceLister c mbsName = SpaceNotFound →
  (ss_CreateSpace ss spaceProviderNs (mailbox_space mbsName orig) (mbServer c)).1 = OutcomeOk →
  ∃ s', sync1 (refMailbox mbsName) c =
      (Done (), MkMbCtl (mbTargets c) (mbSpaceLister c) (mbRelation c) (mbQueue c) s') ∧
    spaces s' = <[(spaceProviderNs, mbsName) := defaulted spaceProviderNs (mailbox_space mbsName orig)]> (spaces (mbServer c)).
Proof using SpaceServerOk0.
  intros Hparts Hst Hdel Han Hnone Ho. unfold mbCtl_sync1. rw SM_bind_eq. unfold mbCtl_sync, sync_mailbox. rw Hparts.
  cbn [Nat.eqb negb]. rw SM_bind_eq. cbv beta iota delta [sget]. rw SM_bind_eq. cbv beta iota delta [sget].
  rw Hnone Hst Hdel Han SM_bind_eq. fold (mailbox_space mbsName orig).
  destruct (ss_CreateSpace ss spaceProviderNs (mailbox_space mbsName orig) (mbServer c)) as [o s'] eqn:Hc.
  rw (mbcall_eq _ _ o s') //. cbn in Ho. subst o. exists s'. split; [done|]. by apply create_space_ok in Hc as [-> _].
Qed.

(** The script that binds a resource succeeds for both of them, in turn. *)
Definition binds (mbsName : string) (s : S) : Prop :=
  (exec (bind_cmdLine mbsName "syncerconfigs") s).1 = Exited true ∧
  (exec (bind_cmdLine mbsName "edgesyncconfigs") (exec (bind_cmdLine mbsName "syncerconfigs") s).2).1 = Exited true.

(** The mailbox is bound once it is ready. *)
Lemma sync1_bind c mbsName st sp :
  two_parts mbsName → head (targets_by_index c mbsName) = Some st → mtDeleting st = false →
  mbSpaceLister c mbsName = GotSpace sp → spName sp = mbsName → spDeletionTimestamp sp = false →
  spPhase sp = SpacePhaseReady → binds mbsName (mbServer c) →
  sync1 (refMailbox mbsName) c =
    (Done (), MkMbCtl (mbTargets c) (mbSpaceLister c) (mbRelation c) (mbQueue c)
       (exec (bind_cmdLine mbsName "edgesyncconfigs") (exec (bind_cmdLine mbsName "syncerconfigs") (mbServer c)).2).2).
Proof using Type.
  intros Hparts Hst Hdel Hsp Hname Hspdel Hph [He1 He2]. unfold mbCtl_sync1. rw SM_bind_eq. unfold mbCtl_sync, sync_mailbox.
  rw Hparts. cbn [Nat.eqb negb]. rw SM_bind_eq. cbv beta iota delta [sget]. rw SM_bind_eq. cbv beta iota delta [sget].
  rw Hsp Hst Hdel Hspdel Hph bool_decide_eq_true_2 // Hname. cbn [negb]. unfold ensureBinding, resourcesToBind.
  cbn [bind_resources]. rw SM_bind_eq. destruct (exec (bind_cmdLine mbsName "syncerconfigs") (mbServer c)) as [r1 s1] eqn:H1. cbn in He1, He2. subst r1.
  rw (mbcall_eq _ _ _ _ H1) SM_bind_eq. cbn [snd].
  destruct (exec (bind_cmdLine mbsName "edgesyncconfigs") s1) as [r2 s2] eqn:H2. cbn in He2. subst r2.
  rw (mbcall_eq _ _ (Exited true) s2) //.
Qed.

(** The name of a mailbox that no SyncTarget wants. *)
Lemma sync1_unwanted c mbsName :
  two_parts mbsName → targets_by_index c mbsName = [] →
  (mbSpaceLister c mbsName = SpaceNotFound → sync1 (refMailbox mbsName) c = (Done (), c)) ∧
  (∀ sp s', mbSpaceLister c mbsName = GotSpace sp → spDeletionTimestamp sp = false →
     DeleteSpace spaceProviderNs mbsName (spUID sp) (mbServer c) = (OutcomeOk, s') →
     sync1 (refMailbox mbsName) c = (Done (), MkMbCtl (mbTargets c) (mbSpaceLister c) (mbRelation c) (mbQueue c) s')).
Proof using Type.
  intros Hparts Hno. unfold mbCtl_sync1. rw SM_bind_eq. unfold mbCtl_sync, sync_mailbox. rw Hparts.
  cbn [Nat.eqb negb]. rw SM_bind_eq. cbv beta iota delta [sget]. rw SM_bind_eq. cbv beta iota delta [sget]. rw Hno.
  cbn [head]. split.
  - by intros ->.
  - intros sp s' -> Hdel Hs. unfold delete_mailbox. rw Hdel SM_bind_eq. by rw (mbcall_eq _ _ _ _ Hs).
Qed.

(** * The life of a mailbox *)

(** What the informer of SyncTargets does with a new object. *)
Definition target_added (st : MailboxTarget) : SM C unit :=
  _ ← store_target st; mbCtl_OnAdd (MailboxSyncTarget st).
Definition target_removed (st : MailboxTarget) : SM C unit :=
  _ ← drop_target (omName (mtMeta st)); mbCtl_OnDelete (MailboxSyncTarget st).

(** The controller with another relation and other Spaces. *)
Definition observing (reln : KubeBindSpaceRelation) (lister : string → SpaceGet) (s : S) c : C :=
  MkMbCtl (mbTargets c) lister reln (mbQueue c) s.

(** C17: a SyncTarget that is added, of a consumer whose space is known, leads in two steps of
    the controller to a managed Space on the server that carries the name of the SyncTarget,
    if the server takes the request to create it; the space manager, once it has the Space in
    its store and knows the provider, asks the provider for it, if the server takes the update
    of the Space; and once the Space is ready, the next step binds the two resources of the
    syncer into it, if the script that does so succeeds for both, and leaves nothing to be
    retried. The SyncTarget is not being deleted, the name of the mailbox, made of the space
    and the UID, has exactly two parts at its separator, no other SyncTarget is indexed under
    it, and there is no Space of that name yet. *)
Theorem mailbox_of_target st c orig kb :
  AnalyzeObject (mtMeta st) = (orig, kb, None) → SpaceIDFromKubeBind (mbRelation c) kb ≠ "" → mtDeleting st = false →
  let mbsName := SpaceIDFromKubeBind (mbRelation c) kb +:+ mbsNameSep +:+ omUID (mtMeta st) in
  two_parts mbsName → not_indexed (delete (omName (mtMeta st)) (mbTargets c)) mbsName →
  mbSpaceLister c mbsName = SpaceNotFound →
  (ss_CreateSpace ss spaceProviderNs (mailbox_space mbsName orig) (mbServer c)).1 = OutcomeOk →
  ∃ c1 c2 c3,
    target_added st c = (Done (), c1) ∧ mbQueue c1 = mbQueue c ++ [refSyncTarget (omName (mtMeta st))] ∧
    sync1 (refSyncTarget (omName (mtMeta st))) c1 = (Done (), c2) ∧ mbQueue c2 = mbQueue c1 ++ [refMailbox mbsName] ∧
    sync1 (refMailbox mbsName) c2 = (Done (), c3) ∧ mbQueue c3 = mbQueue c2 ∧
    let made := defaulted spaceProviderNs (mailbox_space mbsName orig) in
    spaces (mbServer c3) !! (spaceProviderNs, mbsName) = Some made ∧
    (∀ (manager : controller PC S) key desc p, spaceStore manager !! key = Some made → spaceProvider ≠ "" →
       ss_GetProviderDesc ss spaceProvider (server manager) = Some desc → providers manager !! pdName desc = Some p →
       (ss_UpdateSpace ss (ProviderNS (pdName desc)) (initializing made) (server manager)).1 = true →
       ∃ manager', reconcileSpace ss key manager = (Done (), manager') ∧
         requests manager' = requests manager ++ [CreateRequest (providerClient p) mbsName ""]) ∧
    (∀ lister sp s, lister mbsName = GotSpace sp → spName sp = mbsName → spDeletionTimestamp sp = false →
       spPhase sp = SpacePhaseReady → binds mbsName s →
       sync1 (refMailbox mbsName) (observing (mbRelation c3) lister s c3) =
         (Done (), observing (mbRelation c3) lister
            (exec (bind_cmdLine mbsName "edgesyncconfigs") (exec (bind_cmdLine mbsName "syncerconfigs") s).2).2 c3)).
Proof using SpaceServerOk0.
  intros Han Hid Hdel mbsName Hparts Hnot Hnone Hcreates.
  set (st_values := (st, [mbsName]) : MailboxTarget * list string).
  set (targets := <[omName (mtMeta st) := st_values]> (mbTargets c)).
  assert (target_added st c = (Done (), MkMbCtl targets (mbSpaceLister c) (mbRelation c)
    (mbQueue c ++ [refSyncTarget (omName (mtMeta st))]) (mbServer c))) as H1.
  { unfold target_added. rw SM_bind_eq. unfold store_target, sput, mbsNameOfObj, mbsNameOfSynctarget.
    by rw Han bool_decide_eq_false_2. }
  set (c1 := MkMbCtl targets _ _ _ _) in H1.
  assert (∀ l r q (s : S), head (targets_by_index (MkMbCtl targets l r q s) mbsName) = Some st) as Hindex.
  { intros l r q s. apply (by_index_some _ _ (omName (mtMeta st)) st [mbsName]); cbn [mbTargets];
      [apply lookup_insert_eq|by left|by rw /targets delete_insert_eq]. }
  assert (mbTargets c1 !! omName (mtMeta st) = Some st_values) as Hst by apply lookup_insert_eq.
  pose proof (sync1_target _ _ _ c1 orig kb Hst Han Hid) as H2. set (c2 := MkMbCtl _ _ _ _ _) in H2.
  destruct (sync1_create c2 mbsName st orig kb Hparts) as (s' & H3 & Hs'); [apply Hindex|done..|].
  exists c1, c2. eexists. split_and!; [done|done|done|done|exact H3|done|]. intros made. split_and!.
  - cbn [mbServer]. rw Hs'. apply lookup_insert_eq.
  - intros manager key desc p Hk Hpn Hdesc Hp Hok.
    pose proof (reconcile_new_space ss key _ desc p manager Hk) as Hrun.
    fold made in Hrun. destruct (ss_UpdateSpace _ _ _ _) as [ok s'']. cbn in Hok. subst ok. rw Hrun //. by eexists.
  - intros lister sp s Hl Hname Hspdel Hph Hexec. exact (sync1_bind _ _ st sp Hparts (Hindex _ _ _ _) Hdel Hl Hname Hspdel Hph Hexec).
Qed.

(** When a SyncTarget is removed, the controller drops the reference to it, because it is
    not in the local cache any more, and the mailbox stays; although the controller would
    delete the mailbox if only its name were processed. *)
Theorem deleted_target_mailbox_stays st mbsName sp c s' :
  two_parts mbsName → not_indexed (delete (omName (mtMeta st)) (mbTargets c)) mbsName →
  mbSpaceLister c mbsName = GotSpace sp → spDeletionTimestamp sp = false →
  DeleteSpace spaceProviderNs mbsName (spUID sp) (mbServer c) = (OutcomeOk, s') →
  ∃ c1, target_removed st c = (Done (), c1) ∧ mbQueue c1 = mbQueue c ++ [refSyncTarget (omName (mtMeta st))] ∧
    mbServer c1 = mbServer c ∧
    sync1 (refSyncTarget (omName (mtMeta st))) c1 = (Done (), c1) ∧
    sync1 (refMailbox mbsName) c1 = (Done (), observing (mbRelation c1) (mbSpaceLister c1) s' c1).
Proof using Type.
  intros Hparts Hnot Hsp Hdel Hs'. eexists. split; [done|]. split_and!; [done|done|..].
  - unfold mbCtl_sync1. rw SM_bind_eq. unfold mbCtl_sync, sync_target. rw SM_bind_eq. cbv beta iota delta [sget].
    cbn [mbTargets]. by rw lookup_delete_eq.
  - by eapply sync1_unwanted; [|apply by_index_none| ..].
Qed.

(** C40: a SyncTarget that is stored while the space of its consumer is not known gets no
    mailbox when it becomes known: its reference is retried until then and leads to the name
    of the mailbox, but the index, made when the object was stored, does not have that name. *)
Theorem late_space_id_no_mailbox st c orig kb reln :
  AnalyzeObject (mtMeta st) = (orig, kb, None) → SpaceIDFromKubeBind (mbRelation c) kb = "" →
  SpaceIDFromKubeBind reln kb ≠ "" →
  let mbsName := SpaceIDFromKubeBind reln kb +:+ mbsNameSep +:+ omUID (mtMeta st) in
  two_parts mbsName → not_indexed (delete (omName (mtMeta st)) (mbTargets c)) mbsName →
  mbSpaceLister c mbsName = SpaceNotFound →
  ∃ c1 c2 c3,
    target_added st c = (Done (), c1) ∧
    sync1 (refSyncTarget (omName (mtMeta st))) c1 = (Done (), c2) ∧ mbQueue c2 = mbQueue c1 ++ [refSyncTarget (omName (mtMeta st))] ∧
    sync1 (refSyncTarget (omName (mtMeta st))) (observing reln (mbSpaceLister c2) (mbServer c2) c2) = (Done (), c3) ∧
    mbQueue c3 = mbQueue c2 ++ [refMailbox mbsName] ∧
    sync1 (refMailbox mbsName) c3 = (Done (), c3).
Proof using Type.
  intros Han Hno Hid mbsName Hparts Hnot Hnone.
  set (targets := <[omName (mtMeta st) := (st, [])]> (mbTargets c)).
  assert (target_added st c = (Done (), MkMbCtl targets (mbSpaceLister c) (mbRelation c)
    (mbQueue c ++ [refSyncTarget (omName (mtMeta st))]) (mbServer c))) as H1.
  { unfold target_added. rw SM_bind_eq. unfold store_target, sput, mbsNameOfObj, mbsNameOfSynctarget.
    by rw Han Hno bool_decide_eq_true_2. }
  set (c1 := MkMbCtl targets _ _ _ _) in H1.
  assert (∀ l r q (s : S), mbTargets (MkMbCtl targets l r q s) !! omName (mtMeta st) = Some (st, [])) as Hst
    by (intros; apply lookup_insert_eq).
  assert (sync1 (refSyncTarget (omName (mtMeta st))) c1 = (Done (), MkMbCtl targets (mbSpaceLister c) (mbRelation c)
    (mbQueue c1 ++ [refSyncTarget (omName (mtMeta st))]) (mbServer c))) as H2.
  { unfold mbCtl_sync1. rw SM_bind_eq. unfold mbCtl_sync, sync_target. rw SM_bind_eq. cbv beta iota delta [sget].
    rw Hst SM_bind_eq. cbv beta iota delta [sget]. unfold mbsNameOfSynctarget. by rw Han Hno bool_decide_eq_true_2. }
  eexists c1, _, _. split_and!; [done|exact H2|done|exact (sync1_target _ _ _ _ orig kb (Hst _ _ _ _) Han Hid)|done|].
  apply sync1_unwanted; [done| |done]. apply by_index_none. cbn [mbTargets observing].
  intros n st' values. unfold targets. destruct (decide (n = omName (mtMeta st))) as [-> |Hne].
  - rw lookup_insert_eq. intros [= _ <-]. apply not_elem_of_nil.
  - rw lookup_insert_ne //. intros Hn. eapply (Hnot n). by rw lookup_delete_ne.
Qed.
End facts.
