(* ===== verification/Witnesses.v ===== *)
(** The theorems of the development at concrete inputs: recording receivers and
    small worlds for which all their hypotheses hold. *)

From S2P Require Import Prelude Tuples Interfaces Slices Sets Maps Types HashDomains HashMap.
From S2P Require Import Relations FactoredMap Receivers Differencers Joins RelayMap Organizer SetBinder.

#[local] Existing Instance canonical_range.

(** * Recording receivers

    A receiver that keeps what it is told in a variable of its own. *)

Definition set_recorder {W E} `{Countable E} (c : Cell W (gset E)) : SetWriter W E :=
  MapSet_AsMutableSet c.
Definition map_recorder {W K V} `{Countable K} (c : Cell W (gmap K V)) : MappingReceiver W K V :=
  MapMap_AsMutableMap None c.
Definition change_recorder {W K V} `{Countable K} (c : Cell W (gmap K V)) : MapChangeReceiver W K V :=
  MappingReceiverDiscardsPrevious (map_recorder c).

#[local] Instance set_recorder_ok {W E} `{Countable E} (c : Cell W (gset E)) `{!CellOk c} :
  SetWriterOk (set_recorder c) (λ _, True) (cget c).
Proof. apply (MutableSetOk_writer (MapSet_AsMutableSet c) c (λ _, True) id). apply _. Qed.

#[local] Instance map_recorder_ok {W K V} `{Countable K} (c : Cell W (gmap K V)) `{!CellOk c} :
  MappingReceiverOk (map_recorder c) (λ _, True) (cget c).
Proof. apply (MutableMapOk_receiver (MapMap_AsMutableMap None c) c (λ _, True) id). apply _. Qed.

#[local] Instance change_recorder_ok {W K V} `{Countable K} (c : Cell W (gmap K V)) `{!CellOk c} :
  MapChangeReceiverOk (change_recorder c) (λ _, True) (cget c).
Proof. apply MappingReceiverDiscardsPrevious_ok. apply _. Qed.

#[local] Instance set_recorder_quiet {W E X} `{Countable E} (c : Cell W (gset E)) (f : W → X) :
  Indep c f → QuietSW (set_recorder c) f.
Proof.
  intros Hf. split; intros e w; simpl.
  - rw MapSet_Add_spec. apply Hf.
  - rw MapSet_Remove_spec. apply Hf.
Qed.

#[local] Instance map_recorder_quiet {W K V X} `{Countable K} (c : Cell W (gmap K V)) (f : W → X) :
  Indep c f → QuietMR (map_recorder c) f.
Proof. intros Hf. by apply MapMap_quiet. Qed.

#[local] Instance change_recorder_quiet {W K V X} `{Countable K} (c : Cell W (gmap K V)) (f : W → X) :
  Indep c f → QuietMCR (change_recorder c) f.
Proof. intros Hf. split; intros; cbn; apply map_recorder_quiet; done. Qed.

#[local] Instance true_indep {W S} (c : Cell W S) : Indep c (λ _, True).
Proof. done. Qed.

(** * Collections *)

Lemma SetAddAll_correct_witness :
  ∃ r w', SetAddAll (MapSet_AsMutableSet id_cell) [1; 2] ({[2]} : gset nat) = ((true, false), w') ∧
    Updated id_cell r {[2]} w' ∧ True ∧ r = list_to_set [1; 2] ∪ {[2]}.
Proof.
  destruct (SetAddAll_correct (MapSet_AsMutableSet id_cell) id_cell (λ _, True) id [1; 2]
    ({[2]} : gset nat) I) as (r & w' & Heq & Hu & _ & Hr).
  exists r, w'. split_and!; [exact Heq|exact Hu|exact I|exact Hr].
Defined.


(** A set and a map that do not depend on the world. *)
Definition const_cell {W S} (s : S) : Cell W S := MkCell (λ _, s) (λ _ w, w).
Definition const_set {W E} `{Countable E} (X : gset E) : GoSet W E :=
  MapSet_AsMutableSet (const_cell X).
Definition const_map {W K V} `{Countable K} (m : gmap K V) : GoMap W K V :=
  MapMap_AsMutableMap None (const_cell m).

#[local] Instance const_set_ok {W E} `{Countable E} (X : gset E) :
  GoSetOk (const_set X : GoSet W E) (λ _, True) (λ _, X).
Proof.
  destruct (ms_set_ok (MutableSetOk:=MapSet_ok (@id_cell (gset E)))) as [H1 H2 H3 H4].
  split; intros; [apply (H1 X I)|apply (H2 X I)|apply (H3 e X I)|apply (H4 X I)].
Qed.

#[local] Instance const_map_ok {W K V} `{Countable K} (m : gmap K V) :
  GoMapOk (const_map m : GoMap W K V) (λ _, True) (λ _, m).
Proof.
  destruct (mm_map_ok (MutableMapOk:=MapMap_ok None (@id_cell (gmap K V)))) as [H1 H2 H3 H4].
  split; intros; [apply (H1 m I)|apply (H2 m I)|apply (H3 k m I)|apply (H4 m I)].
Qed.

Lemma SetEnumerateDifferences_correct_witness :
  let L := {[1; 2]} : gset nat in
  let w' := SetEnumerateDifferences (const_set L) (const_set {[2; 3]}) (set_recorder id_cell) L in
  True ∧ w' = (L ∖ (L ∖ {[2; 3]})) ∪ ({[2; 3]} ∖ L) ∧ (L = L → w' = {[2; 3]}).
Proof.
  exact (SetEnumerateDifferences_correct (λ _, True) {[1; 2]} {[2; 3]} (const_set {[1; 2]})
    (const_set {[2; 3]}) (set_recorder id_cell) (cget id_cell) {[1; 2]} I).
Defined.

Lemma MapSetSymmetricDifference_correct_witness :
  MapSetSymmetricDifference true false true (const_set {[1; 2]}) (const_set {[2; 3]}) ()
  = Some (Some ({[1; 2]} ∖ {[2; 3]}), None, Some ({[2; 3]} ∖ {[1; 2]} : gset nat)).
Proof.
  exact (MapSetSymmetricDifference_correct (const_set {[1; 2]}) (const_set {[2; 3]})
    (λ _, True) (λ _, True) (λ _, {[1; 2]}) (λ _, {[2; 3]}) true false true () I I).
Defined.

Lemma WrapSetWithMutex_Remove_adds_witness :
  let '(change, w') := sw_Remove (WrapSetWithMutex (MapSet_AsMutableSet id_cell)) 7 (∅ : gset nat) in
  change = true ∧ True ∧ w' = {[7]} ∪ ∅.
Proof.
  exact (WrapSetWithMutex_Remove_adds (MapSet_AsMutableSet id_cell) id_cell (λ _, True) id 7 ∅ I).
Defined.

Lemma MapMap_observed_witness :
  MappingReceiverOk
    (MapMap_AsMutableMap (Some (change_recorder snd_cell)) (@fst_cell (gmap nat bool) (gmap nat bool)))
    (λ w, True ∧ cget snd_cell w = cget fst_cell w) (cget fst_cell).
Proof. exact (MapMap_observed fst_cell (change_recorder snd_cell) (λ _, True) (cget snd_cell)). Defined.

Lemma MapEnumerateDifferences_correct_witness :
  let L := {[1 := true]} : gmap nat bool in
  let w' := MapEnumerateDifferences (const_map L) (const_map {[1 := false]}) (change_recorder id_cell) L in
  True ∧ w' = {[1 := false]}.
Proof.
  exact (MapEnumerateDifferences_correct (λ _, True) {[1 := true]} {[1 := false]}
    (const_map {[1 := true]}) (const_map {[1 := false]}) (change_recorder id_cell) (cget id_cell)
    {[1 := true]} I eq_refl).
Defined.

Lemma hashMap_refines_witness :
  let m := hashMap_AsMutableMap HashDomainString None id_cell in
  let ops := [OpPut "a" 1; OpPut "b" 2; OpDelete "a"] in
  let hm := for_each ops (run_op m) (NewHashMap id_cell emptyBuckets) in
  let spec := for_each ops spec_op (∅ : gmap string nat) in
  hashMap_wf HashDomainString hm ∧
  (∀ key, map_Get m key hm = spec !! key) ∧
  map_Len m hm = size spec ∧ map_IsEmpty m hm = bool_decide (spec = ∅) ∧
  map_Visit m hm ≡ₚ map_to_list spec.
Proof. exact (hashMap_refines HashDomainString [OpPut "a" 1; OpPut "b" 2; OpDelete "a"]). Defined.

(** * Relations, factored maps, forks *)

Lemma relation2WithObservers_in_step_witness :
  let rel := NewMapRelation2 (@fst_cell (MapRelation2Rep nat nat) (gset (nat * nat))) in
  let observers := [(set_recorder snd_cell, cget snd_cell)] in
  SetWriterOk (Relation2WithObservers rel observers.*1)
    (in_step fst_cell (indexed_wf (λ _, True) id (λ _, True) id) (indexed_abs PairFactorer id id)
       observers (λ _, True))
    (λ w, indexed_abs PairFactorer id id (cget fst_cell w)).
Proof.
  apply (relation2WithObservers_in_step (NewMapRelation2 fst_cell) fst_cell _ _
    [(set_recorder snd_cell, cget snd_cell)] (λ _, True)).
  - intros [|i] o [= <-]. split; [apply _|]. split; apply _.
  - intros [|i] [|j] o o' [=] [=] Hne. by destruct Hne.
Defined.

(** Summing the values of a group. *)
Definition sum_group (_ : nat) (m : gmap nat nat) : nat := map_fold (λ _ v s, v + s) 0 m.

Lemma FactoredMapAggregator_groups_witness :
  let c := @fst_cell (gmap nat (gmap nat nat)) (gmap nat nat) in
  let fm := NewFactoredMapMapAggregator PairFactorer None None sum_group (map_recorder snd_cell) c in
  let ops := [OpPut (1, 1) 5; OpPut (1, 2) 6; OpPut (2, 2) 7; OpDelete (2, 2)] in
  let w' := for_each ops (run_op fm) (∅, ∅) in
  map_Get fm (1, 2) w' = Some 6 ∧ w'.2 !! 1 = Some 11 ∧ w'.2 !! 2 = None.
Proof.
  destruct (FactoredMapAggregator_groups PairFactorer sum_group fst_cell (map_recorder snd_cell)
    (λ _, True) (cget snd_cell) [OpPut (1, 1) 5; OpPut (1, 2) 6; OpPut (2, 2) 7; OpDelete (2, 2)]
    (∅, ∅) eq_refl I eq_refl) as [Hget Hagg].
  split_and!; [rw Hget|rw (Hagg 1)|rw (Hagg 2)]; vm_compute; reflexivity.
Defined.

Lemma SetWriterFork_broadcasts_witness :
  SetWriterSim (SetWriterFork true [set_recorder (@fst_cell (gset nat) (gset nat)); set_recorder snd_cell])
    (λ X w, [w.1; w.2] = replicate 2 X).
Proof.
  apply (SetWriterFork_broadcasts true [set_recorder fst_cell; set_recorder snd_cell]
    (λ Xs w, [w.1; w.2] = Xs)).
  intros [|[|i]] r Xs X e w [= <-] HX <-; cbn in HX; injection HX as <-; cbn;
    rw MapSet_Add_spec MapSet_Remove_spec; done.
Defined.

(** * Differencers *)

Lemma setDifferencer_tracks_witness :
  let receive := setDifferenceByMapAndEnum_Receive id (set_recorder snd_cell)
    (@fst_cell (MapSet nat) (gset nat)) in
  let w' := receive [3; 3; 1] (for_each [[1; 2]; []] receive (∅, ∅)) in
  cget fst_cell w' = list_to_set [3; 3; 1] ∧ w'.2 = list_to_set [3; 3; 1].
Proof.
  apply (setDifferencer_tracks id (set_recorder snd_cell) fst_cell (λ X w, w.2 = X)).
  - intros X r w w' Hu <-. apply (Updated_indep _ (cget snd_cell) _ _ _ Hu _).
  - intros e X w _ <-. by apply (sw_add_ok (SetWriterOk:=set_recorder_ok snd_cell)).
  - intros e X w _ <-. by apply (sw_remove_ok (SetWriterOk:=set_recorder_ok snd_cell)).
  - done.
Defined.

Definition pod : WorkloadPartID := NewTriple (MkGroupResource "" "pods") "ns" "p".
Definition pod_details : WorkloadPartDetails := MkWorkloadPartDetails "v1" true false.

Lemma mapDifferencer_tracks_witness :
  let receive := NewWorkloadPartsDifferencer (change_recorder snd_cell)
    (@fst_cell (gmap WorkloadPartID WorkloadPartDetails) (gmap WorkloadPartID WorkloadPartDetails)) in
  let w' := receive (Some {[pod := pod_details]}) (for_each [None] receive (∅, ∅)) in
  True ∧ w'.2 = {[pod := pod_details]} ∧ w'.1 = {[pod := pod_details]}.
Proof.
  exact (mapDifferencer_tracks fst_cell (change_recorder snd_cell) (λ _, True) (cget snd_cell) [None]
    (Some {[pod := pod_details]}) (∅, ∅) I eq_refl).
Defined.

Definition an_upsync : UpsyncSet := MkUpsyncSet "g" ["r"] ["n"] ["m"].

Lemma sliceDifferencer_tracks_witness :
  let receive := sliceDifferencer_Receive UpsyncSetEqual
    (λ add e w, if add : bool then (w.1, {[e]} ∪ w.2) else (w.1, w.2 ∖ {[e]})) fst_cell in
  let w' := receive [an_upsync] (for_each [[]] receive ([], ∅ : gset UpsyncSet)) in
  cget fst_cell w' = [an_upsync] ∧ w'.2 = list_to_set [an_upsync].
Proof.
  apply (sliceDifferencer_tracks
    (λ add e w, if add : bool then (w.1, {[e]} ∪ w.2) else (w.1, w.2 ∖ {[e]})) UpsyncSetEqual fst_cell
    (λ X w, w.2 = X)).
  - apply UpsyncSetEqual_spec.
  - by intros [].
  - done.
  - by intros e X w <-.
  - by intros e X w <-.
  - done.
Defined.

(** * Joins *)


Lemma DynamicFullJoin_maintains_join_witness :
  let cxy := compose_cell fst_cell (@fst_cell (MapRelation2Rep nat nat) (MapRelation2Rep nat nat)) in
  let cxz := compose_cell fst_cell snd_cell in
  let receiver := set_recorder (@snd_cell _ (gset (Triple nat nat nat))) in
  let join := NewDynamicFullJoin12with13 cxy cxz receiver in
  let ops := [inl (OpAdd (1, 2)); inr (OpAdd (1, 3)); inr (OpAdd (1, 4)); inl (OpRemove (1, 2))] in
  let w' := for_each ops (run_either (run_set_op join.1) (run_set_op join.2)) ((∅, ∅), ∅) in
  let spec := for_each ops (spec_either spec_set_op spec_set_op) (∅, ∅) in
  is_join spec.1 spec.2 w'.2.
Proof.
  exact (DynamicFullJoin_maintains_join (set_recorder snd_cell) (λ _, True) (cget snd_cell)
    (compose_cell fst_cell fst_cell) (compose_cell fst_cell snd_cell)
    [inl (OpAdd (1, 2)); inr (OpAdd (1, 3)); inr (OpAdd (1, 4)); inl (OpRemove (1, 2))]
    ((∅, ∅), ∅) eq_refl eq_refl I eq_refl).
Defined.

Lemma DynamicFullJoinParametric_maintains_join_witness :
  let d := HashDomainString in
  let cxy := compose_cell fst_cell (@fst_cell (HashRelation2Rep string string)
                                      (HashRelation2Rep string string)) in
  let cxz := compose_cell fst_cell snd_cell in
  let receiver := set_recorder (@snd_cell _ (gset (Triple string string string))) in
  let join := NewDynamicFullJoin12with13Parametric d d d cxy cxz receiver in
  let ops := [inl (OpAdd ("a", "b")); inr (OpAdd ("a", "c")); inr (OpRemove ("a", "c"))] in
  let w' := for_each ops (run_either (run_set_op join.1) (run_set_op join.2))
              ((emptyBuckets, emptyBuckets), ∅) in
  let spec := for_each ops (spec_either spec_set_op spec_set_op) (∅, ∅) in
  is_join spec.1 spec.2 w'.2.
Proof.
  exact (DynamicFullJoinParametric_maintains_join (set_recorder snd_cell) (λ _, True) (cget snd_cell)
    HashDomainString HashDomainString HashDomainString
    (compose_cell fst_cell fst_cell) (compose_cell fst_cell snd_cell)
    [inl (OpAdd ("a", "b")); inr (OpAdd ("a", "c")); inr (OpRemove ("a", "c"))]
    ((emptyBuckets, emptyBuckets), ∅) eq_refl eq_refl I eq_refl).
Defined.

Lemma DynamicFullJoin12V_maintains_join_witness :
  let cxyv := compose_cell fst_cell (@fst_cell (gmap nat (gmap nat bool)) (MapRelation2Rep nat nat)) in
  let cxz := compose_cell fst_cell snd_cell in
  let receiver := map_recorder (@snd_cell _ (gmap (Triple nat nat nat) bool)) in
  let join := NewDynamicFullJoin12VWith13 cxyv cxz receiver in
  let ops := [inl (OpPut (1, 2) true); inr (OpAdd (1, 3)); inl (OpPut (1, 2) false)] in
  let w' := for_each ops (run_either (run_op join.1) (run_set_op join.2)) ((∅, ∅), ∅) in
  let spec := for_each ops (spec_either spec_op spec_set_op) (∅, ∅) in
  w'.2 !! NewTriple 1 2 3 = (if decide ((1, 3) ∈ spec.2) then spec.1 !! (1, 2) else None).
Proof.
  exact (DynamicFullJoin12V_maintains_join (compose_cell fst_cell fst_cell)
    (compose_cell fst_cell snd_cell) (map_recorder snd_cell) (λ _, True) (cget snd_cell)
    [inl (OpPut (1, 2) true); inr (OpAdd (1, 3)); inl (OpPut (1, 2) false)]
    ((∅, ∅), ∅) eq_refl eq_refl I eq_refl 1 2 3).
Defined.

Lemma DynamicJoin_maintains_composition_witness :
  let own := (MapRelation2Rep nat nat * MapRelation2Rep nat nat * gmap (nat * nat) (MapSet nat))%type in
  let cxy := compose_cell (@fst_cell own (gset (nat * nat))) (compose_cell fst_cell fst_cell) in
  let cxz := compose_cell (@fst_cell own (gset (nat * nat))) (compose_cell fst_cell snd_cell) in
  let cindex := compose_cell (@fst_cell own (gset (nat * nat))) snd_cell in
  let join := NewDynamicJoin12with13 cxy cxz cindex (set_recorder snd_cell) in
  let ops := [inl (OpAdd (1, 2)); inr (OpAdd (1, 3)); inl (OpAdd (5, 2)); inr (OpAdd (5, 3))] in
  let w' := for_each ops (run_either (run_set_op join.1) (run_set_op join.2)) ((∅, ∅, ∅), ∅) in
  let spec := for_each ops (spec_either spec_set_op spec_set_op) (∅, ∅) in
  (2, 3) ∈ w'.2 ↔ ∃ x, (x, 2) ∈ spec.1 ∧ (x, 3) ∈ spec.2.
Proof.
  exact (DynamicJoin_maintains_composition (compose_cell fst_cell (compose_cell fst_cell fst_cell))
    (compose_cell fst_cell (compose_cell fst_cell snd_cell)) (compose_cell fst_cell snd_cell)
    (set_recorder snd_cell) (λ _, True) (cget snd_cell)
    [inl (OpAdd (1, 2)); inr (OpAdd (1, 3)); inl (OpAdd (5, 2)); inr (OpAdd (5, 3))]
    ((∅, ∅, ∅), ∅) eq_refl eq_refl eq_refl I eq_refl 2 3).
Defined.

(** A one-element relation. *)
Definition one_pair (a b : nat) : MapRelation2Rep nat nat := {[a := {[b]}]}.

Lemma one_pair_wf a b : indexed_wf (λ _, True) id (λ _, True) id (one_pair a b).
Proof.
  split; [done|]. intros k vs Hk.
  change (({[a := {[b]}]} : gmap nat (gset nat)) !! k = Some vs) in Hk.
  apply lookup_singleton_Some in Hk as [<- <-]. split; [done|]. apply non_empty_inhabited_L with b.
  set_solver.
Qed.

Lemma Relation2Equijoin12with13_correct_witness :
  set_Has (NewMapRelation2 id_cell) (2, 3)
    (Relation2Equijoin12with13 (NewMapRelation2 fst_cell) (NewMapRelation2 snd_cell)
       (one_pair 1 2, one_pair 1 3)) = true
  ↔ ∃ x, (x, 2) ∈ indexed_abs PairFactorer id id (one_pair 1 2) ∧
         (x, 3) ∈ indexed_abs PairFactorer id id (one_pair 1 3).
Proof.
  exact (Relation2Equijoin12with13_correct (NewMapRelation2 fst_cell) (NewMapRelation2 snd_cell)
    fst_cell snd_cell _ _ _ _ (one_pair 1 2, one_pair 1 3) (one_pair_wf 1 2) (one_pair_wf 1 3) 2 3).
Defined.

Lemma Map12VEquijoinRelation13_correct_witness :
  Map12VEquijoinRelation13 (const_map {[(0, 1) := true]}) (NewMapRelation2 id_cell)
    (one_pair 1 2) !! NewTriple 0 1 2
  = (if decide ((1, 2) ∈ indexed_abs PairFactorer id id (one_pair 1 2))
     then ({[(0, 1) := true]} : gmap (nat * nat) bool) !! (0, 1) else None).
Proof.
  exact (Map12VEquijoinRelation13_correct (const_map {[(0, 1) := true]}) (NewMapRelation2 id_cell)
    id_cell (λ _, True) (λ _, {[(0, 1) := true]}) _ _ (one_pair 1 2) I (one_pair_wf 1 2) 0 1 2).
Defined.

(** * Relay maps and client trackers *)

(** Two receivers, in the components of a pair. *)
Definition relay_world : Type := relayMap nat nat bool * (gmap nat nat * gmap nat nat).
Definition relay_receiver (i : bool) : MappingReceiver relay_world nat nat :=
  if i then map_recorder (compose_cell snd_cell fst_cell)
  else map_recorder (compose_cell snd_cell snd_cell).
Definition relay_known (i : bool) : relay_world → gmap nat nat :=
  if i then cget (compose_cell snd_cell fst_cell) else cget (compose_cell snd_cell snd_cell).

Lemma relayMap_receivers_in_step_witness :
  let ops := [RelayPut 1 10; RelayAddReceiver true; RelayPut 2 20; RelayAddReceiver false;
              RelayAddReceiver true; RelayRemove 1] in
  let w' := for_each ops (run_relay_op true (λ v, v + 1) 0 relay_receiver fst_cell)
              (NewRelayAndProjectMap, (∅, ∅)) in
  let spec := for_each ops (spec_relay_op true (λ v, v + 1) 0) (∅, []) in
  w'.1 = MkRelayMap spec.1 spec.2 ∧
  ∀ i, i ∈ spec.2 → relay_known i w' = (λ v, v + 1) <$> spec.1.
Proof.
  apply (relayMap_receivers_in_step true (λ v, v + 1) 0 relay_receiver fst_cell relay_known).
  - by intros [].
  - by intros []; apply map_recorder_quiet.
  - intros [] k v w; by apply (mr_put_ok (MappingReceiverOk:=map_recorder_ok _)).
  - intros [] k w; by apply (mr_delete_ok (MappingReceiverOk:=map_recorder_ok _)).
  - intros [] [] Hne; try done; by apply map_recorder_quiet; intros ??.
  - done.
  - by intros [].
Defined.

Definition tracker_world : Type := ClientTracker nat bool * (bool → option nat).

Lemma ClientTracker_informs_clients_witness :
  let setp := λ (i : bool) (p : nat) (w : tracker_world),
    (w.1, λ j, if decide (j = i) then Some p else w.2 j) in
  let w := (MkClientTracker 7 ({[true]} : gset bool), λ _, Some 7) : tracker_world in
  tracker_in_step fst_cell (λ i w, w.2 i) (ClientTracker_AddClient setp fst_cell false w) ∧
  let '(last, w') := ClientTracker_RemoveClient fst_cell true w in
  last = true ↔ ct_clients (cget fst_cell w) = {[true]}.
Proof.
  set (setp := λ (i : bool) (p : nat) (w : tracker_world),
    (w.1, λ j, if decide (j = i) then Some p else w.2 j)).
  set (w := (MkClientTracker 7 ({[true]} : gset bool), λ _, Some 7) : tracker_world).
  destruct (ClientTracker_informs_clients setp fst_cell (λ i w, w.2 i)) with (w := w)
    as (Hadd & Hrem & _).
  - done.
  - intros i p w0. cbn. by rw decide_True.
  - intros i j p w0 Hne. cbn. by rw decide_False.
  - done.
  - by intros i _.
  - split; [apply Hadd|exact (proj2 (proj2 (Hrem true)))].
Defined.

(** * The organizer and the set binder *)

(** A workload projector that records what it is told. *)
Definition recorded : Type :=
  gmap NamespacedDistributionTuple DistributionBits * gmap ProjectionModeKey ProjectionModeVal
  * gmap NonNamespacedDistributionTuple DistributionBits * gmap ProjectionModeKey ProjectionModeVal
  * gset (SinglePlacement * UpsyncSet).

Abbreviation fst4 := (compose_cell fst_cell (compose_cell fst_cell fst_cell)).

Definition recording_sections : WorkloadProjectionSections recorded :=
  MkWorkloadProjectionSections
    (map_recorder (compose_cell fst4 fst_cell))
    (map_recorder (compose_cell fst4 snd_cell))
    (map_recorder (compose_cell fst_cell (compose_cell fst_cell snd_cell)))
    (map_recorder (compose_cell fst_cell snd_cell))
    (set_recorder snd_cell).
Definition recording_projector : WorkloadProjector recorded :=
  MkWorkloadProjector (λ p, (recording_sections, p)) id.

Definition has_recorded nd nm cd cm us (p : recorded) : Prop :=
  cget (compose_cell fst4 fst_cell) p = nd ∧ cget (compose_cell fst4 snd_cell) p = nm ∧
  cget (compose_cell fst_cell (compose_cell fst_cell snd_cell)) p = cd ∧
  cget (compose_cell fst_cell snd_cell) p = cm ∧ cget snd_cell p = us.

(** A recorder changes its variable and keeps what is true of the rest of the world. *)
Lemma map_recorder_sim {W K V} `{Countable K} (c : Cell W (gmap K V)) `{!CellOk c} (R : W → Prop) :
  Indep c R → MappingReceiverSim (map_recorder c) (λ m w, cget c w = m ∧ R w).
Proof.
  intros HR. split.
  - intros k v m w [<- Hw]. split.
    + by apply (mr_put_ok (MappingReceiverOk:=map_recorder_ok c)).
    + by rw (quiet_put (QuietMR:=map_recorder_quiet c R HR)).
  - intros k m w [<- Hw]. split.
    + by apply (mr_delete_ok (MappingReceiverOk:=map_recorder_ok c)).
    + by rw (quiet_delete (QuietMR:=map_recorder_quiet c R HR)).
Qed.

Lemma set_recorder_sim {W E} `{Countable E} (c : Cell W (gset E)) `{!CellOk c} (R : W → Prop) :
  Indep c R → SetWriterSim (set_recorder c) (λ X w, cget c w = X ∧ R w).
Proof.
  intros HR. split.
  - intros e X w [<- Hw]. split.
    + by apply (sw_add_ok (SetWriterOk:=set_recorder_ok c)).
    + by rw (quiet_add (QuietSW:=set_recorder_quiet c R HR)).
  - intros e X w [<- Hw]. split.
    + by apply (sw_remove_ok (SetWriterOk:=set_recorder_ok c)).
    + by rw (quiet_remove (QuietSW:=set_recorder_quiet c R HR)).
Qed.

#[local] Instance recording_sections_ok : SectionsSim has_recorded recording_sections.
Proof.
  split.
  - intros nm cd cm us. unshelve refine (MappingReceiverSim_iff _ _ _ _ (map_recorder_sim _ (λ p,
      cget (compose_cell fst4 snd_cell) p = nm ∧
      cget (compose_cell fst_cell (compose_cell fst_cell snd_cell)) p = cd ∧
      cget (compose_cell fst_cell snd_cell) p = cm ∧ cget snd_cell p = us) _)); [|done].
    unfold has_recorded. tauto.
  - intros nd cd cm us. unshelve refine (MappingReceiverSim_iff _ _ _ _ (map_recorder_sim _ (λ p,
      cget (compose_cell fst4 fst_cell) p = nd ∧
      cget (compose_cell fst_cell (compose_cell fst_cell snd_cell)) p = cd ∧
      cget (compose_cell fst_cell snd_cell) p = cm ∧ cget snd_cell p = us) _)); [|done].
    unfold has_recorded. tauto.
  - intros nd nm cm us. unshelve refine (MappingReceiverSim_iff _ _ _ _ (map_recorder_sim _ (λ p,
      cget (compose_cell fst4 fst_cell) p = nd ∧ cget (compose_cell fst4 snd_cell) p = nm ∧
      cget (compose_cell fst_cell snd_cell) p = cm ∧ cget snd_cell p = us) _)); [|done].
    unfold has_recorded. tauto.
  - intros nd nm cd us. unshelve refine (MappingReceiverSim_iff _ _ _ _ (map_recorder_sim _ (λ p,
      cget (compose_cell fst4 fst_cell) p = nd ∧ cget (compose_cell fst4 snd_cell) p = nm ∧
      cget (compose_cell fst_cell (compose_cell fst_cell snd_cell)) p = cd ∧
      cget snd_cell p = us) _)); [|done].
    unfold has_recorded. tauto.
  - intros nd nm cd cm. unshelve refine (SetWriterSim_iff _ _ _ _ (set_recorder_sim _ (λ p,
      cget (compose_cell fst4 fst_cell) p = nd ∧ cget (compose_cell fst4 snd_cell) p = nm ∧
      cget (compose_cell fst_cell (compose_cell fst_cell snd_cell)) p = cd ∧
      cget (compose_cell fst_cell snd_cell) p = cm) _)); [|done].
    unfold has_recorded. tauto.
Qed.

#[local] Instance recording_projector_ok : WorkloadProjectorSim has_recorded recording_projector.
Proof. split; [|done]. intros. by split; [apply recording_sections_ok|]. Qed.

Definition edge1 : SinglePlacement := MkSinglePlacement "imw1" "loc1" "st1" "uid1".
Definition placement1 : ExternalName := MkExternalName "wds1" "ep1".
Definition placement2 : ExternalName := MkExternalName "wds1" "ep2".
Definition deployment1 : WorkloadPartID :=
  NewTriple (MkGroupResource "apps" "deployments") "ns1" "web".
Definition crd_upsync : UpsyncSet := MkUpsyncSet "group1.test" ["sprockets"] ["*"] ["*"].

Definition role1 : WorkloadPartID :=
  NewTriple (MkGroupResource "rbac.authorization.k8s.io" "clusterroles") "" "web".

(** A namespaced object that two EdgePlacements bind to the same destination, and a
    cluster-scoped one of the same name. *)
Definition sample_transactions : list (list BindingOp) :=
  [[BindingPut (NewTriple placement1 deployment1 edge1) (MkWorkloadPartDetails "v1" true false);
    BindingPut (NewTriple placement2 deployment1 edge1) (MkWorkloadPartDetails "v1" false false);
    BindingPut (NewTriple placement1 role1 edge1) (MkWorkloadPartDetails "v1" false false)];
   [BindingDelete (NewTriple placement1 deployment1 edge1);
    UpsyncChange true (NewTriple placement1 crd_upsync edge1)]].

Definition organizer_world : simpleBindingOrganizer * recorded := (empty_organizer, (∅, ∅, ∅, ∅, ∅)).

Lemma organizer_informs_projector_witness :
  let w' := for_each sample_transactions (λ ops,
    simpleBindingOrganizer_Transact fst_cell snd_cell (λ _ p, p) (λ _, DefaultResourceMode)
      recording_projector
      (λ sbops upsyncOps w, for_each ops (λ op w, run_binding_op op sbops upsyncOps w) w))
    organizer_world in
  let '(B, U) := for_each sample_transactions (λ ops, for_each ops request_op) (∅, ∅) in
  ∃ nd nm cd cm us, has_recorded nd nm cd cm us (cget snd_cell w') ∧
    distributes factorNamespacedWhatWhereFullKey
      (bound_namespaced (λ _, DefaultResourceMode) B) nd ∧
    picks_versions factorNamespacedWhatWhereFullKey
      (bound_namespaced (λ _, DefaultResourceMode) B) nm ∧
    distributes factorClusterWhatWhereFullKey (bound_cluster (λ _, DefaultResourceMode) B) cd ∧
    picks_versions factorClusterWhatWhereFullKey (bound_cluster (λ _, DefaultResourceMode) B) cm ∧
    (∀ sp upsync, (sp, upsync) ∈ us ↔ ∃ ep, NewTriple ep upsync sp ∈ U).
Proof.
  refine (organizer_informs_projector fst_cell snd_cell has_recorded recording_projector
    (λ _ p, p) (λ _, DefaultResourceMode) _ _
    (λ gr, bool_decide (grResource gr ≠ "clusterroles"%string)) sample_transactions organizer_world _ _ _).
  - done.
  - by intros gr; exists true.
  - done.
  - done.
  - by apply (bool_decide_unpack _); vm_compute.
Defined.

(** A single binder that records what it is told, next to the set binder. *)
Definition binder_world : Type :=
  setBinder * (gmap NamespacedWhatWhereFullKey WorkloadPartDetails
               * gset (Triple ExternalName UpsyncSet SinglePlacement)).
Definition recording_ops : SingleBindingOps binder_world :=
  map_recorder (compose_cell snd_cell fst_cell).
Definition recording_upsyncs : UpsyncOps binder_world := λ add tup w,
  (w.1, (w.2.1, if add then {[tup]} ∪ w.2.2 else w.2.2 ∖ {[tup]})).
Definition recording_binder : SingleBinder binder_world := λ xn w, xn recording_ops recording_upsyncs w.
Definition has_bound M U (w : binder_world) : Prop := w.2.1 = M ∧ w.2.2 = U.

#[local] Instance recording_ops_ok : OpsSim fst_cell has_bound recording_ops recording_upsyncs.
Proof.
  split.
  - intros U. by apply (map_recorder_sim (compose_cell snd_cell fst_cell) (λ w, w.2.2 = U)).
  - by intros M U tup w [<- <-].
  - by intros M U tup w [<- <-].
  - by apply map_recorder_quiet.
  - done.
Qed.

#[local] Instance recording_binder_ok : SingleBinderSim fst_cell has_bound recording_binder.
Proof. split; [done|]. intros R xn M U w HB Hxn. by apply Hxn; [apply recording_ops_ok|..]. Qed.

Definition sample_events : list BinderOp :=
  [WhatPut placement1 (MkResolvedWhat (Some {[deployment1 := MkWorkloadPartDetails "v1" true false]})
     [crd_upsync]);
   WherePut placement1 [MkSinglePlacementSlice [edge1]];
   WhatDelete placement2].

Lemma setBinder_binds_what_to_where_witness :
  let w' := for_each sample_events (run_binder_op fst_cell recording_binder)
              (empty_binder, (∅, ∅)) in
  let inputs := for_each sample_events spec_binder_op no_inputs in
  ∃ M U, has_bound M U w' ∧
    (∀ ep part sp, M !! NewTriple ep part sp
       = if decide (sp ∈ bi_where inputs ep) then bi_parts inputs ep !! part else None) ∧
    (∀ ep upsync sp, NewTriple ep upsync sp ∈ U
       ↔ upsync ∈ bi_upsyncs inputs ep ∧ sp ∈ bi_where inputs ep).
Proof.
  exact (setBinder_binds_what_to_where fst_cell has_bound recording_binder sample_events
    (empty_binder, (∅, ∅)) eq_refl (conj eq_refl eq_refl)).
Defined.
