(* ===== verification/JsonWitnesses.v ===== *)
(** The theorems about JSONPath and customization at concrete inputs. *)

From Stdlib Require Import Ascii.
From Stdlib Require String.
From S2P Require Import Prelude GoStrings JsonLexer JsonPath JsonPrint JsonEval Customize.

#[local] Open Scope Z_scope.
#[local] Existing Instance canonical_range.

(** A reader of string literals that takes off the quotes. *)
Definition unquote (src : string) : string + list js_statement :=
  inr [js_ExpressionStatement (js_StringLiteral (str_take (String.length src - 2) (str_drop 1 src)))].

Lemma unquote_quote n : plain n = true → unquote (quote n) = inr [js_ExpressionStatement (js_StringLiteral n)].
Proof.
  intros _. unfold unquote, quote. do 4 f_equal. rw !str_length_app.
  replace (String.length "'" + (String.length n + String.length "'") - 2)%nat with (String.length n) by (cbn; lia).
  apply str_take_app.
Qed.

Definition sample_path : Parsed :=
  [nameSelector "spec"; recurse; nameSelector "a-b"; rangeSelector (MkRange 1 (Some 10) 2);
   listSelector [nameSelector "x"; nameSelector "y z"]; listSelector [rangeSelector (rangeOf1 0); rangeSelector (rangeOf1 7)];
   everyChild].

Lemma sample_path_printable : Forall printable sample_path.
Proof.
  assert (∀ n, 0 ≤ n ≤ 100 → index_ok n) as Hix by (unfold index_ok; lia).
  unfold sample_path. apply Forall_cons. split; [by apply printable_name|].
  apply Forall_cons. split; [apply printable_recurse|].
  apply Forall_cons. split; [by apply printable_name|].
  apply Forall_cons. split.
  { apply printable_range; [apply Hix; lia| |apply Hix; lia]. intros z [= <-]. apply Hix. lia. }
  apply Forall_cons. split.
  { apply (printable_names ["x"; "y z"]); [cbn; lia|]. by repeat constructor. }
  apply Forall_cons. split.
  { apply (printable_indexes [0; 7]); [cbn; lia|]. by apply Forall_cons; split; [apply Hix; lia|];
      apply Forall_singleton, Hix; lia. }
  apply Forall_singleton, printable_everyChild.
Qed.

Lemma ParseString_print_witness :
  ParseString unquote no_table (λ _, false) (print_path sample_path) = Some (sample_path, None).
Proof. exact (ParseString_print unquote no_table (λ _, false) unquote_quote sample_path sample_path_printable). Defined.

Lemma hex_and_octal_rejected_witness :
  ∃ lxr', Lexer_Next no_goja no_table (λ _, false) (NewLexer "0x1F]")
    = Some ((TokenNumber, JPInt 0, Some (ErrNum NumErrSyntax)), lxr').
Proof.
  exact (hex_and_octal_rejected no_goja no_table (λ _, false) (NewLexer "0x1F]") "" "x" "1F]"
    (or_introl eq_refl) (NewLexer_at "0x1F]")).
Defined.

(** The store of [{"spec": {"replicas": 1}, "list": [null, true, false]}]. *)
Definition sample_heap : Heap :=
  {[1%positive := JObject {["spec" := JRef 2%positive; "list" := JRef 3%positive]};
    2%positive := JObject {["replicas" := JNumber 1]};
    3%positive := JArray [JNull; JBool true; JBool false]]}.

Lemma sample_heap_bounded : arrays_bounded 3 sample_heap.
Proof.
  intros l elts Hl.
  destruct (decide (l = 1%positive)) as [->|]; [by vm_compute in Hl|].
  destruct (decide (l = 2%positive)) as [->|]; [by vm_compute in Hl|].
  destruct (decide (l = 3%positive)) as [->|]; [vm_compute in Hl; simplify_eq; cbn; lia|].
  unfold sample_heap in Hl. by rw !lookup_insert_ne in Hl.
Qed.

Lemma Apply_terminates_witness :
  ∃ v h', Apply 10 (replace_by JNull) (JRef 1%positive)
      [nameSelector "list"; rangeSelector (MkRange 0 None 2); everyChild] true sample_heap
      = Returns (v, h') ∧ same_shape sample_heap h'.
Proof.
  apply (Apply_terminates JNull 3 10).
  - apply Forall_cons. split; [by left|]. apply Forall_cons. split; [|by apply Forall_singleton; left].
    left. exists (MkRange 0 None 2). split_and!; [done|cbn; lia..].
  - exact sample_heap_bounded.
  - cbn. lia.
Defined.

Lemma zero_stride_diverges_witness :
  ParseAscii "$[0::0]" = Some ([rangeSelector (MkRange 0 None 0)], None) ∧
  (∀ fuel, Apply fuel (replace_by JNull) (JRef 3%positive) [rangeSelector (MkRange 0 None 0)] true sample_heap
           = Diverges).
Proof.
  exact (zero_stride_diverges JNull 3%positive JNull [JBool true; JBool false] true sample_heap eq_refl).
Defined.

Lemma huge_stride_panics_witness :
  Apply 3 (replace_by JNull) (JRef 3%positive) [rangeSelector (MkRange 1 None 9223372036854775807)] true
    sample_heap = Panics ∧
  ParseAscii "$[1::9223372036854775807]"
    = Some ([rangeSelector (MkRange 1 None 9223372036854775807)], None).
Proof.
  apply (huge_stride_panics JNull 3%positive [JNull; JBool true; JBool false]
    (MkRange 1 None 9223372036854775807) true sample_heap 3); cbn; [done|lia..].
Defined.

Lemma Apply_range_replaces_witness :
  ∃ elts', Apply 5 (replace_by (JNumber 7)) (JRef 3%positive) [rangeSelector (MkRange 0 None 2)] true
      sample_heap = Returns (JRef 3%positive, <[3%positive:=JArray elts']> sample_heap) ∧
    ∀ i, elts' !! i = if selected 0 3 2 i then Some (JNumber 7)
                      else [JNull; JBool true; JBool false] !! i.
Proof.
  apply (Apply_range_replaces (JNumber 7) 3%positive [JNull; JBool true; JBool false] (MkRange 0 None 2)
    true sample_heap 5); cbn; try lia. done.
Defined.

Lemma Apply_names_sets_witness :
  Apply 4 (replace_by (JNumber 2)) (JRef 1%positive) [nameSelector "spec"; nameSelector "replicas"] true
    sample_heap = Returns (JRef 1%positive, set_member 2%positive "replicas" (JNumber 2) sample_heap).
Proof.
  refine (Apply_names_sets (JNumber 2) ["spec"] "replicas" 1%positive 2%positive {["replicas" := JNumber 1]}
    sample_heap 1 _ eq_refl).
  split; [done|]. by eexists _, 2%positive.
Defined.

Lemma Apply_missing_prefix_null_witness :
  Apply 4 (replace_by (JNumber 2)) (JRef 1%positive)
    [nameSelector "spec"; nameSelector "template"; nameSelector "name"] true sample_heap
  = Returns (JRef 1%positive, set_member 2%positive "template" JNull sample_heap).
Proof.
  refine (Apply_missing_prefix_null (JNumber 2) ["spec"] "template" "name" [] 1%positive 2%positive
    {["replicas" := JNumber 1]} sample_heap 1 _ eq_refl eq_refl).
  split; [done|]. by eexists _, 2%positive.
Defined.

Lemma expandString_spec_witness :
  expandString "a%(zone)%%" [{["zone" := "east"]}] = "aeast%%".
Proof.
  refine (expandString_spec [Text [97]; Param [122; 111; 110; 101]; Percent 37] [{["zone" := "east"]}] _).
  assert (∀ r, 32 ≤ r ≤ 126 → rune_ok r) as Hr by (unfold rune_ok; lia).
  apply Forall_cons. split; [apply Forall_singleton; split; [apply Hr|]; lia|].
  apply Forall_cons. split; [|apply Forall_singleton; split; [apply Hr|]; lia].
  cbn. apply Forall_forall. intros r Hin. repeat (apply elem_of_cons in Hin as [-> |Hin];
    [split; [apply Hr|]; lia|]). by apply not_elem_of_nil in Hin.
Defined.

(** A library for flat objects: the copy has the scalar members, and the only JSON
    text is [true]. *)
Definition is_scalar (v : JVal) : bool := match v with JRef _ => false | _ => true end.
Definition flat_copy (v : JVal) (h : Heap) : JVal * Heap :=
  match as_object v h with
  | Some (_, m) =>
      let l := fresh (dom h) in
      (JRef l, <[l:=JObject (filter (λ kv, is_scalar kv.2 = true) m)]> h)
  | None => (JNull, h)
  end.
Definition read_true (s : string) (h : Heap) : option JVal * Heap :=
  (if decide (s = "true") then Some (JBool true) else None, h).

Lemma new_closed (h : Heap) : region_closed (λ l, h !! l = None) h.
Proof. intros l n Hl Hn. congruence. Qed.

#[local] Instance flat_library : JsonLibrary flat_copy read_true.
Proof.
  split.
  - intros v h. unfold flat_copy. destruct (as_object v h) as [[l0 m]|]; [|by split; [|split; [|apply new_closed]]].
    cbn [fst snd]. assert (h !! fresh (dom h) = None) as Hf by (apply not_elem_of_dom, is_fresh).
    split; [done|]. split.
    + intros l Hl. rw lookup_insert_ne //. by intros <-.
    + intros l n Hl. destruct (decide (l = fresh (dom h))) as [->|Hne].
      * rw lookup_insert_eq. intros [= <-]. intros k x Hx. apply map_lookup_filter_Some in Hx as [_ Hs].
        by destruct x.
      * rw lookup_insert_ne //. congruence.
  - intros s h v h'. unfold read_true. case_decide; intros [= <- <-]. split; [done|].
    split; [done|apply new_closed].
  - intros s h h'. unfold read_true. by case_decide.
Qed.

Definition sample_customizer : Customizer :=
  MkCustomizer ∅ [MkReplacement "$.a" "true"; MkReplacement "a" "true"; MkReplacement "$.b" "tru"].
Definition flat_heap : Heap := {[1%positive := JObject {["a" := JNull]}]}.

Lemma Customize_preserves_input_witness :
  ∃ out h', Customize no_goja no_table (λ _, false) (λ _ _, ∅) flat_copy read_true 5 (JRef 1%positive)
      (Some sample_customizer) None flat_heap = Returns (out, h') ∧
    (∀ l, is_Some (flat_heap !! l) → h' !! l = flat_heap !! l) ∧
    (out = JRef 1%positive ∨ val_in (λ l, flat_heap !! l = None) out ∧
       region_closed (λ l, flat_heap !! l = None) h').
Proof.
  destruct (Customize no_goja no_table (λ _, false) (λ _ _, ∅) flat_copy read_true 5 (JRef 1%positive)
    (Some sample_customizer) None flat_heap) as [[out h']| |] eqn:Hc; [|by vm_compute in Hc..].
  exists out, h'. split; [done|].
  exact (Customize_preserves_input no_goja no_table (λ _, false) (λ _ _, ∅) flat_copy read_true 5
    (JRef 1%positive) (Some sample_customizer) None flat_heap out h' Hc).
Defined.

#[local] Instance usable_dec r : Decision (usable no_goja no_table (λ _, false) read_true false [] r).
Proof.
  unfold usable. apply and_dec.
  - destruct (ParseString no_goja no_table (λ _, false) (replPath r)) as [[jp [e|]]|].
    + right. by intros [? [=]].
    + left. by exists jp.
    + right. by intros [? [=]].
  - unfold read_true. cbn [fst]. case_decide; [left; by eexists|right; by intros [? [=]]].
Defined.

Lemma Customize_skips_unusable_witness :
  each (Customize_replacement no_goja no_table (λ _, false) read_true 5 false [])
    (cuReplacements sample_customizer) (JRef 1%positive, flat_heap)
  = each (Customize_replacement no_goja no_table (λ _, false) read_true 5 false [])
      [MkReplacement "$.a" "true"] (JRef 1%positive, flat_heap).
Proof.
  etransitivity; [apply (Customize_skips_unusable no_goja no_table (λ _, false) flat_copy read_true 5 false []
    (cuReplacements sample_customizer) (JRef 1%positive, flat_heap))|].
  vm_compute. reflexivity.
Defined.
