(* ===== verification/WhereWitnesses.v ===== *)
(** The theorems about kube-bind names and about the where-resolver at concrete inputs: a
    few objects, and an API server that decodes what the resolver marshals. *)

From Stdlib Require Import Ascii.
From Stdlib Require String.
From S2P Require Import Prelude Tuples Types GoStrings KbUser WhereResolver WhereResolverFacts.

#[local] Existing Instance canonical_range.

(** * Parameters *)

(** A selector is one label with its value; nil selects nothing. *)
Definition label_selector (s : option (string * string)) : string + (gmap string string → bool) :=
  match s with
  | Some (k, v) => inr (λ labels, bool_decide (labels !! k = Some v))
  | None => inr (λ _, false)
  end.

Fixpoint split_key (s : string) : string + (string * string) :=
  match s with
  | EmptyString => inr ("", "")
  | String a s' =>
      if ascii_dec a "/" then inl "unexpected key format"
      else match split_key s' with inl e => inl e | inr (ns, n) => inr (ns, String a n) end
  end.

Definition reln : KubeBindSpaceRelation :=
  MkKubeBindSpaceRelation (λ s, if decide (s = "imw") then "kb-1" else if decide (s = "edge") then "kb-2" else "")
    (λ k, if decide (k = "kb-1") then "imw" else if decide (k = "kb-2") then "edge" else "").

#[export] Instance reln_ok : KubeBindSpaceRelationOk reln.
Proof. intros s k Hs Hk. cbn. repeat case_decide; subst; naive_solver. Qed.

(** Lists of SinglePlacements as strings of bits. *)
Fixpoint bits (p : positive) : string :=
  match p with xH => "" | xO p => String "0" (bits p) | xI p => String "1" (bits p) end.
Fixpoint unbits (s : string) : positive :=
  match s with
  | EmptyString => xH
  | String a s => if ascii_dec a "0" then xO (unbits s) else xI (unbits s)
  end.

Lemma unbits_bits p : unbits (bits p) = p.
Proof. induction p; cbn; congruence. Qed.

Definition marshal (dests : list SinglePlacement) : string + string := inr (bits (encode dests)).

Abbreviation TestApi := (gmap (string * string) (list SinglePlacement)).

(** The text between the prefix and the closing brace. *)
Definition unpatch (text : string) : string :=
  str_take (String.length text - 18) (str_drop 17 text).

Definition test_Patch (space name text : string) (api : TestApi) : option string * TestApi :=
  match decode (unbits (unpatch text)) with
  | Some dests => (None, <[(space, name):=dests]> api)
  | None => (Some "malformed patch", api)
  end.

Definition test_Create (space name : string) (_ : OwnerReference) (dests : list SinglePlacement) (api : TestApi)
  : CreateResult * TestApi :=
  match api !! (space, name) with
  | Some _ => (AlreadyExists, api)
  | None => (Created, <[(space, name):=dests]> api)
  end.

Definition config_for (space : string) : string + string := inr space.

Lemma unpatch_patch bytes : unpatch (patch_text bytes) = bytes.
Proof.
  unfold unpatch.
  assert (str_drop 17 (patch_text bytes) = bytes +:+ "}") as -> by done.
  assert (String.length (patch_text bytes) - 18 = String.length bytes)%nat as ->; [|apply str_take_app].
  assert (String.length (patch_text bytes) = 17 + String.length (bytes +:+ "}"))%nat as -> by done.
  rw str_length_app. cbn [String.length]. lia.
Qed.

#[export] Instance test_api_ok : ApiServerOk config_for config_for marshal test_Patch test_Create id.
Proof.
  split.
  - intros space config client dests bytes name api api' [= <-] [= <-] [= <-].
    unfold test_Patch. rw unpatch_patch unbits_bits decode_encode. by intros [= <-].
  - intros space config client name owner dests api api' [= <-] [= <-].
    unfold test_Create. destruct (api !! (space, name)); [by intros [=]|]. by intros [= <-].
Qed.

(** * Objects: two consumers, one EdgePlacement, two Locations and two SyncTargets *)

Definition meta (kb name uid : string) (labels : gmap string string) : ObjectMeta :=
  MkObjectMeta (ComposeClusterScopedName kb name) "" uid labels {[clusterNamespaceKey := kb]}.

Definition wEP : EdgePlacement (string * string) :=
  MkEdgePlacement (meta "kb-1" "ep" "u1" ∅) [("env", "prod")].
Definition wLoc1 : Location (string * string) :=
  MkLocation (meta "kb-1" "east" "u2" {["env" := "prod"]}) (Some ("id", "a")).
Definition wLoc2 : Location (string * string) :=
  MkLocation (meta "kb-2" "west" "u3" {["env" := "test"]}) (Some ("id", "b")).
Definition wSt1 : SyncTarget := MkSyncTarget (meta "kb-1" "st-a" "u4" {["id" := "a"]}).
Definition wSt2 : SyncTarget := MkSyncTarget (meta "kb-1" "st-b" "u5" {["id" := "b"]}).

Definition wEps : gmap string (EdgePlacement (string * string)) := {["kb-1-ep" := wEP]}.
Definition wLocs : gmap string (Location (string * string)) :=
  {["kb-1-east" := wLoc1; "kb-2-west" := wLoc2]}.
Definition wSts : gmap string SyncTarget := {["kb-1-st-a" := wSt1; "kb-1-st-b" := wSt2]}.

#[export] Instance w_caches : CachesOk label_selector omName wEps wLocs.
Proof.
  split.
  - intros name ep. unfold wEps. rw lookup_singleton_Some. by intros [<- <-].
  - intros name loc. unfold wLocs. rw lookup_insert_Some lookup_singleton_Some.
    by intros [[<- <-]|[_ [<- <-]]].
  - intros name ep [k v] _ _. by eexists.
Qed.

(** A stale slice: a destination at a SyncTarget that has left the Location. *)
Definition wSlice : PlacementSlice :=
  MkPlacementSlice (meta "kb-1" "ep" "u6" ∅)
    [MkSinglePlacement "imw" "east" "st-b" "u5"; MkSinglePlacement "imw" "south" "st-c" "u7"].
Definition w0 : controllerState TestApi :=
  MkControllerState emptyData {["kb-1-ep" := wSlice]} ∅.

Abbreviation w_onLocation := (reconcileOnLocation label_selector omName split_key reln
  (cache_List wEps) (cache_Get wLocs) (cache_List wSts) (λ _, None) config_for config_for marshal test_Patch).
Abbreviation w_onEdgePlacement := (reconcileOnEdgePlacement label_selector omName split_key reln
  (cache_Get wEps) (cache_List wLocs) (cache_List wSts) (λ _, None) config_for config_for marshal
  test_Patch test_Create (λ _ _ _, inr (epMeta wEP))).
Definition w1 : controllerState TestApi := (w_onLocation "kb-1-east" w0).2.

Example w1_slices : csApi w1 = {[("imw", "ep") := [MkSinglePlacement "imw" "south" "st-c" "u7";
  MkSinglePlacement "imw" "east" "st-a" "u4"]]}.
Proof. vm_compute; reflexivity. Qed.

(** * Witnesses *)

Abbreviation w_process := (process label_selector omName split_key reln (cache_Get wEps) (cache_List wEps)
  (cache_Get wLocs) (cache_List wLocs) (cache_Get wSts) (cache_List wSts) (λ _, None) config_for config_for marshal
  test_Patch test_Create (λ _ _ _, inr (epMeta wEP))).

Definition w_trace : list queueItem :=
  [MkQueueItem triggeringKindLocation "kb-2-west"; MkQueueItem triggeringKindSyncTarget "kb-1-st-a";
   MkQueueItem triggeringKindLocation "kb-1-east"].
Definition w_after (n : nat) : controllerState TestApi :=
  for_each (take n w_trace) (λ item w, (w_process item w).2) w0.

Lemma w_processes :
  processes label_selector omName split_key reln wEps wLocs wSts (λ _, None) config_for config_for
    marshal test_Patch test_Create (λ _ _ _, inr (epMeta wEP)) w0 ((λ item, (item, Ok ())) <$> w_trace) (w_after 3).
Proof.
  cbn [fmap list_fmap w_trace]. apply processes_cons with (w_after 1); [reflexivity|vm_compute; reflexivity|].
  apply processes_cons with (w_after 2); [reflexivity|vm_compute; reflexivity|].
  apply processes_cons with (w_after 3); [reflexivity|vm_compute; reflexivity|]. constructor.
Qed.

(** The internal data after the reconciliation of the two Locations. *)
Lemma internalData_converges_witness : row_exact label_selector wEps (csStore (w_after 3)) wLoc1 "kb-1-east".
Proof.
  apply (internalData_converges label_selector omName split_key reln wEps wLocs wSts
    (λ _, None) config_for config_for marshal test_Patch test_Create (λ _ _ _, inr (epMeta wEP)) w0
    ((λ item, (item, Ok ())) <$> w_trace) (w_after 3) w_processes).
  - intros locKey [loc Hloc]. unfold wLocs in Hloc.
    apply lookup_insert_Some in Hloc as [[<- _]|[_ [<- _]%lookup_singleton_Some]]; [by right; right; left|by left].
  - reflexivity.
Defined.

Lemma w0_keyed : keyed (csSlices w0).
Proof. intros n sps. cbn. rw lookup_singleton_Some. by intros [<- <-]. Qed.

Lemma reconcileOnLocation_writes_slices_witness :
  ∃ name kb, AnalyzeObject (locMeta wLoc1) = (name, kb, None) ∧
    let space := SpaceIDFromKubeBind reln kb in
    let selecting ep := ∃ epObj, wEps !! ep = Some epObj ∧ selects label_selector epObj wLoc1 in
    let affected ep := ep ∈ get_set (epsBySelectedLoc (csStore w0)) "kb-1-east" ∨ selecting ep in
    (∀ ep, affected ep → ∃ sps key dests,
      csSlices w0 !! ep = Some sps ∧ consumer reln sps key ∧ csApi w1 !! key = Some dests ∧
      ∀ sp, sp ∈ dests ↔
        if decide (spCluster sp = space ∧ spLocationName sp = name)
        then selecting ep ∧ placed_at label_selector wSts wLoc1 kb space name sp
        else sp ∈ slDestinations sps) ∧
    (∀ key, (∀ ep sps, affected ep → csSlices w0 !! ep = Some sps → ¬ consumer reln sps key) →
      csApi w1 !! key = csApi w0 !! key).
Proof.
  apply (reconcileOnLocation_writes_slices label_selector omName split_key reln wEps wLocs wSts
    (λ _, None) config_for config_for marshal test_Patch test_Create id "kb-1-east" wLoc1 w0 w1).
  - vm_compute; reflexivity.
  - done.
  - intros ep [Hep|[epObj Hep]]; [set_solver|]. unfold wEps in Hep. rw lookup_singleton_Some in Hep.
    destruct Hep as [<- _]. vm_compute; reflexivity.
  - apply w0_keyed.
  - vm_compute; reflexivity.
Defined.

Definition w2 : controllerState TestApi := (w_onEdgePlacement "kb-1-ep" w0).2.

Lemma reconcileOnEdgePlacement_writes_slice_witness :
  ∃ name kb dests, AnalyzeObject (epMeta wEP) = (name, kb, None) ∧
    (∀ sp, sp ∈ dests ↔ placed_by label_selector reln wLocs wSts wEP sp) ∧
    (csApi w2 = <[(SpaceIDFromKubeBind reln kb, name):=dests]> (csApi w0) ∨
     csSlices w0 !! "kb-1-ep" = None ∧ ∃ client owner api',
       test_Create client name owner dests (csApi w0) = (AlreadyExists, api')).
Proof.
  apply (reconcileOnEdgePlacement_writes_slice label_selector omName split_key reln wEps wLocs wSts
    (λ _, None) config_for config_for marshal test_Patch test_Create (λ _ _ _, inr (epMeta wEP)) id
    "kb-1-ep" wEP w0 w2).
  - vm_compute; reflexivity.
  - done.
  - vm_compute; reflexivity.
Defined.

Lemma deleted_objects_panic_witness :
  w_onLocation "kb-1-gone" w0 = (Panic, w0).
Proof.
  refine (proj1 (deleted_objects_panic label_selector omName split_key reln wEps wLocs wSts
    (λ _, None) config_for config_for marshal test_Patch "kb-1-gone" w0 _) _).
  - vm_compute; reflexivity.
  - vm_compute; reflexivity.
Defined.

(** The Location west of the other consumer, and the SyncTarget b that its selector matches. *)
Lemma other_space_mismatch_witness :
  filterStsByLoc label_selector [wSt2] wLoc2 = ([], None) ∧
  filterLocsBySt label_selector [wLoc2] wSt2 = ([wLoc2], None) ∧
  makeSinglePlacementsForSt reln [wLoc2] (Some wSt2) = [MkSinglePlacement "imw" "west" "st-b" "u5"].
Proof.
  by apply (other_space_mismatch label_selector reln wLoc2 wSt2 "west" "kb-2" "st-b" "kb-1"
    (λ labels, bool_decide (labels !! "id" = Some "b"))).
Defined.
