(* ===== verification/PlacementWitnesses.v ===== *)
(** The theorems about the what-resolver, the workload projector and its SyncerConfigs at
    concrete inputs: a space with one EdgePlacement and one ConfigMap, a destination, and
    an API server that keeps SyncerConfigs in a map. *)

From S2P Require Import Prelude Tuples Interfaces Slices Sets Maps GoStrings Types KbUser HashDomains HashMap.
From S2P Require Import Relations FactoredMap Receivers Joins Organizer WorkloadProjector WorkloadProjectorFacts.
From S2P Require Import SyncerConfig SyncerConfigFacts WhatResolver WhatResolverFacts WhereWitnesses.

#[local] Existing Instance canonical_range.

Ltac decided := apply (bool_decide_unpack _); vm_compute; exact I.

(** * What-resolver *)

Definition group_of (apiVersion : string) : string := "".

Definition config_maps_test : DownsyncObjectTest (option (string * string)) :=
  MkDownsyncObjectTest (Some "") ["configmaps"] [] [] ["cm"] [].

Definition an_ep : WhatEdgePlacement (option (string * string)) :=
  MkWhatEdgePlacement
    (MkObjectMeta "kb-1-ep" "" "u1" ∅ {[clusterNamespaceKey := "kb-1"]})
    (MkEdgePlacementSpec [config_maps_test] true []).

Definition a_config_map : mrObject :=
  MkMrObject (MkObjectMeta "cm" "default" "u2" ∅ ∅) "v1" "ConfigMap" None.

Definition cm_gvr : GroupVersionResource := MkGroupVersionResource "" "v1" "configmaps".

(** The caches, with or without the ConfigMap. *)
Definition what_env (present : bool) : WhatEnv (option (string * string)) unit :=
  MkWhatEnv (λ name, if decide (name = "kb-1-ep") then Found an_ep else NotFound)
    (λ _, inr ()) (λ _, None) (λ _, None) (λ _, true)
    (λ _ arName, if decide (arName = "configmaps")
                 then Found (MkAPIResourceSpec "configmaps" true "" "v1" "ConfigMap" []) else NotFound)
    (λ _ gvr ns name, if present && bool_decide (name = "cm") then Found a_config_map else NotFound)
    (λ _ _, (None, if present then [a_config_map] else [])).

Definition cm_gk : GroupKind := mkgk "" "ConfigMap".
Definition cm_nn : NamespacedName := ("default", "cm").

Definition what_steps : list (WhatEnv (option (string * string)) unit * namespacedQueueItem) :=
  [(what_env true, MkNamespacedQueueItem (mkgk "edge.kubestellar.io" "EdgePlacement") "" ("", "kb-1-ep"));
   (what_env true, MkNamespacedQueueItem (mkgk "meta.kubestellar.io" "APIResource") "imw" ("", "configmaps"));
   (what_env true, MkNamespacedQueueItem cm_gk "imw" cm_nn)].

Definition never_equal (a b : list (DownsyncObjectTest (option (string * string)))) : bool := false.

Definition what_run (n : nat) :=
  default (∅, ∅) (run label_selector group_of never_equal reln (take n what_steps) ∅ ∅).

Lemma what_resolver_tells_all_witness :
  part_of cm_gvr cm_nn ∈ told_ids (what_run 3).2 "imw" "ep".
Proof.
  apply (what_resolver_tells_all label_selector group_of never_equal reln what_steps (what_run 3).1).
  - vm_compute. reflexivity.
  - decided.
Defined.

(** The workspace once the resource is watched. *)
Definition what_wsd := default emptyWorkspace ((what_run 2).1 !! "imw").
Definition what_rr : resourceResolver := MkResourceResolver cm_gvr ∅ [].

Lemma what_run_Informed : Informed (what_run 2).1 (what_run 2).2.
Proof.
  apply (run_Informed label_selector group_of never_equal reln (take 2 what_steps) ∅ ∅); [apply empty_Informed|].
  vm_compute. reflexivity.
Qed.

Lemma center_object_matches_told_witness :
  part_of cm_gvr cm_nn ∈ told_ids
    (processCenterObject label_selector group_of recorder (what_env true) "imw" cm_gk cm_nn
       (what_run 2).1 (what_run 2).2).2.2 "imw" "ep".
Proof.
  pose proof (center_object_matches_told label_selector group_of (what_env true) "imw" cm_gk cm_nn
    (what_run 2).1 (what_run 2).2 what_wsd "configmaps" what_rr a_config_map "ep" an_ep what_run_Informed) as Hw.
  destruct (processCenterObject _ _ _ _ _ _ _ _ _) as [ok [wr told]] eqn:He.
  apply Hw; [split_and!; vm_compute; reflexivity|vm_compute; reflexivity..|].
  change ok with (ok, (wr, told)).1. rewrite -He. vm_compute. reflexivity.
Defined.

Lemma center_object_deletion_untold_witness :
  (processCenterObject label_selector group_of recorder (what_env false) "imw" cm_gk cm_nn
     (what_run 3).1 (what_run 3).2).2.2 = (what_run 3).2 ∧
  recorded (what_run 3).1 "imw" "configmaps" cm_nn "ep" = Some (MkDistributionBits true false).
Proof.
  split; [|vm_compute; reflexivity].
  rewrite (center_object_deletion_untold label_selector group_of recorder (what_env false) "imw" cm_gk cm_nn
    (what_run 3).1 (what_run 3).2 (default emptyWorkspace ((what_run 3).1 !! "imw")) "configmaps"
    (default what_rr (resources_of (what_run 3).1 "imw" !! "configmaps"))); [reflexivity| |vm_compute; reflexivity].
  split_and!; vm_compute; reflexivity.
Defined.

Lemma config_map_asked_for : to_downsync label_selector group_of (wepSpec an_ep) "configmaps" ∅ a_config_map.
Proof.
  split; [reflexivity|]. exists config_maps_test. split; [by apply list_elem_of_singleton|].
  split; try (by left); try (by right; right; apply list_elem_of_singleton).
  - intros g [= <-]. reflexivity.
Qed.

Lemma edge_placement_recorded_exactly_witness :
  ∃ bits, recorded (processKnownEdgePlacement label_selector group_of never_equal recorder (what_env true) "imw" "ep"
    (Some an_ep) (what_run 2).1 (what_run 2).2).2.1 "imw" "configmaps" cm_nn "ep" = Some bits ∧
    dbReturnSingletonState bits = true.
Proof.
  pose proof (edge_placement_recorded_exactly label_selector group_of never_equal (what_env true) "imw" "ep" an_ep
    (what_run 2).1 (what_run 2).2 what_wsd "configmaps" what_rr a_config_map ∅) as Hw.
  destruct (processKnownEdgePlacement _ _ _ _ _ _ _ _ _ _) as [ok [wr told]] eqn:He.
  destruct Hw as [Hrec _]; [vm_compute; reflexivity..|done|apply NoDup_singleton|by apply list_elem_of_singleton| | | |].
  - intros t ->%list_elem_of_singleton. split; [by left|apply (bool_decide_eq_true_1 _); reflexivity].
  - intros u []%not_elem_of_nil.
  - change ok with (ok, (wr, told)).1. rewrite -He. vm_compute. reflexivity.
  - destruct Hrec as (bits & Hb & Hs & _); [|exists bits; split; [exact Hb|exact Hs]].
    exact config_map_asked_for.
Defined.

Lemma watched_iff_goes_to_edge_witness :
  is_Some (resources_of (processResource recorder (what_env true) "imw" "configmaps"
    (what_run 1).1 (what_run 1).2).2.1 "imw" !! "configmaps").
Proof.
  pose proof (watched_iff_goes_to_edge recorder (what_env true) "imw" "configmaps"
    (MkAPIResourceSpec "configmaps" true "" "v1" "ConfigMap" []) (what_run 1).1 (what_run 1).2
    (default emptyWorkspace ((what_run 1).1 !! "imw"))) as Hw.
  destruct (processResource _ _ _ _ _ _) as [ok [wr told]] eqn:He. apply Hw; vm_compute; reflexivity.
Defined.

(** A workspace where namespaces are watched, but the namespace is not there yet. *)
Definition ns_wsd : workspaceDetails (option (string * string)) :=
  MkWorkspaceDetails ∅ {["namespaces" := MkResourceResolver (MkGroupVersionResource "" "v1" "namespaces") ∅ []]}
    {[mkgk "" "Namespace" := "namespaces"]}.

Lemma unknown_namespace_matches_witness :
  downsyncMatches label_selector (what_env false) "imw" ns_wsd
    [MkDownsyncObjectTest None [] [] [Some ("env", "prod")] ["other"] []] "configmaps" "" "default" "cm" ∅
  = (true, true).
Proof.
  apply (unknown_namespace_matches label_selector (what_env false) "imw" ns_wsd
    (MkDownsyncObjectTest None [] [] [Some ("env", "prod")] ["other"] []) [] "configmaps" "" "default" "cm" ∅
    "namespaces" (MkResourceResolver (MkGroupVersionResource "" "v1" "namespaces") ∅ [])); try (by left); done.
Defined.

Lemma upsyncMatches_listed_names_witness :
  upsyncMatches [MkUpsyncSet "" ["configmaps"] ["default"] ["cm"]] "configmaps" "" "default" "cm" = false.
Proof.
  apply upsyncMatches_listed_names. intros us ->%list_elem_of_singleton. split; decided.
Defined.

(** * Workload projector *)

Definition dest : SinglePlacement := MkSinglePlacement "imw" "loc" "st" "uid".
Definition cm_gr : GroupResource := MkGroupResource "" "configmaps".
Definition cm_key : ProjectionModeKey := MkProjectionModeKey cm_gr dest.
Definition cm_tuple : NamespacedDistributionTuple := (cm_key, NewTriple "wds" "default" "cm").
Definition an_upsync : UpsyncSet := MkUpsyncSet "" ["widgets"] ["*"] ["*"].

Definition wp_ops : list SectionOp :=
  [PutNamespacedMode cm_key (MkProjectionModeVal "v1"); PutNamespaced cm_tuple (MkDistributionBits false false);
   AddUpsync (dest, an_upsync)].
Definition no_tables : Tables := MkTables ∅ ∅ ∅ ∅ ∅.
Definition wp_tables : Tables := for_each wp_ops spec_section_op no_tables.


Lemma upsync_transaction_unnoticed_witness :
  ∃ w', Transact (λ _ _, []) (λ _ _, []) (λ _, None) (λ _, true)
          (λ wps, for_each [AddUpsync (dest, an_upsync)] (run_section_op wps)) emptyProjector = Some w' ∧
    tables_hold (MkTables ∅ ∅ ∅ ∅ {[(dest, an_upsync)]}) w' ∧ wp_queue w' = [].
Proof.
  destruct (upsync_transaction_unnoticed (λ _ _, []) (λ _ _, []) (λ _, None) (λ _, true) [AddUpsync (dest, an_upsync)] no_tables
    emptyProjector eq_refl tables_hold_empty) as (w' & Hw' & Ht & Hq & _).
  exists w'. split_and!; [exact Hw'| |exact Hq]. cbn in Ht. by rewrite union_empty_r_L in Ht.
Defined.

(** * SyncerConfigs *)

(** An API server that keeps the specs of the SyncerConfigs in a map and cannot fail. *)
Definition map_client : EdgeClient (gmap (string * string) SyncerConfigSpec) :=
  MkEdgeClient (λ _ _, true) (λ _ _, true)
    (λ space name s, match s !! (space, name) with Some spec => Found (MkSyncerConfig name "" spec) | None => NotFound end)
    (λ space syncfg s, (true, <[(space, scName syncfg) := scSpec syncfg]> s))
    (λ space syncfg s, (true, <[(space, scName syncfg) := scSpec syncfg]> s)).

#[export] Instance map_client_ok : EdgeClientOk map_client.
Proof.
  split; cbn.
  - intros space name s syncfg. destruct (s !! _); [by intros [= <-]|done].
  - intros space syncfg s s' [= <-]. rewrite lookup_insert_eq. by eexists.
  - intros space syncfg s s' [= <-]. rewrite lookup_insert_eq. by eexists.
Qed.

(** The projector after the operations, with the name of the mailbox space known. *)
Definition a_projector : workloadProjector :=
  cset mbwsNameToSP_cell {["imw-mb-uid" := dest]} (for_each wp_ops (run_section_op sections) emptyProjector).

Lemma a_projector_tables : tables_hold wp_tables a_projector.
Proof.
  unfold a_projector. eapply wp_in_step_ext; [|apply (section_ops_ok wp_ops no_tables), tables_hold_empty].
  apply same_tables_intro. intros X f Hf _ _ _. by rewrite Hf.
Qed.

Lemma syncConfigObject_right_witness :
  ∃ retry s', syncConfigObject DefaultResourceModes map_client "imw-mb-uid" SyncerConfigName a_projector ∅
              = Some (retry, s') ∧
    (if retry then False
     else ∃ syncfg, ec_Get map_client "imw-mb-uid" SyncerConfigName s' = Found syncfg ∧
            as_made (scSpec syncfg) ∧ spec_right DefaultResourceModes wp_tables dest (scSpec syncfg)).
Proof.
  destruct (syncConfigObject_right DefaultResourceModes map_client wp_tables a_projector ∅ "imw-mb-uid"
    SyncerConfigName dest) as (retry & s' & Heq & Hres); [|exact a_projector_tables|done|done..|].
  - intros gr. rewrite GoesToEdge_default. by eexists.
  - exists retry, s'. split; [exact Heq|]. destruct retry; [by destruct Hres as (? & [?|?])|exact Hres].
Defined.

Definition a_relation : syncerConfigSpecRelations :=
  MkSyncerConfigSpecRelations {[cm_gr := (MkProjectionModeVal "v1", {[cm_nn]})]}
    {[nsGR := (MkProjectionModeVal "v1", {["default"]})]}
    (NewHashSet HashUpsyncSet id_cell [an_upsync] emptyBuckets).

Lemma syncerConfig_roundtrip_witness :
  syncerConfigIsGood (MkSyncerConfig "the-one" "" (syncerConfigSpecFromRelations a_relation)) a_relation = true.
Proof. apply (syncerConfig_roundtrip "the-one" "" a_relation). apply NewHashSet_upsyncs. Defined.

(** The first entry names an object that is not to be there. *)
Definition repeated : list ClusterScopeDownsyncResource :=
  [MkClusterScopeDownsyncResource nsGR "v1" ["kube-system"]; MkClusterScopeDownsyncResource nsGR "v1" ["default"]].

Lemma syncerConfigIsGood_overlooks_witness :
  syncerConfigIsGood (MkSyncerConfig "the-one" "" (MkSyncerConfigSpec (MkNamespaceScopeDownsyncs [] [])
    [MkNamespaceScopeDownsyncObjects cm_gr "v1" [MkNamespaceAndNames "default" ["cm"]]] repeated [an_upsync])) a_relation
  = true.
Proof.
  unfold repeated. rewrite syncerConfigIsGood_overlooks; [vm_compute; reflexivity|apply NewHashSet_upsyncs|].
  by apply list_elem_of_singleton.
Defined.
