(* ===== verification/ObjectWitnesses.v ===== *)
(** The theorems about the copying of objects at concrete inputs: one ConfigMap of a source,
    one destination, and an API server that keeps objects in a map. *)

From S2P Require Import Prelude Tuples Interfaces Slices Sets Maps GoStrings Types KbUser HashDomains HashMap.
From S2P Require Import Relations FactoredMap Receivers Joins Organizer WorkloadProjector WorkloadProjectorFacts.
From S2P Require Import SyncerConfig SyncerConfigFacts Customize WhatResolver ObjectSync ObjectSyncFacts.
From S2P Require Import WhereWitnesses PlacementWitnesses.

#[local] Existing Instance canonical_range.

(** By evaluation on both sides, without normal forms in the goal. *)
Ltac evaluated := match goal with |- _ = ?b => vm_cast_no_check (eq_refl b) end.

Abbreviation Obj := (Unstructured string).

(** An API server that keeps the objects of a namespace by name and cannot fail. *)
Definition map_objects : ObjectClient string (gmap string Obj) :=
  MkObjectClient
    (λ _ name s, match s !! name with
                 | Some u => if decide (umName (uMeta u) = name) then Found u else NotFound
                 | None => NotFound
                 end)
    (λ _ u s, (true, <[umName (uMeta u) := u]> s))
    (λ _ u s, (true, <[umName (uMeta u) := u]> s))
    (λ _ u s, (true, <[umName (uMeta u) := u]> s))
    (λ _ name _ s, (if decide (is_Some (s !! name)) then Deleted else AlreadyGone, delete name s))
    (λ _ _ _, Found ()) (λ _ _ _ s, (NsCreated, s)).

Lemma stored_refl (u : Obj) : stored eq u u.
Proof. split; eauto. Qed.

#[export] Instance map_objects_ok : ObjectClientOk eq map_objects.
Proof.
  split; cbn.
  - intros _ name s u. destruct (s !! name); [|done]. case_decide; [|done]. by intros [= <-].
  - intros _ u s s' [= <-]. rewrite lookup_insert_eq decide_True //. exists u. by split; [|apply stored_refl].
  - intros _ u s s' [= <-]. rewrite lookup_insert_eq decide_True //. exists u. by split; [|apply stored_refl].
Qed.

Definition a_source : Obj :=
  MkUnstructured (MkUMeta "cm" "default" "u2" "7" "" "" None (Some {["app" := "web"; "kcp.io/x" := "y"]})
                    (Some {["note" := "n"]}) [] [])
    {["apiVersion" := "v1"; "kind" := "ConfigMap"; "data" := "new"; "status" := "ours"]}.
Definition at_destination : Obj :=
  MkUnstructured (MkUMeta "cm" "default" "u9" "3" "" "" None (Some {["app" := "old"; "kcp.io/x" := "z"]}) None [] [])
    {["apiVersion" := "v1"; "kind" := "ConfigMap"; "data" := "old"; "status" := "theirs"]}.

Definition no_customizer (space ns name : string) : Lookup Customizer := NotFound.
Definition no_location (space name : string) : Lookup Location := NotFound.
Definition as_it_is (u : Obj) (c : option Customizer) (l : option Location) : option Obj := Some u.
Definition clients (space : string) : bool := true.

#[export] Instance UMeta_eq_dec : EqDecision (UMeta string).
Proof. solve_decision. Defined.
#[export] Instance Unstructured_eq_dec : EqDecision Obj.
Proof. solve_decision. Defined.
Definition deep_equal (a b : Obj) : bool := bool_decide (a = b).
Definition deep_equal_value (a b : option string) : bool := bool_decide (a = b).

Lemma genericObjectMerge_right_witness :
  ∃ out, genericObjectMerge clients no_customizer no_location as_it_is "wds" dest a_source at_destination = Some out ∧
    is_merge a_source at_destination out ∧ uContent out !! "data" = Some "new" ∧
    uContent out !! "status" = Some "theirs".
Proof.
  destruct (genericObjectMerge_right clients no_customizer no_location as_it_is "wds" dest a_source a_source
    at_destination eq_refl) as (out & Hout & Hm & _).
  exists out. split_and!; [exact Hout|exact Hm|..]; destruct Hm as (_ & -> & _); vm_compute; reflexivity.
Defined.

Definition mailbox : ClientRef := MkClientRef (AtDestination dest) cm_gr "v1" (Some "default").
Definition wds : ClientRef := MkClientRef (AtSource "wds") cm_gr "v1" (Some "default").

Lemma syncSourceToDest_projects_witness :
  ∃ s' v,
    syncSourceToDest map_objects deep_equal deep_equal_value clients no_customizer no_location as_it_is "wds"
      wds mailbox "default" "cm" (Some a_source) true dest (MkDistributionBits false false) 1
      {["cm" := at_destination]} = Some (false, s') ∧
    oc_Get map_objects mailbox "cm" s' = Found v ∧ carried eq a_source v.
Proof.
  destruct (syncSourceToDest_projects eq map_objects deep_equal deep_equal_value clients no_customizer no_location as_it_is
    "wds" wds mailbox "default" "cm" a_source a_source true dest (MkDistributionBits false false) 1
    {["cm" := at_destination]}) as (retry & s' & Heq & Hdone).
  - intros a b ->%bool_decide_eq_true. apply stored_refl.
  - intros a. by apply bool_decide_eq_true.
  - reflexivity.
  - reflexivity.
  - reflexivity.
  - assert (retry = false) as ->.
    { change retry with (default true (fst <$> Some (retry, s'))). rewrite -Heq. evaluated. }
    destruct (Hdone eq_refl) as (v & Hv & Hcar & _). exists s', v. split_and!; [exact Heq|exact Hv|by apply Hcar].
Defined.

(** * With a projector *)

(** The projector after a transaction that distributes the ConfigMap, maybe with the return
    of its reported state. *)
Definition object_ops (return_state : bool) : list SectionOp :=
  [PutNamespacedMode cm_key (MkProjectionModeVal "v1"); PutNamespaced cm_tuple (MkDistributionBits return_state false)].
Definition object_tables (return_state : bool) : Tables := for_each (object_ops return_state) spec_section_op no_tables.
Definition transaction (return_state : bool) : option workloadProjector :=
  Transact (λ _ _, []) (λ _ _, []) (λ _, None) (λ _, true)
    (λ wps, for_each (object_ops return_state) (run_section_op wps)) emptyProjector.
Definition running (return_state : bool) : workloadProjector := default emptyProjector (transaction return_state).

Definition is_there {A} (o : option A) : bool := match o with Some _ => true | None => false end.

Lemma is_there_Some {A} (o : option A) a : is_there o = true → o = Some (default a o).
Proof. by destruct o. Qed.

Lemma running_tables return_state : tables_hold (object_tables return_state) (running return_state).
Proof.
  apply (Transact_tables (λ _ _, []) (λ _ _, []) (λ _, None) (λ _, true) (object_ops return_state) no_tables emptyProjector);
    [apply tables_hold_empty|]. apply is_there_Some. destruct return_state; evaluated.
Qed.

Definition source_cache (source : string) (gr : GroupResource) (ns : option string) (name : string) : Lookup Obj :=
  if decide (name = "cm") then Found a_source else NotFound.
Definition destination_cache (d : SinglePlacement) (gr : GroupResource) (ns : option string) (name : string)
  : Lookup Obj := Found at_destination.

Lemma wanted_at_dest (dests : gmap SinglePlacement DistributionBits) :
  (∀ d, dests !! d = object_bits (object_tables false) "wds" cm_gr "default" "cm" d) →
  dests = {[dest := MkDistributionBits false false]}.
Proof.
  intros Hd. apply map_eq. intros d. rewrite Hd. unfold object_bits.
  destruct (decide ("default" = noNamespace)) as [He|_]; [discriminate|]. cbn [tNamespaced object_tables].
  change (tNamespaced (object_tables false)) with
    (<[cm_tuple := MkDistributionBits false false]> (∅ : gmap NamespacedDistributionTuple DistributionBits)).
  destruct (decide (d = dest)) as [-> |Hne].
  - rewrite lookup_singleton_eq. exact (lookup_insert_eq _ cm_tuple _).
  - rewrite lookup_singleton_ne; [|congruence]. rewrite lookup_insert_ne; [apply lookup_empty|].
    unfold cm_tuple, cm_key. congruence.
Qed.

Lemma syncSourceObject_reaches_witness :
  ∃ res works, syncSourceObject map_objects deep_equal deep_equal_value source_cache (λ _, None) clients no_customizer
      no_location as_it_is "wds" cm_gr "default" "cm" (running false) ∅ = Some (false, res) ∧
    length works = 1 ∧ run_in_turn works ∅ res.2.
Proof.
  set (res := default (true, (emptyProjector, ∅)) (syncSourceObject map_objects deep_equal deep_equal_value
    source_cache (λ _, None) clients no_customizer no_location as_it_is "wds" cm_gr "default" "cm" (running false) ∅)).
  assert (syncSourceObject map_objects deep_equal deep_equal_value source_cache (λ _, None) clients no_customizer
    no_location as_it_is "wds" cm_gr "default" "cm" (running false) ∅ = Some (false, (res.2.1, res.2.2))) as Hrun.
  { rewrite (is_there_Some (syncSourceObject _ _ _ _ _ _ _ _ _ _ _ _ _ _ _) (true, (emptyProjector, ∅))); [|evaluated].
    assert (res.1 = false) as Hr by evaluated. fold res. clearbody res. destruct res as [retry [w' s']].
    cbn in Hr. by subst retry. }
  destruct (syncSourceObject_reaches map_objects deep_equal deep_equal_value source_cache (λ _, None) clients no_customizer
    no_location as_it_is (object_tables false) (running false) ∅ res.2.1 res.2.2 "wds"
    (default (freshPerSource "wds") (wp_perSource (running false) !! "wds")) cm_gr (MkDynamicDuo "v1" true) "default" "cm")
    as (dests & works & Hd & Hworks & Hin).
  - apply running_tables.
  - evaluated.
  - evaluated.
  - exact I.
  - exact Hrun.
  - exists (res.2.1, res.2.2), works. split_and!; [exact Hrun| |exact Hin].
    apply wanted_at_dest in Hd as ->.
    apply Forall2_length in Hworks. rewrite -Hworks length_map_range map_size_singleton. reflexivity.
Defined.

Lemma syncDestinationObject_right_witness :
  syncDestinationObject map_objects deep_equal_value source_cache destination_cache dest cm_gr "default" "other"
    (running false) {["other" := at_destination]} = Some (false, ∅) ∧
  ∃ retry s', syncDestinationObject map_objects deep_equal_value source_cache destination_cache dest cm_gr "default" "cm"
    (running true) ∅ = Some (retry, s').
Proof.
  destruct (syncDestinationObject_right map_objects deep_equal_value source_cache destination_cache (object_tables false)
    (running false) {["other" := at_destination]} dest cm_gr "default" "other" (running_tables false)) as (_ & _ & Hdel).
  destruct (syncDestinationObject_right map_objects deep_equal_value source_cache destination_cache (object_tables true)
    (running true) ∅ dest cm_gr "default" "cm" (running_tables true)) as (_ & Hkeep & _). split.
  - assert (¬ object_goes (object_tables false) dest cm_gr "default" "other") as Hnot.
    { intros (source & v & Hv). cbn in Hv. apply lookup_insert_Some in Hv as [[Heq _]|[_ Hv]]; [done|].
      by rewrite lookup_empty in Hv. }
    refine (eq_trans (Hdel Hnot _ (default (newPerDestinationLocked dest) (wp_perDestination (running false) !! dest))
      (MkDynamicDuo "v1" true) at_destination _ _ _ _) _); [done|evaluated..].
  - destruct Hkeep as (retry & s' & Hs' & _); [|by exists retry, s'].
    exists "wds". eexists. exact (lookup_insert_eq (∅ : gmap NamespacedDistributionTuple DistributionBits) cm_tuple
      (MkDistributionBits true false)).
Defined.

Lemma singleton_retry_inverted_witness :
  ∃ s', syncDestinationObject map_objects deep_equal_value source_cache destination_cache dest cm_gr "default" "cm"
          (running true) ∅ = Some (true, s').
Proof.
  pose proof (singleton_retry_inverted map_objects deep_equal_value source_cache destination_cache (running true) ∅ dest
    (default (newPerDestinationLocked dest) (wp_perDestination (running true) !! dest)) cm_gr (MkDynamicDuo "v1" true)
    "default" "cm" at_destination "wds" (MkDistributionBits true false)
    (default (freshPerSource "wds") (wp_perSource (running true) !! "wds")) {[dest := MkDistributionBits true false]}
    (MkDynamicDuo "v1" true) a_source) as Hw.
  cbv zeta in Hw. destruct (reportSingletonState _ _ _ _ _ _) as [ok s'] eqn:Hrep.
  assert (ok = true) as -> by (change ok with (ok, s').1; rewrite -Hrep; evaluated).
  exists s'. apply Hw; [discriminate|discriminate|discriminate|evaluated..].
Defined.
