(* ===== verification/SyncerWitnesses.v ===== *)
(** The theorems about the syncer at concrete inputs: API servers that keep the ConfigMaps of
    one namespace in maps, up- and downstream. *)

From S2P Require Import Prelude Tuples Interfaces Slices Sets Maps GoStrings Types KbUser HashDomains HashMap.
From S2P Require Import Relations FactoredMap Receivers Joins Organizer WorkloadProjector WorkloadProjectorFacts.
From S2P Require Import SyncerConfig SyncerConfigFacts Customize WhatResolver WhatResolverFacts ObjectSync ObjectSyncFacts.
From S2P Require Import Effects SyncerManagers SyncerManagersFacts Syncers SyncersFacts WhereWitnesses PlacementWitnesses ObjectWitnesses.

#[local] Existing Instance canonical_range.

Abbreviation SObj := (SObject string).

(** The objects up- and downstream. *)
Definition Servers : Type := gmap string SObj * gmap string SObj.

Definition side (downstream : bool) (s : Servers) : gmap string SObj := if downstream then s.2 else s.1.
Definition set_side (downstream : bool) (m : gmap string SObj) (s : Servers) : Servers :=
  if downstream then (s.1, m) else (m, s.2).

Definition well_named (kv : string * SObj) : Prop := soName kv.2 = kv.1 ∧ soNamespace kv.2 = "default".

Definition seen (s : Servers) (rc : bool) (ns : option string) : gmap string SObj :=
  if decide (ns = Some "default") then filter well_named (side rc s) else ∅.

Definition write_object (rc : bool) (ns : option string) (u : SObj) (s : Servers) : option string * Servers :=
  if decide (ns = Some "default" ∧ soNamespace u = "default")
  then (None, set_side rc (<[soName u := u]> (side rc s)) s) else (Some "wrong namespace", s).

Definition two_servers : DynamicClient bool string Servers :=
  MkDynamicClient
    (λ rc ns name s, match seen s rc ns !! name with Some u => Found u | None => NotFound end)
    (λ rc ns s, if decide (ns = Some "default") then Found ((map_to_list (seen s rc ns)).*2) else NotFound)
    write_object write_object write_object
    (λ rc ns name s, if decide (ns = Some "default") then (None, set_side rc (delete name (side rc s)) s)
                     else (Some "wrong namespace", s)).

Lemma seen_default s rc : seen s rc (Some "default") = filter well_named (side rc s).
Proof. reflexivity. Qed.

Lemma side_set rc m s : side rc (set_side rc m s) = m.
Proof. by destruct rc. Qed.

Lemma write_object_ok s s' rc ns u :
  write_object rc ns u s = (None, s') → ∃ v, accepted u v ∧ seen s' rc ns = <[soName u := v]> (seen s rc ns).
Proof.
  unfold write_object. case_decide as Hd; [|done]. destruct Hd as [-> Hns]. intros [= <-]. exists u.
  split; [apply shows_refl|]. by rewrite !seen_default side_set map_filter_insert_True.
Qed.

#[export] Instance two_servers_ok : DynamicClientOk two_servers seen.
Proof.
  split; [|..|exact write_object_ok|exact write_object_ok|].
  - intros s rc ns name u _. unfold seen. case_decide as Hns; [|by rewrite lookup_empty]. subst ns.
    by intros [_ [Hn Hs]]%map_lookup_filter_Some.
  - intros s rc ns name. cbn. by destruct (seen s rc ns !! name).
  - intros s rc ns _. cbn. destruct (decide (ns = Some "default")) as [-> |Hns];
      [|by unfold seen; destruct (decide (ns = Some "default"))].
    set (m := seen s rc (Some "default")).
    assert (∀ name u, m !! name = Some u → soName u = name) as Hkey.
    { intros name u. unfold m. rewrite seen_default. by intros [_ [Hn _]]%map_lookup_filter_Some. }
    split.
    + rewrite -list_fmap_compose. erewrite (list_fmap_ext _ fst); [apply NoDup_fst_map_to_list|].
      intros i [name u] Hi%list_elem_of_lookup_2%elem_of_map_to_list. cbn. by apply Hkey.
    + intros u. rewrite list_elem_of_fmap. split.
      * intros ([name u'] & -> & Hu%elem_of_map_to_list). cbn. by rewrite (Hkey _ _ Hu).
      * intros Hu. exists (soName u, u). split; [done|]. by apply elem_of_map_to_list.
  - intros s s' rc ns name. cbn. unfold seen. case_decide as Hns; [|done]. intros [= <-].
    by rewrite side_set map_filter_delete.
Qed.

Lemma write_object_answers rc u s : soNamespace u = "default" → (write_object rc (Some "default") u s).1 = None.
Proof. intros Hns. unfold write_object. by rewrite decide_True. Qed.

Lemma two_servers_answer rc : answers two_servers seen rc (Some "default").
Proof.
  split; [|by eexists|by intros s u _ Hns _ _; apply write_object_answers|by intros s u d _ Hns _ _; apply write_object_answers|done].
  intros s name err. cbn. by destruct (seen s rc (Some "default") !! name).
Qed.

(** A ConfigMap with annotations. *)
Definition config_map (name data : string) (annotations : option (gmap string string)) : SObj :=
  MkSObject "v1" "ConfigMap" (MkUMeta name "default" "" "" "" "" None None annotations [] []) NoStatus {["data" := data]}.
Definition owned_by (key name : string) : gmap string string := {[key := "ConfigMap/default/" +:+ name]}.

Definition client_of (rc : bool) : Client bool := MkClient (Some rc) true false.
Definition no_factory : ClientFactory bool := MkClientFactory None (λ _ _, None) (λ _, false).
Definition config_map_gk : GroupKind := MkGroupKind "" "ConfigMap".
Definition a_syncer : Syncer bool :=
  MkSyncer no_factory no_factory {[config_map_gk := client_of false]} {[config_map_gk := client_of true]}.
Definition named (name : string) : EdgeSyncConfigResource :=
  MkEdgeSyncConfigResource "ConfigMap" "" "v1" name "default".
Definition no_spec_group (group : string) (content : gmap string string) : gmap string string := content.

(** Upstream "new" and "changed"; downstream "changed", "gone" and one that is not the syncer's. *)
Definition servers : Servers :=
  ({["new" := config_map "new" "1" None; "changed" := config_map "changed" "2" None]},
   {["changed" := config_map "changed" "0" None;
     "gone" := config_map "gone" "3" (Some (owned_by downsyncKey "gone"));
     "theirs" := config_map "theirs" "4" None]}).

Definition outcome {A B} (res : SResult A * B) : bool := match res.1 with Done _ => true | _ => false end.

Lemma outcome_Done {B} (res : SResult unit * B) : outcome res = true → res = (Done (), res.2).
Proof. by destruct res as [[[]| |] s]. Qed.

Lemma DownSyncer_SyncOne_right_witness :
  ∃ s', DownSyncer_SyncOne two_servers false no_spec_group a_syncer (named "changed") [] servers = (Done (), s') ∧
    synced_down (seen servers false (Some "default") !! "changed") (seen servers true (Some "default") !! "changed")
      (seen s' true (Some "default") !! "changed").
Proof.
  destruct (DownSyncer_SyncOne_right two_servers seen no_spec_group a_syncer (named "changed") [] false true true false false
    eq_refl eq_refl servers) as [Hright Hreturns]; [discriminate|].
  destruct (Hreturns (two_servers_answer false) (two_servers_answer true)) as [s' Hs'].
  exists s'. assert (DownSyncer_SyncOne two_servers false no_spec_group a_syncer (named "changed") [] servers = (Done (), s')) as Hrun.
  { rewrite Hs'. evaluated. }
  split; [exact Hrun|]. exact (proj1 (Hright s' Hrun)).
Defined.

Lemma DownSyncer_SyncMany_right_witness :
  ∃ s', DownSyncer_SyncMany two_servers false no_spec_group a_syncer (named "*") [] servers = (Done (), s') ∧
    synced_down (seen servers false (Some "default") !! "gone") (seen servers true (Some "default") !! "gone")
      (seen s' true (Some "default") !! "gone").
Proof.
  eexists. split; [apply outcome_Done; evaluated|].
  refine (proj1 (DownSyncer_SyncMany_right two_servers seen no_spec_group a_syncer (named "*") [] false true true false false
    eq_refl eq_refl servers _) _ _ "gone"); [discriminate|apply outcome_Done; evaluated].
Defined.

Lemma create_only_update_panics_witness :
  DownSyncer_SyncOne two_servers false no_spec_group a_syncer (named "cm") []
    ({["cm" := config_map "cm" "1" (Some {[DownsyncOverwriteKey := "false"]})]}, {["cm" := config_map "cm" "0" None]})
  = (Panicked, ({["cm" := config_map "cm" "1" (Some {[DownsyncOverwriteKey := "false"]})]},
                {["cm" := config_map "cm" "0" None]})).
Proof.
  apply (create_only_update_panics two_servers no_spec_group a_syncer (named "cm") [] false true true false false
    eq_refl eq_refl _ (config_map "cm" "1" (Some {[DownsyncOverwriteKey := "false"]})) (config_map "cm" "0" None));
    evaluated.
Defined.

Lemma UpSyncer_right_witness :
  ∃ s', UpSyncer_syncMany two_servers false no_spec_group a_syncer (named "*") [] servers = (Done (), s') ∧
    synced_up true (seen servers true (Some "default") !! "theirs") (seen servers false (Some "default") !! "theirs")
      (seen s' false (Some "default") !! "theirs").
Proof.
  destruct (UpSyncer_right two_servers seen no_spec_group a_syncer (named "*") [] false true true false false
    eq_refl eq_refl servers) as (_ & Hright & Hreturns); [discriminate|].
  destruct (Hreturns (two_servers_answer false) (two_servers_answer true)) as [_ [s' Hs']].
  exists s'. split; [exact Hs'|]. exact (Hright s' Hs' "theirs").
Defined.

Lemma one_unknown_resource_blocks_witness :
  ∃ err, DownSyncer_SyncOne two_servers false no_spec_group (MkSyncer no_factory no_factory ∅ ∅) (named "cm") [] servers
         = (Failed err, servers).
Proof.
  apply (one_unknown_resource_blocks two_servers false no_spec_group (MkSyncer no_factory no_factory ∅ ∅)
    (MkEdgeSyncConfigResource "Widget" "example.com" "v1" "w" "default") [named "cm"] [] (named "cm") servers);
    [reflexivity|reflexivity|by left|reflexivity].
Defined.

(** An API server without objects. *)
Definition empty_server : DynamicClient bool string unit :=
  MkDynamicClient (λ _ _ _ _, NotFound) (λ _ _ _, Found []) (λ _ _ _ s, (None, s)) (λ _ _ _ s, (None, s))
    (λ _ _ _ s, (None, s)) (λ _ _ _ s, (None, s)).

Lemma UpSyncer_SyncMany_returns_witness :
  ∃ res s', UpSyncer_SyncMany empty_server false no_spec_group 5 a_syncer
              (MkEdgeSyncConfigResource "ConfigMap" "" "v1" "*" "*") [] () = (res, s') ∧ res ≠ Done None.
Proof.
  destruct (UpSyncer_SyncMany_returns empty_server false no_spec_group 3 a_syncer
    (MkEdgeSyncConfigResource "ConfigMap" "" "v1" "*" "*") [] ()) as (res & s' & Hres & Hne & _).
  - intros rc ns s l u [= <-] []%not_elem_of_nil.
  - by exists res, s'.
Defined.

(** The mailbox space offers ConfigMaps. *)
Definition config_map_api : list APIGroupResources :=
  [MkAPIGroupResources "" {["v1" := [MkAPIResource "configmaps" "ConfigMap" "" true]]}].

(** Two SyncerConfigs arrive, a refresh fails, and one of them goes away again. *)
Definition asks_for (config name : string) : ReceivedSyncerConfig :=
  MkReceivedSyncerConfig config (MkNamespaceScopeDownsyncs [] [])
    [MkNamespaceScopeDownsyncObjects cm_gr "v1" [MkNamespaceAndNames "default" [name]]] [] [].
Definition manager_history : list ManagerOp :=
  [Arrives (asks_for "one" "cm"); Refreshed (λ _, None) (λ _, None); Arrives (asks_for "two" "other");
   Refreshed (λ _, Some config_map_api) (λ _, Some []); Gone "two"].

Lemma Refresh_syncs_what_is_asked_witness :
  let m := syncConfigManager (Refresh (λ _, Some config_map_api) (λ _, Some [])
             (for_each manager_history run_manager_op (NewSyncerConfigManager NewSyncConfigManager))) in
  named "cm" ∈ GetDownSyncedResources m ∧ named "other" ∉ GetDownSyncedResources m.
Proof.
  destruct (Refresh_syncs_what_is_asked manager_history (λ _, Some config_map_api) (λ _, Some [])
    (λ _, config_map_api) (λ _, [])) as [Hd _]; [done|].
  assert (present_after manager_history = {["one" := asks_for "one" "cm"]}) as Hp by (apply map_eq; intros k; vm_compute; done).
  rewrite Hp in Hd. split.
  - apply Hd. exists "one", (asks_for "one" "cm"). split; [reflexivity|]. right. left.
    eexists _, _. split; [by left|]. split; [by left|]. right. exists "ConfigMap", "cm". split_and!; [|by left|reflexivity].
    eexists _, _. split_and!; [reflexivity|by left|by left|reflexivity].
  - intros (key & sc & [<- <-]%lookup_singleton_Some & [(ns & Hns & _)|[(o & nan & Ho & Hnan & Hr)|(row & _ & _ & Hrow & _)]])%Hd.
    + by apply not_elem_of_nil in Hns.
    + apply list_elem_of_singleton in Ho as ->. apply list_elem_of_singleton in Hnan as ->.
      destruct Hr as [[_ Hr]|(kind & name & _ & Hname & Hr)]; [done|].
      apply list_elem_of_singleton in Hname as ->. discriminate.
    + by apply not_elem_of_nil in Hrow.
Defined.

Lemma syncer_follows_projector_witness :
  ∃ syncfg, named "cm" ∈ GetDownSyncedResources (after_Refresh (received syncfg) config_map_api []).
Proof.
  destruct (good_is_right DefaultResourceModes) with (t := wp_tables) (w := a_projector) (destination := dest)
    as (rel & _ & Hwf & Hright); [|exact a_projector_tables|].
  { intros gr. rewrite GoesToEdge_default. by eexists. }
  exists (MkSyncerConfig "the-one" "" (syncerConfigSpecFromRelations rel)).
  destruct (syncer_follows_projector DefaultResourceModes wp_tables dest
    (MkSyncerConfig "the-one" "" (syncerConfigSpecFromRelations rel)) config_map_api []) as (Hns & _).
  - destruct (made_good "the-one" "" rel Hwf) as [Hi Hg]. by apply Hright.
  - apply (Hns cm_gr "default" "cm").
    + split; [by vm_compute|]. exists "wds". by eexists.
    + eexists _, _. split_and!; [reflexivity|by left|by left|reflexivity].
Defined.
