(* ===== verification/SpaceWitnesses.v ===== *)
(** The theorems about the watch on API resources, the space manager, the space
    providers, the client library of the space framework, the mailbox controller and the
    informer on mailboxes at concrete inputs: a discovery client for two groups, three
    clusters of which one is not ready, two mailbox workspaces, and an API server that keeps the Spaces and their secrets in maps. *)

From stdpp Require Import pretty.
From S2P Require Import Prelude Tuples Interfaces Slices Sets Maps GoStrings Types KbUser HashDomains HashMap.
From S2P Require Import Relations FactoredMap Receivers Joins Organizer WorkloadProjector SyncerConfig WhatResolver.
From S2P Require Import Effects Base64 ApiWatch ApiWatchFacts SpaceManager SpaceManagerFacts SpaceClient.
From S2P Require Import SpaceProviders MailboxWatch Mailbox MailboxFacts WhereWitnesses ObjectWitnesses.

#[local] Existing Instance canonical_range.

(** * API watch *)

Definition widgets_crd : CustomResourceDefinition := MkCRD "example.com" ["v1"; "v2"] "widgets".
Definition widgets_id : objectID := MkObjectID "apiextensions.k8s.io/v1" "CustomResourceDefinition" "widgets.example.com".

Definition discovered (name : string) : DiscoveredResource := MkDiscoveredResource name "" true "" "Widget" ["get"].
Definition discovery (cache : unit) : list APIGroup * list APIResourceList * unit :=
  ([MkAPIGroup "example.com" "v1"],
   [MkAPIResourceList "example.com/v1" [discovered "widgets"; discovered "widgets/status"; discovered "gone/scale"];
    MkAPIResourceList "example.com/v2" [discovered "widgets"]], cache).
Definition preferred (cache : unit) : list APIResourceList * unit := ([], cache).
Definition parse_gv (gv : string) : option (string * string) :=
  match str_Split gv "/" with [group; version] => Some (group, version) | [version] => Some ("", version) | _ => None end.
Definition invalidate (cache : unit) : unit := cache.

Abbreviation W := (resourcesListWatcher unit).

(** A list, a watch from its version, and then a definition. *)
Definition listed_once : W := (List_begin (newResourcesListWatcher true ())).2.
Definition watching : W := (Watch "2" (Some 60%Z) listed_once).2.
Definition defined : W :=
  default watching (onInvalidator invalidate (Some CRDAnalyzer) 5%Z (InvalidatorAdded (widgets_crd, "widgets.example.com")) watching).

Definition watch_history : History := MkHistory ∅ 1 {[O := 1%Z]}.
Definition defined_history : History :=
  MkHistory (<[widgets_id := list_to_set (EnumerateDefinedResources CRDAnalyzer widgets_crd)]> ∅) 2 {[O := 1%Z]}.

Lemma defined_reachable : reachable invalidate discovery preferred parse_gv defined defined_history.
Proof.
  exists true, (). eapply rtc_l; [exact (step_list_begin _ _ _ _ 2%Z (newResourcesListWatcher true ()) listed_once _ eq_refl)|].
  eapply rtc_l; [exact (step_watch _ _ _ _ "2" (Some 60%Z) O listed_once watching _ eq_refl)|].
  eapply rtc_l; [|apply rtc_refl].
  exact (step_event _ _ _ _ _ CRDAnalyzer 5%Z (InvalidatorAdded (widgets_crd, "widgets.example.com")) watching defined _ eq_refl).
Qed.

Definition widgets_spec : ResourceSpec :=
  MkResourceSpec "widgets" "" true "example.com" "v1" "Widget" ["get"] [] [MkDefiner "CustomResourceDefinition" "widgets.example.com"].

Definition widgets_definer : Definer := MkDefiner "CustomResourceDefinition" "widgets.example.com".

Lemma definers_tracked_witness :
  widgets_definer ∈ rsDefiners widgets_spec ∧
  ∃ oid, widgets_definer = MkDefiner (oidKind oid) (oidName oid) ∧
    MkGroupVersionResource "example.com" "v1" "widgets" ∈ default ∅ (hDefinitions defined_history !! oid).
Proof.
  assert (widgets_definer ∈ rsDefiners widgets_spec) as Hin by by left.
  split; [exact Hin|].
  apply (definers_tracked invalidate discovery preferred parse_gv defined defined_history ("example.com", "v1")
    [discovered "widgets"] widgets_spec defined_reachable); [|exact Hin].
  replace (enumAPIResourcesLocked ("example.com", "v1") [discovered "widgets"] defined) with [widgets_spec]
    by evaluated. by left.
Defined.

Lemma watches_current_witness :
  (O ∉ ended defined) ∧ needRelist defined = true ∧ O ∈ ended (cycle 30000000000 defined).2.
Proof.
  split_and!; [apply (bool_decide_eq_true_1 (O ∉ ended defined)); evaluated|done|].
  apply (watches_current invalidate discovery preferred parse_gv defined defined_history defined_reachable);
    [done|vm_compute; discriminate|by eexists].
Defined.

Lemma listWithSubresources_right_witness :
  ∃ ll, (listWithSubresources discovery parse_gv "7" defined).1 = Some (concat ll) ∧ length ll = 2%nat.
Proof.
  destruct (listWithSubresources_right discovery parse_gv "7" defined (discovery ()).1.1 (discovery ()).1.2 () eq_refl)
    as (ll & Hll & Hall).
  exists ll. split; [exact Hll|]. by apply Forall2_length in Hall.
Defined.

(** * The space framework *)

(** The Spaces and the secrets, by namespace and name. *)
Definition SpaceMaps : Type := gmap (string * string) Space * gmap (string * string) Secret.

Definition kind_desc (name : string) : SpaceProviderDesc :=
  MkSpaceProviderDesc name KindProviderType None "" SpaceProviderDescPhaseReady.

Definition map_server : SpaceServer SpaceMaps :=
  MkSpaceServer
    (λ ns sp s, if decide (is_Some (s.1 !! (ns, spName sp))) then (true, (put_space ns sp s.1, s.2)) else (false, s))
    (λ ns sp s, if decide (is_Some (s.1 !! (ns, spName sp))) then (OutcomeExists, s)
                else (OutcomeOk, (<[(ns, spName sp) := defaulted ns sp]> s.1, s.2)))
    (λ ns name s, (bool_decide (is_Some (s.1 !! (ns, name))), (delete (ns, name) s.1, s.2)))
    (λ name _, Some (kind_desc name))
    (λ d s, (Some d, s)) (λ _ s, (OutcomeOk, s)) (λ _ s, (OutcomeOk, s))
    (λ ns name s, s.2 !! (ns, name))
    (λ ns sec s, if decide (is_Some (s.2 !! (ns, secName sec))) then (OutcomeExists, s)
                 else (OutcomeOk, (s.1, <[(ns, secName sec) := sec]> s.2)))
    (λ ns sec s, if decide (is_Some (s.2 !! (ns, secName sec))) then (true, (s.1, <[(ns, secName sec) := sec]> s.2))
                 else (false, s))
    (λ ns name s, (bool_decide (is_Some (s.2 !! (ns, name))), (s.1, delete (ns, name) s.2))).

(** The same, but refusing all updates of Spaces. *)
Definition refusing_server : SpaceServer SpaceMaps :=
  MkSpaceServer (λ _ _ s, (false, s)) (ss_CreateSpace map_server) (ss_DeleteSpace map_server)
    (ss_GetProviderDesc map_server) (ss_UpdateProviderDesc map_server) (ss_CreateNamespace map_server)
    (ss_DeleteNamespace map_server) (ss_GetSecret map_server) (ss_CreateSecret map_server)
    (ss_UpdateSecret map_server) (ss_DeleteSecret map_server).

#[export] Instance map_server_ok : SpaceServerOk map_server fst snd.
Proof. split; cbn; intros; repeat case_decide; by simplify_eq. Qed.

#[export] Instance refusing_server_ok : SpaceServerOk refusing_server fst snd.
Proof. split; cbn; intros; repeat case_decide; by simplify_eq. Qed.

Lemma map_server_writes ns : writes_secrets map_server snd ns.
Proof.
  split; cbn; intros sec s Hs; [rewrite decide_False //|rewrite decide_True //..]. rewrite Hs. by intros [].
Qed.

Lemma map_server_takes ns sp (s : SpaceMaps) : is_Some (s.1 !! (ns, spName sp)) → takes_update map_server fst ns sp s.
Proof. intros Hs s' Heq. cbn. by rewrite Heq decide_True. Qed.

Definition new_space : Space :=
  MkSpace "spaceprovider-prov" "edge1" "u1" false ∅ [] "prov" SpaceTypeManaged AccessScopeBoth "" None None.
Definition made_space : Space := set_finalizers ["other"; spaceFinalizerName] (set_phase SpacePhaseInitializing new_space).
Definition prov : provider nat := MkProvider "prov" 7%nat (Some true) "spaceprovider-prov" "*".
Definition manager_with (sp : Space) : controller nat SpaceMaps :=
  MkController {["prov" := prov]} {["spaceprovider-prov/edge1" := sp]} ∅ [] ({[("spaceprovider-prov", "edge1") := sp]}, ∅).
Definition both_configs : SpaceInfo := MkSpaceInfo "edge1" {[INCLUSTER := "in"; EXTERNAL := "out"]}.

Lemma new_space_requested_witness :
  ∃ c', reconcileSpace map_server "spaceprovider-prov/edge1" (manager_with new_space) = (Done (), c') ∧
    requests c' = [CreateRequest 7%nat "edge1" ""].
Proof.
  destruct (new_space_requested map_server fst snd "spaceprovider-prov/edge1" new_space (kind_desc "prov") prov
    (manager_with new_space)) as (c' & Hrun & _ & Hreq & _); [done..|].
  exists c'. split; [exact Hrun|exact Hreq].
Defined.

Lemma failed_update_stuck_witness :
  ∃ err c', reconcileSpace refusing_server "spaceprovider-prov/edge1" (manager_with new_space) = (Failed err, c') ∧
    reconcileSpace refusing_server "spaceprovider-prov/edge1" c' = (Done (), c') ∧ requests c' = [].
Proof.
  destruct (failed_update_stuck refusing_server fst snd "spaceprovider-prov/edge1" new_space (kind_desc "prov") prov
    (manager_with new_space)) as (err & c' & Hrun & _ & Hagain & Hreq); [done..|].
  exists err, c'. split_and!; [exact Hrun|exact Hagain|exact Hreq].
Defined.

Lemma managed_space_lifecycle_witness :
  ∃ c', processProviderWatchEvent map_server prov (MkWatchEvent EventAdded both_configs "edge1") (manager_with made_space)
    = (Done (), c') ∧
    (server c').1 !! ("spaceprovider-prov", "edge1") = Some (ready (with_secrets prov made_space)).
Proof.
  destruct (managed_space_lifecycle map_server fst snd prov made_space both_configs (manager_with made_space))
    as [Hadded _]; [done..|].
  destruct (Hadded eq_refl) as (c' & Hrun & Hsp & _); [by split|apply map_server_writes|apply map_server_takes; by eexists|].
  exists c'. split; [exact Hrun|exact Hsp].
Defined.

Definition rest_config (kubeconfig : string) : option string := Some ("rest:" +:+ kubeconfig).

Lemma config_reaches_client_witness :
  ∃ c', processProviderWatchEvent map_server prov (MkWatchEvent EventAdded both_configs "edge1") (manager_with made_space)
    = (Done (), c') ∧
    let GetSpace ns name := (server c').1 !! (ns, name) in
    let GetSecret ns name := (server c').2 !! (ns, name) in
    ∃ m', controller_process true GetSecret rest_config {["spaceprovider-prov/edge1" := ready (with_secrets prov made_space)]}
        "spaceprovider-prov/edge1" NewMultiSpace = (Done (), m') ∧
      ConfigForSpace true GetSpace GetSecret rest_config "edge1" "spaceprovider-prov" m' = (Done "rest:out", m').
Proof.
  destruct (config_reaches_client map_server fst snd true rest_config prov made_space both_configs
    (manager_with made_space) "rest:out") as (c' & Hrun & Hclient);
    [done|done|done|by split|apply map_server_writes|apply map_server_takes; by eexists|done|done|done|].
  exists c'. split; [exact Hrun|].
  destruct (Hclient {["spaceprovider-prov/edge1" := ready (with_secrets prov made_space)]} NewMultiSpace) as (m' & Hp & Hc).
  { change (Some (ready (with_secrets prov made_space)) = (server c').1 !! ("spaceprovider-prov", "edge1")).
    replace c' with (processProviderWatchEvent map_server prov (MkWatchEvent EventAdded both_configs "edge1")
      (manager_with made_space)).2 by (rewrite Hrun; reflexivity). reflexivity. }
  exists m'. split; [exact Hp|exact Hc].
Defined.

(** * The mailbox controller *)

Definition target1 : MailboxTarget :=
  MkMailboxTarget (MkObjectMeta "kb1-st1" "" "uid1" ∅ {[clusterNamespaceKey := "kb1"]}) false.
Definition knows_kb1 : KubeBindSpaceRelation :=
  MkKubeBindSpaceRelation (λ id, if decide (id = "wds1") then "kb1" else "") (λ kb, if decide (kb = "kb1") then "wds1" else "").
Definition knows_none : KubeBindSpaceRelation := MkKubeBindSpaceRelation (λ _, "") (λ _, "").
Definition no_spaces (name : string) : SpaceGet := SpaceNotFound.
Definition script_succeeds (cmd : string) (s : SpaceMaps) : ScriptRun * SpaceMaps := (Exited true, s).
Definition delete_space (ns name uid : string) (s : SpaceMaps) : Outcome * SpaceMaps := (OutcomeOk, (delete (ns, name) s.1, s.2)).
Definition mailbox_controller (reln : KubeBindSpaceRelation) : mbCtl SpaceMaps := MkMbCtl ∅ no_spaces reln [] (∅, ∅).
Abbreviation mailbox_sync1 :=
  (mbCtl_sync1 (ss_CreateSpace map_server) delete_space script_succeeds "prov" "spaceprovider-prov").

Lemma mailbox_of_target_witness :
  ∃ c1 c2 c3, target_added target1 (mailbox_controller knows_kb1) = (Done (), c1) ∧
    mailbox_sync1 (refSyncTarget "kb1-st1") c1 = (Done (), c2) ∧
    mailbox_sync1 (refMailbox "wds1-mb-uid1") c2 = (Done (), c3) ∧
    (mbServer c3).1 !! ("spaceprovider-prov", "wds1-mb-uid1") =
      Some (defaulted "spaceprovider-prov" (mailbox_space "prov" "wds1-mb-uid1" "st1")).
Proof.
  destruct (mailbox_of_target (PC:=nat) map_server fst snd delete_space script_succeeds "prov"
    "spaceprovider-prov" target1 (mailbox_controller knows_kb1) "st1" "kb1")
    as (c1 & c2 & c3 & H1 & _ & H2 & _ & H3 & _ & Hmade & _); [done|done|done|by vm_compute| |done|done|].
  { intros n st values. cbn. rewrite delete_empty. by rewrite lookup_empty. }
  exists c1, c2, c3. split_and!; [exact H1|exact H2|exact H3|exact Hmade].
Defined.

Definition mailbox_there : Space :=
  MkSpace "spaceprovider-prov" "wds1-mb-uid1" "u1" false ∅ [] "prov" SpaceTypeManaged AccessScopeBoth SpacePhaseReady None None.

Lemma deleted_target_mailbox_stays_witness :
  ∃ c1, target_removed target1
      (MkMbCtl {["kb1-st1" := (target1, ["wds1-mb-uid1"])]} (λ _, GotSpace mailbox_there) knows_kb1 [] (∅, ∅)) = (Done (), c1) ∧
    mailbox_sync1 (refSyncTarget "kb1-st1") c1 = (Done (), c1).
Proof.
  destruct (deleted_target_mailbox_stays map_server delete_space script_succeeds "prov" "spaceprovider-prov" target1
    "wds1-mb-uid1" mailbox_there
    (MkMbCtl {["kb1-st1" := (target1, ["wds1-mb-uid1"])]} (λ _, GotSpace mailbox_there) knows_kb1 [] (∅, ∅)) (∅, ∅))
    as (c1 & H1 & _ & _ & H2 & _); [by vm_compute| |done|done|done|].
  { intros n st values. cbn. rewrite delete_singleton_eq. by rewrite lookup_empty. }
  exists c1. split; [exact H1|exact H2].
Defined.

Lemma late_space_id_no_mailbox_witness :
  ∃ c3, mailbox_sync1 (refMailbox "wds1-mb-uid1") c3 = (Done (), c3) ∧ mbServer c3 = (∅, ∅) ∧
    mbQueue c3 = [refSyncTarget "kb1-st1"; refSyncTarget "kb1-st1"; refMailbox "wds1-mb-uid1"].
Proof.
  destruct (late_space_id_no_mailbox map_server delete_space script_succeeds "prov" "spaceprovider-prov" target1
    (mailbox_controller knows_none) "st1" "kb1" knows_kb1)
    as (c1 & c2 & c3 & H1 & H2 & Hq2 & H3 & Hq3 & H4); [done|done|done|by vm_compute| |done|].
  { intros n st values. cbn. rewrite delete_empty. by rewrite lookup_empty. }
  exists c3. split_and!; [exact H4| |].
  - apply (f_equal snd) in H1. cbn [snd] in H1. subst c1. apply (f_equal snd) in H2. cbn [snd] in H2. subst c2.
    apply (f_equal snd) in H3. cbn [snd] in H3. subst c3. reflexivity.
  - apply (f_equal snd) in H1. cbn [snd] in H1. subst c1. rewrite Hq3 Hq2. reflexivity.
Defined.

(** * Providers and mailbox workspaces *)

Definition kubeconfig_of (name : string) : option string := if decide (name = "starting") then None else Some ("config of " +:+ name).
Definition kind_tick : list WatchEvent * gset string :=
  KindWatcher_tick (Some ["old"; "new"; "starting"]) kubeconfig_of {["old"; "gone"]}.

Lemma poll_reports_difference_witness :
  track kind_tick.1 {["old"; "gone"]} = {["old"; "new"]} ∧ NoDup (weName <$> kind_tick.1).
Proof.
  destruct (poll_reports_difference (KindClusterProvider_ListSpacesNames (Some ["old"; "new"; "starting"]))
    (KindClusterProvider_Get kubeconfig_of) {["old"; "gone"]} kind_tick.1 kind_tick.2) as (Htrack & Hnd & _).
  { apply surjective_pairing. }
  split; [|exact Hnd]. rewrite Htrack. evaluated.
Defined.

(** The second workspace has an item that is newer than the list of the first one. *)
Definition workspace_list (scoped : nat) : Lookup (SubList string) :=
  match scoped with
  | O => Found (MkSubList ("", "", "") (Some [MkMItem "a" "3"]) (Some "5"))
  | _ => Found (MkSubList ("", "", "") (Some [MkMItem "b" "4"; MkMItem "c" "8"]) (Some "9"))
  end.
Definition two_workspaces : crossClusterListerWatcher nat := MkCrossClusterListerWatcher {["ws1" := O; "ws2" := 1%nat]} "ws1" O.
Definition two_listed : Z * list (MItem string) * crossClusterListerWatcher nat :=
  clw_List ("", "", "") workspace_list two_workspaces.

Lemma workspace_list_old scoped rv items : usableAnswer ("", "", "") workspace_list scoped = Some (rv, items) → not_newer items rv.
Proof.
  destruct scoped as [|n]; intros [= <- <-] item Hin.
  - apply list_elem_of_singleton in Hin as ->. by exists 3%Z.
  - apply elem_of_cons in Hin as [-> |[-> |[]%not_elem_of_nil]%elem_of_cons]; [by exists 4%Z|by exists 8%Z].
Qed.

Lemma clw_List_exact_witness :
  two_listed.1.1 = 5%Z ∧ MkMItem "b" "4" ∈ two_listed.1.2 ∧ ¬ MkMItem "c" "8" ∈ two_listed.1.2.
Proof.
  destruct (clw_List_exact ("", "", "") workspace_list two_workspaces two_listed.1.1 two_listed.1.2 two_listed.2)
    as (Hitems & _ & _).
  { evaluated. }
  { intros name scoped rv items _. apply workspace_list_old. }
  { rewrite -!surjective_pairing. reflexivity. }
  assert (two_listed.1.1 = 5%Z) as Hv by evaluated. split_and!; [exact Hv| |].
  - apply Hitems. exists "ws2", 1%nat, 9%Z, [MkMItem "b" "4"; MkMItem "c" "8"], 4%Z. rewrite Hv.
    split_and!; [evaluated|evaluated|by left|evaluated|done].
  - intros (name & scoped & rv & l & n & _ & _ & _ & [= <-] & Hn)%Hitems. rewrite Hv in Hn. by apply Hn.
Defined.
